(* ===== verification/_CoqProject ===== *)
-Q . S2P
Prelude.v
GoStrings.v
CircuitBreaker.v
Json.v
JsonFacts.v
JsonRoundTrip.v
GoTime.v
Float64.v
Models.v
Ext.v
CanonicalJson.v
Concurrent.v
WalCodec.v
Checkpoint.v
Types.v
Evidence.v
EvidenceFacts.v
EvidenceTheorems.v
EvidenceExamples.v
Capability.v
Governance.v
TaskDef.v
Store.v
ProofState.v
Reconciliation.v
StoreLogic.v
StoreSpec.v
StoreTheorems.v
ReconciliationFacts.v
StoreExamples.v
InputRefs.v
InputRefsFacts.v
Redaction.v
RedactionFacts.v
TargetPolicy.v
TargetPolicyFacts.v
Actions.v
ActionFacts.v
Contracts.v
Registry.v
RegistryHandlers.v
RegistryLogic.v
RegistryInv.v
RegistrySteps.v
RegistryFacts.v
RegistryReplies.v
RegistryServe.v
RegistryTheorems.v
RegistryExamples.v
Receipts.v
ReceiptFacts.v
RuntimeClient.v
RuntimeSelector.v
SelectorFacts.v
CoordState.v
Artifacts.v
Robotics.v
Coordinator.v
Dispatch.v
Callbacks.v
Submission.v
PolicyProposals.v
CoordLogic.v
RoboticsFacts.v
ArtifactFacts.v
CoordHandlers.v
DispatchLogic.v
DispatchFacts.v
CallbackFacts.v
SubmissionFacts.v
SubmissionTheorems.v
ProposalFacts.v
CoordOps.v
CoordTheorems.v
CoordExamples.v
DispatchExamples.v
CallbackExamples.v
ProposalExamples.v
