(* ===== verification/Prelude.v ===== *)
(** * Overture: durable task execution, verified

    Overture is a Go control plane that runs tasks of tenants on remote
    runtimes.  A task is submitted over HTTP, stored in PostgreSQL, dispatched
    to a runtime, checkpointed while it runs, and redispatched elsewhere when
    the runtime falls silent; some tasks wait for a human, some have effects
    that must not happen twice.  This library models that core, the package
    [coordinator] and what it rests on, and proves what makes it correct.

    ** The program's parts and where they are modelled

    - Shared vocabulary.  Prelude.v (this file): Go errors, results, the
      state-passing computations with their triples.  GoStrings.v: the string,
      base64, hex and UTF-8 functions of the standard library.  Json.v and
      JsonFacts.v: encoding/json, texts and decoders, and that distinct values
      have distinct texts.  JsonRoundTrip.v: what is printed is read back, and
      the parser's fuel never decides.  Float64.v: float64 and the three ways the code
      prints one.  GoTime.v: RFC 3339 times.  Ext.v: what is not in this repository
      (SHA-256, Ed25519, net/url, UUID texts, JSONB printing, the environment)
      as the class [Ext], its documented laws as [ExtLaws];
      internal/env.go and internal/runtime_endpoint.go on top.
    - Checkpoints.  WalCodec.v: [WalEntry] and its JSON
      (checkpoint_store.go).  Checkpoint.v: the consistency tests and
      [BuildCumulativeRecoveryCheckpoint] with a declarative reference.
    - Governance.  Types.v: the records.  Capability.v: capability policy and
      signed permission envelopes (task_governance.go).  Governance.v: the
      action policy, irreversibility, forward resume and hand-off
      (execution_governance.go).  TaskDef.v: validation of task definitions
      (task_coordinator.go, from [normalizePublicTaskDefinition]).
    - The store.  Store.v and ProofState.v: the tables as one record [DB], every
      operation of checkpoint_store.go and execution_governance.go that
      changes them as statements and transactions.  A statement draws its fate
      from a stream of faults: it runs, fails, or runs and loses its answer.
      StoreLogic.v: triples for statements.  StoreSpec.v: the contract, an
      abstract task machine [lifecycle], the relation [db_step] an operation
      may realise and the invariant [db_ok].  StoreTheorems.v,
      StoreExamples.v: the theorems and concrete runs.
    - Encrypted inputs.  InputRefs.v, InputRefsFacts.v: redaction, the keyring,
      protection and rehydration of task definitions (input_redaction.go,
      input_ref_crypto.go, input_ref_transform.go, execution_input_refs.go);
      AES-GCM is the class [AEAD].
    - The coordinator.  CoordState.v: the tables only it writes, the world
      [CWorld] of a handler, the store operations on those tables.
      Coordinator.v: every handler of task_coordinator.go and task_approval.go
      up to the start of a goroutine.  CoordLogic.v: handlers as traces of
      store moves and goroutine starts.  CoordHandlers.v: one lemma per
      handler.  CoordOps.v: all handlers as one type of operations.
      CoordTheorems.v, CoordExamples.v: theorems and runs.
    - Receipts.  Receipts.v, ReceiptFacts.v: the canonical form, hash and
      signature of execution receipts, envelopes, chains of step receipts
      (internal/runtime_client.go and the end of [dispatchToRuntime]).
    - Artifacts.  Artifacts.v, ArtifactFacts.v: what is stored of a finished
      execution (checkpoint_store.go, execution_context.go): artifact columns,
      robotics and tool receipt audits, execution contexts, lineage, revocation
      of credential references, replay of the tool audit.
    - Robotics.  Robotics.v, RoboticsFacts.v: governed actions of a definition
      and the signed policy decisions sent with them.
    - Dispatch.  Dispatch.v: [dispatchToRuntime] as a whole, the HTTP client
      being a function from requests to answers.  DispatchLogic.v: what it may
      change, as traces and as changes of rows.  DispatchFacts.v,
      DispatchExamples.v: theorems and a run.
    - Callbacks.  Callbacks.v: the signed envelopes of runtime callbacks
      (api/runtime_callback_signature.go) and the handlers of checkpoint,
      complete, failed and cancel requests (api/routes_tasks.go).
      CallbackFacts.v, CallbackExamples.v: theorems and runs.
    - Submission.  Submission.v: the public forms of a task, the definitions
      they compile to and the submission handler (api/routes_tasks.go).
      SubmissionFacts.v, SubmissionTheorems.v: theorems and concrete forms.
    - Operator reconciliation.  Reconciliation.v, ReconciliationFacts.v:
      api/operator_reconciliation.go over the store's tables.
    - Policy proposals.  PolicyProposals.v: policyproposals/.
      ProposalFacts.v: the review workflow they implement.
      ProposalExamples.v: runs.
    - Evidence.  CanonicalJson.v: canonical JSON (internal/canonicaljson/).
      Concurrent.v: handlers whose statements interleave, and the rule their
      invariants are proved with.  Evidence.v: the batches of signed events an
      SDK uploads (api/evidence_verify.go, evidence_store.go,
      routes_evidence.go).  EvidenceFacts.v, EvidenceTheorems.v,
      EvidenceExamples.v: theorems and runs.
    - Inference.  Models.v: requests and responses (models/).
      CircuitBreaker.v: the breakers over time.  RuntimeClient.v: the inference
      half of internal/runtime_client.go.  RuntimeSelector.v, SelectorFacts.v:
      the runtime registry, failover and health polling.
    - Responses and targets.  Redaction.v, RedactionFacts.v: what of a stored
      value a response shows (api/redaction.go).  TargetPolicy.v,
      TargetPolicyFacts.v: which URLs an action may call
      (api/action_target_url_policy.go), with net.ParseIP written out and the
      resolver as a parameter.
    - Registry.  Actions.v, ActionFacts.v: action definitions and their
      normalisation (api/routes_actions.go).  Contracts.v: validation of
      contracts (api/routes_contracts.go).  Registry.v: the tables, transactions
      at PostgreSQL's default isolation, and contract_store.go.
      RegistryHandlers.v: bindings (contract_binding_store.go) and all handlers.
      RegistryLogic.v, RegistryInv.v, RegistrySteps.v: the invariant and that
      every statement keeps it, with uncommitted rows.  RegistryFacts.v,
      RegistryReplies.v, RegistryServe.v: what a request knows between its
      statements, up to its reply.  RegistryTheorems.v, RegistryExamples.v:
      theorems about all interleavings, and runs.

    ** What is proved

    - Refinement: each store operation realises at most one step of the task
      machine under every fault pattern, and every handler is a sequence of
      such steps; the integrity invariant holds in every reachable state;
      outcomes are absorbing; creation is idempotent; tenants are isolated.
    - Recovery: the cumulative checkpoint equals its reference merge; what is
      read back is what was saved; a redispatch has a usable checkpoint and no
      irreversible step behind it; dispatches follow their record; redispatches
      are bounded; approval dispatches once.
    - Policy: capabilities are denied by default; envelopes are signed for what
      was permitted; contracts only tighten; validation is exact.
    - Inputs: protection loses nothing and the keyring fails closed.
    - Dispatch: a runtime's answer stores artifacts and completes its task only
      when they verify under the key registered for the runtime; keys of
      redispatches are distinct; deadlines stay in bounds.
    - Receipts: verification accepts exactly the receipts signed over their
      canonical form, chains exactly the linked ones, and the last hash of a
      chain commits to all of it.
    - Audits: robotics decisions deny by default and are signed; a revoked
      credential keeps its artifacts out and stays revoked; a tenant's
      execution contexts are written by nobody else.
    - Callbacks: a task changes only for an envelope signed by its runtime for
      exactly that change; an accepted envelope is not accepted again.
    - Submission: what a form compiles to is read back member by member, and
      the coordinator accepts it exactly when it has a type and no empty
      checkpoint interval.
    - Reconciliation: terminal resolutions are final, requests idempotent, and
      what decodes is appended or refused for a stated reason.
    - Proposals: the store implements the review workflow, approval freezes
      content, and the events replay to the status.
    - Evidence: canonical bytes determine an object; a batch is verified exactly
      when it is a legal journal; however requests interleave and fail, a stream
      is one signed hash chain.
    - Inference: a response is accepted exactly when its artifacts verify; a
      breaker opens exactly at its threshold and recovers.
    - Registry: however requests interleave and fail, contract versions are
      append-only and unique under the hash of their bytes, an idempotency key
      stands for one contract and one answer, a binding is published only while
      its target is live and as its snapshot says, and every definition is
      well-formed; what a patch does to the approval gate.
    - Responses hide what they redact up to digest and length; a target URL is
      allowed exactly when all addresses it denotes are of its class.
    - Paths that do not work, with the theorem that shows it: failing a pending
      task, the demo failure, listing recovering tasks, the deadline reaper,
      the text heuristics on JSONB text, two defects of input protection,
      receipt counters beyond 2^53, lineage rows taken over by another tenant,
      the violation flag of the tool audit, nonce retention, updates of
      approved proposals, stale simulations.

    ** Bounds, fuel, concurrency

    Integers are [Z] with the range tests and wrap-arounds of the code written
    out.  The only fuel is in the JSON parser (the length of its text) and in
    [collect_steps] (two more than the number of steps, which is enough: the
    loop stops at the first missing step); both are shown sufficient ([parse_val_fuel],
    and the theorems that use them).  A store operation is atomic here, as its
    transaction is in PostgreSQL; handlers are modelled as atomic sequences, and
    the store's theorems, being about single operations and arbitrary
    sequences of them, cover their interleavings.

    ** Not modelled

    The rest of the HTTP API, middleware, billing, metrics and caches around the
    core; the reading of an inference stream once it is open; list queries for
    dashboards and the replay of the robotics audit; tickers and other loops
    around modelled handlers; code under attic/, which is not built; the Python
    SDK.  Where two goroutines of the coordinator interleave between statements
    of a handler, the store's theorems apply to each statement and the
    coordinator's to each handler run alone; the proposal store's update, whose
    read and write interleave with other operations, is split in two. *)

From Stdlib Require Export ZArith Lia Ascii.
From stdpp Require Export base numbers pretty sorting gmap strings list_numbers list.

(** ** Scope of the development's own notations *)
Declare Scope go_scope.
Delimit Scope go_scope with go.

(** ** Go errors

    [errors.New] values are compared by identity, so a package-level error is
    a [Sentinel] named by its text; [fmt.Errorf] without [%w] is [Errorf];
    with [%w] it is [Wrapf pre cause post], whose text is the rendered
    format. *)
Inductive goerror : Type :=
| Sentinel (text : string)
| Errorf (text : string)
| Wrapf (pre : string) (cause : goerror) (post : string).

Global Instance goerror_eq_dec : EqDecision goerror.
Proof. solve_decision. Defined.

(** The text [err.Error()] returns. *)
Fixpoint error_text (e : goerror) : string :=
  match e with
  | Sentinel t => t
  | Errorf t => t
  | Wrapf pre c post => pre +:+ error_text c +:+ post
  end.

(** [errors.Is]: the error or one it wraps is the target. *)
Fixpoint errors_is (e target : goerror) : bool :=
  bool_decide (e = target) ||
  match e with
  | Wrapf _ c _ => errors_is c target
  | _ => false
  end.

(** ** Fallible results: Go's [(value, error)] pairs with exactly one side *)
Inductive res (A : Type) : Type :=
| Ok (a : A)
| Err (e : goerror).
Global Arguments Ok {A} a.
Global Arguments Err {A} e.

Global Instance res_ret : MRet res := @Ok.
Global Instance res_bind : MBind res :=
  λ A B f r, match r with Ok a => f a | Err e => Err e end.
Global Instance res_fmap : FMap res :=
  λ A B f r, match r with Ok a => Ok (f a) | Err e => Err e end.
Global Instance res_eq_dec `{EqDecision A} : EqDecision (res A).
Proof. solve_decision. Defined.

Definition is_ok {A} (r : res A) : bool :=
  match r with Ok _ => true | Err _ => false end.
Definition res_to_option {A} (r : res A) : option A :=
  match r with Ok a => Some a | Err _ => None end.

(** [if cond then return err]. *)
Definition guard_err (c : bool) (e : goerror) : res () :=
  if c then Err e else Ok tt.

(** ** Identifiers, times and widths

    A UUID is its 128-bit value ([uuid.Nil] is 0); times and durations are
    counted in nanoseconds, as [time.Duration] is. *)
Abbreviation uuid := N (only parsing).
Definition uuid_Nil : uuid := 0%N.
Abbreviation time := Z (only parsing).

Definition Millisecond : Z := 1000000.
Definition Second : Z := 1000 * Millisecond.
Definition Minute : Z := 60 * Second.
Definition Hour : Z := 60 * Minute.

Definition uint32_max : Z := 2 ^ 32 - 1.
Definition in_uint32 (z : Z) : Prop := (0 ≤ z ≤ uint32_max)%Z.

(** ** State-passing computations

    [ST W A] threads a world [W].  [preserves], [hoare] and their rules are the
    program logic every component's invariants are proved with. *)
Definition ST (W A : Type) : Type := W → A * W.

Global Instance ST_ret W : MRet (ST W) := λ A a w, (a, w).
Global Instance ST_bind W : MBind (ST W) :=
  λ A B f m w, let '(a, w') := m w in f a w'.

(** Go's [x, err := m; if err != nil { return err }]. *)
Definition bind_err {W A B} (m : ST W (res A)) (f : A → ST W (res B)) : ST W (res B) :=
  r ← m; match r with Ok a => f a | Err e => mret (Err e) end.

Notation "x ←? m ; k" := (bind_err m (λ x, k))
  (at level 20, m at level 100, k at level 200, only parsing) : stdpp_scope.
Notation "' x ←? m ; k" := (bind_err m (λ x : _, k))
  (at level 20, x pattern, m at level 100, k at level 200, only parsing) : stdpp_scope.
Notation "m ;;? k" := (bind_err m (λ _, k))
  (at level 100, k at level 200, only parsing, right associativity) : stdpp_scope.

Definition get_world {W} : ST W W := λ w, (w, w).
Definition modify {W} (f : W → W) : ST W () := λ w, (tt, f w).

Section Hoare.
Context {W : Type}.

(** Partial-correctness triples over total state transformers. *)
Definition hoare {A} (P : W → Prop) (m : ST W A) (Q : A → W → Prop) : Prop :=
  ∀ w, P w → Q (m w).1 (m w).2.

(** A transition relation every run of [m] stays inside. *)
Definition within {A} (R : W → W → Prop) (m : ST W A) : Prop :=
  ∀ w, R w (m w).2.

Lemma hoare_ret {A} (P : W → Prop) (a : A) (Q : A → W → Prop) :
  (∀ w, P w → Q a w) → hoare P (mret a) Q.
Proof. intros H w HP. apply H, HP. Qed.

Lemma hoare_bind {A B} (P : W → Prop) (m : ST W A) (k : A → ST W B) R Q :
  hoare P m R → (∀ a, hoare (R a) (k a) Q) → hoare P (m ≫= k) Q.
Proof.
  intros Hm Hk w HP. unfold mbind, ST_bind.
  specialize (Hm w HP). destruct (m w) as [a w'].
  exact (Hk a w' Hm).
Qed.

Lemma hoare_bind_err {A B} (P : W → Prop) (m : ST W (res A))
    (k : A → ST W (res B)) R Q :
  hoare P m R →
  (∀ a, hoare (R (Ok a)) (k a) Q) →
  (∀ e w, R (Err e) w → Q (Err e) w) →
  hoare P (bind_err m k) Q.
Proof.
  intros Hm Hk He. apply (hoare_bind _ _ _ R); [done|].
  intros [a|e]; [apply Hk|]. apply hoare_ret. intros w. apply He.
Qed.

Lemma hoare_conseq {A} (P P' : W → Prop) (m : ST W A) (Q Q' : A → W → Prop) :
  hoare P' m Q' → (∀ w, P w → P' w) → (∀ a w, Q' a w → Q a w) → hoare P m Q.
Proof. intros Hm HP HQ w Hw. apply HQ, Hm, HP, Hw. Qed.

Context (R : W → W → Prop) `{!PreOrder R}.

Lemma within_ret {A} (a : A) : within R (mret a : ST W A).
Proof. intros w. reflexivity. Qed.

Lemma within_get : within R (get_world : ST W W).
Proof. intros w. reflexivity. Qed.

Lemma within_bind {A B} (m : ST W A) (k : A → ST W B) :
  within R m → (∀ a, within R (k a)) → within R (m ≫= k).
Proof.
  intros Hm Hk w. unfold mbind, ST_bind.
  specialize (Hm w). destruct (m w) as [a w']. cbn in *.
  etransitivity; [exact Hm|]. apply Hk.
Qed.

Lemma within_bind_err {A B} (m : ST W (res A)) (k : A → ST W (res B)) :
  within R m → (∀ a, within R (k a)) → within R (bind_err m k).
Proof.
  intros Hm Hk. apply within_bind; [done|].
  intros [a|e]; [apply Hk | apply within_ret].
Qed.
End Hoare.

Lemma bind_run {W A B} (m : ST W A) (k : A → ST W B) w : (m ≫= k) w = k (m w).1 (m w).2.
Proof. unfold mbind, ST_bind. by destruct (m w). Qed.

(** ** Development tactics *)

(** Case on the scrutinee of some [match]/[if] of the goal, keeping the equation. *)
Ltac case_goal :=
  match goal with
  | |- context [match ?x with _ => _ end] => destruct x eqn:?
  end.

(** The same on a hypothesis. *)
Ltac case_hyp H :=
  match type of H with
  | context [match ?x with _ => _ end] => destruct x eqn:?
  end.

(** Turn boolean tests in the context into propositions. *)
Ltac reflect_bools :=
  repeat match goal with
  | H : (_ && _)%bool = true |- _ => apply andb_true_iff in H as [? ?]
  | H : (_ || _)%bool = false |- _ => apply orb_false_iff in H as [? ?]
  | H : negb _ = true |- _ => apply negb_true_iff in H
  | H : negb _ = false |- _ => apply negb_false_iff in H
  | H : bool_decide _ = true |- _ => apply bool_decide_eq_true in H
  | H : bool_decide _ = false |- _ => apply bool_decide_eq_false in H
  end.

(** Hints that chain the [within] rules through a handler's statements. *)
Create HintDb overture discriminated.
#[export] Hint Constants Opaque : overture.
#[export] Hint Resolve within_ret within_get within_bind within_bind_err : overture.

(** ** Lists *)

(** Elements with a unique key are determined by it. *)
Lemma NoDup_fmap_elem {A B} (f : A → B) l x y : NoDup (f <$> l) → x ∈ l → y ∈ l → f x = f y → x = y.
Proof.
  induction l as [|z l IH]; [by intros _ ?%elem_of_nil|]. cbn [fmap list_fmap].
  intros [Hz Hnd]%NoDup_cons [->|Hx]%elem_of_cons [->|Hy]%elem_of_cons Heq; [done|..|by apply IH].
  - destruct Hz. rewrite Heq. by apply list_elem_of_fmap_2.
  - destruct Hz. rewrite <-Heq. by apply list_elem_of_fmap_2.
Qed.

Lemma NoDup_omap_elem {A B} (f : A → option B) l x y b :
  NoDup (omap f l) → x ∈ l → y ∈ l → f x = Some b → f y = Some b → x = y.
Proof.
  induction l as [|z l IH]; [by intros _ ?%elem_of_nil|]. cbn [omap list_omap]. intros Hnd Hx Hy Hfx Hfy.
  assert (∀ w, w ∈ l → f w = Some b → f z = Some b → False) as Hdup.
  { intros w Hw Hfw Hfz. rewrite Hfz in Hnd. apply NoDup_cons in Hnd as [Hz _]. apply Hz, list_elem_of_omap. eauto. }
  apply elem_of_cons in Hx as [->|Hx], Hy as [->|Hy]; [done|by destruct (Hdup y)|by destruct (Hdup x)|].
  apply IH; try done. destruct (f z); [by apply NoDup_cons in Hnd as [_ ?]|done].
Qed.

(** All elements decoded, or the first failure: Go's early-returning loops. *)
Fixpoint res_forM {A} (f : A → res ()) (l : list A) : res () :=
  match l with
  | [] => Ok tt
  | x :: l => f x ≫= λ _, res_forM f l
  end.

Lemma res_forM_ok {A} (f : A → res ()) l :
  res_forM f l = Ok tt ↔ Forall (λ x, f x = Ok tt) l.
Proof.
  induction l as [|x l IH]; cbn.
  - split; constructor.
  - rewrite Forall_cons, <-IH. unfold mbind, res_bind.
    destruct (f x) as [[]|e]; naive_solver.
Qed.

(** The same with the element's index, as [for idx, x := range l]. *)
Fixpoint res_forMi {A} (f : nat → A → res ()) (i : nat) (l : list A) : res () :=
  match l with
  | [] => Ok tt
  | x :: l => f i x ≫= λ _, res_forMi f (S i) l
  end.

Lemma res_forMi_ok {A} (f : nat → A → res ()) i l :
  res_forMi f i l = Ok tt ↔ ∀ j x, l !! j = Some x → f (i + j) x = Ok tt.
Proof.
  revert i. induction l as [|x l IH]; intros i; cbn.
  - split; [|done]. intros _ j x H. by rewrite lookup_nil in H.
  - unfold mbind, res_bind. destruct (f i x) as [[]|e] eqn:Hx.
    + rewrite IH. split.
      * intros H [|j] y Hy; cbn in Hy; simplify_eq.
        -- by rewrite Nat.add_0_r.
        -- rewrite <-Nat.add_succ_comm. eauto.
      * intros H j y Hy. rewrite Nat.add_succ_comm. by apply (H (S j)).
    + split; [done|]. intros H. specialize (H 0 x eq_refl).
      rewrite Nat.add_0_r in H. congruence.
Qed.

(** [t.Sub(u)] saturates at the ends of [time.Duration]. *)
Definition time_Sub (t u : time) : Z := Z.max (- 2 ^ 63) (Z.min (2 ^ 63 - 1) (t - u))%Z.

(** The zero [time.Time]. *)
Definition zero_time : time := (-62135596800 * Second)%Z.

(** [int64] arithmetic wraps around. *)
Definition wrap_int64 (z : Z) : Z := ((z + 2 ^ 63) mod 2 ^ 64 - 2 ^ 63)%Z.

(** [INSERT ... ON CONFLICT (key) DO UPDATE]: [same] finds the row in conflict
    and [merge old new] is what the update leaves. *)
Fixpoint upsert {A} (same : A → bool) (merge : A → A → A) (new : A) (l : list A) : list A :=
  match l with
  | [] => [new]
  | x :: l => if same x then merge x new :: l else x :: upsert same merge new l
  end.

Global Hint Resolve Forall_nil_2 : core.
