(* ===== verification/GoStrings.v ===== *)
(** * Go strings: the functions of [strings], [unicode/utf8], [strconv],
      [encoding/hex] and [encoding/base64] that the coordinator calls

    A Go string is a sequence of bytes, here a [string] (one [ascii] per byte).
    [runes] is the decoding [for _, r := range s] performs, invalid bytes
    included (they decode to U+FFFD, one byte each); [TrimSpace] and [ToLower]
    work on runes, with Unicode's white-space set and simple lower-case
    mapping.  The base64 and hex codecs come with their round trips. *)

From S2P Require Import Prelude.
Open Scope Z_scope.

(** ** Bytes and runes *)

Definition zb (a : ascii) : Z := Z.of_N (N_of_ascii a).
Definition bz (z : Z) : ascii := ascii_of_N (Z.to_N z).

Definition RuneError : Z := 0xFFFD.

Definition in_range (lo hi x : Z) : bool := (lo <=? x) && (x <=? hi).
Definition is_cont (a : ascii) : bool := in_range 0x80 0xBF (zb a).

(** The second byte's range for each lead byte, as [utf8.acceptRanges] has it. *)
Definition second_ok (lead b : Z) : bool :=
  if lead =? 0xE0 then in_range 0xA0 0xBF b
  else if lead =? 0xED then in_range 0x80 0x9F b
  else if lead =? 0xF0 then in_range 0x90 0xBF b
  else if lead =? 0xF4 then in_range 0x80 0x8F b
  else in_range 0x80 0xBF b.

Definition str1 (a : ascii) : string := String a "".

(** The runes of a string, each with the bytes it was decoded from. *)
Fixpoint runes (s : string) : list (Z * string) :=
  match s with
  | "" => []
  | String a s1 =>
    let x := zb a in
    if x <? 0x80 then (x, str1 a) :: runes s1
    else match s1 with
    | "" => (RuneError, str1 a) :: runes s1
    | String b s2 =>
      if in_range 0xC2 0xDF x && is_cont b then
        ((x - 0xC0) * 64 + (zb b - 0x80), String a (str1 b)) :: runes s2
      else match s2 with
      | "" => (RuneError, str1 a) :: runes s1
      | String c s3 =>
        if in_range 0xE0 0xEF x && second_ok x (zb b) && is_cont c then
          ((x - 0xE0) * 4096 + (zb b - 0x80) * 64 + (zb c - 0x80),
           String a (String b (str1 c))) :: runes s3
        else match s3 with
        | "" => (RuneError, str1 a) :: runes s1
        | String d s4 =>
          if in_range 0xF0 0xF4 x && second_ok x (zb b) && is_cont c && is_cont d then
            ((x - 0xF0) * 262144 + (zb b - 0x80) * 4096 + (zb c - 0x80) * 64
             + (zb d - 0x80), String a (String b (String c (str1 d)))) :: runes s4
          else (RuneError, str1 a) :: runes s1
        end
      end
    end
  end.

Definition concat_strings (l : list string) : string := foldr String.append "" l.
Definition segs_string (l : list (Z * string)) : string := concat_strings (l.*2).

(** [utf8.AppendRune]: surrogates and values beyond U+10FFFF become U+FFFD. *)
Definition encode_rune (r : Z) : string :=
  let r := if in_range 0 0x10FFFF r && negb (in_range 0xD800 0xDFFF r) then r else RuneError in
  if r <? 0x80 then str1 (bz r)
  else if r <? 0x800 then String (bz (0xC0 + r / 64)) (str1 (bz (0x80 + r mod 64)))
  else if r <? 0x10000 then
    String (bz (0xE0 + r / 4096))
      (String (bz (0x80 + (r / 64) mod 64)) (str1 (bz (0x80 + r mod 64))))
  else
    String (bz (0xF0 + r / 262144))
      (String (bz (0x80 + (r / 4096) mod 64))
        (String (bz (0x80 + (r / 64) mod 64)) (str1 (bz (0x80 + r mod 64))))).

(** [strings.ToValidUTF8(s, "\uFFFD")]-style replacement, one U+FFFD per
    invalid byte: what [encoding/json] does to a decoded string. *)
Definition sanitize_utf8 (s : string) : string :=
  concat_strings ((λ p, encode_rune p.1) <$> runes s).

(** [unicode.IsSpace]. *)
Definition is_space (r : Z) : bool :=
  in_range 9 13 r || (r =? 0x20) || (r =? 0x85) || (r =? 0xA0) || (r =? 0x1680)
  || in_range 0x2000 0x200A r || (r =? 0x2028) || (r =? 0x2029) || (r =? 0x202F)
  || (r =? 0x205F) || (r =? 0x3000).

Fixpoint drop_space (l : list (Z * string)) : list (Z * string) :=
  match l with
  | [] => []
  | p :: l' => if is_space p.1 then drop_space l' else l
  end.

(** [strings.TrimSpace]. *)
Definition TrimSpace (s : string) : string :=
  segs_string (reverse (drop_space (reverse (drop_space (runes s))))).

(** Simple lower-case mapping outside ASCII: (first, last, stride, delta). *)
Definition lower_ranges : list (Z * Z * Z * Z) :=
  [ (192, 214, 1, 32); (216, 222, 1, 32); (256, 302, 2, 1); (304, 304, 1,
    (-199)); (306, 310, 2, 1); (313, 327, 2, 1); (330, 374, 2, 1); (376, 376, 1,
    (-121)); (377, 381, 2, 1); (385, 385, 1, 210); (386, 388, 2, 1); (390, 390,
    1, 206); (391, 391, 1, 1); (393, 394, 1, 205); (395, 395, 1, 1); (398, 398,
    1, 79); (399, 399, 1, 202); (400, 400, 1, 203); (401, 401, 1, 1); (403, 403,
    1, 205); (404, 404, 1, 207); (406, 406, 1, 211); (407, 407, 1, 209); (408,
    408, 1, 1); (412, 412, 1, 211); (413, 413, 1, 213); (415, 415, 1, 214);
    (416, 420, 2, 1); (422, 422, 1, 218); (423, 423, 1, 1); (425, 425, 1, 218);
    (428, 428, 1, 1); (430, 430, 1, 218); (431, 431, 1, 1); (433, 434, 1, 217);
    (435, 437, 2, 1); (439, 439, 1, 219); (440, 440, 1, 1); (444, 444, 1, 1);
    (452, 452, 1, 2); (453, 453, 1, 1); (455, 455, 1, 2); (456, 456, 1, 1);
    (458, 458, 1, 2); (459, 475, 2, 1); (478, 494, 2, 1); (497, 497, 1, 2);
    (498, 500, 2, 1); (502, 502, 1, (-97)); (503, 503, 1, (-56)); (504, 542, 2,
    1); (544, 544, 1, (-130)); (546, 562, 2, 1); (570, 570, 1, 10795); (571,
    571, 1, 1); (573, 573, 1, (-163)); (574, 574, 1, 10792); (577, 577, 1, 1);
    (579, 579, 1, (-195)); (580, 580, 1, 69); (581, 581, 1, 71); (582, 590, 2,
    1); (880, 882, 2, 1); (886, 886, 1, 1); (895, 895, 1, 116); (902, 902, 1,
    38); (904, 906, 1, 37); (908, 908, 1, 64); (910, 911, 1, 63); (913, 929, 1,
    32); (931, 939, 1, 32); (975, 975, 1, 8); (984, 1006, 2, 1); (1012, 1012, 1,
    (-60)); (1015, 1015, 1, 1); (1017, 1017, 1, (-7)); (1018, 1018, 1, 1);
    (1021, 1023, 1, (-130)); (1024, 1039, 1, 80); (1040, 1071, 1, 32); (1120,
    1152, 2, 1); (1162, 1214, 2, 1); (1216, 1216, 1, 15); (1217, 1229, 2, 1);
    (1232, 1326, 2, 1); (1329, 1366, 1, 48); (4256, 4293, 1, 7264); (4295, 4295,
    1, 7264); (4301, 4301, 1, 7264); (5024, 5103, 1, 38864); (5104, 5109, 1, 8);
    (7312, 7354, 1, (-3008)); (7357, 7359, 1, (-3008)); (7680, 7828, 2, 1);
    (7838, 7838, 1, (-7615)); (7840, 7934, 2, 1); (7944, 7951, 1, (-8)); (7960,
    7965, 1, (-8)); (7976, 7983, 1, (-8)); (7992, 7999, 1, (-8)); (8008, 8013,
    1, (-8)); (8025, 8031, 2, (-8)); (8040, 8047, 1, (-8)); (8072, 8079, 1,
    (-8)); (8088, 8095, 1, (-8)); (8104, 8111, 1, (-8)); (8120, 8121, 1, (-8));
    (8122, 8123, 1, (-74)); (8124, 8124, 1, (-9)); (8136, 8139, 1, (-86));
    (8140, 8140, 1, (-9)); (8152, 8153, 1, (-8)); (8154, 8155, 1, (-100));
    (8168, 8169, 1, (-8)); (8170, 8171, 1, (-112)); (8172, 8172, 1, (-7));
    (8184, 8185, 1, (-128)); (8186, 8187, 1, (-126)); (8188, 8188, 1, (-9));
    (8486, 8486, 1, (-7517)); (8490, 8490, 1, (-8383)); (8491, 8491, 1,
    (-8262)); (8498, 8498, 1, 28); (8544, 8559, 1, 16); (8579, 8579, 1, 1);
    (9398, 9423, 1, 26); (11264, 11311, 1, 48); (11360, 11360, 1, 1); (11362,
    11362, 1, (-10743)); (11363, 11363, 1, (-3814)); (11364, 11364, 1,
    (-10727)); (11367, 11371, 2, 1); (11373, 11373, 1, (-10780)); (11374, 11374,
    1, (-10749)); (11375, 11375, 1, (-10783)); (11376, 11376, 1, (-10782));
    (11378, 11378, 1, 1); (11381, 11381, 1, 1); (11390, 11391, 1, (-10815));
    (11392, 11490, 2, 1); (11499, 11501, 2, 1); (11506, 11506, 1, 1); (42560,
    42604, 2, 1); (42624, 42650, 2, 1); (42786, 42798, 2, 1); (42802, 42862, 2,
    1); (42873, 42875, 2, 1); (42877, 42877, 1, (-35332)); (42878, 42886, 2, 1);
    (42891, 42891, 1, 1); (42893, 42893, 1, (-42280)); (42896, 42898, 2, 1);
    (42902, 42920, 2, 1); (42922, 42922, 1, (-42308)); (42923, 42923, 1,
    (-42319)); (42924, 42924, 1, (-42315)); (42925, 42925, 1, (-42305)); (42926,
    42926, 1, (-42308)); (42928, 42928, 1, (-42258)); (42929, 42929, 1,
    (-42282)); (42930, 42930, 1, (-42261)); (42931, 42931, 1, 928); (42932,
    42946, 2, 1); (42948, 42948, 1, (-48)); (42949, 42949, 1, (-42307)); (42950,
    42950, 1, (-35384)); (42951, 42953, 2, 1); (42960, 42960, 1, 1); (42966,
    42968, 2, 1); (42997, 42997, 1, 1); (65313, 65338, 1, 32); (66560, 66599, 1,
    40); (66736, 66771, 1, 40); (66928, 66938, 1, 39); (66940, 66954, 1, 39);
    (66956, 66962, 1, 39); (66964, 66965, 1, 39); (68736, 68786, 1, 64); (71840,
    71871, 1, 32); (93760, 93791, 1, 32); (125184, 125217, 1, 34) ].

Definition lower_rune (r : Z) : Z :=
  if r <? 0x80 then (if in_range 65 90 r then r + 32 else r)
  else match list_find (λ q, let '(lo, hi, st, _) := q in
                in_range lo hi r && ((r - lo) mod st =? 0)) lower_ranges with
       | Some (_, (_, _, _, d)) => r + d
       | None => r
       end.

(** [strings.ToLower]. *)
Definition ToLower (s : string) : string :=
  concat_strings ((λ p, encode_rune (lower_rune p.1)) <$> runes s).

(** Simple upper-case mapping outside ASCII. *)
Definition upper_ranges : list (Z * Z * Z * Z) :=
  [ (181, 181, 1, 743); (224, 246, 1, (-32)); (248, 254, 1, (-32)); (255,
    255, 1, 121); (257, 303, 2, (-1)); (305, 305, 1, (-232)); (307, 311, 2,
    (-1)); (314, 328, 2, (-1)); (331, 375, 2, (-1)); (378, 382, 2, (-1));
    (383, 383, 1, (-300)); (384, 384, 1, 195); (387, 389, 2, (-1)); (392,
    392, 1, (-1)); (396, 396, 1, (-1)); (402, 402, 1, (-1)); (405, 405, 1,
    97); (409, 409, 1, (-1)); (410, 410, 1, 163); (414, 414, 1, 130); (417,
    421, 2, (-1)); (424, 424, 1, (-1)); (429, 429, 1, (-1)); (432, 432, 1,
    (-1)); (436, 438, 2, (-1)); (441, 441, 1, (-1)); (445, 445, 1, (-1));
    (447, 447, 1, 56); (453, 453, 1, (-1)); (454, 454, 1, (-2)); (456, 456,
    1, (-1)); (457, 457, 1, (-2)); (459, 459, 1, (-1)); (460, 460, 1, (-2));
    (462, 476, 2, (-1)); (477, 477, 1, (-79)); (479, 495, 2, (-1)); (498,
    498, 1, (-1)); (499, 499, 1, (-2)); (501, 501, 1, (-1)); (505, 543, 2,
    (-1)); (547, 563, 2, (-1)); (572, 572, 1, (-1)); (575, 576, 1, 10815);
    (578, 578, 1, (-1)); (583, 591, 2, (-1)); (592, 592, 1, 10783); (593,
    593, 1, 10780); (594, 594, 1, 10782); (595, 595, 1, (-210)); (596, 596,
    1, (-206)); (598, 599, 1, (-205)); (601, 601, 1, (-202)); (603, 603, 1,
    (-203)); (604, 604, 1, 42319); (608, 608, 1, (-205)); (609, 609, 1,
    42315); (611, 611, 1, (-207)); (613, 613, 1, 42280); (614, 614, 1,
    42308); (616, 616, 1, (-209)); (617, 617, 1, (-211)); (618, 618, 1,
    42308); (619, 619, 1, 10743); (620, 620, 1, 42305); (623, 623, 1,
    (-211)); (625, 625, 1, 10749); (626, 626, 1, (-213)); (629, 629, 1,
    (-214)); (637, 637, 1, 10727); (640, 640, 1, (-218)); (642, 642, 1,
    42307); (643, 643, 1, (-218)); (647, 647, 1, 42282); (648, 648, 1,
    (-218)); (649, 649, 1, (-69)); (650, 651, 1, (-217)); (652, 652, 1,
    (-71)); (658, 658, 1, (-219)); (669, 669, 1, 42261); (670, 670, 1,
    42258); (837, 837, 1, 84); (881, 883, 2, (-1)); (887, 887, 1, (-1));
    (891, 893, 1, 130); (940, 940, 1, (-38)); (941, 943, 1, (-37)); (945,
    961, 1, (-32)); (962, 962, 1, (-31)); (963, 971, 1, (-32)); (972, 972,
    1, (-64)); (973, 974, 1, (-63)); (976, 976, 1, (-62)); (977, 977, 1,
    (-57)); (981, 981, 1, (-47)); (982, 982, 1, (-54)); (983, 983, 1, (-8));
    (985, 1007, 2, (-1)); (1008, 1008, 1, (-86)); (1009, 1009, 1, (-80));
    (1010, 1010, 1, 7); (1011, 1011, 1, (-116)); (1013, 1013, 1, (-96));
    (1016, 1016, 1, (-1)); (1019, 1019, 1, (-1)); (1072, 1103, 1, (-32));
    (1104, 1119, 1, (-80)); (1121, 1153, 2, (-1)); (1163, 1215, 2, (-1));
    (1218, 1230, 2, (-1)); (1231, 1231, 1, (-15)); (1233, 1327, 2, (-1));
    (1377, 1414, 1, (-48)); (4304, 4346, 1, 3008); (4349, 4351, 1, 3008);
    (5112, 5117, 1, (-8)); (7296, 7296, 1, (-6254)); (7297, 7297, 1,
    (-6253)); (7298, 7298, 1, (-6244)); (7299, 7300, 1, (-6242)); (7301,
    7301, 1, (-6243)); (7302, 7302, 1, (-6236)); (7303, 7303, 1, (-6181));
    (7304, 7304, 1, 35266); (7545, 7545, 1, 35332); (7549, 7549, 1, 3814);
    (7566, 7566, 1, 35384); (7681, 7829, 2, (-1)); (7835, 7835, 1, (-59));
    (7841, 7935, 2, (-1)); (7936, 7943, 1, 8); (7952, 7957, 1, 8); (7968,
    7975, 1, 8); (7984, 7991, 1, 8); (8000, 8005, 1, 8); (8017, 8023, 2, 8);
    (8032, 8039, 1, 8); (8048, 8049, 1, 74); (8050, 8053, 1, 86); (8054,
    8055, 1, 100); (8056, 8057, 1, 128); (8058, 8059, 1, 112); (8060, 8061,
    1, 126); (8064, 8071, 1, 8); (8080, 8087, 1, 8); (8096, 8103, 1, 8);
    (8112, 8113, 1, 8); (8115, 8115, 1, 9); (8126, 8126, 1, (-7205)); (8131,
    8131, 1, 9); (8144, 8145, 1, 8); (8160, 8161, 1, 8); (8165, 8165, 1, 7);
    (8179, 8179, 1, 9); (8526, 8526, 1, (-28)); (8560, 8575, 1, (-16));
    (8580, 8580, 1, (-1)); (9424, 9449, 1, (-26)); (11312, 11359, 1, (-48));
    (11361, 11361, 1, (-1)); (11365, 11365, 1, (-10795)); (11366, 11366, 1,
    (-10792)); (11368, 11372, 2, (-1)); (11379, 11379, 1, (-1)); (11382,
    11382, 1, (-1)); (11393, 11491, 2, (-1)); (11500, 11502, 2, (-1));
    (11507, 11507, 1, (-1)); (11520, 11557, 1, (-7264)); (11559, 11559, 1,
    (-7264)); (11565, 11565, 1, (-7264)); (42561, 42605, 2, (-1)); (42625,
    42651, 2, (-1)); (42787, 42799, 2, (-1)); (42803, 42863, 2, (-1));
    (42874, 42876, 2, (-1)); (42879, 42887, 2, (-1)); (42892, 42892, 1,
    (-1)); (42897, 42899, 2, (-1)); (42900, 42900, 1, 48); (42903, 42921, 2,
    (-1)); (42933, 42947, 2, (-1)); (42952, 42954, 2, (-1)); (42961, 42961,
    1, (-1)); (42967, 42969, 2, (-1)); (42998, 42998, 1, (-1)); (43859,
    43859, 1, (-928)); (43888, 43967, 1, (-38864)); (65345, 65370, 1,
    (-32)); (66600, 66639, 1, (-40)); (66776, 66811, 1, (-40)); (66967,
    66977, 1, (-39)); (66979, 66993, 1, (-39)); (66995, 67001, 1, (-39));
    (67003, 67004, 1, (-39)); (68800, 68850, 1, (-64)); (71872, 71903, 1,
    (-32)); (93792, 93823, 1, (-32)); (125218, 125251, 1, (-34)) ].

Definition upper_rune (r : Z) : Z :=
  if r <? 0x80 then (if in_range 97 122 r then r - 32 else r)
  else match list_find (λ q, let '(lo, hi, st, _) := q in
                in_range lo hi r && ((r - lo) mod st =? 0)) upper_ranges with
       | Some (_, (_, _, _, d)) => r + d
       | None => r
       end.

(** [strings.ToUpper]. *)
Definition ToUpper (s : string) : string :=
  concat_strings ((λ p, encode_rune (upper_rune p.1)) <$> runes s).

(** ** Searching *)

Fixpoint HasPrefix (s p : string) : bool :=
  match p, s with
  | "", _ => true
  | String a p', String b s' => bool_decide (a = b) && HasPrefix s' p'
  | _, _ => false
  end.

Fixpoint drop_str (n : nat) (s : string) : string :=
  match n, s with
  | O, _ => s
  | S n', String _ s' => drop_str n' s'
  | _, "" => ""
  end.

Fixpoint take_str (n : nat) (s : string) : string :=
  match n, s with
  | S n', String a s' => String a (take_str n' s')
  | _, _ => ""
  end.

Definition slen (s : string) : nat := String.length s.

Definition TrimPrefix (s p : string) : string :=
  if HasPrefix s p then drop_str (slen p) s else s.

Definition HasSuffix (s p : string) : bool :=
  (Nat.leb (slen p) (slen s)) && bool_decide (drop_str (slen s - slen p) s = p).

Definition TrimSuffix (s p : string) : string :=
  if HasSuffix s p then take_str (slen s - slen p) s else s.

Fixpoint Contains (s sub : string) : bool :=
  HasPrefix s sub || match s with "" => false | String _ s' => Contains s' sub end.

(** [strings.Split] on a one-byte separator. *)
Fixpoint split_byte (sep : ascii) (cur s : string) : list string :=
  match s with
  | "" => [cur]
  | String a s' =>
    if bool_decide (a = sep) then cur :: split_byte sep "" s'
    else split_byte sep (cur +:+ str1 a) s'
  end.
Definition Split (s : string) (sep : ascii) : list string := split_byte sep "" s.

(** [strings.Join]. *)
Fixpoint Join (l : list string) (sep : string) : string :=
  match l with
  | [] => ""
  | [x] => x
  | x :: l' => x +:+ sep +:+ Join l' sep
  end.

Definition nonempty (s : string) : bool := negb (bool_decide (s = "")).

(** ** Decimal numbers ([strconv]) *)

Definition is_digit (a : ascii) : bool := in_range 48 57 (zb a).

Fixpoint digits_value (acc : Z) (s : string) : option Z :=
  match s with
  | "" => Some acc
  | String a s' => if is_digit a then digits_value (acc * 10 + (zb a - 48)) s' else None
  end.

(** [strconv.ParseUint(s, 10, bits)]. *)
Definition parse_uint (bits : Z) (s : string) : option Z :=
  match s with
  | "" => None
  | _ => v ← digits_value 0 s; if v <? 2 ^ bits then Some v else None
  end.

(** [strconv.ParseInt(s, 10, bits)]. *)
Definition parse_int (bits : Z) (s : string) : option Z :=
  match s with
  | String "-" (String _ _ as s') =>
    v ← digits_value 0 s'; if v <=? 2 ^ (bits - 1) then Some (- v) else None
  | String "+" (String _ _ as s') =>
    v ← digits_value 0 s'; if v <? 2 ^ (bits - 1) then Some v else None
  | "" => None
  | _ => v ← digits_value 0 s; if v <? 2 ^ (bits - 1) then Some v else None
  end.

Definition itoa (z : Z) : string := pretty z.

(** ** Hexadecimal *)

Definition hex_val (a : ascii) : option Z :=
  let x := zb a in
  if in_range 48 57 x then Some (x - 48)
  else if in_range 97 102 x then Some (x - 87)
  else if in_range 65 70 x then Some (x - 55)
  else None.

Definition hex_digit (d : Z) : ascii := if d <? 10 then bz (48 + d) else bz (87 + d).

(** [hex.DecodeString]; [None] is an error (odd length or a bad digit). *)
Fixpoint hex_decode (s : string) : option string :=
  match s with
  | "" => Some ""
  | String a (String b s') =>
    x ← hex_val a; y ← hex_val b; r ← hex_decode s'; Some (String (bz (x * 16 + y)) r)
  | _ => None
  end.

(** [hex.EncodeToString]. *)
Fixpoint hex_encode (s : string) : string :=
  match s with
  | "" => ""
  | String a s' => String (hex_digit (zb a / 16)) (String (hex_digit (zb a mod 16)) (hex_encode s'))
  end.

(** ** Base64 *)

Definition b64_digit (url : bool) (v : Z) : ascii :=
  if v <? 26 then bz (65 + v)
  else if v <? 52 then bz (71 + v)
  else if v <? 62 then bz (v - 4)
  else if v =? 62 then (if url then "-" else "+")%char
  else (if url then "_" else "/")%char.

Definition b64_val (url : bool) (a : ascii) : option Z :=
  let x := zb a in
  if in_range 65 90 x then Some (x - 65)
  else if in_range 97 122 x then Some (x - 71)
  else if in_range 48 57 x then Some (x + 4)
  else if bool_decide (a = (if url then "-" else "+")%char) then Some 62
  else if bool_decide (a = (if url then "_" else "/")%char) then Some 63
  else None.

(** [StdEncoding.EncodeToString]. *)
Fixpoint b64_encode (s : string) : string :=
  match s with
  | "" => ""
  | String a "" =>
    let x := zb a in
    String (b64_digit false (x / 4)) (String (b64_digit false (x mod 4 * 16)) "==")
  | String a (String b "") =>
    let x := zb a in let y := zb b in
    String (b64_digit false (x / 4)) (String (b64_digit false (x mod 4 * 16 + y / 16))
      (String (b64_digit false (y mod 16 * 4)) "="))
  | String a (String b (String c s')) =>
    let x := zb a in let y := zb b in let z := zb c in
    String (b64_digit false (x / 4)) (String (b64_digit false (x mod 4 * 16 + y / 16))
      (String (b64_digit false (y mod 16 * 4 + z / 64))
        (String (b64_digit false (z mod 64)) (b64_encode s'))))
  end.

Definition is_newline (a : ascii) : bool :=
  bool_decide (a = "010"%char) || bool_decide (a = "013"%char).

(** The decoder skips line breaks wherever they stand. *)
Fixpoint drop_newlines (s : string) : string :=
  match s with
  | "" => ""
  | String a s' =>
    if is_newline a then drop_newlines s' else String a (drop_newlines s')
  end.

Definition b64_pad : ascii := "="%char.

Fixpoint b64_quanta (url padded : bool) (s : string) : option string :=
  match s with
  | "" => Some ""
  | String a (String b rest) =>
    x ← b64_val url a; y ← b64_val url b;
    let one := bz (x * 4 + y / 16) in
    match rest with
    | "" => if padded then None else Some (str1 one)
    | String c "" =>
      if padded then None
      else z ← b64_val url c; Some (String one (str1 (bz (y mod 16 * 16 + z / 4))))
    | String c (String d s') =>
      match b64_val url c, b64_val url d with
      | Some z, Some t =>
        r ← b64_quanta url padded s';
        Some (String one (String (bz (y mod 16 * 16 + z / 4))
                (String (bz (z mod 4 * 64 + t)) r)))
      | Some z, None =>
        if padded && bool_decide (d = b64_pad) && bool_decide (s' = "")
        then Some (String one (str1 (bz (y mod 16 * 16 + z / 4)))) else None
      | None, _ =>
        if padded && bool_decide (c = b64_pad) && bool_decide (d = b64_pad)
             && bool_decide (s' = "")
        then Some (str1 one) else None
      end
    end
  | _ => None
  end.

(** [Encoding.DecodeString] for the standard/URL alphabet, padded or raw. *)
Definition b64_decode (url padded : bool) (s : string) : option string :=
  b64_quanta url padded (drop_newlines s).

(** ** Lemmas *)

#[local] Ltac Zify.zify_post_hook ::= Z.to_euclidean_division_equations.

Lemma zb_range a : 0 ≤ zb a < 256.
Proof. destruct a as [[][][][][][][][]]; vm_compute; split; congruence. Qed.

Lemma bz_zb a : bz (zb a) = a.
Proof. unfold bz, zb. rewrite N2Z.id. apply ascii_N_embedding. Qed.

Lemma bz_eq z a : z = zb a → bz z = a.
Proof. intros ->. apply bz_zb. Qed.

Lemma zb_bz z : 0 ≤ z < 256 → zb (bz z) = z.
Proof.
  intros Hz. unfold bz, zb. rewrite N_ascii_embedding; [|lia].
  rewrite Z2N.id; lia.
Qed.

(** A decidable fact about every value below [n], checked by evaluation. *)
Lemma forall_below (n : nat) (P : Z → Prop) `{!∀ z, Decision (P z)} z :
  bool_decide (Forall P (Z.of_nat <$> seq 0 n)) = true → 0 ≤ z < Z.of_nat n → P z.
Proof.
  intros HF%bool_decide_eq_true Hz. rewrite Forall_forall in HF. apply HF.
  apply list_elem_of_fmap. exists (Z.to_nat z).
  split; [lia|]. apply elem_of_seq. lia.
Qed.

Lemma b64_val_digit url v : 0 ≤ v < 64 → b64_val url (b64_digit url v) = Some v.
Proof. apply (forall_below 64 (λ v, b64_val url (b64_digit url v) = Some v)). by destruct url; vm_compute. Qed.

Lemma b64_digit_not_newline url v : 0 ≤ v < 64 → is_newline (b64_digit url v) = false.
Proof. apply (forall_below 64 (λ v, is_newline (b64_digit url v) = false)). by destruct url; vm_compute. Qed.

Lemma hex_val_digit d : 0 ≤ d < 16 → hex_val (hex_digit d) = Some d.
Proof. apply (forall_below 16 (λ d, hex_val (hex_digit d) = Some d)). by vm_compute. Qed.

(** Induction three bytes at a time, as base64 consumes them. *)
Lemma string_ind3 (P : string → Prop) :
  P "" → (∀ a, P (str1 a)) → (∀ a b, P (String a (str1 b))) →
  (∀ a b c s, P s → P (String a (String b (String c s)))) → ∀ s, P s.
Proof.
  intros H0 H1 H2 H3. fix IH 1. intros [|a [|b [|c s]]].
  - apply H0.
  - apply H1.
  - apply H2.
  - apply H3, IH.
Qed.

Lemma hex_decode_encode s : hex_decode (hex_encode s) = Some s.
Proof.
  induction s as [|a s IH]; [done|]. pose proof (zb_range a).
  cbn [hex_encode hex_decode]. rewrite !hex_val_digit by lia. cbn [mbind option_bind].
  rewrite IH. cbn [mbind option_bind]. do 2 f_equal.
  replace (zb a / 16 * 16 + zb a mod 16) with (zb a) by lia. apply bz_zb.
Qed.

Lemma drop_newlines_b64_encode s : drop_newlines (b64_encode s) = b64_encode s.
Proof.
  induction s as [|a|a b|a b c s IH] using string_ind3; [done|..];
    pose proof (zb_range a); try pose proof (zb_range b); try pose proof (zb_range c);
    cbn [b64_encode str1 drop_newlines]; rewrite !b64_digit_not_newline by lia; [done..|].
  by rewrite IH.
Qed.

(** Base64 encoding loses nothing: the padded standard decoder inverts it. *)
Lemma b64_decode_encode s : b64_decode false true (b64_encode s) = Some s.
Proof.
  unfold b64_decode. rewrite drop_newlines_b64_encode.
  induction s as [|a|a b|a b c s IH] using string_ind3; [done|..];
    pose proof (zb_range a); try pose proof (zb_range b); try pose proof (zb_range c);
    cbn [b64_encode b64_quanta str1]; rewrite !b64_val_digit by lia;
    cbn [mbind option_bind b64_val];
    try (rewrite IH; cbn [mbind option_bind]).
  - rewrite (bz_eq _ a) by lia. done.
  - rewrite (bz_eq _ a) by lia. rewrite (bz_eq _ b) by lia. done.
  - rewrite (bz_eq _ a) by lia. rewrite (bz_eq _ b) by lia. by rewrite (bz_eq _ c) by lia.
Qed.

Lemma str_app_cons a s t : String a s +:+ t = String a (s +:+ t).
Proof. reflexivity. Qed.
Lemma str_app_nil_r s : s +:+ "" = s.
Proof. induction s as [|a s IH]; [done|]. by rewrite str_app_cons, IH. Qed.
Lemma str_app_assoc s t u : s +:+ (t +:+ u) = (s +:+ t) +:+ u.
Proof. induction s as [|a s IH]; [done|]. by rewrite !str_app_cons, IH. Qed.

Lemma HasPrefix_spec s p : HasPrefix s p = true ↔ ∃ t, s = p +:+ t.
Proof.
  revert s. induction p as [|a p IH]; intros s.
  - split; [by exists s|]. by destruct s.
  - destruct s as [|b s]; cbn [HasPrefix].
    + split; [done|]. by intros [t ?].
    + rewrite andb_true_iff, bool_decide_eq_true, IH. setoid_rewrite str_app_cons. naive_solver.
Qed.

(** Two prefixes of one string are comparable. *)
Lemma HasPrefix_linear s p q :
  HasPrefix s p = true → HasPrefix s q = true → HasPrefix p q = true ∨ HasPrefix q p = true.
Proof.
  revert p q. induction s as [|a s IH]; intros [|x p] [|y q]; cbn; auto; try done.
  intros [Hx Hp]%andb_true_iff [Hy Hq]%andb_true_iff.
  apply bool_decide_eq_true in Hx, Hy. subst. rewrite bool_decide_true by done. by apply IH.
Qed.

Lemma slen_app s t : slen (s +:+ t) = (slen s + slen t)%nat.
Proof. unfold slen. induction s as [|a s IH]; cbn; [done|]. by rewrite <-IH. Qed.

Lemma slen_hex_encode s : slen (hex_encode s) = (2 * slen s)%nat.
Proof. unfold slen. induction s as [|a s IH]; cbn; [done|]. rewrite IH. lia. Qed.

Lemma hex_decode_slen s r : hex_decode s = Some r → slen s = (2 * slen r)%nat.
Proof.
  revert r. unfold slen. induction s as [s IH] using (well_founded_induction (well_founded_ltof _ String.length)).
  intros r. destruct s as [|a [|b s]]; cbn.
  - by intros [= <-].
  - done.
  - destruct (hex_val a), (hex_val b); cbn; try done.
    destruct (hex_decode s) as [r'|] eqn:E; cbn; [|done].
    intros [= <-]. cbn. apply IH in E; [lia|]. unfold ltof. cbn. lia.
Qed.

(** ** Decimal printing and parsing *)

Lemma pretty_N_char_digit d : (d < 10)%N → is_digit (pretty_N_char d) = true ∧ zb (pretty_N_char d) - 48 = Z.of_N d.
Proof. intros Hd. do 10 (destruct d as [|d] using N.peano_ind; [done|]; try clear IHd); lia. Qed.

Lemma digits_value_pretty_go x s : digits_value 0 (pretty_N_go x s) = digits_value (Z.of_N x) s.
Proof.
  revert s. induction (N.lt_wf_0 x) as [x _ IH]. intros s.
  destruct (decide (x = 0)%N) as [->|Hx]; [by rewrite pretty_N_go_0|].
  rewrite pretty_N_go_step by lia. rewrite IH by (apply N.div_lt; lia).
  cbn [digits_value]. destruct (pretty_N_char_digit (x mod 10)) as [-> Hz]; [by apply N.mod_lt|].
  rewrite Hz. f_equal. pose proof (N.div_mod x 10). lia.
Qed.

Lemma digits_value_pretty (x : N) : digits_value 0 (pretty x) = Some (Z.of_N x).
Proof.
  unfold pretty, pretty_N. case_decide as Hx; [by subst|]. by rewrite digits_value_pretty_go.
Qed.

Lemma pretty_N_nonempty (x : N) : pretty x ≠ "".
Proof.
  intros He. pose proof (digits_value_pretty x) as Hd. rewrite He in Hd. cbn in Hd.
  injection Hd as Hd. assert (x = 0%N) as -> by lia. done.
Qed.

Lemma parse_uint_pretty bits (x : N) :
  Z.of_N x < 2 ^ bits → parse_uint bits (pretty x) = Some (Z.of_N x).
Proof.
  intros Hx. pose proof (pretty_N_nonempty x). unfold parse_uint.
  destruct (pretty x) as [|a s] eqn:Hp; [done|]. rewrite <-Hp, digits_value_pretty. cbn [mbind option_bind].
  by rewrite (proj2 (Z.ltb_lt _ _) Hx).
Qed.

(** [strconv.Itoa] of a natural number. *)
Lemma itoa_N z : 0 ≤ z → itoa z = pretty (Z.to_N z).
Proof. unfold itoa. by destruct z. Qed.

(** ** Trimming twice is trimming once *)

Ltac runes_step :=
  cbn [snd]; unfold str1; rewrite ?str_app_cons;
  repeat match goal with |- context ["" +:+ ?t] => change ("" +:+ t) with t end; cbn [runes].

(** The first rune of a string is decoded the same way whatever part of the
    rest follows it. *)
Lemma runes_head a s : ∃ p rest,
  String a s = p.2 +:+ rest ∧ p.2 ≠ "" ∧ ∀ t u, rest = t +:+ u → runes (p.2 +:+ t) = p :: runes t.
Proof.
  destruct (zb a <? 0x80) eqn:Ha.
  { exists (zb a, str1 a), s. split_and!; [done..|]. intros t u _. runes_step. by rewrite Ha. }
  destruct s as [|b s].
  { exists (RuneError, str1 a), "". split_and!; [done..|]. intros [|? ?] u; [|done]. intros _. runes_step. by rewrite Ha. }
  destruct (in_range 0xC2 0xDF (zb a) && is_cont b) eqn:H2.
  { eexists (_, String a (str1 b)), s. split_and!; [done..|]. intros t u _. runes_step. rewrite Ha, H2. reflexivity. }
  destruct s as [|c s].
  { exists (RuneError, str1 a), (str1 b). split_and!; [done..|]. intros [|b' [|? ?]] u; [| |done].
    - intros _. runes_step. by rewrite Ha.
    - intros [= <- _]. runes_step. by rewrite Ha, H2. }
  destruct (in_range 0xE0 0xEF (zb a) && second_ok (zb a) (zb b) && is_cont c) eqn:H3.
  { eexists (_, String a (String b (str1 c))), s. split_and!; [done..|]. intros t u _. runes_step. rewrite Ha, H2, H3. reflexivity. }
  destruct s as [|d s].
  { exists (RuneError, str1 a), (String b (str1 c)). split_and!; [done..|].
    intros [|b' [|c' [|? ?]]] u; [| | |done]; runes_step; rewrite Ha; [done|..].
    - intros [= <- _]. by rewrite H2.
    - intros [= <- <- _]. by rewrite H2, H3. }
  destruct (in_range 0xF0 0xF4 (zb a) && second_ok (zb a) (zb b) && is_cont c && is_cont d) eqn:H4.
  { eexists (_, String a (String b (String c (str1 d)))), s. split_and!; [done..|].
    intros t u _. runes_step. rewrite Ha, H2, H3, H4. reflexivity. }
  exists (RuneError, str1 a), (String b (String c (String d s))). split_and!; [done..|].
  intros [|b' [|c' [|d' t]]] u; runes_step; rewrite Ha; [done|..].
  - intros [= <- _]. by rewrite H2.
  - intros [= <- <- _]. by rewrite H2, H3.
  - intros [= <- <- <- _]. by rewrite H2, H3, H4.
Qed.

Lemma segs_cons p l : segs_string (p :: l) = p.2 +:+ segs_string l.
Proof. reflexivity. Qed.

(** Decoding what is left after dropping runes at the end or at the start. *)
Lemma runes_split s l1 l2 : runes s = l1 ++ l2 →
  runes (segs_string l1) = l1 ∧ runes (segs_string l2) = l2 ∧ s = segs_string l1 +:+ segs_string l2.
Proof.
  revert l1 l2. induction s as [s IH] using (well_founded_induction (well_founded_ltof _ String.length)).
  intros l1 l2. destruct s as [|a s].
  { cbn. intros Hl. symmetry in Hl. by apply app_eq_nil in Hl as [-> ->]. }
  destruct (runes_head a s) as (p & rest & Hs & Hp & Hr). rewrite Hs in *.
  assert (runes (p.2 +:+ rest) = p :: runes rest) as Hrs.
  { apply (Hr rest ""). by rewrite str_app_nil_r. }
  rewrite Hrs. assert (ltof _ String.length rest (p.2 +:+ rest)) as Hlt.
  { unfold ltof. change String.length with slen. rewrite slen_app. destruct p.2; [done|]. cbn. lia. }
  destruct l1 as [|q l1]; cbn [app].
  - intros <-. destruct (IH rest Hlt [] (runes rest) eq_refl) as (_ & Hl2 & Heq).
    change (rest = segs_string (runes rest)) in Heq. change (segs_string []) with "".
    split_and!; [done| |].
    + rewrite segs_cons. rewrite (Hr (segs_string (runes rest)) ""); [by rewrite Hl2|]. by rewrite str_app_nil_r.
    + rewrite segs_cons, <-Heq. reflexivity.
  - intros [= <- Hl]. destruct (IH rest Hlt l1 l2 Hl) as (Hl1 & Hl2 & Heq). split_and!; [|done|].
    + rewrite segs_cons, (Hr (segs_string l1) (segs_string l2)) by done. by rewrite Hl1.
    + rewrite segs_cons, <-str_app_assoc, <-Heq. done.
Qed.

Lemma drop_space_suffix l : ∃ k, l = k ++ drop_space l.
Proof.
  induction l as [|p l [k IH]]; cbn; [by exists []|]. destruct (is_space p.1); [|by exists []].
  exists (p :: k). cbn. by rewrite <-IH.
Qed.

Lemma drop_space_idem l : drop_space (drop_space l) = drop_space l.
Proof. induction l as [|p l IH]; cbn; [done|]. destruct (is_space p.1) eqn:Hp; [done|]. cbn. by rewrite Hp. Qed.

(** Dropping at one end keeps the other end trimmed. *)
Lemma drop_space_reverse l : drop_space l = l → drop_space (reverse (drop_space (reverse l))) =
  reverse (drop_space (reverse l)).
Proof.
  intros Hl. destruct (drop_space_suffix (reverse l)) as [k Hk].
  apply (f_equal reverse) in Hk. rewrite reverse_involutive, reverse_app in Hk.
  destruct (reverse (drop_space (reverse l))) as [|p r]; [done|]. cbn.
  rewrite Hk in Hl. cbn in Hl. destruct (is_space p.1) eqn:Hp; [|done]. exfalso.
  destruct (drop_space_suffix (r ++ reverse k)) as [k' Hk']. rewrite Hl in Hk'.
  apply (f_equal length) in Hk'. rewrite !length_app in Hk'. cbn [length] in Hk'. rewrite !length_app in Hk'. lia.
Qed.

Lemma TrimSpace_idem s : TrimSpace (TrimSpace s) = TrimSpace s.
Proof.
  unfold TrimSpace. set (l1 := drop_space (runes s)). set (l2 := reverse (drop_space (reverse l1))).
  assert (runes (segs_string l2) = l2) as ->.
  { destruct (drop_space_suffix (runes s)) as [k Hk]. apply runes_split in Hk as (_ & Hr & _).
    fold l1 in Hr. destruct (drop_space_suffix (reverse l1)) as [k' Hk'].
    apply (f_equal reverse) in Hk'. rewrite reverse_involutive, reverse_app in Hk'. fold l2 in Hk'.
    rewrite Hk' in Hr at 2. by apply runes_split in Hr as (? & _ & _). }
  assert (drop_space l2 = l2) as ->.
  { unfold l2. apply drop_space_reverse. unfold l1. apply drop_space_idem. }
  unfold l2 at 1. by rewrite reverse_involutive, drop_space_idem.
Qed.
