(* ===== verification/CircuitBreaker.v ===== *)
(** * Circuit breakers

    circuitbreaker/circuit_breaker.go: a breaker per provider, and the table of
    them.  Every method holds the breaker's mutex, so a method is one step; the
    clock's reading is an argument. *)

From S2P Require Import Prelude GoStrings.
From coqutil Require Import Datatypes.RecordSetters.
Import DoubleBraceUpdate.
Open Scope Z_scope.

Inductive State := StateClosed | StateOpen | StateHalfOpen.
#[global] Instance State_eq_dec : EqDecision State.
Proof. solve_decision. Defined.

Definition State_String (s : State) : string :=
  match s with StateClosed => "closed" | StateOpen => "open" | StateHalfOpen => "half-open" end.

Record CircuitBreaker := mkBreaker {
  cb_state : State;
  cb_failureCount : Z;
  cb_successCount : Z;
  cb_lastFailureTime : time;
  cb_failureThreshold : Z;
  cb_recoveryTimeout : Z;
}.
#[export] Instance set_cb_state : Setter cb_state := _.
#[export] Instance set_cb_failureCount : Setter cb_failureCount := _.
#[export] Instance set_cb_successCount : Setter cb_successCount := _.
#[export] Instance set_cb_lastFailureTime : Setter cb_lastFailureTime := _.

Record Config := mkBreakerConfig { FailureThreshold : Z; RecoveryTimeout : Z }.

Definition NewCircuitBreaker (config : Config) : CircuitBreaker :=
  mkBreaker StateClosed 0 0 zero_time
    (if FailureThreshold config <=? 0 then 3 else FailureThreshold config)
    (if RecoveryTimeout config <=? 0 then 2 * Minute else RecoveryTimeout config).

Definition Allow (now : time) (cb : CircuitBreaker) : bool * CircuitBreaker :=
  match cb_state cb with
  | StateClosed => (true, cb)
  | StateOpen =>
    if cb_recoveryTimeout cb <=? time_Sub now (cb_lastFailureTime cb)
    then (true, cb {{ cb_state := StateHalfOpen; cb_successCount := 0; cb_failureCount := 0 }})
    else (false, cb)
  | StateHalfOpen => (true, cb)
  end.

Definition RecordSuccess (cb : CircuitBreaker) : CircuitBreaker :=
  match cb_state cb with
  | StateClosed => cb {{ cb_failureCount := 0 }}
  | StateHalfOpen =>
    let cb := cb {{ cb_successCount ::= λ n, wrap_int64 (n + 1) }} in
    if 2 <=? cb_successCount cb
    then cb {{ cb_state := StateClosed; cb_failureCount := 0; cb_successCount := 0 }} else cb
  | StateOpen => cb
  end.

Definition RecordFailure (now : time) (cb : CircuitBreaker) : CircuitBreaker :=
  let cb := cb {{ cb_lastFailureTime := now }} in
  match cb_state cb with
  | StateClosed =>
    let cb := cb {{ cb_failureCount ::= λ n, wrap_int64 (n + 1) }} in
    if cb_failureThreshold cb <=? cb_failureCount cb then cb {{ cb_state := StateOpen }} else cb
  | StateHalfOpen => cb {{ cb_state := StateOpen; cb_failureCount := 0; cb_successCount := 0 }}
  | StateOpen => cb
  end.

Definition Reset (cb : CircuitBreaker) : CircuitBreaker :=
  cb {{ cb_state := StateClosed; cb_failureCount := 0; cb_successCount := 0 }}.

(** ** The table of breakers *)

Record ProviderCircuitBreakers := mkBreakers { breakers : gmap string CircuitBreaker; config : Config }.
#[export] Instance set_breakers : Setter breakers := _.

Definition NewProviderCircuitBreakers (config : Config) : ProviderCircuitBreakers := mkBreakers ∅ config.

(** The breaker is shared: what is done to it is done in the table. *)
Definition GetOrCreate (providerID : string) (pcb : ProviderCircuitBreakers) : CircuitBreaker * ProviderCircuitBreakers :=
  match breakers pcb !! providerID with
  | Some breaker => (breaker, pcb)
  | None =>
    let breaker := NewCircuitBreaker (config pcb) in (breaker, pcb {{ breakers ::= <[providerID := breaker]> }})
  end.

Definition on_breaker {A} (providerID : string) (f : CircuitBreaker → A * CircuitBreaker)
    (pcb : ProviderCircuitBreakers) : A * ProviderCircuitBreakers :=
  let '(breaker, pcb) := GetOrCreate providerID pcb in
  let '(a, breaker) := f breaker in
  (a, pcb {{ breakers ::= <[providerID := breaker]> }}).

Definition GetState (providerID : string) (pcb : ProviderCircuitBreakers) : State :=
  match breakers pcb !! providerID with Some breaker => cb_state breaker | None => StateClosed end.

Definition IsProviderAvailable (now : time) (providerID : string) := on_breaker providerID (Allow now).
Definition ProviderRecordSuccess (providerID : string) := on_breaker providerID (λ cb, (tt, RecordSuccess cb)).
Definition ProviderRecordFailure (now : time) (providerID : string) :=
  on_breaker providerID (λ cb, (tt, RecordFailure now cb)).
Definition ProviderReset (providerID : string) := on_breaker providerID (λ cb, (tt, Reset cb)).

(** [GetStats]: state and failure count of every breaker. *)
Definition GetStats (pcb : ProviderCircuitBreakers) : gmap string (string * Z) :=
  (λ cb, (State_String (cb_state cb), cb_failureCount cb)) <$> breakers pcb.

(** ** Invariant *)

(** What holds of a breaker between calls. *)
Record breaker_ok (cb : CircuitBreaker) : Prop := {
  bo_threshold : 1 ≤ cb_failureThreshold cb < 2 ^ 63;
  bo_timeout : 0 < cb_recoveryTimeout cb < 2 ^ 63;
  bo_closed : cb_state cb = StateClosed → 0 ≤ cb_failureCount cb < cb_failureThreshold cb ∧ cb_successCount cb = 0;
  bo_half_open : cb_state cb = StateHalfOpen → cb_failureCount cb = 0 ∧ 0 ≤ cb_successCount cb ≤ 1;
  bo_open : cb_state cb = StateOpen → 0 ≤ cb_failureCount cb ≤ cb_failureThreshold cb ∧ cb_successCount cb = 0;
}.

Definition config_fits (c : Config) : Prop := FailureThreshold c < 2 ^ 63 ∧ RecoveryTimeout c < 2 ^ 63.

Lemma wrap_int64_small z : - 2 ^ 63 ≤ z < 2 ^ 63 → wrap_int64 z = z.
Proof. intros Hz. unfold wrap_int64. rewrite Z.mod_small; lia. Qed.

Lemma new_ok c : config_fits c → breaker_ok (NewCircuitBreaker c).
Proof.
  intros [? ?]. unfold NewCircuitBreaker, Minute, Second, Millisecond. split; cbn; try done.
  - destruct (Z.leb_spec (FailureThreshold c) 0); lia.
  - destruct (Z.leb_spec (RecoveryTimeout c) 0); lia.
  - intros _. destruct (Z.leb_spec (FailureThreshold c) 0); lia.
Qed.

Ltac breaker_tac := split; cbn in *; unfold constant in *; intros; try done; rewrite ?wrap_int64_small by lia; try lia.

Lemma Allow_ok now cb : breaker_ok cb → breaker_ok (Allow now cb).2.
Proof.
  intros [? ? Hc Hh Ho]. destruct cb as [[] f n t th rt]; unfold Allow; cbn in *; try by split.
  case_match; [breaker_tac|by split].
Qed.

Lemma RecordSuccess_ok cb : breaker_ok cb → breaker_ok (RecordSuccess cb).
Proof.
  intros [? ? Hc Hh Ho]. destruct cb as [[] f n t th rt]; unfold RecordSuccess; cbn in *; [|by split|].
  - destruct (Hc eq_refl). breaker_tac.
  - destruct (Hh eq_refl). rewrite wrap_int64_small by lia. destruct (Z.leb_spec 2 (n + 1)); breaker_tac.
Qed.

Lemma RecordFailure_ok now cb : breaker_ok cb → breaker_ok (RecordFailure now cb).
Proof.
  intros [? ? Hc Hh Ho]. destruct cb as [[] f n t th rt]; unfold RecordFailure; cbn in *; [|by split|].
  - destruct (Hc eq_refl). rewrite wrap_int64_small by lia. destruct (Z.leb_spec th (f + 1)); breaker_tac.
  - breaker_tac.
Qed.

Lemma Reset_ok cb : breaker_ok cb → breaker_ok (Reset cb).
Proof. intros [? ? Hc Hh Ho]. destruct cb. breaker_tac. Qed.

(** ** When a breaker opens *)

Inductive outcome := Succeeded | Failed (at_ : time).

Definition record (cb : CircuitBreaker) (o : outcome) : CircuitBreaker :=
  match o with Succeeded => RecordSuccess cb | Failed t => RecordFailure t cb end.
Definition records (cb : CircuitBreaker) (os : list outcome) : CircuitBreaker := foldl record cb os.

Lemma records_open cb os : cb_state cb = StateOpen → cb_state (records cb os) = StateOpen.
Proof.
  revert cb. induction os as [|o os IH]; intros cb Hs; [done|]. apply IH.
  destruct cb as [s f n t th rt], o; cbn in Hs; by subst s.
Qed.

(** Some [n] failures follow one another. *)
Definition burst (n : Z) (os : list outcome) : Prop :=
  ∃ before ts after, os = before ++ (Failed <$> ts) ++ after ∧ Z.of_nat (length ts) = n.
(** The outcomes begin with [n] failures. *)
Definition leading (n : Z) (os : list outcome) : Prop :=
  ∃ ts after, os = (Failed <$> ts) ++ after ∧ Z.of_nat (length ts) = n.

Lemma leading_shorter n m os : 0 ≤ m ≤ n → leading n os → leading m os.
Proof.
  intros Hm (ts & after & -> & Hlen). exists (take (Z.to_nat m) ts), ((Failed <$> drop (Z.to_nat m) ts) ++ after).
  split; [|rewrite length_take; lia]. by rewrite app_assoc, <-fmap_app, take_drop.
Qed.

Lemma leading_nil n : 1 ≤ n → ¬ leading n [].
Proof. intros Hn (ts & after & Heq & Hl). destruct ts; cbn in *; [lia|done]. Qed.

Lemma leading_cons n o os : 1 ≤ n → leading n (o :: os) ↔ ∃ t, o = Failed t ∧ leading (n - 1) os.
Proof.
  intros Hn. split.
  - intros ([|t ts] & after & Heq & Hl); cbn in *; [lia|]. injection Heq as -> ->.
    exists t. split; [done|]. exists ts, after. split; [done|lia].
  - intros (t & -> & ts & after & -> & Hl). exists (t :: ts), after. split; [done|]. cbn. lia.
Qed.

Lemma burst_cons n o os : burst n (o :: os) ↔ leading n (o :: os) ∨ burst n os.
Proof.
  split.
  - intros ([|x before] & ts & after & Heq & Hl); [left; by exists ts, after|].
    injection Heq as -> ->. right. by exists before, ts, after.
  - intros [(ts & after & -> & Hl)|(before & ts & after & -> & Hl)]; [by exists [], ts, after|].
    by exists (o :: before), ts, after.
Qed.

Lemma burst_nil n : 1 ≤ n → ¬ burst n [].
Proof. intros Hn ([|] & [|] & ? & Heq & Hl); cbn in *; [lia|done..]. Qed.

(** A closed breaker with [f] failures behind it opens when the outcomes complete
    a run of [threshold] failures. *)
Lemma closed_opens os : ∀ f t th rt, 0 ≤ f < th → th < 2 ^ 63 →
  cb_state (records (mkBreaker StateClosed f 0 t th rt) os) = StateOpen ↔ leading (th - f) os ∨ burst th os.
Proof.
  induction os as [|o os IH]; intros f t th rt Hf Hth.
  { split; [done|]. intros [Hl|Hb]; exfalso; [by eapply leading_nil; [|exact Hl]; lia|by eapply burst_nil; [|exact Hb]; lia]. }
  rewrite burst_cons, !leading_cons by lia. destruct o as [|t'].
  - change (records _ (Succeeded :: os)) with (records (mkBreaker StateClosed 0 0 t th rt) os).
    rewrite IH by lia. replace (th - 0) with th by lia. split.
    + intros [Hl|Hb]; [|by right; right]. right. right. destruct os; [by apply leading_nil in Hl; [|lia]|].
      apply burst_cons. by left.
    + intros [(? & ? & _)|[(? & ? & _)|Hb]]; [done..|by right].
  - change (records _ (Failed t' :: os)) with (records (RecordFailure t' (mkBreaker StateClosed f 0 t th rt)) os).
    assert (RecordFailure t' (mkBreaker StateClosed f 0 t th rt) =
      mkBreaker (if th <=? f + 1 then StateOpen else StateClosed) (f + 1) 0 t' th rt) as ->.
    { rewrite <-(wrap_int64_small (f + 1)) by lia. unfold RecordFailure. cbn. by destruct (th <=? wrap_int64 (f + 1)). }
    destruct (Z.leb_spec th (f + 1)).
    + rewrite records_open by done. split; [|done]. intros _. left. exists t'. split; [done|].
      exists [], os. split; [done|]. cbn. lia.
    + rewrite (IH (f + 1) t' th rt) by lia. replace (th - f - 1) with (th - (f + 1)) by lia. split.
      * intros [Hl|Hb]; [left; by exists t'|by right; right].
      * intros [(? & _ & Hl)|[(? & _ & Hl)|Hb]]; [by left| |by right]. left.
        eapply leading_shorter; [|exact Hl]. lia.
Qed.

(** A new breaker that is told outcomes opens exactly when as many failures
    as its threshold follow one another without a success between them; until
    then it is closed and lets every request through. *)
Theorem breaker_opens_exactly c os now :
  config_fits c →
  let cb := NewCircuitBreaker c in let cb' := records cb os in
  (cb_state cb' = StateOpen ↔ burst (cb_failureThreshold cb) os) ∧
  (¬ burst (cb_failureThreshold cb) os → cb_state cb' = StateClosed ∧ (Allow now cb').1 = true).
Proof.
  intros Hc. cbv zeta. pose proof (new_ok c Hc) as [Hth _ _ _ _].
  assert (cb_state (records (NewCircuitBreaker c) os) = StateOpen ↔ burst (cb_failureThreshold (NewCircuitBreaker c)) os)
    as Hopen.
  { unfold NewCircuitBreaker at 1. rewrite closed_opens by (cbn in Hth; lia).
    set (th := cb_failureThreshold (NewCircuitBreaker c)) in *.
    change (if FailureThreshold c <=? 0 then 3 else FailureThreshold c) with th. replace (th - 0) with th by lia.
    split; [|by right]. intros [Hl|]; [|done]. destruct os; [by apply leading_nil in Hl; [|lia]|]. apply burst_cons. by left. }
  split; [exact Hopen|]. intros Hb. assert (cb_state (records (NewCircuitBreaker c) os) = StateClosed) as Hcl.
  { assert (∀ os cb, cb_state cb ≠ StateHalfOpen → cb_state (records cb os) ≠ StateHalfOpen) as Hnh.
    { clear. induction os as [|o os IH]; intros cb Hs; [done|]. apply IH.
      destruct cb as [[] f n t th rt], o; cbn in *; try done. unfold RecordFailure. cbn. by case_match. }
    specialize (Hnh os (NewCircuitBreaker c) ltac:(done)). rewrite <-Hopen in Hb.
    by destruct (cb_state _). }
  split; [done|]. unfold Allow. by rewrite Hcl.
Qed.

(** ** Recovery *)

Lemma timeout_passed cb now :
  breaker_ok cb →
  cb_recoveryTimeout cb <=? time_Sub now (cb_lastFailureTime cb) =
  (cb_recoveryTimeout cb <=? now - cb_lastFailureTime cb).
Proof.
  intros [_ Hr _ _ _]. unfold time_Sub.
  destruct (Z.leb_spec (cb_recoveryTimeout cb) (now - cb_lastFailureTime cb)); [apply Z.leb_le|apply Z.leb_gt]; lia.
Qed.


(** ** Providers *)

Inductive call := CallAllow (now : time) | CallSuccess | CallFailure (now : time) | CallReset.

(** The answer is that of [Allow]; the other calls have none. *)
Definition call_breaker (k : call) (cb : CircuitBreaker) : bool * CircuitBreaker :=
  match k with
  | CallAllow now => Allow now cb
  | CallSuccess => (true, RecordSuccess cb)
  | CallFailure now => (true, RecordFailure now cb)
  | CallReset => (true, Reset cb)
  end.

Definition call_provider (k : call) (p : string) (pcb : ProviderCircuitBreakers) : bool * ProviderCircuitBreakers :=
  match k with
  | CallAllow now => IsProviderAvailable now p pcb
  | CallSuccess => (true, (ProviderRecordSuccess p pcb).2)
  | CallFailure now => (true, (ProviderRecordFailure now p pcb).2)
  | CallReset => (true, (ProviderReset p pcb).2)
  end.

Fixpoint run_breaker (ks : list call) (cb : CircuitBreaker) : list bool * CircuitBreaker :=
  match ks with
  | [] => ([], cb)
  | k :: ks => let '(b, cb) := call_breaker k cb in let '(bs, cb) := run_breaker ks cb in (b :: bs, cb)
  end.

Fixpoint run_providers (ops : list (string * call)) (pcb : ProviderCircuitBreakers)
    : list (string * bool) * ProviderCircuitBreakers :=
  match ops with
  | [] => ([], pcb)
  | (p, k) :: ops =>
    let '(b, pcb) := call_provider k p pcb in let '(bs, pcb) := run_providers ops pcb in ((p, b) :: bs, pcb)
  end.

(** What concerns provider [p]. *)
Definition about {A} (p : string) (l : list (string * A)) : list A := (filter (λ x, x.1 = p) l).*2.

(** The breaker a provider has, or will be given. *)
Definition breaker_of (p : string) (pcb : ProviderCircuitBreakers) : CircuitBreaker :=
  default (NewCircuitBreaker (config pcb)) (breakers pcb !! p).

Lemma on_breaker_spec {A} p (f : CircuitBreaker → A * CircuitBreaker) pcb :
  let '(a, pcb') := on_breaker p f pcb in
  config pcb' = config pcb ∧ a = (f (breaker_of p pcb)).1 ∧
  breakers pcb' = <[p := (f (breaker_of p pcb)).2]> (breakers pcb).
Proof.
  unfold on_breaker, GetOrCreate, breaker_of. destruct pcb as [m cfg]; cbn [breakers config].
  destruct (m !! p) as [cb|] eqn:Hp; cbn [default]; unfold id; destruct (f _) as [a cb']; split_and!; try done.
  cbn. by rewrite insert_insert_eq.
Qed.

Lemma breaker_of_on_breaker {A} q p (f : CircuitBreaker → A * CircuitBreaker) pcb :
  breaker_of q (on_breaker p f pcb).2 = if decide (p = q) then (f (breaker_of q pcb)).2 else breaker_of q pcb.
Proof.
  pose proof (on_breaker_spec p f pcb) as Hs. destruct (on_breaker p f pcb) as [a pcb'].
  destruct Hs as (Hcfg & _ & Hm). unfold breaker_of at 1. cbn [snd]. rewrite Hm, Hcfg. case_decide as Hpq.
  - subst. by rewrite lookup_insert_eq.
  - by rewrite lookup_insert_ne.
Qed.

Lemma call_provider_spec k p pcb :
  let '(b, pcb') := call_provider k p pcb in
  config pcb' = config pcb ∧ b = (call_breaker k (breaker_of p pcb)).1 ∧
  breakers pcb' = <[p := (call_breaker k (breaker_of p pcb)).2]> (breakers pcb).
Proof.
  destruct k; cbn [call_provider call_breaker];
    unfold IsProviderAvailable, ProviderRecordSuccess, ProviderRecordFailure, ProviderReset;
    [apply on_breaker_spec|..];
    match goal with |- context [on_breaker p ?f pcb] => pose proof (on_breaker_spec p f pcb) as Hs end;
    destruct (on_breaker _ _ _) as [[] pcb']; destruct Hs as (? & _ & ?); done.
Qed.

Lemma run_providers_spec ops p : ∀ pcb,
  let '(answers, pcb') := run_providers ops pcb in
  let mine := run_breaker (about p ops) (breaker_of p pcb) in
  about p answers = mine.1 ∧
  breakers pcb' !! p = match about p ops with [] => breakers pcb !! p | _ => Some mine.2 end.
Proof.
  induction ops as [|[q k] ops IH]; intros pcb; [done|]. cbn [run_providers].
  pose proof (call_provider_spec k q pcb) as Hc. destruct (call_provider k q pcb) as [b pcb1].
  destruct Hc as (Hcfg & -> & Hm). specialize (IH pcb1). destruct (run_providers ops pcb1) as [answers pcb'].
  unfold about in *. rewrite !filter_cons. cbn [fst]. destruct (decide (q = p)) as [->|Hne]; cbn [fmap list_fmap fst snd].
  - assert (breaker_of p pcb1 = (call_breaker k (breaker_of p pcb)).2) as Hb.
    { unfold breaker_of at 1. by rewrite Hm, lookup_insert_eq. }
    rewrite Hb in IH. cbn [run_breaker]. destruct (call_breaker k (breaker_of p pcb)) as [b cb]. cbn [fst snd] in *.
    destruct (run_breaker _ cb) as [bs cb'] eqn:Hrun. cbn [fst snd] in *. destruct IH as [-> Hp]. split; [done|].
    rewrite Hp. destruct ((filter _ ops).*2); [|done]. cbn in Hrun. injection Hrun as <- <-.
    by rewrite Hm, lookup_insert_eq.
  - assert (breaker_of p pcb1 = breaker_of p pcb) as Hb.
    { unfold breaker_of. by rewrite Hm, lookup_insert_ne, Hcfg by done. }
    rewrite Hb in IH. destruct IH as [-> Hp]. split; [done|]. rewrite Hp. case_match; [|done].
    by rewrite Hm, lookup_insert_ne.
Qed.

(** Providers do not affect one another: in any sequence of calls on a new
    table, the answers for a provider and the breaker it ends with are those of
    a breaker of its own that got only its calls; a provider nobody asked for
    has none and counts as closed. *)
Theorem providers_independent c ops p :
  let '(answers, pcb) := run_providers ops (NewProviderCircuitBreakers c) in
  let '(bs, cb) := run_breaker (about p ops) (NewCircuitBreaker c) in
  about p answers = bs ∧
  breakers pcb !! p = (if bool_decide (about p ops = []) then None else Some cb) ∧
  GetState p pcb = cb_state cb.
Proof.
  pose proof (run_providers_spec ops p (NewProviderCircuitBreakers c)) as Hr.
  destruct (run_providers ops _) as [answers pcb]. change (breaker_of p _) with (NewCircuitBreaker c) in Hr.
  destruct (run_breaker _ _) as [bs cb] eqn:Hrun. cbn [fst snd] in Hr. destruct Hr as [Ha Hp].
  unfold GetState. rewrite Hp. destruct (about p ops) eqn:Habout.
  - rewrite bool_decide_true by done. injection Hrun as <- <-. done.
  - by rewrite bool_decide_false by done.
Qed.

Module CircuitBreakerExample.
Definition cfg : Config := mkBreakerConfig 3 0.
Definition outcomes : list outcome := [Failed 1; Succeeded; Failed 2; Failed 3; Failed 4].

Lemma breaker_opens_exactly_witness :
  cb_state (records (NewCircuitBreaker cfg) outcomes) = StateOpen ∧
  cb_state (records (NewCircuitBreaker cfg) (take 4 outcomes)) = StateClosed.
Proof.
  split; [|vm_compute; reflexivity].
  apply (breaker_opens_exactly cfg outcomes 0); [vm_compute; split; reflexivity|].
  exists [Failed 1; Succeeded], [2; 3; 4], []. split; reflexivity.
Defined.

Definition opened : CircuitBreaker := records (NewCircuitBreaker cfg) outcomes.

End CircuitBreakerExample.
