(* ===== verification/Json.v ===== *)
(** * [encoding/json] as the coordinator uses it

    - [json_parse]: the grammar Go accepts, producing a value in which every
      array element and object member keeps the exact text it was read from,
      which is what a [json.RawMessage] holds;
    - [dec]: decoding into typed Go destinations.  A decoder receives the
      destination's current value and returns the new one with a success flag:
      Go records the first type error, skips the offending value and goes on,
      so the code that ignores the error sees a partly filled destination;
      [null] leaves scalars and structs as they were;
    - [str_text], [obj_text], [arr_text], [compact]: what [json.Marshal]
      prints for strings, maps and slices, and how it copies a [RawMessage].

    One thing is simplified: an array that occurs twice under one struct field
    is decoded into a fresh slice the second time (Go reuses the elements). *)

From S2P Require Import Prelude GoStrings.
Open Scope Z_scope.

Definition dq : ascii := "034"%char.
Definition bsl : ascii := "092"%char.

(** ** Values *)

Inductive jv : Type :=
| JNull
| JBool (b : bool)
| JNum (lit : string)
| JStr (s : string)
| JArr (items : list (string * jv))
| JObj (fields : list (string * (string * jv))).

(** A value with the text it was read from. *)
Abbreviation jnode := (string * jv)%type.

(** ** Parsing *)

Definition is_ws (a : ascii) : bool :=
  bool_decide (a = " "%char) || bool_decide (a = "009"%char)
  || bool_decide (a = "010"%char) || bool_decide (a = "013"%char).

Fixpoint skip_ws (s : string) : string :=
  match s with
  | "" => ""
  | String a s' => if is_ws a then skip_ws s' else s
  end.

Fixpoint span_digits (s : string) : string * string :=
  match s with
  | "" => ("", "")
  | String a s' =>
    if is_digit a then let '(d, r) := span_digits s' in (String a d, r) else ("", s)
  end.

(** [-]int, with no leading zero. *)
Definition num_int (s : string) : option (string * string) :=
  match s with
  | "" => None
  | String a s' =>
    if bool_decide (a = "0"%char) then Some (str1 a, s')
    else if is_digit a then Some (span_digits s) else None
  end.

Definition num_frac (s : string) : option (string * string) :=
  match s with
  | String "." s' =>
    match span_digits s' with ("", _) => None | (d, r) => Some (String "." d, r) end
  | _ => Some ("", s)
  end.

Definition num_exp (s : string) : option (string * string) :=
  match s with
  | String e s' =>
    if bool_decide (e = "e"%char) || bool_decide (e = "E"%char) then
      let '(sg, s'') :=
        match s' with
        | String c t =>
          if bool_decide (c = "+"%char) || bool_decide (c = "-"%char) then (str1 c, t) else ("", s')
        | "" => ("", s')
        end in
      match span_digits s'' with
      | ("", _) => None
      | (d, r) => Some (String e (sg +:+ d), r)
      end
    else Some ("", s)
  | "" => Some ("", s)
  end.

Definition parse_number (s : string) : option (string * string) :=
  let '(sg, s0) := match s with String "-" t => ("-", t) | _ => ("", s) end in
  '(i, s1) ← num_int s0; '(f, s2) ← num_frac s1; '(e, s3) ← num_exp s2;
  Some (sg +:+ i +:+ f +:+ e, s3).

Definition hex4 (a b c d : ascii) : option Z :=
  x ← hex_val a; y ← hex_val b; z ← hex_val c; t ← hex_val d;
  Some (((x * 16 + y) * 16 + z) * 16 + t).

Definition simple_escape (e : ascii) : option ascii :=
  if bool_decide (e = dq) then Some dq
  else if bool_decide (e = bsl) then Some bsl
  else if bool_decide (e = "/"%char) then Some "/"%char
  else if bool_decide (e = "b"%char) then Some "008"%char
  else if bool_decide (e = "f"%char) then Some "012"%char
  else if bool_decide (e = "n"%char) then Some "010"%char
  else if bool_decide (e = "r"%char) then Some "013"%char
  else if bool_decide (e = "t"%char) then Some "009"%char
  else None.

Definition prepend (p : string) (r : option (string * string)) : option (string * string) :=
  match r with Some (x, rest) => Some (p +:+ x, rest) | None => None end.

(** A low surrogate escape at the head of [s], if there is one. *)
Definition low_surrogate (s : string) : option Z :=
  match s with
  | String b (String u (String g1 (String g2 (String g3 (String g4 _))))) =>
    if bool_decide (b = bsl) && bool_decide (u = "u"%char) then
      v ← hex4 g1 g2 g3 g4; if in_range 0xDC00 0xDFFF v then Some v else None
    else None
  | _ => None
  end.

(** The body of a string literal after its opening quote: the decoded bytes
    (not yet checked for UTF-8) and what follows the closing quote. *)
Fixpoint str_body (s : string) : option (string * string) :=
  match s with
  | "" => None
  | String a s1 =>
    if bool_decide (a = dq) then Some ("", s1)
    else if bool_decide (a = bsl) then
      match s1 with
      | "" => None
      | String e s2 =>
        match simple_escape e with
        | Some c => prepend (str1 c) (str_body s2)
        | None =>
          if bool_decide (e = "u"%char) then
            match s2 with
            | String h1 (String h2 (String h3 (String h4 s3))) =>
              match hex4 h1 h2 h3 h4 with
              | None => None
              | Some u =>
                match s3 with
                | String _ (String _ (String _ (String _ (String _ (String _ s4))))) =>
                  match low_surrogate s3 with
                  | Some v =>
                    if in_range 0xD800 0xDBFF u
                    then prepend (encode_rune ((u - 0xD800) * 1024 + (v - 0xDC00) + 0x10000)) (str_body s4)
                    else prepend (encode_rune u) (str_body s3)
                  | None => prepend (encode_rune u) (str_body s3)
                  end
                | _ => prepend (encode_rune u) (str_body s3)
                end
              end
            | _ => None
            end
          else None
        end
      end
    else if zb a <? 0x20 then None
    else prepend (str1 a) (str_body s1)
  end.

Definition consumed (s rest : string) : string := take_str (slen s - slen rest) s.

(** A string literal at the head of [s], opening quote included. *)
Definition parse_string (s : string) : option (string * string) :=
  match s with
  | String a s1 =>
    if bool_decide (a = dq)
    then match str_body s1 with Some (x, r) => Some (sanitize_utf8 x, r) | None => None end
    else None
  | "" => None
  end.

Definition parse_literal (s : string) : option (jv * string) :=
  if HasPrefix s "null" then Some (JNull, drop_str 4 s)
  else if HasPrefix s "true" then Some (JBool true, drop_str 4 s)
  else if HasPrefix s "false" then Some (JBool false, drop_str 5 s)
  else None.

Definition head_is (s : string) (c : ascii) : bool :=
  match s with String a _ => bool_decide (a = c) | "" => false end.
Definition tail_str (s : string) : string := drop_str 1 s.

Definition open_brace : ascii := "{"%char.
Definition close_brace : ascii := "}"%char.
Definition open_bracket : ascii := "["%char.
Definition close_bracket : ascii := "]"%char.
Definition comma : ascii := ","%char.
Definition colon : ascii := ":"%char.

(** [n] is fuel; [depth] is what is left of Go's nesting limit. *)
Fixpoint parse_val (n : nat) (depth : Z) (s : string) {struct n} : option (jv * string) :=
  match n with
  | O => None
  | S n =>
    if head_is s dq then '(x, r) ← parse_string s; Some (JStr x, r)
    else if head_is s open_brace then
      if depth <=? 0 then None else
      let s2 := skip_ws (tail_str s) in
      if head_is s2 close_brace then Some (JObj [], tail_str s2)
      else '(l, r) ← parse_members n (depth - 1) s2; Some (JObj l, r)
    else if head_is s open_bracket then
      if depth <=? 0 then None else
      let s2 := skip_ws (tail_str s) in
      if head_is s2 close_bracket then Some (JArr [], tail_str s2)
      else '(l, r) ← parse_items n (depth - 1) s2; Some (JArr l, r)
    else match parse_literal s with
    | Some p => Some p
    | None => '(x, r) ← parse_number s; Some (JNum x, r)
    end
  end
with parse_items (n : nat) (depth : Z) (s : string) {struct n} : option (list jnode * string) :=
  match n with
  | O => None
  | S n =>
    '(v, r) ← parse_val n depth s;
    let raw := consumed s r in
    let r := skip_ws r in
    if head_is r comma then
      '(l, r') ← parse_items n depth (skip_ws (tail_str r)); Some ((raw, v) :: l, r')
    else if head_is r close_bracket then Some ([(raw, v)], tail_str r)
    else None
  end
with parse_members (n : nat) (depth : Z) (s : string) {struct n}
    : option (list (string * jnode) * string) :=
  match n with
  | O => None
  | S n =>
    '(k, r) ← parse_string s;
    let r := skip_ws r in
    if head_is r colon then
      let s' := skip_ws (tail_str r) in
      '(v, r) ← parse_val n depth s';
      let raw := consumed s' r in
      let r := skip_ws r in
      if head_is r comma then
        '(l, r') ← parse_members n depth (skip_ws (tail_str r)); Some ((k, (raw, v)) :: l, r')
      else if head_is r close_brace then Some ([(k, (raw, v))], tail_str r)
      else None
    else None
  end.

Definition max_depth : Z := 10000.

(** A whole document: one value with white space around it. *)
Definition json_parse (s : string) : option jnode :=
  let s0 := skip_ws s in
  '(v, r) ← parse_val (2 * slen s0 + 2) max_depth s0;
  if bool_decide (skip_ws r = "") then Some (consumed s0 r, v) else None.

Definition json_valid (s : string) : bool :=
  match json_parse s with Some _ => true | None => false end.

(** A whole number literal. *)
Definition is_number_literal (s : string) : bool :=
  match parse_number s with Some (_, "") => true | _ => false end.

(** ** Printing *)

Definition hex2 (z : Z) : string := String (hex_digit (z / 16)) (str1 (hex_digit (z mod 16))).
Definition u_escape (z : Z) : string := String bsl (String "u" (hex2 (z / 256) +:+ hex2 (z mod 256))).

(** One rune of a string literal, with HTML escaping on. *)
Definition quote_rune (p : Z * string) : string :=
  let r := p.1 in
  if r =? zb dq then String bsl (str1 dq)
  else if r =? zb bsl then String bsl (str1 bsl)
  else if r =? 8 then String bsl (str1 "b")
  else if r =? 12 then String bsl (str1 "f")
  else if r =? 10 then String bsl (str1 "n")
  else if r =? 13 then String bsl (str1 "r")
  else if r =? 9 then String bsl (str1 "t")
  else if (r <? 0x20) || (r =? zb "<") || (r =? zb ">") || (r =? zb "&") then u_escape r
  else if (r =? 0x2028) || (r =? 0x2029) then u_escape r
  else if (r =? RuneError) && (slen p.2 =? 1)%nat then u_escape r
  else p.2.

Definition str_text (s : string) : string :=
  String dq (concat_strings (quote_rune <$> runes s) +:+ str1 dq).

Definition num_text (z : Z) : string := itoa z.
Definition bool_text (b : bool) : string := if b then "true" else "false".
Definition arr_text (l : list string) : string :=
  String open_bracket (Join l "," +:+ str1 close_bracket).
Definition member_text (kv : string * string) : string :=
  str_text kv.1 +:+ String colon kv.2.
(** Members in the order given: struct fields, or a map's sorted keys. *)
Definition obj_text (l : list (string * string)) : string :=
  String open_brace (Join (member_text <$> l) "," +:+ str1 close_brace).

Global Instance key_le_dec {A} (p q : string * A) : Decision (String.le p.1 q.1).
Proof. apply _. Defined.

(** A map's members in key order ([json.Marshal] sorts them). *)
Definition sorted_members (m : gmap string string) : list (string * string) :=
  merge_sort (λ p q, String.le p.1 q.1) (map_to_list m).
Definition map_text (m : gmap string string) : string := obj_text (sorted_members m).

(** How a [RawMessage] is copied into the output: white space outside strings
    dropped, HTML characters and U+2028/9 escaped. *)
Fixpoint compact_go (in_str esc : bool) (s : string) : string :=
  match s with
  | "" => ""
  | String a s' =>
    if negb in_str && is_ws a then compact_go in_str esc s'
    else
      let in_str' := if bool_decide (a = dq) then (if in_str then esc else true) else in_str in
      let esc' := in_str && negb esc && bool_decide (a = bsl) in
      if bool_decide (a = "<"%char) || bool_decide (a = ">"%char) || bool_decide (a = "&"%char)
      then u_escape (zb a) +:+ compact_go in_str' esc' s'
      else match s' with
      | String b (String c s'') =>
        if (zb a =? 0xE2) && (zb b =? 0x80) && in_range 0xA8 0xA9 (zb c)
        then u_escape (0x2028 + (zb c - 0xA8)) +:+ compact_go in_str' esc' s''
        else String a (compact_go in_str' esc' s')
      | _ => String a (compact_go in_str' esc' s')
      end
  end.
Definition compact (s : string) : string := compact_go false false s.

(** [json.Marshal(raw)]: an error unless the text is valid JSON; a nil
    [RawMessage] prints [null]. *)
Definition marshal_raw (raw : string) : res string :=
  if bool_decide (raw = "") then Ok "null"
  else if json_valid raw then Ok (compact raw)
  else Err (Errorf "json: error calling MarshalJSON for type json.RawMessage").

(** ** Decoding into Go destinations *)

Definition dec (A : Type) : Type := jnode → A → A * bool.

Definition dec_string : dec string :=
  λ n old, match n.2 with JStr s => (s, true) | JNull => (old, true) | _ => (old, false) end.
Definition dec_bool : dec bool :=
  λ n old, match n.2 with JBool b => (b, true) | JNull => (old, true) | _ => (old, false) end.
Definition dec_uint (bits : Z) : dec Z :=
  λ n old, match n.2 with
           | JNum l => match parse_uint bits l with Some z => (z, true) | None => (old, false) end
           | JNull => (old, true)
           | _ => (old, false)
           end.
Definition dec_int (bits : Z) : dec Z :=
  λ n old, match n.2 with
           | JNum l => match parse_int bits l with Some z => (z, true) | None => (old, false) end
           | JNull => (old, true)
           | _ => (old, false)
           end.
(** Digits, fraction digits and exponent of a number literal without sign. *)
Definition float_parts (lit : string) : string * string * Z :=
  let lit := TrimPrefix lit "-" in
  let '(i, r) := span_digits lit in
  let '(f, r) := match r with String "." t => span_digits t | _ => ("", r) end in
  let e := match r with
           | String _ (String "-" t) => - default 0 (digits_value 0 t)
           | String _ (String "+" t) => default 0 (digits_value 0 t)
           | String _ t => default 0 (digits_value 0 t)
           | "" => 0
           end in
  (i, f, e).

Fixpoint drop_zeros (s : string) : string :=
  match s with String "0" s' => drop_zeros s' | _ => s end.

(** Whether a literal rounds to a finite [float64]: its magnitude is below
    2^1024 - 2^970.  The powers of ten are only computed when the number of
    digits does not decide it. *)
Definition float64_fits (lit : string) : bool :=
  let '(i, f, e) := float_parts lit in
  let digits := drop_zeros (i +:+ f) in
  let nd := Z.of_nat (slen digits) in
  let e := e - Z.of_nat (slen f) in
  let m := default 0 (digits_value 0 digits) in
  let bound := 2 ^ 1024 - 2 ^ 970 in
  if m =? 0 then true
  else if nd + e <=? 308 then true
  else if 309 <=? nd - 1 + e then false
  else if 0 <=? e then m * 10 ^ e <? bound
  else m <? bound * 10 ^ (- e).

(** A number that is no [float64] is a type error, also inside [interface{}],
    where it leaves nil in its place. *)
Fixpoint numbers_fit (v : jv) : bool :=
  match v with
  | JNum l => float64_fits l
  | JArr l => forallb (λ n, numbers_fit n.2) l
  | JObj l => forallb (λ kv, numbers_fit kv.2.2) l
  | _ => true
  end.
Fixpoint drop_unfit (v : jv) : jv :=
  match v with
  | JNum l => if float64_fits l then v else JNull
  | JArr l => JArr (List.map (λ n, (n.1, drop_unfit n.2)) l)
  | JObj l => JObj (List.map (λ kv, (kv.1, (kv.2.1, drop_unfit kv.2.2))) l)
  | _ => v
  end.

(** [float64], kept as its literal. *)
Definition dec_float : dec string :=
  λ n old, match n.2 with
           | JNum l => if float64_fits l then (l, true) else (old, false)
           | JNull => (old, true)
           | _ => (old, false)
           end.

(** [json.RawMessage] keeps the text, [null] included. *)
Definition dec_raw : dec string := λ n _, (n.1, true).
(** [interface{}]: the value itself. *)
Definition dec_any : dec (option jv) :=
  λ n _, (match drop_unfit n.2 with JNull => None | v => Some v end, numbers_fit n.2).

Definition dec_list {A} (zero : A) (d : dec A) : dec (list A) :=
  λ n old, match n.2 with
           | JArr l =>
             let rs := (λ x, d x zero) <$> l in (rs.*1, forallb snd rs)
           | JNull => ([], true)
           | _ => (old, false)
           end.

Definition dec_ptr {A} (zero : A) (d : dec A) : dec (option A) :=
  λ n old, match n.2 with
           | JNull => (None, true)
           | _ => let '(a, ok) := d n (default zero old) in (Some a, ok)
           end.

(** [map[string]T]; [None] is the nil map. *)
Definition dec_map {A} (zero : A) (d : dec A) : dec (option (gmap string A)) :=
  λ n old, match n.2 with
           | JObj l =>
             let rs := (λ kv, (kv.1, d kv.2 zero)) <$> l in
             (Some (foldl (λ m (p : string * (A * bool)), <[p.1 := p.2.1]> m) (default ∅ old) rs),
              forallb (λ p, p.2.2) rs)
           | JNull => (None, true)
           | _ => (old, false)
           end.

(** Field names match exactly, or else after case folding (the two non-ASCII
    runes that fold to ASCII letters are U+212A and U+017F). *)
Definition fold_rune (r : Z) : Z :=
  if in_range 97 122 r then r - 32
  else if r =? 0x212A then 75 else if r =? 0x17F then 83 else r.
Definition fold_name (s : string) : list Z := (λ p, fold_rune p.1) <$> runes s.

Definition find_field {A} (fields : list (string * A)) (k : string) : option A :=
  match list_find (λ f, f.1 = k) fields with
  | Some (_, f) => Some f.2
  | None => match list_find (λ f, fold_name f.1 = fold_name k) fields with
            | Some (_, f) => Some f.2
            | None => None
            end
  end.

(** A struct: each member is decoded into the field it names, in the order of
    the text; members that name no field are skipped. *)
Definition dec_struct {S} (fields : list (string * dec S)) : dec S :=
  λ n old, match n.2 with
           | JObj l =>
             foldl (λ (acc : S * bool) (kv : string * jnode),
                      match find_field fields kv.1 with
                      | Some d => let '(s, ok) := d kv.2 acc.1 in (s, acc.2 && ok)
                      | None => acc
                      end) (old, true) l
           | JNull => (old, true)
           | _ => (old, false)
           end.

(** A field decoder from a decoder of the field and its setter. *)
Definition field {S A} (get : S → A) (set : A → S → S) (d : dec A) : dec S :=
  λ n s, let '(a, ok) := d n (get s) in (set a s, ok).

(** [json.Unmarshal(data, &dst)]: the destination afterwards, and whether the
    error is nil.  A syntax error leaves the destination alone. *)
Definition unmarshal {A} (d : dec A) (data : string) (old : A) : A * bool :=
  match json_parse data with
  | None => (old, false)
  | Some n => d n old
  end.

(** [json.NewDecoder(body).Decode(&v)]: the first value; what follows is not read. *)
Definition decode_first {A} (d : dec A) (body : string) (old : A) : A * bool :=
  let s := skip_ws body in
  match parse_val (2 * slen s + 2) max_depth s with
  | Some (v, r) => d (consumed s r, v) old
  | None => (old, false)
  end.

(** The frequent destinations. *)
Definition unmarshal_rawmap (data : string) : option (option (gmap string string)) :=
  let '(m, ok) := unmarshal (dec_map "" dec_raw) data None in if ok then Some m else None.
Definition unmarshal_string (data : string) : string * bool := unmarshal dec_string data "".

(** [json.Unmarshal] into a nil [map[string]interface{}]: only an object or
    [null] decodes; [Some None] is the nil map. *)
Definition unmarshal_object (raw : string) : option (option jv) :=
  match json_parse raw with
  | Some (_, JObj l) => if numbers_fit (JObj l) then Some (Some (JObj l)) else None
  | Some (_, JNull) => Some None
  | _ => None
  end.

(** Reading a possibly nil map. *)
Definition raw_get (m : option (gmap string string)) (k : string) : option string :=
  m ≫= λ m, m !! k.
(** [m[k]]: the zero value when absent. *)
Definition raw_index (m : option (gmap string string)) (k : string) : string :=
  default "" (raw_get m k).

(** Members of a decoded object, the last one winning, as in [map[string]any]. *)
Definition obj_lookup (fields : list (string * jnode)) (k : string) : option jv :=
  match list_find (λ f, f.1 = k) (reverse fields) with
  | Some (_, f) => Some f.2.2
  | None => None
  end.
Definition any_get (v : option jv) (k : string) : option jv :=
  match v with Some (JObj l) => obj_lookup l k | _ => None end.
Definition as_string (v : option jv) : option string :=
  match v with Some (JStr s) => Some s | _ => None end.
Definition as_bool (v : option jv) : option bool :=
  match v with Some (JBool b) => Some b | _ => None end.
