(* ===== verification/JsonFacts.v ===== *)
(** * JSON string literals are unambiguous

    [str_body] reads back what [str_text] prints, so the text of a string
    determines it (up to the replacement of invalid UTF-8), also in front of
    other text; the text of an object then determines its members. *)

From S2P Require Import Prelude GoStrings Json.
Open Scope Z_scope.

(** Induction through the lists of a value. *)
Lemma jv_induction (P : jv → Prop) :
  P JNull → (∀ b, P (JBool b)) → (∀ l, P (JNum l)) → (∀ s, P (JStr s)) →
  (∀ l, Forall (λ n, P n.2) l → P (JArr l)) →
  (∀ l, Forall (λ kv, P kv.2.2) l → P (JObj l)) → ∀ v, P v.
Proof.
  intros Hn Hb Hnum Hs Ha Ho. fix IH 1. intros [|b|l|s|l|l].
  - exact Hn.
  - apply Hb.
  - apply Hnum.
  - apply Hs.
  - apply Ha. induction l as [|[r v] l IHl]; constructor; [apply IH|exact IHl].
  - apply Ho. induction l as [|[k [r v]] l IHl]; constructor; [apply IH|exact IHl].
Qed.

(** ** Runes *)

Fixpoint high_bytes (s : string) : bool :=
  match s with "" => true | String a s => (0x80 <=? zb a) && high_bytes s end.

(** A decoded rune: an invalid byte, or the encoding of a code point. *)
Definition rune_ok (p : Z * string) : Prop :=
  (p.1 = RuneError ∧ slen p.2 = 1%nat) ∨
  (p.2 = encode_rune p.1 ∧ 0 ≤ p.1 < 0x110000 ∧ (p.1 < 0x80 ∨ high_bytes p.2 = true)).

Lemma in_range_true lo hi x : in_range lo hi x = true ↔ lo ≤ x ≤ hi.
Proof. unfold in_range. by rewrite andb_true_iff, !Z.leb_le. Qed.

Lemma encode_rune_2 a b :
  0xC2 ≤ zb a ≤ 0xDF → 0x80 ≤ zb b ≤ 0xBF →
  encode_rune ((zb a - 0xC0) * 64 + (zb b - 0x80)) = String a (str1 b).
Proof.
  intros Ha Hb. unfold encode_rune.
  set (r := (zb a - 192) * 64 + (zb b - 128)). assert (0x80 ≤ r < 0x800) by lia.
  rewrite (proj2 (in_range_true 0 0x10FFFF r)) by lia.
  assert (in_range 0xD800 0xDFFF r = false) as ->.
  { apply not_true_iff_false. rewrite in_range_true. lia. }
  cbn [negb andb]. rewrite (proj2 (Z.ltb_ge r 0x80)), (proj2 (Z.ltb_lt r 0x800)) by lia.
  unfold str1. rewrite (bz_eq _ a), (bz_eq _ b); [done| |];
    subst r; rewrite (Z.add_comm _ (zb b - 128)).
  - rewrite Z.mod_add, Z.mod_small by lia. lia.
  - rewrite Z.div_add, Z.div_small by lia. lia.
Qed.

Ltac euclid := Z.div_mod_to_equations; lia.

Lemma encode_rune_valid r : 0x80 ≤ r < 0x110000 → ¬ (0xD800 ≤ r ≤ 0xDFFF) →
  encode_rune r =
  if r <? 0x800 then String (bz (0xC0 + r / 64)) (str1 (bz (0x80 + r mod 64)))
  else if r <? 0x10000 then
    String (bz (0xE0 + r / 4096)) (String (bz (0x80 + (r / 64) mod 64)) (str1 (bz (0x80 + r mod 64))))
  else String (bz (0xF0 + r / 262144))
      (String (bz (0x80 + (r / 4096) mod 64))
        (String (bz (0x80 + (r / 64) mod 64)) (str1 (bz (0x80 + r mod 64))))).
Proof.
  intros Hr Hs. unfold encode_rune. rewrite (proj2 (in_range_true 0 0x10FFFF r)) by lia.
  assert (in_range 0xD800 0xDFFF r = false) as ->.
  { apply not_true_iff_false. by rewrite in_range_true. }
  cbn [negb andb]. by rewrite (proj2 (Z.ltb_ge r 0x80)) by lia.
Qed.

Lemma second_ok_spec lead b : second_ok lead b = true →
  0x80 ≤ b ≤ 0xBF ∧ (lead = 0xE0 → 0xA0 ≤ b) ∧ (lead = 0xED → b ≤ 0x9F) ∧
  (lead = 0xF0 → 0x90 ≤ b) ∧ (lead = 0xF4 → b ≤ 0x8F).
Proof.
  unfold second_ok. destruct (lead =? 0xE0) eqn:?, (lead =? 0xED) eqn:?, (lead =? 0xF0) eqn:?,
    (lead =? 0xF4) eqn:?; rewrite in_range_true; lia.
Qed.

Lemma encode_rune_3 a b c :
  0xE0 ≤ zb a ≤ 0xEF → second_ok (zb a) (zb b) = true → 0x80 ≤ zb c ≤ 0xBF →
  encode_rune ((zb a - 0xE0) * 4096 + (zb b - 0x80) * 64 + (zb c - 0x80)) = String a (String b (str1 c)).
Proof.
  intros Ha Hb%second_ok_spec Hc.
  set (r := (zb a - 224) * 4096 + (zb b - 128) * 64 + (zb c - 128)).
  assert (0x800 ≤ r < 0x10000) by lia. rewrite encode_rune_valid by lia.
  rewrite (proj2 (Z.ltb_ge r 0x800)), (proj2 (Z.ltb_lt r 0x10000)) by lia.
  rewrite (bz_eq _ a), (bz_eq _ b), (bz_eq _ c) by (subst r; euclid). done.
Qed.

Lemma encode_rune_4 a b c d :
  0xF0 ≤ zb a ≤ 0xF4 → second_ok (zb a) (zb b) = true → 0x80 ≤ zb c ≤ 0xBF → 0x80 ≤ zb d ≤ 0xBF →
  encode_rune ((zb a - 0xF0) * 262144 + (zb b - 0x80) * 4096 + (zb c - 0x80) * 64 + (zb d - 0x80)) =
  String a (String b (String c (str1 d))).
Proof.
  intros Ha Hb%second_ok_spec Hc Hd.
  set (r := (zb a - 240) * 262144 + (zb b - 128) * 4096 + (zb c - 128) * 64 + (zb d - 128)).
  assert (0x10000 ≤ r < 0x110000) by lia. rewrite encode_rune_valid by lia.
  rewrite (proj2 (Z.ltb_ge r 0x800)), (proj2 (Z.ltb_ge r 0x10000)) by lia.
  rewrite (bz_eq _ a), (bz_eq _ b), (bz_eq _ c), (bz_eq _ d) by (subst r; euclid). done.
Qed.

Lemma rune_ok_multi r s : s = encode_rune r → 0x80 ≤ r < 0x110000 → high_bytes s = true → rune_ok (r, s).
Proof. intros -> Hr Hh. right. cbn. split_and!; [done|lia..|by right]. Qed.

Lemma rune_ok_invalid a : rune_ok (RuneError, str1 a).
Proof. by left. Qed.

Ltac ranges :=
  repeat match goal with
  | H : _ && _ = true |- _ => apply andb_true_iff in H as [? ?]
  | H : in_range _ _ _ = true |- _ => apply in_range_true in H
  | H : is_cont _ = true |- _ => apply in_range_true in H
  end.

Lemma high_cons a s : 0x80 ≤ zb a → high_bytes s = true → high_bytes (String a s) = true.
Proof. intros Ha Hs. cbn. rewrite Hs, (proj2 (Z.leb_le _ _)) by lia. done. Qed.

Lemma runes_ok s : Forall rune_ok (runes s).
Proof.
  induction s as [s IH] using (well_founded_induction (well_founded_ltof _ String.length)).
  unfold ltof in IH. destruct s as [|a s1]; [constructor|]. pose proof (zb_range a).
  assert (Forall rune_ok (runes s1)) as H1 by (apply IH; cbn; lia).
  cbn [runes]. destruct (zb a <? 0x80) eqn:Ha.
  { apply Z.ltb_lt in Ha. constructor; [|done]. right. cbn [fst snd]. split_and!; [|lia..|by left].
    unfold encode_rune. rewrite (proj2 (in_range_true 0 0x10FFFF (zb a))) by lia.
    assert (in_range 0xD800 0xDFFF (zb a) = false) as ->.
    { apply not_true_iff_false. rewrite in_range_true. lia. }
    cbn [negb andb]. rewrite (proj2 (Z.ltb_lt _ _)) by done. by rewrite bz_zb. }
  destruct s1 as [|b s2]; [constructor; [apply rune_ok_invalid|done]|].
  destruct (in_range 0xC2 0xDF (zb a) && is_cont b) eqn:E2; ranges.
  { constructor; [|apply IH; cbn; lia]. apply rune_ok_multi; [by rewrite encode_rune_2|lia|].
    by repeat (apply high_cons; [lia|]). }
  destruct s2 as [|c s3]; [constructor; [apply rune_ok_invalid|done]|].
  destruct (in_range 0xE0 0xEF (zb a) && second_ok (zb a) (zb b) && is_cont c) eqn:E3; ranges.
  { match goal with H : second_ok _ _ = true |- _ => pose proof (second_ok_spec _ _ H) end.
    constructor; [|apply IH; cbn; lia]. apply rune_ok_multi; [by rewrite encode_rune_3|lia|].
    by repeat (apply high_cons; [lia|]). }
  destruct s3 as [|d s4]; [constructor; [apply rune_ok_invalid|done]|].
  destruct (in_range 0xF0 0xF4 (zb a) && second_ok (zb a) (zb b) && is_cont c && is_cont d) eqn:E4; ranges.
  { match goal with H : second_ok _ _ = true |- _ => pose proof (second_ok_spec _ _ H) end.
    constructor; [|apply IH; cbn; lia]. apply rune_ok_multi; [by rewrite encode_rune_4|lia|].
    by repeat (apply high_cons; [lia|]). }
  constructor; [apply rune_ok_invalid|done].
Qed.

(** ** Reading a literal back *)

Lemma prepend_app p q r : prepend p (prepend q r) = prepend (p +:+ q) r.
Proof. destruct r as [[x rest]|]; [|done]. cbn. by rewrite str_app_assoc. Qed.

Lemma str_body_plain a t : zb a ≠ 34 → zb a ≠ 92 → 0x20 ≤ zb a →
  str_body (String a t) = prepend (str1 a) (str_body t).
Proof.
  intros Hq Hb Hc. cbn [str_body]. rewrite !bool_decide_false; [|by intros ->..].
  by rewrite (proj2 (Z.ltb_ge _ _)).
Qed.

Lemma str_body_high s t : high_bytes s = true → str_body (s +:+ t) = prepend s (str_body t).
Proof.
  induction s as [|a s IH]; cbn [high_bytes].
  - intros _. change ("" +:+ t) with t. by destruct (str_body t) as [[]|].
  - rewrite andb_true_iff, Z.leb_le. intros [Ha Hs]. rewrite str_app_cons, str_body_plain by lia.
    rewrite IH by done. rewrite prepend_app. done.
Qed.

Lemma hex4_hex2 z : 0 ≤ z < 0x10000 →
  hex4 (hex_digit (z / 256 / 16)) (hex_digit (z / 256 mod 16)) (hex_digit (z mod 256 / 16))
    (hex_digit (z mod 256 mod 16)) = Some z.
Proof.
  intros Hz. unfold hex4. rewrite !hex_val_digit by euclid. cbn. f_equal. euclid.
Qed.

Lemma str_body_u z t : 0 ≤ z < 0x10000 → ¬ (0xD800 ≤ z ≤ 0xDBFF) →
  str_body (u_escape z +:+ t) = prepend (encode_rune z) (str_body t).
Proof.
  intros Hz Hs. unfold u_escape, hex2, str1. rewrite !str_app_cons.
  repeat match goal with |- context ["" +:+ ?x] => change ("" +:+ x) with x end. rewrite !str_app_cons.
  repeat match goal with |- context ["" +:+ ?x] => change ("" +:+ x) with x end.
  cbn [str_body]. rewrite (bool_decide_false (bsl = dq)), (bool_decide_true (bsl = bsl)) by done.
  change (simple_escape "u") with (@None ascii). rewrite (bool_decide_true ("u"%char = "u"%char)) by done.
  cbn [str_body]. rewrite hex4_hex2 by done.
  assert (in_range 0xD800 0xDBFF z = false) as ->.
  { apply not_true_iff_false. by rewrite in_range_true. }
  by repeat case_match.
Qed.

Lemma str_body_simple e c t : simple_escape e = Some c →
  str_body (String bsl (str1 e) +:+ t) = prepend (str1 c) (str_body t).
Proof.
  intros He. unfold str1 at 1. rewrite !str_app_cons. change ("" +:+ t) with t. cbn [str_body].
  rewrite (bool_decide_false (bsl = dq)), (bool_decide_true (bsl = bsl)) by done. by rewrite He.
Qed.

Lemma str_body_quote p t : rune_ok p →
  str_body (quote_rune p +:+ t) = prepend (encode_rune p.1) (str_body t).
Proof.
  intros Hp. assert (0 ≤ p.1 < 0x110000) as Hr by (destruct Hp as [[-> _]|(_ & ? & _)]; unfold RuneError; lia).
  unfold quote_rune. cbv zeta.
  repeat match goal with
  | |- context [if p.1 =? ?k then _ else _] =>
    let E := fresh "E" in destruct (p.1 =? k) eqn:E; [apply Z.eqb_eq in E; rewrite E; by apply str_body_simple|]
  end.
  destruct (_ || _ || _ || _) eqn:F1.
  { change (zb "<"%char) with 60 in F1. change (zb ">"%char) with 62 in F1. change (zb "&"%char) with 38 in F1.
    apply str_body_u; lia. }
  destruct ((p.1 =? 0x2028) || (p.1 =? 0x2029)) eqn:F2; [apply str_body_u; lia|].
  destruct ((p.1 =? RuneError) && _) eqn:F3.
  { apply andb_true_iff in F3 as [F3%Z.eqb_eq _]. rewrite F3. apply str_body_u; unfold RuneError; lia. }
  destruct Hp as [[Hp1 Hp2]|(Hp2 & _ & [Hlow|Hhigh])].
  - rewrite Hp1, Hp2 in F3. done.
  - rewrite Hp2. assert (encode_rune p.1 = str1 (bz p.1)) as ->.
    { unfold encode_rune. rewrite (proj2 (in_range_true 0 0x10FFFF _)) by lia.
      assert (in_range 0xD800 0xDFFF p.1 = false) as ->.
      { apply not_true_iff_false. rewrite in_range_true. lia. }
      cbn [negb andb]. by rewrite (proj2 (Z.ltb_lt _ _)). }
    unfold str1 at 1. rewrite str_app_cons. change ("" +:+ t) with t.
    change (zb dq) with 34 in *. change (zb bsl) with 92 in *.
    assert (0x20 ≤ p.1). { destruct (p.1 <? 32) eqn:?; [|lia]. done. }
    apply str_body_plain; rewrite zb_bz by lia; lia.
  - rewrite <-Hp2. by apply str_body_high.
Qed.

Lemma str_body_text s t :
  str_body (concat_strings (quote_rune <$> runes s) +:+ String dq t) = Some (sanitize_utf8 s, t).
Proof.
  unfold sanitize_utf8. pose proof (runes_ok s) as Hok.
  induction (runes s) as [|p l IH]; [done|]. apply Forall_cons in Hok as [Hp Hl].
  change (concat_strings (quote_rune <$> p :: l)) with (quote_rune p +:+ concat_strings (quote_rune <$> l)).
  rewrite <-str_app_assoc, str_body_quote by done. by rewrite (IH Hl).
Qed.

(** A printed string determines itself and where it ends. *)
Lemma str_text_inj s s' t t' :
  str_text s +:+ t = str_text s' +:+ t' → sanitize_utf8 s = sanitize_utf8 s' ∧ t = t'.
Proof.
  unfold str_text. rewrite !str_app_cons, <-!str_app_assoc. intros [= Heq].
  pose proof (f_equal str_body Heq) as Hb.
  change (str1 dq +:+ ?x) with (String dq x) in Hb. rewrite !str_body_text in Hb. by injection Hb.
Qed.

(** ** Objects of strings *)

Definition string_member (kv : string * string) : string * string := (kv.1, str_text kv.2).

Lemma join_members_inj l l' t t' :
  Join (member_text <$> (string_member <$> l)) "," +:+ String close_brace t =
  Join (member_text <$> (string_member <$> l')) "," +:+ String close_brace t' →
  Forall2 (λ kv kv', sanitize_utf8 kv.1 = sanitize_utf8 kv'.1 ∧ sanitize_utf8 kv.2 = sanitize_utf8 kv'.2) l l'.
Proof.
  assert (∀ kv (m : list (string * string)), ∃ u, Join (member_text <$> (string_member <$> kv :: m)) "," =
            String dq u) as Hhead.
  { intros kv m. unfold str_text. destruct m; cbn; unfold member_text, str_text; rewrite !str_app_cons; eauto. }
  revert l'. induction l as [|[k v] l IH]; intros [|[k' v'] l']; [constructor| | |].
  - destruct (Hhead (k', v') l') as [u ->]. rewrite str_app_cons. done.
  - destruct (Hhead (k, v) l) as [u ->]. rewrite str_app_cons. done.
  - assert (∀ k v (m : list (string * string)) t, ∃ u,
      Join (member_text <$> (string_member <$> (k, v) :: m)) "," +:+ String close_brace t =
      str_text k +:+ String colon (str_text v +:+ u) ∧
      u = match m with [] => String close_brace t
          | _ => String comma (Join (member_text <$> (string_member <$> m)) "," +:+ String close_brace t) end)
      as Hstep.
    { clear. intros k v m t. destruct m as [|kv m]; eexists; (split; [|reflexivity]).
      - cbn. unfold member_text. by rewrite <-str_app_assoc, str_app_cons.
      - set (rest := Join (member_text <$> (string_member <$> kv :: m)) ",").
        change (Join _ ",") with (member_text (k, str_text v) +:+ "," +:+ rest). unfold member_text.
        cbn [fst snd]. by rewrite <-!str_app_assoc, !str_app_cons. }
    destruct (Hstep k v l t) as (u & -> & Hu). destruct (Hstep k' v' l' t') as (u' & -> & Hu').
    intros [Hk Hv]%str_text_inj.
    assert (str_text v +:+ u = str_text v' +:+ u') as [Hv' Hrest]%str_text_inj by exact (f_equal (drop_str 1) Hv).
    constructor; [done|]. subst u u'. destruct l as [|kv l], l' as [|kv' l']; [constructor|done..|].
    by apply IH, (f_equal (drop_str 1) Hrest).
Qed.

Lemma obj_text_inj l l' :
  obj_text (string_member <$> l) = obj_text (string_member <$> l') →
  Forall2 (λ kv kv', sanitize_utf8 kv.1 = sanitize_utf8 kv'.1 ∧ sanitize_utf8 kv.2 = sanitize_utf8 kv'.2) l l'.
Proof. unfold obj_text. intros [= Heq]. by apply (join_members_inj _ _ "" ""). Qed.

Lemma map_text_members (m : gmap string string) :
  ∃ l, map_text (str_text <$> m) = obj_text (string_member <$> l) ∧ l ≡ₚ map_to_list m.
Proof.
  unfold map_text, sorted_members.
  pose proof (merge_sort_Permutation (λ p q : string * string, String.le p.1 q.1)
                (map_to_list (str_text <$> m))) as Hp.
  rewrite map_to_list_fmap in Hp at 2. apply Permutation_map_inv in Hp as (l & Hl & Hperm).
  exists l. split; [|by symmetry]. f_equal. rewrite Hl. by apply list_fmap_ext; intros i [k v].
Qed.

(** The text of a map of strings whose keys are valid UTF-8 determines it. *)
Lemma map_text_inj (m m' : gmap string string) :
  (∀ k, is_Some (m !! k) ∨ is_Some (m' !! k) → sanitize_utf8 k = k) →
  map_text (str_text <$> m) = map_text (str_text <$> m') → sanitize_utf8 <$> m = sanitize_utf8 <$> m'.
Proof.
  intros Hk. destruct (map_text_members m) as (l & -> & Hl). destruct (map_text_members m') as (l' & -> & Hl').
  intros Hll%obj_text_inj.
  assert (∀ k v, m !! k = Some v → ∃ v', m' !! k = Some v' ∧ sanitize_utf8 v = sanitize_utf8 v') as Hto.
  { intros k v Hv. apply elem_of_map_to_list in Hv as Hin. rewrite <-Hl in Hin.
    apply list_elem_of_lookup in Hin as [i Hi]. destruct (Forall2_lookup_l _ _ _ _ _ Hll Hi) as ([k' v'] & Hi' & Hkk & Hvv).
    apply list_elem_of_lookup_2 in Hi'. rewrite Hl', elem_of_map_to_list in Hi'. cbn [fst snd] in Hkk, Hvv.
    rewrite (Hk k), (Hk k') in Hkk by eauto. subst k'. eauto. }
  assert (∀ k v, m' !! k = Some v → ∃ v', m !! k = Some v' ∧ sanitize_utf8 v' = sanitize_utf8 v) as Hfrom.
  { intros k v Hv. apply elem_of_map_to_list in Hv as Hin. rewrite <-Hl' in Hin.
    apply list_elem_of_lookup in Hin as [i Hi]. destruct (Forall2_lookup_r _ _ _ _ _ Hll Hi) as ([k' v'] & Hi' & Hkk & Hvv).
    apply list_elem_of_lookup_2 in Hi'. rewrite Hl, elem_of_map_to_list in Hi'. cbn [fst snd] in Hkk, Hvv.
    rewrite (Hk k), (Hk k') in Hkk by eauto. subst k'. eauto. }
  apply map_eq. intros k. rewrite !lookup_fmap. destruct (m !! k) as [v|] eqn:Hv.
  - destruct (Hto k v Hv) as (v' & -> & Heq). cbn. by rewrite Heq.
  - destruct (m' !! k) as [v'|] eqn:Hv'; [|done]. destruct (Hfrom k v' Hv') as (? & ? & _). congruence.
Qed.

(** ** Printable ASCII *)

Fixpoint graphic (s : string) : bool :=
  match s with "" => true | String a s => in_range 0x21 0x7E (zb a) && graphic s end.

Lemma runes_graphic s : graphic s = true →
  segs_string (runes s) = s ∧ Forall (λ p, 0x21 ≤ p.1 ≤ 0x7E ∧ p.2 = encode_rune p.1) (runes s).
Proof.
  induction s as [|a s IH]; cbn [graphic]; [done|]. rewrite andb_true_iff, in_range_true. intros [Ha [IH1 IH2]%IH].
  cbn [runes]. rewrite (proj2 (Z.ltb_lt _ _)) by lia. rewrite segs_cons, IH1. split; [done|].
  constructor; [|done]. cbn [fst snd]. split; [done|]. unfold encode_rune.
  rewrite (proj2 (in_range_true 0 0x10FFFF _)) by lia.
  assert (in_range 0xD800 0xDFFF (zb a) = false) as ->.
  { apply not_true_iff_false. rewrite in_range_true. lia. }
  cbn [negb andb]. rewrite (proj2 (Z.ltb_lt _ _)) by lia. by rewrite bz_zb.
Qed.

Lemma sanitize_graphic s : graphic s = true → sanitize_utf8 s = s.
Proof.
  intros [Hs Hr]%runes_graphic. unfold sanitize_utf8. rewrite <-Hs at 2. unfold segs_string. f_equal.
  clear Hs. induction Hr as [|p l [_ Hp] _ IH]; [done|]. rewrite !fmap_cons, IH. by rewrite Hp.
Qed.

Lemma drop_space_graphic l : Forall (λ p : Z * string, 0x21 ≤ p.1 ≤ 0x7E ∧ p.2 = encode_rune p.1) l →
  drop_space l = l.
Proof.
  intros [|p l' [Hp _] _]; [done|]. cbn [drop_space].
  assert (is_space p.1 = false) as ->; [|done].
  unfold is_space. apply not_true_iff_false.
  rewrite !orb_true_iff, !in_range_true, !Z.eqb_eq. lia.
Qed.

Lemma TrimSpace_graphic s : graphic s = true → TrimSpace s = s.
Proof.
  intros [Hs Hr]%runes_graphic. unfold TrimSpace. rewrite (drop_space_graphic (runes s)) by done.
  rewrite drop_space_graphic by (by apply Forall_reverse). by rewrite reverse_involutive.
Qed.

Lemma graphic_hex_encode s : graphic (hex_encode s) = true.
Proof.
  assert (∀ d, 0 ≤ d < 16 → in_range 0x21 0x7E (zb (hex_digit d)) = true) as Hd.
  { intros d Hd. unfold hex_digit. apply in_range_true. case_match; rewrite zb_bz by lia; lia. }
  induction s as [|a s IH]; [done|]. cbn [hex_encode graphic]. pose proof (zb_range a).
  rewrite !Hd by euclid. done.
Qed.
