(* ===== verification/JsonRoundTrip.v ===== *)
(** * Reading back what was printed

    [parse_val] reads the texts [str_text], [num_text], [bool_text], [arr_text]
    and [obj_text] print back to the values they print, with the fuel
    [json_parse] gives it; [prints] states this compositionally, so that the
    text of a structure is read back member by member.  The fuel of [parse_val]
    is never what makes it refuse: [parse_val_fuel]. *)

From S2P Require Import Prelude GoStrings Json JsonFacts.
Open Scope Z_scope.

(** ** Valid UTF-8 stays as it is *)

(** The code point [encode_rune] encodes. *)
Definition scalar (r : Z) : Z :=
  if in_range 0 0x10FFFF r && negb (in_range 0xD800 0xDFFF r) then r else RuneError.

Lemma scalar_spec r : 0 ≤ scalar r ≤ 0x10FFFF ∧ ¬ (0xD800 ≤ scalar r ≤ 0xDFFF).
Proof.
  unfold scalar. destruct (in_range 0 _ r) eqn:H1; cbn [andb]; [|unfold RuneError; lia].
  destruct (in_range 0xD800 0xDFFF r) eqn:H2; cbn [negb]; [unfold RuneError; lia|].
  apply in_range_true in H1. apply not_true_iff_false in H2. rewrite in_range_true in H2. done.
Qed.

Lemma scalar_id r : 0 ≤ r ≤ 0x10FFFF → ¬ (0xD800 ≤ r ≤ 0xDFFF) → scalar r = r.
Proof.
  intros H1 H2. unfold scalar. rewrite (proj2 (in_range_true _ _ _) H1).
  by replace (in_range 0xD800 0xDFFF r) with false by (symmetry; apply not_true_iff_false; by rewrite in_range_true).
Qed.

Lemma encode_scalar r : encode_rune (scalar r) = encode_rune r.
Proof.
  destruct (scalar_spec r) as [H1 H2]. unfold encode_rune at 1.
  change (if in_range 0 1114111 (scalar r) && _ then scalar r else RuneError) with (scalar (scalar r)).
  by rewrite (scalar_id (scalar r)) by done.
Qed.

Ltac in_ranges := repeat match goal with
  | |- context [in_range ?lo ?hi ?x] =>
    first [rewrite (proj2 (in_range_true lo hi x)) by euclid
          |replace (in_range lo hi x) with false by (symmetry; apply not_true_iff_false; rewrite in_range_true; euclid)]
  end.

Lemma second_ok_true lead b : 0x80 ≤ b ≤ 0xBF → (lead = 0xE0 → 0xA0 ≤ b) → (lead = 0xED → b ≤ 0x9F) →
  (lead = 0xF0 → 0x90 ≤ b) → (lead = 0xF4 → b ≤ 0x8F) → second_ok lead b = true.
Proof.
  intros. unfold second_ok. destruct (lead =? 0xE0) eqn:?, (lead =? 0xED) eqn:?, (lead =? 0xF0) eqn:?,
    (lead =? 0xF4) eqn:?; rewrite in_range_true; lia.
Qed.

Lemma runes_encode r t : runes (encode_rune r +:+ t) = (scalar r, encode_rune r) :: runes t.
Proof.
  rewrite <-encode_scalar. destruct (scalar_spec r) as [H1 H2]. set (x := scalar r) in *. clearbody x.
  destruct (decide (x < 0x80)) as [Hx|Hx].
  { unfold encode_rune. change (if in_range 0 1114111 x && _ then x else RuneError) with (scalar x).
    rewrite scalar_id by done. rewrite (proj2 (Z.ltb_lt _ _)) by done. runes_step. rewrite zb_bz by lia.
    by rewrite (proj2 (Z.ltb_lt _ _)). }
  rewrite encode_rune_valid by lia. destruct (x <? 0x800) eqn:H3; [|destruct (x <? 0x10000) eqn:H4]; runes_step.
  - rewrite !zb_bz by euclid. rewrite (proj2 (Z.ltb_ge _ _)) by euclid. unfold is_cont. rewrite !zb_bz by euclid.
    in_ranges. cbn [andb]. do 2 f_equal. euclid.
  - rewrite !zb_bz by euclid. rewrite (proj2 (Z.ltb_ge _ _)) by euclid. unfold is_cont. rewrite !zb_bz by euclid.
    in_ranges. cbn [andb]. rewrite second_ok_true by euclid. cbn [andb]. do 2 f_equal. euclid.
  - rewrite !zb_bz by euclid. rewrite (proj2 (Z.ltb_ge _ _)) by euclid. unfold is_cont. rewrite !zb_bz by euclid.
    in_ranges. cbn [andb]. rewrite second_ok_true by euclid. cbn [andb]. do 2 f_equal.
    replace (x / 262144) with (x / 64 / 64 / 64) by (rewrite !Z.div_div by lia; done).
    replace (x / 4096) with (x / 64 / 64) by (rewrite Z.div_div by lia; done). euclid.
Qed.

Lemma sanitize_idem s : sanitize_utf8 (sanitize_utf8 s) = sanitize_utf8 s.
Proof.
  unfold sanitize_utf8. induction (runes s) as [|p l IH]; [done|]. cbn [fmap list_fmap concat_strings foldr].
  change (foldr String.append "" ?l) with (concat_strings l). rewrite runes_encode. cbn [fmap list_fmap concat_strings foldr fst].
  change (foldr String.append "" ?l) with (concat_strings l). by rewrite encode_scalar, IH.
Qed.

(** ** What is left after a value is shorter *)

Lemma take_str_app s t : take_str (slen s) (s +:+ t) = s.
Proof. induction s as [|a s IH]; [by destruct t|]. rewrite str_app_cons. cbn. f_equal. exact IH. Qed.

Lemma consumed_app s t : consumed (s +:+ t) t = s.
Proof. unfold consumed. rewrite slen_app, Nat.add_sub. apply take_str_app. Qed.

Lemma slen_drop n s : (slen (drop_str n s) ≤ slen s)%nat.
Proof. revert n. induction s as [|a s IH]; intros [|n]; cbn; [lia..|]. specialize (IH n). unfold slen in *. lia. Qed.

Lemma slen_tail s : s ≠ "" → (slen (tail_str s) < slen s)%nat.
Proof. destruct s as [|a s]; [done|]. intros _. unfold tail_str. cbn. destruct s; cbn; unfold slen; cbn; lia. Qed.

Lemma slen_skip s : (slen (skip_ws s) ≤ slen s)%nat.
Proof. induction s as [|a s IH]; [done|]. cbn. case_match; unfold slen in *; cbn in *; lia. Qed.

Lemma head_is_nonempty s c : head_is s c = true → s ≠ "".
Proof. by intros H ->. Qed.

Lemma slen_body s x r : str_body s = Some (x, r) → (slen r < slen s)%nat.
Proof.
  revert x r. induction s as [s IH] using (well_founded_induction (well_founded_ltof _ slen)). unfold ltof in IH.
  assert (∀ p s' x r, (slen s' < slen s)%nat → prepend p (str_body s') = Some (x, r) → (slen r < slen s)%nat) as Hp.
  { intros p s' x r Hs. destruct (str_body s') as [[y r']|] eqn:Hb; [|done]. cbn. intros [= _ <-]. apply IH in Hb; [lia|done]. }
  intros x r. destruct s as [|a s1]; [done|]. cbn [str_body]. case_bool_decide; [intros [= _ <-]; unfold slen; cbn; lia|].
  case_bool_decide.
  - repeat case_match; subst; try done; apply Hp; unfold slen; cbn; lia.
  - case_match; [done|]. apply Hp. unfold slen; cbn; lia.
Qed.

Lemma slen_string s x r : parse_string s = Some (x, r) → (slen r < slen s)%nat.
Proof.
  unfold parse_string. destruct s as [|a s]; [done|]. case_bool_decide; [|done].
  destruct (str_body s) as [[y r']|] eqn:Hb; [|done]. intros [= _ <-]. apply slen_body in Hb. unfold slen in *. cbn. lia.
Qed.

Lemma slen_literal s v r : parse_literal s = Some (v, r) → (slen r < slen s)%nat.
Proof.
  unfold parse_literal. repeat case_match; intros [= _ <-]; destruct s as [|a s]; try done;
    pose proof (slen_drop 3 s); pose proof (slen_drop 4 s); cbn [drop_str]; unfold slen in *; cbn in *; lia.
Qed.

Lemma slen_span s d r : span_digits s = (d, r) → slen s = (slen d + slen r)%nat.
Proof.
  revert d r. induction s as [|a s IH]; intros d r; cbn [span_digits]; [by intros [= <- <-]|].
  destruct (is_digit a); [|by intros [= <- <-]]. destruct (span_digits s) as [d' r'] eqn:Hs. intros [= <- <-].
  specialize (IH _ _ eq_refl). unfold slen in *. cbn. lia.
Qed.

Lemma slen_number s x r : parse_number s = Some (x, r) → (slen r < slen s)%nat.
Proof.
  unfold parse_number. destruct (match s with String "-" t => ("-", t) | _ => ("", s) end) as [sg s0] eqn:Hsg.
  assert (slen s0 ≤ slen s)%nat as H0.
  { unfold slen in *. destruct s as [|a s']; [by injection Hsg as _ <-|].
    repeat case_match; simplify_eq; cbn; lia. }
  destruct (num_int s0) as [[i s1]|] eqn:Hi; [|done]. cbn [mbind option_bind].
  assert (slen s1 < slen s0)%nat as H1.
  { unfold num_int in Hi. destruct s0 as [|a s0]; [done|]. case_bool_decide; [injection Hi as _ <-; unfold slen; cbn; lia|].
    destruct (is_digit a) eqn:Ha; [|done]. injection Hi as Hi. cbn [span_digits] in Hi. rewrite Ha in Hi.
    destruct (span_digits s0) as [d r'] eqn:Hs. injection Hi as _ <-. apply slen_span in Hs. unfold slen in *. cbn. lia. }
  destruct (num_frac s1) as [[f s2]|] eqn:Hf; [|done]. cbn [mbind option_bind].
  assert (slen s2 ≤ slen s1)%nat as H2.
  { unfold num_frac in Hf. repeat case_match; simplify_eq; try lia.
    all: match goal with E : span_digits _ = _ |- _ => apply slen_span in E end; unfold slen in *; cbn in *; lia. }
  destruct (num_exp s2) as [[e s3]|] eqn:He; [|done]. cbn [mbind option_bind]. intros [= _ <-].
  assert (slen s3 ≤ slen s2)%nat as H3; [|lia].
  unfold num_exp in He. destruct s2 as [|c s2]; [by simplify_eq|]. destruct (_ || _); [|by simplify_eq].
  destruct s2 as [|c' s2]; [done|]. destruct (bool_decide (c' = "+"%char) || _);
    destruct (span_digits _) as [d r'] eqn:Hs; apply slen_span in Hs; destruct d; simplify_eq; unfold slen in *; cbn in *; lia.
Qed.

(** The three parsers leave less than they were given. *)
Lemma slen_parsed n :
  (∀ d s v r, parse_val n d s = Some (v, r) → (slen r < slen s)%nat) ∧
  (∀ d s l r, parse_items n d s = Some (l, r) → (slen r < slen s)%nat) ∧
  (∀ d s l r, parse_members n d s = Some (l, r) → (slen r < slen s)%nat).
Proof.
  induction n as [|n (IHv & IHi & IHm)]; [done|].
  assert (∀ s, s ≠ "" → slen (skip_ws (tail_str s)) < slen s)%nat as Htail.
  { intros s Hs. pose proof (slen_tail s Hs). pose proof (slen_skip (tail_str s)). lia. }
  split_and!; intros d s v r; cbn [parse_val parse_items parse_members]; cbv zeta.
  - destruct (head_is s dq) eqn:Hq.
    { destruct (parse_string s) as [[x r']|] eqn:Hs; [|done]. cbn. intros [= _ <-]. by eapply slen_string. }
    destruct (head_is s open_brace) eqn:Hb; [|destruct (head_is s open_bracket) eqn:Hb'].
    + destruct (_ <=? _); [done|]. apply head_is_nonempty, Htail in Hb. destruct (head_is _ close_brace) eqn:He.
      * intros [= _ <-]. apply head_is_nonempty, slen_tail in He. lia.
      * destruct (parse_members _ _ _) as [[l r']|] eqn:Hp; [|done]. cbn. intros [= _ <-]. apply IHm in Hp. lia.
    + destruct (_ <=? _); [done|]. apply head_is_nonempty, Htail in Hb'. destruct (head_is _ close_bracket) eqn:He.
      * intros [= _ <-]. apply head_is_nonempty, slen_tail in He. lia.
      * destruct (parse_items _ _ _) as [[l r']|] eqn:Hp; [|done]. cbn. intros [= _ <-]. apply IHi in Hp. lia.
    + destruct (parse_literal s) as [[v' r']|] eqn:Hl; [intros [= _ <-]; by eapply slen_literal|].
      destruct (parse_number s) as [[x r']|] eqn:Hn; [|done]. cbn. intros [= _ <-]. by eapply slen_number.
  - destruct (parse_val n d s) as [[v' r']|] eqn:Hv; [|done]. cbn [mbind option_bind]. apply IHv in Hv.
    pose proof (slen_skip r'). destruct (head_is _ comma) eqn:Hc.
    + apply head_is_nonempty, Htail in Hc. destruct (parse_items _ _ _) as [[l r2]|] eqn:Hp; [|done]. cbn. intros [= _ <-].
      apply IHi in Hp. lia.
    + destruct (head_is _ close_bracket) eqn:He; [|done]. intros [= _ <-]. apply head_is_nonempty, slen_tail in He. lia.
  - destruct (parse_string s) as [[k r1]|] eqn:Hk; [|done]. cbn [mbind option_bind]. apply slen_string in Hk.
    pose proof (slen_skip r1). destruct (head_is _ colon) eqn:Hco; [|done]. apply head_is_nonempty, Htail in Hco.
    destruct (parse_val n d _) as [[v' r']|] eqn:Hv; [|done]. cbn [mbind option_bind]. apply IHv in Hv.
    pose proof (slen_skip r'). destruct (head_is _ comma) eqn:Hc.
    + apply head_is_nonempty, Htail in Hc. destruct (parse_members _ _ _) as [[l r2]|] eqn:Hp; [|done]. cbn. intros [= _ <-].
      apply IHm in Hp. lia.
    + destruct (head_is _ close_brace) eqn:He; [|done]. intros [= _ <-]. apply head_is_nonempty, slen_tail in He. lia.
Qed.

(** ** The fuel is enough *)

(** With this much fuel, more changes nothing. *)
Lemma fuel_enough n : ∀ m d s,
  (2 * slen s + 1 ≤ n → n ≤ m → parse_val n d s = parse_val m d s)%nat ∧
  (2 * slen s + 2 ≤ n → n ≤ m → parse_items n d s = parse_items m d s)%nat ∧
  (2 * slen s + 2 ≤ n → n ≤ m → parse_members n d s = parse_members m d s)%nat.
Proof.
  induction n as [|n IH]; [lia|]. intros [|m] d s; [lia|].
  assert (∀ s' : string, s' ≠ "" → slen (skip_ws (tail_str s')) < slen s')%nat as Htail.
  { intros s' Hs. pose proof (slen_tail s' Hs). pose proof (slen_skip (tail_str s')). lia. }
  split_and!; intros Hn Hm; cbn [parse_val parse_items parse_members]; cbv zeta.
  - destruct (head_is s dq); [done|]. destruct (head_is s open_brace) eqn:Hb; [|destruct (head_is s open_bracket) eqn:Hb'; [|done]].
    + apply head_is_nonempty, Htail in Hb. by rewrite (proj2 (proj2 (IH m (d - 1) (skip_ws (tail_str s))))) by lia.
    + apply head_is_nonempty, Htail in Hb'. by rewrite (proj1 (proj2 (IH m (d - 1) (skip_ws (tail_str s))))) by lia.
  - rewrite (proj1 (IH m d s)) by lia. destruct (parse_val m d s) as [[v r]|] eqn:Hv; [|done]. cbn [mbind option_bind].
    apply (slen_parsed m) in Hv. pose proof (slen_skip r). destruct (head_is (skip_ws r) comma) eqn:Hc; [|done].
    apply head_is_nonempty, Htail in Hc. by rewrite (proj1 (proj2 (IH m d (skip_ws (tail_str (skip_ws r)))))) by lia.
  - destruct (parse_string s) as [[k r1]|] eqn:Hk; [|done]. cbn [mbind option_bind]. apply slen_string in Hk.
    pose proof (slen_skip r1). destruct (head_is _ colon) eqn:Hco; [|done]. apply head_is_nonempty, Htail in Hco.
    rewrite (proj1 (IH m d (skip_ws (tail_str (skip_ws r1))))) by lia.
    destruct (parse_val m d _) as [[v r]|] eqn:Hv; [|done]. cbn [mbind option_bind]. apply (slen_parsed m) in Hv.
    pose proof (slen_skip r). destruct (head_is (skip_ws r) comma) eqn:Hc; [|done]. apply head_is_nonempty, Htail in Hc.
    by rewrite (proj2 (proj2 (IH m d (skip_ws (tail_str (skip_ws r)))))) by lia.
Qed.

Lemma parse_val_fuel n d s : (2 * slen s + 2 ≤ n)%nat → parse_val n d s = parse_val (2 * slen s + 2) d s.
Proof. intros Hn. symmetry. apply fuel_enough; lia. Qed.

(** ** Printed values *)

(** The text that may follow a value: its end, or what separates it from the
    next. *)
Definition ends (t : string) : bool :=
  match t with "" => true | String a _ => bool_decide (a = comma) || bool_decide (a = close_bracket) || bool_decide (a = close_brace) end.

(** A value's first character: no white space, and no closing bracket. *)
Definition starts (s : string) : bool :=
  match s with "" => false | String a _ => negb (is_ws a) && negb (bool_decide (a = close_bracket)) end.

(** [s] is read as [v] wherever it stands, at nesting depth [d] at most. *)
Definition prints (d : Z) (s : string) (v : jv) : Prop :=
  starts s = true ∧
  ∀ n depth t, (2 * slen s ≤ n)%nat → d ≤ depth → ends t = true → parse_val n depth (s +:+ t) = Some (v, t).

Lemma ends_cases a t : ends (String a t) = true → a = comma ∨ a = close_bracket ∨ a = close_brace.
Proof. cbn [ends]. rewrite !orb_true_iff, !bool_decide_eq_true. tauto. Qed.

Lemma starts_nonempty s : starts s = true → (0 < slen s)%nat.
Proof. destruct s; [done|]. intros _. unfold slen. cbn. lia. Qed.

Lemma starts_skip s t : starts s = true → skip_ws (s +:+ t) = s +:+ t.
Proof. destruct s as [|a s]; [done|]. rewrite str_app_cons. cbn [starts skip_ws]. by destruct (is_ws a). Qed.

Lemma ends_skip t : ends t = true → skip_ws t = t.
Proof. destruct t as [|a t]; [done|]. by intros [->|[->| ->]]%ends_cases. Qed.

Lemma prints_weaken d d' s v : d ≤ d' → prints d s v → prints d' s v.
Proof. intros Hd [Hs Hp]. split; [done|]. intros. apply Hp; [done|lia|done]. Qed.

Lemma prints_intro d s v : starts s = true →
  (∀ n depth t, (2 * slen s ≤ S n)%nat → d ≤ depth → ends t = true → parse_val (S n) depth (s +:+ t) = Some (v, t)) →
  prints d s v.
Proof. intros Hs Hp. split; [done|]. intros [|n]; [|apply Hp]. apply starts_nonempty in Hs. lia. Qed.

Lemma prints_str d s : prints d (str_text s) (JStr (sanitize_utf8 s)).
Proof.
  apply prints_intro; [done|]. intros n depth t Hn Hd Ht. unfold str_text.
  rewrite str_app_cons, <-str_app_assoc. change (str1 dq +:+ t) with (String dq t). cbn [parse_val head_is].
  rewrite bool_decide_true by done. unfold parse_string. rewrite bool_decide_true by done. rewrite str_body_text. cbn. by rewrite sanitize_idem.
Qed.

Lemma literal_reads t :
  parse_literal ("null" +:+ t) = Some (JNull, t) ∧ parse_literal ("true" +:+ t) = Some (JBool true, t) ∧
  parse_literal ("false" +:+ t) = Some (JBool false, t).
Proof.
  assert (∀ p, HasPrefix (p +:+ t) p = true) as Hp by (intros p; apply HasPrefix_spec; eauto).
  unfold parse_literal. by rewrite !Hp.
Qed.

Lemma prints_bool d b : prints d (bool_text b) (JBool b).
Proof.
  apply prints_intro; [by destruct b|]. intros n depth t Hn Hd Ht. destruct (literal_reads t) as (_ & Ht1 & Ht2).
  destruct b; cbn [bool_text parse_val]; [rewrite Ht1|rewrite Ht2]; done.
Qed.

Lemma prints_null d : prints d "null" JNull.
Proof.
  apply prints_intro; [done|]. intros n depth t Hn Hd Ht. cbn [parse_val]. by rewrite (proj1 (literal_reads t)).
Qed.

(** ** Numbers *)

Lemma span_digits_ends s t : digits_value 0 s ≠ None → ends t = true → span_digits (s +:+ t) = (s, t).
Proof.
  intros Hs Ht. enough (∀ acc, digits_value acc s ≠ None → span_digits (s +:+ t) = (s, t)) as Hall by by eapply Hall.
  induction s as [|a s IH]; intros acc Ha.
  - change ("" +:+ t) with t. destruct t as [|c t]; [done|]. by apply ends_cases in Ht as [->|[->| ->]].
  - rewrite str_app_cons. cbn [digits_value span_digits] in *. destruct (is_digit a); [|done].
    assert (∀ z, digits_value z s ≠ None → digits_value 0 s ≠ None) as Hz.
    { clear. revert s. enough (∀ s z z', digits_value z s ≠ None → digits_value z' s ≠ None) by eauto.
      induction s as [|b s IH]; intros z z'; cbn; [done|]. destruct (is_digit b); [apply IH|done]. }
    by erewrite IH; [|by eapply Hz|].
Qed.

Lemma pretty_go_head (x : N) s : (0 < x)%N → ∃ a r, pretty_N_go x s = String a r ∧ is_digit a = true ∧ a ≠ "0"%char.
Proof.
  revert s. induction (N.lt_wf_0 x) as [x _ IH]. intros s Hx. rewrite pretty_N_go_step by lia.
  destruct (decide (x / 10 = 0)%N) as [Hz|Hz].
  - rewrite Hz, pretty_N_go_0. eexists _, _. split; [done|].
    assert (0 < x < 10)%N as Hr by (apply N.div_small_iff in Hz; lia). rewrite N.mod_small by lia.
    destruct (pretty_N_char_digit x) as [Hd Hv]; [lia|]. split; [done|]. intros He. rewrite He in Hv. change (zb "0"%char - 48) with 0 in Hv. lia.
  - apply IH; [apply N.div_lt; lia|by apply N.neq_0_lt_0].
Qed.

Lemma num_int_pretty (x : N) t : ends t = true → num_int (pretty x +:+ t) = Some (pretty x, t).
Proof.
  intros Ht. pose proof (digits_value_pretty x) as Hd. unfold pretty, pretty_N in *. case_decide as Hx; [done|].
  destruct (pretty_go_head x "") as (a & r & Hp & Ha & H0); [lia|]. rewrite Hp in *. rewrite str_app_cons. cbn [num_int].
  rewrite bool_decide_false, Ha by done. rewrite <-str_app_cons, span_digits_ends; [done| |done]. by rewrite Hd.
Qed.

Lemma number_tail t : ends t = true → num_frac t = Some ("", t) ∧ num_exp t = Some ("", t).
Proof.
  intros Ht. destruct t as [|a t]; [done|]. by apply ends_cases in Ht as [->|[->| ->]].
Qed.

Lemma pretty_head (x : N) : ∃ a r, pretty x = String a r ∧ is_digit a = true.
Proof.
  unfold pretty, pretty_N. case_decide as Hx; [by eexists _, _|].
  destruct (pretty_go_head x "") as (a & r & -> & ? & _); [lia|]. by eexists _, _.
Qed.

Lemma number_unsigned (x : N) t sg : ends t = true →
  ('(i, s1) ← num_int (pretty x +:+ t); '(f, s2) ← num_frac s1; '(e, s3) ← num_exp s2;
   Some (sg +:+ i +:+ f +:+ e, s3)) = Some (sg +:+ pretty x, t).
Proof.
  intros Ht. destruct (number_tail t Ht) as [Hf He]. rewrite num_int_pretty by done. cbn [mbind option_bind].
  rewrite Hf. cbn [mbind option_bind]. rewrite He. cbn [mbind option_bind]. by rewrite !str_app_nil_r.
Qed.

Lemma parse_number_num z t : ends t = true → parse_number (num_text z +:+ t) = Some (num_text z, t).
Proof.
  intros Ht. unfold num_text, itoa. destruct z as [|p|p].
  - apply (number_unsigned 0 t "" Ht).
  - change (pretty (Z.pos p)) with (pretty (N.pos p)). pose proof (number_unsigned (N.pos p) t "" Ht) as Hu.
    change ("" +:+ pretty (N.pos p)) with (pretty (N.pos p)) in Hu. rewrite <-Hu. clear Hu.
    destruct (pretty_head (N.pos p)) as (a & r & -> & Ha). rewrite str_app_cons. unfold parse_number.
    destruct a as [[] [] [] [] [] [] [] []]; done.
  - change (pretty (Z.neg p)) with ("-" +:+ pretty (N.pos p)). rewrite <-(number_unsigned (N.pos p) t "-" Ht).
    by rewrite <-str_app_assoc.
Qed.

Lemma prints_num d z : prints d (num_text z) (JNum (num_text z)).
Proof.
  assert (∃ a r, num_text z = String a r ∧ (is_digit a = true ∨ a = "-"%char)) as (a & r & Hz & Ha).
  { unfold num_text, itoa. destruct z as [|p|p]; [by eexists _, _; eauto| |by eexists _, _; eauto].
    destruct (pretty_head (N.pos p)) as (a & r & ? & ?). exists a, r. eauto. }
  assert (starts (num_text z) = true) as Hs.
  { rewrite Hz. destruct Ha as [Ha| ->]; [|done]. by destruct a as [[] [] [] [] [] [] [] []]. }
  apply prints_intro; [done|]. intros n depth t Hn Hd Ht.
  pose proof (parse_number_num z t Ht) as Hp. rewrite Hz, str_app_cons in *. cbn [parse_val head_is].
  assert (∀ c, is_digit c = false → c ≠ "-"%char → bool_decide (a = c) = false) as Hc.
  { intros c Hd1 Hd2. apply bool_decide_false. intros ->. destruct Ha; congruence. }
  rewrite !Hc by done. assert (parse_literal (String a (r +:+ t)) = None) as ->.
  { unfold parse_literal. cbn [HasPrefix]. rewrite !(bool_decide_false (_ = a)); [done|..]; intros <-; by destruct Ha. }
  by rewrite Hp.
Qed.

(** ** Arrays and objects *)

Lemma Join_cons x y l : Join (x :: y :: l) "," = x +:+ String comma (Join (y :: l) ",").
Proof. done. Qed.

Lemma items_read d l vs : Forall2 (prints d) l vs → l ≠ [] → ∀ n depth t,
  (2 * slen (Join l ",") + 1 ≤ n)%nat → d ≤ depth →
  parse_items n depth (Join l "," +:+ String close_bracket t) = Some (zip l vs, t).
Proof.
  induction 1 as [|x v l vs [Hx Hp] Hl IH]; [done|]. intros _ [|n] depth t Hn Hd; [lia|].
  cbn [parse_items]. cbv zeta. destruct l as [|y l].
  - inversion Hl; subst. cbn [Join] in *. rewrite Hp by (done || lia). cbn [mbind option_bind]. by rewrite consumed_app.
  - rewrite Join_cons in *. rewrite slen_app in Hn. unfold slen in Hn. cbn [String.length] in Hn.
    change String.length with slen in Hn. rewrite <-str_app_assoc, str_app_cons. rewrite Hp by (done || lia).
    cbn [mbind option_bind skip_ws]. rewrite consumed_app. cbn [head_is]. change (is_ws comma) with false. cbn [head_is].
    rewrite bool_decide_true by done. change (tail_str (String comma ?s)) with s.
    destruct vs as [|v' vs]; [by inversion Hl|]. inversion Hl as [|? ? ? ? [Hy _] _]; subst.
    assert (starts (Join (y :: l) ",") = true) as Hs.
    { destruct y as [|a y]; [done|]. destruct l; [done|]. by rewrite Join_cons, str_app_cons. }
    rewrite starts_skip by done. by rewrite IH by (done || lia).
Qed.

Lemma prints_arr d l vs : 0 ≤ d → Forall2 (prints d) l vs → prints (d + 1) (arr_text l) (JArr (zip l vs)).
Proof.
  intros Hd0 Hl. apply prints_intro; [done|]. intros n depth t Hn Hd Ht. unfold arr_text in *.
  rewrite str_app_cons, <-str_app_assoc. change (str1 close_bracket +:+ t) with (String close_bracket t).
  unfold slen in Hn. cbn [String.length] in Hn. change String.length with slen in Hn. rewrite slen_app in Hn.
  cbn [parse_val head_is]. rewrite !bool_decide_false by done. rewrite bool_decide_true by done.
  rewrite (proj2 (Z.leb_gt _ _)) by lia. cbv zeta. change (tail_str (String open_bracket ?s)) with s.
  destruct Hl as [|x v l vs [Hx Hp] Hl]; [done|].
  assert (starts (Join (x :: l) ",") = true) as Hs.
  { destruct x as [|a x]; [done|]. destruct l; [done|]. by rewrite Join_cons, str_app_cons. }
  rewrite starts_skip by done.
  assert (head_is (Join (x :: l) "," +:+ String close_bracket t) close_bracket = false) as ->.
  { destruct (Join (x :: l) ",") as [|a s]; [done|]. cbn [starts] in Hs. rewrite str_app_cons. cbn [head_is].
    by destruct (bool_decide (a = close_bracket)); [rewrite andb_false_r in Hs|]. }
  by rewrite (items_read d (x :: l) (v :: vs)) by (done || lia || by constructor).
Qed.

(** A member: a key's text and a value's text. *)
Definition pair_text (kv : string * string) : string := kv.1 +:+ String colon kv.2.

Definition key_reads (kt k : string) : Prop :=
  (∃ u, kt = String dq u) ∧ ∀ t, parse_string (kt +:+ t) = Some (k, t).

Definition pair_reads (d : Z) (kv : string * string) (kn : string * jnode) : Prop :=
  key_reads kv.1 kn.1 ∧ kn.2.1 = kv.2 ∧ prints d kv.2 kn.2.2.

Lemma pair_step n d depth kt k s v t : key_reads kt k → prints d s v → (2 * slen s ≤ n)%nat → d ≤ depth → ends t = true →
  ∃ r, parse_string (pair_text (kt, s) +:+ t) = Some (k, r) ∧ head_is (skip_ws r) colon = true ∧
    skip_ws (tail_str (skip_ws r)) = s +:+ t ∧ parse_val n depth (s +:+ t) = Some (v, t).
Proof.
  intros [_ Hk] [Hs Hp] Hn Hd Ht. exists (String colon (s +:+ t)). unfold pair_text. cbn [fst snd].
  rewrite <-!str_app_assoc, Hk, str_app_cons. split_and!; [done|done| |by apply Hp].
  change (skip_ws (String colon ?u)) with (String colon u). change (tail_str (String colon ?u)) with u. by apply starts_skip.
Qed.

Lemma pairs_read d l ms : Forall2 (pair_reads d) l ms → l ≠ [] → ∀ n depth t,
  (2 * slen (Join (pair_text <$> l) ",") + 1 ≤ n)%nat → d ≤ depth →
  parse_members n depth (Join (pair_text <$> l) "," +:+ String close_brace t) = Some (ms, t).
Proof.
  induction 1 as [|[k s] [k' [s' v]] l ms (Hk & Hs & Hp) Hl IH]; [done|]. cbn in Hk, Hs, Hp. subst s'.
  intros _ [|n] depth t Hn Hd; [lia|]. cbn [parse_members]. cbv zeta.
  assert (∀ u, slen (pair_text (k, s) +:+ u) = (slen k + S (slen s) + slen u))%nat as Hlen.
  { intros u. unfold pair_text. cbn [fst snd]. rewrite !slen_app. unfold slen. cbn [String.length]. lia. }
  destruct l as [|y l].
  - inversion Hl; subst. cbn [fmap list_fmap Join] in *. rewrite <-(str_app_nil_r (pair_text _)), Hlen in Hn.
    destruct (pair_step n d depth k k' s v (String close_brace t)) as (r & -> & Hr & Hr' & Hv); [done|done|lia|done..|].
    cbn [mbind option_bind]. rewrite Hr, Hr', Hv. cbn [mbind option_bind]. by rewrite consumed_app.
  - change (pair_text <$> (k, s) :: y :: l) with (pair_text (k, s) :: pair_text y :: (pair_text <$> l)) in *.
    rewrite Join_cons in *. rewrite Hlen in Hn. unfold slen in Hn. cbn [String.length] in Hn.
    change String.length with slen in Hn. rewrite <-str_app_assoc, str_app_cons.
    match goal with |- context [String comma ?u] => destruct (pair_step n d depth k k' s v (String comma u))
      as (r & -> & Hr & Hr' & Hv); [done|done|lia|done..|] end.
    cbn [mbind option_bind]. rewrite Hr, Hr', Hv. cbn [mbind option_bind]. rewrite consumed_app.
    match goal with |- context [String comma ?u] => change (skip_ws (String comma u)) with (String comma u);
      change (tail_str (String comma u)) with u end. cbn [head_is]. rewrite bool_decide_true by done.
    assert (starts (Join (pair_text y :: (pair_text <$> l)) ",") = true) as Hst.
    { inversion Hl as [|? m ? ? ([[u Hu] _] & _) _]; subst. destruct y as [kt st]. cbn [fst] in Hu. subst kt. by destruct l. }
    rewrite starts_skip by done. change (pair_text y :: (pair_text <$> l)) with (pair_text <$> y :: l) in *.
    by rewrite IH by (done || lia).
Qed.

Definition pairs_text (l : list (string * string)) : string := String open_brace (Join (pair_text <$> l) "," +:+ str1 close_brace).

Lemma prints_pairs d l ms : 0 ≤ d → Forall2 (pair_reads d) l ms → prints (d + 1) (pairs_text l) (JObj ms).
Proof.
  intros Hd0 Hl. apply prints_intro; [done|]. intros n depth t Hn Hd Ht. unfold pairs_text in *.
  rewrite str_app_cons, <-str_app_assoc. change (str1 close_brace +:+ t) with (String close_brace t).
  unfold slen in Hn. cbn [String.length] in Hn. change String.length with slen in Hn. rewrite slen_app in Hn.
  cbn [parse_val head_is]. rewrite bool_decide_false by done. rewrite bool_decide_true by done.
  rewrite (proj2 (Z.leb_gt _ _)) by lia. cbv zeta. change (tail_str (String open_brace ?s)) with s.
  destruct Hl as [|[kt s] m l ms Hx Hl]; [done|].
  assert (∃ u, Join (pair_text <$> (kt, s) :: l) "," = String dq u) as [u Hu].
  { destruct Hx as ([[u Hu] _] & _). cbn [fst] in Hu. subst kt. destruct l; by eexists. }
  assert (skip_ws (Join (pair_text <$> (kt, s) :: l) "," +:+ String close_brace t) =
          Join (pair_text <$> (kt, s) :: l) "," +:+ String close_brace t) as -> by (apply starts_skip; by rewrite Hu).
  assert (head_is (Join (pair_text <$> (kt, s) :: l) "," +:+ String close_brace t) close_brace = false) as ->.
  { by rewrite Hu, str_app_cons. }
  by rewrite (pairs_read d ((kt, s) :: l) (m :: ms)) by (done || lia || by constructor).
Qed.

(** A member under its name, as [json.Marshal] prints it. *)
Definition member_reads (d : Z) (kv : string * string) (kn : string * jnode) : Prop :=
  kn.1 = sanitize_utf8 kv.1 ∧ kn.2.1 = kv.2 ∧ prints d kv.2 kn.2.2.

Lemma str_text_reads k : key_reads (str_text k) (sanitize_utf8 k).
Proof.
  split; [by eexists|]. intros t. unfold str_text. rewrite str_app_cons, <-str_app_assoc. change (str1 dq +:+ ?u) with (String dq u).
  unfold parse_string. rewrite bool_decide_true, str_body_text by done. by rewrite sanitize_idem.
Qed.

Lemma prints_obj d l ms : 0 ≤ d → Forall2 (member_reads d) l ms → prints (d + 1) (obj_text l) (JObj ms).
Proof.
  intros Hd Hl. assert (obj_text l = pairs_text ((λ kv, (str_text kv.1, kv.2)) <$> l)) as ->.
  { unfold obj_text, pairs_text. by rewrite <-list_fmap_compose. }
  apply prints_pairs; [done|]. apply Forall2_fmap_l. eapply Forall2_impl; [exact Hl|]. intros kv kn (Hk & Hv & Hp).
  split_and!; [|done..]. rewrite Hk. apply str_text_reads.
Qed.

(** A printed document is read back whole. *)
Lemma json_parse_prints d s v : prints d s v → d ≤ max_depth → json_parse s = Some (s, v).
Proof.
  intros [Hs Hp] Hd. unfold json_parse. cbv zeta. pose proof (starts_skip s "" Hs) as Hskip.
  rewrite !str_app_nil_r in Hskip. rewrite Hskip. pose proof (Hp (2 * slen s + 2)%nat max_depth "") as Hv.
  rewrite str_app_nil_r in Hv. rewrite Hv by (done || lia). cbn [mbind option_bind skip_ws].
  rewrite bool_decide_true by done. pose proof (consumed_app s "") as Hc. rewrite str_app_nil_r in Hc. by rewrite Hc.
Qed.

(** A structure whose text is an object of printed members. *)
Lemma unmarshal_obj {A} (dc : dec A) d l ms old :
  0 ≤ d < max_depth → Forall2 (member_reads d) l ms → unmarshal dc (obj_text l) old = dc (obj_text l, JObj ms) old.
Proof. intros Hd Hl. unfold unmarshal. by rewrite (json_parse_prints (d + 1) _ (JObj ms)) by (lia || (apply prints_obj; [lia|done])). Qed.

(** ** Maps *)

Definition readable (d : Z) (s : string) : Prop := ∃ v, prints d s v.

Lemma readable_weaken d d' s : d ≤ d' → readable d s → readable d' s.
Proof. intros Hd [v Hv]. exists v. by eapply prints_weaken. Qed.

(** Printed members, in the order of their keys. *)
Lemma members_readable d (l : list (string * string)) : Forall (λ kv, readable d kv.2) l →
  ∃ ms, Forall2 (member_reads d) l ms ∧ (λ kn, (kn.1, kn.2.1)) <$> ms = (λ kv, (sanitize_utf8 kv.1, kv.2)) <$> l.
Proof.
  induction 1 as [|[k s] l [v Hv] Hl (ms & Hms & Heq)]; [by exists []|].
  exists ((sanitize_utf8 k, (s, v)) :: ms). split; [by constructor|]. cbn [fmap list_fmap fst snd]. by f_equal.
Qed.

Lemma sorted_members_perm m : sorted_members m ≡ₚ map_to_list m.
Proof. apply merge_sort_Permutation. Qed.

Lemma sorted_members_elem m kv : kv ∈ sorted_members m ↔ m !! kv.1 = Some kv.2.
Proof. rewrite sorted_members_perm. destruct kv. by rewrite elem_of_map_to_list. Qed.

Lemma map_members d (m : gmap string string) : 0 ≤ d → map_Forall (λ _ s, readable d s) m →
  ∃ ms, prints (d + 1) (map_text m) (JObj ms) ∧
    (λ kn, (kn.1, kn.2.1)) <$> ms = (λ kv, (sanitize_utf8 kv.1, kv.2)) <$> sorted_members m.
Proof.
  intros Hd Hm. destruct (members_readable d (sorted_members m)) as (ms & Hms & Heq).
  { apply Forall_forall. intros kv Hkv%sorted_members_elem. by eapply Hm. }
  exists ms. split; [|done]. by apply prints_obj.
Qed.

Lemma readable_map d (m : gmap string string) : 0 ≤ d → map_Forall (λ _ s, readable d s) m → readable (d + 1) (map_text m).
Proof. intros Hd Hm. destruct (map_members d m Hd Hm) as (ms & Hms & _). by eexists. Qed.

Lemma readable_arr d l : 0 ≤ d → Forall (readable d) l → ∃ vs, Forall2 (prints d) l vs ∧ prints (d + 1) (arr_text l) (JArr (zip l vs)).
Proof.
  intros Hd Hl. assert (∃ vs, Forall2 (prints d) l vs) as [vs Hvs].
  { induction Hl as [|s l [v Hv] Hl [vs IH]]; [by exists []|]. exists (v :: vs). by constructor. }
  exists vs. split; [done|]. by apply prints_arr.
Qed.

Lemma foldl_insert {A} (l : list (string * A)) (m0 : gmap string A) : NoDup l.*1 →
  foldl (λ m p, <[p.1 := p.2]> m) m0 l = list_to_map l ∪ m0.
Proof.
  revert m0. induction l as [|[k v] l IH]; intros m0 Hnd; [cbn; by rewrite (left_id_L ∅ (∪))|].
  apply NoDup_cons in Hnd as [Hk Hnd]. cbn [foldl list_to_map fst snd]. rewrite IH by done.
  rewrite <-insert_union_r by (by apply not_elem_of_list_to_map_1). by rewrite insert_union_l.
Qed.

(** A map whose keys are valid UTF-8 is decoded to itself. *)
Lemma rawmap_reads d (m : gmap string string) : 0 ≤ d < max_depth → map_Forall (λ k s, sanitize_utf8 k = k ∧ readable d s) m →
  unmarshal_rawmap (map_text m) = Some (Some m).
Proof.
  intros Hd Hm. destruct (map_members d m) as (ms & Hms & Heq); [lia|intros k s Hs; by apply (Hm k s)|].
  unfold unmarshal_rawmap, unmarshal. rewrite (json_parse_prints (d + 1) _ (JObj ms)) by (done || lia).
  unfold dec_map. cbn [snd default]. change (dec_raw ?n ?x) with (n.1, true).
  assert (forallb (λ p, p.2.2) ((λ kv : string * jnode, (kv.1, (kv.2.1, true))) <$> ms) = true) as ->.
  { apply forallb_forall. intros p Hp%list_elem_of_In. by apply list_elem_of_fmap in Hp as (x & -> & _). }
  do 2 f_equal.
  assert (∀ l (m0 : gmap string string), foldl (λ m p, <[p.1 := p.2.1]> m) m0 ((λ kv : string * jnode, (kv.1, (kv.2.1, true))) <$> l) =
    foldl (λ m p, <[p.1 := p.2]> m) m0 ((λ kn, (kn.1, kn.2.1)) <$> l)) as ->.
  { clear. induction l as [|[k [s v]] l IH]; intros m0; [done|]. cbn. apply IH. }
  assert ((λ kv : string * string, (sanitize_utf8 kv.1, kv.2)) <$> sorted_members m = sorted_members m) as Hid.
  { rewrite <-(list_fmap_id (sorted_members m)) at 2. apply list_fmap_ext. intros i [k s] Hi%list_elem_of_lookup_2.
    apply sorted_members_elem in Hi. destruct (Hm k s Hi) as [Hk _]. cbn [fst snd]. by rewrite Hk. }
  rewrite Heq, Hid. pose proof (NoDup_fst_map_to_list m) as Hnd. rewrite <-sorted_members_perm in Hnd.
  rewrite foldl_insert by exact Hnd. rewrite (right_id_L ∅ (∪)). rewrite <-(list_to_map_to_list m) at 2.
  apply list_to_map_proper; [done|apply sorted_members_perm].
Qed.

(** ** Number literals *)

Lemma span_digits_app s t d r : span_digits s = (d, r) → r = "" → ends t = true → span_digits (s +:+ t) = (d, t).
Proof.
  revert d r. induction s as [|a s IH]; intros d r; cbn [span_digits].
  - intros [= <- _] _ Ht. change ("" +:+ t) with t. destruct t as [|c t]; [done|]. by apply ends_cases in Ht as [->|[->| ->]].
  - rewrite str_app_cons. cbn [span_digits]. destruct (is_digit a); [|by intros [= _ <-]].
    destruct (span_digits s) as [d' r'] eqn:Hs. intros [= <- <-] -> Ht. by rewrite (IH _ _ eq_refl eq_refl Ht).
Qed.

Lemma span_digits_mid s d c r t : span_digits s = (d, String c r) → span_digits (s +:+ t) = (d, String c r +:+ t).
Proof.
  revert d. induction s as [|a s IH]; intros d; cbn [span_digits]; [done|]. rewrite str_app_cons. cbn [span_digits].
  destruct (is_digit a).
  - destruct (span_digits s) as [d' r'] eqn:Hs. intros [= <- ->]. by rewrite (IH _ eq_refl).
  - by intros [= <- <- <-].
Qed.

(** A prefix parser that stops at [ends]: reading on is reading the same. *)
Definition stops {A} (p : string → option (A * string)) : Prop :=
  ∀ s a r t, p s = Some (a, r) → ends t = true → p (s +:+ t) = Some (a, r +:+ t).

Lemma span_digits_stops s t d r : span_digits s = (d, r) → ends t = true → span_digits (s +:+ t) = (d, r +:+ t).
Proof. destruct r as [|c r]; intros Hs Ht; [by apply (span_digits_app s t d "")|by apply span_digits_mid]. Qed.

Lemma num_int_stops : stops num_int.
Proof.
  intros s a r t. unfold num_int. destruct s as [|c s]; [done|]. rewrite str_app_cons. case_bool_decide; [by intros [= <- <-]|].
  destruct (is_digit c) eqn:Hc; [|done]. intros [= Hs] Ht. rewrite <-str_app_cons. f_equal. by apply span_digits_stops.
Qed.

Lemma num_frac_stops : stops num_frac.
Proof.
  intros s a r t Hs Ht. destruct s as [|c s].
  { injection Hs as <- <-. change ("" +:+ t) with t. by destruct (number_tail t Ht). }
  rewrite str_app_cons. destruct (decide (c = "."%char)) as [->|Hc].
  - cbn in Hs |- *. destruct (span_digits s) as [d r'] eqn:Hd. rewrite (span_digits_stops _ t _ _ Hd Ht).
    destruct d; [done|]. by injection Hs as <- <-.
  - assert (∀ u, num_frac (String c u) = Some ("", String c u)) as Hn.
    { intros u. unfold num_frac. destruct c as [[] [] [] [] [] [] [] []]; try done. }
    rewrite Hn in Hs |- *. by injection Hs as <- <-.
Qed.

Lemma num_exp_stops : stops num_exp.
Proof.
  intros s a r t Hs Ht. destruct s as [|c s].
  { injection Hs as <- <-. change ("" +:+ t) with t. by destruct (number_tail t Ht). }
  rewrite str_app_cons. cbn [num_exp] in Hs |- *. destruct (_ || _); [|by injection Hs as <- <-].
  destruct s as [|c' s]; [done|]. rewrite str_app_cons. destruct (bool_decide (c' = "+"%char) || _).
  - destruct (span_digits s) as [d r'] eqn:Hd. rewrite (span_digits_stops _ t _ _ Hd Ht). destruct d; [done|]. by injection Hs as <- <-.
  - destruct (span_digits (String c' s)) as [d r'] eqn:Hd. rewrite <-str_app_cons, (span_digits_stops _ t _ _ Hd Ht).
    destruct d; [done|]. by injection Hs as <- <-.
Qed.

(** What a prefix parser reads is what it returns. *)
Definition consumes (p : string → option (string * string)) : Prop := ∀ s a r, p s = Some (a, r) → s = a +:+ r.

Lemma span_digits_consumes s d r : span_digits s = (d, r) → s = d +:+ r.
Proof.
  revert d r. induction s as [|a s IH]; intros d r; cbn [span_digits]; [by intros [= <- <-]|].
  destruct (is_digit a); [|by intros [= <- <-]]. destruct (span_digits s) as [d' r'] eqn:Hs. intros [= <- <-].
  rewrite str_app_cons. f_equal. by apply IH.
Qed.

Lemma num_int_consumes : consumes num_int.
Proof.
  intros [|c s] a r; [done|]. unfold num_int. case_bool_decide; [by intros [= <- <-]|]. destruct (is_digit c); [|done].
  intros [= Hs]. by apply span_digits_consumes.
Qed.

Lemma num_frac_consumes : consumes num_frac.
Proof.
  intros [|c s] a r Hs; [by injection Hs as <- <-|]. destruct (decide (c = "."%char)) as [->|Hc].
  - cbn in Hs. destruct (span_digits s) as [d r'] eqn:Hd. apply span_digits_consumes in Hd. destruct d; [done|].
    injection Hs as <- <-. by rewrite Hd.
  - assert (num_frac (String c s) = Some ("", String c s)) as Hn.
    { unfold num_frac. destruct c as [[] [] [] [] [] [] [] []]; try done. }
    rewrite Hn in Hs. by injection Hs as <- <-.
Qed.

Lemma num_exp_consumes : consumes num_exp.
Proof.
  intros [|c s] a r Hs; [by injection Hs as <- <-|]. cbn [num_exp] in Hs. destruct (_ || _); [|by injection Hs as <- <-].
  destruct s as [|c' s]; [done|]. destruct (bool_decide (c' = "+"%char) || _).
  - destruct (span_digits s) as [d r'] eqn:Hd. apply span_digits_consumes in Hd. destruct d; [done|]. injection Hs as <- <-.
    by rewrite Hd.
  - destruct (span_digits (String c' s)) as [d r'] eqn:Hd. apply span_digits_consumes in Hd. destruct d; [done|].
    injection Hs as <- <-. by rewrite Hd.
Qed.

(** The three parts of a number after its sign. *)
Definition number_parts (sg s : string) : option (string * string) :=
  '(i, s1) ← num_int s; '(f, s2) ← num_frac s1; '(e, s3) ← num_exp s2; Some (sg +:+ i +:+ f +:+ e, s3).

Lemma number_parts_read sg s x : number_parts sg s = Some (x, "") →
  x = sg +:+ s ∧ ∀ t, ends t = true → number_parts sg (s +:+ t) = Some (x, t).
Proof.
  unfold number_parts. destruct (num_int s) as [[i s1]|] eqn:Hi; [|done]. cbn [mbind option_bind].
  destruct (num_frac s1) as [[f s2]|] eqn:Hf; [|done]. cbn [mbind option_bind].
  destruct (num_exp s2) as [[e s3]|] eqn:He; [|done]. cbn [mbind option_bind]. intros [= <- ->]. split.
  - rewrite (num_int_consumes _ _ _ Hi), (num_frac_consumes _ _ _ Hf), (num_exp_consumes _ _ _ He), str_app_nil_r. done.
  - intros t Ht. rewrite (num_int_stops _ _ _ t Hi Ht). cbn [mbind option_bind]. rewrite (num_frac_stops _ _ _ t Hf Ht).
    cbn [mbind option_bind]. rewrite (num_exp_stops _ _ _ t He Ht). done.
Qed.

Lemma parse_number_sign s : parse_number (String "-" s) = number_parts "-" s.
Proof. done. Qed.
Lemma parse_number_plain a s : a ≠ "-"%char → parse_number (String a s) = number_parts "" (String a s).
Proof. intros Ha. unfold parse_number. destruct a as [[] [] [] [] [] [] [] []]; done. Qed.

Lemma literal_read l : is_number_literal l = true →
  (∃ a r, l = String a r ∧ (is_digit a = true ∨ a = "-"%char)) ∧
  ∀ t, ends t = true → parse_number (l +:+ t) = Some (l, t).
Proof.
  unfold is_number_literal. destruct (parse_number l) as [[x [|]]|] eqn:Hp; [|done..]. intros _.
  destruct l as [|a r]; [done|]. destruct (decide (a = "-"%char)) as [->|Ha].
  - rewrite parse_number_sign in Hp. apply number_parts_read in Hp as [-> Hr]. split; [eauto|]. intros t Ht.
    rewrite str_app_cons, parse_number_sign. by apply Hr.
  - rewrite parse_number_plain in Hp by done. pose proof Hp as [-> Hr]%number_parts_read. split.
    + exists a, r. split; [done|left]. unfold number_parts in Hp. destruct (num_int (String a r)) as [[i s1]|] eqn:Hi; [|done].
      unfold num_int in Hi. case_bool_decide as H0; [by subst a|]. by destruct (is_digit a).
    + intros t Ht. rewrite str_app_cons, parse_number_plain by done. rewrite <-str_app_cons. by apply Hr.
Qed.

Lemma prints_literal d l : is_number_literal l = true → prints d l (JNum l).
Proof.
  intros ((a & r & -> & Ha) & Hr)%literal_read.
  assert (starts (String a r) = true) as Hs.
  { destruct Ha as [Ha| ->]; [|done]. by destruct a as [[] [] [] [] [] [] [] []]. }
  apply prints_intro; [done|]. intros n depth t Hn Hd Ht. specialize (Hr t Ht). rewrite str_app_cons in *. cbn [parse_val head_is].
  assert (∀ c, is_digit c = false → c ≠ "-"%char → bool_decide (a = c) = false) as Hc.
  { intros c Hd1 Hd2. apply bool_decide_false. intros ->. destruct Ha; congruence. }
  rewrite !Hc by done. assert (parse_literal (String a (r +:+ t)) = None) as ->.
  { unfold parse_literal. cbn [HasPrefix]. rewrite !(bool_decide_false (_ = a)); [done|..]; intros <-; by destruct Ha. }
  by rewrite Hr.
Qed.
