(* ===== verification/GoTime.v ===== *)
(** * RFC 3339 times ([time.Format], [time.Parse])

    Dates are proleptic Gregorian, days counted from the Unix epoch; a [time] is
    a number of nanoseconds in UTC. *)

From S2P Require Import Prelude GoStrings.
Open Scope Z_scope.

(** Year, month and day of a day number: years are counted from March so that
    the leap day comes last, eras of 400 years have 146097 days. *)
Definition civil_from_days (days : Z) : Z * Z * Z :=
  let z := days + 719468 in
  let era := z / 146097 in
  let doe := z mod 146097 in
  let yoe := (doe - doe / 1460 + doe / 36524 - doe / 146096) / 365 in
  let doy := doe - (365 * yoe + yoe / 4 - yoe / 100) in
  let mp := (5 * doy + 2) / 153 in
  let d := doy - (153 * mp + 2) / 5 + 1 in
  let m := if mp <? 10 then mp + 3 else mp - 9 in
  (yoe + era * 400 + (if m <=? 2 then 1 else 0), m, d).

Definition days_from_civil (year m d : Z) : Z :=
  let y := if m <=? 2 then year - 1 else year in
  let era := y / 400 in
  let yoe := y mod 400 in
  let doy := (153 * (if 2 <? m then m - 3 else m + 9) + 2) / 5 + d - 1 in
  era * 146097 + (yoe * 365 + yoe / 4 - yoe / 100 + doy) - 719468.

Definition is_leap (year : Z) : bool :=
  (year mod 4 =? 0) && (negb (year mod 100 =? 0) || (year mod 400 =? 0)).
Definition days_in (m year : Z) : Z :=
  if m =? 2 then (if is_leap year then 29 else 28)
  else if (m =? 4) || (m =? 6) || (m =? 9) || (m =? 11) then 30 else 31.

(** [appendInt(b, x, width)]. *)
Definition pad_int (width : nat) (x : Z) : string :=
  let digits := itoa (Z.abs x) in
  (if x <? 0 then "-" else "") +:+ concat_strings (repeat "0" (width - slen digits)%nat) +:+ digits.

(** [t.UTC().Format(time.RFC3339)]. *)
Definition format_RFC3339 (t : time) : string :=
  let secs := t / Second in
  let '(y, m, d) := civil_from_days (secs / 86400) in
  let sod := secs mod 86400 in
  pad_int 4 y +:+ "-" +:+ pad_int 2 m +:+ "-" +:+ pad_int 2 d +:+ "T" +:+
  pad_int 2 (sod / 3600) +:+ ":" +:+ pad_int 2 (sod / 60 mod 60) +:+ ":" +:+ pad_int 2 (sod mod 60) +:+ "Z".

(** Exactly [n] digits at the head. *)
Definition digits_at_head (n : nat) (s : string) : option (Z * string) :=
  if (slen s <? n)%nat then None else v ← digits_value 0 (take_str n s); Some (v, drop_str n s).

(** [getnum(s, false)]: two digits, or one. *)
Definition one_or_two_digits (s : string) : option (Z * string) :=
  match digits_at_head 2 s with Some r => Some r | None => digits_at_head 1 s end.

Definition literal (c : ascii) (s : string) : option string :=
  match s with String a s' => if bool_decide (a = c) then Some s' else None | "" => None end.

Fixpoint count_digits (s : string) : nat :=
  match s with String a s' => if is_digit a then S (count_digits s') else O | "" => O end.

(** A fraction after the seconds; digits beyond nanoseconds are dropped. *)
Definition fraction (s : string) : Z * string :=
  match s with
  | String a s' =>
    let n := count_digits s' in
    if (bool_decide (a = "."%char) || bool_decide (a = ","%char)) && (0 <? n)%nat
    then let k := Nat.min n 9 in
         (default 0 (digits_value 0 (take_str k s')) * 10 ^ Z.of_nat (9 - k), drop_str n s')
    else (0, s)
  | "" => (0, "")
  end.

(** The zone's offset in seconds; the limits are inclusive. *)
Definition zone (s : string) : option (Z * string) :=
  match literal "Z" s with
  | Some r => Some (0, r)
  | None =>
    match s with
    | String sg s1 =>
      '(hr, s2) ← digits_at_head 2 s1; s3 ← literal ":" s2; '(mm, r) ← digits_at_head 2 s3;
      if (24 <? hr) || (60 <? mm) then None
      else if bool_decide (sg = "+"%char) then Some ((hr * 60 + mm) * 60, r)
      else if bool_decide (sg = "-"%char) then Some (- ((hr * 60 + mm) * 60), r)
      else None
    | "" => None
    end
  end.

(** [time.Parse(time.RFC3339, s)]. *)
Definition parse_RFC3339 (s : string) : option time :=
  '(year, s) ← digits_at_head 4 s; s ← literal "-" s; '(month, s) ← digits_at_head 2 s; s ← literal "-" s;
  '(day, s) ← digits_at_head 2 s; s ← literal "T" s; '(hour, s) ← one_or_two_digits s; s ← literal ":" s;
  '(minute, s) ← digits_at_head 2 s; s ← literal ":" s; '(sec, s) ← digits_at_head 2 s;
  let '(nsec, s) := fraction s in
  '(offset, s) ← zone s;
  if negb (in_range 1 12 month) || negb (in_range 1 (days_in month year) day) || (24 <=? hour) ||
     (60 <=? minute) || (60 <=? sec) || nonempty s then None
  else Some ((days_from_civil year month day * 86400 + hour * 3600 + minute * 60 + sec - offset) * Second + nsec).

(** ** Sample dates *)

Example format_epoch : format_RFC3339 0 = "1970-01-01T00:00:00Z".
Proof. reflexivity. Qed.

Example format_leap_day : format_RFC3339 (1709210096 * Second + 5) = "2024-02-29T12:34:56Z".
Proof. reflexivity. Qed.

Example parse_leap_day : parse_RFC3339 "2024-02-29T12:34:56Z" = Some (1709210096 * Second).
Proof. reflexivity. Qed.

Example parse_offset : parse_RFC3339 "2024-02-29T12:34:56.5+01:30" = Some ((1709210096 - 5400) * Second + 500000000).
Proof. reflexivity. Qed.

Example parse_no_such_day : parse_RFC3339 "2023-02-29T12:34:56Z" = None.
Proof. reflexivity. Qed.
