(* ===== verification/Float64.v ===== *)
(** * [float64] values and their texts

    [encoding/json] decodes a number into [interface{}] as a [float64]; the
    model keeps the literal and computes the value it denotes when the code
    prints it.  A finite value is a sign, a mantissa and a binary exponent;
    conversion from decimal rounds to nearest, ties to even, and
    [strconv]'s shortest formatting is the search for the shortest decimal that
    rounds back.  [json_float], [format_v], [format_f3] and [receipt_float] are
    the four ways the code prints one. *)

From S2P Require Import Prelude GoStrings Json.
Open Scope Z_scope.

(** The value is [(-1)^neg * man * 2^ex]. *)
Record f64 := mkF64 { f_neg : bool; f_man : Z; f_ex : Z }.

Definition round_even (num den : Z) : Z :=
  let q := num / den in
  let r := num mod den in
  if 2 * r <? den then q else if den <? 2 * r then q + 1 else q + q mod 2.

(** [num / den] times [2 ^ - k], as a fraction. *)
Definition scale2 (num den k : Z) : Z * Z :=
  if 0 <=? k then (num, den * 2 ^ k) else (num * 2 ^ (- k), den).

(** The mantissa and exponent nearest to [num / den]: [prec] bits, or as many as
    the smallest exponent [emin] leaves. *)
Definition nearest_in (prec emin num den : Z) : Z * Z :=
  if num =? 0 then (0, 0)
  else
    let k0 := Z.log2 num - Z.log2 den - prec in
    let '(a, b) := scale2 num den k0 in
    let k := Z.max emin (if a <? b * 2 ^ prec then k0 else k0 + 1) in
    let '(a, b) := scale2 num den k in
    (round_even a b, k).

Definition nearest : Z → Z → Z * Z := nearest_in 53 (-1074).
Definition nearest32 : Z → Z → Z * Z := nearest_in 24 (-149).

(** Times a power of ten. *)
Definition ratio10 (d e : Z) : Z * Z := if 0 <=? e then (d * 10 ^ e, 1) else (d, 10 ^ (- e)).

(** [strconv.ParseFloat] of a JSON literal that [float64_fits].  A literal below
    10^-330 is zero. *)
Definition float64_of (lit : string) : f64 :=
  let '(i, f, e) := float_parts lit in
  let d := default 0 (digits_value 0 (i +:+ f)) in
  let e := e - Z.of_nat (slen f) in
  let neg := HasPrefix lit "-" in
  if Z.of_nat (slen (drop_zeros (i +:+ f))) + e <? -330 then mkF64 neg 0 0
  else
    let '(num, den) := ratio10 d e in
    let '(m, k) := nearest num den in
    mkF64 neg m k.

(** The magnitude as a fraction. *)
Definition magnitude (x : f64) : Z * Z :=
  if 0 <=? f_ex x then (f_man x * 2 ^ f_ex x, 1) else (f_man x, 2 ^ (- f_ex x)).

(** ** Shortest decimals *)

Section Shortest.
Context (near : Z → Z → Z * Z). (* rounding to the format's values *)

Definition same_magnitude (x : f64) (num den : Z) : bool :=
  let '(m, k) := near num den in
  let '(a, b) := magnitude x in
  let '(c, d) := magnitude (mkF64 false m k) in
  a * d =? c * b.

(** The largest [p] with [10^p <= num / den]. *)
Definition decimal_exponent (num den : Z) : Z :=
  let p := ((Z.log2 num - Z.log2 den) * 30103) / 100000 in
  let reaches q := let '(a, b) := ratio10 1 q in a * den <=? num * b in
  if reaches (p + 1) then p + 1 else if reaches p then p else p - 1.

(** The [n]-digit decimals around the value, the nearer first, that denote it. *)
Definition digits_at (x : f64) (p : Z) (n : nat) : option Z :=
  let u := p - Z.of_nat n + 1 in
  let '(a, b) := magnitude x in
  let '(ua, ub) := ratio10 1 u in
  let lo := (a * ub) / (b * ua) in
  let rem := (a * ub) mod (b * ua) in
  let denotes c := let '(num, den) := ratio10 c u in same_magnitude x num den in
  let '(first, second) := if 2 * rem <=? b * ua then (lo, lo + 1) else (lo + 1, lo) in
  if denotes first then Some first else if denotes second then Some second else None.

Fixpoint shortest_from (x : f64) (p : Z) (n fuel : nat) : Z * nat :=
  match fuel with
  | O => (0, n)
  | S fuel => match digits_at x p n with
              | Some c => (c, n)
              | None => shortest_from x p (S n) fuel
              end
  end.

Definition trim_right_zeros (s : string) : string :=
  String.rev (drop_zeros (String.rev s)).

(** The digits and the position of the decimal point. *)
Definition shortest_in (x : f64) (most : nat) : string * Z :=
  if f_man x =? 0 then ("", 0)
  else
    let '(a, b) := magnitude x in
    let p := decimal_exponent a b in
    let '(c, n) := shortest_from x p 1 most in
    let s := itoa c in
    (trim_right_zeros s, p + 1 + (Z.of_nat (slen s) - Z.of_nat n)).
End Shortest.

(** 17 digits always do for a [float64], 9 for a [float32]. *)
Definition shortest (x : f64) : string * Z := shortest_in nearest x 17.
Definition shortest32 (x : f64) : string * Z := shortest_in nearest32 x 9.

(** ** Texts *)

Definition zeros (n : Z) : string := concat_strings (repeat "0" (Z.to_nat n)).

Definition sign_text (x : f64) : string := if f_neg x then "-" else "".

(** Format 'f' with the shortest precision. *)
Definition digits_f (digits : string) (dp : Z) : string :=
  let nd := Z.of_nat (slen digits) in
  let whole := if 0 <? dp then take_str (Z.to_nat dp) digits +:+ zeros (dp - nd) else "0" in
  let frac := if 0 <? dp then drop_str (Z.to_nat dp) digits else zeros (- dp) +:+ digits in
  if nonempty digits && nonempty frac then whole +:+ "." +:+ frac else whole.

(** Format 'e': one digit before the point, an exponent of [width] digits or more. *)
Definition digits_e (digits : string) (dp : Z) (width : nat) : string :=
  let ex := if nonempty digits then dp - 1 else 0 in
  let ds := if nonempty digits then digits else "0" in
  let tail := drop_str 1 ds in
  let et := itoa (Z.abs ex) in
  take_str 1 ds +:+ (if nonempty tail then "." +:+ tail else "") +:+ "e" +:+ (if ex <? 0 then "-" else "+")
    +:+ zeros (Z.of_nat width - Z.of_nat (slen et)) +:+ et.

Definition format_f (x : f64) : string :=
  let '(digits, dp) := shortest x in sign_text x +:+ digits_f digits dp.

(** [fmt.Sprintf("%v", v)]: 'e' when the exponent is below -4 or at least 6. *)
Definition format_v (x : f64) : string :=
  let '(digits, dp) := shortest x in
  sign_text x +:+ (if nonempty digits && ((dp - 1 <? -4) || (6 <=? dp - 1)) then digits_e digits dp 2
                   else digits_f digits dp).

(** [json.Marshal]: 'e' below 1e-6 and from 1e21 on, its exponent unpadded. *)
Definition json_digits (x : f64) (digits : string) (dp : Z) : string :=
  sign_text x +:+ (if nonempty digits && ((dp - 1 <? -6) || (21 <=? dp - 1)) then digits_e digits dp 1
                   else digits_f digits dp).

Definition json_float (lit : string) : string :=
  let x := float64_of lit in
  let '(digits, dp) := shortest x in json_digits x digits dp.

(** [float32(x)], [None] when it overflows to an infinity, and its JSON text. *)
Definition float32_of (x : f64) : option f64 :=
  let '(a, b) := magnitude x in
  let '(m, k) := nearest32 a b in
  let y := mkF64 (f_neg x) m k in
  let '(a, b) := magnitude y in
  if a <? 2 ^ 128 * b then Some y else None.

Definition json_float32 (x : f64) : string :=
  let '(digits, dp) := shortest32 x in json_digits x digits dp.

(** [fmt.Sprintf("%.3f", v)]. *)
Definition format_f3 (x : f64) : string :=
  let '(a, b) := magnitude x in
  let n := round_even (a * 1000) b in
  let frac := itoa (n mod 1000) in
  sign_text x +:+ itoa (n / 1000) +:+ "." +:+ zeros (3 - Z.of_nat (slen frac)) +:+ frac.

Definition is_integral (x : f64) : bool :=
  let '(a, b) := magnitude x in a mod b =? 0.

Definition truncated (x : f64) : Z :=
  let '(a, b) := magnitude x in if f_neg x then - (a / b) else a / b.

(** [int64(v)]; out of range amd64 yields the smallest value. *)
Definition to_int64 (x : f64) : Z :=
  let z := truncated x in
  if (- 2 ^ 63 <=? z) && (z <? 2 ^ 63) then z else - 2 ^ 63.

(** internal/runtime_client.go, [receiptFieldString] on a [float64]. *)
Definition receipt_float (lit : string) : string :=
  let x := float64_of lit in
  if is_integral x then itoa (to_int64 x) else format_f x.

(** ** Integers *)

Lemma span_digits_all s : digits_value 0 s ≠ None → span_digits s = (s, "").
Proof.
  enough (∀ acc, digits_value acc s ≠ None → span_digits s = (s, "")) as Hall.
  { apply Hall. }
  induction s as [|a s IH]; intros acc Hs; [done|]. cbn [digits_value span_digits] in *.
  destruct (is_digit a); [|done]. by rewrite (IH _ Hs).
Qed.

Lemma drop_zeros_digits s : digits_value 0 (drop_zeros s) = digits_value 0 s.
Proof.
  induction s as [|a s IH]; [done|]. cbn [drop_zeros].
  destruct (decide (a = "0"%char)) as [->|Hne]; [by rewrite IH|].
  by repeat (case_match; simplify_eq; try done).
Qed.

Lemma itoa_parts z : 0 ≤ z → float_parts (itoa z) = (itoa z, "", 0) ∧ HasPrefix (itoa z) "-" = false ∧
  digits_value 0 (itoa z) = Some z.
Proof.
  intros Hz. rewrite itoa_N by done.
  assert (digits_value 0 (pretty (Z.to_N z)) = Some z) as Hd.
  { rewrite digits_value_pretty. f_equal. lia. }
  assert (HasPrefix (pretty (Z.to_N z)) "-" = false) as Hp.
  { destruct (pretty (Z.to_N z)) as [|a s]; [done|]. cbn [HasPrefix digits_value] in *.
    destruct (is_digit a) eqn:Ha; [|done]. case_bool_decide as Hd'; [|done]. by subst a. }
  split_and!; [|done..]. unfold float_parts, TrimPrefix. rewrite Hp.
  rewrite span_digits_all; [done|]. by rewrite Hd.
Qed.

Lemma round_even_exact q den : 0 < den → round_even (q * den) den = q.
Proof.
  intros Hd. unfold round_even. rewrite Z.div_mul, Z.mod_mul by lia.
  by rewrite (proj2 (Z.ltb_lt _ _)) by lia.
Qed.

(** An integer of at most 53 bits is its own nearest value. *)
Lemma nearest_integer z neg : 0 < z ≤ 2 ^ 53 →
  ∃ m k, nearest z 1 = (m, k) ∧ is_integral (mkF64 neg m k) = true ∧
         truncated (mkF64 neg m k) = if neg then - z else z.
Proof.
  intros Hz. pose proof (Z.log2_spec z ltac:(lia)) as Hl. pose proof (Z.log2_nonneg z) as H0.
  assert (Z.log2 z ≤ 53) as Hle.
  { rewrite <-(Z.log2_pow2 53) by lia. apply Z.log2_le_mono. lia. }
  destruct (decide (Z.log2 z = 53)) as [H53|H53].
  { assert (z = 2 ^ 53) as -> by (rewrite H53 in Hl; lia). exists (2 ^ 52), 1. by destruct neg. }
  unfold nearest, nearest_in. rewrite (proj2 (Z.eqb_neq z 0)) by lia.
  change (Z.log2 1) with 0. rewrite Z.sub_0_r. unfold scale2 at 1.
  rewrite (proj2 (Z.leb_gt 0 (Z.log2 z - 53))) by lia.
  assert (2 ^ 53 ≤ z * 2 ^ (- (Z.log2 z - 53))) as Hbig.
  { replace 53 with (Z.log2 z + - (Z.log2 z - 53)) at 1 by lia.
    rewrite Z.pow_add_r by lia. apply Z.mul_le_mono_nonneg_r; lia. }
  rewrite (proj2 (Z.ltb_ge _ _)) by lia. rewrite Z.max_r by lia. unfold scale2.
  set (k := Z.log2 z - 53 + 1). destruct (0 <=? k) eqn:Hk.
  - apply Z.leb_le in Hk. assert (k = 0) as -> by (unfold k in *; lia). exists z, 0.
    change (1 * 2 ^ 0) with 1. rewrite <-(Z.mul_1_r z) at 1. rewrite round_even_exact by lia.
    unfold is_integral, truncated, magnitude. cbn [f_ex f_man f_neg Z.leb Z.compare].
    change (2 ^ 0) with 1. rewrite Z.mul_1_r, Z.mod_1_r, Z.div_1_r. done.
  - apply Z.leb_gt in Hk. exists (z * 2 ^ (- k)), k.
    rewrite <-(Z.mul_1_r (z * 2 ^ (- k))) at 1. rewrite round_even_exact by lia.
    unfold is_integral, truncated, magnitude. cbn [f_ex f_man f_neg].
    rewrite (proj2 (Z.leb_gt 0 k)) by lia. assert (2 ^ (- k) ≠ 0) by (apply Z.pow_nonzero; lia).
    rewrite Z.mod_mul, Z.div_mul by done. done.
Qed.

(** A counter of at most 2^53 is printed exactly. *)
Lemma receipt_float_integer z : 0 ≤ z ≤ 2 ^ 53 → receipt_float (itoa z) = itoa z.
Proof.
  intros Hz. destruct (decide (z = 0)) as [->|Hne]; [done|].
  destruct (itoa_parts z ltac:(lia)) as (Hp & Hneg & Hd).
  unfold receipt_float, float64_of. rewrite Hp, Hneg, str_app_nil_r, Hd. cbn [default].
  change (slen "") with 0%nat. change (0 - Z.of_nat 0) with 0.
  rewrite (proj2 (Z.ltb_ge _ _)) by lia. unfold ratio10. cbn [Z.leb Z.compare]. rewrite Z.pow_0_r, Z.mul_1_r. unfold id.
  destruct (nearest_integer z false ltac:(lia)) as (m & k & -> & Hi & Ht).
  rewrite Hi. unfold to_int64. rewrite Ht.
  by rewrite (proj2 (Z.leb_le _ _)), (proj2 (Z.ltb_lt _ _)) by lia.
Qed.
