(* ===== verification/Models.v ===== *)
(** * Inference requests and responses

    models/infer_request.go, infer_response.go, runtime_task_error.go and
    runtime_stream_error.go: the values the inference path passes around.  A Go
    slice is a list; a Go map or pointer that may be nil is an option; a decoded
    [map[string]interface{}] is an [option jv]. *)

From S2P Require Import Prelude GoStrings Json Float64.
From coqutil Require Import Datatypes.RecordSetters.
Import DoubleBraceUpdate.
Open Scope Z_scope.

(** ** Requests *)

Record ImageURL := mkImageURL { im_URL : string; im_Detail : string }.

Record ContentPart := mkContentPart {
  pa_Type : string;
  pa_Text : string;
  pa_ImageURL : option ImageURL;
}.

Record Message := mkMessage {
  ms_Role : string;
  ms_Content : string;
  ms_ContentParts : list ContentPart;
}.

Definition GetTextContent (m : Message) : string :=
  match ms_ContentParts m with
  | [] => ms_Content m
  | parts => concat_strings (pa_Text <$> filter (λ p, pa_Type p = "text") parts)
  end.

Definition HasImages (m : Message) : bool :=
  existsb (λ p, bool_decide (pa_Type p = "image_url") && bool_decide (is_Some (pa_ImageURL p))) (ms_ContentParts m).

Definition IsMultimodal (m : Message) : bool := negb (bool_decide (length (ms_ContentParts m) = 0%nat)).

Record PolicyOverride := mkPolicyOverride {
  po_Provider : string;
  po_Region : string;
  po_OptimizeFor : string;
  po_FallbackEnabled : bool;
  po_TimeoutMs : Z;
}.

Record InferRequest := mkInferRequest {
  ir_Model : string;
  ir_Messages : list Message;
  ir_Stream : bool;
  ir_MaxTokens : Z;
  ir_Temperature : f64;
  ir_TopP : f64;
  ir_TopK : Z;
  ir_PresencePenalty : f64;
  ir_FrequencyPenalty : f64;
  ir_Stop : list string;
  ir_Policy : option PolicyOverride;
  ir_EnableCaching : bool;
  ir_CacheTTL : Z;
  ir_PreferredRegion : string;
  ir_SpeculativeMode : string;
  ir_CouncilMode : bool;
  ir_AllowStreamFallback : bool;
  ir_Metadata : option (gmap string string);
  ir_ProviderConfig : option jv;
}.
#[export] Instance set_ir_ProviderConfig : Setter ir_ProviderConfig := _.

(** Comparison of finite floats. *)
Definition signed (x : f64) : Z * Z :=
  let '(a, b) := magnitude x in (if f_neg x then - a else a, b).
Definition f64_lt (x y : f64) : bool :=
  let '(a, b) := signed x in let '(c, d) := signed y in a * d <? c * b.
Definition f64_int (z : Z) : f64 := mkF64 (z <? 0) (Z.abs z) 0.

Definition at_message (i : nat) (text : string) : goerror := Errorf ("message[" +:+ pretty i +:+ "]" +:+ text).

Definition validate_part (i j : nat) (part : ContentPart) : res () :=
  let fail text := Err (at_message i (".content_parts[" +:+ pretty j +:+ "]: " +:+ text)) in
  if bool_decide (pa_Type part = "") then fail "type is required"
  else if bool_decide (pa_Type part = "text") then
    if bool_decide (pa_Text part = "") then fail "text cannot be empty" else Ok tt
  else if bool_decide (pa_Type part = "image_url") then
    match pa_ImageURL part with
    | Some u => if bool_decide (im_URL u = "") then fail "image_url.url is required" else Ok tt
    | None => fail "image_url.url is required"
    end
  else fail ("unsupported type '" +:+ pa_Type part +:+ "'").

Definition validate_message (i : nat) (msg : Message) : res () :=
  if bool_decide (ms_Content msg = "") && bool_decide (length (ms_ContentParts msg) = 0%nat)
  then Err (at_message i ": content cannot be empty")
  else if negb (bool_decide (ms_Role msg ∈ ["system"; "user"; "assistant"]))
  then Err (at_message i (": invalid role '" +:+ ms_Role msg +:+ "', must be system/user/assistant"))
  else res_forMi (validate_part i) 0 (ms_ContentParts msg).

Definition Validate (r : InferRequest) : res () :=
  if bool_decide (ir_Model r = "") then Err (Errorf "model is required")
  else if bool_decide (length (ir_Messages r) = 0%nat) then Err (Errorf "messages cannot be empty")
  else match res_forMi validate_message 0 (ir_Messages r) with
  | Err e => Err e
  | Ok _ =>
    if f64_lt (ir_Temperature r) (f64_int 0) || f64_lt (f64_int 2) (ir_Temperature r)
    then Err (Errorf "temperature must be between 0.0 and 2.0")
    else if f64_lt (ir_TopP r) (f64_int 0) || f64_lt (f64_int 1) (ir_TopP r)
    then Err (Errorf "top_p must be between 0.0 and 1.0")
    else if ir_MaxTokens r <? 0 then Err (Errorf "max_tokens cannot be negative")
    else Ok tt
  end.

(** [len(s) >= n && s[:n] == p]. *)
Definition slice_is (s : string) (n : nat) (p : string) : bool :=
  (n <=? slen s)%nat && bool_decide (take_str n s = p).

Definition GetProvider (r : InferRequest) : string * string :=
  let forced := default "" (po_Provider <$> ir_Policy r) in
  if nonempty forced then (forced, ir_Model r)
  else if (0 <? slen (ir_Model r))%nat then
    if slice_is (ir_Model r) 12 "igris-mock-" then ("mock-openai", ir_Model r)
    else if slice_is (ir_Model r) 3 "gpt" then ("openai", ir_Model r)
    else if slice_is (ir_Model r) 6 "claude" then ("anthropic", ir_Model r)
    else ("python-adapter", ir_Model r)
  else ("python-adapter", ir_Model r).

Definition Clone (r : InferRequest) : InferRequest :=
  mkInferRequest (ir_Model r)
    ((λ msg, mkMessage (ms_Role msg) (ms_Content msg)
        ((λ part, mkContentPart (pa_Type part) (pa_Text part)
           ((λ u, mkImageURL (im_URL u) (im_Detail u)) <$> pa_ImageURL part)) <$> ms_ContentParts msg))
       <$> ir_Messages r)
    (ir_Stream r) (ir_MaxTokens r) (ir_Temperature r) (ir_TopP r) (ir_TopK r) (ir_PresencePenalty r)
    (ir_FrequencyPenalty r) (ir_Stop r)
    ((λ p, mkPolicyOverride (po_Provider p) (po_Region p) (po_OptimizeFor p) (po_FallbackEnabled p)
             (po_TimeoutMs p)) <$> ir_Policy r)
    (ir_EnableCaching r) (ir_CacheTTL r) (ir_PreferredRegion r) (ir_SpeculativeMode r) (ir_CouncilMode r)
    (ir_AllowStreamFallback r) (ir_Metadata r) None.

(** ** Responses *)

Record Choice := mkChoice {
  ch_Index : Z;
  ch_Message : option Message;
  ch_Delta : option Message;
  ch_FinishReason : string;
}.

Record UsageStats := mkUsage {
  us_PromptTokens : Z;
  us_CompletionTokens : Z;
  us_TotalTokens : Z;
}.

Record StreamContract := mkStreamContract {
  sc_ExecutionAuthority : string;
  sc_FallbackAllowed : bool;
  sc_ResumeSupported : bool;
  sc_ReplayCondition : string;
  sc_FallbackOptInField : string;
}.

Record ResponseMetadata := mkMetadata {
  md_Provider : string;
  md_Region : string;
  md_ModelUsed : string;
  md_RouteDecision : string;
  md_LatencyMs : Z;
  md_QueueTimeMs : Z;
  md_InferenceTimeMs : Z;
  md_TTFTMs : Z;
  md_CostUSD : f64;
  md_QualityScore : f64;
  md_CacheHit : bool;
  md_CacheKey : string;
  md_OptimizerAction : string;
  md_RewardSignal : f64;
  md_ExplorationBonus : f64;
  md_RequestID : string;
  md_Timestamp : time;
  md_RetryCount : Z;
  md_Fallback : bool;
  md_FallbackReason : string;
  md_Stream : option StreamContract;
}.
#[export] Instance set_md_Provider : Setter md_Provider := _.
#[export] Instance set_md_RouteDecision : Setter md_RouteDecision := _.
#[export] Instance set_md_RequestID : Setter md_RequestID := _.
#[export] Instance set_md_Timestamp : Setter md_Timestamp := _.

Definition f64_zero : f64 := mkF64 false 0 0.
Definition ResponseMetadata_zero : ResponseMetadata :=
  mkMetadata "" "" "" "" 0 0 0 0 f64_zero f64_zero false "" "" f64_zero f64_zero "" zero_time 0 false "" None.

Record InferResponse := mkInferResponse {
  is_ID : string;
  is_Object : string;
  is_Created : Z;
  is_Model : string;
  is_Choices : list Choice;
  is_Usage : option UsageStats;
  is_Metadata : option ResponseMetadata;
  is_StreamID : string;
  is_ExecutionEnvelope : option jv;
  is_ExecutionReceipt : option jv;
  is_Receipt : option (gmap string string);
}.
#[export] Instance set_is_Created : Setter is_Created := _.
#[export] Instance set_is_Choices : Setter is_Choices := _.
#[export] Instance set_is_Usage : Setter is_Usage := _.
#[export] Instance set_is_Metadata : Setter is_Metadata := _.
#[export] Instance set_is_ExecutionEnvelope : Setter is_ExecutionEnvelope := _.
#[export] Instance set_is_ExecutionReceipt : Setter is_ExecutionReceipt := _.
#[export] Instance set_is_Receipt : Setter is_Receipt := _.

(** [now.Unix()]. *)
Definition unix (now : time) : Z := now / Second.

Definition NewInferResponse (now : time) (requestID model : string) : InferResponse :=
  mkInferResponse requestID "chat.completion" (unix now) model [] (Some (mkUsage 0 0 0))
    (Some (ResponseMetadata_zero {{ md_RequestID := requestID; md_Timestamp := now }})) "" None None None.

Definition AddChoice (index : Z) (message : Message) (finishReason : string) (r : InferResponse) : InferResponse :=
  r {{ is_Choices ::= λ l, l ++ [mkChoice index (Some message) None finishReason] }}.

Definition SetUsage (promptTokens completionTokens : Z) (r : InferResponse) : InferResponse :=
  r {{ is_Usage := Some (mkUsage promptTokens completionTokens (wrap_int64 (promptTokens + completionTokens))) }}.

Definition GetContent (r : InferResponse) : string :=
  match is_Choices r with
  | c :: _ => default "" (ms_Content <$> ch_Message c)
  | [] => ""
  end.

Definition IsSuccess (r : InferResponse) : bool :=
  match is_Choices r with
  | c :: _ => bool_decide (is_Some (ch_Message c))
  | [] => false
  end.

Definition member_string (m : option jv) (key : string) : string := default "" (as_string (any_get m key)).

(** The reference of a receipt: its members as JSON texts. *)
Definition BuildReceiptReference (receipt : option jv) : option (gmap string string) :=
  match receipt with
  | Some (JObj (_ :: _)) =>
    let named field := if nonempty (member_string receipt field)
                       then [(field, str_text (member_string receipt field))] else [] in
    let receiptHash := if nonempty (member_string receipt "receipt_hash")
                       then member_string receipt "receipt_hash" else member_string receipt "hash" in
    Some (list_to_map ([("available", bool_text true)]
      ++ mjoin (named <$> ["execution_id"; "transaction_id"; "transaction_hash"; "previous_hash"; "runtime_id"])
      ++ (if nonempty receiptHash then [("receipt_hash", str_text receiptHash)] else [])
      ++ [("signature_present", bool_text (nonempty (member_string receipt "signature")))]))
  | _ => None
  end.

(** ** Errors with a payload *)

Definition ErrRuntimeSecurity : goerror := Sentinel "runtime: security rejection".

Record RuntimeTaskError := mkTaskError {
  te_StatusCode : Z;
  te_Payload : option jv;
  te_Body : string;
}.

Definition task_status_body (e : RuntimeTaskError) : option jv :=
  match any_get (te_Payload e) "status" with Some (JObj l) => Some (JObj l) | _ => None end.

Definition TaskError_Status (e : RuntimeTaskError) : string :=
  match task_status_body e with
  | Some body => member_string (Some body) "status"
  | None => member_string (te_Payload e) "status"
  end.

Definition TaskError_Reason (e : RuntimeTaskError) : string :=
  let reason := member_string (task_status_body e) "reason" in
  if nonempty reason then reason else member_string (te_Payload e) "reason".

Definition TaskError_Error (e : RuntimeTaskError) : string :=
  let base := "runtime_client: runtime task returned status " +:+ itoa (te_StatusCode e) in
  if nonempty (TaskError_Reason e) then base +:+ ": " +:+ TaskError_Reason e
  else if nonempty (TaskError_Status e) then base +:+ ": " +:+ TaskError_Status e
  else if nonempty (te_Body e) then base +:+ ": " +:+ te_Body e
  else base.

Record RuntimeStreamError := mkStreamError {
  se_StatusCode : Z;
  se_Payload : option jv;
  se_Body : string;
}.

Definition stream_error_body (e : RuntimeStreamError) : option jv :=
  match any_get (se_Payload e) "error" with Some (JObj l) => Some (JObj l) | _ => None end.
Definition StreamError_Type (e : RuntimeStreamError) : string := member_string (stream_error_body e) "type".
Definition StreamError_Message (e : RuntimeStreamError) : string := member_string (stream_error_body e) "message".

Definition StreamError_Error (e : RuntimeStreamError) : string :=
  let base := "runtime_client: streaming runtime returned status " +:+ itoa (se_StatusCode e) in
  if nonempty (StreamError_Message e) then base +:+ ": " +:+ StreamError_Message e
  else if nonempty (se_Body e) then base +:+ ": " +:+ se_Body e
  else base.

(** ** Facts *)

(** The value lies between two integers. *)
Definition between (lo hi : Z) (x : f64) : Prop :=
  let '(a, b) := signed x in lo * b ≤ a ≤ hi * b.

Definition part_ok (p : ContentPart) : Prop :=
  (pa_Type p = "text" ∧ pa_Text p ≠ "") ∨
  (pa_Type p = "image_url" ∧ ∃ u, pa_ImageURL p = Some u ∧ im_URL u ≠ "").

Definition message_ok (m : Message) : Prop :=
  (ms_Content m ≠ "" ∨ ms_ContentParts m ≠ []) ∧ (ms_Role m ∈ ["system"; "user"; "assistant"]) ∧
  Forall part_ok (ms_ContentParts m).

Record request_ok (r : InferRequest) : Prop := {
  rq_model : ir_Model r ≠ "";
  rq_messages : ir_Messages r ≠ [];
  rq_each : Forall message_ok (ir_Messages r);
  rq_temperature : between 0 2 (ir_Temperature r);
  rq_top_p : between 0 1 (ir_TopP r);
  rq_max_tokens : 0 ≤ ir_MaxTokens r;
}.

Lemma validate_part_ok i j p : validate_part i j p = Ok tt ↔ part_ok p.
Proof.
  unfold validate_part, part_ok. destruct p as [ty tx u]; cbn [pa_Type pa_Text pa_ImageURL].
  repeat case_bool_decide; simplify_eq; try naive_solver.
  destruct u as [u|]; [case_bool_decide|]; naive_solver.
Qed.

Lemma res_forMi_Forall {A} (f : nat → A → res ()) (P : A → Prop) i l :
  (∀ j x, f j x = Ok tt ↔ P x) → res_forMi f i l = Ok tt ↔ Forall P l.
Proof.
  intros Hf. rewrite res_forMi_ok, Forall_lookup. by setoid_rewrite Hf.
Qed.

Lemma validate_message_ok i m : validate_message i m = Ok tt ↔ message_ok m.
Proof.
  unfold validate_message, message_ok. rewrite <-(res_forMi_Forall (validate_part i) part_ok 0) by apply validate_part_ok.
  destruct m as [role content parts]; cbn [ms_Role ms_Content ms_ContentParts].
  destruct parts; repeat case_bool_decide; cbn [andb negb]; naive_solver.
Qed.

Lemma outside_iff x lo hi : f64_lt x (f64_int lo) || f64_lt (f64_int hi) x = false ↔ between lo hi x.
Proof.
  unfold f64_lt, between. assert (∀ z, signed (f64_int z) = (z, 1)) as Hint.
  { intros z. unfold signed, magnitude, f64_int. cbn. destruct (Z.ltb_spec z 0); f_equal; lia. }
  rewrite !Hint. destruct (signed x) as [a b]. rewrite orb_false_iff, !Z.ltb_ge, !Z.mul_1_r. done.
Qed.

(** An inference request passes validation exactly when it names a model,
    has messages, each with a known role and content whose parts are non-empty
    texts or image references, and its parameters lie in their ranges. *)
Theorem infer_request_validation_exact r : Validate r = Ok tt ↔ request_ok r.
Proof.
  unfold Validate. pose proof (res_forMi_Forall validate_message message_ok 0 (ir_Messages r) validate_message_ok) as Hm.
  pose proof (outside_iff (ir_Temperature r) 0 2) as Ht. pose proof (outside_iff (ir_TopP r) 0 1) as Hp.
  case_bool_decide as Hmod; [split; [done|by intros []]|].
  case_bool_decide as Hlen; [split; [done|]; intros [_ Hne]; by destruct (ir_Messages r)|].
  destruct (res_forMi _ _ _) as [[]|]; [|split; [done|]; intros []; naive_solver].
  destruct (f64_lt (ir_Temperature r) _ || _); [split; [done|]; intros []; naive_solver|].
  destruct (f64_lt (ir_TopP r) _ || _); [split; [done|]; intros []; naive_solver|].
  destruct (Z.ltb_spec (ir_MaxTokens r) 0); [split; [done|]; intros []; lia|].
  split; [|done]. intros _. split; [done|by intros Hn; rewrite Hn in Hlen|naive_solver..|done].
Qed.

Lemma take_str_length n s : slen (take_str n s) = Nat.min n (slen s).
Proof. revert s. induction n as [|n IH]; intros [|a s]; cbn; [done..|]. f_equal. apply IH. Qed.

(** A mock model is never recognised: the compared prefix has eleven bytes and
    the slice twelve. *)
Theorem mock_provider_unreachable r : po_Provider <$> ir_Policy r ≠ Some "mock-openai" → (GetProvider r).1 ≠ "mock-openai".
Proof.
  intros Hp. unfold GetProvider.
  assert (slice_is (ir_Model r) 12 "igris-mock-" = false) as ->.
  { unfold slice_is. destruct (Nat.leb_spec 12 (slen (ir_Model r))); [|done]. apply bool_decide_false. intros Heq.
    apply (f_equal slen) in Heq. rewrite take_str_length, Nat.min_l in Heq by done. done. }
  destruct (po_Provider <$> ir_Policy r) as [p|]; unfold default, id; [|by repeat case_match].
  destruct (nonempty p); [|by repeat case_match]. cbn. congruence.
Qed.

(** A clone keeps everything but the provider configuration. *)
Theorem clone_drops_provider_config r : Clone r = r {{ ir_ProviderConfig := None }}.
Proof.
  destruct r as [m msgs st mt te tp tk pp fp stop pol ec ct pr sm cm af md pc]. unfold Clone. cbn.
  unfold set_ir_ProviderConfig, constant. cbn. f_equal.
  - rewrite <-(list_fmap_id msgs) at 2. apply list_fmap_ext. intros i [role content parts] _. cbn. f_equal.
    rewrite <-(list_fmap_id parts) at 2. apply list_fmap_ext. intros j [ty tx u] _. cbn. f_equal. by destruct u as [[]|].
  - by destruct pol as [[]|].
Qed.
