(* ===== verification/Ext.v ===== *)
(** * What the coordinator calls and this repository does not contain

    [Ext] collects the functions of third-party packages, of the process
    environment and of the cryptographic primitives that the modelled code
    calls; the development's definitions take an instance as an implicit
    argument, so every theorem holds for all of them.  [ExtLaws] states the
    documented behaviour a few theorems rely on.  [demo_ext] is a concrete
    instance on which the witnesses are evaluated. *)

From S2P Require Import Prelude GoStrings Json Float64.
Open Scope Z_scope.

(** The parts of a parsed URL the code reads or writes. *)
Record URL := mkURL {
  url_Scheme : string;
  url_Host : string;
  url_has_User : bool;
  url_Path : string;
  url_RawQuery : string;
  url_Fragment : string;
}.

Class Ext : Type := {
  (** github.com/google/uuid *)
  uuid_String : uuid → string;
  uuid_Parse : string → option uuid;
  (** [unicode.IsPrint] beyond ASCII, which [strconv.Quote] consults. *)
  unicode_IsPrint : Z → bool;
  (** The key Go's (unordered) map iteration yields first. *)
  map_first_key : list string → string;
  (** crypto/sha256 and crypto/ed25519 over byte strings. *)
  sha256 : string → string;
  ed25519_Sign : string → string → string;
  ed25519_Public : string → string;
  ed25519_Verify : string → string → string → bool;
  (** [net/url]: parsing and printing of URLs. *)
  url_Parse : string → option URL;
  url_String : URL → string;
  url_EscapedPath : URL → string;
  url_Hostname : URL → string;
  (** [os.Getenv]. *)
  getenv : string → string;
  (** The text in which PostgreSQL returns a JSONB column's value. *)
  jsonb_text : string → string;
}.

Class ExtLaws `{Ext} : Prop := {
  uuid_Parse_String u : (u < 2 ^ 128)%N → uuid_Parse (uuid_String u) = Some u;
  map_first_key_in l : l ≠ [] → map_first_key l ∈ l;
  sha256_length s : slen (sha256 s) = 32%nat;
  ed25519_Verify_Sign key msg :
    ed25519_Verify (ed25519_Public key) msg (ed25519_Sign key msg) = true;
}.

(** A JSON value without structure that PostgreSQL stores as it is. *)
Definition plain_value (v : jv) : bool :=
  match v with JStr _ | JBool _ | JNull => true | _ => false end.

(** The members of an object, without the text they were read from. *)
Definition member_values (l : list (string * jnode)) : list (string * jv) := (λ kn, (kn.1, kn.2.2)) <$> l.

(** JSONB keeps the members of an object but not their order (a text it does
    not accept is a failing statement). *)
Class JsonbLaws `{Ext} : Prop := {
  jsonb_members s raw l : json_parse s = Some (raw, JObj l) → NoDup l.*1 → Forall (λ kn, plain_value kn.2.2 = true) l →
    ∃ raw' l', json_parse (jsonb_text s) = Some (raw', JObj l') ∧ member_values l' ≡ₚ member_values l;
}.

(** internal/env.go: the canonical variable, else the legacy one. *)
Definition EnvOrLegacy `{Ext} (overtureKey legacyKey : string) : string :=
  if nonempty (getenv overtureKey) then getenv overtureKey
  else if nonempty (getenv legacyKey) then getenv legacyKey
  else "".

Definition ErrInvalidRuntimeEndpoint : goerror := Sentinel "invalid runtime endpoint".

(** [strings.TrimRight(s, "/")]. *)
Fixpoint trim_right_slash (s : string) : string :=
  match s with
  | "" => ""
  | String a s' =>
    let r := trim_right_slash s' in
    if bool_decide (r = "") && bool_decide (a = "/"%char) then "" else String a r
  end.

(** internal/runtime_endpoint.go. *)
Definition NormalizeHTTPRuntimeEndpoint `{Ext} (raw : string) : res string :=
  let endpoint := TrimSpace raw in
  if negb (nonempty endpoint) then Err ErrInvalidRuntimeEndpoint
  else match url_Parse endpoint with
  | None => Err ErrInvalidRuntimeEndpoint
  | Some u =>
    let scheme := ToLower (url_Scheme u) in
    if negb (bool_decide (scheme = "http")) && negb (bool_decide (scheme = "https"))
    then Err ErrInvalidRuntimeEndpoint
    else if negb (nonempty (url_Host u)) || url_has_User u
            || nonempty (url_RawQuery u) || nonempty (url_Fragment u)
    then Err ErrInvalidRuntimeEndpoint
    else Ok (url_String (mkURL scheme (url_Host u) (url_has_User u)
                           (trim_right_slash (url_Path u)) (url_RawQuery u) (url_Fragment u)))
  end.

(** hex of the SHA-256 digest, [fmt.Sprintf("%x", sum[:])]. *)
Definition sha256_hex `{Ext} (s : string) : string := hex_encode (sha256 s).

(** ** HTTP *)

(** A request gets no answer, or a status and a body. *)
Record request := mkRequest {
  rq_url : string;
  rq_headers : list (string * string);
  rq_body : string;
}.

Definition transport : Type := request → option (Z * string).

(** ** Decoding and printing [interface{}] and UUID values *)

(** [json.Marshal] of a decoded [interface{}]: maps print their keys in order,
    a repeated key once with its last value. *)
Fixpoint any_text `{Ext} (v : jv) : string :=
  match v with
  | JNull => "null"
  | JBool b => bool_text b
  | JNum l => json_float l
  | JStr s => str_text s
  | JArr l => arr_text (List.map (λ n, any_text n.2) l)
  | JObj l =>
    map_text (foldl (λ m (kv : string * string), <[kv.1 := kv.2]> m) ∅
                (List.map (λ kv, (kv.1, any_text kv.2.2)) l))
  end.

Definition opt_any_text `{Ext} (v : option jv) : string :=
  match v with Some v => any_text v | None => "null" end.

(** uuid.UUID is a [TextUnmarshaler]. *)
Definition dec_uuid `{Ext} : dec uuid :=
  λ n old, match n.2 with
           | JStr s => match uuid_Parse s with Some u => (u, true) | None => (old, false) end
           | JNull => (old, true)
           | _ => (old, false)
           end.

(** ** A concrete instance *)

(** A 32-byte stand-in for the digest: the text's first 32 bytes, padded. *)
Definition demo_digest (s : string) : string :=
  take_str 32 (s +:+ "00000000000000000000000000000000").

(** URLs of the form scheme://host[/path]. *)
Definition demo_url_Parse (s : string) : option URL :=
  let scheme := if HasPrefix s "https://" then "https" else if HasPrefix s "http://" then "http" else "" in
  let rest := TrimPrefix (TrimPrefix s "https://") "http://" in
  Some (mkURL scheme (default "" (head (Split rest "/"))) false "" "" "").

(** The environment is an argument. *)
Definition demo_ext_env (env : string → string) : Ext := {|
  uuid_String u := pretty u;
  uuid_Parse s := Z.to_N <$> parse_uint 128 s;
  unicode_IsPrint r := true;
  map_first_key l := default "" (head l);
  sha256 := demo_digest;
  ed25519_Sign key msg := key +:+ msg;
  ed25519_Public key := key;
  ed25519_Verify key msg sig := bool_decide (sig = key +:+ msg);
  url_Parse := demo_url_Parse;
  url_String u := url_Scheme u +:+ "://" +:+ url_Host u;
  url_EscapedPath u := url_Path u;
  url_Hostname u := url_Host u;
  getenv := env;
  jsonb_text s := s;
|}.

Definition demo_ext : Ext := demo_ext_env (λ _, "").

Lemma slen_take_str n s : slen (take_str n s) = Nat.min n (slen s).
Proof.
  revert s. induction n as [|n IH]; intros s; [by destruct s|].
  destruct s as [|a s]; [done|]. unfold slen in *. cbn. by rewrite IH.
Qed.

Lemma demo_ext_laws env : @ExtLaws (demo_ext_env env).
Proof.
  split; cbn [uuid_Parse uuid_String map_first_key sha256 ed25519_Verify ed25519_Public
              ed25519_Sign demo_ext_env].
  - intros u Hu. rewrite parse_uint_pretty by lia. cbn. by rewrite N2Z.id.
  - intros l Hl. destruct l; [done|]. cbn. set_solver.
  - intros s. unfold demo_digest. rewrite slen_take_str, slen_app. 
    change (slen "00000000000000000000000000000000") with 32%nat. lia.
  - intros key msg. by rewrite bool_decide_true.
Qed.

Lemma demo_jsonb_laws env : @JsonbLaws (demo_ext_env env).
Proof. split. intros s raw l Hs _ _. by exists raw, l. Qed.
