(* ===== verification/CanonicalJson.v ===== *)
(** * Canonical JSON

    internal/canonicaljson/canonicaljson.go: the bytes contracts and evidence
    are hashed over.  A decoded [any] keeps number literals as they were written
    ([json.Number]); a [map[string]any] is the list of its members in key order,
    the order in which [encoding/json] prints them.  A JSON [null] read as an
    object is Go's nil map, which reads like the empty one. *)

From S2P Require Import Prelude GoStrings Json JsonFacts JsonRoundTrip Ext.
Open Scope Z_scope.

(** ** Values *)

Inductive any : Type :=
| ANil
| ABool (b : bool)
| ANumber (lit : string)
| AString (s : string)
| AList (items : list any)
| AMap (members : list (string * any)).

Abbreviation object := (list (string * any)).

(** [m[k] = v] on a map kept in key order. *)
Fixpoint put {A} (k : string) (v : A) (m : list (string * A)) : list (string * A) :=
  match m with
  | [] => [(k, v)]
  | (k', v') :: m' =>
    if decide (k = k') then (k, v) :: m'
    else if decide (String.le k k') then (k, v) :: m
    else (k', v') :: put k v m'
  end.

(** [m[k]]. *)
Fixpoint get {A} (k : string) (m : list (string * A)) : option A :=
  match m with
  | [] => None
  | (k', v) :: m => if decide (k = k') then Some v else get k m
  end.

(** A copy of a map without the given keys. *)
Definition without {A} (ks : list string) (m : list (string * A)) : list (string * A) := filter (λ kv, kv.1 ∉ ks) m.

(** What [encoding/json] decodes a parsed value to, with [UseNumber]. *)
Fixpoint any_of (v : jv) : any :=
  match v with
  | JNull => ANil
  | JBool b => ABool b
  | JNum l => ANumber l
  | JStr s => AString s
  | JArr l => AList (List.map (λ n, any_of n.2) l)
  | JObj l => AMap (foldl (λ m kv, put kv.1 kv.2 m) [] (List.map (λ kv, (kv.1, any_of kv.2.2)) l))
  end.

(** ** Encoding *)

(** One rune of a string literal with HTML escaping off. *)
Definition plain_rune (p : Z * string) : string :=
  if (p.1 =? zb "<") || (p.1 =? zb ">") || (p.1 =? zb "&") then p.2 else quote_rune p.
Definition plain_text (s : string) : string := String dq (concat_strings (plain_rune <$> runes s) +:+ str1 dq).

Fixpoint any_json (v : any) : string :=
  match v with
  | ANil => "null"
  | ABool b => bool_text b
  | ANumber lit => lit
  | AString s => plain_text s
  | AList l => arr_text (List.map any_json l)
  | AMap m => pairs_text (List.map (λ kv, (plain_text kv.1, any_json kv.2)) m)
  end.

(** The encoder does not fail on values it decoded. *)
Definition Encode (m : object) : string := any_json (AMap m).

(** [Decoder.More] at the top level: something follows, and it is no closing
    bracket. *)
Definition More (rest : string) : bool :=
  match skip_ws rest with
  | "" => false
  | String c _ => negb (bool_decide (c = close_bracket)) && negb (bool_decide (c = close_brace))
  end.

Definition DecodeObjectPreserving (data : string) : res object :=
  let s := skip_ws data in
  match parse_val (2 * slen s + 2) max_depth s with
  | None => Err (Errorf "json: invalid syntax")
  | Some (v, rest) =>
    match any_of v with
    | AMap m => if More rest then Err (Errorf "unexpected trailing content after JSON object") else Ok m
    | ANil => if More rest then Err (Errorf "unexpected trailing content after JSON object") else Ok []
    | _ => Err (Errorf "json: cannot unmarshal into Go value of type map[string]interface {}")
    end
  end.

Section Hash.
Context `{Ext}.

Definition SHA256Hex (data : string) : string := sha256_hex data.

Definition ContractHash (contract : object) : string := SHA256Hex (Encode (without ["contract_hash"] contract)).
End Hash.

(** ** Maps in key order *)

Definition key_lt (k k' : string) : Prop := String.le k k' ∧ k ≠ k'.

#[export] Instance key_lt_trans : Transitive key_lt.
Proof.
  intros a b c [H1 H2] [H3 H4]. split; [by etrans|]. intros ->. apply H2. by apply (anti_symm String.le).
Qed.

Lemma key_lt_total k k' : k ≠ k' → ¬ String.le k k' → key_lt k' k.
Proof. intros Hne Hle. split; [|done]. by destruct (String.le_total k k'). Qed.

Definition sorted {A} (m : list (string * A)) : Prop := StronglySorted key_lt m.*1.

Lemma sorted_cons {A} k (v : A) m : sorted ((k, v) :: m) ↔ Forall (λ kv, key_lt k kv.1) m ∧ sorted m.
Proof.
  unfold sorted. cbn [fmap list_fmap fst]. split.
  - intros [Hm Hk]%StronglySorted_inv. by rewrite Forall_fmap in Hk.
  - intros [Hk Hm]. constructor; [done|]. by rewrite Forall_fmap.
Qed.

Lemma put_keys {A} (P : string * A → Prop) k v m : P (k, v) → Forall P m → Forall P (put k v m).
Proof.
  intros Hk. induction 1 as [|[k' v'] m Hx Hm IH]; cbn; [by repeat constructor|].
  destruct (decide (k = k')); [by constructor|]. destruct (decide (String.le k k')); by repeat constructor.
Qed.

Lemma put_sorted {A} k (v : A) m : sorted m → sorted (put k v m).
Proof.
  induction m as [|[k' v'] m IH]; [intros _; apply sorted_cons; by repeat constructor|].
  intros [Hk Hm]%sorted_cons. cbn. destruct (decide (k = k')) as [->|Hne]; [by apply sorted_cons|].
  destruct (decide (String.le k k')) as [Hle|Hle].
  - apply sorted_cons. split; [|by apply sorted_cons]. constructor; [done|]. eapply Forall_impl; [exact Hk|]. intros kv Hkv.
    by trans k'.
  - apply sorted_cons. split; [|by apply IH]. apply put_keys; [by apply key_lt_total|done].
Qed.

Lemma put_last {A} k (v : A) m : Forall (λ kv, key_lt kv.1 k) m → put k v m = m ++ [(k, v)].
Proof.
  induction 1 as [|[k' v'] m [Hle Hne] Hm IH]; [done|]. cbn in *. rewrite decide_False by done.
  rewrite decide_False; [by rewrite IH|]. intros Hle'. apply Hne. by apply (anti_symm String.le).
Qed.

Lemma foldl_put {A} (l acc : list (string * A)) : sorted (acc ++ l) → foldl (λ m kv, put kv.1 kv.2 m) acc l = acc ++ l.
Proof.
  revert acc. induction l as [|[k v] l IH]; intros acc Hs; [by rewrite app_nil_r|]. cbn [foldl fst snd].
  rewrite put_last.
  - rewrite IH; rewrite <-app_assoc; done.
  - unfold sorted in Hs. rewrite fmap_app in Hs. apply Forall_forall. intros kv Hkv.
    eapply StronglySorted_app_1_elem_of; [exact Hs| |]; [by apply list_elem_of_fmap_2|]. cbn. apply list_elem_of_here.
Qed.

(** ** What is printed is read back *)

Lemma str_body_plain_rune p t : rune_ok p → str_body (plain_rune p +:+ t) = prepend (encode_rune p.1) (str_body t).
Proof.
  intros Hp. unfold plain_rune. destruct (_ || _) eqn:Hc; [|by apply str_body_quote].
  change (zb "<"%char) with 60 in Hc. change (zb ">"%char) with 62 in Hc. change (zb "&"%char) with 38 in Hc.
  destruct Hp as [[Hp _]|(Hp2 & _ & [Hlow|Hhigh])]; [rewrite Hp in Hc; done| |].
  - rewrite Hp2. unfold encode_rune. rewrite (proj2 (in_range_true 0 0x10FFFF _)) by lia.
    replace (in_range 0xD800 0xDFFF p.1) with false by (symmetry; apply not_true_iff_false; rewrite in_range_true; lia).
    cbn [negb andb]. rewrite (proj2 (Z.ltb_lt _ _)) by lia. apply str_body_plain; rewrite zb_bz by lia; change (zb dq) with 34 in *; change (zb bsl) with 92 in *; lia.
  - rewrite <-Hp2. by apply str_body_high.
Qed.

Lemma plain_text_body s t : str_body (concat_strings (plain_rune <$> runes s) +:+ String dq t) = Some (sanitize_utf8 s, t).
Proof.
  unfold sanitize_utf8. pose proof (runes_ok s) as Hok. induction (runes s) as [|p l IH]; [done|]. apply Forall_cons in Hok as [Hp Hl].
  change (concat_strings (plain_rune <$> p :: l)) with (plain_rune p +:+ concat_strings (plain_rune <$> l)).
  rewrite <-str_app_assoc, str_body_plain_rune by done. by rewrite (IH Hl).
Qed.

Lemma plain_text_reads k : key_reads (plain_text k) (sanitize_utf8 k).
Proof.
  split; [by eexists|]. intros t. unfold plain_text. rewrite str_app_cons, <-str_app_assoc. change (str1 dq +:+ ?u) with (String dq u).
  unfold parse_string. rewrite bool_decide_true, plain_text_body by done. by rewrite sanitize_idem.
Qed.

Lemma prints_plain d s : prints d (plain_text s) (JStr (sanitize_utf8 s)).
Proof.
  apply prints_intro; [done|]. intros n depth t Hn Hd Ht. cbn [parse_val].
  assert (head_is (plain_text s +:+ t) dq = true) as -> by done. by rewrite (proj2 (plain_text_reads s)).
Qed.

(** A predicate on all elements that recursion through lists may use. *)
Definition all {A} (P : A → Prop) : list A → Prop := fix go l := match l with [] => True | x :: l => P x ∧ go l end.

Lemma all_Forall {A} (P : A → Prop) l : all P l ↔ Forall P l.
Proof. induction l as [|x l IH]; cbn; [done|]. by rewrite IH, Forall_cons. Qed.

(** Values that printing and reading leave alone, nested at most [d] deep. *)
Fixpoint proper (d : Z) (v : any) : Prop :=
  match v with
  | ANumber lit => is_number_literal lit = true
  | AString s => sanitize_utf8 s = s
  | AList l => 0 < d ∧ all (proper (d - 1)) l
  | AMap m => 0 < d ∧ sorted m ∧ all (λ kv, sanitize_utf8 kv.1 = kv.1 ∧ proper (d - 1) kv.2) m
  | _ => True
  end.

Lemma any_induction (P : any → Prop) :
  P ANil → (∀ b, P (ABool b)) → (∀ l, P (ANumber l)) → (∀ s, P (AString s)) →
  (∀ l, Forall P l → P (AList l)) → (∀ m, Forall (λ kv, P kv.2) m → P (AMap m)) → ∀ v, P v.
Proof.
  intros Hn Hb Hnum Hs Hl Hm. fix IH 1. intros [|b|l|s|l|m]; [done|apply Hb|apply Hnum|apply Hs|apply Hl|apply Hm].
  - induction l as [|v l IHl]; constructor; [apply IH|exact IHl].
  - induction m as [|[k v] m IHm]; constructor; [apply IH|exact IHm].
Qed.

Lemma any_of_arr l (vs : list jv) : length l = length vs → any_of (JArr (zip l vs)) = AList (any_of <$> vs).
Proof.
  intros Hl. cbn [any_of]. f_equal. revert vs Hl. induction l as [|x l IH]; intros [|v vs] Hl; try done. cbn. f_equal. apply IH. cbn in Hl. lia.
Qed.

(** A proper value is printed, and what is read is the value. *)
Lemma any_prints v d : proper d v → 0 ≤ d → ∃ j, prints d (any_json v) j ∧ any_of j = v.
Proof.
  revert d. induction v as [|b|l|s|l IH|m IH] using any_induction; intros d Hp Hd; cbn [any_json proper] in *.
  - exists JNull. split; [apply prints_null|done].
  - exists (JBool b). split; [apply prints_bool|done].
  - exists (JNum l). split; [by apply prints_literal|done].
  - exists (JStr (sanitize_utf8 s)). split; [apply prints_plain|]. cbn. by rewrite Hp.
  - destruct Hp as [Hd' Hl%all_Forall]. assert (∃ vs, Forall2 (prints (d - 1)) (any_json <$> l) vs ∧ any_of <$> vs = l) as (vs & Hvs & Hl').
    { clear Hd. induction l as [|x l IHl]; [by exists []|]. apply Forall_cons in IH as [Hx IH]. apply Forall_cons in Hl as [Hpx Hl].
      destruct (Hx (d - 1)) as (j & Hj & Hjx); [done|lia|]. destruct (IHl IH Hl) as (vs & Hvs & Hl'). exists (j :: vs).
      split; [by constructor|]. cbn. by rewrite Hjx, Hl'. }
    exists (JArr (zip (any_json <$> l) vs)). split.
    + replace d with (d - 1 + 1) by lia. apply prints_arr; [lia|done].
    + rewrite any_of_arr by (by apply Forall2_length in Hvs). by rewrite Hl'.
  - destruct Hp as (Hd' & Hs & Hm%all_Forall).
    assert (∃ ms, Forall2 (pair_reads (d - 1)) ((λ kv, (plain_text kv.1, any_json kv.2)) <$> m) ms ∧
      List.map (λ kv : string * jnode, (kv.1, any_of kv.2.2)) ms = m) as (ms & Hms & Hm').
    { clear Hd Hs. induction m as [|[k x] m IHm]; [by exists []|]. apply Forall_cons in IH as [Hx IH]. apply Forall_cons in Hm as [[Hk Hpx] Hm].
      destruct (Hx (d - 1)) as (j & Hj & Hjx); [done|lia|]. destruct (IHm IH Hm) as (ms & Hms & Hm').
      exists ((k, (any_json x, j)) :: ms). split; [|cbn in *; by rewrite Hjx, Hm'].
      constructor; [|done]. split_and!; [|done..]. cbn in *. rewrite <-Hk at 2. apply plain_text_reads. }
    exists (JObj ms). split; [replace d with (d - 1 + 1) by lia; apply prints_pairs; [lia|done]|].
    cbn [any_of]. rewrite Hm'. by rewrite foldl_put.
Qed.

(** ** What is read is proper *)

Lemma span_digits_self s d r : span_digits s = (d, r) →
  ∀ t, match t with "" => True | String a _ => is_digit a = false end → span_digits (d +:+ t) = (d, t).
Proof.
  revert d r. induction s as [|a s IH]; intros d r; cbn [span_digits].
  - intros [= <- _] t Ht. change ("" +:+ t) with t. destruct t as [|c t]; [done|]. cbn. by rewrite Ht.
  - destruct (is_digit a) eqn:Ha; [|intros [= <- _] t Ht; change ("" +:+ t) with t; destruct t as [|c t]; [done|]; cbn; by rewrite Ht].
    destruct (span_digits s) as [d' r'] eqn:Hs. intros [= <- <-] t Ht. rewrite str_app_cons. cbn [span_digits].
    by rewrite Ha, (IH _ _ eq_refl t Ht).
Qed.

(** Text that continues no run of digits. *)
Definition stop (t : string) : Prop := match t with "" => True | String a _ => is_digit a = false end.

Lemma num_int_self s i r t : num_int s = Some (i, r) → stop t → num_int (i +:+ t) = Some (i, t).
Proof.
  unfold num_int. destruct s as [|a s]; [done|]. case_bool_decide as Ha.
  - intros [= <- _] _. by subst a.
  - destruct (is_digit a) eqn:Hd; [|done]. intros [= Hs] Ht. pose proof (span_digits_self (String a s) _ _ Hs t Ht) as Hi.
    cbn [span_digits] in Hs. rewrite Hd in Hs. destruct (span_digits s) as [d r']. injection Hs as <- _.
    rewrite str_app_cons in *. by rewrite bool_decide_false, Hd, Hi by done.
Qed.

Lemma num_frac_self s f r t : num_frac s = Some (f, r) → stop t → HasPrefix t "." = false → num_frac (f +:+ t) = Some (f, t) ∧ stop f.
Proof.
  intros Hf Ht Hdot. assert (f = "" ∨ ∃ a d s', f = String "." (String a d) ∧ span_digits s' = (String a d, r)) as Hcase.
  { unfold num_frac in Hf. repeat case_match; simplify_eq; eauto 10. }
  destruct Hcase as [->|(a & d & s' & -> & Hs)].
  - split; [|done]. change ("" +:+ t) with t. unfold num_frac. destruct t as [|c t]; [done|].
    destruct (decide (c = "."%char)) as [->|Hc]; [by destruct t|]. by destruct c as [[] [] [] [] [] [] [] []].
  - split; [|done]. rewrite str_app_cons. unfold num_frac. by rewrite (span_digits_self _ _ _ Hs t Ht).
Qed.

Lemma num_exp_self s e r : num_exp s = Some (e, r) → num_exp e = Some (e, "") ∧ stop e ∧ HasPrefix e "." = false.
Proof.
  destruct s as [|c s]; [by intros [= <- _]|]. cbn [num_exp]. destruct (_ || _) eqn:Hc; [|by intros [= <- _]].
  assert (is_digit c = false ∧ c ≠ "."%char) as [Hd Hdot].
  { apply orb_true_iff in Hc as [->%bool_decide_eq_true| ->%bool_decide_eq_true]; done. }
  assert (∀ s' d r', span_digits s' = (d, r') → span_digits d = (d, "")) as Hself.
  { intros s' d r' Hs. pose proof (span_digits_self _ _ _ Hs "" I) as Hd'. by rewrite str_app_nil_r in Hd'. }
  destruct (match s with "" => ("", s) | String c0 t => _ end) as [sg s''] eqn:Hsg.
  destruct (span_digits s'') as [[|a d] r'] eqn:Hs; [done|]. intros [= <- <-].
  assert (is_digit a = true) as Ha.
  { destruct s'' as [|b s'']; [done|]. cbn in Hs. destruct (is_digit b) eqn:Hb; [|done]. destruct (span_digits s''). by injection Hs as <- _. }
  apply Hself in Hs. assert (bool_decide (a = "+"%char) || bool_decide (a = "-"%char) = false) as Hsign.
  { apply orb_false_iff. rewrite !bool_decide_eq_false. split; intros ->; done. }
  split_and!; [|done|].
  - cbn [num_exp]. rewrite Hc. destruct s as [|c0 t].
    + injection Hsg as <- _. change ("" +:+ ?x) with x. cbv iota. by rewrite Hsign, Hs.
    + destruct (bool_decide (c0 = "+"%char) || _) eqn:Hc0.
      * injection Hsg as <- _. unfold str1. rewrite str_app_cons. change ("" +:+ ?x) with x. cbv iota. by rewrite Hc0, Hs.
      * injection Hsg as <- _. change ("" +:+ ?x) with x. cbv iota. by rewrite Hsign, Hs.
  - cbn [HasPrefix]. by rewrite bool_decide_false by (by intros <-).
Qed.

Lemma parse_number_literal s x r : parse_number s = Some (x, r) → is_number_literal x = true.
Proof.
  unfold parse_number. destruct (match s with String "-" t => ("-", t) | _ => ("", s) end) as [sg s0] eqn:Hsg.
  destruct (num_int s0) as [[i s1]|] eqn:Hi; [|done]. cbn [mbind option_bind].
  destruct (num_frac s1) as [[f s2]|] eqn:Hf; [|done]. cbn [mbind option_bind].
  destruct (num_exp s2) as [[e s3]|] eqn:He; [|done]. cbn [mbind option_bind]. intros [= <- _].
  destruct (num_exp_self _ _ _ He) as (He' & Hstop & Hdot). destruct (num_frac_self _ _ _ _ Hf Hstop Hdot) as [Hf' Hstopf].
  assert (stop (f +:+ e)) as Hfe by (by destruct f).
  pose proof (num_int_self _ _ _ _ Hi Hfe) as Hi'.
  assert (number_parts sg (i +:+ f +:+ e) = Some (sg +:+ i +:+ f +:+ e, "")) as Hn.
  { unfold number_parts. rewrite Hi'. cbn [mbind option_bind]. rewrite Hf'. cbn [mbind option_bind]. by rewrite He'. }
  unfold is_number_literal. assert (sg = "" ∨ sg = "-") as [-> | ->] by (repeat case_match; simplify_eq; eauto).
  - change ("" +:+ (i +:+ f +:+ e)) with (i +:+ f +:+ e) in *. destruct (i +:+ f +:+ e) as [|a u]; [done|].
    rewrite parse_number_plain; [by rewrite Hn|]. intros ->. done.
  - rewrite str_app_cons. change ("" +:+ ?u) with u. by rewrite parse_number_sign, Hn.
Qed.

(** Parsed values, nested at most [d] deep. *)
Fixpoint parsed (d : Z) (v : jv) : Prop :=
  match v with
  | JNum l => is_number_literal l = true
  | JStr s => sanitize_utf8 s = s
  | JArr l => 0 < d ∧ all (λ n, parsed (d - 1) n.2) l
  | JObj l => 0 < d ∧ all (λ kv, sanitize_utf8 kv.1 = kv.1 ∧ parsed (d - 1) kv.2.2) l
  | _ => True
  end.

Lemma parse_string_sane s x r : parse_string s = Some (x, r) → sanitize_utf8 x = x.
Proof. unfold parse_string. destruct s as [|a s]; [done|]. repeat case_match; try done. intros [= <- _]. apply sanitize_idem. Qed.

Lemma parse_parsed n :
  (∀ d s v r, parse_val n d s = Some (v, r) → parsed d v) ∧
  (∀ d s l r, parse_items n d s = Some (l, r) → all (λ x, parsed d x.2) l) ∧
  (∀ d s l r, parse_members n d s = Some (l, r) → all (λ kv, sanitize_utf8 kv.1 = kv.1 ∧ parsed d kv.2.2) l).
Proof.
  induction n as [|n (IHv & IHi & IHm)]; [done|]. split_and!; intros d s v r; cbn [parse_val parse_items parse_members]; cbv zeta.
  - destruct (head_is s dq).
    { destruct (parse_string s) as [[x r']|] eqn:Hs; [|done]. cbn. intros [= <- _]. by eapply parse_string_sane. }
    destruct (head_is s open_brace); [|destruct (head_is s open_bracket)].
    + destruct (d <=? 0) eqn:Hd; [done|]. destruct (head_is _ close_brace); [intros [= <- _]; split; [lia|done]|].
      destruct (parse_members _ _ _) as [[l r']|] eqn:Hp; [|done]. cbn. intros [= <- _]. split; [lia|by eapply IHm].
    + destruct (d <=? 0) eqn:Hd; [done|]. destruct (head_is _ close_bracket); [intros [= <- _]; split; [lia|done]|].
      destruct (parse_items _ _ _) as [[l r']|] eqn:Hp; [|done]. cbn. intros [= <- _]. split; [lia|by eapply IHi].
    + destruct (parse_literal s) as [[v' r']|] eqn:Hl.
      { intros [= <- _]. unfold parse_literal in Hl. repeat case_match; by simplify_eq. }
      destruct (parse_number s) as [[x r']|] eqn:Hn; [|done]. cbn. intros [= <- _]. by eapply parse_number_literal.
  - destruct (parse_val n d s) as [[v' r']|] eqn:Hv; [|done]. cbn [mbind option_bind]. apply IHv in Hv.
    destruct (head_is _ comma); [|destruct (head_is _ close_bracket); [|done]].
    + destruct (parse_items _ _ _) as [[l r2]|] eqn:Hp; [|done]. cbn. intros [= <- _]. split; [done|by eapply IHi].
    + by intros [= <- _].
  - destruct (parse_string s) as [[k r1]|] eqn:Hk; [|done]. cbn [mbind option_bind]. apply parse_string_sane in Hk.
    destruct (head_is _ colon); [|done]. destruct (parse_val n d _) as [[v' r']|] eqn:Hv; [|done]. cbn [mbind option_bind]. apply IHv in Hv.
    destruct (head_is _ comma); [|destruct (head_is _ close_brace); [|done]].
    + destruct (parse_members _ _ _) as [[l r2]|] eqn:Hp; [|done]. cbn. intros [= <- _]. split; [done|by eapply IHm].
    + by intros [= <- _].
Qed.

Lemma put_proper d k v (m : object) : sanitize_utf8 k = k ∧ proper d v → all (λ kv, sanitize_utf8 kv.1 = kv.1 ∧ proper d kv.2) m →
  all (λ kv, sanitize_utf8 kv.1 = kv.1 ∧ proper d kv.2) (put k v m).
Proof. rewrite !all_Forall. intros Hk Hm. by apply put_keys. Qed.

Lemma any_of_proper v d : parsed d v → proper d (any_of v).
Proof.
  revert d. induction v as [|b|l|s|l IH|l IH] using jv_induction; intros d Hv; cbn [parsed any_of proper] in *; try done.
  - destruct Hv as [Hd Hl]. split; [done|]. clear Hd. induction l as [|[raw x] l IHl]; [done|].
    apply Forall_cons in IH as [Hx IH]. destruct Hl as [Hpx Hl]. split; [by apply Hx|by apply IHl].
  - destruct Hv as [Hd Hl]. split; [done|]. clear Hd.
    assert (∀ acc : object, sorted acc → all (λ kv, sanitize_utf8 kv.1 = kv.1 ∧ proper (d - 1) kv.2) acc →
      sorted (foldl (λ m kv, put kv.1 kv.2 m) acc (List.map (λ kv : string * jnode, (kv.1, any_of kv.2.2)) l)) ∧
      all (λ kv, sanitize_utf8 kv.1 = kv.1 ∧ proper (d - 1) kv.2)
        (foldl (λ m kv, put kv.1 kv.2 m) acc (List.map (λ kv : string * jnode, (kv.1, any_of kv.2.2)) l))) as Hfold;
      [|by apply Hfold; [constructor|]].
    induction l as [|[k [raw x]] l IHl]; intros acc Hs Hacc; [done|]. apply Forall_cons in IH as [Hx IH].
    destruct Hl as [[Hk Hpx] Hl]. apply IHl; [done|done|by apply put_sorted|]. apply put_proper; [|done]. split; [done|by apply Hx].
Qed.

(** Decoded objects are proper. *)
Lemma decoded_proper data m : DecodeObjectPreserving data = Ok m → proper max_depth (AMap m).
Proof.
  unfold DecodeObjectPreserving. cbv zeta. destruct (parse_val _ _ _) as [[v rest]|] eqn:Hv; [|done].
  apply parse_parsed, any_of_proper in Hv. destruct (any_of v); try done; destruct (More rest); try done; intros [= <-]; [|done].
  split; [done|]. split; [constructor|done].
Qed.

Lemma proper_roundtrip m : proper max_depth (AMap m) → DecodeObjectPreserving (Encode m) = Ok m.
Proof.
  intros Hm. destruct (any_prints _ _ Hm) as (j & [Hs Hp] & Hj); [done|]. unfold DecodeObjectPreserving, Encode. cbv zeta.
  pose proof (starts_skip (any_json (AMap m)) "" Hs) as Hskip. rewrite !str_app_nil_r in Hskip. rewrite Hskip.
  specialize (Hp (2 * slen (any_json (AMap m)) + 2)%nat max_depth ""). rewrite str_app_nil_r in Hp. rewrite Hp by (done || lia).
  by rewrite Hj.
Qed.

(** Equal bytes are equal objects. *)
Lemma Encode_inj m m' : proper max_depth (AMap m) → proper max_depth (AMap m') → Encode m = Encode m' → m = m'.
Proof.
  intros Hm Hm' He. apply proper_roundtrip in Hm, Hm'. rewrite He in Hm. congruence.
Qed.

(** C24: canonical JSON round-trips: encoding what was decoded and decoding it
    again gives the same object, whatever white space, key order, repeated keys
    or escapes the text had, so the canonical bytes determine the object. *)
Theorem canonical_roundtrip data m : DecodeObjectPreserving data = Ok m →
  DecodeObjectPreserving (Encode m) = Ok m ∧
  ∀ data' m', DecodeObjectPreserving data' = Ok m' → Encode m' = Encode m → m' = m.
Proof.
  intros Hm%decoded_proper. split; [by apply proper_roundtrip|]. intros data' m' Hm'%decoded_proper. by apply Encode_inj.
Qed.

Module CanonicalExample.
Definition q (s : string) : string := String dq (s +:+ str1 dq).

(** Out of order, with a repeated key, white space, a number literal and an
    escape that is not needed. *)
Definition text : string :=
  "{ " +:+ q "b" +:+ ": 1.50, " +:+ q "a" +:+ " : [null, " +:+ q "<x>" +:+ "], " +:+ q "b" +:+ ": " +:+ q (String bsl "u00e9") +:+ " }".
Definition decoded : object := [("a", AList [ANil; AString "<x>"]); ("b", AString (String "195" (String "169" "")))].

Example text_decodes : DecodeObjectPreserving text = Ok decoded.
Proof. vm_compute. reflexivity. Qed.

Lemma canonical_roundtrip_witness : DecodeObjectPreserving text = Ok decoded ∧ DecodeObjectPreserving (Encode decoded) = Ok decoded.
Proof.
  split; [vm_compute; reflexivity|]. apply (canonical_roundtrip text decoded). vm_compute. reflexivity.
Defined.

(** Trailing content is refused, unless it starts with a closing bracket. *)
Example trailing_content :
  (is_ok (DecodeObjectPreserving (text +:+ "garbage")), is_ok (DecodeObjectPreserving (text +:+ "]garbage")),
   is_ok (DecodeObjectPreserving (text +:+ " }}"))) = (false, true, true).
Proof. vm_compute. reflexivity. Qed.
End CanonicalExample.
