(* ===== verification/Concurrent.v ===== *)
(** * Requests that run side by side

    A handler is a tree of statements: each is run by the database as one step,
    and between two statements of a request other requests run theirs.  A
    statement may have to wait for a lock; it can fail without effect, and its
    reply can be lost after its effect.  [safe] is the rule the invariants of
    such handlers are proved with, in rely-guarantee style: what a request knows
    between its statements must be stable under what the others do, and its own
    steps are of a kind that the others rely on. *)

From S2P Require Import Prelude.

Section Prog.
Context {Env S : Type}.

Inductive prog (A : Type) : Type :=
| Ret (a : A)
| Call {X : Type} (w : S → bool) (q : Env → S → res X * S) (k : res X → prog A).
Arguments Ret {A} a.
Arguments Call {A X} w q k.

#[export] Instance prog_ret : MRet prog := @Ret.

#[export] Instance prog_bind : MBind prog := λ A B f,
  fix go (m : prog A) : prog B := match m with Ret a => f a | Call w q k => Call w q (λ r, go (k r)) end.

(** One statement, which waits for nothing, and one that waits while [w] holds. *)
Definition statement {X} (q : Env → S → res X * S) : prog (res X) := Call (λ _, false) q Ret.
Definition waiting {X} (w : S → bool) (q : Env → S → res X * S) : prog (res X) := Call w q Ret.

(** A request that nothing interrupts, in one environment; none of its
    statements waits. *)
Fixpoint run_alone {A} (env : Env) (p : prog A) (s : S) : A * S :=
  match p with
  | Ret a => (a, s)
  | Call _ q k => let '(r, s) := q env s in run_alone env (k r) s
  end.

(** ** Interleavings *)

(** What request number [i] runs. *)
Context {Req A : Type} (handler : nat → Req → prog A).

Inductive happening : Type :=
| Start (r : Req) (* a request arrives *)
| Run (i : nat) (env : Env) (* request [i] runs its next statement *)
| Fail (i : nat) (msg : string) (* the statement fails *)
| Lose (i : nat) (env : Env) (msg : string). (* it succeeds and its reply is lost *)

Abbreviation config := (S * list (prog A))%type.

Definition happen (c : config) (h : happening) : config :=
  match h with
  | Start r => (c.1, c.2 ++ [handler (length c.2) r])
  | Run i env =>
    match c.2 !! i with
    | Some (Call w q k) => if w c.1 then c else let '(r, s) := q env c.1 in (s, <[i := k r]> c.2)
    | _ => c
    end
  | Fail i msg =>
    match c.2 !! i with
    | Some (Call _ q k) => (c.1, <[i := k (Err (Errorf msg))]> c.2)
    | _ => c
    end
  | Lose i env msg =>
    match c.2 !! i with
    | Some (Call w q k) => if w c.1 then c else ((q env c.1).2, <[i := k (Err (Errorf msg))]> c.2)
    | _ => c
    end
  end.

Definition history (s : S) (hs : list happening) : config := foldl happen (s, []) hs.

(** ** The logic of one request *)

Section Safe.
Context (inv : S → Prop) (rely guar : S → S → Prop).

Definition stable (P : S → Prop) : Prop := ∀ s s', P s → rely s s' → P s'.

(** From states in [P] the program keeps [inv], steps in [guar], and ends in
    [Q]. *)
Fixpoint safe {B} (P : S → Prop) (p : prog B) (Q : B → S → Prop) : Prop :=
  match p with
  | Ret b => ∀ s, inv s → P s → Q b s
  | @Call _ X w q k =>
    ∃ (I : S → Prop) (P' : res X → S → Prop),
      (∀ s, inv s → P s → I s) ∧ stable I ∧
      (∀ env s, inv s → w s = false → I s → inv (q env s).2 ∧ guar s (q env s).2 ∧ P' (q env s).1 (q env s).2 ∧
         ∀ msg, P' (Err (Errorf msg)) (q env s).2) ∧
      (∀ msg s, inv s → I s → P' (Err (Errorf msg)) s) ∧
      ∀ r, safe (P' r) (k r) Q
  end.

Lemma safe_weaken {B} (P P' : S → Prop) (p : prog B) Q :
  safe P' p Q → (∀ s, inv s → P s → P' s) → safe P p Q.
Proof.
  destruct p as [b|X w q k]; cbn [safe]; [eauto|]. intros (I & P'' & HI & Hst & Hq & Hf & Hk) HP. exists I, P''. split_and!; eauto.
Qed.

Lemma safe_post {B} (P : S → Prop) (p : prog B) (Q Q' : B → S → Prop) :
  safe P p Q → (∀ b s, inv s → Q b s → Q' b s) → safe P p Q'.
Proof.
  revert P. induction p as [b|X w q k IH]; intros P Hp HQ; cbn [safe] in *; [eauto|].
  destruct Hp as (I & P' & HI & Hst & Hq & Hf & Hk). exists I, P'. split_and!; [done..|]. intros r. by apply IH.
Qed.

Lemma safe_bind {B C} (P : S → Prop) (m : prog B) (k : B → prog C) Q Q' :
  safe P m Q → (∀ b, safe (Q b) (k b) Q') → safe P (m ≫= k) Q'.
Proof.
  revert P. induction m as [b|X w q k' IH]; intros P Hm Hk.
  - eapply safe_weaken; [apply Hk|done].
  - destruct Hm as (I & P' & HI & Hst & Hq & Hf & Hk'). exists I, P'. split_and!; [done..|]. intros r. by apply IH.
Qed.

(** A statement that waits knows, when it runs, that it need not. *)
Lemma safe_waiting {X} (P : S → Prop) w (q : Env → S → res X * S) (P' : res X → S → Prop) :
  stable P → (∀ env s, inv s → w s = false → P s → inv (q env s).2 ∧ guar s (q env s).2 ∧ P' (q env s).1 (q env s).2 ∧
    ∀ msg, P' (Err (Errorf msg)) (q env s).2) →
  (∀ msg s, inv s → P s → P' (Err (Errorf msg)) s) → safe P (waiting w q) P'.
Proof. intros Hs Hq Hf. exists P, P'. split_and!; [done..|]. intros r. by cbn. Qed.

(** A statement, with what is known before and after. *)
Lemma safe_statement {X} (P : S → Prop) (q : Env → S → res X * S) (P' : res X → S → Prop) :
  stable P → (∀ env s, inv s → P s → inv (q env s).2 ∧ guar s (q env s).2 ∧ P' (q env s).1 (q env s).2 ∧
    ∀ msg, P' (Err (Errorf msg)) (q env s).2) →
  (∀ msg s, inv s → P s → P' (Err (Errorf msg)) s) → safe P (statement q) P'.
Proof. intros Hs Hq Hf. apply safe_waiting; [done| |done]. intros env s Hi _. by apply Hq. Qed.

(** A statement that only reads. *)
Lemma safe_read `{!Reflexive guar} {X} (P : S → Prop) (q : Env → S → res X * S) (P' : res X → S → Prop) :
  stable P → (∀ env s, (q env s).2 = s) → (∀ env s, inv s → P s → P' (q env s).1 s) →
  (∀ msg s, inv s → P s → P' (Err (Errorf msg)) s) → safe P (statement q) P'.
Proof.
  intros Hs Hq Hr Hf. apply safe_statement; [done| |done]. intros env s Hi HP. rewrite Hq. split_and!; [done|done|by apply Hr|by intros msg; apply Hf].
Qed.

(** What is known may depend on a value that is not. *)
Lemma safe_exists {B} (p : prog B) (Q : B → S → Prop) : ∀ (Y : Type) (P : Y → S → Prop),
  (∀ y, safe (P y) p Q) → safe (λ s, ∃ y, P y s) p Q.
Proof.
  induction p as [b|X w q k IH]; intros Y P Hp; cbn [safe] in *.
  - intros s Hi [y Hy]. by eapply Hp.
  - set (steps := λ IP : (S → Prop) * (res X → S → Prop),
      stable IP.1 ∧ (∀ env s, inv s → w s = false → IP.1 s → inv (q env s).2 ∧ guar s (q env s).2 ∧ IP.2 (q env s).1 (q env s).2 ∧
         ∀ msg, IP.2 (Err (Errorf msg)) (q env s).2) ∧
      (∀ msg s, inv s → IP.1 s → IP.2 (Err (Errorf msg)) s) ∧ ∀ r, safe (IP.2 r) (k r) Q).
    exists (λ s, ∃ IP : {IP | steps IP}, (`IP).1 s), (λ r s, ∃ IP : {IP | steps IP}, (`IP).2 r s). split_and!.
    + intros s Hi [y Hy]. destruct (Hp y) as (I & P' & HI & Hrest). exists ((I, P') ↾ Hrest). by apply HI.
    + intros s s' [IP HI] HR. exists IP. destruct (proj2_sig IP) as (Hst & _). by eapply Hst.
    + intros env s Hi Hw [IP HI]. destruct (proj2_sig IP) as (_ & Hq & _). destruct (Hq env s Hi Hw HI) as (? & ? & ? & ?). split_and!; eauto.
    + intros msg s Hi [IP HI]. exists IP. destruct (proj2_sig IP) as (_ & _ & Hf & _). by apply Hf.
    + intros r. apply IH. intros IP. destruct (proj2_sig IP) as (_ & _ & _ & Hk). apply Hk.
Qed.

(** A fact about values only. *)
Lemma safe_pure {B} (P : S → Prop) (p : prog B) (Q : B → S → Prop) (F : Prop) :
  (∀ s, inv s → P s → F) → (F → safe P p Q) → safe P p Q.
Proof.
  intros HF Hp. eapply safe_weaken; [apply (safe_exists p Q F (λ _, P)); exact Hp|]. intros s Hi HP. by exists (HF s Hi HP).
Qed.
End Safe.

(** Fewer steps of others, more steps of one's own. *)
Lemma safe_mono inv (rely rely' guar guar' : S → S → Prop) {B} (P : S → Prop) (p : prog B) Q :
  (∀ s s', rely' s s' → rely s s') → (∀ s s', guar s s' → guar' s s') → safe inv rely guar P p Q → safe inv rely' guar' P p Q.
Proof.
  intros Hr Hg. revert P. induction p as [b|X w q k IH]; intros P Hp; cbn [safe] in *; [done|].
  destruct Hp as (I & P' & HI & Hst & Hq & Hf & Hk). exists I, P'. split_and!; [done| | |done|by intros r; apply IH].
  - intros s s' HIs Hs. eapply Hst; eauto.
  - intros env s Hi Hw HIs. destruct (Hq env s Hi Hw HIs) as (? & ? & ? & ?). eauto.
Qed.

(** ** All requests together *)

(** Request [i] steps in [G i]; all steps are in [W]; [post] holds of every
    reply. *)
Context (inv : S → Prop) (W : S → S → Prop) `{!PreOrder W} (G : nat → S → S → Prop) (HG : ∀ i s s', G i s s' → W s s').
Context (post : A → S → Prop) (Hpost : ∀ a, stable W (post a)).

Definition others (i : nat) (s s' : S) : Prop := ∃ j, j ≠ i ∧ G j s s'.

Definition request_ok (i : nat) (s : S) (p : prog A) : Prop :=
  ∃ P, safe inv (others i) (G i) P p post ∧ P s ∧ (∀ a, p = Ret a → post a s).

Definition pool_ok (c : config) : Prop := inv c.1 ∧ ∀ i p, c.2 !! i = Some p → request_ok i c.1 p.

Lemma request_steps i P p s : inv s → safe inv (others i) (G i) P p post → P s → request_ok i s p.
Proof. intros Hi Hs HP. exists P. split_and!; [done|done|]. intros a ->. by apply Hs. Qed.

Lemma request_others i s s' p : inv s → inv s' → others i s s' → request_ok i s p → request_ok i s' p.
Proof using HG Hpost.
  intros Hi Hi' Ho (P & Hs & HP & Ha). destruct p as [a|X w q k].
  - destruct Ho as (j & _ & Hj). exists (post a). split_and!; [by intros ? ? ?| |intros ? [= <-]]; (eapply Hpost; [by apply Ha|by eapply HG]).
  - destruct Hs as (I & P' & HI & Hst & Hrest). exists I. split; [exists I, P'; by split|]. split; [|done]. apply (Hst s); [by apply HI|done].
Qed.

Lemma pool_step s s' (pool : list (prog A)) i p :
  inv s' → G i s s' → pool_ok (s, pool) → request_ok i s' p → pool_ok (s', <[i := p]> pool).
Proof using HG Hpost.
  intros Hi HR [Hi0 Hpool] Hp. split; [done|]. intros j p' Hj. cbn [fst snd] in *. destruct (decide (i = j)) as [<-|Hne].
  - apply list_lookup_insert_Some in Hj as [(_ & <- & _)|[? _]]; done.
  - rewrite list_lookup_insert_ne in Hj by done. eapply (request_others j s); [done|done|by exists i|by apply Hpool].
Qed.

Lemma happen_ok c h : (∀ i r, ∃ P, safe inv (others i) (G i) P (handler i r) post ∧ ∀ s, P s) →
  pool_ok c → W c.1 (happen c h).1 ∧ pool_ok (happen c h).
Proof using HG Hpost PreOrder0.
  intros Hh Hc. destruct c as [s pool]. pose proof Hc as [Hi Hpool]. cbn [fst snd] in *.
  destruct h as [r|i env|i msg|i env msg]; cbn [happen fst snd].
  - split; [done|]. split; [done|]. intros i p Hp. cbn [fst snd] in *. apply lookup_snoc_Some in Hp as [[_ Hp]|[-> <-]]; [by apply Hpool|].
    destruct (Hh (length pool) r) as (P & Hs & HP). by apply (request_steps _ P).
  - destruct (pool !! i) as [[b|X w q k]|] eqn:Hp; [done| |done]. destruct (Hpool i _ Hp) as (P & Hs & HP & _).
    destruct (w s) eqn:Hw; [done|]. destruct Hs as (I & P' & HI & Hst & Hq & Hf & Hk).
    destruct (Hq env s Hi Hw (HI s Hi HP)) as (Hi' & HR & HP' & _). destruct (q env s) as [r s']. cbn [fst snd] in *.
    split; [by eapply HG|]. eapply pool_step; [done|done|done|]. by apply (request_steps _ (P' r)).
  - destruct (pool !! i) as [[b|X w q k]|] eqn:Hp; [done| |done]. destruct (Hpool i _ Hp) as (P & Hs & HP & _).
    destruct Hs as (I & P' & HI & Hst & Hq & Hf & Hk). split; [done|]. split; [done|]. intros j p' Hj. cbn [fst snd] in *.
    destruct (decide (i = j)) as [<-|Hne]; [|rewrite list_lookup_insert_ne in Hj by done; by apply Hpool].
    apply list_lookup_insert_Some in Hj as [(_ & <- & _)|[? _]]; [|done]. apply (request_steps _ (P' (Err (Errorf msg)))); [done|done|].
    by apply Hf, HI.
  - destruct (pool !! i) as [[b|X w q k]|] eqn:Hp; [done| |done]. destruct (Hpool i _ Hp) as (P & Hs & HP & _).
    destruct (w s) eqn:Hw; [done|]. destruct Hs as (I & P' & HI & Hst & Hq & Hf & Hk).
    destruct (Hq env s Hi Hw (HI s Hi HP)) as (Hi' & HR & _ & HP'). cbn [fst snd] in *. split; [by eapply HG|].
    eapply pool_step; [done|done|done|]. by apply (request_steps _ (P' (Err (Errorf msg)))).
Qed.

(** A happening changes the state by a step of one request, if at all. *)
Lemma happen_step c h : pool_ok c → (happen c h).1 = c.1 ∨ ∃ i, G i c.1 (happen c h).1.
Proof using.
  destruct c as [s pool]. intros [Hi Hpool]. cbn [fst snd] in *.
  destruct h as [r|i env|i msg|i env msg]; cbn [happen fst snd]; [by left| | |].
  - destruct (pool !! i) as [[b|X w q k]|] eqn:Hp; [by left| |by left]. destruct (Hpool i _ Hp) as (P & Hs & HP & _).
    destruct (w s) eqn:Hw; [by left|]. destruct Hs as (I & P' & HI & _ & Hq & _). right. exists i.
    destruct (Hq env s Hi Hw (HI s Hi HP)) as (_ & HR & _). by destruct (q env s).
  - left. by destruct (pool !! i) as [[b|X w q k]|].
  - destruct (pool !! i) as [[b|X w q k]|] eqn:Hp; [by left| |by left]. destruct (Hpool i _ Hp) as (P & Hs & HP & _).
    destruct (w s) eqn:Hw; [by left|]. destruct Hs as (I & P' & HI & _ & Hq & _). right. exists i.
    by destruct (Hq env s Hi Hw (HI s Hi HP)) as (_ & HR & _).
Qed.

(** Whatever happens, the invariant holds, the state only moves along [W], and
    every reply satisfies [post]. *)
Lemma continue_ok c hs : (∀ i r, ∃ P, safe inv (others i) (G i) P (handler i r) post ∧ ∀ s, P s) → pool_ok c →
  W c.1 (foldl happen c hs).1 ∧ pool_ok (foldl happen c hs).
Proof using HG Hpost PreOrder0.
  intros Hh. revert c. induction hs as [|h hs IH]; intros c Hc; [done|]. cbn [foldl].
  destruct (happen_ok c h Hh Hc) as [HR Hc']. destruct (IH _ Hc') as [HR' ?]. split; [by etrans|done].
Qed.

Lemma history_ok s hs : (∀ i r, ∃ P, safe inv (others i) (G i) P (handler i r) post ∧ ∀ s, P s) → inv s →
  W s (history s hs).1 ∧ pool_ok (history s hs).
Proof using HG Hpost PreOrder0.
  intros Hh Hi. apply (continue_ok (s, []) hs Hh). split; [done|]. by intros [|i] p.
Qed.

Lemma history_app s hs hs' : history s (hs ++ hs') = foldl happen (history s hs) hs'.
Proof using. apply foldl_app. Qed.

Lemma replies_ok s hs i a : (∀ i r, ∃ P, safe inv (others i) (G i) P (handler i r) post ∧ ∀ s, P s) → inv s →
  (history s hs).2 !! i = Some (Ret a) → post a (history s hs).1.
Proof using HG Hpost PreOrder0.
  intros Hh Hi Ha. destruct (history_ok s hs Hh Hi) as [_ [_ Hp]]. destruct (Hp i _ Ha) as (P & _ & _ & Hr). by apply Hr.
Qed.
End Prog.

Arguments prog : clear implicits.
Arguments Ret {Env S A} a.
Arguments Call {Env S A X} w q k.
Arguments happening : clear implicits.
Arguments Start {Env Req} r.
Arguments Run {Env Req} i env.
Arguments Fail {Env Req} i msg.
Arguments Lose {Env Req} i env msg.
