(* ===== verification/WalCodec.v ===== *)
(** * The WAL entry and its JSON form

    coordinator/checkpoint_store.go: the types [ResumeToken], [WalEntry] and
    [CheckpointPayload], and the custom JSON codec of [WalEntry], whose digests
    are kept in hexadecimal in memory, travel as base64 and may arrive as hex,
    as base64 in any of four variants or as arrays of byte values. *)

From S2P Require Import Prelude GoStrings Json Ext.
Open Scope Z_scope.

(** ** Types *)

Record ResumeToken := mkToken {
  LastCommittedStep : Z; (* uint32 *)
  CheckpointDigest : string;
  rt_RuntimeID : string;
}.

Record WalEntry := mkWalEntry {
  EntryID : uuid;
  we_TaskID : uuid;
  StepIndex : Z; (* uint32 *)
  StepType : option jv; (* interface{} *)
  we_Status : string;
  InputDigest : string;
  OutputDigest : option string;
  TimestampMs : Z; (* uint64 *)
  we_RuntimeID : string;
  Signature : option string;
}.

Record CheckpointPayload := mkCheckpoint {
  cp_TaskID : uuid;
  cp_ResumeToken : ResumeToken;
  WalEntries : list WalEntry;
  cp_Metadata : string; (* json.RawMessage *)
  CapturedAt : time;
}.

(** ** Statuses *)

Definition normalizeWalStatus (status : string) : string := ToLower (TrimSpace status).

Definition marshalWalStatusField (status : string) : string :=
  let n := normalizeWalStatus status in
  if bool_decide (n = "intent") then "Intent"
  else if bool_decide (n = "executing") then "Executing"
  else if bool_decide (n = "committed") || bool_decide (n = "completed") then "Committed"
  else if bool_decide (n = "failed") then "Failed"
  else status.

Section Codec.
Context `{Ext}.

Definition is_null_or_empty (trimmed : string) : bool :=
  bool_decide (trimmed = "") || bool_decide (trimmed = "null").

Definition unmarshalWalStatusField (data : string) : string :=
  let trimmed := TrimSpace data in
  if is_null_or_empty trimmed then ""
  else if head_is trimmed dq then
    let '(value, ok) := unmarshal_string trimmed in
    if ok then normalizeWalStatus value else ""
  else match unmarshal_rawmap trimmed with
  | Some (Some object) =>
    if bool_decide (object = ∅) then ""
    else normalizeWalStatus (map_first_key ((map_to_list object).*1))
  | _ => ""
  end.

(** ** Digests and signatures *)

(** [json.Marshal] of a [[]byte] is its base64 text in quotes. *)
Definition bytes_text (b : string) : string := str_text (b64_encode b).

Definition len_mismatch (expectedLen : Z) (decoded : string) : bool :=
  (0 <? expectedLen) && negb (Z.of_nat (slen decoded) =? expectedLen).

Definition marshalHexByteArrayField (value : string) (expectedLen : Z) : string :=
  let trimmed := TrimSpace value in
  if bool_decide (trimmed = "") then str_text trimmed
  else match hex_decode trimmed with
  | Some decoded => if len_mismatch expectedLen decoded then str_text trimmed else bytes_text decoded
  | None => str_text trimmed
  end.

Definition base64_variants : list (bool * bool) :=
  [(false, true); (false, false); (true, true); (true, false)].

Definition decodeBase64ByteArrayField (value : string) (expectedLen : Z) : option string :=
  let trimmed := TrimSpace value in
  if bool_decide (trimmed = "") then None
  else head (omap (λ v : bool * bool,
         match b64_decode v.1 v.2 trimmed with
         | Some decoded => if len_mismatch expectedLen decoded then None else Some decoded
         | None => None
         end) base64_variants).

Definition byte_list (l : list Z) : string := foldr (λ z s, String (bz z) s) "" l.

(** [json.Unmarshal] of a non-string into [[]byte]: an array of byte values. *)
Definition unmarshal_bytes (data : string) : option string :=
  let '(l, ok) := unmarshal (dec_list 0 (dec_uint 8)) data [] in
  if ok then Some (byte_list l) else None.

Definition json_error : goerror := Errorf "json: cannot unmarshal".

Definition unmarshalHexByteArrayField (data : string) (expectedLen : Z) : res string :=
  let trimmed := TrimSpace data in
  if is_null_or_empty trimmed then Ok ""
  else if head_is trimmed dq then
    let '(value, ok) := unmarshal_string trimmed in
    if negb ok then Err json_error
    else if bool_decide (value = "") then Ok ""
    else
      let as_hex := match hex_decode value with
                    | Some decoded => negb (len_mismatch expectedLen decoded)
                    | None => false
                    end in
      if as_hex then Ok (ToLower value)
      else match decodeBase64ByteArrayField value expectedLen with
      | Some decoded => Ok (hex_encode decoded)
      | None => Ok (ToLower value)
      end
  else match unmarshal_bytes trimmed with
  | None => Err json_error
  | Some raw =>
    if len_mismatch expectedLen raw
    then Err (Errorf ("expected " +:+ itoa expectedLen +:+ " bytes, got "
                      +:+ itoa (Z.of_nat (slen raw))))
    else Ok (hex_encode raw)
  end.

Definition unmarshalOptionalHexByteArrayField (data : string) (expectedLen : Z)
    : res (option string) :=
  let trimmed := TrimSpace data in
  if is_null_or_empty trimmed then Ok None
  else Some <$> unmarshalHexByteArrayField trimmed expectedLen.

Definition marshalBinaryArrayField (value : string) : string :=
  match b64_decode false true value with
  | Some decoded => bytes_text decoded
  | None => str_text value
  end.

Definition unmarshalOptionalBinaryArrayField (data : string) : res (option string) :=
  let trimmed := TrimSpace data in
  if is_null_or_empty trimmed then Ok None
  else if head_is trimmed dq then
    let '(value, ok) := unmarshal_string trimmed in
    if ok then Ok (Some value) else Err json_error
  else match unmarshal_bytes trimmed with
  | Some raw => Ok (Some (b64_encode raw))
  | None => Err json_error
  end.

(** ** The entry *)

Definition opt_member (k : string) (v : option string) : list (string * string) :=
  match v with Some t => [(k, t)] | None => [] end.

(** The members [WalEntry.MarshalJSON] prints, in struct order, nil pointers
    omitted. *)
Definition wal_members (e : WalEntry) : list (string * string) :=
  [("entry_id", str_text (uuid_String (EntryID e)));
   ("task_id", str_text (uuid_String (we_TaskID e)));
   ("step_index", num_text (StepIndex e));
   ("step_type", opt_any_text (StepType e));
   ("status", str_text (marshalWalStatusField (we_Status e)));
   ("input_digest", marshalHexByteArrayField (InputDigest e) 32)]
  ++ opt_member "output_digest" ((λ d, marshalHexByteArrayField d 32) <$> OutputDigest e)
  ++ [("timestamp_ms", num_text (TimestampMs e));
      ("runtime_id", str_text (we_RuntimeID e))]
  ++ opt_member "signature" (marshalBinaryArrayField <$> Signature e).

Definition WalEntry_MarshalJSON (e : WalEntry) : string := obj_text (wal_members e).

(** The intermediate struct [UnmarshalJSON] decodes into. *)
Record walEntryJSON := mkWalJSON {
  wj_EntryID : uuid; wj_TaskID : uuid; wj_StepIndex : Z; wj_StepType : option jv;
  wj_Status : string; wj_InputDigest : string; wj_OutputDigest : string;
  wj_TimestampMs : Z; wj_RuntimeID : string; wj_Signature : string;
}.

Definition walEntryJSON_zero : walEntryJSON :=
  mkWalJSON uuid_Nil uuid_Nil 0 None "" "" "" 0 "" "".

Definition walEntryJSON_fields : list (string * dec walEntryJSON) :=
  [("entry_id", field wj_EntryID
      (λ x '(mkWalJSON _ b c d e f g h i j), mkWalJSON x b c d e f g h i j) dec_uuid);
   ("task_id", field wj_TaskID
      (λ x '(mkWalJSON a _ c d e f g h i j), mkWalJSON a x c d e f g h i j) dec_uuid);
   ("step_index", field wj_StepIndex
      (λ x '(mkWalJSON a b _ d e f g h i j), mkWalJSON a b x d e f g h i j) (dec_uint 32));
   ("step_type", field wj_StepType
      (λ x '(mkWalJSON a b c _ e f g h i j), mkWalJSON a b c x e f g h i j) dec_any);
   ("status", field wj_Status
      (λ x '(mkWalJSON a b c d _ f g h i j), mkWalJSON a b c d x f g h i j) dec_raw);
   ("input_digest", field wj_InputDigest
      (λ x '(mkWalJSON a b c d e _ g h i j), mkWalJSON a b c d e x g h i j) dec_raw);
   ("output_digest", field wj_OutputDigest
      (λ x '(mkWalJSON a b c d e f _ h i j), mkWalJSON a b c d e f x h i j) dec_raw);
   ("timestamp_ms", field wj_TimestampMs
      (λ x '(mkWalJSON a b c d e f g _ i j), mkWalJSON a b c d e f g x i j) (dec_uint 64));
   ("runtime_id", field wj_RuntimeID
      (λ x '(mkWalJSON a b c d e f g h _ j), mkWalJSON a b c d e f g h x j) dec_string);
   ("signature", field wj_Signature
      (λ x '(mkWalJSON a b c d e f g h i _), mkWalJSON a b c d e f g h i x) dec_raw)].

Definition WalEntry_UnmarshalJSON (data : string) : res WalEntry :=
  let '(d, ok) := unmarshal (dec_struct walEntryJSON_fields) data walEntryJSON_zero in
  if negb ok then Err json_error
  else match unmarshalHexByteArrayField (wj_InputDigest d) 32 with
  | Err e => Err (Wrapf "decode input_digest: " e "")
  | Ok inputDigest =>
    match unmarshalOptionalHexByteArrayField (wj_OutputDigest d) 32 with
    | Err e => Err (Wrapf "decode output_digest: " e "")
    | Ok outputDigest =>
      match unmarshalOptionalBinaryArrayField (wj_Signature d) with
      | Err e => Err (Wrapf "decode signature: " e "")
      | Ok signature =>
        Ok (mkWalEntry (wj_EntryID d) (wj_TaskID d) (wj_StepIndex d) (wj_StepType d)
              (unmarshalWalStatusField (wj_Status d)) inputDigest outputDigest
              (wj_TimestampMs d) (wj_RuntimeID d) signature)
      end
    end
  end.

(** Two entries are equivalent when they print the same bytes (printing an
    entry cannot fail). *)
Definition walEntriesEquivalent (a b : WalEntry) : bool :=
  bool_decide (WalEntry_MarshalJSON a = WalEntry_MarshalJSON b).

Lemma walEntriesEquivalent_refl a : walEntriesEquivalent a a = true.
Proof. by apply bool_decide_eq_true. Qed.
Lemma walEntriesEquivalent_sym a b : walEntriesEquivalent a b = walEntriesEquivalent b a.
Proof. apply bool_decide_ext. naive_solver. Qed.
Lemma walEntriesEquivalent_trans a b c :
  walEntriesEquivalent a b = true → walEntriesEquivalent b c = true →
  walEntriesEquivalent a c = true.
Proof. unfold walEntriesEquivalent. rewrite !bool_decide_eq_true. congruence. Qed.
End Codec.
