(* ===== verification/Checkpoint.v ===== *)
(** * Checkpoints: watermark predicates and the cumulative recovery checkpoint

    coordinator/checkpoint_store.go: the predicates a checkpoint has to satisfy
    before it is stored or used ([TaskCheckpointAdvances], ...,
    [TaskRecoveryCheckpointUsable]) and [BuildCumulativeRecoveryCheckpoint],
    which merges the delta checkpoints of a task into one whose WAL is the whole
    committed prefix; coordinator/task_coordinator.go: [selectRecoveryCheckpoint].

    A Go pointer [*CheckpointPayload] is an [option]. The loop that collects the
    committed prefix counts a [uint32] up to the watermark; its fuel is one more
    than the number of distinct committed steps, which is enough because every
    iteration consumes a step ([collect_fuel_enough]). *)

From S2P Require Import Prelude GoStrings Json Ext WalCodec.
Open Scope Z_scope.

(** ** [sort.Slice] by an integer key

    Not guaranteed to be stable, so the order of equal keys is left open. *)
Class SortSlice := sort_slice : ∀ {A : Type}, (A → Z) → list A → list A.
Class SortSliceLaws `{SortSlice} := {
  sort_slice_perm : ∀ A (key : A → Z) l, sort_slice key l ≡ₚ l;
  sort_slice_sorted : ∀ A (key : A → Z) l, StronglySorted Z.le (key <$> sort_slice key l);
}.

Definition key_le {A} (key : A → Z) : relation A := λ x y, key x ≤ key y.
Global Instance key_le_dec {A} (key : A → Z) : RelDecision (key_le key).
Proof. intros x y. unfold key_le. apply _. Defined.

(** A stable sort is one admissible [sort.Slice]. *)
Definition stable_sort : SortSlice := λ A key l, merge_sort (key_le key) l.

Lemma stable_sort_laws : @SortSliceLaws stable_sort.
Proof.
  split; intros A key l; unfold sort_slice, stable_sort.
  - apply merge_sort_Permutation.
  - assert (StronglySorted (key_le key) (merge_sort (key_le key) l)) as Hs.
    { apply Sorted_StronglySorted; [intros x y z; unfold key_le; lia|].
      apply Sorted_merge_sort. intros x y; unfold key_le; lia. }
    induction Hs as [|x l' Hl IH HF]; cbn; constructor; [done|].
    by apply Forall_fmap.
Qed.

(** A permutation of a strictly increasing list that is sorted is that list. *)
Lemma sort_slice_id `{SortSliceLaws} {A} (key : A → Z) l :
  StronglySorted Z.lt (key <$> l) → sort_slice key l = l.
Proof.
  intros Hs.
  pose proof (sort_slice_perm A key l) as Hp.
  pose proof (sort_slice_sorted A key l) as Hs'.
  revert Hp Hs'. generalize (sort_slice key l). intros l' Hp Hs'.
  revert l' Hp Hs'. induction l as [|x l IH]; intros l' Hp Hs'.
  - by apply Permutation_nil_r in Hp.
  - destruct l' as [|y l']; [by apply Permutation_nil_l in Hp|].
    cbn in *. inversion Hs as [|?? Hl Hx]; inversion Hs' as [|?? Hl' Hy]; subst.
    rewrite Forall_fmap in Hx, Hy. rewrite Forall_forall in Hx, Hy.
    assert (x = y) as <-.
    { assert (y ∈ x :: l) as Hyl by (rewrite <-Hp; set_solver).
      assert (x ∈ y :: l') as Hxl by (rewrite Hp; set_solver).
      apply elem_of_cons in Hyl as [->|Hyl]; [done|].
      apply elem_of_cons in Hxl as [->|Hxl]; [done|].
      specialize (Hx _ Hyl). specialize (Hy _ Hxl). cbn in *. lia. }
    f_equal. apply IH; [done| |done]. by apply Permutation_cons_inv in Hp.
Qed.

(** ** Errors *)
Definition ErrInvalidCumulativeCheckpoint : goerror :=
  Sentinel "invalid cumulative checkpoint".

Definition invalid_cumulative (why : string) : goerror :=
  Wrapf "" ErrInvalidCumulativeCheckpoint (": " +:+ why).

(** ** Predicates *)

Definition LastStep (cp : CheckpointPayload) : Z := LastCommittedStep (cp_ResumeToken cp).

Definition TaskCheckpointAdvances (current next : option CheckpointPayload) : bool :=
  match next with
  | None => false
  | Some next =>
    match current with
    | None => true
    | Some current => LastStep current <? LastStep next
    end
  end.

(** The loop of [TaskCheckpointWatermarkConsistent], with its [maxStep]. *)
Fixpoint watermark_loop (last : Z) (es : list WalEntry) (maxStep : Z) : bool :=
  match es with
  | [] => maxStep =? last
  | e :: es =>
    if last <? StepIndex e then false
    else watermark_loop last es (if maxStep <? StepIndex e then StepIndex e else maxStep)
  end.

Definition TaskCheckpointWatermarkConsistent (cp : option CheckpointPayload) : bool :=
  match cp with
  | None => false
  | Some cp =>
    match WalEntries cp with
    | [] => LastStep cp =? 0
    | es => watermark_loop (LastStep cp) es 0
    end
  end.

Definition TaskCheckpointEntriesBelongToTask (cp : option CheckpointPayload) : bool :=
  match cp with
  | None => false
  | Some cp =>
    negb (bool_decide (cp_TaskID cp = uuid_Nil)) &&
    forallb (λ e, bool_decide (we_TaskID e = cp_TaskID cp)) (WalEntries cp)
  end.

Definition TaskCheckpointEntriesHaveStableIDs (cp : option CheckpointPayload) : bool :=
  match cp with
  | None => false
  | Some cp => forallb (λ e, negb (bool_decide (EntryID e = uuid_Nil))) (WalEntries cp)
  end.

Definition TaskRecoveryCheckpointUsable (taskID : uuid) (cp : option CheckpointPayload) : bool :=
  match cp with
  | None => false
  | Some c =>
    if bool_decide (taskID = uuid_Nil) || negb (bool_decide (cp_TaskID c = taskID)) then false
    else TaskCheckpointWatermarkConsistent cp &&
         TaskCheckpointEntriesBelongToTask cp &&
         TaskCheckpointEntriesHaveStableIDs cp
  end.

Definition selectRecoveryCheckpoint (primary secondary : option CheckpointPayload)
    : option CheckpointPayload :=
  match primary, secondary with
  | None, _ => secondary
  | _, None => primary
  | _, _ => if TaskCheckpointAdvances primary secondary then secondary else primary
  end.

(** ** What the predicates say *)

(** The loop invariant of the watermark check. *)
Lemma watermark_loop_spec last es maxStep :
  maxStep ≤ last →
  watermark_loop last es maxStep = true ↔
  Forall (λ e, StepIndex e ≤ last) es ∧ (maxStep = last ∨ ∃ e, e ∈ es ∧ StepIndex e = last).
Proof.
  revert maxStep. induction es as [|x es IH]; intros maxStep Hmax; cbn [watermark_loop].
  - rewrite Z.eqb_eq. split; [by auto|]. intros [_ [?|(e & He & _)]]; [done|set_solver].
  - rewrite Forall_cons. destruct (Z.ltb_spec last (StepIndex x)); [split; [done|lia]|].
    rewrite IH by (destruct (Z.ltb_spec maxStep (StepIndex x)); lia).
    assert ((if maxStep <? StepIndex x then StepIndex x else maxStep) = last ↔
            maxStep = last ∨ StepIndex x = last) as Hm
      by (destruct (Z.ltb_spec maxStep (StepIndex x)); lia).
    assert ((∃ e, e ∈ x :: es ∧ StepIndex e = last) ↔
            StepIndex x = last ∨ ∃ e, e ∈ es ∧ StepIndex e = last) as Hx
      by (setoid_rewrite elem_of_cons; naive_solver).
    tauto.
Qed.

(** [TaskCheckpointWatermarkConsistent] on [uint32] steps: the token names the
    largest step of the entries (step 0 when there are none). *)
Lemma watermark_consistent_spec cp :
  Forall (λ e, 0 ≤ StepIndex e) (WalEntries cp) → 0 ≤ LastStep cp →
  TaskCheckpointWatermarkConsistent (Some cp) = true ↔
  Forall (λ e, StepIndex e ≤ LastStep cp) (WalEntries cp) ∧
  ((WalEntries cp = [] ∧ LastStep cp = 0) ∨ ∃ e, e ∈ WalEntries cp ∧ StepIndex e = LastStep cp).
Proof.
  intros Hpos Hlast. unfold TaskCheckpointWatermarkConsistent.
  destruct (WalEntries cp) as [|x es] eqn:He.
  - rewrite Z.eqb_eq. split; [auto|]. intros [_ [[_ ?]|(e & Hin & _)]]; [done|set_solver].
  - rewrite watermark_loop_spec by done. split; [|naive_solver].
    intros [HF [Hz|Hx]]; [|auto]. split; [done|]. right. exists x.
    apply Forall_cons in HF as [? _]. apply Forall_cons in Hpos as [? _]. set_solver by lia.
Qed.

Lemma entries_belong_spec cp :
  TaskCheckpointEntriesBelongToTask (Some cp) = true ↔
  cp_TaskID cp ≠ uuid_Nil ∧ Forall (λ e, we_TaskID e = cp_TaskID cp) (WalEntries cp).
Proof.
  cbn. rewrite andb_true_iff, negb_true_iff, bool_decide_eq_false, forallb_forall, Forall_forall.
  by setoid_rewrite bool_decide_eq_true; setoid_rewrite list_elem_of_In.
Qed.

Lemma entries_stable_spec cp :
  TaskCheckpointEntriesHaveStableIDs (Some cp) = true ↔
  Forall (λ e, EntryID e ≠ uuid_Nil) (WalEntries cp).
Proof.
  cbn. rewrite forallb_forall, Forall_forall.
  by setoid_rewrite negb_true_iff; setoid_rewrite bool_decide_eq_false; setoid_rewrite list_elem_of_In.
Qed.

Lemma usable_spec taskID cp :
  TaskRecoveryCheckpointUsable taskID (Some cp) = true ↔
  taskID ≠ uuid_Nil ∧ cp_TaskID cp = taskID ∧
  TaskCheckpointWatermarkConsistent (Some cp) = true ∧
  Forall (λ e, we_TaskID e = taskID) (WalEntries cp) ∧
  Forall (λ e, EntryID e ≠ uuid_Nil) (WalEntries cp).
Proof.
  unfold TaskRecoveryCheckpointUsable.
  case_bool_decide as Hn; cbn [orb]; [split; [done|tauto]|].
  case_bool_decide as Ht; cbn [negb]; [|split; [done|tauto]].
  rewrite !andb_true_iff, entries_belong_spec, entries_stable_spec. rewrite Ht. tauto.
Qed.

(** ** The cumulative checkpoint *)
Section Cumulative.
Context `{Ext} `{SortSlice}.

Definition is_committed (e : WalEntry) : bool :=
  bool_decide (normalizeWalStatus (we_Status e) = "committed").

(** The inner loop body: one WAL entry joins the map of committed steps. *)
Definition add_entry (taskID : uuid) (m : gmap Z WalEntry) (e : WalEntry)
    : res (gmap Z WalEntry) :=
  if negb (bool_decide (we_TaskID e = taskID))
  then Err (invalid_cumulative "WAL entry task_id mismatch")
  else if negb (is_committed e) then Ok m
  else match m !! StepIndex e with
  | Some existing =>
    if negb (walEntriesEquivalent existing e)
    then Err (invalid_cumulative ("conflicting duplicate step " +:+ itoa (StepIndex e)))
    else Ok m
  | None => Ok (<[StepIndex e := e]> m)
  end.

Fixpoint add_entries (taskID : uuid) (m : gmap Z WalEntry) (es : list WalEntry)
    : res (gmap Z WalEntry) :=
  match es with
  | [] => Ok m
  | e :: es => add_entry taskID m e ≫= λ m, add_entries taskID m es
  end.

(** The outer loop over the checkpoints, [latest] and [entriesByStep] its state. *)
Fixpoint scan_checkpoints (taskID : uuid) (latest : option CheckpointPayload)
    (m : gmap Z WalEntry) (cps : list (option CheckpointPayload))
    : res (option CheckpointPayload * gmap Z WalEntry) :=
  match cps with
  | [] => Ok (latest, m)
  | None :: cps => scan_checkpoints taskID latest m cps
  | Some cp :: cps =>
    if negb (bool_decide (cp_TaskID cp = taskID))
    then Err (invalid_cumulative "checkpoint task_id mismatch")
    else
      add_entries taskID m (WalEntries cp) ≫= λ m,
        scan_checkpoints taskID
          (match latest with
           | None => Some cp
           | Some _ => if TaskCheckpointAdvances latest (Some cp) then Some cp else latest
           end) m cps
  end.

(** [for step := uint32(0); step <= lastStep; step++], with the break that keeps
    the counter from wrapping at the largest [uint32]. *)
Fixpoint collect_steps (fuel : nat) (m : gmap Z WalEntry) (step lastStep : Z)
    : res (list WalEntry) :=
  match fuel with
  | O => Err (Errorf "out of fuel")
  | S fuel =>
    if lastStep <? step then Ok []
    else match m !! step with
    | None => Err (invalid_cumulative ("missing committed step " +:+ itoa step))
    | Some e =>
      if step =? uint32_max then Ok [e]
      else collect_steps fuel m (step + 1) lastStep ≫= λ es, Ok (e :: es)
    end
  end.

Definition BuildCumulativeRecoveryCheckpoint (taskID : uuid)
    (checkpoints : list (option CheckpointPayload)) : res (option CheckpointPayload) :=
  if bool_decide (taskID = uuid_Nil)
  then Err (invalid_cumulative "task_id is required")
  else if bool_decide (checkpoints = []) then Ok None
  else
    scan_checkpoints taskID None ∅ checkpoints ≫= λ '(latest, entriesByStep),
    match latest with
    | None => Ok None
    | Some cp =>
      if negb (TaskRecoveryCheckpointUsable taskID (Some cp))
      then Err (invalid_cumulative "latest checkpoint is not usable")
      else
        collect_steps (S (S (size entriesByStep))) entriesByStep 0 (LastStep cp) ≫= λ entries,
        Ok (Some (mkCheckpoint (cp_TaskID cp) (cp_ResumeToken cp)
                    (sort_slice StepIndex entries) (cp_Metadata cp) (CapturedAt cp)))
    end.

(** ** Reference definition

    The merge stated on the whole list of WAL entries at once: entries in order
    of their checkpoints, the committed ones, the first one of a step, and the
    first checkpoint with the largest watermark. *)
Definition all_entries (cps : list (option CheckpointPayload)) : list WalEntry :=
  concat (WalEntries <$> omap id cps).

Definition committed (es : list WalEntry) : list WalEntry := filter (λ e, is_committed e = true) es.

Definition first_at (s : Z) (es : list WalEntry) : option WalEntry :=
  head (filter (λ e, StepIndex e = s) es).

Definition latest_of (cps : list CheckpointPayload) : option CheckpointPayload :=
  match cps with
  | [] => None
  | cp :: cps => Some (foldl (λ best c, if LastStep best <? LastStep c then c else best) cp cps)
  end.

(** Duplicates of a committed step print the same bytes. *)
Definition agree (es : list WalEntry) : Prop :=
  ∀ e e', e ∈ es → e' ∈ es → StepIndex e = StepIndex e' → walEntriesEquivalent e e' = true.

(** Everything belongs to the task and no committed step is ambiguous. *)
Definition coherent (taskID : uuid) (cps : list (option CheckpointPayload)) : Prop :=
  Forall (λ cp, cp_TaskID cp = taskID) (omap id cps) ∧
  Forall (λ e, we_TaskID e = taskID) (all_entries cps) ∧
  agree (committed (all_entries cps)).

(** The committed prefix [0 .. last]. *)
Definition prefix_entries (es : list WalEntry) (last : Z) : option (list WalEntry) :=
  mapM (λ s, first_at s es) (seqZ 0 (last + 1)).

(** ** The merge agrees with the reference *)

Lemma first_at_app s l k : first_at s (l ++ k) = first_at s l ∪ first_at s k.
Proof.
  unfold first_at. rewrite filter_app.
  destruct (filter _ l); cbn; by destruct (head _).
Qed.

Lemma first_at_Some s es e :
  first_at s es = Some e → e ∈ es ∧ StepIndex e = s.
Proof.
  unfold first_at. intros Hh.
  assert (e ∈ filter (λ e, StepIndex e = s) es) as Hin.
  { destruct (filter _ es); simplify_eq/=. set_solver. }
  apply list_elem_of_filter in Hin. tauto.
Qed.

Lemma first_at_None s es e : first_at s es = None → e ∈ es → StepIndex e ≠ s.
Proof.
  unfold first_at. intros Hh He Hs.
  assert (e ∈ filter (λ e, StepIndex e = s) es) as Hin by (by apply list_elem_of_filter).
  destruct (filter _ es); simplify_eq/=. set_solver.
Qed.

Lemma committed_app l k : committed (l ++ k) = committed l ++ committed k.
Proof. apply filter_app. Qed.

Lemma committed_one e : committed [e] = if is_committed e then [e] else [].
Proof. unfold committed. cbn. by destruct (is_committed e). Qed.

Lemma all_entries_app l k : all_entries (l ++ k) = all_entries l ++ all_entries k.
Proof. unfold all_entries. by rewrite omap_app, fmap_app, concat_app. Qed.

(** [m] holds the first entry of each step of [seen]. *)
Definition represents (seen : list WalEntry) (m : gmap Z WalEntry) : Prop :=
  agree seen ∧ ∀ s, m !! s = first_at s seen.

Lemma agree_app_l l k : agree (l ++ k) → agree l.
Proof. intros Ha e e' He He'. apply Ha; set_solver. Qed.

Lemma agree_snoc seen e :
  agree seen →
  match first_at (StepIndex e) seen with
  | Some x => walEntriesEquivalent x e = true
  | None => True
  end ↔ agree (seen ++ [e]) .
Proof.
  intros Ha. split.
  - intros Hx. assert (∀ y, y ∈ seen → StepIndex y = StepIndex e → walEntriesEquivalent y e = true) as Hy.
    { intros y Hy Heq. destruct (first_at _ seen) as [x|] eqn:Hf.
      - apply first_at_Some in Hf as [Hin Hs].
        eapply walEntriesEquivalent_trans; [|exact Hx]. apply Ha; [done..|congruence].
      - by apply (first_at_None _ _ y) in Hf. }
    intros a b Hin Hin' Heq.
    apply elem_of_app in Hin as [Hin|Hone];
      apply elem_of_app in Hin' as [Hin'|Hone']; try apply list_elem_of_singleton in Hone as ->;
      try apply list_elem_of_singleton in Hone' as ->; auto.
    + rewrite walEntriesEquivalent_sym. auto.
    + apply walEntriesEquivalent_refl.
  - intros Hs. destruct (first_at _ seen) as [x|] eqn:Hf; [|done].
    apply first_at_Some in Hf as [Hin Hstep]. apply Hs; set_solver.
Qed.

Lemma add_entry_spec taskID seen m e :
  represents seen m →
  match add_entry taskID m e with
  | Ok m' => we_TaskID e = taskID ∧ represents (seen ++ committed [e]) m'
  | Err _ => we_TaskID e ≠ taskID ∨ ¬ agree (seen ++ committed [e])
  end.
Proof.
  intros [Ha Hm]. unfold add_entry. rewrite committed_one.
  case_bool_decide as Ht; cbn [negb]; [|by left].
  destruct (is_committed e) eqn:Hc; cbn [negb]; [|by rewrite app_nil_r].
  rewrite (Hm (StepIndex e)). pose proof (agree_snoc seen e Ha) as Hs.
  destruct (first_at (StepIndex e) seen) as [x|] eqn:Hf.
  - destruct (walEntriesEquivalent x e) eqn:Hx; cbn [negb].
    + split; [done|]. split; [by apply Hs|]. intros s. rewrite Hm, first_at_app.
      destruct (first_at s seen) eqn:Hfs; [by destruct (first_at s [e])|].
      destruct (decide (StepIndex e = s)) as [<-|Hne]; [congruence|].
      unfold first_at. by rewrite filter_cons_False, filter_nil by done.
    + right. rewrite <-Hs. by rewrite not_true_iff_false.
  - split; [done|]. split; [by apply Hs|]. intros s. rewrite first_at_app.
    unfold first_at at 2. destruct (decide (StepIndex e = s)) as [<-|Hne].
    + by rewrite lookup_insert_eq, Hf, filter_cons_True by done.
    + rewrite lookup_insert_ne, Hm, filter_cons_False, filter_nil by done.
      by destruct (first_at s seen).
Qed.

Lemma add_entries_spec taskID seen m es :
  represents seen m →
  match add_entries taskID m es with
  | Ok m' => Forall (λ e, we_TaskID e = taskID) es ∧ represents (seen ++ committed es) m'
  | Err _ => ¬ Forall (λ e, we_TaskID e = taskID) es ∨ ¬ agree (seen ++ committed es)
  end.
Proof.
  revert seen m. induction es as [|e es IH]; intros seen m Hm; cbn [add_entries].
  { by rewrite app_nil_r. }
  assert (Forall (λ e, we_TaskID e = taskID) (e :: es) ↔
          we_TaskID e = taskID ∧ Forall (λ e, we_TaskID e = taskID) es) as HF by (by rewrite Forall_cons).
  change (committed (e :: es)) with (committed ([e] ++ es)). rewrite committed_app, app_assoc.
  pose proof (add_entry_spec taskID seen m e Hm) as He.
  unfold mbind, res_bind. destruct (add_entry taskID m e) as [m'|err].
  - destruct He as [Ht Hm']. specialize (IH _ _ Hm'). destruct (add_entries _ _ _); tauto.
  - destruct He as [Ht|Hn]; [tauto|]. right. intros Hag%agree_app_l. done.
Qed.

(** The fold of [scan_checkpoints] over [latest]. *)
Lemma latest_of_snoc cps cp :
  latest_of (cps ++ [cp]) =
  match latest_of cps with
  | None => Some cp
  | Some _ => if TaskCheckpointAdvances (latest_of cps) (Some cp) then Some cp else latest_of cps
  end.
Proof.
  destruct cps as [|c cps]; [done|]. cbn. rewrite foldl_snoc. by case_match.
Qed.

Lemma scan_checkpoints_spec taskID done m cps :
  represents (committed (all_entries done)) m → coherent taskID done →
  match scan_checkpoints taskID (latest_of (omap id done)) m cps with
  | Ok (l, m') =>
    l = latest_of (omap id (done ++ cps)) ∧ coherent taskID (done ++ cps) ∧
    represents (committed (all_entries (done ++ cps))) m'
  | Err _ => ¬ coherent taskID (done ++ cps)
  end.
Proof.
  revert done m. induction cps as [|[cp|] cps IH]; intros done m Hm Hc; cbn [scan_checkpoints].
  - by rewrite app_nil_r.
  - rewrite (cons_middle (Some cp)), app_assoc.
    assert (all_entries (done ++ [Some cp]) = all_entries done ++ WalEntries cp) as Hall.
    { rewrite all_entries_app. unfold all_entries at 2. cbn. by rewrite app_nil_r. }
    assert (coherent taskID ((done ++ [Some cp]) ++ cps) → coherent taskID (done ++ [Some cp])) as Hpre.
    { intros (H1 & H2 & H3). unfold coherent.
      rewrite omap_app in H1. rewrite all_entries_app in H2, H3.
      rewrite committed_app in H3. apply Forall_app in H1, H2. apply agree_app_l in H3. tauto. }
    case_bool_decide as Ht; cbn [negb].
    + pose proof (add_entries_spec taskID _ m (WalEntries cp) Hm) as Hadd.
      unfold mbind, res_bind. destruct (add_entries _ _ _) as [m'|e].
      * destruct Hadd as [HF Hm']. specialize (IH (done ++ [Some cp]) m').
        rewrite Hall, committed_app in IH.
        replace (omap id (done ++ [Some cp])) with (omap id done ++ [cp]) in IH
          by (by rewrite omap_app).
        rewrite latest_of_snoc in IH. apply IH; [done|].
        destruct Hc as (H1 & H2 & H3). split_and!.
        -- rewrite omap_app. apply Forall_app. split; [done|]. by apply Forall_singleton.
        -- rewrite Hall. by apply Forall_app.
        -- rewrite Hall, committed_app. apply Hm'.
      * intros (H1 & H2 & H3)%Hpre. rewrite Hall in H2, H3. rewrite committed_app in H3.
        apply Forall_app in H2. tauto.
    + intros (H1 & _)%Hpre. rewrite omap_app, Forall_app in H1. cbn in H1.
      rewrite Forall_singleton in H1. tauto.
  - rewrite (cons_middle None), app_assoc.
    assert (omap id (done ++ [None]) = omap id done) as Ho by (by rewrite omap_app, app_nil_r).
    specialize (IH (done ++ [None]) m).
    unfold coherent, all_entries in *. rewrite Ho in IH. by apply IH.
Qed.

(** A map with all of [0 .. step - 1] has at least [step] entries. *)
Lemma steps_below_size (m : gmap Z WalEntry) step :
  0 ≤ step → (∀ s, 0 ≤ s < step → is_Some (m !! s)) → step ≤ Z.of_nat (size m).
Proof.
  intros Hpos Hall.
  assert (list_to_set (seqZ 0 step) ⊆@{gset Z} dom m) as Hsub.
  { intros s Hs. apply elem_of_list_to_set, elem_of_seqZ in Hs. apply elem_of_dom, Hall. lia. }
  apply subseteq_size in Hsub.
  rewrite size_list_to_set, length_seqZ, size_dom in Hsub by apply NoDup_seqZ. lia.
Qed.

Lemma seqZ_snoc_end step last :
  step ≤ last → seqZ step (last - step + 1) = step :: seqZ (step + 1) (last - (step + 1) + 1).
Proof. intros. rewrite seqZ_cons by lia. do 2 f_equal; lia. Qed.

(** The collecting loop is the [mapM] of lookups: its fuel never runs out and
    its counter never wraps. *)
Lemma collect_fuel_enough fuel (m : gmap Z WalEntry) step last :
  0 ≤ step → last ≤ uint32_max → (∀ s, 0 ≤ s < step → is_Some (m !! s)) →
  Z.of_nat (size m) - step < Z.of_nat fuel - 1 →
  res_to_option (collect_steps fuel m step last) = mapM (λ s, m !! s) (seqZ step (last - step + 1)).
Proof.
  revert step. induction fuel as [|fuel IH]; intros step Hpos Hmax Hall Hfuel.
  { pose proof (steps_below_size m step Hpos Hall). lia. }
  cbn [collect_steps]. destruct (Z.ltb_spec last step).
  { by rewrite seqZ_nil by lia. }
  rewrite seqZ_snoc_end by done. cbn [mapM].
  destruct (m !! step) as [e|] eqn:He; cbn; [|done].
  destruct (Z.eqb_spec step uint32_max).
  { rewrite seqZ_nil by lia. done. }
  assert (∀ s, 0 ≤ s < step + 1 → is_Some (m !! s)) as Hall'.
  { intros s Hs. destruct (decide (s = step)) as [->|]; [by eexists|]. apply Hall. lia. }
  specialize (IH (step + 1)). rewrite <-IH; [|lia|done|done|].
  - by destruct (collect_steps _ _ _ _).
  - pose proof (steps_below_size m (step + 1) ltac:(lia) Hall'). lia.
Qed.

(** With this much fuel, more changes nothing, and what is left at the end is a
    list or a missing step. *)
Lemma collect_stable fuel fuel' (m : gmap Z WalEntry) step last :
  0 ≤ step → (∀ s, 0 ≤ s < step → is_Some (m !! s)) →
  Z.of_nat (size m) - step < Z.of_nat fuel - 1 → (fuel ≤ fuel')%nat →
  collect_steps fuel' m step last = collect_steps fuel m step last ∧
  ∀ e, collect_steps fuel m step last = Err e → ∃ s, step ≤ s ≤ last ∧ m !! s = None ∧
    e = invalid_cumulative ("missing committed step " +:+ itoa s).
Proof.
  revert step fuel'. induction fuel as [|fuel IH]; intros step fuel' Hpos Hall Hfuel Hle.
  { pose proof (steps_below_size m step Hpos Hall). lia. }
  destruct fuel' as [|fuel']; [lia|]. cbn [collect_steps]. destruct (Z.ltb_spec last step); [done|].
  destruct (m !! step) as [e|] eqn:He.
  2:{ split; [done|]. intros e [= <-]. exists step. split_and!; [lia..|done|done]. }
  destruct (Z.eqb_spec step uint32_max); [done|].
  assert (∀ s, 0 ≤ s < step + 1 → is_Some (m !! s)) as Hall'.
  { intros s Hs. destruct (decide (s = step)) as [->|]; [by eexists|]. apply Hall. lia. }
  pose proof (steps_below_size m (step + 1) ltac:(lia) Hall').
  destruct (IH (step + 1) fuel') as [-> Herr]; [lia|done|lia|lia|]. split; [done|].
  intros err Heq. destruct (collect_steps fuel m (step + 1) last) as [es|err']; [done|]. cbn in Heq. injection Heq as ->.
  destruct (Herr _ eq_refl) as (s & ? & ? & ?). exists s. split_and!; [lia..|done|done].
Qed.


Lemma prefix_entries_steps es last entries :
  prefix_entries es last = Some entries → StepIndex <$> entries = seqZ 0 (last + 1).
Proof.
  unfold prefix_entries. intros HF%mapM_Some.
  induction HF as [|s e ss es' Hs _ IH]; [done|]. cbn. f_equal; [|done].
  by apply first_at_Some in Hs as [_ ?].
Qed.

Lemma prefix_entries_elem es last entries e :
  prefix_entries es last = Some entries → e ∈ entries → e ∈ es.
Proof.
  unfold prefix_entries. intros HF%mapM_Some He.
  apply list_elem_of_lookup in He as [i Hi].
  destruct (Forall2_lookup_r _ _ _ _ _ HF Hi) as (s & _ & Hs).
  by apply first_at_Some in Hs as [? _].
Qed.

Lemma StronglySorted_seqZ a n : StronglySorted Z.lt (seqZ a n).
Proof.
  destruct (decide (0 ≤ n)); [|rewrite seqZ_nil by lia; constructor].
  revert a. pattern n. apply natlike_ind; [constructor| |done].
  intros x Hx IH a. rewrite seqZ_cons by lia. rewrite Z.pred_succ.
  constructor; [done|]. apply Forall_forall. intros s Hs%elem_of_seqZ. lia.
Qed.

Lemma represents_empty : represents [] ∅.
Proof. split; [intros e e' He; set_solver|done]. Qed.

Lemma coherent_nil taskID : coherent taskID [].
Proof. split_and!; [done..|]. intros e e' He. set_solver. Qed.

(** The value the reference prescribes. *)
Definition cumulative_of (cp : CheckpointPayload) (entries : list WalEntry) : CheckpointPayload :=
  mkCheckpoint (cp_TaskID cp) (cp_ResumeToken cp) entries (cp_Metadata cp) (CapturedAt cp).

Definition fits_uint32 (cps : list (option CheckpointPayload)) : Prop :=
  Forall (λ cp, in_uint32 (LastStep cp)) (omap id cps).

Lemma latest_of_elem cps cp : latest_of cps = Some cp → cp ∈ cps.
Proof.
  destruct cps as [|c cps]; [done|]. intros [= <-].
  revert c. induction cps as [|d cps IH]; intros c; cbn; [set_solver|].
  specialize (IH (if LastStep c <? LastStep d then d else c)). set_unfold.
  destruct (_ <? _); naive_solver.
Qed.

Lemma latest_of_max cps cp c : latest_of cps = Some cp → c ∈ cps → LastStep c ≤ LastStep cp.
Proof.
  destruct cps as [|d cps]; [done|]. intros [= <-].
  assert (∀ cps d, LastStep d ≤ LastStep (foldl (λ best c, if LastStep best <? LastStep c then c else best) d cps)
    ∧ ∀ c, c ∈ cps → LastStep c ≤ LastStep (foldl (λ best c, if LastStep best <? LastStep c then c else best) d cps)) as Hgen.
  { clear. induction cps as [|x cps IH]; intros d; cbn; [split; [lia|set_solver]|].
    destruct (IH (if LastStep d <? LastStep x then x else d)) as [H1 H2].
    destruct (Z.ltb_spec (LastStep d) (LastStep x)); set_unfold; naive_solver lia. }
  destruct (Hgen cps d) as [Ha Hb]. intros [->|Hc]%elem_of_cons; [exact Ha|exact (Hb _ Hc)].
Qed.

(** The scan from the empty state. *)
Lemma scan_from_start taskID cps :
  match scan_checkpoints taskID None ∅ cps with
  | Ok (l, m) =>
    l = latest_of (omap id cps) ∧ coherent taskID cps ∧
    represents (committed (all_entries cps)) m
  | Err _ => ¬ coherent taskID cps
  end.
Proof. exact (scan_checkpoints_spec taskID [] ∅ cps represents_empty (coherent_nil taskID)). Qed.

Lemma collect_prefix es m last :
  represents es m → in_uint32 last →
  res_to_option (collect_steps (S (S (size m))) m 0 last) = prefix_entries es last.
Proof.
  intros [_ Hm] [Hlo Hhi]. rewrite collect_fuel_enough by (intros; lia).
  unfold prefix_entries. rewrite Z.sub_0_r. apply mapM_ext. intros s. apply Hm.
Qed.

(** No checkpoint is built only when there is none. *)
Lemma build_none_empty taskID cps cp :
  BuildCumulativeRecoveryCheckpoint taskID cps = Ok None → Some cp ∉ cps.
Proof.
  unfold BuildCumulativeRecoveryCheckpoint. case_bool_decide as Hn; [done|].
  case_bool_decide as Hc; [subst; set_solver|].
  pose proof (scan_from_start taskID cps) as Hscan. unfold mbind, res_bind.
  destruct (scan_checkpoints _ _ _ _) as [[l m]|]; [|done]. destruct Hscan as (-> & _ & _).
  destruct (latest_of (omap id cps)) as [c|] eqn:Hl.
  - destruct (negb _); [done|]. by destruct (collect_steps _ _ _ _).
  - intros _ Hin. assert (cp ∈ omap id cps) as Ho by (apply list_elem_of_omap; by exists (Some cp)).
    destruct (omap id cps); [set_solver|done].
Qed.

Context `{!SortSliceLaws}.

(** The equivalence the two theorems below share. *)
Lemma cumulative_exact_lemma taskID cps out :
  fits_uint32 cps →
  BuildCumulativeRecoveryCheckpoint taskID cps = Ok (Some out) ↔
  taskID ≠ uuid_Nil ∧ coherent taskID cps ∧
  ∃ cp entries,
    latest_of (omap id cps) = Some cp ∧
    TaskRecoveryCheckpointUsable taskID (Some cp) = true ∧
    prefix_entries (committed (all_entries cps)) (LastStep cp) = Some entries ∧
    out = cumulative_of cp entries.
Proof.
  intros Hfit. unfold BuildCumulativeRecoveryCheckpoint.
  case_bool_decide as Hnil; [split; [done|tauto]|].
  case_bool_decide as Hcps; [subst; split; [done|intros (_ & _ & cp & es & Hl & _); done]|].
  pose proof (scan_from_start taskID cps) as Hscan.
  unfold mbind, res_bind. destruct (scan_checkpoints _ _ _ _) as [[l m]|e]; [|split; [done|tauto]].
  destruct Hscan as (-> & Hcoh & Hm).
  destruct (latest_of _) as [cp|] eqn:Hl; [|split; [done|intros (_ & _ & cp & es & Hl' & _); done]].
  destruct (TaskRecoveryCheckpointUsable taskID (Some cp)) eqn:Hu;
    cbn [negb]; [|split; [done|intros (_ & _ & cp' & es & [= <-] & ? & _); congruence]].
  assert (in_uint32 (LastStep cp)) as Hlast.
  { unfold fits_uint32 in Hfit. rewrite Forall_forall in Hfit. by apply Hfit, latest_of_elem. }
  pose proof (collect_prefix _ _ _ Hm Hlast) as Hcol.
  destruct (collect_steps _ _ _ _) as [entries|e]; cbn in Hcol.
  - symmetry in Hcol. rewrite (sort_slice_id StepIndex entries).
    2:{ rewrite (prefix_entries_steps _ _ _ Hcol). apply StronglySorted_seqZ. }
    split.
    + intros [= <-]. eauto 10.
    + intros (_ & _ & cp' & es & [= <-] & _ & Hes & ->). unfold cumulative_of. congruence.
  - split; [done|]. intros (_ & _ & cp' & es & [= <-] & _ & Hes & _). congruence.
Qed.

(** C5: [BuildCumulativeRecoveryCheckpoint] returns a checkpoint exactly when
    the reference does: all checkpoints and entries belong to the (non-nil)
    task, duplicates of a committed step agree, the checkpoint with the largest
    watermark is usable and every step up to that watermark is committed; the
    result then carries that checkpoint's token, metadata and capture time and,
    for each step from 0 to the watermark, the first committed entry of it.  In
    particular the loop always ends, also at the largest watermark. *)
Theorem cumulative_checkpoint_exact taskID cps out :
  fits_uint32 cps →
  BuildCumulativeRecoveryCheckpoint taskID cps = Ok (Some out) ↔
  taskID ≠ uuid_Nil ∧ coherent taskID cps ∧
  ∃ cp entries,
    latest_of (omap id cps) = Some cp ∧
    TaskRecoveryCheckpointUsable taskID (Some cp) = true ∧
    prefix_entries (committed (all_entries cps)) (LastStep cp) = Some entries ∧
    out = cumulative_of cp entries.
Proof. apply cumulative_exact_lemma. Qed.

Lemma prefix_steps_bounds entries last :
  StepIndex <$> entries = seqZ 0 (last + 1) → Forall (λ e, 0 ≤ StepIndex e ≤ last) entries.
Proof.
  intros Hs. apply Forall_forall. intros e He.
  apply (list_elem_of_fmap_2 StepIndex) in He. rewrite Hs in He. apply elem_of_seqZ in He. lia.
Qed.

Lemma elem_of_all_entries cps e :
  e ∈ all_entries cps ↔ ∃ cp, Some cp ∈ cps ∧ e ∈ WalEntries cp.
Proof.
  unfold all_entries. rewrite list_elem_of_In, in_concat.
  setoid_rewrite <-list_elem_of_In. setoid_rewrite list_elem_of_fmap.
  setoid_rewrite list_elem_of_omap. unfold id. naive_solver.
Qed.

Lemma elem_of_committed es e : e ∈ committed es ↔ e ∈ es ∧ is_committed e = true.
Proof. unfold committed. rewrite list_elem_of_filter. tauto. Qed.

(** The statement of the theorem below, for use in other files. *)
Lemma cumulative_faithful_lemma taskID cps out :
  fits_uint32 cps →
  (∀ cp, Some cp ∈ cps → TaskRecoveryCheckpointUsable taskID (Some cp) = true) →
  BuildCumulativeRecoveryCheckpoint taskID cps = Ok (Some out) →
  TaskRecoveryCheckpointUsable taskID (Some out) = true ∧
  StepIndex <$> WalEntries out = seqZ 0 (LastStep out + 1) ∧
  (∀ cp, Some cp ∈ cps → LastStep cp ≤ LastStep out) ∧
  (∀ e, e ∈ WalEntries out →
     is_committed e = true ∧ ∃ cp, Some cp ∈ cps ∧ e ∈ WalEntries cp) ∧
  (∀ cp e, Some cp ∈ cps → e ∈ WalEntries cp → is_committed e = true →
     0 ≤ StepIndex e ≤ LastStep out →
     ∃ e', e' ∈ WalEntries out ∧ StepIndex e' = StepIndex e ∧ walEntriesEquivalent e' e = true).
Proof.
  intros Hfit Hus HB.
  apply cumulative_exact_lemma in HB as (Hnil & (Htask & Hent & Hagree) & cp & entries & Hl & Hu & Hpre & ->); [|done].
  pose proof (prefix_entries_steps _ _ _ Hpre) as Hsteps.
  assert (∀ e, e ∈ entries → is_committed e = true ∧ e ∈ all_entries cps) as Hin.
  { intros e He. apply (prefix_entries_elem _ _ _ e) in Hpre; [|done].
    apply elem_of_committed in Hpre. tauto. }
  assert (∀ cp, Some cp ∈ cps → cp ∈ omap id cps) as Homap.
  { intros c Hc. apply list_elem_of_omap. by exists (Some c). }
  assert (Some cp ∈ cps) as Hcp.
  { apply latest_of_elem, list_elem_of_omap in Hl as (o & Ho & Heq). unfold id in Heq. by subst o. }
  assert (in_uint32 (LastStep cp)) as [Hlo Hhi].
  { unfold fits_uint32 in Hfit. rewrite Forall_forall in Hfit. by apply Hfit, Homap. }
  change (LastStep (cumulative_of cp entries)) with (LastStep cp).
  change (WalEntries (cumulative_of cp entries)) with entries.
  split_and!.
  - apply usable_spec. cbn [cumulative_of cp_TaskID WalEntries]. split_and!; [done|..].
    + apply usable_spec in Hu. tauto.
    + apply watermark_consistent_spec.
      * eapply Forall_impl; [by apply prefix_steps_bounds|]. cbn. lia.
      * exact Hlo.
      * split; [|right].
        -- eapply Forall_impl; [by apply prefix_steps_bounds|]. intros e He. apply He.
        -- assert (LastStep cp ∈ StepIndex <$> entries) as Hlast by (rewrite Hsteps; apply elem_of_seqZ; lia).
           apply list_elem_of_fmap in Hlast as (e & Heq & He). exists e. by split; [|symmetry].
    + apply Forall_forall. intros e He. rewrite Forall_forall in Hent. by apply Hent, Hin.
    + apply Forall_forall. intros e (_ & He)%Hin. apply elem_of_all_entries in He as (c & Hc & He).
      specialize (Hus c Hc). apply usable_spec in Hus as (_ & _ & _ & _ & Hids).
      rewrite Forall_forall in Hids. by apply Hids.
  - exact Hsteps.
  - intros c Hc. apply (latest_of_max _ _ _ Hl). by apply Homap.
  - intros e [? He]%Hin. by apply elem_of_all_entries in He.
  - intros c e Hc He Hcom Hle.
    assert (StepIndex e ∈ StepIndex <$> entries) as He'.
    { rewrite Hsteps. apply elem_of_seqZ. lia. }
    apply list_elem_of_fmap in He' as (e' & Heq & He'). exists e'. split_and!; [done..|].
    apply Hagree; [by apply elem_of_committed, and_comm, Hin| |done].
    apply elem_of_committed. split; [|done]. apply elem_of_all_entries. eauto.
Qed.

(** C6: the cumulative checkpoint of usable delta checkpoints is itself usable
    for recovery, holds only committed entries that some checkpoint carried,
    exactly one for each step from 0 to the largest watermark, and loses
    nothing: every committed entry up to that watermark is in it up to the
    bytes it prints. *)
Theorem cumulative_checkpoint_faithful taskID cps out :
  fits_uint32 cps →
  (∀ cp, Some cp ∈ cps → TaskRecoveryCheckpointUsable taskID (Some cp) = true) →
  BuildCumulativeRecoveryCheckpoint taskID cps = Ok (Some out) →
  TaskRecoveryCheckpointUsable taskID (Some out) = true ∧
  StepIndex <$> WalEntries out = seqZ 0 (LastStep out + 1) ∧
  (∀ cp, Some cp ∈ cps → LastStep cp ≤ LastStep out) ∧
  (∀ e, e ∈ WalEntries out →
     is_committed e = true ∧ ∃ cp, Some cp ∈ cps ∧ e ∈ WalEntries cp) ∧
  (∀ cp e, Some cp ∈ cps → e ∈ WalEntries cp → is_committed e = true →
     0 ≤ StepIndex e ≤ LastStep out →
     ∃ e', e' ∈ WalEntries out ∧ StepIndex e' = StepIndex e ∧ walEntriesEquivalent e' e = true).
Proof. apply cumulative_faithful_lemma. Qed.
End Cumulative.

(** ** A concrete task: two delta checkpoints that overlap in step 1 *)
Module CheckpointExample.
#[local] Existing Instance demo_ext.
#[local] Existing Instance stable_sort.
#[local] Existing Instance stable_sort_laws.

Definition entry (i : Z) : WalEntry :=
  mkWalEntry (Z.to_N (100 + i)) 7%N i None " Committed" "" None 0 "rt-1" None.

Definition delta (l : list Z) (last : Z) : CheckpointPayload :=
  mkCheckpoint 7%N (mkToken last "" "rt-1") (entry <$> l) "{}" 0.

Definition deltas : list (option CheckpointPayload) :=
  [Some (delta [0; 1] 1); None; Some (delta [1; 2] 2)].

Lemma deltas_fit : fits_uint32 deltas.
Proof. repeat constructor; done. Qed.

Lemma deltas_build : BuildCumulativeRecoveryCheckpoint 7%N deltas = Ok (Some (delta [0; 1; 2] 2)).
Proof. vm_compute. reflexivity. Qed.

Lemma cumulative_checkpoint_exact_witness :
  coherent 7%N deltas ∧ latest_of (omap id deltas) = Some (delta [1; 2] 2).
Proof.
  destruct (proj1 (cumulative_checkpoint_exact 7%N deltas _ deltas_fit) deltas_build)
    as (_ & Hc & cp & entries & Hl & _).
  split; [exact Hc|]. vm_compute. reflexivity.
Defined.

Lemma cumulative_checkpoint_faithful_witness :
  TaskRecoveryCheckpointUsable 7%N (Some (delta [0; 1; 2] 2)) = true ∧
  StepIndex <$> WalEntries (delta [0; 1; 2] 2) = [0; 1; 2].
Proof.
  assert (∀ cp, Some cp ∈ deltas → TaskRecoveryCheckpointUsable 7%N (Some cp) = true) as Hu.
  { intros cp Hcp. unfold deltas in Hcp. repeat (apply elem_of_cons in Hcp as [Heq|Hcp];
      [first [discriminate Heq | injection Heq as ->; vm_compute; reflexivity]|]).
    by apply not_elem_of_nil in Hcp. }
  destruct (cumulative_checkpoint_faithful 7%N deltas _ deltas_fit Hu deltas_build)
    as (Husable & Hsteps & _).
  split; [exact Husable|exact Hsteps].
Defined.

End CheckpointExample.
