(* ===== verification/Types.v ===== *)
(** * The coordinator's data types

    The structs of coordinator/checkpoint_store.go and
    coordinator/task_governance.go, one field per Go field.  Pointers are
    [option]s; a [json.RawMessage] is its text, empty when nil; nil and empty
    slices are both [[]]. *)

From S2P Require Import Prelude GoStrings Json Ext WalCodec.
From coqutil Require Export Datatypes.RecordSetters.
Export DoubleBraceUpdate.
Open Scope Z_scope.

(** ** Task statuses *)

Inductive TaskRecordStatus : Type :=
| TaskStatusPending
| TaskStatusDispatched
| TaskStatusCheckpointed
| TaskStatusCompleted
| TaskStatusFailed
| TaskStatusRecovering
| TaskStatusCanceled
| TaskStatusApprovalRequired.

Global Instance TaskRecordStatus_eq_dec : EqDecision TaskRecordStatus.
Proof. solve_decision. Defined.

Definition status_string (s : TaskRecordStatus) : string :=
  match s with
  | TaskStatusPending => "pending"
  | TaskStatusDispatched => "dispatched"
  | TaskStatusCheckpointed => "checkpointed"
  | TaskStatusCompleted => "completed"
  | TaskStatusFailed => "failed"
  | TaskStatusRecovering => "recovering"
  | TaskStatusCanceled => "canceled"
  | TaskStatusApprovalRequired => "approval_required"
  end.

Inductive TaskDurabilityClass : Type :=
| TaskDurabilityClassResumable
| TaskDurabilityClassStreamingNonResumable.

Global Instance TaskDurabilityClass_eq_dec : EqDecision TaskDurabilityClass.
Proof. solve_decision. Defined.

Definition TaskFailureReasonStreamingResumeUnsupported : string :=
  "streaming durable tasks do not support resume".
Definition TaskFailureReasonInvalidRecoveryCheckpoint : string :=
  "invalid checkpoint for recovery".

(** ** Errors *)
Definition ErrTaskTransitionRejected : goerror := Sentinel "task transition rejected".
Definition ErrCredentialReferenceRevoked : goerror := Sentinel "credential reference revoked".
Definition ErrNoRows : goerror := Sentinel "sql: no rows in result set".
Definition ErrTaskCapabilityDenied : goerror := Sentinel "task capability policy denied".

(** ** Proof state *)
Record TaskProofState := mkProofState {
  ps_ExecutionID : string;
  ps_ExpectedHash : string;
  ps_StoredHash : string;
  ps_Signature : string;
  ps_Status : string;
  ps_CheckedAt : option time;
  ps_Verified : option bool;
  ps_HashValid : option bool;
  ps_SignatureMatches : option bool;
  ps_RuntimeKeyFound : option bool;
  ps_ChainLinkValid : option bool;
  ps_VerificationReason : string;
  ps_VerifiedAt : option time;
}.

Record TaskProofVerificationSummary := mkProofSummary {
  pv_Verified : bool;
  pv_HashValid : bool;
  pv_SignatureMatches : bool;
  pv_RuntimeKeyFound : bool;
  pv_ChainChecked : bool;
  pv_ChainLinkValid : bool;
  pv_Reason : string;
}.

(** ** Failure details *)
Record TaskFailureDetails := mkFailureDetails {
  fd_Source : string;
  fd_Operation : string;
  fd_StatusCode : Z;
  fd_RejectionType : string;
  fd_Message : string;
  fd_StepIndex : option Z;
  fd_Domain : string;
  fd_NodeID : string;
  fd_RequestedLastStep : option Z;
  fd_LocalLastStep : option Z;
  fd_RequestedCheckpointDigest : string;
  fd_LocalCheckpointDigest : string;
  fd_ResumeCheckpointProvided : option bool;
  fd_EffectState : string;
  fd_ReconciliationRequired : bool;
  fd_TargetErrorCode : string;
  fd_TargetHost : string;
  fd_TargetResponseDigest : string;
}.

(** The JSON form of the failure details, as stored in [failure_details]. *)
Definition omit_empty (k v : string) : list (string * string) :=
  if nonempty v then [(k, str_text v)] else [].

Definition TaskFailureDetails_zero : TaskFailureDetails :=
  mkFailureDetails "" "" 0 "" "" None "" "" None None "" "" None "" false "" "" "".

#[export] Instance set_fd_Source : Setter fd_Source := _.
#[export] Instance set_fd_Operation : Setter fd_Operation := _.
#[export] Instance set_fd_StatusCode : Setter fd_StatusCode := _.
#[export] Instance set_fd_RejectionType : Setter fd_RejectionType := _.
#[export] Instance set_fd_Message : Setter fd_Message := _.
#[export] Instance set_fd_StepIndex : Setter fd_StepIndex := _.
#[export] Instance set_fd_Domain : Setter fd_Domain := _.
#[export] Instance set_fd_NodeID : Setter fd_NodeID := _.
#[export] Instance set_fd_RequestedLastStep : Setter fd_RequestedLastStep := _.
#[export] Instance set_fd_LocalLastStep : Setter fd_LocalLastStep := _.
#[export] Instance set_fd_RequestedCheckpointDigest : Setter fd_RequestedCheckpointDigest := _.
#[export] Instance set_fd_LocalCheckpointDigest : Setter fd_LocalCheckpointDigest := _.
#[export] Instance set_fd_ResumeCheckpointProvided : Setter fd_ResumeCheckpointProvided := _.
#[export] Instance set_fd_EffectState : Setter fd_EffectState := _.
#[export] Instance set_fd_ReconciliationRequired : Setter fd_ReconciliationRequired := _.
#[export] Instance set_fd_TargetErrorCode : Setter fd_TargetErrorCode := _.
#[export] Instance set_fd_TargetHost : Setter fd_TargetHost := _.
#[export] Instance set_fd_TargetResponseDigest : Setter fd_TargetResponseDigest := _.

Definition TaskFailureDetails_text (d : TaskFailureDetails) : string :=
  obj_text (omit_empty "source" (fd_Source d)
    ++ omit_empty "operation" (fd_Operation d)
    ++ (if fd_StatusCode d =? 0 then [] else [("status_code", num_text (fd_StatusCode d))])
    ++ omit_empty "rejection_type" (fd_RejectionType d)
    ++ omit_empty "message" (fd_Message d)
    ++ opt_member "step_index" (num_text <$> fd_StepIndex d)
    ++ omit_empty "domain" (fd_Domain d)
    ++ omit_empty "node_id" (fd_NodeID d)
    ++ opt_member "requested_last_step" (num_text <$> fd_RequestedLastStep d)
    ++ opt_member "local_last_step" (num_text <$> fd_LocalLastStep d)
    ++ omit_empty "requested_checkpoint_digest" (fd_RequestedCheckpointDigest d)
    ++ omit_empty "local_checkpoint_digest" (fd_LocalCheckpointDigest d)
    ++ opt_member "resume_checkpoint_provided" (bool_text <$> fd_ResumeCheckpointProvided d)
    ++ omit_empty "effect_state" (fd_EffectState d)
    ++ (if fd_ReconciliationRequired d then [("reconciliation_required", "true")] else [])
    ++ omit_empty "target_error_code" (fd_TargetErrorCode d)
    ++ omit_empty "target_host" (fd_TargetHost d)
    ++ omit_empty "target_response_digest" (fd_TargetResponseDigest d)).

Definition TaskFailureDetails_fields : list (string * dec TaskFailureDetails) :=
  [("source", field fd_Source (λ x d, d {{ fd_Source := x }}) dec_string);
   ("operation", field fd_Operation (λ x d, d {{ fd_Operation := x }}) dec_string);
   ("status_code", field fd_StatusCode (λ x d, d {{ fd_StatusCode := x }}) (dec_int 64));
   ("rejection_type", field fd_RejectionType (λ x d, d {{ fd_RejectionType := x }}) dec_string);
   ("message", field fd_Message (λ x d, d {{ fd_Message := x }}) dec_string);
   ("step_index", field fd_StepIndex (λ x d, d {{ fd_StepIndex := x }}) (dec_ptr 0 (dec_uint 32)));
   ("domain", field fd_Domain (λ x d, d {{ fd_Domain := x }}) dec_string);
   ("node_id", field fd_NodeID (λ x d, d {{ fd_NodeID := x }}) dec_string);
   ("requested_last_step", field fd_RequestedLastStep (λ x d, d {{ fd_RequestedLastStep := x }}) (dec_ptr 0 (dec_uint 32)));
   ("local_last_step", field fd_LocalLastStep (λ x d, d {{ fd_LocalLastStep := x }}) (dec_ptr 0 (dec_uint 32)));
   ("requested_checkpoint_digest", field fd_RequestedCheckpointDigest (λ x d, d {{ fd_RequestedCheckpointDigest := x }}) dec_string);
   ("local_checkpoint_digest", field fd_LocalCheckpointDigest (λ x d, d {{ fd_LocalCheckpointDigest := x }}) dec_string);
   ("resume_checkpoint_provided", field fd_ResumeCheckpointProvided (λ x d, d {{ fd_ResumeCheckpointProvided := x }}) (dec_ptr false dec_bool));
   ("effect_state", field fd_EffectState (λ x d, d {{ fd_EffectState := x }}) dec_string);
   ("reconciliation_required", field fd_ReconciliationRequired (λ x d, d {{ fd_ReconciliationRequired := x }}) dec_bool);
   ("target_error_code", field fd_TargetErrorCode (λ x d, d {{ fd_TargetErrorCode := x }}) dec_string);
   ("target_host", field fd_TargetHost (λ x d, d {{ fd_TargetHost := x }}) dec_string);
   ("target_response_digest", field fd_TargetResponseDigest (λ x d, d {{ fd_TargetResponseDigest := x }}) dec_string)].

(** [json.Unmarshal] of a [failure_details] column; [None] is an error. *)
Definition unmarshalFailureDetails (text : string) : option TaskFailureDetails :=
  let '(d, ok) := unmarshal (dec_struct TaskFailureDetails_fields) text TaskFailureDetails_zero in
  if ok then Some d else None.

(** ** Governance *)
Record AgentIdentity := mkIdentity {
  AgentID : string;
  PrincipalID : string;
  SubmittedBy : string;
  ActingOnBehalfOf : string;
  DelegationChain : list string;
}.
Definition AgentIdentity_zero : AgentIdentity := mkIdentity "" "" "" "" [].

Record CredentialRequest := mkCredentialRequest {
  cr_Tool : string;
  cr_Capability : string;
  cr_Scope : string;
  cr_ExpiresInSeconds : Z;
}.

Record CredentialReference := mkCredentialReference {
  ref_ReferenceID : string;
  ref_TenantID : string;
  ref_TaskID : string;
  ref_Tool : string;
  ref_Capability : string;
  ref_Scope : string;
  ref_ExpiresAtUnixMs : Z;
  ref_Revocable : bool;
}.

Record CapabilityDecision := mkCapabilityDecision {
  cd_Capability : string;
  cd_Permit : bool;
  cd_Reason : string;
  cd_PolicyVersion : string;
}.

Record TaskPermissionEnvelope := mkPermissionEnvelope {
  pe_SchemaVersion : string;
  pe_EnvelopeID : string;
  pe_TenantID : string;
  pe_TaskID : string;
  pe_RuntimeID : option string;
  pe_AgentIdentity : AgentIdentity;
  pe_RequiredCapabilities : list string;
  pe_Decisions : list CapabilityDecision;
  pe_CredentialRefs : list CredentialReference;
  pe_IssuedAtUnixMs : Z;
  pe_ExpiresAtUnixMs : Z;
  pe_SignerKeyVersion : option string;
  pe_Signature : string;
}.

Record taskGovernance := mkGovernance {
  g_AgentIdentity : AgentIdentity;
  g_RequiredCapabilities : list string;
  g_CredentialRequests : list CredentialRequest;
}.
Definition taskGovernance_zero : taskGovernance := mkGovernance AgentIdentity_zero [] [].

Record capabilityPolicyEvaluation := mkCapabilityEvaluation {
  ce_Decisions : list CapabilityDecision;
  ce_PolicyVersion : string;
  ce_Permit : bool;
  ce_Reason : string;
}.

(** ** Task records *)
Record BoundActionRunIdentity := mkBoundAction {
  ba_BindingID : uuid;
  ba_ContractHash : string;
  ba_TargetActionID : uuid;
  ba_TargetVersionHash : string;
  ba_BusinessIdempotencyKey : string;
  ba_RequestFingerprint : string;
}.

Record TaskRecord := mkTask {
  t_TaskID : uuid;
  t_TenantID : string;
  t_Status : TaskRecordStatus;
  t_RuntimeID : option string;
  t_RuntimeEndpoint : option string;
  t_TaskDefinition : string;
  t_LastCheckpoint : option CheckpointPayload;
  t_ExecutionEnvelope : string;
  t_ExecutionReceipt : string;
  t_Proof : option TaskProofState;
  t_AgentIdentity : AgentIdentity;
  t_RequiredCapabilities : list string;
  t_CredentialRequests : list CredentialRequest;
  t_PermissionEnvelope : option TaskPermissionEnvelope;
  t_IdempotencyKey : string;
  t_FailureReason : option string;
  t_FailureDetails : option TaskFailureDetails;
  t_DeadlineAt : option time;
  t_DispatchedAt : option time;
  t_CompletedAt : option time;
  t_CanceledAt : option time;
  t_CreatedAt : time;
  t_AttemptCount : Z;
  t_HasIrreversibleEffect : bool;
  t_ExecutedTarget : option string;
  t_FallbackReason : option string;
  t_RegisteredAgentID : option uuid;
  t_RegisteredAgentName : string;
  t_BoundAction : option BoundActionRunIdentity;
}.

#[export] Instance set_t_Status : Setter t_Status := _.
#[export] Instance set_t_RuntimeID : Setter t_RuntimeID := _.
#[export] Instance set_t_RuntimeEndpoint : Setter t_RuntimeEndpoint := _.
#[export] Instance set_t_TaskDefinition : Setter t_TaskDefinition := _.
#[export] Instance set_t_PermissionEnvelope : Setter t_PermissionEnvelope := _.
#[export] Instance set_t_AgentIdentity : Setter t_AgentIdentity := _.
#[export] Instance set_t_RequiredCapabilities : Setter t_RequiredCapabilities := _.
#[export] Instance set_t_FailureReason : Setter t_FailureReason := _.
#[export] Instance set_t_FailureDetails : Setter t_FailureDetails := _.
#[export] Instance set_t_LastCheckpoint : Setter t_LastCheckpoint := _.
#[export] Instance set_t_CompletedAt : Setter t_CompletedAt := _.

(** The record a literal [&TaskRecord{...}] starts from. *)
Definition TaskRecord_zero : TaskRecord :=
  mkTask uuid_Nil "" TaskStatusPending None None "" None "" "" None AgentIdentity_zero [] []
    None "" None None None None None None 0 0 false None None None "" None.
