(* ===== verification/Evidence.v ===== *)
(** * Evidence of embedded execution

    api/evidence_verify.go, evidence_store.go and routes_evidence.go: batches of
    signed events that a tenant's SDK uploads, their verification, and the
    hash-chained streams they are appended to.  The tables are those of migration
    068.  A request runs its statements between those of other requests
    ([Concurrent]); the transaction that persists a batch is one statement.  The
    PEM and PKIX decoders are a parameter. *)

From S2P Require Import Prelude GoStrings Json GoTime Ext CanonicalJson Concurrent Types.
Open Scope Z_scope.

(** [pem.Decode] and [x509.ParsePKIXPublicKey]: the Ed25519 key a PEM block
    holds. *)
Class SDKKeys : Type := { pem_public_key : string → option string }.

(** ** Constants and patterns *)

Definition evidenceEventSchemaVersion : string := "1".
Definition evidenceMaxIssues : nat := 20.
Definition evidenceMaxEventIDChars : nat := 128.
Definition evidenceMaxBodyBytes : Z := 2 ^ 20.
Definition evidenceMaxEvents : nat := 500.
Definition evidenceMaxEventBytes : Z := 64 * 1024.
Definition evidenceMaxKeyPEMBytes : Z := 4096.
Definition evidenceMaxDepth : Z := 64.
Definition evidenceStateVerified : string := "verified".
Definition evidenceStateRejected : string := "rejected".
Definition evidenceProvenanceEmbedded : string := "embedded".

Definition evidenceEventTypes : list string := ["decision"; "outcome"].
Definition evidenceDecisionValues : list string := ["allowed"; "denied"].
Definition evidenceOutcomeStatuses : list string := ["succeeded"; "failed"].
Definition evidenceSharedRequiredFields : list string :=
  ["schema_version"; "event_type"; "event_id"; "action_id"; "action_name"; "contract_hash"; "timestamp_utc"; "key_id";
   "event_hash"; "signature"].
Definition evidenceDecisionRequiredFields : list string :=
  ["decision"; "risk"; "approval_mode"; "redacted_input_summary"; "input_hash"].
Definition evidenceOutcomeRequiredFields : list string := ["status"; "decision_event_id"].

Fixpoint all_chars (p : ascii → bool) (s : string) : bool :=
  match s with "" => true | String a s => p a && all_chars p s end.

Definition is_lower_hex (a : ascii) : bool := is_digit a || in_range 97 102 (zb a).
Definition is_letter (a : ascii) : bool := in_range 65 90 (zb a) || in_range 97 122 (zb a).
Definition is_one_of (cs : list ascii) (a : ascii) : bool := bool_decide (a ∈ cs).

(** [^[0-9a-f]{64}$]. *)
Definition contractHashPattern (s : string) : bool := (slen s =? 64)%nat && all_chars is_lower_hex s.
(** [^ed25519:[0-9a-f]{16}$]. *)
Definition evidenceKeyIDPattern (s : string) : bool :=
  HasPrefix s "ed25519:" && (slen s =? 24)%nat && all_chars is_lower_hex (drop_str 8 s).
(** [^[a-zA-Z][a-zA-Z0-9_.:-]{0,127}$]. *)
Definition contractActionNamePattern (s : string) : bool :=
  match s with
  | "" => false
  | String a r =>
    is_letter a && (slen r <=? 127)%nat &&
    all_chars (λ c, is_letter c || is_digit c || is_one_of ["_"; "."; ":"; "-"]%char c) r
  end.
(** [^[A-Za-z0-9._:-]{1,128}$]. *)
Definition contractIdempotencyKeyPattern (s : string) : bool :=
  (1 <=? slen s)%nat && (slen s <=? 128)%nat &&
  all_chars (λ c, is_letter c || is_digit c || is_one_of ["."; "_"; ":"; "-"]%char c) s.

(** ** Data *)

Record evidenceIssue := mkIssue { is_Index : Z; is_Code : string }.

Record sdkSigningKeyRecord := mkSigningKey {
  sk_tenant_id : string;
  sk_key_id : string;
  sk_PublicKeyPEM : string;
  sk_FingerprintSHA256 : string;
}.

(** A row of sdk_evidence_batches. *)
Record evidenceBatchRecord := mkBatch {
  eb_tenant_id : string;
  eb_ID : uuid;
  eb_KeyID : string;
  eb_EvidenceState : string;
  eb_ContentHash : string;
  eb_FirstPreviousEventHash : option string;
  eb_ChainHead : option string;
  eb_EventsAccepted : Z;
  eb_EventsVerified : Z;
  eb_ReceivedAt : time;
  eb_VerifiedAt : option time;
  eb_VerificationErrorCode : option string;
  eb_Issues : list evidenceIssue;
}.

(** A row of sdk_evidence_events. *)
Record evidence_event_row := mkEventRow {
  ee_tenant_id : string;
  ee_key_id : string;
  ee_event_hash : string;
  ee_batch_id : uuid;
  ee_event : string;
  ee_event_id : string;
  ee_event_type : string;
  ee_action_name : string;
  ee_contract_hash : string;
  ee_previous_event_hash : option string;
  ee_timestamp_utc : time;
}.

(** A row of evidence_ingest_idempotency; its operation is constant. *)
Record ingest_idempotency_row := mkIngest {
  ig_tenant_id : string;
  ig_key_id : string;
  ig_idempotency_key : string;
  ig_RequestFingerprint : string;
  ig_ResponseStatus : Z;
  ig_ResponseBody : string;
}.

Record evidence_db := mkEvidenceDB {
  sdk_signing_keys : list sdkSigningKeyRecord;
  sdk_evidence_batches : list evidenceBatchRecord;
  sdk_evidence_events : list evidence_event_row;
  evidence_ingest_idempotency : list ingest_idempotency_row;
}.

(** What a statement takes from outside: the database's clock and random UUID,
    and the server's clock. *)
Record evidence_env := mkEvidenceEnv { en_now : time; en_uuid : uuid; en_wall : time }.

Abbreviation estmt X := (evidence_env → evidence_db → res X * evidence_db).
Abbreviation eprog A := (prog evidence_env evidence_db A).

Record verifiedEvidenceEvent := mkVerified {
  ve_CanonicalEvent : string;
  ve_EventHash : string;
  ve_EventID : string;
  ve_EventType : string;
  ve_ActionName : string;
  ve_ContractHash : string;
  ve_PreviousEventHash : option string;
  ve_TimestampUTC : time;
}.

Record evidenceSubmission := mkSubmission {
  es_KeyID : string;
  es_PublicKeyPEM : string;
  es_FirstPrev : option string;
  es_Events : list object;
  es_ContentHash : string;
}.

Record contractValidationError := mkValidationError { cv_status : Z; cv_code : string; cv_detail : string }.

(** ** Members of an event *)

(** [m[k].(string)]. *)
Definition str_at (m : object) (k : string) : option string := match get k m with Some (AString s) => Some s | _ => None end.
(** The same with the zero value in place of the failed assertion. *)
Definition str_or (m : object) (k : string) : string := default "" (str_at m k).
Definition present (m : object) (k : string) : bool := bool_decide (is_Some (get k m)).

(** The fields an event must have to be checked any further. *)
Record event_fields := mkFields {
  ef_type : string;
  ef_hash : string;
  ef_signature : string;
  ef_event_id : string;
  ef_action_name : string;
  ef_contract_hash : string;
  ef_key_id : string;
  ef_previous : option string;
  ef_timestamp : time;
}.

Definition required_fields (eventType : string) : list string :=
  evidenceSharedRequiredFields ++
  (if bool_decide (eventType = "decision") then evidenceDecisionRequiredFields else evidenceOutcomeRequiredFields).

(** [previous_event_hash]: null or a string. *)
Definition previous_hash (event : object) : option (option string) :=
  match get "previous_event_hash" event with
  | None | Some ANil => Some None
  | Some (AString s) => Some (Some s)
  | _ => None
  end.

(** The checks that end the verification of a batch, in their order. *)
Definition extract_fields (event : object) : string + event_fields :=
  let eventType := str_or event "event_type" in
  if negb (bool_decide (str_or event "schema_version" = evidenceEventSchemaVersion)) then inl "unknown_schema"
  else if negb (bool_decide (eventType ∈ evidenceEventTypes)) then inl "unknown_event_type"
  else if negb (forallb (present event) (required_fields eventType)) || negb (present event "previous_event_hash")
  then inl "missing_fields"
  else match str_at event "event_hash", str_at event "signature" with
  | Some submittedHash, Some signature =>
    if negb (contractHashPattern submittedHash) then inl "invalid_field"
    else match str_at event "event_id", str_at event "action_name", str_at event "contract_hash", str_at event "key_id",
               str_at event "timestamp_utc" with
    | Some eventID, Some actionName, Some contractHash, Some keyID, Some timestampText =>
      if bool_decide (eventID = "") || (evidenceMaxEventIDChars <? slen eventID)%nat then inl "invalid_field"
      else if negb (contractActionNamePattern actionName) || negb (contractHashPattern contractHash) then inl "invalid_field"
      else match previous_hash event with
      | None => inl "invalid_field"
      | Some previousHash =>
        match parse_RFC3339 timestampText with
        | None => inl "invalid_timestamp"
        | Some timestamp =>
          inr (mkFields eventType submittedHash signature eventID actionName contractHash keyID previousHash timestamp)
        end
      end
    | _, _, _, _, _ => inl "invalid_field"
    end
  | _, _ => inl "invalid_field"
  end.

(** [m[k] = v] for the decisions of a batch, and the outcomes seen. *)
Record verify_state := mkVerifyState {
  vs_issues : list evidenceIssue;
  vs_verified : list verifiedEvidenceEvent;
  vs_prev : option string;
  vs_decisions : gmap string string;
  vs_outcomes : gset string;
}.

Definition add_issues (index : nat) (codes : list string) (issues : list evidenceIssue) : list evidenceIssue :=
  take evidenceMaxIssues (issues ++ (mkIssue (Z.of_nat index) <$> codes)).

(** What the transition rules say of an event: issue codes, and the decisions and
    outcomes known afterwards. *)
Abbreviation transition := (list string * gmap string string * gset string)%type.

Definition outcome_transition (decision : option string) (decisionEventID : string) (st : verify_state) : transition :=
  match decision with
  | None => (["unknown_decision_reference"], vs_decisions st, vs_outcomes st)
  | Some decision =>
    if bool_decide (decision = "denied") then (["invalid_transition"], vs_decisions st, vs_outcomes st)
    else if bool_decide (decisionEventID ∈ vs_outcomes st) then (["invalid_transition"], vs_decisions st, vs_outcomes st)
    else ([], vs_decisions st, {[decisionEventID]} ∪ vs_outcomes st)
  end.

Definition decision_transition (event : object) (eventID : string) (st : verify_state) : transition :=
  let decision := str_or event "decision" in
  if negb (bool_decide (decision ∈ evidenceDecisionValues)) then (["invalid_field"], vs_decisions st, vs_outcomes st)
  else ([], <[eventID := decision]> (vs_decisions st), vs_outcomes st).

Section Evidence.
Context `{Ext} `{SDKKeys}.

Definition parseSDKPublicKey (pemText : string) : option (string * string * string) :=
  key ← pem_public_key pemText;
  let fingerprint := sha256_hex key in
  Some (key, fingerprint, "ed25519:" +:+ take_str 16 fingerprint).

(** The digest is taken over the canonical event without its hash and
    signature. *)
Definition event_digest (event : object) : string := sha256 (Encode (without ["event_hash"; "signature"] event)).

Definition signature_valid (pub : string) (event : object) (signature : string) : bool :=
  match b64_decode false true signature with
  | Some rawSig => ed25519_Verify pub (event_digest event) rawSig
  | None => false
  end.

(** Chain, hash and signature. *)
Definition integrity_codes (pub expectedKeyID : string) (expectedPrev : option string) (event : object) (f : event_fields)
    : list string :=
  (if bool_decide (ef_previous f = expectedPrev) then [] else ["chain_break"])
  ++ (if bool_decide (hex_encode (event_digest event) = ef_hash f) then [] else ["hash_mismatch"])
  ++ (if negb (bool_decide (ef_key_id f = expectedKeyID)) then ["unknown_key"]
      else if signature_valid pub event (ef_signature f) then [] else ["bad_signature"]).

Definition verified_event (event : object) (f : event_fields) : verifiedEvidenceEvent :=
  mkVerified (Encode event) (hex_encode (event_digest event)) (ef_event_id f) (ef_type f) (ef_action_name f)
    (ef_contract_hash f) (ef_previous f) (ef_timestamp f).

(** ** Statements *)

Definition one_row {X} (l : list X) : res X := match l with x :: _ => Ok x | [] => Err ErrNoRows end.

Definition getSDKSigningKey (tenantID keyID : string) : estmt sdkSigningKeyRecord := λ _ db,
  (one_row (filter (λ x, sk_tenant_id x = tenantID ∧ sk_key_id x = keyID) (sdk_signing_keys db)), db).

Definition insertSDKSigningKey (tenantID keyID publicKeyPEM fingerprint : string) : estmt () := λ _ db,
  (Ok tt,
   if existsb (λ x, bool_decide (sk_tenant_id x = tenantID ∧ sk_key_id x = keyID)) (sdk_signing_keys db) then db
   else mkEvidenceDB (sdk_signing_keys db ++ [mkSigningKey tenantID keyID publicKeyPEM fingerprint])
          (sdk_evidence_batches db) (sdk_evidence_events db) (evidence_ingest_idempotency db)).

Definition getEvidenceBatchByContent (tenantID keyID contentHash : string) : estmt evidenceBatchRecord := λ _ db,
  (one_row (filter (λ x, eb_tenant_id x = tenantID ∧ eb_KeyID x = keyID ∧ eb_ContentHash x = contentHash)
     (sdk_evidence_batches db)), db).

Definition getEvidenceBatchByID (tenantID : string) (batchID : uuid) : estmt evidenceBatchRecord := λ _ db,
  (one_row (filter (λ x, eb_tenant_id x = tenantID ∧ eb_ID x = batchID) (sdk_evidence_batches db)), db).

(** The verified batches of a stream. *)
Definition stream (tenantID keyID : string) (db : evidence_db) : list evidenceBatchRecord :=
  filter (λ x, eb_tenant_id x = tenantID ∧ eb_KeyID x = keyID ∧ eb_EvidenceState x = evidenceStateVerified)
    (sdk_evidence_batches db).

Definition extended (l : list evidenceBatchRecord) (b : evidenceBatchRecord) : bool :=
  existsb (λ n, match eb_FirstPreviousEventHash n, eb_ChainHead b with
                | Some p, Some h => bool_decide (p = h)
                | _, _ => false
                end) l.

Definition received_desc (x y : evidenceBatchRecord) : Prop := eb_ReceivedAt y ≤ eb_ReceivedAt x.
#[export] Instance received_desc_dec x y : Decision (received_desc x y).
Proof. unfold received_desc. apply _. Defined.

Definition currentEvidenceChainHead (tenantID keyID : string) : estmt string := λ _ db,
  let l := stream tenantID keyID db in
  (match merge_sort received_desc (filter (λ b, extended l b = false) l) with
   | [] => Err ErrNoRows
   | b :: _ => match eb_ChainHead b with
               | Some head => Ok head
               | None => Err (Errorf "sql: Scan error: converting NULL to string is unsupported")
               end
   end, db).

Definition errEvidenceChainSlotTaken : goerror := Sentinel "evidence chain slot already extended by a verified batch".

(** The slot of the partial unique index. *)
Definition chain_slot (x : evidenceBatchRecord) : string := default "genesis" (eb_FirstPreviousEventHash x).

Definition insertEvidenceBatch (new : uuid → time → evidenceBatchRecord) : estmt (uuid * time) := λ env db,
  let x := new (en_uuid env) (en_now env) in
  if existsb (λ y, bool_decide (eb_tenant_id y = eb_tenant_id x ∧ eb_KeyID y = eb_KeyID x ∧ eb_ContentHash y = eb_ContentHash x))
       (sdk_evidence_batches db)
  then (Err ErrNoRows, db)
  else if existsb (λ y, bool_decide (eb_ID y = eb_ID x)) (sdk_evidence_batches db)
  then (Err (Errorf "pq: duplicate key value violates unique constraint sdk_evidence_batches_pkey"), db)
  else if bool_decide (eb_EvidenceState x = evidenceStateVerified)
          && existsb (λ y, bool_decide (chain_slot y = chain_slot x)) (stream (eb_tenant_id x) (eb_KeyID x) db)
  then (Err errEvidenceChainSlotTaken, db)
  else (Ok (eb_ID x, eb_ReceivedAt x),
        mkEvidenceDB (sdk_signing_keys db) (sdk_evidence_batches db ++ [x]) (sdk_evidence_events db)
          (evidence_ingest_idempotency db)).

Definition insertEvidenceEvent (x : evidence_event_row) : estmt () := λ _ db,
  (Ok tt,
   if existsb (λ y, bool_decide (ee_tenant_id y = ee_tenant_id x ∧ ee_key_id y = ee_key_id x ∧ ee_event_hash y = ee_event_hash x))
        (sdk_evidence_events db) then db
   else mkEvidenceDB (sdk_signing_keys db) (sdk_evidence_batches db) (sdk_evidence_events db ++ [x])
          (evidence_ingest_idempotency db)).

(** [event->>'decision'] of a stored event. *)
Definition stored_decision (event : string) : string :=
  match DecodeObjectPreserving event with Ok m => str_or m "decision" | Err _ => "" end.

Definition getStoredDecision (tenantID keyID eventID : string) : estmt string := λ _ db,
  (match filter (λ x, ee_tenant_id x = tenantID ∧ ee_key_id x = keyID ∧ ee_event_id x = eventID ∧ ee_event_type x = "decision")
           (sdk_evidence_events db) with
   | x :: _ => Ok (stored_decision (ee_event x))
   | [] => Err ErrNoRows
   end, db).

Definition getEvidenceIngestIdempotencyRecord (tenantID keyID key : string) : estmt ingest_idempotency_row := λ _ db,
  (one_row (filter (λ x, ig_tenant_id x = tenantID ∧ ig_key_id x = keyID ∧ ig_idempotency_key x = key)
     (evidence_ingest_idempotency db)), db).

Definition insertEvidenceIngestIdempotencyRecord (x : ingest_idempotency_row) : estmt () := λ _ db,
  (Ok tt,
   if existsb (λ y, bool_decide (ig_tenant_id y = ig_tenant_id x ∧ ig_key_id y = ig_key_id x ∧
                                 ig_idempotency_key y = ig_idempotency_key x)) (evidence_ingest_idempotency db) then db
   else mkEvidenceDB (sdk_signing_keys db) (sdk_evidence_batches db) (sdk_evidence_events db)
          (evidence_ingest_idempotency db ++ [x])).

(** ** Verification *)

(** The part of the loop body after the fields: what is known after the event. *)
Definition event_transition (tenantID keyID : string) (event : object) (f : event_fields) (st : verify_state)
    : eprog (res transition) :=
  if bool_decide (ef_type f = "decision") then mret (Ok (decision_transition event (ef_event_id f) st))
  else
    let status := if bool_decide (str_or event "status" ∈ evidenceOutcomeStatuses) then [] else ["invalid_field"] in
    let decisionEventID := str_or event "decision_event_id" in
    let with_status '(codes, ds, os) := (status ++ codes, ds, os) in
    if bool_decide (decisionEventID = "")
    then mret (Ok (with_status (["invalid_field"], vs_decisions st, vs_outcomes st)))
    else match vs_decisions st !! decisionEventID return eprog (res transition) with
    | Some decision => mret (Ok (with_status (outcome_transition (Some decision) decisionEventID st)))
    | None =>
      r ← statement (getStoredDecision tenantID keyID decisionEventID);
      mret match r with
      | Ok stored => Ok (with_status (outcome_transition (Some stored) decisionEventID st))
      | Err e => if bool_decide (e = ErrNoRows) then Ok (with_status (outcome_transition None decisionEventID st)) else Err e
      end
    end.

Definition next_state (index : nat) (event : object) (f : event_fields) (codes : list string) (ds : gmap string string)
    (os : gset string) (st : verify_state) : verify_state :=
  mkVerifyState (add_issues index codes (vs_issues st))
    (if bool_decide (codes = []) then vs_verified st ++ [verified_event event f] else vs_verified st)
    (Some (ef_hash f)) ds os.

Fixpoint verify_loop (tenantID keyID pub : string) (index : nat) (events : list object) (st : verify_state)
    : eprog (res (list verifiedEvidenceEvent * list evidenceIssue)) :=
  match events with
  | [] => mret (Ok (if bool_decide (length (vs_issues st) = 0%nat) then (vs_verified st, []) else ([], vs_issues st)))
  | event :: events =>
    match extract_fields event return eprog (res (list verifiedEvidenceEvent * list evidenceIssue)) with
    | inl code => mret (Ok ([], add_issues index [code] (vs_issues st)))
    | inr f =>
      r ← event_transition tenantID keyID event f st;
      match r return eprog (res (list verifiedEvidenceEvent * list evidenceIssue)) with
      | Err e => mret (Err e)
      | Ok (codes, ds, os) =>
        verify_loop tenantID keyID pub (S index) events
          (next_state index event f (integrity_codes pub keyID (vs_prev st) event f ++ codes) ds os st)
      end
    end
  end.

Definition verifyEvidenceEvents (tenantID : string) (events : list object) (pub expectedKeyID : string) (firstPrev : option string)
    : eprog (res (list verifiedEvidenceEvent * list evidenceIssue)) :=
  verify_loop tenantID expectedKeyID pub 0 events (mkVerifyState [] [] firstPrev ∅ ∅).

(** ** Decoding of a submission *)

Fixpoint jsonDepth (value : any) (depth : Z) : Z :=
  if evidenceMaxDepth <? depth then depth
  else match value with
  | AMap m => foldr (λ kv acc, Z.max (jsonDepth kv.2 (depth + 1)) acc) (depth + 1) m
  | AList l => foldr (λ v acc, Z.max (jsonDepth v (depth + 1)) acc) (depth + 1) l
  | _ => depth
  end.

Definition evidenceContentHash (keyID : string) (eventByteHashes : list string) : string :=
  sha256_hex ("igris-evidence-batch:v1:" +:+ keyID +:+ ":" +:+ Join eventByteHashes ",").

Definition unprocessable (detail : string) : contractValidationError := mkValidationError 422 "validation_failed" detail.
Definition bad_body (detail : string) : contractValidationError := mkValidationError 400 "invalid_body" detail.

(** A key of the object that is not one of those allowed, whichever the range
    over the map meets first. *)
Definition unexpected_key (allowed : list string) (m : object) : option string :=
  match filter (λ k, k ∉ allowed) m.*1 with [] => None | ks => Some (map_first_key ks) end.

Definition event_refusal (index : nat) (firstPrev : option string) (raw : any) : contractValidationError + object :=
  match raw with
  | AMap event =>
    if present event "tenant_id" then inl (unprocessable "events must not carry tenant_id")
    else if present event "execution_provenance" then inl (unprocessable "events must not carry execution_provenance")
    else if evidenceMaxDepth <? jsonDepth raw 0 then inl (unprocessable "event nesting exceeds maximum depth")
    else if (evidenceMaxEventBytes <? Z.of_nat (slen (Encode event))) then inl (unprocessable "an event exceeds the per-event size limit")
    else if negb (match str_at event "event_hash" with Some h => contractHashPattern h | None => false end)
    then inl (unprocessable "every event must carry a 64-hex event_hash")
    else if bool_decide (index = 0%nat) && negb (bool_decide (str_at event "previous_event_hash" = firstPrev))
    then inl (unprocessable "first_previous_event_hash must equal events[0].previous_event_hash")
    else inr event
  | _ => inl (unprocessable "events entries must be objects")
  end.

Fixpoint decode_events (index : nat) (firstPrev : option string) (raws : list any) : contractValidationError + list object :=
  match raws with
  | [] => inr []
  | raw :: raws =>
    match event_refusal index firstPrev raw with
    | inl e => inl e
    | inr event =>
      match decode_events (S index) firstPrev raws with inl e => inl e | inr events => inr (event :: events) end
    end
  end.

Definition decode_segment (keyID publicKeyPEM : string) (segment : object) : contractValidationError + evidenceSubmission :=
  match unexpected_key ["first_previous_event_hash"; "events"] segment with
  | Some key => inl (unprocessable ("unexpected journal_segment field: " +:+ key))
  | None =>
    let first_previous : contractValidationError + option string :=
      match get "first_previous_event_hash" segment with
      | None | Some ANil => inr None
      | Some (AString value) =>
        if contractHashPattern value then inr (Some value)
        else inl (unprocessable "first_previous_event_hash must be null or 64 lowercase hex chars")
      | _ => inl (unprocessable "first_previous_event_hash must be null or a string")
      end in
    match first_previous with
    | inl e => inl e
    | inr firstPrev =>
      match get "events" segment with
      | Some (AList ((_ :: _) as eventsRaw)) =>
        if (evidenceMaxEvents <? length eventsRaw)%nat then inl (unprocessable "journal_segment.events exceeds 500 entries")
        else match decode_events 0 firstPrev eventsRaw with
        | inl e => inl e
        | inr events =>
          inr (mkSubmission keyID publicKeyPEM firstPrev events
                 (evidenceContentHash keyID ((λ event, SHA256Hex (Encode event)) <$> events)))
        end
      | _ => inl (unprocessable "journal_segment.events must be a non-empty array")
      end
    end
  end.

Definition decodeEvidenceSubmission (body : string) : contractValidationError + evidenceSubmission :=
  match DecodeObjectPreserving body with
  | Err _ => inl (bad_body "request must be a JSON object")
  | Ok request =>
    match unexpected_key ["key_id"; "public_key_pem"; "journal_segment"] request with
    | Some key => inl (unprocessable ("unexpected request field: " +:+ key))
    | None =>
      let keyID := str_or request "key_id" in
      let publicKeyPEM := str_or request "public_key_pem" in
      if negb (evidenceKeyIDPattern keyID) then inl (unprocessable "key_id must match ed25519:<16 hex>")
      else if bool_decide (publicKeyPEM = "") || (evidenceMaxKeyPEMBytes <? Z.of_nat (slen publicKeyPEM))
      then inl (unprocessable "public_key_pem must be a PEM string of at most 4096 bytes")
      else match get "journal_segment" request with
      | Some (AMap segment) => decode_segment keyID publicKeyPEM segment
      | _ => inl (bad_body "journal_segment must be a JSON object")
      end
    end
  end.

(** ** Persistence *)

Definition count_code (code : string) (issues : list evidenceIssue) : nat := length (filter (λ i, is_Code i = code) issues).

(** One step of the range over the counts. *)
Definition better_code (best : string * nat) (x : string * nat) : string * nat :=
  if (best.2 <? x.2)%nat || ((x.2 =? best.2)%nat && negb (bool_decide (String.le best.1 x.1))) then x else best.

Definition issue_counts (issues : list evidenceIssue) : gmap string nat :=
  list_to_map ((λ i, (is_Code i, count_code (is_Code i) issues)) <$> issues).

Definition dominantIssueCode (issues : list evidenceIssue) : string :=
  match issues with
  | [] => "verification_failed"
  | i :: _ => (foldl better_code (is_Code i, 0%nat) (map_to_list (issue_counts issues))).1
  end.

(** What the transaction of [persistEvidenceBatch] ends with, besides an error. *)
Inductive persisted : Type :=
| Stored (record : evidenceBatchRecord)
| Raced (* the content was stored by a concurrent request *)
| SlotTaken
| KeyConflict.

Definition rejected_batch (tenantID : string) (sub : evidenceSubmission) (issues : list evidenceIssue) (id : uuid) (now : time)
    : evidenceBatchRecord :=
  mkBatch tenantID id (es_KeyID sub) evidenceStateRejected (es_ContentHash sub) (es_FirstPrev sub) None 0 0 now None
    (Some (dominantIssueCode issues)) issues.

Definition verified_batch (tenantID : string) (sub : evidenceSubmission) (verified : list verifiedEvidenceEvent) (chainHead : string)
    (wall : time) (id : uuid) (now : time) : evidenceBatchRecord :=
  mkBatch tenantID id (es_KeyID sub) evidenceStateVerified (es_ContentHash sub) (es_FirstPrev sub) (Some chainHead)
    (Z.of_nat (length verified)) (Z.of_nat (length verified)) now (Some wall) None [].

Definition event_row (tenantID keyID : string) (batchID : uuid) (e : verifiedEvidenceEvent) : evidence_event_row :=
  mkEventRow tenantID keyID (ve_EventHash e) batchID (ve_CanonicalEvent e) (ve_EventID e) (ve_EventType e) (ve_ActionName e)
    (ve_ContractHash e) (ve_PreviousEventHash e) (ve_TimestampUTC e).

Definition insert_events (tenantID keyID : string) (batchID : uuid) (verified : list verifiedEvidenceEvent) (env : evidence_env)
    (db : evidence_db) : evidence_db :=
  foldl (λ db e, (insertEvidenceEvent (event_row tenantID keyID batchID e) env db).2) db verified.

(** The row as it was stored. *)
Definition inserted (new : uuid → time → evidenceBatchRecord) (r : res (uuid * time)) : res persisted :=
  match r with
  | Ok (id, receivedAt) => Ok (Stored (new id receivedAt))
  | Err e => if bool_decide (e = ErrNoRows) then Ok Raced else if bool_decide (e = errEvidenceChainSlotTaken) then Ok SlotTaken else Err e
  end.

(** The transaction; without a stored batch it is rolled back. *)
Definition persist_transaction (tenantID : string) (sub : evidenceSubmission) (fingerprint : string)
    (verified : list verifiedEvidenceEvent) (issues : list evidenceIssue) : estmt persisted := λ env db,
  if (0 <? length issues)%nat then
    let '(r, db') := insertEvidenceBatch (rejected_batch tenantID sub issues) env db in
    match inserted (rejected_batch tenantID sub issues) r with
    | Ok (Stored record) => (Ok (Stored record), db')
    | r => (r, db)
    end
  else
    let '(_, db1) := insertSDKSigningKey tenantID (es_KeyID sub) (es_PublicKeyPEM sub) fingerprint env db in
    match (getSDKSigningKey tenantID (es_KeyID sub) env db1).1 with
    | Err e => (Err e, db)
    | Ok storedKey =>
      if negb (bool_decide (sk_FingerprintSHA256 storedKey = fingerprint)) then (Ok KeyConflict, db)
      else match last verified with
      | None => (Err (Errorf "runtime error: index out of range"), db)
      | Some lastEvent =>
        let new := verified_batch tenantID sub verified (ve_EventHash lastEvent) (en_wall env) in
        let '(r, db2) := insertEvidenceBatch new env db1 in
        match inserted new r with
        | Ok (Stored record) => (Ok (Stored record), insert_events tenantID (es_KeyID sub) (eb_ID record) verified env db2)
        | r => (r, db)
        end
      end
    end.

(** ** Replies *)

Inductive evidence_reply : Type :=
| ReplyError (status : Z) (error detail : string)
| ReplyMismatch (expected : option string) (* 409 *)
| ReplyBatch (status : Z) (body : string) (replayed : bool).

Definition db_error : evidence_reply := ReplyError 500 "db_error" "".

(** [t.UTC().Format("2006-01-02T15:04:05.000000Z")]. *)
Definition contractTimestamp (t : time) : string :=
  TrimSuffix (format_RFC3339 t) "Z" +:+ "." +:+ pad_int 6 (t mod Second / 1000) +:+ "Z".

Definition text_or_null (o : option string) : string := match o with Some s => str_text s | None => "null" end.
Definition issue_json (i : evidenceIssue) : string := obj_text [("index", num_text (is_Index i)); ("code", str_text (is_Code i))].

Definition evidenceBatchJSON (record : evidenceBatchRecord) : list (string * string) :=
  [("batch_id", str_text (uuid_String (eb_ID record))); ("evidence_state", str_text (eb_EvidenceState record));
   ("execution_provenance", str_text evidenceProvenanceEmbedded); ("events_accepted", num_text (eb_EventsAccepted record));
   ("events_verified", num_text (eb_EventsVerified record)); ("verification_key_id", str_text (eb_KeyID record));
   ("received_at", str_text (contractTimestamp (eb_ReceivedAt record))); ("issues", arr_text (issue_json <$> eb_Issues record));
   ("first_previous_event_hash", text_or_null (eb_FirstPreviousEventHash record)); ("chain_head", text_or_null (eb_ChainHead record));
   ("verified_at", text_or_null (contractTimestamp <$> eb_VerifiedAt record));
   ("verification_error_code", text_or_null (eb_VerificationErrorCode record))].

Definition respondEvidenceBatch (tenantID : string) (sub : evidenceSubmission) (idempotencyKey : string) (record : evidenceBatchRecord)
    (fingerprint : string) (created : bool) (status : Z) : eprog evidence_reply :=
  let body := map_text (list_to_map (evidenceBatchJSON record ++
                [("created", bool_text created); ("key_fingerprint_sha256", str_text fingerprint)])) in
  if bool_decide (idempotencyKey = "") then mret (ReplyBatch status body false)
  else
    r ← statement (insertEvidenceIngestIdempotencyRecord
          (mkIngest tenantID (es_KeyID sub) idempotencyKey (es_ContentHash sub) status (jsonb_text body)));
    mret match r with Ok _ => ReplyBatch status body false | Err _ => db_error end.

(** ** Handlers *)

(** [None] for [sql.ErrNoRows]; the error of any other failure. *)
Definition optional_row {X} (r : res X) : res (option X) :=
  match r with Ok x => Ok (Some x) | Err e => if bool_decide (e = ErrNoRows) then Ok None else Err e end.

(** [persistEvidenceBatch] and what the handler does with its result. *)
Definition persist_and_respond (tenantID : string) (sub : evidenceSubmission) (idempotencyKey fingerprint : string)
    (verified : list verifiedEvidenceEvent) (issues : list evidenceIssue) : eprog evidence_reply :=
  r ← statement (persist_transaction tenantID sub fingerprint verified issues);
  match r return eprog evidence_reply with
  | Err _ => mret db_error
  | Ok KeyConflict =>
    mret (ReplyError 409 "signing_key_conflict" "this key_id is already registered for this tenant with a different public key")
  | Ok SlotTaken =>
    head ← statement (currentEvidenceChainHead tenantID (es_KeyID sub));
    mret match optional_row head with Ok current => ReplyMismatch current | Err _ => db_error end
  | Ok Raced =>
    existing ← statement (getEvidenceBatchByContent tenantID (es_KeyID sub) (es_ContentHash sub));
    match existing return eprog evidence_reply with
    | Err _ => mret db_error
    | Ok record => respondEvidenceBatch tenantID sub idempotencyKey record fingerprint false 200
    end
  | Ok (Stored record) => respondEvidenceBatch tenantID sub idempotencyKey record fingerprint true 202
  end.

(** The part after the idempotency records. *)
Definition ingest_batch (tenantID : string) (sub : evidenceSubmission) (idempotencyKey pub fingerprint : string) : eprog evidence_reply :=
  existing ← statement (getEvidenceBatchByContent tenantID (es_KeyID sub) (es_ContentHash sub));
  match optional_row existing return eprog evidence_reply with
  | Err _ => mret db_error
  | Ok (Some record) => respondEvidenceBatch tenantID sub idempotencyKey record fingerprint false 200
  | Ok None =>
    head ← statement (currentEvidenceChainHead tenantID (es_KeyID sub));
    match optional_row head return eprog evidence_reply with
    | Err _ => mret db_error
    | Ok expected =>
      if negb (bool_decide (es_FirstPrev sub = expected)) then
        raced ← statement (getEvidenceBatchByContent tenantID (es_KeyID sub) (es_ContentHash sub));
        match optional_row raced return eprog evidence_reply with
        | Err _ => mret db_error
        | Ok (Some record) => respondEvidenceBatch tenantID sub idempotencyKey record fingerprint false 200
        | Ok None => mret (ReplyMismatch expected)
        end
      else
        v ← verifyEvidenceEvents tenantID (es_Events sub) pub (es_KeyID sub) (es_FirstPrev sub);
        match v return eprog evidence_reply with
        | Err _ => mret db_error
        | Ok (verified, issues) => persist_and_respond tenantID sub idempotencyKey fingerprint verified issues
        end
    end
  end.

(** A request: the authenticated tenant, its Idempotency-Key header and body. *)
Record evidence_request := mkEvidenceRequest { er_tenant : string; er_idempotency_key : string; er_body : string }.

Definition handleEvidenceBatchSubmit (req : evidence_request) : eprog evidence_reply :=
  let tenantID := er_tenant req in
  let idempotencyKey := TrimSpace (er_idempotency_key req) in
  if bool_decide (tenantID = "") then mret (ReplyError 401 "unauthenticated" "")
  else if (evidenceMaxBodyBytes <? Z.of_nat (slen (er_body req)))
  then mret (ReplyError 413 "payload_too_large" "request body exceeds 1 MiB")
  else if nonempty idempotencyKey && negb (contractIdempotencyKeyPattern idempotencyKey)
  then mret (ReplyError 422 "validation_failed" "Idempotency-Key must be 1-128 chars of [A-Za-z0-9._:-]")
  else match decodeEvidenceSubmission (er_body req) return eprog evidence_reply with
  | inl e => mret (ReplyError (cv_status e) (cv_code e) (cv_detail e))
  | inr sub =>
    match parseSDKPublicKey (es_PublicKeyPEM sub) return eprog evidence_reply with
    | None => mret (ReplyError 422 "validation_failed" "public_key_pem must be an Ed25519 SubjectPublicKeyInfo PEM")
    | Some (pub, fingerprint, derivedKeyID) =>
      if negb (bool_decide (derivedKeyID = es_KeyID sub))
      then mret (ReplyError 422 "validation_failed" "key_id does not match public_key_pem")
      else
        k ← statement (getSDKSigningKey tenantID (es_KeyID sub));
        match optional_row k return eprog evidence_reply with
        | Err _ => mret db_error
        | Ok existingKey =>
          if match existingKey with Some key => negb (bool_decide (sk_FingerprintSHA256 key = fingerprint)) | None => false end
          then mret (ReplyError 409 "signing_key_conflict"
                       "this key_id is already registered for this tenant with a different public key")
          else if bool_decide (idempotencyKey = "") then ingest_batch tenantID sub idempotencyKey pub fingerprint
          else
            i ← statement (getEvidenceIngestIdempotencyRecord tenantID (es_KeyID sub) idempotencyKey);
            match optional_row i return eprog evidence_reply with
            | Err _ => mret db_error
            | Ok (Some record) =>
              mret (if bool_decide (ig_RequestFingerprint record = es_ContentHash sub)
                    then ReplyBatch (ig_ResponseStatus record) (ig_ResponseBody record) true
                    else ReplyError 409 "idempotency_key_conflict"
                           "this Idempotency-Key was already used with a different evidence batch; use a new key")
            | Ok None => ingest_batch tenantID sub idempotencyKey pub fingerprint
            end
        end
    end
  end.

Definition handleEvidenceBatchGet (tenantID idParam : string) : eprog evidence_reply :=
  if bool_decide (tenantID = "") then mret (ReplyError 401 "unauthenticated" "")
  else match uuid_Parse (TrimSpace idParam) return eprog evidence_reply with
  | None => mret (ReplyError 404 "batch_not_found" "")
  | Some batchID =>
    r ← statement (getEvidenceBatchByID tenantID batchID);
    mret match optional_row r with
    | Err _ => db_error
    | Ok None => ReplyError 404 "batch_not_found" ""
    | Ok (Some record) => ReplyBatch 200 (map_text (list_to_map (evidenceBatchJSON record))) false
    end
  end.
End Evidence.
