(* ===== verification/EvidenceFacts.v ===== *)
(** * What stored evidence guarantees

    A batch is verified exactly when its events are a legal journal, and however
    requests interleave and fail, the verified batches of a stream form one
    signed hash chain from its beginning. *)

From S2P Require Import Prelude GoStrings Json GoTime Ext CanonicalJson Concurrent Types Evidence.
Open Scope Z_scope.

Section Facts.
Context `{Ext} `{SDKKeys}.

(** ** Verified events *)

(** An event that stands at [prev] in a journal signed with [pub]. *)
Definition event_sound (pub keyID : string) (prev : option string) (event : object) (f : event_fields) : Prop :=
  extract_fields event = inr f ∧ ef_previous f = prev ∧ hex_encode (event_digest event) = ef_hash f ∧
  ef_key_id f = keyID ∧ signature_valid pub event (ef_signature f) = true.

Lemma integrity_none pub keyID prev event f : extract_fields event = inr f →
  integrity_codes pub keyID prev event f = [] ↔ event_sound pub keyID prev event f.
Proof.
  intros Hf. unfold integrity_codes, event_sound. rewrite !app_nil. repeat case_bool_decide; destruct (signature_valid _ _ _); naive_solver.
Qed.

(** Events that follow each other, with their fields. *)
Fixpoint chained (pub keyID : string) (prev : option string) (events : list object) (fs : list event_fields) : Prop :=
  match events, fs with
  | [], [] => True
  | event :: events, f :: fs => event_sound pub keyID prev event f ∧ chained pub keyID (Some (ef_hash f)) events fs
  | _, _ => False
  end.

Definition head_after (prev : option string) (fs : list event_fields) : option string :=
  match last fs with Some f => Some (ef_hash f) | None => prev end.

Lemma head_after_cons prev f fs : head_after prev (f :: fs) = head_after (Some (ef_hash f)) fs.
Proof. unfold head_after. rewrite last_cons. by destruct (last fs). Qed.

Lemma chained_app pub keyID prev es es' fs fs' : chained pub keyID prev es fs → chained pub keyID (head_after prev fs) es' fs' →
  chained pub keyID prev (es ++ es') (fs ++ fs') ∧ head_after prev (fs ++ fs') = head_after (head_after prev fs) fs'.
Proof.
  revert prev fs. induction es as [|e es IH]; intros prev [|f fs] H1 H2; try done.
  destruct H1 as [Hs H1]. rewrite head_after_cons in *. destruct (IH _ _ H1 H2) as [Hc Hh'].
  cbn [app chained]. split_and!; [done|done|]. by rewrite head_after_cons.
Qed.

(** What a program returns, whatever its statements answer. *)
Fixpoint yields {A} (p : eprog A) (Q : A → Prop) : Prop :=
  match p with
  | Ret a => Q a
  | @Call _ _ _ X _ q k => ∀ r : res X, yields (k r) Q
  end.

Lemma yields_bind {A B} (m : eprog A) (k : A → eprog B) (Q : A → Prop) (Q' : B → Prop) :
  yields m Q → (∀ a, Q a → yields (k a) Q') → yields (m ≫= k) Q'.
Proof. induction m as [a|X w q k' IH]; intros Hm Hk; [by apply Hk|]. intros r. by apply IH. Qed.

Lemma yields_weaken {A} (m : eprog A) (Q Q' : A → Prop) : yields m Q → (∀ a, Q a → Q' a) → yields m Q'.
Proof. induction m as [a|X w q k IH]; intros Hm HQ; [by apply HQ|]. intros r. by apply IH. Qed.

Lemma yields_any {A} (m : eprog A) : yields m (λ _, True).
Proof. by induction m as [a|X w q k IH]. Qed.

Lemma add_issues_nil index codes issues : add_issues index codes issues = [] → codes = [] ∧ issues = [].
Proof. unfold add_issues. destruct issues; [|done]. by destruct codes. Qed.

(** A batch without issues is chained from where it claims to start. *)
Lemma verify_loop_yields tenantID keyID pub index events st :
  yields (verify_loop tenantID keyID pub index events st) (λ r, ∀ verified, r = Ok (verified, []) →
    vs_issues st = [] ∧ ∃ fs, chained pub keyID (vs_prev st) events fs ∧
      verified = vs_verified st ++ zip_with verified_event events fs).
Proof.
  revert index st. induction events as [|event events IH]; intros index st; cbn [verify_loop].
  - intros verified. case_bool_decide as Hl; [|intros [= _ Hi]; by rewrite Hi in Hl]. apply length_zero_iff_nil in Hl. intros [= <-].
    split; [done|]. exists []. by rewrite app_nil_r.
  - destruct (extract_fields event) as [code|f] eqn:Hf.
    { intros verified [= _ Hi]. by apply add_issues_nil in Hi as [? _]. }
    eapply yields_bind; [apply yields_any|]. intros [[[codes ds] os]|e] _; [|done].
    eapply yields_weaken; [apply IH|]. intros r Hr verified ->. destruct (Hr verified eq_refl) as (Hi & fs & Hc & Hv).
    cbn [next_state vs_issues vs_prev vs_verified] in *. apply add_issues_nil in Hi as [Hcodes Hi].
    rewrite Hcodes, bool_decide_true in Hv by done. split; [done|]. apply app_nil in Hcodes as [Hint%integrity_none _]; [|done].
    exists (f :: fs). split; [done|]. cbn [zip_with]. by rewrite <-app_assoc in Hv.
Qed.

Lemma verify_yields tenantID events pub keyID firstPrev :
  yields (verifyEvidenceEvents tenantID events pub keyID firstPrev) (λ r, ∀ verified, r = Ok (verified, []) →
    ∃ fs, chained pub keyID firstPrev events fs ∧ verified = zip_with verified_event events fs).
Proof.
  eapply yields_weaken; [apply verify_loop_yields|]. intros r Hr verified Hv. by destruct (Hr verified Hv) as (_ & fs & ? & ?); exists fs.
Qed.

(** ** The tables only grow *)

Record grows (db db' : evidence_db) : Prop := {
  gr_keys : sdk_signing_keys db `prefix_of` sdk_signing_keys db';
  gr_batches : sdk_evidence_batches db `prefix_of` sdk_evidence_batches db';
  gr_events : sdk_evidence_events db `prefix_of` sdk_evidence_events db';
  gr_ingest : evidence_ingest_idempotency db `prefix_of` evidence_ingest_idempotency db';
}.

#[export] Instance grows_preorder : PreOrder grows.
Proof.
  split.
  - by intros db.
  - intros db1 db2 db3 [? ? ? ?] [? ? ? ?]. split; by etrans.
Qed.

Lemma filter_prefix {A} (P : A → Prop) `{!∀ x, Decision (P x)} (l l' : list A) :
  l `prefix_of` l' → filter P l `prefix_of` filter P l'.
Proof. intros [m ->]. rewrite filter_app. by apply prefix_app_r. Qed.

Lemma stream_grows tenantID keyID db db' : grows db db' → stream tenantID keyID db `prefix_of` stream tenantID keyID db'.
Proof. intros Hg. apply filter_prefix, Hg. Qed.

Lemma prefix_elem {A} (l l' : list A) x : l `prefix_of` l' → x ∈ l → x ∈ l'.
Proof. intros [m ->]. rewrite elem_of_app. by left. Qed.

(** ** Streams *)

Definition registered (tenantID keyID fingerprint : string) (db : evidence_db) : Prop :=
  ∃ x, one_row (filter (λ x, sk_tenant_id x = tenantID ∧ sk_key_id x = keyID) (sdk_signing_keys db)) = Ok x ∧
    sk_FingerprintSHA256 x = fingerprint.

Definition stored_event (tenantID keyID hash : string) (db : evidence_db) : Prop :=
  ∃ x, x ∈ sdk_evidence_events db ∧ ee_tenant_id x = tenantID ∧ ee_key_id x = keyID ∧ ee_event_hash x = hash.

Lemma registered_grows tenantID keyID fp db db' : grows db db' → registered tenantID keyID fp db → registered tenantID keyID fp db'.
Proof.
  intros Hg (x & Hx & Hf). exists x. split; [|done]. pose proof (gr_keys _ _ Hg) as [m ->]. rewrite filter_app. by destruct (filter _ _).
Qed.

Lemma stored_grows tenantID keyID h db db' : grows db db' → stored_event tenantID keyID h db → stored_event tenantID keyID h db'.
Proof. intros Hg (x & Hx & ?). exists x. split; [|done]. by eapply prefix_elem; [apply gr_events|]. Qed.

(** A batch that holds a journal from [eb_FirstPreviousEventHash] to
    [eb_ChainHead], signed with the stream's registered key and stored. *)
Definition backed (tenantID keyID : string) (db : evidence_db) (b : evidenceBatchRecord) : Prop :=
  ∃ pub events fs, registered tenantID keyID (sha256_hex pub) db ∧ fs ≠ [] ∧
    chained pub keyID (eb_FirstPreviousEventHash b) events fs ∧
    head_after (eb_FirstPreviousEventHash b) fs = eb_ChainHead b ∧
    Forall (λ h, stored_event tenantID keyID h db) (ef_hash <$> fs).

Lemma backed_grows tenantID keyID db db' b : grows db db' → backed tenantID keyID db b → backed tenantID keyID db' b.
Proof.
  intros Hg (pub & events & fs & Hr & Hne & Hc & Hh & Hs). exists pub, events, fs. split_and!; [by eapply registered_grows|done..|].
  eapply Forall_impl; [exact Hs|]. intros h. by apply stored_grows.
Qed.

(** Each batch extends the one before it. *)
Fixpoint linked (prev : option string) (l : list evidenceBatchRecord) : Prop :=
  match l with
  | [] => True
  | b :: l => eb_FirstPreviousEventHash b = prev ∧ linked (eb_ChainHead b) l
  end.

Definition stream_ok (tenantID keyID : string) (db : evidence_db) : Prop :=
  let l := stream tenantID keyID db in
  linked None l ∧ NoDup (chain_slot <$> l) ∧ Forall (backed tenantID keyID db) l.

Definition evidence_inv (db : evidence_db) : Prop := ∀ tenantID keyID, stream_ok tenantID keyID db.

(** A position that was the end of a stream once. *)
Definition known_head (tenantID keyID : string) (p : option string) (db : evidence_db) : Prop :=
  p = None ∨ ∃ b, b ∈ stream tenantID keyID db ∧ eb_ChainHead b = p.

Lemma known_grows tenantID keyID p db db' : grows db db' → known_head tenantID keyID p db → known_head tenantID keyID p db'.
Proof.
  intros Hg [?|(b & Hb & ?)]; [by left|]. right. exists b. split; [|done]. by eapply prefix_elem; [apply stream_grows|].
Qed.

Lemma linked_snoc prev l x : linked prev l → (eb_FirstPreviousEventHash x = prev ∨ ∃ b, b ∈ l ∧ eb_ChainHead b = eb_FirstPreviousEventHash x) →
  Forall (λ b, eb_FirstPreviousEventHash b ≠ eb_FirstPreviousEventHash x) l → linked prev (l ++ [x]).
Proof.
  revert prev. induction l as [|b l IH]; intros prev Hl Hx Hne; cbn [app linked] in *.
  - split; [|done]. by destruct Hx as [?|(b & ?%elem_of_nil & _)].
  - destruct Hl as [Hb Hl]. apply Forall_cons in Hne as [Hnb Hne]. split; [done|]. apply IH; [done| |done].
    destruct Hx as [Hx|(b' & [->|Hb']%elem_of_cons & Hx)]; [by rewrite Hb, Hx in Hnb|by left|]. right. by exists b'.
Qed.

(** ** The head of a stream *)

Lemma current_head tenantID keyID env db h : (currentEvidenceChainHead tenantID keyID env db).1 = Ok h →
  known_head tenantID keyID (Some h) db.
Proof.
  unfold currentEvidenceChainHead. cbn [fst]. destruct (merge_sort received_desc _) as [|b l] eqn:Hm; [done|].
  destruct (eb_ChainHead b) as [h'|] eqn:Hb; [|done]. intros [= ->]. right. exists b. split; [|done].
  assert (b ∈ filter (λ b, extended (stream tenantID keyID db) b = false) (stream tenantID keyID db)) as Hin.
  { rewrite <-(merge_sort_Permutation received_desc), Hm. apply list_elem_of_here. }
  by apply list_elem_of_filter in Hin as [_ ?].
Qed.

Lemma expected_known tenantID keyID env db expected :
  optional_row (currentEvidenceChainHead tenantID keyID env db).1 = Ok expected → known_head tenantID keyID expected db.
Proof.
  destruct (currentEvidenceChainHead tenantID keyID env db).1 as [h|e] eqn:Hh; cbn [optional_row].
  - intros [= <-]. by eapply current_head.
  - case_bool_decide; [|done]. intros [= <-]. by left.
Qed.

(** ** Statements keep the streams *)

Lemma same_streams db db' : grows db db' → sdk_evidence_batches db' = sdk_evidence_batches db → evidence_inv db → evidence_inv db'.
Proof.
  intros Hg Heq Hi tenantID keyID. destruct (Hi tenantID keyID) as (Hl & Hnd & Hb).
  assert (stream tenantID keyID db' = stream tenantID keyID db) as Hs by (unfold stream; by rewrite Heq).
  unfold stream_ok. rewrite Hs. split_and!; [done..|]. eapply Forall_impl; [exact Hb|]. intros b. by apply backed_grows.
Qed.

Lemma grows_key tenantID keyID pem fp env db : grows db (insertSDKSigningKey tenantID keyID pem fp env db).2 ∧
  sdk_evidence_batches (insertSDKSigningKey tenantID keyID pem fp env db).2 = sdk_evidence_batches db.
Proof. cbn. case_match; [done|]. split; [|done]. split; cbn; try done. by apply prefix_app_r. Qed.

Lemma grows_ingest x env db : grows db (insertEvidenceIngestIdempotencyRecord x env db).2 ∧
  sdk_evidence_batches (insertEvidenceIngestIdempotencyRecord x env db).2 = sdk_evidence_batches db.
Proof. cbn. case_match; [done|]. split; [|done]. split; cbn; try done. by apply prefix_app_r. Qed.

Lemma grows_event x env db : grows db (insertEvidenceEvent x env db).2 ∧
  sdk_evidence_batches (insertEvidenceEvent x env db).2 = sdk_evidence_batches db ∧
  stored_event (ee_tenant_id x) (ee_key_id x) (ee_event_hash x) (insertEvidenceEvent x env db).2.
Proof.
  cbn. destruct (existsb _ _) eqn:Hx.
  - split_and!; [done..|]. apply existsb_exists in Hx as (y & Hy%list_elem_of_In & Heq%bool_decide_eq_true). exists y. naive_solver.
  - split_and!; [split; cbn; try done; by apply prefix_app_r|done|]. exists x. cbn. set_solver.
Qed.

Lemma grows_events tenantID keyID batchID verified env db :
  let db' := insert_events tenantID keyID batchID verified env db in
  grows db db' ∧ sdk_evidence_batches db' = sdk_evidence_batches db ∧
  Forall (λ h, stored_event tenantID keyID h db') (ve_EventHash <$> verified).
Proof.
  cbv zeta. unfold insert_events. revert db. induction verified as [|e verified IH]; intros db; [done|]. cbn [foldl fmap list_fmap].
  destruct (grows_event (event_row tenantID keyID batchID e) env db) as (Hg & Heq & Hs).
  destruct (IH (insertEvidenceEvent (event_row tenantID keyID batchID e) env db).2) as (Hg' & Heq' & Hs'). split_and!.
  - by etrans.
  - by rewrite Heq'.
  - constructor; [|done]. eapply stored_grows; [exact Hg'|exact Hs].
Qed.

(** A batch was inserted, and where it stands. *)
Lemma insert_batch new env db r db' : insertEvidenceBatch new env db = (r, db') →
  (db' = db ∧ ¬ is_ok r = true) ∨
  (let x := new (en_uuid env) (en_now env) in
   r = Ok (eb_ID x, eb_ReceivedAt x) ∧
   db' = mkEvidenceDB (sdk_signing_keys db) (sdk_evidence_batches db ++ [x]) (sdk_evidence_events db) (evidence_ingest_idempotency db) ∧
   (eb_EvidenceState x = evidenceStateVerified → chain_slot x ∉ chain_slot <$> stream (eb_tenant_id x) (eb_KeyID x) db)).
Proof.
  unfold insertEvidenceBatch. cbv zeta. set (x := new _ _). destruct (existsb _ _); [intros [= <- <-]; by left|].
  destruct (existsb _ _); [intros [= <- <-]; by left|]. destruct (bool_decide _ && _) eqn:Hs; [intros [= <- <-]; by left|].
  intros [= <- <-]. right. split_and!; [done..|]. intros Hv Hin. rewrite bool_decide_true in Hs by done. cbn [andb] in Hs.
  apply not_true_iff_false in Hs. apply Hs, existsb_exists. apply list_elem_of_fmap in Hin as (y & Hy & Hin).
  exists y. split; [by apply list_elem_of_In|by apply bool_decide_true].
Qed.

Lemma stream_insert tenantID keyID ks bs es gs x :
  stream tenantID keyID (mkEvidenceDB ks (bs ++ [x]) es gs) =
  stream tenantID keyID (mkEvidenceDB ks bs es gs) ++
  (if bool_decide (eb_tenant_id x = tenantID ∧ eb_KeyID x = keyID ∧ eb_EvidenceState x = evidenceStateVerified) then [x] else []).
Proof.
  unfold stream. cbn [sdk_evidence_batches]. rewrite filter_app. f_equal. case_bool_decide.
  - by rewrite filter_cons_True.
  - by rewrite filter_cons_False.
Qed.

Lemma grows_batch db x : grows db (mkEvidenceDB (sdk_signing_keys db) (sdk_evidence_batches db ++ [x]) (sdk_evidence_events db)
  (evidence_ingest_idempotency db)).
Proof. split; cbn; try done. by apply prefix_app_r. Qed.

(** A batch that stands at a known position and is backed extends its stream. *)
Lemma inv_batch db db2 x :
  evidence_inv db → grows db db2 → sdk_evidence_batches db2 = sdk_evidence_batches db ++ [x] →
  (eb_EvidenceState x = evidenceStateVerified →
    chain_slot x ∉ chain_slot <$> stream (eb_tenant_id x) (eb_KeyID x) db ∧
    known_head (eb_tenant_id x) (eb_KeyID x) (eb_FirstPreviousEventHash x) db ∧ backed (eb_tenant_id x) (eb_KeyID x) db2 x) →
  evidence_inv db2.
Proof.
  intros Hi Hg Hb Hx tenantID keyID. destruct (Hi tenantID keyID) as (Hl & Hnd & Hbk).
  assert (stream tenantID keyID db2 = stream tenantID keyID db ++
    (if bool_decide (eb_tenant_id x = tenantID ∧ eb_KeyID x = keyID ∧ eb_EvidenceState x = evidenceStateVerified) then [x] else [])) as Hs.
  { destruct db2 as [ks bs es gs], db as [ks' bs' es' gs']. cbn [sdk_evidence_batches] in Hb. subst bs.
    rewrite stream_insert. done. }
  unfold stream_ok. rewrite Hs. assert (Forall (backed tenantID keyID db2) (stream tenantID keyID db)) as Hbk'.
  { eapply Forall_impl; [exact Hbk|]. intros b. by apply backed_grows. }
  case_bool_decide as Hc; [|by rewrite app_nil_r]. destruct Hc as (<- & <- & Hv). destruct (Hx Hv) as (Hslot & Hk & Hback). split_and!.
  - apply linked_snoc; [done| |].
    + destruct Hk as [?|(b & Hb' & ?)]; [by left|]. right. by exists b.
    + apply Forall_forall. intros b Hb' Heq. apply Hslot. apply list_elem_of_fmap. exists b. split; [|done]. unfold chain_slot. by rewrite Heq.
  - rewrite fmap_app, NoDup_app. split_and!; [done| |apply NoDup_singleton]. intros s Hs' ?%list_elem_of_singleton. by subst s.
  - apply Forall_app. split; [done|]. by constructor.
Qed.

(** ** Persisting *)

Lemma chained_hashes pub keyID prev events fs : chained pub keyID prev events fs →
  ve_EventHash <$> zip_with verified_event events fs = ef_hash <$> fs.
Proof.
  revert prev fs. induction events as [|e events IH]; intros prev [|f fs] Hc; try done. destruct Hc as [(_ & _ & Hh & _) Hc].
  cbn. f_equal; [done|by eapply IH].
Qed.

(** What is to be persisted, when there are no issues. *)
Definition journal_of (pub : string) (sub : evidenceSubmission) (verified : list verifiedEvidenceEvent) (issues : list evidenceIssue) : Prop :=
  issues = [] → ∃ fs, chained pub (es_KeyID sub) (es_FirstPrev sub) (es_Events sub) fs ∧
    verified = zip_with verified_event (es_Events sub) fs.

Lemma journal_head pub keyID prev events fs lastEvent : chained pub keyID prev events fs →
  last (zip_with verified_event events fs) = Some lastEvent → fs ≠ [] ∧ head_after prev fs = Some (ve_EventHash lastEvent).
Proof.
  intros Hc Hl. apply chained_hashes in Hc. assert (last (ef_hash <$> fs) = Some (ve_EventHash lastEvent)) as Hlast.
  { by rewrite <-Hc, fmap_last, Hl. }
  rewrite fmap_last in Hlast. unfold head_after. destruct (last fs) as [f|] eqn:Hf; [|done]. injection Hlast as Hlast.
  split; [by intros ->|by rewrite Hlast].
Qed.

Lemma persist_rejected tenantID sub issues env db : evidence_inv db →
  let db' := (insertEvidenceBatch (rejected_batch tenantID sub issues) env db).2 in evidence_inv db' ∧ grows db db'.
Proof.
  intros Hi. destruct (insertEvidenceBatch _ env db) as [r db'] eqn:Hb. cbn [snd]. apply insert_batch in Hb as [[-> _]|(_ & -> & _)]; [done|].
  split; [|apply grows_batch]. eapply inv_batch; [exact Hi|apply grows_batch|reflexivity|]. done.
Qed.

Lemma persist_keeps tenantID sub pub verified issues env db :
  evidence_inv db → known_head tenantID (es_KeyID sub) (es_FirstPrev sub) db → journal_of pub sub verified issues →
  let db' := (persist_transaction tenantID sub (sha256_hex pub) verified issues env db).2 in evidence_inv db' ∧ grows db db'.
Proof.
  intros Hi Hk Hj. unfold persist_transaction. destruct (0 <? length issues)%nat eqn:Hl.
  { pose proof (persist_rejected tenantID sub issues env db Hi) as Hr. destruct (insertEvidenceBatch _ env db) as [r db'].
    by repeat case_match. }
  assert (issues = []) as ->. { destruct issues; [done|]. by apply Nat.ltb_ge in Hl; cbn in Hl; lia. }
  destruct (Hj eq_refl) as (fs & Hc & ->). clear Hj Hl.
  destruct (grows_key tenantID (es_KeyID sub) (es_PublicKeyPEM sub) (sha256_hex pub) env db) as [Hg1 Hb1].
  destruct (insertSDKSigningKey _ _ _ _ env db) as [u db1]. cbn [snd] in Hg1, Hb1.
  destruct (getSDKSigningKey tenantID (es_KeyID sub) env db1).1 as [key|e] eqn:Hkey; [|done].
  case_bool_decide as Hfp; [|done]. cbn [negb].
  destruct (last (zip_with verified_event (es_Events sub) fs)) as [lastEvent|] eqn:Hlast; [|done].
  destruct (journal_head _ _ _ _ _ _ Hc Hlast) as [Hne Hhead].
  set (new := verified_batch _ _ _ _ _). destruct (insertEvidenceBatch new env db1) as [r db2] eqn:Hb.
  apply insert_batch in Hb as [[-> Hr]|(-> & Hdb2 & Hslot)].
  { unfold inserted. destruct r as [[id at_]|e]; [by destruct Hr|]. by repeat case_match. }
  cbn [inserted snd]. set (x := new (en_uuid env) (en_now env)) in *. change (eb_ID (new (eb_ID x) (eb_ReceivedAt x))) with (eb_ID x).
  destruct (grows_events tenantID (es_KeyID sub) (eb_ID x) (zip_with verified_event (es_Events sub) fs) env db2) as (Hg3 & Hb3 & Hstored).
  set (db3 := insert_events _ _ _ _ _ _) in *. clearbody db3.
  assert (grows db1 db3) as Hg13. { etrans; [|exact Hg3]. rewrite Hdb2. apply grows_batch. }
  assert (grows db db3) as Hg by (by etrans). split; [|done].
  assert (stream tenantID (es_KeyID sub) db1 = stream tenantID (es_KeyID sub) db) as Hst by (unfold stream; by rewrite Hb1).
  eapply (inv_batch db db3 x); [exact Hi|exact Hg|by rewrite Hb3, Hdb2, <-Hb1|].
  intros Hv. split_and!; [|exact Hk|].
  - change (eb_tenant_id x) with tenantID in *. change (eb_KeyID x) with (es_KeyID sub) in *. rewrite <-Hst. by apply Hslot.
  - exists pub, (es_Events sub), fs. split_and!; [|done|exact Hc|exact Hhead|].
    + eapply registered_grows; [exact Hg13|]. exists key. by split.
    + by rewrite <-(chained_hashes _ _ _ _ _ Hc).
Qed.

(** ** Handlers *)

Abbreviation esafe := (safe evidence_inv grows grows).
Abbreviation estable := (stable grows).

(** Programs that only read. *)
Fixpoint reads {A} (p : eprog A) : Prop :=
  match p with
  | Ret _ => True
  | Call _ q k => (∀ env db, (q env db).2 = db) ∧ ∀ r, reads (k r)
  end.

Lemma reads_bind {A B} (m : eprog A) (k : A → eprog B) : reads m → (∀ a, reads (k a)) → reads (m ≫= k).
Proof. intros Hm Hk. induction m as [a|X w q k' IH]; [apply Hk|]. destruct Hm as [Hq Hk']. split; [done|]. intros r. by apply IH. Qed.

Lemma reads_safe {A} (p : eprog A) (P : evidence_db → Prop) (Q : A → Prop) :
  reads p → yields p Q → estable P → esafe P p (λ a db, P db ∧ Q a).
Proof.
  revert P. induction p as [a|X w q k IH]; intros P Hr Hy Hst; [by intros db _ HP|]. destruct Hr as [Hq Hk]. exists P, (λ _, P).
  split_and!; [done|done| |done|].
  - intros env db Hi _ HP. by rewrite Hq.
  - intros r. by apply IH.
Qed.

Lemma verify_reads tenantID keyID pub index events st : reads (verify_loop tenantID keyID pub index events st).
Proof.
  revert index st. induction events as [|event events IH]; intros index st; cbn [verify_loop]; [done|].
  destruct (extract_fields event) as [code|f]; [done|]. apply reads_bind.
  - unfold event_transition. repeat case_match; try done.
  - intros [[[codes ds] os]|e]; [apply IH|done].
Qed.

(** A statement that only reads keeps what is known. *)
Lemma read_keeps {X} (q : estmt X) (P : evidence_db → Prop) : (∀ env db, (q env db).2 = db) → estable P → esafe P (statement q) (λ _, P).
Proof. intros Hq Hst. apply safe_read; [apply _|done|done|by intros|by intros]. Qed.

Lemma stable_true : estable (λ _, True).
Proof. done. Qed.
Lemma stable_known tenantID keyID p : estable (known_head tenantID keyID p).
Proof. intros db db' Hk Hg. by eapply known_grows. Qed.

Lemma respond_safe tenantID sub key record fp created status :
  esafe (λ _, True) (respondEvidenceBatch tenantID sub key record fp created status) (λ _ _, True).
Proof.
  unfold respondEvidenceBatch. cbv zeta. case_bool_decide; [done|]. eapply safe_bind; [|by intros r].
  apply (safe_statement _ _ _ _ _ (λ _ _, True)); [done| |done]. intros env db Hi _.
  match goal with |- context [insertEvidenceIngestIdempotencyRecord ?x] => destruct (grows_ingest x env db) as [Hg Heq] end.
  split_and!; [by eapply same_streams|done|done|done].
Qed.

Lemma persist_safe tenantID sub key pub verified issues : journal_of pub sub verified issues →
  esafe (known_head tenantID (es_KeyID sub) (es_FirstPrev sub))
    (persist_and_respond tenantID sub key (sha256_hex pub) verified issues) (λ _ _, True).
Proof.
  intros Hj. unfold persist_and_respond. eapply (safe_bind _ _ _ _ _ _ (λ _ _, True)).
  - apply safe_statement; [apply stable_known| |done]. intros env db Hi Hk.
    destruct (persist_keeps tenantID sub pub verified issues env db Hi Hk Hj). by split_and!.
  - intros [[record| | |]|e]; try done.
    + apply respond_safe.
    + eapply (safe_bind _ _ _ _ _ _ (λ _ _, True)); [by apply read_keeps|]. intros [record|e]; [apply respond_safe|done].
    + eapply (safe_bind _ _ _ _ _ _ (λ _ _, True)); [by apply read_keeps|]. by intros r.
Qed.

Lemma ingest_safe tenantID sub key pub : esafe (λ _, True) (ingest_batch tenantID sub key pub (sha256_hex pub)) (λ _ _, True).
Proof.
  unfold ingest_batch. eapply (safe_bind _ _ _ _ _ _ (λ _ _, True)); [by apply read_keeps|]. intros existing.
  destruct (optional_row existing) as [[record|]|e]; [apply respond_safe| |done].
  eapply (safe_bind _ _ _ _ _ _ (λ r db, ∀ expected, optional_row r = Ok expected → known_head tenantID (es_KeyID sub) expected db)).
  { apply safe_read; [apply _|done|done| |done]. intros env db _ _ expected. apply expected_known. }
  intros r. destruct (optional_row r) as [expected|e]; [|done]. case_bool_decide as Hp; cbn [negb].
  - subst expected. apply (safe_weaken _ _ _ _ (known_head tenantID (es_KeyID sub) (es_FirstPrev sub))).
    + eapply safe_bind; [apply reads_safe; [apply verify_reads|apply verify_yields|apply stable_known]|].
      intros [[verified issues]|e]; [|done].
      apply (safe_pure _ _ _ _ _ _ (journal_of pub sub verified issues)).
      * intros db _ [_ Hj] ->. by apply Hj.
      * intros Hj. eapply safe_weaken; [by apply persist_safe|]. by intros db _ [? _].
    + intros db _ Hk. by apply Hk.
  - eapply (safe_bind _ _ _ _ _ _ (λ _ _, True)).
    + apply (safe_weaken _ _ _ _ (λ _, True)); [by apply read_keeps|done].
    + intros raced. destruct (optional_row raced) as [[record|]|e]; [apply respond_safe|done..].
Qed.

Lemma handler_safe req : esafe (λ _, True) (handleEvidenceBatchSubmit req) (λ _ _, True).
Proof.
  unfold handleEvidenceBatchSubmit. cbv zeta. case_bool_decide; [done|]. destruct (_ <? _); [done|]. destruct (_ && _); [done|].
  destruct (decodeEvidenceSubmission _) as [e|sub]; [done|]. destruct (parseSDKPublicKey _) as [[[pub fp] keyID]|] eqn:Hpub; [|done].
  assert (fp = sha256_hex pub) as ->.
  { unfold parseSDKPublicKey in Hpub. destruct (pem_public_key _); [|done]. cbn in Hpub. by injection Hpub as -> <- _. }
  case_bool_decide; cbn [negb]; [|done]. eapply (safe_bind _ _ _ _ _ _ (λ _ _, True)); [by apply read_keeps|]. intros k.
  destruct (optional_row k) as [existingKey|e]; [|done]. case_match; [done|]. case_bool_decide; [apply ingest_safe|].
  eapply (safe_bind _ _ _ _ _ _ (λ _ _, True)); [by apply read_keeps|]. intros i.
  destruct (optional_row i) as [[record|]|e]; [done|apply ingest_safe|done].
Qed.
End Facts.
