(* ===== verification/EvidenceTheorems.v ===== *)
(** * The theorems on evidence, and runs

    [evidence_verified_exactly]: a batch is verified exactly when it is a legal
    journal.  [evidence_streams_chained]: whatever requests do side by side and
    whichever statements fail, each stream is one signed hash chain that only
    grows. *)

From S2P Require Import Prelude GoStrings Json GoTime Ext CanonicalJson Concurrent Types Evidence.
From S2P Require Import EvidenceFacts.
Open Scope Z_scope.

Section Theorems.
Context `{Ext} `{SDKKeys}.

(** ** Legal journals *)

Definition is_decision (event : object) : Prop := str_or event "event_type" = "decision".

(** The last decision an event id stands for. *)
Definition known_decision (before : list object) (id : string) : option string :=
  last (omap (λ event, if bool_decide (is_decision event ∧ str_or event "event_id" = id) then Some (str_or event "decision") else None)
          before).

(** An outcome refers to the decision already. *)
Definition answered (before : list object) (id : string) : Prop :=
  ∃ event, event ∈ before ∧ ¬ is_decision event ∧ str_or event "decision_event_id" = id.

(** A decision decides; an outcome has a status and answers, for the first time,
    a decision that is no denial: one of the journal, or a stored one. *)
Definition legal (lookup : string → option string) (before : list object) (event : object) : Prop :=
  if bool_decide (is_decision event) then str_or event "decision" ∈ evidenceDecisionValues
  else str_or event "status" ∈ evidenceOutcomeStatuses ∧
    let id := str_or event "decision_event_id" in
    id ≠ "" ∧ ¬ answered before id ∧
    ∃ d, match known_decision before id with Some d' => d' = d | None => lookup id = Some d end ∧ d ≠ "denied".

Definition prev_of (firstPrev : option string) (before : list object) : option string :=
  match last before with Some event => str_at event "event_hash" | None => firstPrev end.

Definition legal_at (lookup : string → option string) (pub keyID : string) (firstPrev : option string) (before : list object)
    (event : object) : Prop :=
  (∃ f, event_sound pub keyID (prev_of firstPrev before) event f) ∧ legal lookup before event.

(** Every event is legal after those before it. *)
Definition legal_journal (lookup : string → option string) (pub keyID : string) (firstPrev : option string) (events : list object) : Prop :=
  ∀ before event after, events = before ++ event :: after → legal_at lookup pub keyID firstPrev before event.

(** ** The loop decides it *)

Lemma run_alone_bind {A B} env (m : eprog A) (k : A → eprog B) db :
  run_alone env (m ≫= k) db = run_alone env (k (run_alone env m db).1) (run_alone env m db).2.
Proof. revert db. induction m as [a|X w q k' IH]; intros db; [done|]. cbn [mbind prog_bind run_alone]. destruct (q env db) as [r db']. apply IH. Qed.

Lemma run_alone_yields {A} env (p : eprog A) (Q : A → Prop) db : yields p Q → Q (run_alone env p db).1.
Proof. revert db. induction p as [a|X w q k IH]; intros db Hy; [done|]. cbn [run_alone]. destruct (q env db) as [r db']. by apply IH. Qed.

Lemma run_alone_reads {A} env (p : eprog A) db : reads p → (run_alone env p db).2 = db.
Proof.
  revert db. induction p as [a|X w q k IH]; intros db Hr; [done|]. destruct Hr as [Hq Hk]. cbn [run_alone]. specialize (Hq env db).
  destruct (q env db) as [r db']. cbn in Hq. subst db'. by apply IH.
Qed.

Lemma extract_spec event f : extract_fields event = inr f →
  ef_type f = str_or event "event_type" ∧ ef_event_id f = str_or event "event_id" ∧ str_at event "event_hash" = Some (ef_hash f).
Proof.
  unfold extract_fields, str_or. cbv zeta. repeat case_match; try done. intros [= <-]. cbn. by repeat match goal with E : str_at _ _ = _ |- _ => rewrite E; clear E end.
Qed.

(** The state of the loop after events without issues. *)
Record state_of (firstPrev : option string) (before : list object) (st : verify_state) : Prop := {
  so_issues : vs_issues st = [];
  so_prev : vs_prev st = prev_of firstPrev before;
  so_decisions id : vs_decisions st !! id = known_decision before id;
  so_outcomes id : id ∈ vs_outcomes st ↔ answered before id;
}.

Lemma known_snoc before event id : known_decision (before ++ [event]) id =
  if bool_decide (is_decision event ∧ str_or event "event_id" = id) then Some (str_or event "decision") else known_decision before id.
Proof. unfold known_decision. rewrite omap_app. cbn. case_bool_decide; [by rewrite last_snoc|by rewrite app_nil_r]. Qed.

Lemma answered_snoc before event id : answered (before ++ [event]) id ↔
  answered before id ∨ ¬ is_decision event ∧ str_or event "decision_event_id" = id.
Proof. unfold answered. setoid_rewrite elem_of_app. setoid_rewrite list_elem_of_singleton. naive_solver. Qed.

Definition stored_lookup (tenantID keyID : string) (db : evidence_db) (id : string) : option string :=
  res_to_option (getStoredDecision tenantID keyID id (mkEvidenceEnv 0 0%N 0) db).1.

Lemma outcome_transition_spec decision id (st : verify_state) codes ds os : outcome_transition decision id st = (codes, ds, os) →
  (codes = [] ↔ (∃ d, decision = Some d ∧ d ≠ "denied") ∧ id ∉ vs_outcomes st) ∧
  (codes = [] → ds = vs_decisions st ∧ os = {[id]} ∪ vs_outcomes st).
Proof.
  unfold outcome_transition. destruct decision as [d|]; [|intros [= <- <- <-]; naive_solver].
  repeat case_bool_decide; intros [= <- <- <-]; naive_solver.
Qed.

Lemma decision_spec event f before st codes ds os firstPrev : state_of firstPrev before st → is_decision event →
  ef_event_id f = str_or event "event_id" → decision_transition event (ef_event_id f) st = (codes, ds, os) →
  (codes = [] ↔ str_or event "decision" ∈ evidenceDecisionValues) ∧
  (codes = [] → (∀ id, ds !! id = known_decision (before ++ [event]) id) ∧ ∀ id, id ∈ os ↔ answered (before ++ [event]) id).
Proof.
  intros Hst Hd Hid. unfold decision_transition. cbv zeta. case_bool_decide as Hv; cbn [negb]; intros [= <- <- <-]; [|naive_solver].
  split; [done|]. intros _. split; intros id.
  - rewrite known_snoc, <-(so_decisions _ _ _ Hst). case_bool_decide as Hc.
    + destruct Hc as [_ Hc]. by rewrite Hid, Hc, lookup_insert_eq.
    + rewrite lookup_insert_ne; [done|]. rewrite Hid. naive_solver.
  - rewrite answered_snoc, (so_outcomes _ _ _ Hst). naive_solver.
Qed.

(** What an outcome's reference resolves to. *)
Lemma reference_spec (lookup : string → option string) before id decision :
  decision = (match known_decision before id with Some d => Some d | None => lookup id end) →
  (∃ d, decision = Some d ∧ d ≠ "denied") ↔
  ∃ d, match known_decision before id with Some d' => d' = d | None => lookup id = Some d end ∧ d ≠ "denied".
Proof. intros ->. destruct (known_decision before id); naive_solver. Qed.

Lemma outcome_spec (lookup : string → option string) event before st decision codes ds os firstPrev :
  state_of firstPrev before st → ¬ is_decision event →
  let id := str_or event "decision_event_id" in
  let status := if bool_decide (str_or event "status" ∈ evidenceOutcomeStatuses) then [] else ["invalid_field"] in
  decision = (match known_decision before id with Some d => Some d | None => lookup id end) → id ≠ "" →
  outcome_transition decision id st = (codes, ds, os) →
  (status ++ codes = [] ↔ legal lookup before event) ∧
  (status ++ codes = [] → (∀ id, ds !! id = known_decision (before ++ [event]) id) ∧ ∀ id, id ∈ os ↔ answered (before ++ [event]) id).
Proof.
  intros Hst Hd. cbv zeta. intros Hdec Hne Ht. destruct (outcome_transition_spec _ _ _ _ _ _ Ht) as [Hcodes Hafter].
  rewrite app_nil. unfold legal. rewrite (bool_decide_false (is_decision event)) by done. split.
  - rewrite Hcodes, (reference_spec lookup before _ _ Hdec), (so_outcomes _ _ _ Hst). case_bool_decide; naive_solver.
  - intros [_ Hc]. destruct (Hafter Hc) as [-> ->]. split; intros id.
    + rewrite known_snoc, bool_decide_false by naive_solver. apply Hst.
    + rewrite answered_snoc, elem_of_union, elem_of_singleton, (so_outcomes _ _ _ Hst). naive_solver.
Qed.

Lemma transition_spec tenantID keyID env db event f before st firstPrev :
  state_of firstPrev before st → extract_fields event = inr f →
  ∃ codes ds os, run_alone env (event_transition tenantID keyID event f st) db = (Ok (codes, ds, os), db) ∧
    (codes = [] ↔ legal (stored_lookup tenantID keyID db) before event) ∧
    (codes = [] → (∀ id, ds !! id = known_decision (before ++ [event]) id) ∧ ∀ id, id ∈ os ↔ answered (before ++ [event]) id).
Proof.
  intros Hst Hf. destruct (extract_spec _ _ Hf) as (Htype & Hid & _). unfold event_transition.
  change (ef_type f = "decision") with (ef_type f = "decision"). rewrite Htype. case_bool_decide as Hd.
  - destruct (decision_transition event (ef_event_id f) st) as [[codes ds] os] eqn:Ht. exists codes, ds, os. split; [done|].
    unfold legal. rewrite bool_decide_true by done. by eapply decision_spec.
  - cbv zeta. set (id := str_or event "decision_event_id") in *. case_bool_decide as Hne.
    { eexists _, _, _. split; [done|]. split; [|intros Hc; by apply app_nil in Hc as [_ ?]].
      unfold legal. rewrite (bool_decide_false (is_decision event)) by done. rewrite app_nil. split; [naive_solver|]. intros (_ & ? & _). done. }
    assert (∀ decision, decision = (match known_decision before id with Some d => Some d | None => stored_lookup tenantID keyID db id end) →
      ∃ codes ds os, (let '(codes, ds, os) := outcome_transition decision id st in
        ((if bool_decide (str_or event "status" ∈ evidenceOutcomeStatuses) then [] else ["invalid_field"]) ++ codes, ds, os)) = (codes, ds, os) ∧
        (codes = [] ↔ legal (stored_lookup tenantID keyID db) before event) ∧
        (codes = [] → (∀ id, ds !! id = known_decision (before ++ [event]) id) ∧ ∀ id, id ∈ os ↔ answered (before ++ [event]) id)) as Hout.
    { intros decision Hdec. destruct (outcome_transition decision id st) as [[codes ds] os] eqn:Ht. eexists _, _, _. split; [done|].
      by eapply outcome_spec. }
    rewrite <-(so_decisions _ _ _ Hst) in Hout. destruct (vs_decisions st !! id) as [d|].
    + destruct (Hout _ eq_refl) as (codes & ds & os & Heq & Hrest). exists codes, ds, os. split; [|done]. cbn [run_alone]. by rewrite Heq.
    + rewrite run_alone_bind. cbn [statement run_alone]. unfold stored_lookup in Hout.
      change (getStoredDecision tenantID keyID id (mkEvidenceEnv 0 0%N 0) db) with (getStoredDecision tenantID keyID id env db) in Hout.
      assert ((getStoredDecision tenantID keyID id env db).2 = db) as Hdb by done.
      assert (∀ e, (getStoredDecision tenantID keyID id env db).1 = Err e → e = ErrNoRows) as He.
      { intros e. cbn [getStoredDecision fst]. destruct (filter _ _); [by intros [= <-]|done]. }
      destruct (getStoredDecision tenantID keyID id env db) as [r db']. cbn [fst snd] in *. subst db'.
      destruct (Hout _ eq_refl) as (codes & ds & os & Heq & Hrest). exists codes, ds, os. split; [|done].
      destruct r as [stored|e]; cbn [run_alone fst snd res_to_option] in *; [by rewrite Heq|].
      rewrite bool_decide_true by (by apply He). by rewrite Heq.
Qed.

(** The batch has no issues. *)
Definition accepts (env : evidence_env) (p : eprog (res (list verifiedEvidenceEvent * list evidenceIssue))) (db : evidence_db) : Prop :=
  ∃ verified, (run_alone env p db).1 = Ok (verified, []).

Lemma loop_issues tenantID keyID pub env db index events st :
  accepts env (verify_loop tenantID keyID pub index events st) db → vs_issues st = [].
Proof.
  intros [verified Hv]. by destruct (run_alone_yields env _ _ db (verify_loop_yields tenantID keyID pub index events st) verified Hv).
Qed.

Lemma next_state_of index event f codes ds os before st firstPrev : state_of firstPrev before st → extract_fields event = inr f →
  codes = [] → (∀ id, ds !! id = known_decision (before ++ [event]) id) → (∀ id, id ∈ os ↔ answered (before ++ [event]) id) →
  state_of firstPrev (before ++ [event]) (next_state index event f codes ds os st).
Proof.
  intros Hst Hf -> Hds Hos. destruct (extract_spec _ _ Hf) as (_ & _ & Hh). split; cbn [next_state vs_issues vs_prev vs_decisions vs_outcomes].
  - unfold add_issues. by rewrite (so_issues _ _ _ Hst).
  - unfold prev_of. by rewrite last_snoc.
  - done.
  - done.
Qed.

Lemma loop_exact tenantID keyID pub env db firstPrev events : ∀ index before st, state_of firstPrev before st →
  accepts env (verify_loop tenantID keyID pub index events st) db ↔
  ∀ mid event after, events = mid ++ event :: after →
    legal_at (stored_lookup tenantID keyID db) pub keyID firstPrev (before ++ mid) event.
Proof.
  induction events as [|event events IH]; intros index before st Hst; cbn [verify_loop].
  { split; [by intros _ [|? ?] ? ? ?|]. intros _. exists (vs_verified st). cbn. by rewrite (so_issues _ _ _ Hst). }
  assert (∀ P : list object → object → Prop, (∀ mid e after, event :: events = mid ++ e :: after → P mid e) ↔
    P [] event ∧ ∀ mid e after, events = mid ++ e :: after → P (event :: mid) e) as Hsplit.
  { intros P. split.
    - intros HP. split; [by apply (HP [] event events)|]. intros mid e after ->. by apply (HP (event :: mid) e after).
    - intros [H1 H2] [|x mid] e after Heq; injection Heq as -> Heq; [done|]. by eapply H2. }
  rewrite (Hsplit (λ mid e, legal_at (stored_lookup tenantID keyID db) pub keyID firstPrev (before ++ mid) e)), app_nil_r.
  setoid_rewrite (cons_middle event). setoid_rewrite app_assoc.
  destruct (extract_fields event) as [code|f] eqn:Hf.
  - split; [intros (verified & [= _ Hi]); by apply add_issues_nil in Hi as [? _]|]. intros [[(f & Hf' & _) _] _]. congruence.
  - destruct (transition_spec tenantID keyID env db event f before st firstPrev Hst Hf) as (codes & ds & os & Hrun & Hlegal & Hafter).
    unfold accepts. rewrite run_alone_bind, Hrun. cbn [fst snd]. fold (accepts env).
    set (all_codes := integrity_codes pub keyID (vs_prev st) event f ++ codes).
    assert (all_codes = [] ↔ legal_at (stored_lookup tenantID keyID db) pub keyID firstPrev before event) as Hall.
    { unfold all_codes, legal_at. rewrite app_nil, Hlegal, integrity_none by done. rewrite (so_prev _ _ _ Hst). split; [naive_solver|].
      intros [(f' & Hf' & ?) ?]. assert (f' = f) as -> by congruence. by split. }
    rewrite <-Hall. split.
    + intros Hacc. pose proof (loop_issues _ _ _ _ _ _ _ _ Hacc) as Hi. cbn [next_state vs_issues] in Hi.
      apply add_issues_nil in Hi as [Hcodes _]. split; [done|]. pose proof Hcodes as [_ Hc]%app_nil. destruct (Hafter Hc) as [Hds Hos].
      by apply (IH (S index) _ _ (next_state_of index event f all_codes ds os before st firstPrev Hst Hf Hcodes Hds Hos)).
    + intros [Hcodes Hrest]. pose proof Hcodes as [_ Hc]%app_nil. destruct (Hafter Hc) as [Hds Hos].
      by apply (IH (S index) _ _ (next_state_of index event f all_codes ds os before st firstPrev Hst Hf Hcodes Hds Hos)).
Qed.

(** C16: the server verifies a batch of evidence exactly when it is a legal
    journal: every event is well-formed, stands where its previous hash says,
    carries the hash of its canonical bytes and a signature of the stream's key
    over it; a decision allows or denies, and an outcome answers, once in the
    batch, a decision that is no denial. *)
Theorem evidence_verified_exactly tenantID keyID pub firstPrev events env db :
  accepts env (verifyEvidenceEvents tenantID events pub keyID firstPrev) db ↔
  legal_journal (stored_lookup tenantID keyID db) pub keyID firstPrev events.
Proof.
  apply (loop_exact tenantID keyID pub env db firstPrev events 0 []). split; cbn; [done|done| |].
  - intros id. apply lookup_empty.
  - intros id. unfold answered. set_solver.
Qed.

(** ** The stream as a whole *)

(** Events in their order, each signed with a key of the fingerprint. *)
Fixpoint journal (fingerprint keyID : string) (prev : option string) (events : list object) (fs : list event_fields) : Prop :=
  match events, fs with
  | [], [] => True
  | event :: events, f :: fs =>
    (∃ pub, sha256_hex pub = fingerprint ∧ event_sound pub keyID prev event f) ∧ journal fingerprint keyID (Some (ef_hash f)) events fs
  | _, _ => False
  end.

Lemma chained_journal pub keyID prev events fs rest rfs : chained pub keyID prev events fs →
  journal (sha256_hex pub) keyID (head_after prev fs) rest rfs → journal (sha256_hex pub) keyID prev (events ++ rest) (fs ++ rfs).
Proof.
  revert prev fs. induction events as [|e events IH]; intros prev [|f fs] Hc Hj; try done. destruct Hc as [Hs Hc].
  rewrite head_after_cons in Hj. cbn [app journal]. split; [by exists pub|by apply IH].
Qed.

Lemma registered_fun tenantID keyID fp fp' db : registered tenantID keyID fp db → registered tenantID keyID fp' db → fp = fp'.
Proof. intros (x & Hx & <-) (y & Hy & <-). congruence. Qed.

Lemma head_after_app prev fs fs' : head_after prev (fs ++ fs') = head_after (head_after prev fs) fs'.
Proof. unfold head_after. rewrite last_app. by destruct (last fs'). Qed.

Lemma stream_journal tenantID keyID fp db l : registered tenantID keyID fp db → Forall (backed tenantID keyID db) l → ∀ prev, linked prev l →
  ∃ events fs, journal fp keyID prev events fs ∧ Forall (λ h, stored_event tenantID keyID h db) (ef_hash <$> fs) ∧
    head_after prev fs = (match last l with Some b => eb_ChainHead b | None => prev end).
Proof.
  intros Hr. induction 1 as [|b l (pub & es & fs & Hpub & Hne & Hc & Hh & Hs) Hl IH]; intros prev Hlink; [by exists [], []|].
  destruct Hlink as [Hb Hlink]. destruct (IH _ Hlink) as (events & fs' & Hj & Hs' & Hh').
  rewrite (registered_fun _ _ _ _ _ Hr Hpub) in *. rewrite Hb in *. exists (es ++ events), (fs ++ fs'). split_and!.
  - apply chained_journal; [done|]. by rewrite Hh.
  - rewrite fmap_app. by apply Forall_app.
  - rewrite head_after_app, Hh, Hh', last_cons. by destruct (last l).
Qed.

Definition empty_evidence : evidence_db := mkEvidenceDB [] [] [] [].

Lemma empty_inv : evidence_inv empty_evidence.
Proof. intros tenantID keyID. split_and!; [done|constructor|constructor]. Qed.

Lemma submissions_ok db hs : evidence_inv db →
  evidence_inv (history (λ _, handleEvidenceBatchSubmit) db hs).1 ∧ grows db (history (λ _, handleEvidenceBatchSubmit) db hs).1.
Proof.
  intros Hi. destruct (history_ok (λ _, handleEvidenceBatchSubmit) evidence_inv grows (λ _, grows) (λ _ s s' Hg, Hg) (λ _ _, True)
    (λ _ _ _ _ _, I) db hs) as [Hg [Hi' _]]; [|done|done].
  intros i r. exists (λ _, True). split; [|done]. apply (safe_mono _ grows _ grows); [by intros s s' (j & _ & Hg)|done|apply handler_safe].
Qed.

(** C15: however submissions interleave, and whichever of their statements fail or
    lose their reply, the verified batches of a stream extend each other from
    the beginning without a fork, and together hold one journal: each event
    signed with the stream's registered key over the hash of its canonical bytes,
    linked to the one before it and stored, up to the stream's head. *)
Theorem evidence_streams_chained hs tenantID keyID :
  let db := (history (λ _, handleEvidenceBatchSubmit) empty_evidence hs).1 in
  let batches := stream tenantID keyID db in
  linked None batches ∧ NoDup (eb_FirstPreviousEventHash <$> batches) ∧
  ∀ b, last batches = Some b → ∃ fingerprint events fs,
    registered tenantID keyID fingerprint db ∧ journal fingerprint keyID None events fs ∧
    Forall (λ h, stored_event tenantID keyID h db) (ef_hash <$> fs) ∧ head_after None fs = eb_ChainHead b.
Proof.
  cbv zeta. destruct (submissions_ok empty_evidence hs empty_inv) as [Hi _]. destruct (Hi tenantID keyID) as (Hl & Hnd & Hb).
  set (db := (history _ _ hs).1) in *. clearbody db. split_and!; [done| |].
  - apply (NoDup_fmap_1 (default "genesis")). rewrite <-list_fmap_compose. exact Hnd.
  - intros b Hlast. assert (b ∈ stream tenantID keyID db) as Hin by (by apply last_Some_elem_of).
    rewrite Forall_forall in Hb. pose proof (Hb b Hin) as (pub & _ & _ & Hr & _). rewrite <-Forall_forall in Hb.
    destruct (stream_journal _ _ _ _ _ Hr Hb None Hl) as (events & fs & Hj & Hs & Hh). exists (sha256_hex pub), events, fs.
    rewrite Hlast in Hh. done.
Qed.
End Theorems.
