(* ===== verification/EvidenceExamples.v ===== *)
(** * Evidence, run

    Batches submitted one after the other and side by side, and two transitions
    the verification lets through although its comments rule them out. *)

From S2P Require Import Prelude GoStrings Json GoTime Ext CanonicalJson Concurrent Types Evidence.
From S2P Require Import EvidenceFacts EvidenceTheorems.
Open Scope Z_scope.

Module EvidenceExample.

(** A 32-byte digest that depends on every byte. *)
Fixpoint mix (acc : Z) (s : string) : Z :=
  match s with "" => acc | String a s => mix (Z.land (acc * 1000003 + zb a + 1) (2 ^ 64 - 1)) s end.
Fixpoint to_bytes (n : nat) (z : Z) (s : string) : string :=
  match n with O => s | S n => to_bytes n (z / 256) (String (bz (z mod 256)) s) end.

#[local] Instance evidence_ext : Ext := {|
  uuid_String := @uuid_String demo_ext;
  uuid_Parse := @uuid_Parse demo_ext;
  unicode_IsPrint := @unicode_IsPrint demo_ext;
  map_first_key := @map_first_key demo_ext;
  sha256 s := to_bytes 32 (mix 7 s) "";
  ed25519_Sign := @ed25519_Sign demo_ext;
  ed25519_Public := @ed25519_Public demo_ext;
  ed25519_Verify := @ed25519_Verify demo_ext;
  url_Parse := @url_Parse demo_ext;
  url_String := @url_String demo_ext;
  url_EscapedPath := @url_EscapedPath demo_ext;
  url_Hostname := @url_Hostname demo_ext;
  getenv := @getenv demo_ext;
  jsonb_text := @jsonb_text demo_ext;
|}.

(** The PEM text is the key. *)
#[local] Instance pem_keys : SDKKeys := {| pem_public_key s := Some s |}.

Definition key : string := "sdk-key".
Definition key_id : string := "ed25519:" +:+ take_str 16 (sha256_hex key).

Definition of_list (l : list (string * any)) : object := foldl (λ m kv, put kv.1 kv.2 m) [] l.

(** An event signed as the SDK signs it. *)
Definition sign (l : list (string * any)) (prev : option string) : object :=
  let event := of_list (l ++ [("schema_version", AString "1"); ("action_id", AString "a-1"); ("action_name", AString "deploy");
    ("contract_hash", AString (hex_encode (sha256 "contract"))); ("timestamp_utc", AString "2024-02-29T12:00:00Z"); ("key_id", AString key_id);
    ("previous_event_hash", match prev with Some h => AString h | None => ANil end)]) in
  let digest := sha256 (Encode event) in
  put "event_hash" (AString (hex_encode digest)) (put "signature" (AString (b64_encode (ed25519_Sign key digest))) event).

Definition decision (id value : string) : option string → object :=
  sign [("event_type", AString "decision"); ("event_id", AString id); ("decision", AString value); ("risk", AString "low");
    ("approval_mode", AString "never"); ("redacted_input_summary", AString ""); ("input_hash", AString "")].
Definition outcome (id decision_id : string) : option string → object :=
  sign [("event_type", AString "outcome"); ("event_id", AString id); ("status", AString "succeeded"); ("decision_event_id", AString decision_id)].

(** Events in a chain from [prev]. *)
Fixpoint in_chain (prev : option string) (l : list (option string → object)) : list object :=
  match l with [] => [] | e :: l => let event := e prev in event :: in_chain (str_at event "event_hash") l end.
Definition head_of (prev : option string) (l : list (option string → object)) : option string :=
  match last (in_chain prev l) with Some e => str_at e "event_hash" | None => prev end.

Definition submit (prev : option string) (l : list (option string → object)) : evidence_request :=
  mkEvidenceRequest "acme" "" (Encode (of_list [("key_id", AString key_id); ("public_key_pem", AString key);
    ("journal_segment", AMap (of_list [("first_previous_event_hash", match prev with Some h => AString h | None => ANil end);
       ("events", AList (AMap <$> in_chain prev l))]))])).

Definition env (n : Z) : evidence_env := mkEvidenceEnv (n * Second) (Z.to_N n) (n * Second).
Definition handle (n : Z) (r : evidence_request) (db : evidence_db) : evidence_db := (run_alone (env n) (handleEvidenceBatchSubmit r) db).2.
Definition states (db : evidence_db) : list string := eb_EvidenceState <$> sdk_evidence_batches db.

Definition first_batch : list (option string → object) := [decision "d-1" "allowed"; outcome "o-1" "d-1"].
Definition db1 : evidence_db := handle 1 (submit None first_batch) empty_evidence.
Definition head1 : option string := head_of None first_batch.

(** A batch, and one that continues it; the same batch again adds nothing. *)
Example continued :
  let db2 := handle 2 (submit head1 [decision "d-2" "denied"]) db1 in
  (states db1, states db2, states (handle 3 (submit None first_batch) db2), length (sdk_evidence_events db2)) =
  (["verified"], ["verified"; "verified"], ["verified"; "verified"], 3%nat).
Proof. vm_compute. reflexivity. Qed.

(** Denials are terminal and decisions are answered once, within a batch. *)
Example rejected :
  (states (handle 1 (submit None [decision "d-1" "denied"; outcome "o-1" "d-1"]) empty_evidence),
   states (handle 1 (submit None (first_batch ++ [outcome "o-2" "d-1"])) empty_evidence)) = (["rejected"], ["rejected"]).
Proof. vm_compute. reflexivity. Qed.

(** A decision answered in one batch is answered again in the next. *)
Example answered_twice : states (handle 2 (submit head1 [outcome "o-2" "d-1"]) db1) = ["verified"; "verified"].
Proof. vm_compute. reflexivity. Qed.

(** A denied decision is allowed by an event that reuses its id. *)
Example denial_overridden :
  states (handle 1 (submit None [decision "d-1" "denied"; decision "d-1" "allowed"; outcome "o-1" "d-1"]) empty_evidence) = ["verified"].
Proof. vm_compute. reflexivity. Qed.

(** Two requests that both saw the empty stream: one batch is stored, the other
    request is told of the head. *)
Definition race : list (happening evidence_env evidence_request) :=
  [Start (submit None first_batch); Start (submit None [decision "x-1" "allowed"])]
  ++ concat (replicate 3 [Run 0 (env 1); Run 1 (env 2)]) ++ [Run 0 (env 3); Run 1 (env 4); Run 1 (env 5)].

Example one_genesis :
  let c := history (λ _, handleEvidenceBatchSubmit) empty_evidence race in
  (states c.1, match c.2 !! 1%nat with Some (Ret (ReplyMismatch h)) => bool_decide (h = head1) | _ => false end) = (["verified"], true).
Proof. vm_compute. reflexivity. Qed.
End EvidenceExample.
