(* ===== verification/Capability.v ===== *)
(** * Capabilities: identities, capability policy and permission envelopes

    coordinator/task_governance.go.  Governance data (agent identity, required
    capabilities, credential requests) is normalised, attached to the task
    definition and read back from it; the capabilities of a definition without
    declared ones are derived from its type; the tenant's policy decides each
    capability, deny before allow and deny by default; a permitted task gets a
    signed envelope.

    The policy lookup's outcome, the clock and the stream of random UUIDs are
    arguments here; Coordinator.v supplies them from the world. *)

From S2P Require Import Prelude GoStrings Json Ext WalCodec Types.
Open Scope Z_scope.

(** ** Normalisation *)

(** [sort.Strings]. *)
Definition sort_strings (l : list string) : list string := merge_sort String.le l.

Definition normalize_word (value : string) : string := TrimSpace (ToLower value).

(** The first occurrences, in order. *)
Fixpoint dedup_from (seen : gset string) (l : list string) : list string :=
  match l with
  | [] => []
  | x :: l =>
    if bool_decide (x = "") || bool_decide (x ∈ seen) then dedup_from seen l
    else x :: dedup_from ({[ x ]} ∪ seen) l
  end.

Definition normalizeCapabilityList (values : list string) : list string :=
  sort_strings (dedup_from ∅ (normalize_word <$> values)).

Definition normalizeCredentialRequest (value : CredentialRequest) : CredentialRequest :=
  mkCredentialRequest (normalize_word (cr_Tool value)) (normalize_word (cr_Capability value))
    (TrimSpace (cr_Scope value)) (cr_ExpiresInSeconds value).

Definition credential_request_blank (req : CredentialRequest) : bool :=
  bool_decide (cr_Tool req = "") && bool_decide (cr_Capability req = "")
  && bool_decide (cr_Scope req = "").

Definition normalizeCredentialRequests (values : list CredentialRequest) : list CredentialRequest :=
  filter (λ req, credential_request_blank req = false) (normalizeCredentialRequest <$> values).

Definition normalizeDelegationChain (identity : AgentIdentity) : list string :=
  dedup_from ∅ (TrimSpace <$>
    ActingOnBehalfOf identity :: DelegationChain identity ++ [AgentID identity]).

Fixpoint firstNonEmpty (values : list string) : string :=
  match values with
  | [] => ""
  | v :: values => if nonempty (TrimSpace v) then v else firstNonEmpty values
  end.

Definition agentIdentityEmpty (identity : AgentIdentity) : bool :=
  bool_decide (TrimSpace (AgentID identity) = "") &&
  bool_decide (TrimSpace (PrincipalID identity) = "") &&
  bool_decide (TrimSpace (SubmittedBy identity) = "") &&
  bool_decide (TrimSpace (ActingOnBehalfOf identity) = "") &&
  bool_decide (DelegationChain identity = []).

Definition normalize_identity (tenantID : string) (identity : AgentIdentity) : AgentIdentity :=
  let submittedBy := firstNonEmpty [SubmittedBy identity; tenantID] in
  let principalID := firstNonEmpty [PrincipalID identity; submittedBy] in
  let actingOnBehalfOf := firstNonEmpty [ActingOnBehalfOf identity; principalID] in
  let trimmed := mkIdentity (TrimSpace (AgentID identity)) (TrimSpace principalID)
                   (TrimSpace submittedBy) (TrimSpace actingOnBehalfOf)
                   (DelegationChain identity) in
  mkIdentity (AgentID trimmed) (PrincipalID trimmed) (SubmittedBy trimmed)
    (ActingOnBehalfOf trimmed) (normalizeDelegationChain trimmed).

Definition normalizeTaskGovernance (tenantID : string) (identity : option AgentIdentity)
    (required : list string) (credentialRequests : list CredentialRequest) : taskGovernance :=
  mkGovernance (normalize_identity tenantID (default AgentIdentity_zero identity))
    (normalizeCapabilityList required) (normalizeCredentialRequests credentialRequests).

(** ** Governance inside the task definition *)

Definition string_list_text (l : list string) : string := arr_text (str_text <$> l).

Definition AgentIdentity_text (i : AgentIdentity) : string :=
  obj_text (omit_empty "agent_id" (AgentID i) ++ omit_empty "principal_id" (PrincipalID i)
            ++ omit_empty "submitted_by" (SubmittedBy i)
            ++ omit_empty "acting_on_behalf_of" (ActingOnBehalfOf i)
            ++ (if bool_decide (DelegationChain i = []) then []
                else [("delegation_chain", string_list_text (DelegationChain i))])).

Definition CredentialRequest_text (c : CredentialRequest) : string :=
  obj_text (omit_empty "tool" (cr_Tool c) ++ omit_empty "capability" (cr_Capability c)
            ++ omit_empty "scope" (cr_Scope c)
            ++ (if cr_ExpiresInSeconds c =? 0 then []
                else [("expires_in_seconds", num_text (cr_ExpiresInSeconds c))])).

Definition governance_blank (g : taskGovernance) : bool :=
  bool_decide (g_RequiredCapabilities g = []) &&
  bool_decide (g_CredentialRequests g = []) && agentIdentityEmpty (g_AgentIdentity g).

(** The definition with the governance members added.  [None] is a panic: a
    definition that is the literal [null] decodes to a nil map, and assigning
    to one panics. *)
Definition attachTaskGovernanceToDefinition (definition : string) (governance : taskGovernance)
    : option string :=
  if governance_blank governance then Some definition
  else match unmarshal_rawmap definition with
  | None => Some definition
  | Some None => None
  | Some (Some object) =>
    let object := <["agent_identity" := AgentIdentity_text (g_AgentIdentity governance)]> object in
    let object := <["required_capabilities" := string_list_text (g_RequiredCapabilities governance)]> object in
    let object :=
      if bool_decide (g_CredentialRequests governance = []) then object
      else <["credential_requests" :=
              arr_text (CredentialRequest_text <$> g_CredentialRequests governance)]> object in
    Some (map_text (compact <$> object))
  end.

Definition AgentIdentity_fields : list (string * dec AgentIdentity) :=
  [("agent_id", field AgentID (λ x '(mkIdentity _ b c d e), mkIdentity x b c d e) dec_string);
   ("principal_id", field PrincipalID (λ x '(mkIdentity a _ c d e), mkIdentity a x c d e) dec_string);
   ("submitted_by", field SubmittedBy (λ x '(mkIdentity a b _ d e), mkIdentity a b x d e) dec_string);
   ("acting_on_behalf_of",
     field ActingOnBehalfOf (λ x '(mkIdentity a b c _ e), mkIdentity a b c x e) dec_string);
   ("delegation_chain",
     field DelegationChain (λ x '(mkIdentity a b c d _), mkIdentity a b c d x)
       (dec_list "" dec_string))].

Definition CredentialRequest_zero : CredentialRequest := mkCredentialRequest "" "" "" 0.
Definition CredentialRequest_fields : list (string * dec CredentialRequest) :=
  [("tool", field cr_Tool (λ x '(mkCredentialRequest _ b c d), mkCredentialRequest x b c d) dec_string);
   ("capability",
     field cr_Capability (λ x '(mkCredentialRequest a _ c d), mkCredentialRequest a x c d) dec_string);
   ("scope", field cr_Scope (λ x '(mkCredentialRequest a b _ d), mkCredentialRequest a b x d) dec_string);
   ("expires_in_seconds",
     field cr_ExpiresInSeconds (λ x '(mkCredentialRequest a b c _), mkCredentialRequest a b c x)
       (dec_int 64))].

Definition extractTaskGovernanceFromDefinition (definition : string) : taskGovernance :=
  match unmarshal_rawmap definition with
  | None => taskGovernance_zero
  | Some object =>
    let identity := (unmarshal (dec_struct AgentIdentity_fields)
                       (raw_index object "agent_identity") AgentIdentity_zero).1 in
    let required := (unmarshal (dec_list "" dec_string)
                       (raw_index object "required_capabilities") []).1 in
    let requests := (unmarshal (dec_list CredentialRequest_zero (dec_struct CredentialRequest_fields))
                       (raw_index object "credential_requests") []).1 in
    mkGovernance identity (normalizeCapabilityList required) (normalizeCredentialRequests requests)
  end.

(** ** Capabilities derived from the definition *)

Definition normalizeToolCapability (toolName : string) : string :=
  let normalized := normalize_word toolName in
  if bool_decide (normalized = "") then ""
  else if HasPrefix normalized "tools." then normalized
  else "tools." +:+ normalized.

Definition addCapability (value : string) (caps : gset string) : gset string :=
  let value := normalize_word value in
  if bool_decide (value = "") then caps else {[ value ]} ∪ caps.

Record memoryJSON := mkMemoryJSON {
  mem_RecallQuery : option string;
  mem_RecallTopK : option Z;
  mem_StoreKey : option string;
  mem_StoreOutput : bool;
}.
Definition memoryJSON_fields : list (string * dec memoryJSON) :=
  [("recall_query",
     field mem_RecallQuery (λ x '(mkMemoryJSON _ b c d), mkMemoryJSON x b c d) (dec_ptr "" dec_string));
   ("recall_top_k",
     field mem_RecallTopK (λ x '(mkMemoryJSON a _ c d), mkMemoryJSON a x c d) (dec_ptr 0 (dec_int 64)));
   ("store_key",
     field mem_StoreKey (λ x '(mkMemoryJSON a b _ d), mkMemoryJSON a b x d) (dec_ptr "" dec_string));
   ("store_output",
     field mem_StoreOutput (λ x '(mkMemoryJSON a b c _), mkMemoryJSON a b c x) dec_bool)].

Definition set_nonblank (v : option string) : bool :=
  match v with Some s => nonempty (TrimSpace s) | None => false end.

Definition addMemoryCapabilities (raw : string) (caps : gset string) : gset string :=
  let '(memory, ok) := unmarshal (dec_struct memoryJSON_fields) raw (mkMemoryJSON None None None false) in
  if bool_decide (raw = "") || negb ok then caps
  else
    let caps := if set_nonblank (mem_RecallQuery memory) then addCapability "memory.read" caps else caps in
    let caps := match mem_RecallTopK memory with
                | Some k => if 0 <? k then addCapability "memory.read" caps else caps
                | None => caps
                end in
    let caps := if mem_StoreOutput memory then addCapability "memory.write" caps else caps in
    if set_nonblank (mem_StoreKey memory) then addCapability "memory.write" caps else caps.

Definition approvalJSON_fields : list (string * dec (bool * option string)) :=
  [("required", field fst (λ x p, (x, p.2)) dec_bool);
   ("confidence", field snd (λ x p, (p.1, x)) (dec_ptr "" dec_float))].

Definition addApprovalCapability (raw : string) (caps : gset string) : gset string :=
  let '(approval, ok) := unmarshal (dec_struct approvalJSON_fields) raw (false, None) in
  if bool_decide (raw = "") || negb ok then caps
  else if approval.1 || bool_decide (is_Some approval.2) then addCapability "human.approval" caps
  else caps.

(** [[]map[string]json.RawMessage]. *)
Abbreviation rawmaps := (list (option (gmap string string))) (only parsing).
Definition dec_rawmaps : dec rawmaps := dec_list None (dec_map "" dec_raw).

(** The [steps] of a definition; [None] when it does not decode. *)
Definition definition_steps (definition : string) : option rawmaps :=
  let '(steps, ok) := unmarshal (dec_struct [("steps", dec_rawmaps)]) definition [] in
  if ok then Some steps else None.

(** The [graph.nodes] of a definition. *)
Definition definition_nodes (definition : string) : option rawmaps :=
  let '(nodes, ok) := unmarshal (dec_struct [("graph", dec_struct [("nodes", dec_rawmaps)])])
                        definition [] in
  if ok then Some nodes else None.

Definition node_capabilities (node : option (gmap string string)) (caps : gset string) : gset string :=
  let kind := normalize_word (unmarshal_string (raw_index node "kind")).1 in
  if bool_decide (kind = "tool") then
    let '(toolName, ok) := unmarshal_string (raw_index node "tool_name") in
    if ok then addCapability (normalizeToolCapability toolName) caps else caps
  else if bool_decide (kind = "memory_recall") then addCapability "memory.read" caps
  else if bool_decide (kind = "memory_store") then addCapability "memory.write" caps
  else if bool_decide (kind = "human_approval") then addCapability "human.approval" caps
  else if bool_decide (kind = "robotics") then
    addApprovalCapability (raw_index node "approval") (addCapability "robotics.execute" caps)
  else if bool_decide (kind = "behavior_tree") then addCapability "behavior_tree.execute" caps
  else if bool_decide (kind = "reason") then
    addApprovalCapability (raw_index node "approval")
      (addMemoryCapabilities (raw_index node "memory") caps)
  else caps.

Definition step_capabilities (with_memory : bool) (step : option (gmap string string))
    (caps : gset string) : gset string :=
  addApprovalCapability (raw_index step "approval")
    (if with_memory then addMemoryCapabilities (raw_index step "memory") caps else caps).

Definition fold_caps {A} (f : A → gset string → gset string) (l : option (list A))
    (caps : gset string) : gset string :=
  foldl (λ c x, f x c) caps (default [] l).

Definition derived_capability_set (definition : string) : gset string :=
  match unmarshal_rawmap definition with
  | None => ∅
  | Some object =>
    let taskType := (unmarshal_string (raw_index object "type")).1 in
    if bool_decide (taskType = "single_inference") then
      addApprovalCapability (raw_index object "approval")
        (addMemoryCapabilities (raw_index object "memory") ∅)
    else if bool_decide (taskType = "agent_workflow") then
      fold_caps (step_capabilities true) (definition_steps definition) ∅
    else if bool_decide (taskType = "robotics_workflow") then
      fold_caps (step_capabilities false) (definition_steps definition)
        (addCapability "robotics.execute" ∅)
    else if bool_decide (taskType = "behavior_tree") then addCapability "behavior_tree.execute" ∅
    else if bool_decide (taskType = "execution_graph") then
      fold_caps node_capabilities (definition_nodes definition) ∅
    else ∅
  end.

Definition deriveRequiredCapabilitiesFromTaskDefinition (definition : string) : list string :=
  sort_strings (elements (derived_capability_set definition)).

(** ** The capability policy

    A policy is the decoded JSON object ([map[string]any]); [policy_get] is
    Go's index expression on it. *)

Definition policy_get (policy : option jv) (key : string) : option jv := any_get policy key.

Definition policy_strings (raw : option jv) : list string :=
  match raw with
  | Some (JArr items) =>
    omap (λ n : jnode, match n.2 with JStr text => Some (normalize_word text) | _ => None end) items
  | Some (JStr s) => normalize_word <$> Split s ","
  | _ => []
  end.

Definition stringListFromPolicy (policy : option jv) (keys : list string) : list string :=
  concat ((λ key, policy_strings (policy_get policy key)) <$> keys).

Fixpoint boolPolicy (policy : option jv) (keys : list string) : bool :=
  match keys with
  | [] => false
  | key :: keys =>
    match as_bool (policy_get policy key) with
    | Some value => value
    | None => boolPolicy policy keys
    end
  end.

Definition pattern_matches (capability pattern : string) : bool :=
  if bool_decide (pattern = "") then false
  else if bool_decide (pattern = capability) || bool_decide (pattern = "*") then true
  else HasSuffix pattern ".*" && HasPrefix capability (TrimSuffix pattern "*").

Definition capabilityMatchesAny (capability : string) (patterns : list string) : bool :=
  existsb (pattern_matches capability) patterns.

Definition denied_patterns (policy : option jv) : list string :=
  stringListFromPolicy policy ["denied_capabilities"; "deny"; "deny_capabilities"].
Definition allowed_patterns (policy : option jv) : list string :=
  stringListFromPolicy policy ["allowed_capabilities"; "allow"; "allow_capabilities"].

(** [capability == name || strings.HasPrefix(capability, name+".")]. *)
Definition capability_under (capability name : string) : bool :=
  bool_decide (capability = name) || HasPrefix capability (name +:+ ".").

Definition capabilityPermittedByPolicy (capability : string) (policy : option jv) : bool * string :=
  if capabilityMatchesAny capability (denied_patterns policy)
  then (false, "capability explicitly denied")
  else if capabilityMatchesAny capability (allowed_patterns policy)
  then (true, "capability explicitly allowed")
  else if capability_under capability "network.http"
  then (boolPolicy policy ["allow_http"], "capability mapped to allow_http")
  else if capability_under capability "network.api"
  then (boolPolicy policy ["allow_external_api"], "capability mapped to allow_external_api")
  else if capability_under capability "filesystem.write"
  then (boolPolicy policy ["allow_fs_write"; "allow_filesystem_write"],
        "capability mapped to filesystem write policy")
  else if capability_under capability "filesystem.read"
  then (boolPolicy policy ["allow_filesystem"; "allow_fs_read"],
        "capability mapped to filesystem read policy")
  else if capability_under capability "tools.shell"
  then (boolPolicy policy ["allow_shell"], "capability mapped to allow_shell")
  else (false, "capability is not allow-listed").

Definition capabilityDecisions (required : list string) (policyVersion : string) (permit : bool)
    (reason : string) : list CapabilityDecision :=
  (λ c, mkCapabilityDecision c permit reason policyVersion) <$> required.

Definition decideCapability (policy : option jv) (policyVersion capability : string)
    : CapabilityDecision :=
  let '(permit, reason) := capabilityPermittedByPolicy capability policy in
  mkCapabilityDecision capability permit reason policyVersion.

Section Policy.
Context `{Ext}.

Fixpoint first_version (policy : option jv) (keys : list string) : option string :=
  match keys with
  | [] => None
  | key :: keys =>
    match as_string (policy_get policy key) with
    | Some value => if nonempty (TrimSpace value) then Some (TrimSpace value) else first_version policy keys
    | None => first_version policy keys
    end
  end.

Definition policyVersionFromCapabilityPolicy (raw : string) (policy : option jv) : string :=
  match first_version policy ["policy_version"; "version"; "policy_hash"] with
  | Some v => v
  | None => "capabilities-policy:" +:+ hex_encode (take_str 8 (sha256 raw))
  end.

(** [lookup] is the outcome of the policy query; [None] stands for a nil [db]. *)
Definition evaluateTaskCapabilityPolicy (lookup : option (res string)) (required : list string)
    : capabilityPolicyEvaluation :=
  let missing := "capabilities-policy.missing" in
  let deny reason :=
    mkCapabilityEvaluation (capabilityDecisions required missing false reason) missing false reason in
  if bool_decide (required = [])
  then mkCapabilityEvaluation [] missing true "no capabilities requested"
  else match lookup with
  | None => deny "default deny: no active capability policy"
  | Some (Err _) => deny "default deny: capability policy lookup failed"
  | Some (Ok raw) =>
    match unmarshal_object raw with
    | None => deny "default deny: capability policy is invalid"
    | Some policy =>
      let policyVersion := policyVersionFromCapabilityPolicy raw policy in
      let decisions := decideCapability policy policyVersion <$> required in
      let allPermit := forallb cd_Permit decisions in
      mkCapabilityEvaluation decisions policyVersion allPermit
        (if allPermit then "capability policy permitted"
         else "capability policy denied one or more required capabilities")
    end
  end.

(** ** Signing *)

Definition PrivateKeySize : nat := 64.

Definition loadOvertureSigningKey : option string :=
  let hexKey := TrimSpace (EnvOrLegacy "OVERTURE_SIGNING_KEY" "IGRIS_OVERTURE_SIGNING_KEY") in
  if bool_decide (hexKey = "") then None
  else match hex_decode hexKey with
  | Some decoded => if bool_decide (slen decoded = PrivateKeySize) then Some decoded else None
  | None => None
  end.

(** [json.Marshal] of a [map[string]any] given by its members. *)
Definition any_map_text (members : list (string * string)) : string :=
  map_text (list_to_map members).

Definition canonicalAgentIdentity (identity : AgentIdentity) : list (string * string) :=
  [("acting_on_behalf_of", str_text (ActingOnBehalfOf identity));
   ("agent_id", str_text (AgentID identity));
   ("delegation_chain", string_list_text (DelegationChain identity));
   ("principal_id", str_text (PrincipalID identity));
   ("submitted_by", str_text (SubmittedBy identity))].

Definition canonicalCapabilityDecision (d : CapabilityDecision) : list (string * string) :=
  [("capability", str_text (cd_Capability d)); ("permit", bool_text (cd_Permit d));
   ("policy_version", str_text (cd_PolicyVersion d)); ("reason", str_text (cd_Reason d))].

Definition canonicalCapabilityDecisions (decisions : list CapabilityDecision) : string :=
  arr_text ((λ d, any_map_text (canonicalCapabilityDecision d)) <$> decisions).

Definition canonicalCredentialReference (ref : CredentialReference) : list (string * string) :=
  [("capability", str_text (ref_Capability ref));
   ("expires_at_unix_ms", num_text (ref_ExpiresAtUnixMs ref));
   ("reference_id", str_text (ref_ReferenceID ref)); ("revocable", bool_text (ref_Revocable ref));
   ("scope", str_text (ref_Scope ref)); ("task_id", str_text (ref_TaskID ref));
   ("tenant_id", str_text (ref_TenantID ref)); ("tool", str_text (ref_Tool ref))].

Definition canonicalCredentialReferences (refs : list CredentialReference) : string :=
  arr_text ((λ r, any_map_text (canonicalCredentialReference r)) <$> refs).

Definition canonicalTaskPermissionEnvelope (envelope : TaskPermissionEnvelope) : list (string * string) :=
  [("agent_identity", any_map_text (canonicalAgentIdentity (pe_AgentIdentity envelope)));
   ("credential_refs", canonicalCredentialReferences (pe_CredentialRefs envelope));
   ("decisions", canonicalCapabilityDecisions (pe_Decisions envelope));
   ("envelope_id", str_text (pe_EnvelopeID envelope));
   ("expires_at_unix_ms", num_text (pe_ExpiresAtUnixMs envelope));
   ("issued_at_unix_ms", num_text (pe_IssuedAtUnixMs envelope));
   ("required_capabilities", string_list_text (pe_RequiredCapabilities envelope));
   ("schema_version", str_text (pe_SchemaVersion envelope));
   ("task_id", str_text (pe_TaskID envelope)); ("tenant_id", str_text (pe_TenantID envelope))]
  ++ opt_member "runtime_id" (str_text <$> pe_RuntimeID envelope)
  ++ opt_member "signer_key_version" (str_text <$> pe_SignerKeyVersion envelope).

Definition envelope_digest (envelope : TaskPermissionEnvelope) : string :=
  sha256 (any_map_text (canonicalTaskPermissionEnvelope envelope)).

Definition signTaskPermissionEnvelope (envelope : TaskPermissionEnvelope) (signingKey : string) : string :=
  b64_encode (ed25519_Sign signingKey (envelope_digest envelope)).

(** ** Envelopes *)

Definition UnixMilli (t : time) : Z := t / Millisecond.

(** [fresh] is the stream of UUIDs [uuid.NewString] draws. *)
Fixpoint credential_refs_from (fresh : nat → uuid) (now : time) (tenantID : string) (taskID : uuid)
    (i : nat) (requests : list CredentialRequest) (defaultExpiresAt : Z) : list CredentialReference :=
  match requests with
  | [] => []
  | req :: requests =>
    let expiresAt :=
      if 0 <? cr_ExpiresInSeconds req
      then UnixMilli (now + wrap_int64 (cr_ExpiresInSeconds req * Second))
      else defaultExpiresAt in
    mkCredentialReference ("credref-" +:+ uuid_String (fresh i)) tenantID (uuid_String taskID)
      (cr_Tool req) (cr_Capability req) (cr_Scope req) expiresAt true
    :: credential_refs_from fresh now tenantID taskID (S i) requests defaultExpiresAt
  end.

Definition buildCredentialReferences (fresh : nat → uuid) (now : time) (task : TaskRecord)
    (requests : list CredentialRequest) (defaultExpiresAt : Z) : list CredentialReference :=
  credential_refs_from fresh now (t_TenantID task) (t_TaskID task) 0 requests defaultExpiresAt.

Definition envelope_ttl_ms : Z := 5 * Minute / Millisecond.

Definition capability_denied (why : string) : goerror := Wrapf "" ErrTaskCapabilityDenied (": " +:+ why).

(** [fresh 0] becomes the envelope's id, the rest go to the credential
    references. *)
Definition buildTaskPermissionEnvelope (lookup : option (res string)) (now : time)
    (fresh : nat → uuid) (task : TaskRecord) (governance : taskGovernance)
    : res (option TaskPermissionEnvelope) :=
  if bool_decide (g_RequiredCapabilities governance = []) then Ok None
  else match loadOvertureSigningKey with
  | None => Err (capability_denied "missing Overture signing key")
  | Some signingKey =>
    let evaluation := evaluateTaskCapabilityPolicy lookup (g_RequiredCapabilities governance) in
    if negb (ce_Permit evaluation) then Err (capability_denied (ce_Reason evaluation))
    else
      let issued := UnixMilli now in
      let expiresAt := issued + envelope_ttl_ms in
      let keyVersion := TrimSpace (EnvOrLegacy "OVERTURE_OVERTURE_SIGNING_KEY_VERSION"
                                     "IGRIS_OVERTURE_SIGNING_KEY_VERSION") in
      let unsigned := mkPermissionEnvelope "task_permission_envelope.v1" (uuid_String (fresh 0%nat))
        (t_TenantID task) (uuid_String (t_TaskID task)) (t_RuntimeID task)
        (g_AgentIdentity governance) (g_RequiredCapabilities governance) (ce_Decisions evaluation)
        (buildCredentialReferences (λ i, fresh (S i)) now task (g_CredentialRequests governance) expiresAt)
        issued expiresAt (if bool_decide (keyVersion = "") then None else Some keyVersion) "" in
      Ok (Some (mkPermissionEnvelope (pe_SchemaVersion unsigned) (pe_EnvelopeID unsigned)
        (pe_TenantID unsigned) (pe_TaskID unsigned) (pe_RuntimeID unsigned)
        (pe_AgentIdentity unsigned) (pe_RequiredCapabilities unsigned) (pe_Decisions unsigned)
        (pe_CredentialRefs unsigned) (pe_IssuedAtUnixMs unsigned) (pe_ExpiresAtUnixMs unsigned)
        (pe_SignerKeyVersion unsigned) (signTaskPermissionEnvelope unsigned signingKey)))
  end.

Definition taskGovernanceForRecord (task : TaskRecord) : taskGovernance :=
  let governance := mkGovernance (t_AgentIdentity task)
    (normalizeCapabilityList (t_RequiredCapabilities task))
    (normalizeCredentialRequests (t_CredentialRequests task)) in
  let governance :=
    if governance_blank governance
    then extractTaskGovernanceFromDefinition (t_TaskDefinition task) else governance in
  let required :=
    if bool_decide (g_RequiredCapabilities governance = []) &&
       bool_decide (is_Some loadOvertureSigningKey)
    then deriveRequiredCapabilitiesFromTaskDefinition (t_TaskDefinition task)
    else g_RequiredCapabilities governance in
  mkGovernance
    (g_AgentIdentity (normalizeTaskGovernance (t_TenantID task) (Some (g_AgentIdentity governance))
                        required (g_CredentialRequests governance)))
    required (g_CredentialRequests governance).
End Policy.

(** ** Properties of the normal form *)

Lemma elem_of_dedup_from seen l x : x ∈ dedup_from seen l ↔ x ∈ l ∧ x ≠ "" ∧ x ∉ seen.
Proof.
  revert seen. induction l as [|y l IH]; intros seen; cbn [dedup_from]; [set_solver|].
  case_bool_decide as He; cbn [orb].
  { rewrite IH, elem_of_cons. naive_solver. }
  case_bool_decide as Hs; rewrite ?elem_of_cons, IH; [naive_solver|].
  rewrite not_elem_of_union, not_elem_of_singleton.
  destruct (decide (x = y)) as [->|]; naive_solver.
Qed.

Lemma NoDup_dedup_from seen l : NoDup (dedup_from seen l).
Proof.
  revert seen. induction l as [|y l IH]; intros seen; cbn [dedup_from]; [constructor|].
  case_match; [done|]. constructor; [|done]. rewrite elem_of_dedup_from. set_solver.
Qed.

Lemma sort_strings_perm l : sort_strings l ≡ₚ l.
Proof. apply merge_sort_Permutation. Qed.

Lemma sort_strings_sorted l : StronglySorted String.le (sort_strings l).
Proof. apply (StronglySorted_merge_sort _). Qed.

(** [sort.Strings] depends only on the multiset of its argument. *)
Lemma sort_strings_unique l k : l ≡ₚ k → sort_strings l = sort_strings k.
Proof.
  intros Hp. apply (StronglySorted_unique String.le); try apply sort_strings_sorted.
  by rewrite !sort_strings_perm.
Qed.

Lemma elem_of_normalizeCapabilityList values c :
  c ∈ normalizeCapabilityList values ↔ c ≠ "" ∧ ∃ v, v ∈ values ∧ c = normalize_word v.
Proof.
  unfold normalizeCapabilityList. rewrite sort_strings_perm, elem_of_dedup_from, list_elem_of_fmap.
  set_solver.
Qed.

Lemma NoDup_normalizeCapabilityList values : NoDup (normalizeCapabilityList values).
Proof. unfold normalizeCapabilityList. rewrite sort_strings_perm. apply NoDup_dedup_from. Qed.

(** The required capabilities of a task have a canonical form: the
    normalised list is sorted, has no duplicates and no empty name, contains
    exactly the trimmed lower-case names that were given, and is the same list
    for every two submissions that name the same capabilities, in whatever
    order, case and multiplicity. *)
Theorem capability_list_canonical values values' :
  StronglySorted String.le (normalizeCapabilityList values) ∧
  NoDup (normalizeCapabilityList values) ∧
  (∀ c, c ∈ normalizeCapabilityList values ↔ c ≠ "" ∧ ∃ v, v ∈ values ∧ c = normalize_word v) ∧
  ((∀ c, c ≠ "" → c ∈ normalize_word <$> values ↔ c ∈ normalize_word <$> values') →
   normalizeCapabilityList values = normalizeCapabilityList values').
Proof.
  split_and!.
  - apply sort_strings_sorted.
  - apply NoDup_normalizeCapabilityList.
  - intros c. apply elem_of_normalizeCapabilityList.
  - intros Heq. apply (StronglySorted_unique String.le); try apply sort_strings_sorted.
    apply NoDup_Permutation; try apply NoDup_normalizeCapabilityList.
    intros c. rewrite !elem_of_normalizeCapabilityList.
    setoid_rewrite list_elem_of_fmap in Heq. naive_solver.
Qed.

Section PolicyTheorems.
Context `{Ext}.

(** The families are disjoint, so their order does not matter. *)
Lemma family_disjoint c n m :
  capability_under c n = true → capability_under c m = true →
  HasPrefix (n +:+ ".") (m +:+ ".") = false → HasPrefix (m +:+ ".") (n +:+ ".") = false → n = m.
Proof.
  assert (∀ n, capability_under c n = true → HasPrefix (c +:+ ".") (n +:+ ".") = true) as Hu.
  { intros q Hq. apply HasPrefix_spec. unfold capability_under in Hq.
    apply orb_true_iff in Hq as [->%bool_decide_eq_true|[t ->]%HasPrefix_spec].
    - exists "". by rewrite str_app_nil_r.
    - exists (t +:+ "."). by rewrite !str_app_assoc. }
  intros Hn Hm H1 H2. destruct (HasPrefix_linear _ _ _ (Hu _ Hn) (Hu _ Hm)); congruence.
Qed.

(** A capability cannot be in two families. *)
Ltac family_clash :=
  match goal with
  | H1 : capability_under ?c ?n = true, H2 : capability_under ?c ?m = true |- _ =>
    assert_fails (unify n m);
    discriminate (family_disjoint c n m H1 H2 eq_refl eq_refl)
  end.

Lemma permitted_cases c policy :
  (capabilityPermittedByPolicy c policy).1 = true ↔
  capabilityMatchesAny c (denied_patterns policy) = false ∧
  (capabilityMatchesAny c (allowed_patterns policy) = true ∨
   capability_under c "network.http" = true ∧ boolPolicy policy ["allow_http"] = true ∨
   capability_under c "network.api" = true ∧ boolPolicy policy ["allow_external_api"] = true ∨
   capability_under c "filesystem.write" = true ∧
     boolPolicy policy ["allow_fs_write"; "allow_filesystem_write"] = true ∨
   capability_under c "filesystem.read" = true ∧
     boolPolicy policy ["allow_filesystem"; "allow_fs_read"] = true ∨
   capability_under c "tools.shell" = true ∧ boolPolicy policy ["allow_shell"] = true).
Proof.
  unfold capabilityPermittedByPolicy.
  destruct (capabilityMatchesAny c (denied_patterns policy)); [cbn; intuition congruence|].
  destruct (capabilityMatchesAny c (allowed_patterns policy)); [cbn; intuition congruence|].
  destruct (capability_under c "network.http") eqn:H1;
    destruct (capability_under c "network.api") eqn:H2;
    destruct (capability_under c "filesystem.write") eqn:H3;
    destruct (capability_under c "filesystem.read") eqn:H4;
    destruct (capability_under c "tools.shell") eqn:H5;
    try family_clash; cbn [fst]; intuition congruence.
Qed.

Lemma decideCapability_permit policy v c :
  cd_Permit (decideCapability policy v c) = (capabilityPermittedByPolicy c policy).1.
Proof. unfold decideCapability. by destruct (capabilityPermittedByPolicy c policy). Qed.
Lemma decideCapability_capability policy v c : cd_Capability (decideCapability policy v c) = c.
Proof. unfold decideCapability. by destruct (capabilityPermittedByPolicy c policy). Qed.

(** The policy's verdict, for a policy that was found and decoded. *)
Lemma evaluate_decided raw policy required :
  required ≠ [] → unmarshal_object raw = Some policy →
  let e := evaluateTaskCapabilityPolicy (Some (Ok raw)) required in
  ce_Permit e = forallb (λ c, (capabilityPermittedByPolicy c policy).1) required ∧
  cd_Capability <$> ce_Decisions e = required ∧
  Forall (λ d, cd_Permit d = (capabilityPermittedByPolicy (cd_Capability d) policy).1) (ce_Decisions e).
Proof.
  intros Hne Hpol. unfold evaluateTaskCapabilityPolicy.
  rewrite bool_decide_false by done. rewrite Hpol. cbn [ce_Permit ce_Decisions].
  generalize (policyVersionFromCapabilityPolicy raw policy). intros v. clear. split_and!.
  - induction required as [|c l IH]; [done|]. cbn [forallb fmap list_fmap].
    by rewrite IH, decideCapability_permit.
  - rewrite <-list_fmap_compose. rewrite <-(list_fmap_id required) at 2.
    apply list_fmap_ext. intros i c _. apply decideCapability_capability.
  - apply Forall_fmap, Forall_forall. intros c _. cbn.
    by rewrite decideCapability_permit, decideCapability_capability.
Qed.

(** The capability policy denies by default and deny wins.  A non-empty
    request is permitted only when a policy was found, it is a JSON object or
    null, no required capability matches a denied pattern, and each one is
    allowed by a pattern or by the flag of its family; a missing database, a
    failed lookup and an undecodable policy permit nothing.  Whatever the
    outcome, there is one decision per required capability, in order. *)
Theorem capability_policy_default_deny lookup required :
  required ≠ [] →
  let e := evaluateTaskCapabilityPolicy lookup required in
  cd_Capability <$> ce_Decisions e = required ∧
  (ce_Permit e = true ↔
   ∃ raw policy, lookup = Some (Ok raw) ∧ unmarshal_object raw = Some policy ∧
     ∀ c, c ∈ required →
       capabilityMatchesAny c (denied_patterns policy) = false ∧
       (capabilityMatchesAny c (allowed_patterns policy) = true ∨
        capability_under c "network.http" = true ∧ boolPolicy policy ["allow_http"] = true ∨
        capability_under c "network.api" = true ∧ boolPolicy policy ["allow_external_api"] = true ∨
        capability_under c "filesystem.write" = true ∧
          boolPolicy policy ["allow_fs_write"; "allow_filesystem_write"] = true ∨
        capability_under c "filesystem.read" = true ∧
          boolPolicy policy ["allow_filesystem"; "allow_fs_read"] = true ∨
        capability_under c "tools.shell" = true ∧ boolPolicy policy ["allow_shell"] = true)).
Proof.
  intros Hne e.
  assert (∀ v p r, cd_Capability <$> capabilityDecisions required v p r = required) as Hcd.
  { intros v p r. unfold capabilityDecisions. rewrite <-list_fmap_compose. apply list_fmap_id. }
  destruct lookup as [[raw|err]|] eqn:Hl.
  2,3: unfold e, evaluateTaskCapabilityPolicy; rewrite bool_decide_false by done; cbn;
       split; [apply Hcd|]; split; [done|]; intros (? & ? & ? & _); done.
  destruct (unmarshal_object raw) as [policy|] eqn:Hp.
  2:{ unfold e, evaluateTaskCapabilityPolicy. rewrite bool_decide_false by done. rewrite Hp. cbn.
      split; [apply Hcd|]. split; [done|]. intros (? & ? & [= <-] & ? & _). congruence. }
  destruct (evaluate_decided raw policy required Hne Hp) as (Hpermit & Hcaps & _).
  split; [exact Hcaps|]. unfold e. rewrite Hpermit, forallb_forall. split.
  - intros Hall. exists raw, policy. split_and!; [done..|]. intros c Hc.
    apply list_elem_of_In, Hall in Hc. by apply permitted_cases.
  - intros (? & ? & [= <-] & Hp' & Hall) c Hc. rewrite Hp in Hp'. injection Hp' as <-.
    apply permitted_cases. by apply Hall, list_elem_of_In.
Qed.

(** What the issued envelope is signed over: everything but the signature. *)
Lemma envelope_digest_signature e sig :
  envelope_digest (mkPermissionEnvelope (pe_SchemaVersion e) (pe_EnvelopeID e) (pe_TenantID e)
    (pe_TaskID e) (pe_RuntimeID e) (pe_AgentIdentity e) (pe_RequiredCapabilities e) (pe_Decisions e)
    (pe_CredentialRefs e) (pe_IssuedAtUnixMs e) (pe_ExpiresAtUnixMs e) (pe_SignerKeyVersion e) sig)
  = envelope_digest e.
Proof. reflexivity. Qed.

Lemma credential_refs_bound fresh now tenantID taskID i requests exp :
  Forall (λ r, ref_TenantID r = tenantID ∧ ref_TaskID r = uuid_String taskID ∧ ref_Revocable r = true)
    (credential_refs_from fresh now tenantID taskID i requests exp).
Proof. revert i. induction requests; intros i; cbn [credential_refs_from]; by constructor. Qed.

End PolicyTheorems.

(** ** A tenant that allows its HTTP capabilities and denies one of them *)
Module CapabilityExample.
Definition env (k : string) : string :=
  if bool_decide (k = "OVERTURE_SIGNING_KEY")
  then concat_strings (replicate 64 "ab") else "".
#[local] Instance ext : Ext := demo_ext_env env.
#[local] Instance ext_laws : ExtLaws := demo_ext_laws env.

(** The text of [{"allow_http":true,"deny":["network.http.admin"]}]. *)
Definition policy_raw : string :=
  obj_text [("allow_http", "true"); ("deny", arr_text [str_text "network.http.admin"])].

Definition governance : taskGovernance :=
  normalizeTaskGovernance "acme" None [" Network.HTTP.get"; "network.http"] [].

Definition task : TaskRecord := TaskRecord_zero {{ t_RuntimeID := Some "rt-1" }}.

Lemma capability_policy_default_deny_witness :
  ["network.http"] ≠ [] ∧
  ce_Permit (evaluateTaskCapabilityPolicy (Some (Ok policy_raw)) ["network.http"]) = true ∧
  cd_Capability <$> ce_Decisions (evaluateTaskCapabilityPolicy None ["network.http"]) = ["network.http"].
Proof.
  split; [discriminate|].
  split; [vm_compute; reflexivity|].
  exact (proj1 (capability_policy_default_deny None ["network.http"] ltac:(discriminate))).
Defined.

End CapabilityExample.
