(* ===== verification/Governance.v ===== *)
(** * Execution governance: action policy and recovery safety

    coordinator/execution_governance.go: how a task definition is classified,
    which of its graph nodes are irreversible, whether a recovery may resume
    forward from a checkpoint, the built-in action policy, and the last check
    before a recovered task is handed to another runtime.

    The definition is the JSON text itself, since part of the code searches it
    for tokens.  [evaluateActionPolicy] draws a random decision id and reads the
    clock; both are arguments. *)

From S2P Require Import Prelude GoStrings Json Ext WalCodec Checkpoint Types Capability.
Open Scope Z_scope.

Definition ActionDecisionAllowed : string := "allowed".
Definition ActionDecisionDenied : string := "denied".
Definition ActionDecisionApprovalRequired : string := "approval_required".
Definition ReplayClassRetryable : string := "retryable".
Definition ReplayClassNonRetryable : string := "non_retryable".
Definition CheckpointPortabilitySameRuntime : string := "same_runtime_only".
Definition CheckpointPortabilityCompatibleRuntime : string := "compatible_runtime".
Definition CheckpointPortabilityAnyRuntime : string := "any_runtime".

Record ActionPolicyDecision := mkDecision {
  d_DecisionID : uuid;
  d_TenantID : string;
  d_TaskID : uuid;
  d_AgentID : string;
  d_RuntimeID : string;
  d_TaskType : string;
  d_ActionName : string;
  d_EnvironmentLabel : string;
  d_ResourceScope : string;
  d_RiskLevel : string;
  d_Decision : string;
  d_ReplayClass : string;
  d_Irreversible : bool;
  d_HumanGated : bool;
  d_PolicyVersion : string;
  d_PolicyReason : string;
  d_ActionDigest : string;
  d_BoundaryDigest : string;
  d_CheckpointPortability : string;
  d_CreatedAt : time;
}.

Record RecoveryEvent := mkRecoveryEvent {
  re_EventID : uuid;
  re_TenantID : string;
  re_TaskID : uuid;
  re_EventType : string;
  re_SourceRuntimeID : string;
  re_TargetRuntimeID : string;
  re_CheckpointDigest : string;
  re_LastCommittedStep : option Z;
  re_ReplayAllowed : option bool;
  re_Reason : string;
}.

Record RuntimeHandoffEvent := mkHandoffEvent {
  he_EventID : uuid;
  he_TenantID : string;
  he_TaskID : uuid;
  he_SourceRuntimeID : string;
  he_TargetRuntimeID : string;
  he_CheckpointDigest : string;
  he_CheckpointPortability : string;
  he_Decision : string;
  he_Reason : string;
}.

Record actionPolicyInput := mkPolicyInput {
  in_TenantID : string;
  in_TaskID : uuid;
  in_RuntimeID : string;
  in_TaskDefinition : string;
  in_AgentIdentity : AgentIdentity;
  in_RequiredCaps : list string;
  in_Checkpoint : option CheckpointPayload;
  in_RecoveryAttempt : bool;
}.

Record boundActionPolicy := mkBoundPolicy {
  bp_Present : bool;
  bp_Risk : string;
  bp_ReplayClass : string;
  bp_ApprovalRequired : bool;
}.
Definition boundActionPolicy_zero : boundActionPolicy := mkBoundPolicy false "" "" false.

(** ** Reading the execution graph *)

(** [{"graph":{"nodes":[...]}}] with the nodes decoded by [d]: the nodes and
    whether the whole definition decoded. *)
Definition graph_nodes {A} (zero : A) (d : dec A) (definition : string) : list A * bool :=
  unmarshal (dec_struct [("graph", dec_struct [("nodes", dec_list zero d)])]) definition [].

(** The nodes as raw text. *)
Definition raw_nodes (definition : string) : list string * bool := graph_nodes "" dec_raw definition.

(** Only the [metadata] of each node. *)
Definition metadata_any_nodes (definition : string)
    : list (option (gmap string (option jv))) * bool :=
  graph_nodes None (dec_struct [("metadata", dec_map None dec_any)]) definition.
Definition metadata_raw_nodes (definition : string) : list (option (gmap string string)) * bool :=
  graph_nodes None (dec_struct [("metadata", dec_map "" dec_raw)]) definition.

Record actionNode := mkActionNode { an_Kind : string; an_ToolName : string; an_Action : string }.
Definition actionNode_fields : list (string * dec actionNode) :=
  [("kind", field an_Kind (λ x '(mkActionNode _ b c), mkActionNode x b c) dec_string);
   ("tool_name", field an_ToolName (λ x '(mkActionNode a _ c), mkActionNode a x c) dec_string);
   ("action", field an_Action (λ x '(mkActionNode a b _), mkActionNode a b x) dec_string)].

Definition node_action (n : actionNode) : option string :=
  if nonempty (an_ToolName n) then Some ("tool:" +:+ an_ToolName n)
  else if nonempty (an_Action n) then Some (an_Kind n +:+ ":" +:+ an_Action n)
  else None.

Definition classify_fields : list (string * dec (string * list actionNode)) :=
  [("type", field fst (λ x p, (x, p.2)) dec_string);
   ("graph", field snd (λ x p, (p.1, x))
      (dec_struct [("nodes", dec_list (mkActionNode "" "" "") (dec_struct actionNode_fields))]))].

Definition classifyTaskAction (definition : string) : string * string :=
  let '(type, nodes) := (unmarshal (dec_struct classify_fields) definition ("", [])).1 in
  let taskType := if nonempty (TrimSpace type) then TrimSpace type else "unknown" in
  let actions := omap node_action nodes in
  if bool_decide (actions = []) then (taskType, taskType) else (taskType, Join actions ",").

Definition riskLevelRank (risk : string) : Z :=
  let r := ToLower (TrimSpace risk) in
  if bool_decide (r = "low") then 1
  else if bool_decide (r = "medium") then 2
  else if bool_decide (r = "high") then 3
  else if bool_decide (r = "critical") then 4
  else 0.

(** [metadata[key].(string)] and [.(bool)], the zero value otherwise. *)
Definition meta_string (m : option (gmap string (option jv))) (key : string) : string :=
  default "" (as_string (mjoin (m ≫= λ m, m !! key))).
Definition meta_bool (m : option (gmap string (option jv))) (key : string) : bool :=
  default false (as_bool (mjoin (m ≫= λ m, m !! key))).

Definition node_bound (m : option (gmap string (option jv))) : bool :=
  nonempty (TrimSpace (meta_string m "contract_hash")) &&
  nonempty (TrimSpace (meta_string m "contract_binding_id")).

Definition extractBoundActionPolicy (definition : string) : boundActionPolicy :=
  let '(nodes, ok) := metadata_any_nodes definition in
  if negb ok then boundActionPolicy_zero
  else match head (filter (λ m, node_bound m = true) nodes) with
  | None => boundActionPolicy_zero
  | Some m =>
    let risk := meta_string m "contract_risk" in
    let replayClass := meta_string m "replay_class" in
    mkBoundPolicy true
      (if riskLevelRank risk =? 0 then "low" else risk)
      (if bool_decide (replayClass = ReplayClassNonRetryable) then replayClass else ReplayClassRetryable)
      (meta_bool m "approval_required")
  end.

(** ** Irreversible actions *)

Definition nodeEffectClass (raw : string) : string :=
  match unmarshal_rawmap raw with
  | None => ""
  | Some node =>
    match raw_get node "effect_class" with
    | None => ""
    | Some ecRaw =>
      let '(ec, ok) := unmarshal_string ecRaw in
      if ok then ToLower (TrimSpace ec) else ""
    end
  end.

(** The text between double quotes. *)
Definition quoted (s : string) : string := String dq (s +:+ str1 dq).

Definition containsIrreversibleActionToken (lower : string) : bool :=
  Contains lower (quoted "irreversible" +:+ ":true") ||
  Contains lower (quoted "db_write") ||
  Contains lower (quoted "database_write") ||
  Contains lower (quoted "publish_velocity") ||
  Contains lower (quoted "navigate_to_pose").

Definition node_irreversible (node : string) : bool :=
  let ec := nodeEffectClass node in
  if bool_decide (ec = "irreversible") then true
  else bool_decide (ec = "") && containsIrreversibleActionToken (ToLower node).

Definition taskHasIrreversibleAction (definition : string) : bool :=
  let '(nodes, ok) := raw_nodes definition in
  if ok && negb (bool_decide (nodes = [])) then existsb node_irreversible nodes
  else containsIrreversibleActionToken (ToLower definition).

(** The indexes of the nodes, counted from [i], that are irreversible. *)
Fixpoint indexes_from (i : Z) (nodes : list string) : list Z :=
  match nodes with
  | [] => []
  | node :: nodes =>
    if node_irreversible node then i :: indexes_from (i + 1) nodes else indexes_from (i + 1) nodes
  end.

Definition irreversibleStepIndexes (definition : string) : list Z :=
  let '(nodes, ok) := raw_nodes definition in
  if ok then indexes_from 0 nodes else [].

Definition recoveryForwardResumeSafe (taskID : uuid) (definition : string)
    (cp : option CheckpointPayload) : bool :=
  if negb (taskHasIrreversibleAction definition) then true
  else match cp with
  | None => false
  | Some c =>
    if negb (TaskRecoveryCheckpointUsable taskID cp) then false
    else
      let indexes := irreversibleStepIndexes definition in
      if bool_decide (indexes = []) then false
      else forallb (λ idx, negb (idx <=? LastStep c)) indexes
  end.

(** ** Human approval *)

Definition approval_metadata (m : option (gmap string string)) : bool :=
  match raw_get m "approval_required" with
  | None => false
  | Some raw => let '(required, ok) := unmarshal dec_bool raw false in ok && required
  end.

Definition taskRequiresHumanApproval (definition : string) : bool :=
  let lower := ToLower definition in
  if Contains lower (quoted "approval") &&
     (Contains lower (quoted "required" +:+ ":true") || Contains lower (quoted "human_approval"))
  then true
  else
    let '(nodes, ok) := metadata_raw_nodes definition in
    if ok then existsb approval_metadata nodes else false.

(** ** Execution boundary *)

Record boundaryDefaults := mkBoundary {
  b_allowedTools : list string;
  b_deniedTools : list string;
  b_networkScope : string;
  b_fileScope : string;
  b_apiScope : string;
  b_resourceScope : string;
  b_digest : string;
}.

Section GovernancePolicy.
Context `{Ext}.

Definition digestRaw (raw : string) : string := sha256_hex raw.

Definition boundary_cap (b : boundaryDefaults) (cap : string) : boundaryDefaults :=
  let '(mkBoundary allowed denied net file api res dig) := b in
  if HasPrefix cap "tools." then mkBoundary (allowed ++ [TrimPrefix cap "tools."]) denied net file api res dig
  else if HasPrefix cap "network." then mkBoundary allowed denied "policy_scoped" file api res dig
  else if HasPrefix cap "filesystem." then mkBoundary allowed denied net "policy_scoped" api res dig
  else b.

(** A nil slice prints [null]. *)
Definition nil_slice_text (l : list string) : string :=
  if bool_decide (l = []) then "null" else string_list_text l.

Definition defaultExecutionBoundary (definition : string) (caps : list string) : boundaryDefaults :=
  let b := foldl boundary_cap (mkBoundary [] [] "none" "none" "none" "task" "") caps in
  let action := (classifyTaskAction definition).2 in
  let allowed :=
    if bool_decide (b_allowedTools b = []) && Contains action "tool:"
    then (λ part, TrimPrefix part "tool:") <$> Split action ","
    else b_allowedTools b in
  let raw := any_map_text
    [("allowed_tools", nil_slice_text allowed); ("denied_tools", nil_slice_text (b_deniedTools b));
     ("network", str_text (b_networkScope b)); ("filesystem", str_text (b_fileScope b));
     ("api", str_text (b_apiScope b))] in
  mkBoundary allowed (b_deniedTools b) (b_networkScope b) (b_fileScope b) (b_apiScope b)
    (b_resourceScope b) (digestRaw raw).

(** ** The action policy *)

Definition evaluateActionPolicy (decisionID : uuid) (now : time) (input : actionPolicyInput)
    : ActionPolicyDecision :=
  let definition := in_TaskDefinition input in
  let '(taskType, actionName) := classifyTaskAction definition in
  let irreversible := taskHasIrreversibleAction definition in
  let humanGated := taskRequiresHumanApproval definition in
  let boundPolicy := extractBoundActionPolicy definition in
  let recovery := in_RecoveryAttempt input in
  let forwardResumeSafe :=
    recovery && recoveryForwardResumeSafe (in_TaskID input) definition (in_Checkpoint input) in
  let replayClass := if irreversible then ReplayClassNonRetryable else ReplayClassRetryable in
  let risk := if irreversible then "high" else "low" in
  let portability :=
    if irreversible && negb forwardResumeSafe
    then CheckpointPortabilitySameRuntime else CheckpointPortabilityCompatibleRuntime in
  let present := bp_Present boundPolicy in
  let policyVersion :=
    if present then "execution-governance.contract-bound.v1" else "execution-governance.builtin.v1" in
  let risk :=
    if present && (riskLevelRank risk <? riskLevelRank (bp_Risk boundPolicy))
    then bp_Risk boundPolicy else risk in
  let replayClass :=
    if present && bool_decide (bp_ReplayClass boundPolicy = ReplayClassNonRetryable)
    then ReplayClassNonRetryable else replayClass in
  let humanGated := if present then humanGated || bp_ApprovalRequired boundPolicy else humanGated in
  let reason :=
    if present then "allowed by stricter bound-contract and execution governance policy"
    else "allowed by built-in execution governance" in
  let risk :=
    if humanGated && (riskLevelRank risk <? riskLevelRank "medium") then "medium" else risk in
  let '(decision, reason) :=
    if humanGated then (ActionDecisionApprovalRequired, "human approval required before execution")
    else (ActionDecisionAllowed, reason) in
  let '(decision, reason) :=
    if recovery && negb (TaskRecoveryCheckpointUsable (in_TaskID input) (in_Checkpoint input))
    then (ActionDecisionDenied, "recovery checkpoint is missing or invalid")
    else (decision, reason) in
  let '(decision, reason) :=
    if recovery && irreversible && negb forwardResumeSafe
    then (ActionDecisionDenied,
          "irreversible action already committed or checkpoint cannot prove safe forward-resume")
    else (decision, reason) in
  let boundary := defaultExecutionBoundary definition (in_RequiredCaps input) in
  mkDecision decisionID (in_TenantID input) (in_TaskID input) (AgentID (in_AgentIdentity input))
    (in_RuntimeID input) taskType actionName "tenant-runtime" (b_resourceScope boundary) risk
    decision replayClass irreversible humanGated policyVersion reason (digestRaw definition)
    (b_digest boundary) portability now.

(** ** The check at the hand-off *)

Definition RecoveryHandoffAllowed (task : option TaskRecord) (checkpoint : option CheckpointPayload)
    (targetRuntimeID : string) (decision : ActionPolicyDecision) : bool * string :=
  match task with
  | None => (false, "task missing")
  | Some task =>
    if negb (bool_decide (d_Decision decision = ActionDecisionAllowed))
    then (false, d_PolicyReason decision)
    else if d_Irreversible decision &&
            negb (recoveryForwardResumeSafe (t_TaskID task) (t_TaskDefinition task) checkpoint)
    then (false, "irreversible action already committed or checkpoint cannot prove safe forward-resume")
    else match checkpoint with
    | None => (true, "no checkpoint; first safe redispatch")
    | Some cp =>
      let portability := d_CheckpointPortability decision in
      if bool_decide (portability = CheckpointPortabilityAnyRuntime) ||
         bool_decide (portability = CheckpointPortabilityCompatibleRuntime)
      then (true, "checkpoint portability allows compatible runtime handoff")
      else if bool_decide (portability = CheckpointPortabilitySameRuntime) then
        let owner := rt_RuntimeID (cp_ResumeToken cp) in
        if bool_decide (owner = "") || bool_decide (owner = targetRuntimeID)
        then (true, "same runtime checkpoint")
        else (false, "checkpoint is same-runtime-only")
      else (false, "unknown checkpoint portability")
    end
  end.
End GovernancePolicy.

(** ** Which steps are irreversible *)

Lemma elem_of_indexes_from i nodes k :
  k ∈ indexes_from i nodes ↔
  ∃ j node, nodes !! j = Some node ∧ node_irreversible node = true ∧ k = i + Z.of_nat j.
Proof.
  revert i. induction nodes as [|n nodes IH]; intros i; cbn [indexes_from].
  - split; [set_solver|]. intros (j & node & Hj & _). by rewrite lookup_nil in Hj.
  - assert (k ∈ indexes_from (i + 1) nodes ↔
      ∃ j node, (n :: nodes) !! S j = Some node ∧ node_irreversible node = true ∧ k = i + Z.of_nat (S j)) as Hrec.
    { rewrite IH. split; intros (j & node & ? & ? & ?); exists j, node; cbn in *; split_and!; auto; lia. }
    destruct (node_irreversible n) eqn:Hn.
    + rewrite elem_of_cons, Hrec. split.
      * intros [->|(j & node & ? & ? & ?)]; [exists 0%nat, n|exists (S j), node]; split_and!; auto; lia.
      * intros ([|j] & node & Hj & ? & ?); [left; lia|right; eauto].
    + rewrite Hrec. split.
      * intros (j & node & ? & ? & ?). by exists (S j), node.
      * intros ([|j] & node & Hj & ? & ?); [cbn in Hj; congruence|eauto].
Qed.

(** The two readings of a definition agree: with a non-empty graph, it has an
    irreversible action iff some node index is irreversible. *)
Lemma irreversible_indexes_complete definition nodes :
  raw_nodes definition = (nodes, true) → nodes ≠ [] →
  taskHasIrreversibleAction definition = true ↔ irreversibleStepIndexes definition ≠ [].
Proof.
  intros Hn Hne. unfold taskHasIrreversibleAction, irreversibleStepIndexes. rewrite Hn.
  rewrite bool_decide_false by done. cbn [andb negb].
  rewrite existsb_exists. split.
  - intros (node & Hin%list_elem_of_In & Hirr). apply list_elem_of_lookup in Hin as [j Hj].
    assert (Z.of_nat j ∈ indexes_from 0 nodes) as Hin by (apply elem_of_indexes_from; eauto).
    intros Hnil. rewrite Hnil in Hin. set_solver.
  - intros Hidx. destruct (indexes_from 0 nodes) as [|k l] eqn:Hi; [done|].
    assert (k ∈ indexes_from 0 nodes) as Hk by (rewrite Hi; set_solver).
    apply elem_of_indexes_from in Hk as (j & node & Hj & Hirr & _).
    exists node. split; [|done]. apply list_elem_of_In. by apply list_elem_of_lookup_2 in Hj.
Qed.

Section RecoverySafety.
Context `{Ext}.

(** The equivalence the theorems below share. *)
Lemma forward_resume_iff taskID definition cp :
  recoveryForwardResumeSafe taskID definition cp = true ↔
  taskHasIrreversibleAction definition = false ∨
  ∃ c, cp = Some c ∧ TaskRecoveryCheckpointUsable taskID cp = true ∧
    irreversibleStepIndexes definition ≠ [] ∧
    ∀ idx, idx ∈ irreversibleStepIndexes definition → LastStep c < idx.
Proof.
  unfold recoveryForwardResumeSafe.
  destruct (taskHasIrreversibleAction definition) eqn:Hirr; cbn [negb]; [|tauto].
  destruct cp as [c|]; [|split; [done|]; intros [?|(c & ? & _)]; done].
  destruct (TaskRecoveryCheckpointUsable taskID (Some c)) eqn:Hu; cbn [negb].
  2:{ split; [done|]. intros [?|(c' & [= <-] & ? & _)]; congruence. }
  case_bool_decide as Hi.
  { split; [done|]. intros [?|(c' & _ & _ & ? & _)]; congruence. }
  rewrite forallb_forall. split.
  - intros Hall. right. exists c. split_and!; [done..|]. intros idx Hidx%list_elem_of_In.
    apply Hall, negb_true_iff in Hidx. lia.
  - intros [?|(c' & [= <-] & _ & _ & Hall)]; [congruence|]. intros idx Hidx%list_elem_of_In.
    apply negb_true_iff. specialize (Hall idx Hidx). lia.
Qed.

(** What a forward resume requires, exactly.  A definition with no
    irreversible action may always resume; otherwise the checkpoint has to be
    usable for this task and the irreversible nodes have to be located in the
    graph, every one of them strictly after the last committed step. *)
Theorem forward_resume_exact taskID definition cp :
  recoveryForwardResumeSafe taskID definition cp = true ↔
  taskHasIrreversibleAction definition = false ∨
  ∃ c, cp = Some c ∧ TaskRecoveryCheckpointUsable taskID cp = true ∧
    irreversibleStepIndexes definition ≠ [] ∧
    ∀ idx, idx ∈ irreversibleStepIndexes definition → LastStep c < idx.
Proof. apply forward_resume_iff. Qed.

(** Whether a human has to approve: the definition or its bound contract says so. *)
Definition human_gated (definition : string) : bool :=
  taskRequiresHumanApproval definition ||
  bp_Present (extractBoundActionPolicy definition) &&
  bp_ApprovalRequired (extractBoundActionPolicy definition).

(** The decision as nested conditions, the last overriding ones first. *)
Lemma policy_decision_eq id now input :
  let definition := in_TaskDefinition input in
  let d := evaluateActionPolicy id now input in
  d_HumanGated d = human_gated definition ∧
  d_Irreversible d = taskHasIrreversibleAction definition ∧
  d_Decision d =
    (if in_RecoveryAttempt input &&
        (negb (TaskRecoveryCheckpointUsable (in_TaskID input) (in_Checkpoint input)) ||
         negb (recoveryForwardResumeSafe (in_TaskID input) definition (in_Checkpoint input)))
     then ActionDecisionDenied
     else if human_gated definition then ActionDecisionApprovalRequired
     else ActionDecisionAllowed).
Proof.
  assert (taskHasIrreversibleAction (in_TaskDefinition input) = false →
    recoveryForwardResumeSafe (in_TaskID input) (in_TaskDefinition input) (in_Checkpoint input) = true) as Hsafe.
  { intros Hi. unfold recoveryForwardResumeSafe. by rewrite Hi. }
  cbv zeta. unfold human_gated, evaluateActionPolicy. destruct (classifyTaskAction _) as [tt an].
  revert Hsafe.
  generalize (taskHasIrreversibleAction (in_TaskDefinition input)) as irr.
  generalize (recoveryForwardResumeSafe (in_TaskID input) (in_TaskDefinition input) (in_Checkpoint input)) as safe.
  generalize (TaskRecoveryCheckpointUsable (in_TaskID input) (in_Checkpoint input)) as usable.
  generalize (taskRequiresHumanApproval (in_TaskDefinition input)) as gated.
  generalize (extractBoundActionPolicy (in_TaskDefinition input)) as bound.
  generalize (in_RecoveryAttempt input) as recovery.
  intros [] [[] ? ? []] [] [] [] [] Hsafe; try discriminate (Hsafe eq_refl);
    split_and!; reflexivity.
Qed.

(** A task's usable checkpoint has no WAL entry beyond its watermark. *)
Lemma usable_entries_below taskID cp e :
  TaskRecoveryCheckpointUsable taskID (Some cp) = true →
  Forall (λ e, 0 ≤ StepIndex e) (WalEntries cp) → 0 ≤ LastStep cp →
  e ∈ WalEntries cp → StepIndex e ≤ LastStep cp.
Proof.
  intros (_ & _ & Hw & _)%usable_spec Hpos Hlast He.
  destruct (proj1 (watermark_consistent_spec cp Hpos Hlast) Hw) as [HF _].
  rewrite Forall_forall in HF. by apply HF.
Qed.

(** What an allowed hand-off of a recovery attempt implies. *)
Lemma handoff_allowed_safe id now input task target :
  in_RecoveryAttempt input = true →
  in_TaskID input = t_TaskID task → in_TaskDefinition input = t_TaskDefinition task →
  (RecoveryHandoffAllowed (Some task) (in_Checkpoint input) target
     (evaluateActionPolicy id now input)).1 = true →
  human_gated (t_TaskDefinition task) = false ∧
  ∃ c, in_Checkpoint input = Some c ∧ TaskRecoveryCheckpointUsable (t_TaskID task) (Some c) = true ∧
    (taskHasIrreversibleAction (t_TaskDefinition task) = true →
     irreversibleStepIndexes (t_TaskDefinition task) ≠ [] ∧
     ∀ idx, idx ∈ irreversibleStepIndexes (t_TaskDefinition task) → LastStep c < idx).
Proof.
  intros Hrec Hid Hdef Hallow.
  destruct (policy_decision_eq id now input) as (_ & _ & Hdec). rewrite Hrec, Hid, Hdef in Hdec.
  unfold RecoveryHandoffAllowed in Hallow.
  case_bool_decide as Hallowed; [|done]. rewrite Hallowed in Hdec. clear Hallow.
  destruct (TaskRecoveryCheckpointUsable _ _) eqn:Hu; [|done].
  destruct (recoveryForwardResumeSafe _ _ _) eqn:Hs; [|done].
  destruct (human_gated _) eqn:Hg; [done|]. split; [done|].
  destruct (in_Checkpoint input) as [c|] eqn:Hc; [|done].
  exists c. split_and!; [done..|]. intros Hirr.
  apply forward_resume_iff in Hs as [?|(c' & [= <-] & _ & Hne & Hall)]; [congruence|]. done.
Qed.

(** C9: a recovery that is allowed to redispatch a task never replays an
    irreversible effect.  When the policy evaluated for the recovery attempt
    and the check at the hand-off both allow the task to continue from a
    checkpoint, the checkpoint is usable, no human approval is outstanding, and
    if the task has irreversible actions at all they are located in its graph
    and lie beyond everything recorded in the checkpoint: no WAL entry of the
    checkpoint, whatever its status, belongs to an irreversible node. *)
Theorem recovery_never_replays_irreversible id now input task target :
  in_RecoveryAttempt input = true →
  in_TaskID input = t_TaskID task → in_TaskDefinition input = t_TaskDefinition task →
  (∀ c, in_Checkpoint input = Some c →
     in_uint32 (LastStep c) ∧ Forall (λ e, in_uint32 (StepIndex e)) (WalEntries c)) →
  (RecoveryHandoffAllowed (Some task) (in_Checkpoint input) target
     (evaluateActionPolicy id now input)).1 = true →
  human_gated (t_TaskDefinition task) = false ∧
  ∃ c, in_Checkpoint input = Some c ∧ TaskRecoveryCheckpointUsable (t_TaskID task) (Some c) = true ∧
    (taskHasIrreversibleAction (t_TaskDefinition task) = true →
     irreversibleStepIndexes (t_TaskDefinition task) ≠ [] ∧
     ∀ idx e, idx ∈ irreversibleStepIndexes (t_TaskDefinition task) →
              e ∈ WalEntries c → StepIndex e < idx).
Proof.
  intros Hrec Hid Hdef Hwidth Hallow.
  destruct (handoff_allowed_safe _ _ _ _ _ Hrec Hid Hdef Hallow) as (Hg & c & Hc & Hu & Hsafe).
  split; [done|]. exists c. split_and!; [done..|]. intros [Hne Hall]%Hsafe. split; [done|].
  intros idx e Hidx He. destruct (Hwidth c Hc) as [[Hlo _] HF]. specialize (Hall idx Hidx).
  assert (StepIndex e ≤ LastStep c); [|lia]. eapply usable_entries_below; [done| |done..].
  eapply Forall_impl; [exact HF|]. by intros ? [? _].
Qed.

(** The recorded risk and replay class, as the code accumulates them. *)
Definition base_risk (irreversible : bool) : string := if irreversible then "high" else "low".
Definition with_bound_risk (bound : boundActionPolicy) (risk : string) : string :=
  if bp_Present bound && (riskLevelRank risk <? riskLevelRank (bp_Risk bound))
  then bp_Risk bound else risk.
Definition with_gate_risk (gated : bool) (risk : string) : string :=
  if gated && (riskLevelRank risk <? riskLevelRank "medium") then "medium" else risk.

Lemma policy_risk_eq id now input :
  let bound := extractBoundActionPolicy (in_TaskDefinition input) in
  let d := evaluateActionPolicy id now input in
  d_RiskLevel d = with_gate_risk (d_HumanGated d) (with_bound_risk bound (base_risk (d_Irreversible d))) ∧
  d_ReplayClass d =
    (if d_Irreversible d || bp_Present bound && bool_decide (bp_ReplayClass bound = ReplayClassNonRetryable)
     then ReplayClassNonRetryable else ReplayClassRetryable).
Proof.
  cbv zeta. unfold evaluateActionPolicy. destruct (classifyTaskAction _) as [tt an].
  generalize (taskHasIrreversibleAction (in_TaskDefinition input)) as irr.
  generalize (recoveryForwardResumeSafe (in_TaskID input) (in_TaskDefinition input) (in_Checkpoint input)) as safe.
  generalize (TaskRecoveryCheckpointUsable (in_TaskID input) (in_Checkpoint input)) as usable.
  generalize (taskRequiresHumanApproval (in_TaskDefinition input)) as gated.
  generalize (extractBoundActionPolicy (in_TaskDefinition input)) as bound.
  generalize (in_RecoveryAttempt input) as recovery.
  intros [] [[] ? rc []] [] [] [] []; (split; [reflexivity|]);
    cbn [d_ReplayClass d_Irreversible bp_Present bp_ReplayClass orb andb];
    first [reflexivity | by destruct (bool_decide (rc = ReplayClassNonRetryable))].
Qed.

Lemma risk_ranks : riskLevelRank "low" = 1 ∧ riskLevelRank "medium" = 2 ∧ riskLevelRank "high" = 3.
Proof. vm_compute. done. Qed.

Lemma with_bound_risk_ge bound r :
  riskLevelRank r ≤ riskLevelRank (with_bound_risk bound r) ∧
  (bp_Present bound = true → riskLevelRank (bp_Risk bound) ≤ riskLevelRank (with_bound_risk bound r)).
Proof.
  unfold with_bound_risk. destruct (bp_Present bound); cbn [andb]; [|split; [lia|done]].
  destruct (Z.ltb_spec (riskLevelRank r) (riskLevelRank (bp_Risk bound))); lia.
Qed.

Lemma with_gate_risk_ge gated r :
  riskLevelRank r ≤ riskLevelRank (with_gate_risk gated r) ∧
  (gated = true → 2 ≤ riskLevelRank (with_gate_risk gated r)).
Proof.
  destruct risk_ranks as (_ & Hmed & _). unfold with_gate_risk. rewrite Hmed.
  destruct gated; cbn [andb]; [|split; [lia|done]].
  destruct (Z.ltb_spec (riskLevelRank r) 2); rewrite ?Hmed; lia.
Qed.

(** A bound contract can only make the policy stricter: the risk recorded
    is never ranked below the contract's or below what the definition itself
    implies, a non-retryable contract or an irreversible action makes the
    decision non-retryable, and a contract that requires approval always gates
    the task. *)
Theorem bound_contract_only_tightens id now input :
  let bound := extractBoundActionPolicy (in_TaskDefinition input) in
  let d := evaluateActionPolicy id now input in
  (bp_Present bound = true → riskLevelRank (bp_Risk bound) ≤ riskLevelRank (d_RiskLevel d)) ∧
  (d_Irreversible d = true → 3 ≤ riskLevelRank (d_RiskLevel d)) ∧
  (d_HumanGated d = true → 2 ≤ riskLevelRank (d_RiskLevel d)) ∧
  (d_Irreversible d = true ∨ bp_Present bound = true ∧ bp_ReplayClass bound = ReplayClassNonRetryable →
   d_ReplayClass d = ReplayClassNonRetryable) ∧
  (bp_Present bound = true → bp_ApprovalRequired bound = true →
   d_HumanGated d = true ∧ d_Decision d ≠ ActionDecisionAllowed).
Proof.
  intros bound d. destruct (policy_decision_eq id now input) as (Hg & _ & Hd).
  destruct (policy_risk_eq id now input) as [Hr Hc]. fold bound d in Hg, Hd, Hr, Hc.
  destruct (with_bound_risk_ge bound (base_risk (d_Irreversible d))) as [Hb1 Hb2].
  destruct (with_gate_risk_ge (d_HumanGated d) (with_bound_risk bound (base_risk (d_Irreversible d))))
    as [Hg1 Hg2].
  rewrite Hr. split_and!.
  - intros Hp. specialize (Hb2 Hp). lia.
  - intros Hi. rewrite Hi in *. cbn [base_risk] in *. destruct risk_ranks as (_ & _ & Hh). lia.
  - exact Hg2.
  - rewrite Hc. intros [->|[-> Hn]]; [done|]. by rewrite bool_decide_true, orb_true_r.
  - intros Hp Ha. rewrite Hg, Hd. unfold human_gated. fold bound. rewrite Hp, Ha, orb_true_r.
    split; [done|]. destruct (in_RecoveryAttempt input && _); discriminate.
Qed.
End RecoverySafety.

(** ** Concrete definitions *)
Module GovernanceExample.
#[local] Existing Instance demo_ext.

(** The same graph as this service writes it and as PostgreSQL returns it from
    a JSONB column, with a space after each colon. *)
Definition graph_with (colon_text : string) : string :=
  "{" +:+ quoted "graph" +:+ colon_text +:+ "{" +:+ quoted "nodes" +:+ colon_text +:+
  "[{" +:+ quoted "metadata" +:+ colon_text +:+ "{" +:+ quoted "irreversible" +:+ colon_text +:+
  "true}}]}}".
Definition definition_written : string := graph_with ":".
Definition definition_read_back : string := graph_with ": ".

(** The irreversibility heuristic depends on white space.  A node marked
    only by an [irreversible] flag is recognised in the text this service
    writes, and is not recognised in the same JSON with a space after the
    colon, which is how a JSONB column prints it: the task read back for
    recovery counts as reversible, so a recovery from a checkpoint whose WAL
    already contains that node is classified as safe. *)
Theorem irreversible_flag_lost_in_jsonb_text :
  compact definition_read_back = definition_written ∧
  taskHasIrreversibleAction definition_written = true ∧
  irreversibleStepIndexes definition_written = [0] ∧
  taskHasIrreversibleAction definition_read_back = false ∧
  recoveryForwardResumeSafe 7%N definition_written (Some (CheckpointExample.delta [0] 0)) = false ∧
  recoveryForwardResumeSafe 7%N definition_read_back (Some (CheckpointExample.delta [0] 0)) = true.
Proof. vm_compute. split_and!; reflexivity. Qed.

(** A read step followed by an irreversible one, and a checkpoint between them. *)
Definition definition_two_steps : string :=
  obj_text [("type", str_text "execution_graph");
            ("graph", obj_text [("nodes", arr_text
               [obj_text [("effect_class", str_text "read")];
                obj_text [("effect_class", str_text "irreversible")]])])].

Definition task7 : TaskRecord :=
  mkTask 7%N "acme" TaskStatusRecovering None None definition_two_steps None "" "" None
    AgentIdentity_zero [] [] None "" None None None None None None 0 0 false None None None "" None.

Definition recovery_input : actionPolicyInput :=
  mkPolicyInput "acme" 7%N "rt-2" definition_two_steps AgentIdentity_zero []
    (Some (CheckpointExample.delta [0] 0)) true.

Lemma recovery_never_replays_irreversible_witness :
  (RecoveryHandoffAllowed (Some task7) (in_Checkpoint recovery_input) "rt-2"
     (evaluateActionPolicy 1%N 0 recovery_input)).1 = true ∧
  irreversibleStepIndexes definition_two_steps = [1] ∧
  ∀ e, e ∈ WalEntries (CheckpointExample.delta [0] 0) → StepIndex e < 1.
Proof.
  assert (Hok : (RecoveryHandoffAllowed (Some task7) (in_Checkpoint recovery_input) "rt-2"
     (evaluateActionPolicy 1%N 0 recovery_input)).1 = true) by (vm_compute; reflexivity).
  split; [exact Hok|]. split; [vm_compute; reflexivity|].
  assert (Hw : ∀ c, in_Checkpoint recovery_input = Some c →
     in_uint32 (LastStep c) ∧ Forall (λ e, in_uint32 (StepIndex e)) (WalEntries c)).
  { intros c [= <-]. split; [vm_compute; split; discriminate|].
    repeat constructor; vm_compute; discriminate. }
  destruct (recovery_never_replays_irreversible 1%N 0 recovery_input task7 "rt-2"
              eq_refl eq_refl eq_refl Hw Hok) as (_ & c & [= <-] & _ & Hirr).
  destruct (Hirr ltac:(vm_compute; reflexivity)) as [_ Hall].
  intros e He. apply (Hall 1 e); [|exact He].
  vm_compute. apply list_elem_of_here.
Defined.
End GovernanceExample.
