(* ===== verification/TaskDef.v ===== *)
(** * Task definitions: validation and normalization

    The public task definition is checked before a task exists
    (task_coordinator.go, [normalizePublicTaskDefinition] and the validators it
    calls).  A [map[string]json.RawMessage] is an [option (gmap string string)]
    whose [None] is the nil map the literal [null] decodes to; a member's value
    is the text it was read from.  An outer [None] is a panic (assignment to the
    nil map), which the theorems exclude.

    [well_formed] says what an accepted definition is, without the order of
    the tests or the error texts, and the theorems relate the validators to it
    and to what recovery reads in the stored definition. *)

From S2P Require Import Prelude GoStrings Json Ext WalCodec Checkpoint Types Capability Governance.
Open Scope Z_scope.

(** ** [%q] *)

Definition hex_pad (n : nat) (z : Z) : string :=
  concat_strings ((λ i, str1 (hex_digit (z / 16 ^ Z.of_nat i mod 16))) <$> reverse (seq 0 n)).

Definition quote_escape `{Ext} (p : Z * string) : string :=
  let r := p.1 in
  if (r =? RuneError) && (slen p.2 =? 1)%nat
  then String bsl (String "x" (concat_strings ((λ a, hex_pad 2 (zb a)) <$> String.list_ascii_of_string p.2)))
  else if (r =? zb dq) || (r =? zb bsl) then String bsl p.2
  else if in_range 0x20 0x7E r || (0x80 <=? r) && unicode_IsPrint r then p.2
  else if r =? 7 then String bsl "a"
  else if r =? 8 then String bsl "b"
  else if r =? 12 then String bsl "f"
  else if r =? 10 then String bsl "n"
  else if r =? 13 then String bsl "r"
  else if r =? 9 then String bsl "t"
  else if r =? 11 then String bsl "v"
  else if (r <? 0x20) || (r =? 0x7F) then String bsl (String "x" (hex_pad 2 r))
  else if r <? 0x10000 then String bsl (String "u" (hex_pad 4 r))
  else String bsl (String "U" (hex_pad 8 r)).

(** [strconv.Quote]. *)
Definition strconv_Quote `{Ext} (s : string) : string :=
  String dq (concat_strings (quote_escape <$> runes s) +:+ str1 dq).

(** ** Errors *)

Definition ErrInvalidTaskDefinition : goerror := Sentinel "invalid task_definition".

Definition invalidTaskDefinition (msg : string) : goerror :=
  Wrapf "" ErrInvalidTaskDefinition (": " +:+ msg).

Definition unwrapInvalidTaskDefinition (e : goerror) : string :=
  TrimPrefix (error_text e) (error_text ErrInvalidTaskDefinition +:+ ": ").

(** [return invalidTaskDefinition("<where>: %s", unwrapInvalidTaskDefinition(err))]. *)
Definition within_element (where_ : string) (r : res ()) : res () :=
  match r with
  | Ok x => Ok x
  | Err e => Err (invalidTaskDefinition (where_ +:+ unwrapInvalidTaskDefinition e))
  end.

(** ** Fields *)

Abbreviation rawmap := (option (gmap string string)) (only parsing).

Definition readStringField (definition : rawmap) (fld : string) : res string :=
  match raw_get definition fld with
  | None => Err (invalidTaskDefinition (fld +:+ " is required"))
  | Some raw =>
    let '(value, ok) := unmarshal_string raw in
    if ok then Ok value else Err (invalidTaskDefinition (fld +:+ " must be a string"))
  end.

Definition requireStringField (definition : rawmap) (fld : string) : res () :=
  value ← readStringField definition fld;
  guard_err (bool_decide (value = ""))
    (invalidTaskDefinition (fld +:+ " must be a non-empty string")).

Definition requireArrayField (definition : rawmap) (fld : string) : res (list string) :=
  match raw_get definition fld with
  | None => Err (invalidTaskDefinition (fld +:+ " is required"))
  | Some raw =>
    let '(values, ok) := unmarshal (dec_list "" dec_raw) raw [] in
    if ok then Ok values else Err (invalidTaskDefinition (fld +:+ " must be an array"))
  end.

(** [json.Number]: a number literal, or a string that holds one. *)
Definition dec_number : dec string :=
  λ n old, match n.2 with
           | JNum l => (l, true)
           | JStr s => if is_number_literal s then (s, true) else (old, false)
           | JNull => (old, true)
           | _ => (old, false)
           end.

(** [json.Number.Float64] succeeds. *)
Definition number_Float64_ok (value : string) : bool :=
  is_number_literal value && float64_fits value.

Definition requireNumericField (definition : rawmap) (fld : string) : res () :=
  match raw_get definition fld with
  | None => Err (invalidTaskDefinition (fld +:+ " is required"))
  | Some raw =>
    let '(value, ok) := unmarshal dec_number raw "" in
    if ok && number_Float64_ok value then Ok tt
    else Err (invalidTaskDefinition (fld +:+ " must be a number"))
  end.

Definition validateOptionalPositiveUint32Field (definition : rawmap) (fld : string) : res () :=
  match raw_get definition fld with
  | None => Ok tt
  | Some raw =>
    let '(value, ok) := unmarshal (dec_uint 64) raw 0 in
    if negb ok then Err (invalidTaskDefinition (fld +:+ " must be a positive integer"))
    else guard_err ((value =? 0) || (uint32_max <? value))
           (invalidTaskDefinition (fld +:+ " must be a positive integer"))
  end.

Definition validateOptionalBoolField (definition : rawmap) (fld : string) : res () :=
  match raw_get definition fld with
  | None => Ok tt
  | Some raw =>
    let '(_, ok) := unmarshal dec_bool raw false in
    guard_err (negb ok) (invalidTaskDefinition (fld +:+ " must be a boolean"))
  end.

(** ** Robotics *)

Definition validateRoboticsActionPayload `{Ext} (step : rawmap) : res () :=
  action ← readStringField step "action";
  if bool_decide (action = "navigate_to_pose") then
    match raw_get step "goal" with
    | None => Err (invalidTaskDefinition "goal is required")
    | Some rawGoal =>
      match unmarshal_rawmap rawGoal with
      | None => Err (invalidTaskDefinition "goal must be an object")
      | Some goal =>
        _ ← requireNumericField goal "x"; requireNumericField goal "y"
      end
    end
  else if bool_decide (action = "publish_prompt") then requireStringField step "prompt"
  else if bool_decide (action = "publish_velocity") then
    _ ← requireNumericField step "linear_x"; requireNumericField step "angular_z"
  else if bool_decide (action ∈ ["get_navigation_status"; "cancel_navigation"; "publish_zero_velocity"])
  then Ok tt
  else Err (invalidTaskDefinition ("unsupported robotics action " +:+ strconv_Quote action)).

Definition validateRoboticsStep `{Ext} (step : rawmap) : res () :=
  _ ← requireNumericField step "step_index"; validateRoboticsActionPayload step.

(** ** Execution graphs *)

Definition effect_classes : list string := ["idempotent"; "irreversible"; "retryable"].

Definition validateEffectClassField `{Ext} (node : rawmap) : res () :=
  match raw_get node "effect_class" with
  | None => Ok tt
  | Some raw =>
    let '(ec, ok) := unmarshal_string raw in
    if negb ok then Err (invalidTaskDefinition "effect_class must be a string")
    else
      let ec := ToLower (TrimSpace ec) in
      if bool_decide (ec ∈ effect_classes) then Ok tt
      else Err (invalidTaskDefinition
             ("effect_class must be one of idempotent, irreversible, retryable (got "
              +:+ strconv_Quote ec +:+ ")"))
  end.

Definition validateExecutionGraphSlotFields (node : rawmap) : res () :=
  _ ← match raw_get node "write_slot" with
      | None => Ok tt
      | Some raw =>
        let '(writeSlot, ok) := unmarshal_string raw in
        guard_err (negb ok || bool_decide (writeSlot = ""))
          (invalidTaskDefinition "write_slot must be a non-empty string")
      end;
  match raw_get node "read_slots" with
  | None => Ok tt
  | Some raw =>
    let '(readSlots, ok) := unmarshal (dec_list "" dec_string) raw [] in
    if negb ok then Err (invalidTaskDefinition "read_slots must be an array of strings")
    else res_forM (λ slot, guard_err (bool_decide (slot = ""))
           (invalidTaskDefinition "read_slots must not contain empty values")) readSlots
  end.

Definition validateExecutionGraphNode `{Ext} (node : rawmap) : res () :=
  _ ← requireStringField node "node_id";
  _ ← validateExecutionGraphSlotFields node;
  kind ← readStringField node "kind";
  _ ← (if bool_decide (kind = "reason") then
         _ ← requireStringField node "model";
         _ ← requireArrayField node "messages"; Ok tt
       else if bool_decide (kind = "robotics") then validateRoboticsActionPayload node
       else if bool_decide (kind = "tool") then requireStringField node "tool_name"
       else if bool_decide (kind = "behavior_tree") then
         match raw_get node "tree" with
         | None => Err (invalidTaskDefinition "tree is required")
         | Some _ => Ok tt
         end
       else if bool_decide (kind = "human_approval") then requireStringField node "task"
       else if bool_decide (kind = "memory_recall") then requireStringField node "query"
       else if bool_decide (kind = "memory_store") then requireStringField node "content"
       else Err (invalidTaskDefinition ("unsupported execution graph node kind " +:+ strconv_Quote kind)));
  validateEffectClassField node.

(** One element of an array, which has to decode to an object. *)
Definition validate_element (where_ : string) (check : rawmap → res ()) (raw : string) : res () :=
  match unmarshal_rawmap raw with
  | None => Err (invalidTaskDefinition (where_ +:+ " must be an object"))
  | Some m => within_element (where_ +:+ ": ") (check m)
  end.

Definition indexed (name : string) (idx : nat) : string :=
  name +:+ "[" +:+ itoa (Z.of_nat idx) +:+ "]".

Definition validateExecutionGraph `{Ext} (definition : rawmap) : res () :=
  match raw_get definition "graph" with
  | None => Err (invalidTaskDefinition "execution_graph.graph is required")
  | Some rawGraph =>
    match unmarshal_rawmap rawGraph with
    | None => Err (invalidTaskDefinition "execution_graph.graph must be an object")
    | Some graph =>
      match requireArrayField graph "nodes" with
      | Err e => Err (invalidTaskDefinition ("execution_graph." +:+ unwrapInvalidTaskDefinition e))
      | Ok nodes =>
        _ ← guard_err (bool_decide (nodes = []))
              (invalidTaskDefinition "execution_graph.graph.nodes must contain at least one node");
        res_forMi (λ idx, validate_element (indexed "execution_graph.graph.nodes" idx)
                            validateExecutionGraphNode) 0 nodes
      end
    end
  end.

(** ** Task definitions *)

Definition validate_inference (definition : rawmap) : res () :=
  _ ← requireStringField definition "model";
  _ ← requireArrayField definition "messages";
  match raw_get definition "stream" with
  | None => Ok tt
  | Some rawStream =>
    let '(stream, ok) := unmarshal dec_bool rawStream false in
    if negb ok then Err (invalidTaskDefinition "stream must be a boolean")
    else guard_err stream (invalidTaskDefinition
           "single_inference.stream=true is not supported on Overture durable tasks")
  end.

Definition validate_agent_step (step : rawmap) : res () :=
  _ ← requireNumericField step "step_index";
  _ ← requireStringField step "model";
  _ ← requireArrayField step "messages"; Ok tt.

Definition validate_robotics_step `{Ext} (step : rawmap) : res () :=
  _ ← requireNumericField step "step_index"; validateRoboticsStep step.

Definition validateTaskDefinition `{Ext} (taskType : string) (definition : rawmap) : res () :=
  if bool_decide (taskType = "single_inference") then validate_inference definition
  else if bool_decide (taskType = "agent_workflow") then
    steps ← requireArrayField definition "steps";
    _ ← validateOptionalPositiveUint32Field definition "checkpoint_after_steps";
    _ ← guard_err (bool_decide (steps = []))
          (invalidTaskDefinition "agent_workflow.steps must contain at least one step");
    res_forMi (λ idx, validate_element (indexed "agent_workflow.steps" idx) validate_agent_step) 0 steps
  else if bool_decide (taskType = "robotics_workflow") then
    steps ← requireArrayField definition "steps";
    _ ← guard_err (bool_decide (steps = []))
          (invalidTaskDefinition "robotics_workflow.steps must contain at least one step");
    res_forMi (λ idx, validate_element (indexed "robotics_workflow.steps" idx) validate_robotics_step) 0 steps
  else if bool_decide (taskType = "behavior_tree") then
    match raw_get definition "tree" with
    | None => Err (invalidTaskDefinition "behavior_tree.tree is required")
    | Some _ => Ok tt
    end
  else if bool_decide (taskType = "execution_graph") then
    _ ← validateOptionalPositiveUint32Field definition "checkpoint_after_steps";
    _ ← validateOptionalBoolField definition "continue_after_checkpoint";
    validateExecutionGraph definition
  else Err (invalidTaskDefinition ("unsupported task_type " +:+ strconv_Quote taskType)).

(** [json.Marshal] of a [map[string]json.RawMessage]: a value that is not JSON
    makes it fail. *)
Definition marshal_rawmap (m : gmap string string) : option string :=
  if forallb (λ kv, is_ok (marshal_raw kv.2)) (map_to_list m)
  then Some (map_text ((λ raw, default "" (res_to_option (marshal_raw raw))) <$> m)) else None.

(** [None] is the panic of [definition["type"] = ...] on a nil map. *)
Definition normalizePublicTaskDefinition `{Ext} (taskType raw : string) : option (res string) :=
  match unmarshal_rawmap raw with
  | None => Some (Err (Wrapf "" ErrInvalidTaskDefinition ": task_definition must be a JSON object"))
  | Some definition =>
    match validateTaskDefinition taskType definition with
    | Err e => Some (Err e)
    | Ok _ =>
      m ← definition;
      Some match marshal_rawmap (<["type" := str_text taskType]> m) with
      | Some normalized => Ok normalized
      | None => Err (Wrapf "" ErrInvalidTaskDefinition ": could not normalize task_definition")
      end
    end
  end.

(** ** What an accepted definition is *)

Section WellFormed.
Context (definition : rawmap).

(** The member is present and decodes without error to the value. *)
Definition decodes {A} (d : dec A) (zero : A) (fld : string) (v : A) : Prop :=
  ∃ raw, raw_get definition fld = Some raw ∧ unmarshal d raw zero = (v, true).

Definition has_text (fld : string) : Prop := ∃ s, decodes dec_string "" fld s ∧ s ≠ "".
Definition has_array (fld : string) : Prop := ∃ l, decodes (dec_list "" dec_raw) [] fld l.
Definition has_number (fld : string) : Prop :=
  ∃ l, decodes dec_number "" fld l ∧ number_Float64_ok l = true.
Definition absent_or (fld : string) (P : Prop) : Prop := raw_get definition fld = None ∨ P.

(** [null] counts as the zero value, hence [false]. *)
Definition not_streaming : Prop := absent_or "stream" (decodes dec_bool false "stream" false).
Definition positive_uint32 (fld : string) : Prop :=
  absent_or fld (∃ z, decodes (dec_uint 64) 0 fld z ∧ 0 < z ≤ uint32_max).
Definition boolean (fld : string) : Prop := absent_or fld (∃ b, decodes dec_bool false fld b).

Definition slots_ok : Prop :=
  absent_or "write_slot" (has_text "write_slot") ∧
  absent_or "read_slots"
    (∃ l, decodes (dec_list "" dec_string) [] "read_slots" l ∧ Forall (λ s, s ≠ "") l).

Definition effect_class_ok : Prop :=
  absent_or "effect_class"
    (∃ s, decodes dec_string "" "effect_class" s ∧ ToLower (TrimSpace s) ∈ effect_classes).

(** The elements of an array member, one of them at least, each an object that
    satisfies [P]. *)
Definition elements_ok (fld : string) (P : rawmap → Prop) : Prop :=
  ∃ l, decodes (dec_list "" dec_raw) [] fld l ∧ l ≠ [] ∧
    Forall (λ raw, ∃ m, unmarshal_rawmap raw = Some m ∧ P m) l.
End WellFormed.

Definition robotics_ok (step : rawmap) : Prop :=
  ∃ action, decodes step dec_string "" "action" action ∧
    (action = "navigate_to_pose" ∧
       (∃ raw goal, raw_get step "goal" = Some raw ∧ unmarshal_rawmap raw = Some goal ∧
          has_number goal "x" ∧ has_number goal "y")
     ∨ action = "publish_prompt" ∧ has_text step "prompt"
     ∨ action = "publish_velocity" ∧ has_number step "linear_x" ∧ has_number step "angular_z"
     ∨ action ∈ ["get_navigation_status"; "cancel_navigation"; "publish_zero_velocity"]).

Definition node_ok (node : rawmap) : Prop :=
  has_text node "node_id" ∧ slots_ok node ∧ effect_class_ok node ∧
  ∃ kind, decodes node dec_string "" "kind" kind ∧
    (kind = "reason" ∧ has_text node "model" ∧ has_array node "messages"
     ∨ kind = "robotics" ∧ robotics_ok node
     ∨ kind = "tool" ∧ has_text node "tool_name"
     ∨ kind = "behavior_tree" ∧ is_Some (raw_get node "tree")
     ∨ kind = "human_approval" ∧ has_text node "task"
     ∨ kind = "memory_recall" ∧ has_text node "query"
     ∨ kind = "memory_store" ∧ has_text node "content").

Definition graph_ok (definition : rawmap) : Prop :=
  ∃ raw graph, raw_get definition "graph" = Some raw ∧ unmarshal_rawmap raw = Some graph ∧
    elements_ok graph "nodes" node_ok.

Definition agent_step_ok (step : rawmap) : Prop :=
  has_number step "step_index" ∧ has_text step "model" ∧ has_array step "messages".

Definition well_formed (taskType : string) (definition : rawmap) : Prop :=
  taskType = "single_inference" ∧
    has_text definition "model" ∧ has_array definition "messages" ∧ not_streaming definition
  ∨ taskType = "agent_workflow" ∧
    positive_uint32 definition "checkpoint_after_steps" ∧ elements_ok definition "steps" agent_step_ok
  ∨ taskType = "robotics_workflow" ∧
    elements_ok definition "steps" (λ step, has_number step "step_index" ∧ robotics_ok step)
  ∨ taskType = "behavior_tree" ∧ is_Some (raw_get definition "tree")
  ∨ taskType = "execution_graph" ∧
    positive_uint32 definition "checkpoint_after_steps" ∧
    boolean definition "continue_after_checkpoint" ∧ graph_ok definition.

(** ** The validators decide it *)

(** Sequencing two checks succeeds when both do. *)
Lemma res_bind_ok {A B} (r : res A) (k : A → res B) b :
  r ≫= k = Ok b ↔ ∃ a, r = Ok a ∧ k a = Ok b.
Proof. destruct r; unfold mbind; cbn; naive_solver. Qed.

Lemma guard_err_ok c e : guard_err c e = Ok tt ↔ c = false.
Proof. by destruct c. Qed.

(** A step of a decision over a conditional chain of string comparisons. *)
Lemma branch_ok {A} (P : Prop) `{!Decision P} (x y : res A) a :
  (if bool_decide P then x else y) = Ok a ↔ P ∧ x = Ok a ∨ ¬ P ∧ y = Ok a.
Proof. case_bool_decide; naive_solver. Qed.

Lemma parse_uint_nonneg bits s z : parse_uint bits s = Some z → 0 ≤ z.
Proof.
  assert (∀ s a z, 0 ≤ a → digits_value a s = Some z → 0 ≤ z) as Hd.
  { clear. induction s as [|c s IH]; intros a z Ha; cbn [digits_value]; [by intros [= <-]|].
    destruct (is_digit c) eqn:Hc; [|done]. apply IH.
    unfold is_digit, in_range in Hc. reflect_bools. lia. }
  unfold parse_uint. destruct s as [|c s]; [done|].
  destruct (digits_value 0 (String c s)) as [v|] eqn:Hv; cbn [mbind option_bind]; [|done].
  case_match; [|done]. intros [= <-]. by eapply Hd; [|exact Hv].
Qed.

Lemma dec_uint_nonneg bits raw z : 0 ≤ z → 0 ≤ (unmarshal (dec_uint bits) raw z).1.
Proof.
  intros Hz. unfold unmarshal. destruct (json_parse raw) as [n|]; [|done].
  unfold dec_uint. destruct n.2; try done.
  destruct (parse_uint bits lit) eqn:Hp; [|done]. by eapply parse_uint_nonneg.
Qed.

Section Fields.
Context (m : rawmap) (fld : string).

Lemma decodes_present {A} (d : dec A) z v raw :
  raw_get m fld = Some raw → decodes m d z fld v ↔ unmarshal d raw z = (v, true).
Proof. intros Hr. unfold decodes. rewrite Hr. split; [by intros (? & [= <-] & ?)|by exists raw]. Qed.

Lemma decodes_absent {A} (d : dec A) z v : raw_get m fld = None → ¬ decodes m d z fld v.
Proof. intros Hr (raw & Hr' & _). congruence. Qed.

(** Case on the member: absent, ill-typed, or decoded to a value. *)
Lemma decodes_cases {A} (d : dec A) z :
  (raw_get m fld = None ∧ ∀ v, ¬ decodes m d z fld v) ∨
  ∃ raw v ok, raw_get m fld = Some raw ∧ unmarshal d raw z = (v, ok) ∧
    ∀ v', decodes m d z fld v' ↔ ok = true ∧ v' = v.
Proof.
  destruct (raw_get m fld) as [raw|] eqn:Hr.
  - right. destruct (unmarshal d raw z) as [v ok] eqn:Hu. exists raw, v, ok. split_and!; [done..|].
    intros v'. rewrite (decodes_present d z v' raw Hr), Hu. split; [by intros [= -> ->]|by intros [-> ->]].
  - left. split; [done|]. intros v. by apply decodes_absent.
Qed.

Lemma readStringField_ok s : readStringField m fld = Ok s ↔ decodes m dec_string "" fld s.
Proof.
  unfold readStringField, unmarshal_string.
  destruct (decodes_cases dec_string "") as [[-> Hn]|(raw & v & ok & -> & -> & Hd)].
  - split; [done|]. by intros ?%Hn.
  - rewrite Hd. destruct ok; split; [by intros [= ->]|by intros [_ ->]|done|by intros [? _]].
Qed.

Lemma requireStringField_ok : requireStringField m fld = Ok tt ↔ has_text m fld.
Proof.
  unfold requireStringField, has_text. rewrite res_bind_ok.
  setoid_rewrite readStringField_ok. setoid_rewrite guard_err_ok.
  by setoid_rewrite bool_decide_eq_false.
Qed.

Lemma requireArrayField_ok l :
  requireArrayField m fld = Ok l ↔ decodes m (dec_list "" dec_raw) [] fld l.
Proof.
  unfold requireArrayField.
  destruct (decodes_cases (dec_list "" dec_raw) []) as [[-> Hn]|(raw & v & ok & -> & -> & Hd)].
  - split; [done|]. by intros ?%Hn.
  - rewrite Hd. destruct ok; split; [by intros [= ->]|by intros [_ ->]|done|by intros [? _]].
Qed.

Lemma requireNumericField_ok : requireNumericField m fld = Ok tt ↔ has_number m fld.
Proof.
  unfold requireNumericField, has_number.
  destruct (decodes_cases dec_number "") as [[-> Hn]|(raw & v & ok & -> & -> & Hd)].
  - split; [done|]. by intros (l & ?%Hn & _).
  - setoid_rewrite Hd. destruct ok, (number_Float64_ok v) eqn:Hf; cbn [andb];
      (split; [intros; try done; by exists v|]); intros (l & [? ->] & ?); congruence.
Qed.

Lemma validateOptionalPositiveUint32Field_ok :
  validateOptionalPositiveUint32Field m fld = Ok tt ↔ positive_uint32 m fld.
Proof.
  unfold validateOptionalPositiveUint32Field, positive_uint32, absent_or.
  destruct (decodes_cases (dec_uint 64) 0) as [[-> Hn]|(raw & v & ok & -> & Hu & Hd)]; [by split; [left|]|].
  pose proof (dec_uint_nonneg 64 raw 0) as Hv. rewrite Hu in *. specialize (Hv ltac:(lia)). cbn in Hv.
  setoid_rewrite Hd. destruct ok; cbn [negb].
  - rewrite guard_err_ok, orb_false_iff, Z.eqb_neq, Z.ltb_ge. split.
    + intros ?. right. exists v. split; [done|lia].
    + intros [?|(z & [_ ->] & ?)]; [done|lia].
  - split; [done|]. by intros [?|(z & [? _] & _)].
Qed.

Lemma validateOptionalBoolField_ok : validateOptionalBoolField m fld = Ok tt ↔ boolean m fld.
Proof.
  unfold validateOptionalBoolField, boolean, absent_or.
  destruct (decodes_cases dec_bool false) as [[-> Hn]|(raw & v & ok & -> & -> & Hd)]; [by split; [left|]|].
  rewrite guard_err_ok, negb_false_iff. setoid_rewrite Hd. split.
  - intros ->. right. by exists v.
  - by intros [?|(b & ? & _)].
Qed.
End Fields.

Lemma within_element_ok w r : within_element w r = Ok tt ↔ r = Ok tt.
Proof. destruct r as [[]|]; cbn; split; congruence. Qed.

Lemma validate_element_ok w check raw :
  validate_element w check raw = Ok tt ↔ ∃ m, unmarshal_rawmap raw = Some m ∧ check m = Ok tt.
Proof.
  unfold validate_element. destruct (unmarshal_rawmap raw) as [m|].
  - rewrite within_element_ok. split; [by exists m|by intros (? & [= <-] & ?)].
  - split; [done|by intros (? & ? & _)].
Qed.

(** A chain of unit-valued checks. *)
Lemma seq_ok (r : res ()) (k : res ()) : (_ ← r; k) = Ok tt ↔ r = Ok tt ∧ k = Ok tt.
Proof. rewrite res_bind_ok. split; [by intros ([] & ? & ?)|intros [? ?]; by exists tt]. Qed.

(** A non-empty array whose elements all pass the check, whatever prefix the
    error texts carry. *)
Lemma elements_check_ok (m : rawmap) fld (w : nat → string) check P e :
  (∀ x, check x = Ok tt ↔ P x) →
  (∃ l, decodes m (dec_list "" dec_raw) [] fld l ∧
     (_ ← guard_err (bool_decide (l = [])) e;
      res_forMi (λ idx, validate_element (w idx) check) 0 l) = Ok tt) ↔
  elements_ok m fld P.
Proof.
  intros Hc. unfold elements_ok. apply exist_proper. intros l.
  rewrite seq_ok, guard_err_ok, bool_decide_eq_false, res_forMi_ok, Forall_lookup.
  do 2 apply and_iff_compat_l. apply forall_proper. intros j. apply forall_proper. intros x.
  cbn beta. rewrite validate_element_ok. by setoid_rewrite Hc.
Qed.

Lemma and_iff_compat2 (P P' Q Q' : Prop) : (P ↔ P') → (Q ↔ Q') → P ∧ Q ↔ P' ∧ Q'.
Proof. tauto. Qed.

Lemma require_array_unit m fld : (_ ← requireArrayField m fld; Ok tt) = Ok tt ↔ has_array m fld.
Proof.
  rewrite res_bind_ok. unfold has_array. apply exist_proper. intros l.
  rewrite requireArrayField_ok. tauto.
Qed.

Lemma exists_and_r {A} (P : A → Prop) (Q : Prop) : (∃ a, P a ∧ Q) ↔ (∃ a, P a) ∧ Q.
Proof. clear. naive_solver. Qed.

Section Validators.
Context `{Ext}.

Lemma validateRoboticsActionPayload_ok step :
  validateRoboticsActionPayload step = Ok tt ↔ robotics_ok step.
Proof.
  unfold validateRoboticsActionPayload, robotics_ok. rewrite res_bind_ok.
  apply exist_proper. intros action. rewrite readStringField_ok. apply and_iff_compat_l.
  rewrite !branch_ok, !seq_ok, !requireStringField_ok, !requireNumericField_ok.
  assert ((match raw_get step "goal" with
    | None => Err (invalidTaskDefinition "goal is required")
    | Some rawGoal =>
      match unmarshal_rawmap rawGoal with
      | None => Err (invalidTaskDefinition "goal must be an object")
      | Some goal => _ ← requireNumericField goal "x"; requireNumericField goal "y"
      end
    end = Ok tt) ↔ ∃ raw goal, raw_get step "goal" = Some raw ∧ unmarshal_rawmap raw = Some goal ∧
          has_number goal "x" ∧ has_number goal "y") as ->.
  { destruct (raw_get step "goal") as [raw|]; [|by split; [|intros (? & ? & ? & _)]].
    destruct (unmarshal_rawmap raw) as [goal|] eqn:Hg.
    - rewrite seq_ok, !requireNumericField_ok. split.
      + intros ?. by exists raw, goal.
      + intros (? & ? & [= <-] & ? & ?). by simplify_eq.
    - split; [done|]. intros (? & ? & [= <-] & ? & ?). congruence. }
  set (Pg := ∃ raw goal, _). split.
  - intros [[-> ?]|[_ [[-> ?]|[_ [[-> ?]|[_ [[? _]|[_ ?]]]]]]]]; auto 6; done.
  - intros [[-> ?]|[[-> ?]|[[-> ?]|Ha]]].
    + by left.
    + right; split; [done|]. by left.
    + do 2 (right; split; [done|]). by left.
    + do 3 (right; split; [set_solver|]). by left.
Qed.

Lemma validateEffectClassField_ok node : validateEffectClassField node = Ok tt ↔ effect_class_ok node.
Proof.
  unfold validateEffectClassField, effect_class_ok, absent_or, unmarshal_string.
  destruct (decodes_cases node "effect_class" dec_string "")
    as [[-> Hn]|(raw & v & ok & -> & -> & Hd)]; [by split; [left|]|].
  setoid_rewrite Hd. destruct ok; cbn [negb].
  - rewrite branch_ok. split.
    + intros [[? _]|[_ ?]]; [|done]. right. by exists v.
    + intros [?|(s & [_ ->] & ?)]; [done|]. by left.
  - split; [done|]. by intros [?|(s & [? _] & _)].
Qed.

Lemma validateExecutionGraphSlotFields_ok node :
  validateExecutionGraphSlotFields node = Ok tt ↔ slots_ok node.
Proof.
  unfold validateExecutionGraphSlotFields, slots_ok, absent_or, has_text, unmarshal_string.
  rewrite seq_ok. apply and_iff_compat2.
  - destruct (decodes_cases node "write_slot" dec_string "")
      as [[-> Hn]|(raw & v & ok & -> & -> & Hd)]; [by split; [left|]|].
    setoid_rewrite Hd. rewrite guard_err_ok, orb_false_iff, negb_false_iff, bool_decide_eq_false. split.
    + intros [-> ?]. right. by exists v.
    + by intros [?|(s & [-> ->] & ?)].
  - destruct (decodes_cases node "read_slots" (dec_list "" dec_string) [])
      as [[-> Hn]|(raw & v & ok & -> & -> & Hd)]; [by split; [left|]|].
    setoid_rewrite Hd. destruct ok; cbn [negb].
    + rewrite res_forM_ok. setoid_rewrite guard_err_ok. setoid_rewrite bool_decide_eq_false. split.
      * intros ?. right. by exists v.
      * by intros [?|(l & [_ ->] & ?)].
    + split; [done|]. by intros [?|(l & [? _] & _)].
Qed.

Lemma tree_ok {A} (x : option A) e : (match x with None => Err e | Some _ => Ok tt end) = Ok tt ↔ is_Some x.
Proof. destruct x; split; [by exists a|done|done|by intros [? ?]]. Qed.

(** A chain of tests on one string, against the matching disjunction. *)
Ltac string_chain :=
  rewrite ?branch_ok; split;
  [ intros Hb; repeat (destruct Hb as [[-> ?]|[_ Hb]]; [tauto|]); done
  | intros Hb; repeat (destruct Hb as [[-> ?]|Hb]; [repeat (right; split; [done|]); by left|]);
    destruct Hb as [-> ?]; repeat (right; split; [done|]); by left ].

Lemma validateExecutionGraphNode_ok node : validateExecutionGraphNode node = Ok tt ↔ node_ok node.
Proof.
  unfold validateExecutionGraphNode, node_ok.
  rewrite seq_ok, requireStringField_ok. apply and_iff_compat_l.
  rewrite seq_ok, validateExecutionGraphSlotFields_ok. apply and_iff_compat_l.
  rewrite res_bind_ok, <-validateEffectClassField_ok.
  setoid_rewrite seq_ok. setoid_rewrite readStringField_ok.
  rewrite (and_comm (validateEffectClassField node = Ok tt)), <-exists_and_r.
  apply exist_proper. intros kind. rewrite Logic.and_assoc. apply and_iff_compat_l. apply and_iff_compat_r.
  rewrite !branch_ok, seq_ok, require_array_unit, tree_ok, !requireStringField_ok,
    validateRoboticsActionPayload_ok. string_chain.
Qed.

Lemma validateExecutionGraph_ok definition : validateExecutionGraph definition = Ok tt ↔ graph_ok definition.
Proof.
  unfold validateExecutionGraph, graph_ok.
  destruct (raw_get definition "graph") as [raw|]; [|by split; [|intros (? & ? & ? & _)]].
  destruct (unmarshal_rawmap raw) as [graph|] eqn:Hg.
  2:{ split; [done|]. intros (? & ? & [= <-] & ? & _). congruence. }
  transitivity (elements_ok graph "nodes" node_ok).
  2:{ split; [by eauto|]. intros (? & ? & [= <-] & ? & ?). by simplify_eq. }
  rewrite <-(elements_check_ok graph "nodes" (indexed "execution_graph.graph.nodes")
    _ _ (invalidTaskDefinition "execution_graph.graph.nodes must contain at least one node")
    validateExecutionGraphNode_ok).
  setoid_rewrite <-requireArrayField_ok.
  destruct (requireArrayField graph "nodes") as [nodes|e]; split.
  - intros ?. by exists nodes.
  - by intros (? & [= <-] & ?).
  - done.
  - by intros (? & ? & _).
Qed.

Lemma validate_agent_step_ok step : validate_agent_step step = Ok tt ↔ agent_step_ok step.
Proof.
  unfold validate_agent_step, agent_step_ok.
  by rewrite !seq_ok, require_array_unit, requireNumericField_ok, requireStringField_ok.
Qed.

Lemma validate_robotics_step_ok step :
  validate_robotics_step step = Ok tt ↔ has_number step "step_index" ∧ robotics_ok step.
Proof.
  unfold validate_robotics_step, validateRoboticsStep.
  rewrite !seq_ok, requireNumericField_ok, validateRoboticsActionPayload_ok. tauto.
Qed.

Lemma validate_inference_ok definition :
  validate_inference definition = Ok tt ↔
  has_text definition "model" ∧ has_array definition "messages" ∧ not_streaming definition.
Proof.
  unfold validate_inference, not_streaming, absent_or.
  rewrite seq_ok, requireStringField_ok. apply and_iff_compat_l.
  rewrite res_bind_ok. unfold has_array. setoid_rewrite requireArrayField_ok. rewrite exists_and_r.
  apply and_iff_compat_l.
  destruct (decodes_cases definition "stream" dec_bool false)
    as [[-> Hn]|(raw & v & ok & -> & -> & Hd)]; [by split; [left|]|].
  rewrite Hd. destruct ok; cbn [negb]; [rewrite guard_err_ok|]; naive_solver.
Qed.

(** A step array with checks before the loop. *)
Lemma steps_ok m (pre : res ()) (w : nat → string) check P e :
  (∀ x, check x = Ok tt ↔ P x) →
  (l ← requireArrayField m "steps"; _ ← pre;
   _ ← guard_err (bool_decide (l = [])) e;
   res_forMi (λ idx, validate_element (w idx) check) 0 l) = Ok tt ↔
  pre = Ok tt ∧ elements_ok m "steps" P.
Proof.
  intros Hc. rewrite <-(elements_check_ok m "steps" w check P e Hc), res_bind_ok.
  split.
  - intros (l & Hl%requireArrayField_ok & Hk). apply seq_ok in Hk as [? Hk]. eauto.
  - intros (? & l & Hl & Hk). exists l. split; [by apply requireArrayField_ok|]. by apply seq_ok.
Qed.

Lemma validate_ok taskType definition :
  validateTaskDefinition taskType definition = Ok tt ↔ well_formed taskType definition.
Proof.
  unfold validateTaskDefinition, well_formed. rewrite !branch_ok.
  rewrite validate_inference_ok, tree_ok.
  rewrite (steps_ok _ _ _ _ _ _ validate_agent_step_ok).
  pose proof (steps_ok definition (Ok tt) (indexed "robotics_workflow.steps") _ _
    (invalidTaskDefinition "robotics_workflow.steps must contain at least one step")
    validate_robotics_step_ok) as Hr. unfold mbind, res_bind in Hr.
  rewrite !seq_ok, validateExecutionGraph_ok, validateOptionalBoolField_ok,
    validateOptionalPositiveUint32Field_ok.
  unfold mbind, res_bind. rewrite Hr. string_chain.
Qed.
End Validators.

(** ** Properties *)

Section Properties.
Context `{Ext}.

(** C33: validation decides well-formedness.  [validateTaskDefinition] accepts a
    definition exactly when it is one of the five task types with the fields
    that type needs: a non-streaming inference, non-empty arrays of agent or
    robotics steps, a tree, or a non-empty graph of known node kinds whose slots
    and effect classes are well formed. *)
Theorem task_definition_validation_exact taskType definition :
  validateTaskDefinition taskType definition = Ok tt ↔ well_formed taskType definition.
Proof. apply validate_ok. Qed.

Lemma well_formed_not_nil taskType : ¬ well_formed taskType None.
Proof.
  unfold well_formed, has_text, elements_ok, graph_ok, decodes. cbn.
  intros [(_ & (? & (? & ? & _) & _) & _)|[(_ & _ & ? & (? & ? & _) & _)|
    [(_ & ? & (? & ? & _) & _)|[(_ & ? & ?)|(_ & _ & _ & ? & ? & ? & _)]]]]; done.
Qed.

(** Every validation error is an invalid-definition error. *)
Lemma invalid_is msg : errors_is (invalidTaskDefinition msg) ErrInvalidTaskDefinition = true.
Proof. done. Qed.

Definition invalid_or_ok {A} (r : res A) : Prop :=
  match r with Ok _ => True | Err e => errors_is e ErrInvalidTaskDefinition = true end.

Lemma invalid_bind {A B} (r : res A) (k : A → res B) :
  invalid_or_ok r → (∀ a, invalid_or_ok (k a)) → invalid_or_ok (r ≫= k).
Proof. destruct r; unfold mbind; cbn; auto. Qed.

Lemma invalid_guard c msg : invalid_or_ok (guard_err c (invalidTaskDefinition msg)).
Proof. by destruct c. Qed.

Lemma invalid_forMi {A} (f : nat → A → res ()) i l :
  (∀ j x, invalid_or_ok (f j x)) → invalid_or_ok (res_forMi f i l).
Proof. intros Hf. revert i. induction l; intros i; cbn [res_forMi]; [done|]. apply invalid_bind; auto. Qed.

Lemma invalid_forM {A} (f : A → res ()) l : (∀ x, invalid_or_ok (f x)) → invalid_or_ok (res_forM f l).
Proof. intros Hf. induction l; cbn [res_forM]; [done|]. apply invalid_bind; auto. Qed.

Lemma invalid_element w check raw : invalid_or_ok (validate_element w check raw).
Proof. unfold validate_element. destruct (unmarshal_rawmap raw); [|done]. by destruct (check _). Qed.

(** Walks a validator: sequences, loops, guards, conditionals and decoders. *)
Ltac invalid_tac :=
  repeat first
    [ done | apply invalid_guard | apply invalid_element
    | apply invalid_bind; [|intros ?] | apply invalid_forMi; intros ? ? | apply invalid_forM; intros ?
    | case_goal ].

Lemma read_invalid m f : invalid_or_ok (readStringField m f).
Proof. unfold readStringField. invalid_tac. Qed.
Lemma string_invalid m f : invalid_or_ok (requireStringField m f).
Proof. apply invalid_bind; [apply read_invalid|]. intros. apply invalid_guard. Qed.
Lemma array_invalid m f : invalid_or_ok (requireArrayField m f).
Proof. unfold requireArrayField. invalid_tac. Qed.
Lemma uint32_invalid m f : invalid_or_ok (validateOptionalPositiveUint32Field m f).
Proof. unfold validateOptionalPositiveUint32Field. invalid_tac. Qed.
Lemma bool_invalid m f : invalid_or_ok (validateOptionalBoolField m f).
Proof. unfold validateOptionalBoolField. invalid_tac. Qed.

Lemma validate_invalid taskType definition : invalid_or_ok (validateTaskDefinition taskType definition).
Proof.
  unfold validateTaskDefinition, validate_inference, validateExecutionGraph.
  repeat first [apply read_invalid | apply string_invalid | apply array_invalid | apply uint32_invalid
    | apply bool_invalid | progress invalid_tac ].
Qed.

(** Normalization is safe.  For every task type and every text it returns
    (no assignment to a nil map, also for the text [null]); an error is always
    [ErrInvalidTaskDefinition], which the API answers with a client error; and
    it succeeds only on a JSON object that is well formed for the type, with
    that object's members and the task type as its [type] member. *)
Theorem normalization_safe taskType raw :
  match normalizePublicTaskDefinition taskType raw with
  | None => False
  | Some (Err e) => errors_is e ErrInvalidTaskDefinition = true
  | Some (Ok normalized) =>
    ∃ m, unmarshal_rawmap raw = Some (Some m) ∧ well_formed taskType (Some m) ∧
      marshal_rawmap (<["type" := str_text taskType]> m) = Some normalized
  end.
Proof.
  unfold normalizePublicTaskDefinition. destruct (unmarshal_rawmap raw) as [definition|] eqn:Hu; [|done].
  pose proof (validate_invalid taskType definition) as Hi.
  destruct (validateTaskDefinition taskType definition) as [[]|e] eqn:Hv; [|exact Hi].
  apply validate_ok in Hv. destruct definition as [m|]; [|by apply well_formed_not_nil in Hv].
  cbn [mbind option_bind]. destruct (marshal_rawmap _) eqn:Hm; [|done]. by exists m.
Qed.

(** The effect class recovery reads is the one validation accepted.  In an
    accepted execution graph every node's class, as [nodeEffectClass] reads it,
    is one of the three declared ones, or empty exactly when the node declares
    none; so only nodes without a class are left to the text heuristic. *)
Theorem accepted_effect_classes definition rawGraph graph nodes node :
  validateTaskDefinition "execution_graph" definition = Ok tt →
  raw_get definition "graph" = Some rawGraph → unmarshal_rawmap rawGraph = Some graph →
  requireArrayField graph "nodes" = Ok nodes → node ∈ nodes →
  ∃ m, unmarshal_rawmap node = Some m ∧
    (raw_get m "effect_class" = None ∧ nodeEffectClass node = "" ∧
       node_irreversible node = containsIrreversibleActionToken (ToLower node)
     ∨ is_Some (raw_get m "effect_class") ∧ nodeEffectClass node ∈ effect_classes ∧
       (node_irreversible node = true ↔ nodeEffectClass node = "irreversible")).
Proof.
  intros Hv Hraw Hg Hn Hin. apply validate_ok in Hv.
  destruct Hv as [[? _]|[[? _]|[[? _]|[[? _]|(_ & _ & _ & raw & g & Hraw' & Hg' & l & Hl & _ & HF)]]]]; try done.
  rewrite Hraw in Hraw'. injection Hraw' as <-. rewrite Hg in Hg'. injection Hg' as <-.
  apply requireArrayField_ok in Hl. rewrite Hn in Hl. injection Hl as <-.
  rewrite Forall_forall in HF. destruct (HF node Hin) as (m & Hm & _ & _ & He & _).
  exists m. split; [done|]. unfold node_irreversible, nodeEffectClass, unmarshal_string. rewrite Hm.
  destruct He as [->|(s & (r & -> & ->) & Hs)].
  - left. by split_and!.
  - right. split_and!; [done..|]. destruct (decide (ToLower (TrimSpace s) = "irreversible")) as [->|Hne].
    + done.
    + rewrite (bool_decide_false _ Hne). rewrite bool_decide_false; [done|]. intros Heq. rewrite Heq in Hs.
      unfold effect_classes in Hs. set_solver.
Qed.
End Properties.

(** ** Evaluation on concrete definitions *)
Module TaskDefExample.
#[local] Existing Instance demo_ext.

Definition tool_node : string :=
  obj_text [("node_id", str_text "n1"); ("kind", str_text "tool"); ("tool_name", str_text "http");
            ("effect_class", str_text " Irreversible ")].
Definition graph_text : string := obj_text [("nodes", arr_text [tool_node])].
Definition definition_text : string := obj_text [("graph", graph_text)].

(** A graph is accepted and comes back with its type. *)
Lemma graph_normalized :
  normalizePublicTaskDefinition "execution_graph" definition_text =
  Some (Ok (obj_text [("graph", graph_text); ("type", str_text "execution_graph")])).
Proof. vm_compute. reflexivity. Qed.

(** The literal [null] is an object to the decoder, and rejected. *)
Lemma null_rejected :
  is_ok <$> normalizePublicTaskDefinition "behavior_tree" "null" = Some false.
Proof. vm_compute. reflexivity. Qed.

Lemma accepted_effect_classes_witness :
  nodeEffectClass tool_node = "irreversible" ∧
  ∃ m, unmarshal_rawmap tool_node = Some m ∧
    (raw_get m "effect_class" = None ∧ nodeEffectClass tool_node = "" ∧
       node_irreversible tool_node = containsIrreversibleActionToken (ToLower tool_node)
     ∨ is_Some (raw_get m "effect_class") ∧ nodeEffectClass tool_node ∈ effect_classes ∧
       (node_irreversible tool_node = true ↔ nodeEffectClass tool_node = "irreversible")).
Proof.
  split; [vm_compute; reflexivity|].
  apply (accepted_effect_classes (Some {["graph" := graph_text]}) graph_text
           (Some {["nodes" := arr_text [tool_node]]}) [tool_node] tool_node).
  - vm_compute. reflexivity.
  - vm_compute. reflexivity.
  - vm_compute. reflexivity.
  - vm_compute. reflexivity.
  - set_solver.
Defined.
End TaskDefExample.
