(* ===== verification/Store.v ===== *)
(** * The durable store

    coordinator/checkpoint_store.go and the store half of
    coordinator/execution_governance.go: the tables, every SQL statement that
    changes task state, and the predicates the callers use.

    - The database is a record of tables.  A row of [task_records] is keyed by
      its primary key; append-only tables are lists in insertion order.  The
      constraints the statements rely on (unique indexes, foreign keys, checks,
      from database/migrations/031, 057, 070 and 072) are part of the statements.
    - One SQL statement is one atomic step.  Its outcome is decided by the next
      [fault] of the world: it succeeds, fails without effect, or takes effect
      while the caller sees an error (a lost connection).  A transaction works
      on a copy that [Commit] publishes, again subject to a fault.
    - A JSONB column holds the text PostgreSQL returns for it.  The text of a
      checkpoint goes through [CheckpointCodec]. *)

From S2P Require Import Prelude GoStrings Json Ext WalCodec Checkpoint Types Capability Governance.
Open Scope Z_scope.

(** ** Tables *)

Record task_row := mkRow {
  r_task_id : uuid;
  r_tenant_id : string;
  r_status : TaskRecordStatus;
  r_runtime_id : option string;
  r_runtime_endpoint : option string;
  r_task_definition : string;
  r_last_checkpoint : option string;
  r_execution_envelope : option string;
  r_execution_receipt : option string;
  r_proof_execution_id : option string;
  r_proof_expected_hash : option string;
  r_proof_stored_hash : option string;
  r_proof_signature : option string;
  r_proof_status : option string;
  r_proof_checked_at : option time;
  r_proof_verified : option bool;
  r_proof_hash_valid : option bool;
  r_proof_signature_matches : option bool;
  r_proof_runtime_key_found : option bool;
  r_proof_chain_link_valid : option bool;
  r_proof_verification_reason : option string;
  r_proof_verified_at : option time;
  r_idempotency_key : string;
  r_failure_reason : option string;
  r_failure_details : option string;
  r_deadline_at : option time;
  r_dispatched_at : option time;
  r_completed_at : option time;
  r_canceled_at : option time;
  r_created_at : time;
  r_attempt_count : option Z;
  r_has_irreversible_effect : option bool;
  r_executed_target : option string;
  r_fallback_reason : option string;
  r_registered_agent_id : option uuid;
  r_registered_agent_name : string;
  r_latest_policy_decision_id : option uuid;
  r_checkpoint_portability : string;
}.

#[export] Instance set_r_status : Setter r_status := _.
#[export] Instance set_r_runtime_id : Setter r_runtime_id := _.
#[export] Instance set_r_runtime_endpoint : Setter r_runtime_endpoint := _.
#[export] Instance set_r_last_checkpoint : Setter r_last_checkpoint := _.
#[export] Instance set_r_execution_envelope : Setter r_execution_envelope := _.
#[export] Instance set_r_execution_receipt : Setter r_execution_receipt := _.
#[export] Instance set_r_proof_execution_id : Setter r_proof_execution_id := _.
#[export] Instance set_r_proof_expected_hash : Setter r_proof_expected_hash := _.
#[export] Instance set_r_proof_stored_hash : Setter r_proof_stored_hash := _.
#[export] Instance set_r_proof_signature : Setter r_proof_signature := _.
#[export] Instance set_r_proof_status : Setter r_proof_status := _.
#[export] Instance set_r_proof_checked_at : Setter r_proof_checked_at := _.
#[export] Instance set_r_proof_verified : Setter r_proof_verified := _.
#[export] Instance set_r_proof_hash_valid : Setter r_proof_hash_valid := _.
#[export] Instance set_r_proof_signature_matches : Setter r_proof_signature_matches := _.
#[export] Instance set_r_proof_runtime_key_found : Setter r_proof_runtime_key_found := _.
#[export] Instance set_r_proof_chain_link_valid : Setter r_proof_chain_link_valid := _.
#[export] Instance set_r_proof_verification_reason : Setter r_proof_verification_reason := _.
#[export] Instance set_r_proof_verified_at : Setter r_proof_verified_at := _.
#[export] Instance set_r_failure_reason : Setter r_failure_reason := _.
#[export] Instance set_r_failure_details : Setter r_failure_details := _.
#[export] Instance set_r_dispatched_at : Setter r_dispatched_at := _.
#[export] Instance set_r_completed_at : Setter r_completed_at := _.
#[export] Instance set_r_canceled_at : Setter r_canceled_at := _.
#[export] Instance set_r_executed_target : Setter r_executed_target := _.
#[export] Instance set_r_attempt_count : Setter r_attempt_count := _.
#[export] Instance set_r_has_irreversible_effect : Setter r_has_irreversible_effect := _.
#[export] Instance set_r_latest_policy_decision_id : Setter r_latest_policy_decision_id := _.
#[export] Instance set_r_checkpoint_portability : Setter r_checkpoint_portability := _.

Record wal_row := mkWalRow {
  wr_task_id : uuid;
  wr_step_index : Z;
  wr_checkpoint_digest : string;
  wr_wal_entries : string;
}.

Record bound_run_row := mkBoundRun {
  br_task_id : uuid;
  br_tenant_id : string;
  br_bound : BoundActionRunIdentity;
}.

Record binding_row := mkBinding {
  bi_id : uuid;
  bi_tenant_id : string;
  bi_contract_hash : string;
  bi_target_action_id : uuid;
  bi_target_version_hash : string;
  bi_idempotency_required : bool;
}.

(** The server stamps a row with an id and, in the order of the appends, with a
    time: here its position. *)
Record reconciliation_row := mkReconciliation {
  rc_tenant_id : string;
  rc_task_id : uuid;
  rc_bound : BoundActionRunIdentity;
  rc_idempotency_digest : string;
  rc_event_type : string;
  rc_resolution : option string;
  rc_actor_type : string;
  rc_actor_id : string;
  rc_actor_email : option string;
  rc_reason : string;
  rc_external_reference : option (string * string);
  rc_target_host : option string;
  rc_source_status_code : option Z;
  rc_operator_request_id : option uuid;
}.

Record approval_row := mkApproval {
  ap_decision_id : uuid;
  ap_tenant_id : string;
  ap_task_id : uuid;
  ap_status : string;
  ap_requested_reason : string;
  ap_decided_by : option string;
  ap_decided_at : option time;
  ap_decision_reason : option string;
}.

Record boundary_row := mkBoundaryRow {
  bo_tenant_id : string;
  bo_task_id : uuid;
  bo_runtime_id : string;
  bo_policy_decision_id : uuid;
  bo_allowed_tools : string;
  bo_denied_tools : string;
  bo_network_scope : string;
  bo_filesystem_scope : string;
  bo_api_scope : string;
  bo_digest : string;
}.

Record lineage_row := mkLineage {
  li_tenant_id : option string;
  li_execution_id : string;
  li_receipt_hash : option string;
  li_signature : option string;
  li_previous_hash : string;
  li_transaction_id : string;
  li_transaction_hash : string;
  li_agent_id : string;
  li_cpu_time_ms : Z;
  li_wall_time_ms : Z;
  li_memory_peak_mb : Z;
  li_fs_bytes_written : Z;
  li_tool_calls : Z;
  li_violation_occurred : bool;
  li_runtime_id : option string;
  li_timestamp_utc : time;
  li_status : option string;
  li_prompt_preview : option string;
  li_violation_details : option string;
}.

Record DB := mkDB {
  task_records : gmap uuid task_row;
  wal_checkpoints : list wal_row;
  bound_runs : list bound_run_row;
  bindings : list binding_row;
  reconciliation_events : list reconciliation_row;
  policy_decisions : list ActionPolicyDecision;
  approval_requests : list approval_row;
  recovery_events : list RecoveryEvent;
  handoff_events : list RuntimeHandoffEvent;
  execution_boundaries : list boundary_row;
  execution_lineage : list lineage_row;
  lineage_trigger : bool; (* whether the trigger of migration 033 is installed *)
}.

#[export] Instance set_task_records : Setter task_records := _.
#[export] Instance set_wal_checkpoints : Setter wal_checkpoints := _.
#[export] Instance set_bound_runs : Setter bound_runs := _.
#[export] Instance set_reconciliation_events : Setter reconciliation_events := _.
#[export] Instance set_policy_decisions : Setter policy_decisions := _.
#[export] Instance set_approval_requests : Setter approval_requests := _.
#[export] Instance set_recovery_events : Setter recovery_events := _.
#[export] Instance set_handoff_events : Setter handoff_events := _.
#[export] Instance set_execution_boundaries : Setter execution_boundaries := _.
#[export] Instance set_execution_lineage : Setter execution_lineage := _.

(** ** The world of a running process *)

Inductive fault : Type :=
| FOk (* the statement runs *)
| FErr (* it fails and has no effect *)
| FErrApplied (* it takes effect, the caller sees an error *).

Record World := mkWorld {
  w_db : DB;
  w_faults : list fault; (* outcomes of the coming statements; [FOk] once exhausted *)
  w_now : time;
  w_next_uuid : nat;
}.

#[export] Instance set_w_db : Setter w_db := _.
#[export] Instance set_w_faults : Setter w_faults := _.
#[export] Instance set_w_now : Setter w_now := _.
#[export] Instance set_w_next_uuid : Setter w_next_uuid := _.

Definition sql_error : goerror := Errorf "driver: bad connection".
Definition constraint_error : goerror := Errorf "pq: constraint violation".

Definition next_fault : ST World fault := λ w,
  match w_faults w with
  | [] => (FOk, w)
  | f :: fs => (f, w {{ w_faults := fs }})
  end.

(** A statement outside a transaction: a function from tables to its result
    ([Err] for a constraint violation) and the new tables. *)
Definition stmt (A : Type) : Type := DB → res A * DB.

Definition exec {A} (q : stmt A) : ST World (res A) :=
  f ← next_fault;
  match f return ST World (res A) with
  | FOk => λ w, let '(r, db) := q (w_db w) in (r, w {{ w_db := db }})
  | FErr => mret (Err sql_error)
  | FErrApplied => λ w, let '(_, db) := q (w_db w) in (Err sql_error, w {{ w_db := db }})
  end.

(** A statement inside a transaction works on the transaction's copy; after an
    error the transaction can only be rolled back. *)
Definition tx_exec {A} (q : stmt A) (db : DB) : ST World (res (A * DB)) :=
  f ← next_fault;
  match f with
  | FOk => mret (let '(r, db') := q db in match r with Ok a => Ok (a, db') | Err e => Err e end)
  | _ => mret (Err sql_error)
  end.

Definition tx_begin : ST World (res DB) :=
  f ← next_fault;
  match f return ST World (res DB) with FOk => λ w, (Ok (w_db w), w) | _ => mret (Err sql_error) end.

Definition tx_commit (db : DB) : ST World (res ()) :=
  f ← next_fault;
  match f return ST World (res ()) with
  | FOk => λ w, (Ok tt, w {{ w_db := db }})
  | FErr => mret (Err sql_error)
  | FErrApplied => λ w, (Err sql_error, w {{ w_db := db }})
  end.

(** [uuid.New]: the [n]-th value of an injective stream. *)
Class UUIDSupply := uuid_supply : nat → uuid.

Definition new_uuid `{UUIDSupply} : ST World uuid := λ w,
  (uuid_supply (w_next_uuid w), w {{ w_next_uuid := S (w_next_uuid w) }}).

Definition time_now : ST World time := λ w, (w_now w, w).

(** ** Statement building blocks *)

(** [UPDATE task_records SET f WHERE task_id = id AND P]: rows affected. *)
Definition update_task (id : uuid) (P : task_row → bool) (f : task_row → task_row) : stmt Z := λ db,
  match task_records db !! id with
  | Some r => if P r then (Ok 1, db {{ task_records ::= <[id := f r]> }}) else (Ok 0, db)
  | None => (Ok 0, db)
  end.

Definition status_in (l : list TaskRecordStatus) (r : task_row) : bool :=
  bool_decide (r_status r ∈ l).

(** [SELECT ... WHERE task_id = id AND P]: the row, or [sql.ErrNoRows]. *)
Definition select_task (id : uuid) (P : task_row → bool) : stmt task_row := λ db,
  (match task_records db !! id with
   | Some r => if P r then Ok r else Err ErrNoRows
   | None => Err ErrNoRows
   end, db).

Definition taskTransitionResult (result : res Z) : res () :=
  match result with
  | Err e => Err e
  | Ok n => if n =? 0 then Err ErrTaskTransitionRejected else Ok tt
  end.

Definition exec_transition (q : stmt Z) : ST World (res ()) :=
  r ← exec q; mret (taskTransitionResult r).

(** [NULLIF(s, '')]. *)
Definition nullif_empty (s : string) : option string := if nonempty s then Some s else None.

(** ** Checkpoint text

    [json.Marshal] of a checkpoint, and [json.Unmarshal] of the text a JSONB
    column returns for it. *)
Class CheckpointCodec := {
  marshalCheckpoint : CheckpointPayload → res string;
  unmarshalCheckpoint : string → option CheckpointPayload;
}.

(** What survives the trip: identity, resume token and the identity, step and
    commitment of every entry. *)
Definition same_entry (e e' : WalEntry) : Prop :=
  EntryID e' = EntryID e ∧ we_TaskID e' = we_TaskID e ∧ StepIndex e' = StepIndex e ∧
  is_committed e' = is_committed e.
Definition same_checkpoint (cp cp' : CheckpointPayload) : Prop :=
  cp_TaskID cp' = cp_TaskID cp ∧ cp_ResumeToken cp' = cp_ResumeToken cp ∧
  Forall2 same_entry (WalEntries cp) (WalEntries cp').

Class CheckpointCodecLaws `{CheckpointCodec} : Prop :=
  checkpoint_roundtrip cp text :
    marshalCheckpoint cp = Ok text →
    text ≠ "" ∧ ∃ cp', unmarshalCheckpoint text = Some cp' ∧ same_checkpoint cp cp'.

Section StoreOps.
Context `{Ext} `{CheckpointCodec} `{UUIDSupply}.

(** ** Creating tasks *)

Definition nullUUID (id : option uuid) : option uuid :=
  match id with
  | Some u => if bool_decide (u = uuid_Nil) then None else Some u
  | None => None
  end.

Definition new_row (task : TaskRecord) (definition : string) (now : time) : task_row :=
  mkRow (t_TaskID task) (t_TenantID task) TaskStatusPending None None (jsonb_text definition)
    None None None None None None None None None None None None None None None None
    (t_IdempotencyKey task) None None (t_DeadlineAt task) None None None now
    (Some 0) (Some false) None None (nullUUID (t_RegisteredAgentID task)) (t_RegisteredAgentName task)
    None CheckpointPortabilitySameRuntime.

Definition same_key (tenantID key : string) (r : task_row) : bool :=
  bool_decide (r_tenant_id r = tenantID) && bool_decide (r_idempotency_key r = key).

Definition find_by_key (tenantID key : string) (db : DB) : option task_row :=
  head (filter (λ r, same_key tenantID key r = true) ((map_to_list (task_records db)).*2)).

(** [INSERT ... ON CONFLICT (tenant_id, idempotency_key) DO NOTHING]. *)
Definition insert_task (task : TaskRecord) (definition : string) (now : time) : stmt Z := λ db,
  match find_by_key (t_TenantID task) (t_IdempotencyKey task) db with
  | Some _ => (Ok 0, db)
  | None =>
    match task_records db !! t_TaskID task with
    | Some _ => (Err constraint_error, db)
    | None => (Ok 1, db {{ task_records ::= <[t_TaskID task := new_row task definition now]> }})
    end
  end.

Fixpoint all_lower_hex (s : string) : bool :=
  match s with
  | "" => true
  | String a s' => (in_range 48 57 (zb a) || in_range 97 102 (zb a)) && all_lower_hex s'
  end.

Definition is_hash64 (s : string) : bool := bool_decide (slen s = 64%nat) && all_lower_hex s.

Definition binding_matches (tenantID : string) (b : BoundActionRunIdentity) (x : binding_row) : bool :=
  bool_decide (bi_id x = ba_BindingID b) && bool_decide (bi_tenant_id x = tenantID) &&
  bool_decide (bi_contract_hash x = ba_ContractHash b) &&
  bool_decide (bi_target_action_id x = ba_TargetActionID b) &&
  bool_decide (bi_target_version_hash x = ba_TargetVersionHash b).

(** The constraints of contract_bound_action_runs (migration 070). *)
Definition bound_run_admissible (db : DB) (row : bound_run_row) : bool :=
  let b := br_bound row in
  negb (existsb (λ x, bool_decide (br_task_id x = br_task_id row)) (bound_runs db)) &&
  negb (existsb (λ x, bool_decide (br_tenant_id x = br_tenant_id row) &&
                      bool_decide (ba_BusinessIdempotencyKey (br_bound x) = ba_BusinessIdempotencyKey b))
          (bound_runs db)) &&
  existsb (binding_matches (br_tenant_id row) b) (bindings db) &&
  bool_decide (is_Some (task_records db !! br_task_id row)) &&
  is_hash64 (ba_ContractHash b) && is_hash64 (ba_TargetVersionHash b) &&
  is_hash64 (ba_RequestFingerprint b).

Definition insert_bound_run (row : bound_run_row) : stmt () := λ db,
  if bound_run_admissible db row
  then (Ok tt, db {{ bound_runs ::= λ l, l ++ [row] }})
  else (Err constraint_error, db).

Definition bound_incomplete (b : BoundActionRunIdentity) : bool :=
  bool_decide (ba_BindingID b = uuid_Nil) || bool_decide (ba_TargetActionID b = uuid_Nil) ||
  bool_decide (TrimSpace (ba_ContractHash b) = "") ||
  bool_decide (TrimSpace (ba_TargetVersionHash b) = "") ||
  bool_decide (TrimSpace (ba_BusinessIdempotencyKey b) = "") ||
  bool_decide (TrimSpace (ba_RequestFingerprint b) = "").

(** Runs inside the transaction whose tables are [db]. *)
Definition insertBoundActionRun (task : TaskRecord) (db : DB) : ST World (res (() * DB)) :=
  match t_BoundAction task with
  | None => mret (Ok (tt, db))
  | Some bound =>
    if bound_incomplete bound then mret (Err (Errorf "bound action identity is incomplete"))
    else tx_exec (insert_bound_run (mkBoundRun (t_TaskID task) (t_TenantID task) bound)) db
  end.

Definition CreateTask (task : TaskRecord) : ST World (res bool) :=
  match marshal_raw (t_TaskDefinition task) with
  | Err e => mret (Err (Wrapf "marshal task definition: " e ""))
  | Ok defBytes =>
    match t_BoundAction task with
    | Some _ =>
      db ←? tx_begin;
      now ← time_now;
      '(rowsAffected, db) ←? tx_exec (insert_task task defBytes now) db;
      if rowsAffected =? 0 then (tx_commit db ;;? mret (Ok false))
      else
        '(_, db) ←? insertBoundActionRun task db;
        tx_commit db ;;? mret (Ok true)
    | None =>
      now ← time_now;
      rowsAffected ←? exec (insert_task task defBytes now);
      mret (Ok (rowsAffected =? 1))
    end
  end.

(** ** Status transitions *)

Definition MarkDispatched (taskID : uuid) (runtimeID runtimeEndpoint : string) : ST World (res ()) :=
  now ← time_now;
  exec_transition (update_task taskID (status_in [TaskStatusPending; TaskStatusRecovering])
    (λ r, r {{ r_status := TaskStatusDispatched; r_runtime_id := Some runtimeID;
               r_runtime_endpoint := Some runtimeEndpoint; r_dispatched_at := Some now }})).

Definition MarkCompleted (taskID : uuid) : ST World (res ()) :=
  now ← time_now;
  exec_transition (update_task taskID
    (status_in [TaskStatusDispatched; TaskStatusCheckpointed; TaskStatusRecovering])
    (λ r, r {{ r_status := TaskStatusCompleted; r_completed_at := Some now }})).

Definition MarkCanceled (taskID : uuid) : ST World (res ()) :=
  now ← time_now;
  exec_transition (update_task taskID
    (status_in [TaskStatusPending; TaskStatusDispatched; TaskStatusCheckpointed; TaskStatusRecovering])
    (λ r, r {{ r_status := TaskStatusCanceled; r_canceled_at := Some now }})).

Definition MarkApprovalRequired (taskID : uuid) (reason : string) : ST World (res ()) :=
  exec_transition (update_task taskID (status_in [TaskStatusPending; TaskStatusRecovering])
    (λ r, r {{ r_status := TaskStatusApprovalRequired; r_failure_reason := Some reason }})).

Definition tenant_is (tenantID : string) (r : task_row) : bool := bool_decide (r_tenant_id r = tenantID).

Definition MarkApprovedDispatched (taskID : uuid) (tenantID runtimeID runtimeEndpoint approvedBy : string)
    : ST World (res ()) :=
  now ← time_now;
  exec_transition (update_task taskID
    (λ r, tenant_is tenantID r && status_in [TaskStatusApprovalRequired] r)
    (λ r, r {{ r_status := TaskStatusDispatched; r_runtime_id := Some runtimeID;
               r_runtime_endpoint := Some runtimeEndpoint; r_dispatched_at := Some now;
               r_failure_reason := None }})).

Definition details_text (details : option TaskFailureDetails) : option string :=
  TaskFailureDetails_text <$> details.

Definition MarkApprovalRejected (taskID : uuid) (tenantID reason : string)
    (details : option TaskFailureDetails) : ST World (res ()) :=
  exec_transition (update_task taskID
    (λ r, tenant_is tenantID r && status_in [TaskStatusApprovalRequired] r)
    (λ r, r {{ r_status := TaskStatusFailed; r_failure_reason := Some reason;
               r_failure_details := jsonb_text <$> details_text details }})).

(** [UPDATE ... SET status = 'recovering' WHERE runtime_id = $1 AND status IN
    ('dispatched', 'checkpointed') RETURNING task_id]. *)
Definition recoverable_on (runtimeID : string) (r : task_row) : bool :=
  bool_decide (r_runtime_id r = Some runtimeID) &&
  status_in [TaskStatusDispatched; TaskStatusCheckpointed] r.

Definition mark_recovering (runtimeID : string) : stmt (list uuid) := λ db,
  (Ok ((map_to_list (filter (λ p, recoverable_on runtimeID p.2 = true) (task_records db))).*1),
   db {{ task_records ::= fmap (λ r, if recoverable_on runtimeID r
                                     then r {{ r_status := TaskStatusRecovering }} else r) }}).

Definition MarkRecovering (runtimeID : string) : ST World (res (list uuid)) :=
  exec (mark_recovering runtimeID).

(** ** Failure *)

Definition fail_row (reason : string) (detailBytes : option string) (r : task_row) : task_row :=
  r {{ r_status := TaskStatusFailed; r_failure_reason := Some reason;
       r_failure_details := jsonb_text <$> detailBytes }}.

Definition mark_failed (taskID : uuid) (reason : string) (detailBytes : option string) : stmt Z :=
  update_task taskID
    (status_in [TaskStatusDispatched; TaskStatusCheckpointed; TaskStatusRecovering])
    (fail_row reason detailBytes).

Definition markFailedRecord (taskID : uuid) (reason : string) (detailBytes : option string)
    : ST World (res ()) :=
  exec_transition (mark_failed taskID reason detailBytes).

Definition ensureTaskFailedRecord (taskID : uuid) (reason : string) (detailBytes : option string)
    : ST World (res ()) :=
  r ← markFailedRecord taskID reason detailBytes;
  match r return ST World (res ()) with
  | Ok _ => mret (Ok tt)
  | Err e =>
    if negb (errors_is e ErrTaskTransitionRejected) then mret (Err e)
    else
      q ← exec (select_task taskID (λ _, true));
      match q return ST World (res ()) with
      | Ok row => mret (if bool_decide (r_status row = TaskStatusFailed) then Ok tt else Err e)
      | Err _ => mret (Err e)
      end
  end.

Definition IsTypedReconciliationFailure (details : option TaskFailureDetails) : bool :=
  match details with
  | None => false
  | Some d =>
    let host_len := Z.of_nat (slen (TrimSpace (fd_TargetHost d))) in
    if negb (fd_ReconciliationRequired d) ||
       negb (bool_decide (fd_EffectState d = "unknown_effect_state")) ||
       negb (bool_decide (fd_TargetErrorCode d = "idempotency_unresolved")) ||
       (fd_StatusCode d <? 400) || (599 <? fd_StatusCode d) ||
       negb (bool_decide (slen (fd_TargetResponseDigest d) = 64%nat)) ||
       (host_len <? 1) || (253 <? host_len)
    then false
    else match hex_decode (fd_TargetResponseDigest d) with
         | Some decoded => bool_decide (slen decoded = 32%nat)
         | None => false
         end
  end.

(** The observation row of one bound run: [INSERT ... SELECT] over the run, its
    binding and its task. *)
Definition observation_row (t : task_row) (run : bound_run_row) (d : TaskFailureDetails)
    : reconciliation_row :=
  mkReconciliation (br_tenant_id run) (br_task_id run) (br_bound run)
    (sha256_hex (ba_BusinessIdempotencyKey (br_bound run)))
    "unresolved_effect_observed" None "runtime"
    (default "runtime:unknown" (r_runtime_id t ≫= nullif_empty)) None
    "Runtime reported a typed unknown consequential effect; automatic replay is refused"
    (Some ("runtime_response_digest", fd_TargetResponseDigest d))
    (Some (TrimSpace (fd_TargetHost d))) (Some (fd_StatusCode d)) None.

Definition is_observation (x : reconciliation_row) : bool :=
  bool_decide (rc_event_type x = "unresolved_effect_observed").

Definition observed (tenantID : string) (taskID : uuid) (db : DB) : bool :=
  existsb (λ x, is_observation x && bool_decide (rc_tenant_id x = tenantID) &&
                bool_decide (rc_task_id x = taskID)) (reconciliation_events db).

(** The run qualifies when its binding requires a business idempotency key and
    its task belongs to its tenant. *)
Definition run_observable (db : DB) (taskID : uuid) (run : bound_run_row) : bool :=
  bool_decide (br_task_id run = taskID) &&
  existsb (λ b, binding_matches (br_tenant_id run) (br_bound run) b && bi_idempotency_required b)
    (bindings db) &&
  match task_records db !! taskID with
  | Some t => bool_decide (r_tenant_id t = br_tenant_id run)
  | None => false
  end.

(** [ON CONFLICT DO NOTHING] on the one-observation-per-task index. *)
Definition add_observation (t : task_row) (taskID : uuid) (d : TaskFailureDetails) (db : DB)
    (run : bound_run_row) : DB :=
  if observed (br_tenant_id run) taskID db then db
  else db {{ reconciliation_events ::= λ l, l ++ [observation_row t run d] }}.

(** Migration 072: the append trigger compares the row with the stored failure
    details (whose host is not trimmed), and the table has checks of its own. *)
Definition observation_accepted (d : TaskFailureDetails) (x : reconciliation_row) : bool :=
  is_hash64 (fd_TargetResponseDigest d) && bool_decide (rc_target_host x = Some (fd_TargetHost d)) &&
  (Z.of_nat (length (runes (rc_actor_id x))) <=? 256) &&
  is_hash64 (ba_ContractHash (rc_bound x)) && is_hash64 (ba_TargetVersionHash (rc_bound x)) &&
  is_hash64 (rc_idempotency_digest x).

Definition insert_observation (taskID : uuid) (d : TaskFailureDetails) : stmt () := λ db,
  match task_records db !! taskID with
  | None => (Ok tt, db)
  | Some t =>
    let runs := filter (λ run, run_observable db taskID run = true) (bound_runs db) in
    if forallb (λ run, observation_accepted d (observation_row t run d)) runs
    then (Ok tt, foldl (add_observation t taskID d) db runs)
    else (Err constraint_error, db)
  end.

Definition MarkFailedWithDetails (taskID : uuid) (reason : string) (details : option TaskFailureDetails)
    : ST World (res ()) :=
  let detailBytes := details_text details in
  match details with
  | Some d =>
    if negb (IsTypedReconciliationFailure details) then markFailedRecord taskID reason detailBytes
    else
      t ← tx_begin;
      match t return ST World (res ()) with
      | Err _ => markFailedRecord taskID reason detailBytes
      | Ok db =>
        u ← tx_exec (mark_failed taskID reason detailBytes) db;
        match u return ST World (res ()) with
        | Err e => mret (Err e)
        | Ok (n, db) =>
          match taskTransitionResult (Ok n) with
          | Err e => mret (Err e)
          | Ok _ =>
            o ← tx_exec (insert_observation taskID d) db;
            match o return ST World (res ()) with
            | Err _ => markFailedRecord taskID reason detailBytes
            | Ok (_, db) =>
              c ← tx_commit db;
              match c return ST World (res ()) with
              | Err _ => ensureTaskFailedRecord taskID reason detailBytes
              | Ok _ => mret (Ok tt)
              end
            end
          end
        end
      end
  | None => markFailedRecord taskID reason detailBytes
  end.

Definition MarkFailed (taskID : uuid) (reason : string) : ST World (res ()) :=
  MarkFailedWithDetails taskID reason None.

(** ** Checkpoints *)

Definition decodeCheckpointPayload (cpBytes : option string) : option CheckpointPayload :=
  match cpBytes with
  | None => None
  | Some text => if bool_decide (text = "") then None else unmarshalCheckpoint text
  end.

Definition decodeHexToBytes (h : string) : string := default "" (hex_decode h).

(** wal_checkpoints.step_index is a 32-bit signed INTEGER. *)
Definition int32_max : Z := 2 ^ 31 - 1.

Definition insert_checkpoint (cp : CheckpointPayload) (text : string) : stmt () := λ db,
  if int32_max <? LastStep cp then (Err (Errorf "pq: integer out of range"), db)
  else (Ok tt, db {{ wal_checkpoints ::= λ l, l ++
          [mkWalRow (cp_TaskID cp) (LastStep cp)
             (decodeHexToBytes (CheckpointDigest (cp_ResumeToken cp))) text] }}).

Definition checkpoint_status (cp : CheckpointPayload) (text : string) : stmt Z :=
  update_task (cp_TaskID cp)
    (status_in [TaskStatusDispatched; TaskStatusCheckpointed; TaskStatusRecovering])
    (λ r, r {{ r_status := TaskStatusCheckpointed; r_last_checkpoint := Some text }}).

(** Whether the checkpoint the row holds, if it decodes, forbids [cp]. *)
Definition checkpoint_stale (r : task_row) (cp : CheckpointPayload) : bool :=
  match decodeCheckpointPayload (r_last_checkpoint r) with
  | Some current => negb (TaskCheckpointAdvances (Some current) (Some cp))
  | None => false
  end.

Definition wrap_err {A} (pre : string) (r : res A) : res A :=
  match r with Ok a => Ok a | Err e => Err (Wrapf pre e "") end.

Definition SaveCheckpoint (ocp : option CheckpointPayload) : ST World (res ()) :=
  if negb (TaskCheckpointWatermarkConsistent ocp) then mret (Err ErrTaskTransitionRejected)
  else if negb (TaskCheckpointEntriesBelongToTask ocp) then mret (Err ErrTaskTransitionRejected)
  else if negb (TaskCheckpointEntriesHaveStableIDs ocp) then mret (Err ErrTaskTransitionRejected)
  else match ocp with
  | None => mret (Err ErrTaskTransitionRejected)
  | Some cp =>
    match marshalCheckpoint cp with
    | Err e => mret (Err (Wrapf "marshal checkpoint: " e ""))
    | Ok cpBytes =>
      db ←? tx_begin;
      q ← tx_exec (select_task (cp_TaskID cp) (λ _, true)) db;
      match q return ST World (res ()) with
      | Err e =>
        mret (Err (if bool_decide (e = ErrNoRows) then ErrTaskTransitionRejected
                   else Wrapf "load current checkpoint: " e ""))
      | Ok (row, db) =>
        if checkpoint_stale row cp then mret (Err ErrTaskTransitionRejected)
        else
          u ← tx_exec (checkpoint_status cp cpBytes) db;
          '(n, db) ←? mret (wrap_err "update task record: " u);
          mret (taskTransitionResult (Ok n)) ;;?
          i ← tx_exec (insert_checkpoint cp cpBytes) db;
          '(_, db) ←? mret (wrap_err "insert checkpoint: " i);
          tx_commit db
      end
    end
  end.

(** The rows of a task, [ORDER BY step_index ASC]. *)
Context `{SortSlice}.

Definition wal_rows (taskID : uuid) (db : DB) : list wal_row :=
  sort_slice wr_step_index (filter (λ x, wr_task_id x = taskID) (wal_checkpoints db)).

Definition select_wal (taskID : uuid) : stmt (list wal_row) := λ db, (Ok (wal_rows taskID db), db).

Definition json_decode_error : goerror := Errorf "json: cannot unmarshal checkpoint".

Fixpoint decode_rows (rows : list wal_row) : res (list CheckpointPayload) :=
  match rows with
  | [] => Ok []
  | row :: rows =>
    match unmarshalCheckpoint (wr_wal_entries row) with
    | None => Err json_decode_error
    | Some cp => decode_rows rows ≫= λ cps, Ok (cp :: cps)
    end
  end.

Definition GetAllCheckpoints (taskID : uuid) : ST World (res (list CheckpointPayload)) :=
  rows ←? exec (select_wal taskID); mret (decode_rows rows).

Definition GetCumulativeRecoveryCheckpoint (taskID : uuid) : ST World (res (option CheckpointPayload)) :=
  cps ←? GetAllCheckpoints taskID;
  mret (BuildCumulativeRecoveryCheckpoint taskID (Some <$> cps)).

(** [ORDER BY step_index DESC LIMIT 1]. *)
Definition GetLastCheckpoint (taskID : uuid) : ST World (res (option CheckpointPayload)) :=
  rows ←? exec (select_wal taskID);
  match last rows with
  | None => mret (Ok None)
  | Some row =>
    match unmarshalCheckpoint (wr_wal_entries row) with
    | None => mret (Err json_decode_error)
    | Some cp => mret (Ok (Some cp))
    end
  end.

(** First occurrence of each entry id. *)
Fixpoint dedup_entries (seen : gset uuid) (es : list WalEntry) : list WalEntry :=
  match es with
  | [] => []
  | e :: es =>
    if bool_decide (EntryID e ∈ seen) then dedup_entries seen es
    else e :: dedup_entries ({[ EntryID e ]} ∪ seen) es
  end.

Definition GetAllTaskSteps (taskID : uuid) : ST World (res (list WalEntry)) :=
  cps ←? GetAllCheckpoints taskID;
  mret (Ok (sort_slice StepIndex (dedup_entries ∅ (concat (WalEntries <$> cps))))).

(** ** Reading tasks *)

Definition row_proof (r : task_row) : option TaskProofState :=
  if bool_decide (is_Some (r_proof_execution_id r)) || bool_decide (is_Some (r_proof_expected_hash r)) ||
     bool_decide (is_Some (r_proof_stored_hash r)) || bool_decide (is_Some (r_proof_signature r)) ||
     bool_decide (is_Some (r_proof_status r)) || bool_decide (is_Some (r_proof_checked_at r)) ||
     bool_decide (is_Some (r_proof_verified r)) || bool_decide (is_Some (r_proof_hash_valid r)) ||
     bool_decide (is_Some (r_proof_signature_matches r)) ||
     bool_decide (is_Some (r_proof_runtime_key_found r)) ||
     bool_decide (is_Some (r_proof_chain_link_valid r)) ||
     bool_decide (is_Some (r_proof_verification_reason r)) || bool_decide (is_Some (r_proof_verified_at r))
  then Some (mkProofState (default "" (r_proof_execution_id r)) (default "" (r_proof_expected_hash r))
    (default "" (r_proof_stored_hash r)) (default "" (r_proof_signature r))
    (default "" (r_proof_status r)) (r_proof_checked_at r) (r_proof_verified r) (r_proof_hash_valid r)
    (r_proof_signature_matches r) (r_proof_runtime_key_found r) (r_proof_chain_link_valid r)
    (default "" (r_proof_verification_reason r)) (r_proof_verified_at r))
  else None.

(** The number of columns the task queries select, which has to be the number
    of destinations [scanTaskRecord] passes. *)
Definition scan_destinations : Z := 36.

Definition row_task (r : task_row) : TaskRecord :=
  let governance := extractTaskGovernanceFromDefinition (r_task_definition r) in
  mkTask (r_task_id r) (r_tenant_id r) (r_status r) (r_runtime_id r) (r_runtime_endpoint r)
    (r_task_definition r) (r_last_checkpoint r ≫= unmarshalCheckpoint)
    (default "" (r_execution_envelope r)) (default "" (r_execution_receipt r)) (row_proof r)
    (g_AgentIdentity governance) (g_RequiredCapabilities governance) (g_CredentialRequests governance)
    None (r_idempotency_key r) (r_failure_reason r)
    (match r_failure_details r with
     | Some text => if bool_decide (text = "") then None else unmarshalFailureDetails text
     | None => None
     end)
    (r_deadline_at r) (r_dispatched_at r) (r_completed_at r) (r_canceled_at r) (r_created_at r)
    (default 0 (r_attempt_count r)) (default false (r_has_irreversible_effect r))
    (r_executed_target r ≫= nullif_empty) (r_fallback_reason r ≫= nullif_empty)
    (r_registered_agent_id r) (r_registered_agent_name r) None.

Definition scanTaskRecord (columns : Z) (r : task_row) : res TaskRecord :=
  if columns =? scan_destinations then Ok (row_task r)
  else Err (Errorf ("sql: expected " +:+ itoa columns +:+ " destination arguments in Scan, not "
                    +:+ itoa scan_destinations)).

Definition GetTask (taskID : uuid) (tenantID : string) : ST World (res TaskRecord) :=
  row ←? exec (select_task taskID (tenant_is tenantID)); mret (scanTaskRecord 36 row).

Definition select_by_key (tenantID key : string) : stmt task_row := λ db,
  (match find_by_key tenantID key db with Some r => Ok r | None => Err ErrNoRows end, db).

Definition GetTaskByIdempotencyKey (tenantID idempotencyKey : string) : ST World (res TaskRecord) :=
  row ←? exec (select_by_key tenantID idempotencyKey); mret (scanTaskRecord 36 row).

Fixpoint scan_all (columns : Z) (rows : list task_row) : res (list TaskRecord) :=
  match rows with
  | [] => Ok []
  | r :: rows => scanTaskRecord columns r ≫= λ t, scan_all columns rows ≫= λ ts, Ok (t :: ts)
  end.

(** The rows that satisfy a condition, in the order of their creation time. *)
Definition rows_where (P : task_row → bool) (db : DB) : list task_row :=
  sort_slice r_created_at (filter (λ r, P r = true) ((map_to_list (task_records db)).*2)).

(** The query selects [attempt_count] and [has_irreversible_effect] nowhere:
    34 columns. *)
Definition GetRecoveringTasks : ST World (res (list TaskRecord)) :=
  rows ←? exec (λ db, (Ok (rows_where (status_in [TaskStatusRecovering]) db), db));
  mret (scan_all 34 rows).

(** [ORDER BY created_at DESC LIMIT n]. *)
Definition newest (limit : Z) (rows : list task_row) : list task_row :=
  take (Z.to_nat limit) (reverse rows).

Definition GetTasksByTenant (tenantID : string) (limit : Z) : ST World (res (list TaskRecord)) :=
  rows ←? exec (λ db, (Ok (newest limit (rows_where (tenant_is tenantID) db)), db));
  mret (scan_all 36 rows).

Definition GetTasksByTenantAndAgent (tenantID : string) (agentID : uuid) (limit : Z)
    : ST World (res (list TaskRecord)) :=
  rows ←? exec (λ db, (Ok (newest limit (rows_where (λ r, tenant_is tenantID r &&
                  bool_decide (r_registered_agent_id r = Some agentID)) db)), db));
  mret (scan_all 36 rows).

Definition select_bound (P : bound_run_row → bool) : stmt BoundActionRunIdentity := λ db,
  (match head (filter (λ x, P x = true) (bound_runs db)) with
   | Some x => Ok (br_bound x) | None => Err ErrNoRows end, db).

Definition GetBoundActionRunByIdempotency (tenantID key : string)
    : ST World (res BoundActionRunIdentity) :=
  exec (select_bound (λ x, bool_decide (br_tenant_id x = tenantID) &&
                           bool_decide (ba_BusinessIdempotencyKey (br_bound x) = key))).

Definition GetBoundActionRun (taskID : uuid) (tenantID : string) : ST World (res BoundActionRunIdentity) :=
  exec (select_bound (λ x, bool_decide (br_task_id x = taskID) && bool_decide (br_tenant_id x = tenantID))).

(** ** Other columns and tables *)

Definition ignore_count (m : ST World (res Z)) : ST World (res ()) := m ;;? mret (Ok tt).

Definition StampExecutedTarget (taskID : uuid) (tenantID executedTarget : string) : ST World (res ()) :=
  ignore_count (exec (update_task taskID (tenant_is tenantID)
    (λ r, r {{ r_executed_target := Some executedTarget }}))).

Definition SaveActionPolicyDecision (decision : ActionPolicyDecision) : ST World (res ()) :=
  if bool_decide (d_DecisionID decision = uuid_Nil) then mret (Ok tt)
  else exec (λ db,
    (Ok tt,
     if existsb (λ d, bool_decide (d_DecisionID d = d_DecisionID decision)) (policy_decisions db)
     then db else db {{ policy_decisions ::= λ l, l ++ [decision] }})).

Definition SaveApprovalRequest (decision : ActionPolicyDecision) : ST World (res ()) :=
  if negb (bool_decide (d_Decision decision = ActionDecisionApprovalRequired)) then mret (Ok tt)
  else exec (λ db,
    if existsb (λ d, bool_decide (d_DecisionID d = d_DecisionID decision)) (policy_decisions db)
    then (Ok tt, db {{ approval_requests ::= λ l, l ++
           [mkApproval (d_DecisionID decision) (d_TenantID decision) (d_TaskID decision) "pending"
              (d_PolicyReason decision) None None None] }})
    else (Err constraint_error, db)).

Definition ResolveApprovalRequest (taskID : uuid) (tenantID status decidedBy reason : string)
    : ST World (res ()) :=
  now ← time_now;
  exec (λ db, (Ok tt, db {{ approval_requests ::= fmap (λ a,
    if bool_decide (ap_tenant_id a = tenantID) && bool_decide (ap_task_id a = taskID) &&
       bool_decide (ap_status a = "pending")
    then mkApproval (ap_decision_id a) (ap_tenant_id a) (ap_task_id a) status (ap_requested_reason a)
           (nullif_empty decidedBy) (Some now) (nullif_empty reason)
    else a) }})).

Definition SetLatestPolicyDecision (taskID : uuid) (decision : ActionPolicyDecision) : ST World (res ()) :=
  if bool_decide (d_DecisionID decision = uuid_Nil) then mret (Ok tt)
  else ignore_count (exec (update_task taskID (λ _, true)
    (λ r, r {{ r_latest_policy_decision_id := Some (d_DecisionID decision);
               r_checkpoint_portability := d_CheckpointPortability decision }}))).

Definition SaveExecutionBoundary (decision : ActionPolicyDecision) (definition : string)
    (caps : list string) : ST World (res ()) :=
  let b := defaultExecutionBoundary definition caps in
  exec (λ db, (Ok tt, db {{ execution_boundaries ::= λ l, l ++
    [mkBoundaryRow (d_TenantID decision) (d_TaskID decision) (d_RuntimeID decision)
       (d_DecisionID decision) (nil_slice_text (b_allowedTools b)) (nil_slice_text (b_deniedTools b))
       (b_networkScope b) (b_fileScope b) (b_apiScope b) (b_digest b)] }})).

Definition SaveRecoveryEvent (event : RecoveryEvent) : ST World (res ()) :=
  if bool_decide (re_TaskID event = uuid_Nil) then mret (Ok tt)
  else
    id ← (if bool_decide (re_EventID event = uuid_Nil) then new_uuid else mret (re_EventID event));
    exec (λ db, (Ok tt, db {{ recovery_events ::= λ l, l ++
      [mkRecoveryEvent id (re_TenantID event) (re_TaskID event) (re_EventType event)
         (re_SourceRuntimeID event) (re_TargetRuntimeID event) (re_CheckpointDigest event)
         (re_LastCommittedStep event) (re_ReplayAllowed event) (re_Reason event)] }})).

Definition SaveRuntimeHandoffEvent (event : RuntimeHandoffEvent) : ST World (res ()) :=
  if bool_decide (he_TaskID event = uuid_Nil) then mret (Ok tt)
  else
    id ← (if bool_decide (he_EventID event = uuid_Nil) then new_uuid else mret (he_EventID event));
    exec (λ db, (Ok tt, db {{ handoff_events ::= λ l, l ++
      [mkHandoffEvent id (he_TenantID event) (he_TaskID event) (he_SourceRuntimeID event)
         (he_TargetRuntimeID event) (he_CheckpointDigest event) (he_CheckpointPortability event)
         (he_Decision event) (he_Reason event)] }})).
End StoreOps.

(** ** Status predicates the callers use *)

Definition TaskAllowsRuntimeMutation (status : TaskRecordStatus) : bool :=
  match status with
  | TaskStatusDispatched | TaskStatusCheckpointed | TaskStatusRecovering => true
  | _ => false
  end.

Definition TaskAllowsDispatch (status : TaskRecordStatus) : bool :=
  match status with TaskStatusPending | TaskStatusRecovering => true | _ => false end.

Definition TaskAllowsRecoveryRedispatch (status : TaskRecordStatus) : bool :=
  bool_decide (status = TaskStatusRecovering).

Definition TaskAllowsCancellation (status : TaskRecordStatus) : bool :=
  match status with
  | TaskStatusPending | TaskStatusDispatched | TaskStatusCheckpointed | TaskStatusRecovering => true
  | _ => false
  end.

Definition TaskAwaitingApproval (status : TaskRecordStatus) : bool :=
  bool_decide (status = TaskStatusApprovalRequired).

Definition TaskDurabilityClassForDefinition (taskDefinition : string) : TaskDurabilityClass :=
  if bool_decide (taskDefinition = "") then TaskDurabilityClassResumable
  else
    let '((type, stream), ok) :=
      unmarshal (dec_struct [("type", field fst (λ x p, (x, p.2)) dec_string);
                             ("stream", field snd (λ x p, (p.1, x)) dec_bool)]) taskDefinition ("", false) in
    if negb ok then TaskDurabilityClassResumable
    else if bool_decide (type = "single_inference") && stream
    then TaskDurabilityClassStreamingNonResumable else TaskDurabilityClassResumable.

Definition TaskSupportsRecoveryResume (task : option TaskRecord) : bool :=
  match task with
  | None => false
  | Some t => bool_decide (TaskDurabilityClassForDefinition (t_TaskDefinition t) = TaskDurabilityClassResumable)
  end.

Definition TaskRecoveryRedispatchEligible (task : option TaskRecord) : bool :=
  match task with
  | None => false
  | Some t => TaskAllowsRecoveryRedispatch (t_Status t) && TaskSupportsRecoveryResume task
  end.

Definition TaskRecoverySkipReason (task : option TaskRecord) : string :=
  match task with
  | None => ""
  | Some t =>
    if TaskAllowsRecoveryRedispatch (t_Status t)
    then if negb (TaskSupportsRecoveryResume task) then "streaming_resume_unsupported" else ""
    else match t_Status t with
    | TaskStatusCanceled => "task_canceled"
    | TaskStatusApprovalRequired => "approval_required"
    | TaskStatusCompleted => "task_completed"
    | TaskStatusFailed =>
      match t_FailureReason t with
      | Some reason =>
        if bool_decide (reason = "no runtime available for recovery") then "no_runtime_available_for_recovery"
        else if bool_decide (reason = TaskFailureReasonInvalidRecoveryCheckpoint) then "invalid_recovery_checkpoint"
        else if bool_decide (reason = TaskFailureReasonStreamingResumeUnsupported) then "streaming_resume_unsupported"
        else "task_failed"
      | None => "task_failed"
      end
    | _ => ""
    end
  end.
