(* ===== verification/ProofState.v ===== *)
(** * Cached proof state of a task

    coordinator/checkpoint_store.go: the proof columns of [task_records], which
    cache whether the receipt a task's runtime reported is the receipt stored in
    [execution_lineage].  The columns are written by the artifact update, by the
    synchronisation queries and by the trigger of
    database/migrations/033_task_proof_state.sql; [proof_truthful] is what all
    of them maintain. *)

From S2P Require Import Prelude GoStrings Json Ext WalCodec Checkpoint Types Capability Governance.
From S2P Require Import Store.
Open Scope Z_scope.

Definition proofPendingRefreshInterval : Z := 30 * Second.
Definition proofMissingRefreshInterval : Z := 2 * Minute.
Definition proofPresentRefreshInterval : Z := 10 * Minute.
Definition proofVerifiedRefreshInterval : Z := 30 * Minute.
Definition proofMismatchRefreshInterval : Z := 5 * Minute.

Definition TaskProofNeedsRefresh (proof : option TaskProofState) (now : time) : bool :=
  match proof with
  | None => false
  | Some p =>
    match ps_CheckedAt p with
    | None => true
    | Some checkedAt =>
      let age := now - checkedAt in
      let status := ps_Status p in
      if bool_decide (status = "") || bool_decide (status = "pending")
      then proofPendingRefreshInterval <=? age
      else if bool_decide (status = "missing") then proofMissingRefreshInterval <=? age
      else if bool_decide (status = "present") then proofPresentRefreshInterval <=? age
      else if bool_decide (status = "mismatch") then proofMismatchRefreshInterval <=? age
      else if bool_decide (status = "verified") then proofVerifiedRefreshInterval <=? age
      else proofMissingRefreshInterval <=? age
    end
  end.

Definition TaskProofNeedsReadReconciliation (proof : option TaskProofState) (now : time) : bool :=
  match proof with
  | None => false
  | Some p =>
    let status := ps_Status p in
    if bool_decide (status = "") || bool_decide (status = "pending") || bool_decide (status = "missing")
    then TaskProofNeedsRefresh proof now else false
  end.

(** A proof state with no verification summary. *)
Definition cached_proof (executionID expectedHash storedHash signature status : string)
    (checkedAt : option time) : TaskProofState :=
  mkProofState executionID expectedHash storedHash signature status checkedAt
    None None None None None "" None.

Definition buildTaskProofState (executionID expectedHash storedHash signature : string)
    (proofFound : bool) (checkedAt : time) : TaskProofState :=
  if negb proofFound then cached_proof executionID expectedHash "" "" "missing" (Some checkedAt)
  else
    let status :=
      if nonempty expectedHash && bool_decide (storedHash = expectedHash) then "verified"
      else if nonempty expectedHash then "mismatch" else "present" in
    cached_proof executionID expectedHash storedHash signature status (Some checkedAt).

Record proofRefsJSON := mkProofRefs { pr_ExecutionID : string; pr_ReceiptHash : string; pr_Hash : string }.
Definition proofRefs_fields : list (string * dec proofRefsJSON) :=
  [("execution_id", field pr_ExecutionID (λ x '(mkProofRefs _ b c), mkProofRefs x b c) dec_string);
   ("receipt_hash", field pr_ReceiptHash (λ x '(mkProofRefs a _ c), mkProofRefs a x c) dec_string);
   ("hash", field pr_Hash (λ x '(mkProofRefs a b _), mkProofRefs a b x) dec_string)].

Definition extractProofRefs (receipt : string) : string * string * bool :=
  if bool_decide (receipt = "") then ("", "", false)
  else
    let '(payload, ok) := unmarshal (dec_struct proofRefs_fields) receipt (mkProofRefs "" "" "") in
    if negb ok then ("", "", false)
    else if bool_decide (pr_ExecutionID payload = "") then ("", "", false)
    else if nonempty (pr_ReceiptHash payload) then (pr_ExecutionID payload, pr_ReceiptHash payload, true)
    else (pr_ExecutionID payload, pr_Hash payload, true).

(** [COALESCE(a, b)]. *)
Definition coalesce {A} (a b : option A) : option A := match a with Some _ => a | None => b end.

Section ProofOps.
Context `{Ext}.

Definition nullString (value : string) : option string := nullif_empty value.

(** The artifact columns of [SaveExecutionArtifacts]'s UPDATE. *)
Definition artifact_row (envelope receipt : string) (r : task_row) : task_row :=
  let '(executionID, expectedHash, hasProofRefs) := extractProofRefs receipt in
  let reset {A} (x : option A) : option A := if hasProofRefs then None else x in
  r {{ r_execution_envelope ::= coalesce (jsonb_text <$> nullString envelope);
       r_execution_receipt ::= coalesce (jsonb_text <$> nullString receipt);
       r_proof_execution_id ::= coalesce (nullString executionID);
       r_proof_expected_hash ::= coalesce (nullString expectedHash);
       r_proof_stored_hash ::= reset;
       r_proof_signature ::= reset;
       r_proof_status ::= λ s, if hasProofRefs then Some "pending" else s;
       r_proof_checked_at ::= reset }}.

Definition save_artifacts (taskID : uuid) (envelope receipt : string) : stmt Z :=
  update_task taskID (λ _, true) (artifact_row envelope receipt).

Definition proof_columns_row (proof : TaskProofState) (r : task_row) : task_row :=
  r {{ r_proof_execution_id := nullString (ps_ExecutionID proof);
       r_proof_expected_hash := nullString (ps_ExpectedHash proof);
       r_proof_stored_hash := nullString (ps_StoredHash proof);
       r_proof_signature := nullString (ps_Signature proof);
       r_proof_status := nullString (ps_Status proof);
       r_proof_checked_at := ps_CheckedAt proof }}.

Definition updateTaskProofState (taskID : uuid) (proof : option TaskProofState) : ST World (res ()) :=
  match proof with
  | None => mret (Ok tt)
  | Some p => ignore_count (exec (update_task taskID (λ _, true) (proof_columns_row p)))
  end.

(** [WHERE execution_id = $1 AND tenant_id = $2]. *)
Definition select_lineage (executionID tenantID : string) : stmt lineage_row := λ db,
  (match head (filter (λ x, li_execution_id x = executionID ∧ li_tenant_id x = Some tenantID)
                 (execution_lineage db)) with
   | Some x => Ok x
   | None => Err ErrNoRows
   end, db).

Definition SyncTaskProofState (taskID : uuid) (tenantID : string) : ST World (res (option TaskProofState)) :=
  row ←? exec (select_task taskID (tenant_is tenantID));
  let executionID := default "" (r_proof_execution_id row) in
  let expectedHash := default "" (r_proof_expected_hash row) in
  if bool_decide (executionID = "") then mret (Ok None)
  else
    now ← time_now;
    q ← exec (select_lineage executionID tenantID);
    match q return ST World (res (option TaskProofState)) with
    | Err e =>
      if bool_decide (e = ErrNoRows) then
        let state := buildTaskProofState executionID expectedHash "" "" false now in
        updateTaskProofState taskID (Some state) ;;? mret (Ok (Some state))
      else mret (Err e)
    | Ok x =>
      let state := buildTaskProofState executionID expectedHash (default "" (li_receipt_hash x))
                     (default "" (li_signature x)) true now in
      updateTaskProofState taskID (Some state) ;;? mret (Ok (Some state))
    end.

Definition by_execution (tenantID executionID : string) (r : task_row) : bool :=
  tenant_is tenantID r && bool_decide (r_proof_execution_id r = Some executionID).

Definition proof_update_row (expectedHash storedHash signature : string) (state : TaskProofState)
    (r : task_row) : task_row :=
  r {{ r_proof_expected_hash ::= coalesce (nullif_empty expectedHash);
       r_proof_stored_hash := Some storedHash;
       r_proof_signature := Some signature;
       r_proof_status := Some (ps_Status state);
       r_proof_checked_at := ps_CheckedAt state }}.

(** [UPDATE task_records SET f WHERE P] over the whole table. *)
Definition update_where (P : task_row → bool) (f : task_row → task_row) : stmt () := λ db,
  (Ok tt, db {{ task_records ::= fmap (λ r, if P r then f r else r) }}).

Definition UpdateTaskProofStateByExecutionID
    (tenantID executionID expectedHash storedHash signature : string) : ST World (res ()) :=
  if bool_decide (executionID = "") then mret (Ok tt)
  else
    now ← time_now;
    let state := buildTaskProofState executionID expectedHash storedHash signature true now in
    exec (update_where (by_execution tenantID executionID)
            (proof_update_row expectedHash storedHash signature state)).

Definition verification_row (summary : TaskProofVerificationSummary) (now : time) (r : task_row) : task_row :=
  r {{ r_proof_verified := Some (pv_Verified summary);
       r_proof_hash_valid := Some (pv_HashValid summary);
       r_proof_signature_matches := Some (pv_SignatureMatches summary);
       r_proof_runtime_key_found := Some (pv_RuntimeKeyFound summary);
       r_proof_chain_link_valid := (if pv_ChainChecked summary then Some (pv_ChainLinkValid summary) else None);
       r_proof_verification_reason := nullString (pv_Reason summary);
       r_proof_verified_at := Some now }}.

Definition PersistTaskProofVerification (taskID : uuid) (tenantID : string)
    (summary : TaskProofVerificationSummary) : ST World (res ()) :=
  now ← time_now;
  ignore_count (exec (update_task taskID (tenant_is tenantID) (verification_row summary now))).

(** The trigger on [execution_lineage]: what an inserted receipt does to the
    tasks that wait for it. *)
Definition lineage_status (r : task_row) (receiptHash : option string) : string :=
  let expected := default "" (r_proof_expected_hash r) in
  if bool_decide (expected = "") then "present"
  else if bool_decide (Some expected = receiptHash) then "verified" else "mismatch".

Definition lineage_sync_row (x : lineage_row) (now : time) (r : task_row) : task_row :=
  r {{ r_proof_stored_hash := li_receipt_hash x; r_proof_signature := li_signature x;
       r_proof_status := Some (lineage_status r (li_receipt_hash x));
       r_proof_checked_at := Some now }}.

(** [execution_id] is unique: an inserted row replaces what it says of an earlier one. *)
Definition merge_lineage (old new : lineage_row) : lineage_row :=
  let keep (n o : string) := if nonempty n then n else o in
  mkLineage (coalesce (li_tenant_id new) (li_tenant_id old)) (li_execution_id old)
    (li_receipt_hash new) (li_signature new) (li_previous_hash new)
    (keep (li_transaction_id new) (li_transaction_id old))
    (keep (li_transaction_hash new) (li_transaction_hash old))
    (keep (li_agent_id new) (li_agent_id old))
    (li_cpu_time_ms new) (li_wall_time_ms new) (li_memory_peak_mb new) (li_fs_bytes_written new)
    (li_tool_calls new) (li_violation_occurred new) (coalesce (li_runtime_id new) (li_runtime_id old))
    (li_timestamp_utc new) (coalesce (li_status new) (li_status old))
    (coalesce (li_prompt_preview new) (li_prompt_preview old))
    (coalesce (li_violation_details new) (li_violation_details old)).

Definition same_execution (executionID : string) (x : lineage_row) : bool :=
  bool_decide (li_execution_id x = executionID).

(** The row the statement leaves, which the trigger sees. *)
Definition resulting_lineage (x : lineage_row) (db : DB) : lineage_row :=
  match head (filter (λ y, same_execution (li_execution_id x) y = true) (execution_lineage db)) with
  | Some old => merge_lineage old x
  | None => x
  end.

Definition sync_from_lineage (x : lineage_row) (now : time) : stmt () := λ db,
  match li_tenant_id x with
  | Some tenantID =>
    if bool_decide (li_execution_id x = "") || bool_decide (tenantID = "") then (Ok tt, db)
    else update_where (by_execution tenantID (li_execution_id x)) (lineage_sync_row x now) db
  | None => (Ok tt, db)
  end.

(** [INSERT INTO execution_lineage ... ON CONFLICT (execution_id) DO UPDATE];
    [tool_calls] is an [integer] column. *)
Definition upsert_lineage (x : lineage_row) (now : time) : stmt () := λ db,
  if (li_tool_calls x <? - 2 ^ 31) || (int32_max <? li_tool_calls x)
  then (Err (Errorf "pq: value out of range for type integer"), db)
  else
    let new := resulting_lineage x db in
    let db := db {{ execution_lineage ::= upsert (same_execution (li_execution_id x)) merge_lineage x }} in
    if lineage_trigger db then sync_from_lineage new now db else (Ok tt, db).

(** ** Periodic refresh *)
Context `{SortSlice}.

Definition refresh_candidate (tenantID : string) (r : task_row) : bool :=
  tenant_is tenantID r && bool_decide (is_Some (r_proof_execution_id r)) &&
  bool_decide (default "" (r_proof_status r) ∈ [""; "pending"; "missing"]).

Definition refresh_proof (r : task_row) : option TaskProofState :=
  if bool_decide (is_Some (r_proof_status r)) || bool_decide (is_Some (r_proof_checked_at r))
  then Some (cached_proof "" "" "" "" (default "" (r_proof_status r)) (r_proof_checked_at r))
  else None.

Definition refresh_rows (tenantID : string) (limit : Z) (db : DB) : list task_row :=
  take (Z.to_nat limit) (reverse (sort_slice (λ r, default (r_created_at r) (r_completed_at r))
    (filter (λ r, refresh_candidate tenantID r = true) ((map_to_list (task_records db)).*2)))).

Fixpoint sync_all (ids : list uuid) (tenantID : string) : ST World (res ()) :=
  match ids with
  | [] => mret (Ok tt)
  | id :: ids =>
    r ← SyncTaskProofState id tenantID;
    match r return ST World (res ()) with
    | Err e => if bool_decide (e = ErrNoRows) then sync_all ids tenantID else mret (Err e)
    | Ok _ => sync_all ids tenantID
    end
  end.

Definition RefreshPendingProofStates (tenantID : string) (limit : Z) : ST World (res ()) :=
  let limit := if limit <=? 0 then 20 else limit in
  rows ←? exec (λ db, (Ok (refresh_rows tenantID limit db), db));
  now ← time_now;
  sync_all (r_task_id <$> filter (λ r, TaskProofNeedsReadReconciliation (refresh_proof r) now = true) rows)
    tenantID.
End ProofOps.

(** ** What the proof columns promise *)

(** A row says [verified] only when it holds a non-empty expected hash that is
    the stored one. *)
Definition proof_truthful (r : task_row) : Prop :=
  r_proof_status r = Some "verified" →
  ∃ h, h ≠ "" ∧ r_proof_expected_hash r = Some h ∧ r_proof_stored_hash r = Some h.

Lemma nonempty_true s : nonempty s = true ↔ s ≠ "".
Proof. unfold nonempty. by rewrite negb_true_iff, bool_decide_eq_false. Qed.

Lemma nullif_empty_some s : s ≠ "" → nullif_empty s = Some s.
Proof. intros Hs. unfold nullif_empty. by rewrite (proj2 (nonempty_true s) Hs). Qed.

Lemma buildTaskProofState_verified e x s g found now :
  ps_Status (buildTaskProofState e x s g found now) = "verified" → x ≠ "" ∧ s = x ∧ found = true.
Proof.
  unfold buildTaskProofState. destruct found; cbn [negb]; [|done].
  destruct (nonempty x) eqn:Hx; cbn [andb cached_proof ps_Status]; [|done].
  apply nonempty_true in Hx. case_bool_decide; done.
Qed.

Lemma artifact_row_truthful `{Ext} envelope receipt r :
  proof_truthful r → proof_truthful (artifact_row envelope receipt r).
Proof.
  unfold artifact_row. destruct (extractProofRefs receipt) as [[e x] has] eqn:He.
  destruct has; [by intros _ ?|].
  assert (x = "") as ->.
  { unfold extractProofRefs in He. repeat (case_match; simplify_eq/=; try done). }
  intros Ht Hs. exact (Ht Hs).
Qed.

Lemma proof_columns_row_truthful e x s g found now r :
  proof_truthful (proof_columns_row (buildTaskProofState e x s g found now) r).
Proof.
  unfold proof_truthful, proof_columns_row.
  change (nullString (ps_Status (buildTaskProofState e x s g found now)) = Some "verified" →
    ∃ h, h ≠ "" ∧ nullString (ps_ExpectedHash (buildTaskProofState e x s g found now)) = Some h ∧
         nullString (ps_StoredHash (buildTaskProofState e x s g found now)) = Some h).
  intros Hs. assert (ps_Status (buildTaskProofState e x s g found now) = "verified") as Hv.
  { unfold nullString, nullif_empty in Hs. by case_match; simplify_eq. }
  apply buildTaskProofState_verified in Hv as (Hx & -> & ->). exists x.
  unfold buildTaskProofState. cbn [negb cached_proof ps_ExpectedHash ps_StoredHash].
  unfold nullString. by rewrite nullif_empty_some.
Qed.

Lemma proof_update_row_truthful e x s g now r :
  proof_truthful (proof_update_row x s g (buildTaskProofState e x s g true now) r).
Proof.
  intros Hs.
  assert (ps_Status (buildTaskProofState e x s g true now) = "verified") as Hv by (by injection Hs).
  apply buildTaskProofState_verified in Hv as (Hx & -> & _). exists x. split_and!; [done| |done].
  change (coalesce (nullif_empty x) (r_proof_expected_hash r) = Some x).
  by rewrite nullif_empty_some.
Qed.

Lemma lineage_sync_row_truthful x now r : proof_truthful (lineage_sync_row x now r).
Proof.
  unfold proof_truthful.
  change (Some (lineage_status r (li_receipt_hash x)) = Some "verified" →
    ∃ h, h ≠ "" ∧ r_proof_expected_hash r = Some h ∧ li_receipt_hash x = Some h).
  unfold lineage_status. destruct (r_proof_expected_hash r) as [h|]; cbn [default]; [|done].
  case_bool_decide as Hh; [done|]. case_bool_decide as Heq; [|done]. intros _. exists h. done.
Qed.
