(* ===== verification/Reconciliation.v ===== *)
(** * Operator reconciliation

    api/operator_reconciliation.go over the table of migration 072: an operator
    resolves what became of an effect whose outcome a runtime reported as
    unknown.  The database is the store's; the transaction's advisory lock makes
    it run alone, so it is one step, as the store's transactions are. *)

From S2P Require Import Prelude GoStrings Json Ext WalCodec Checkpoint Types Capability Governance.
From S2P Require Import Store.
Open Scope Z_scope.

Definition reconciliationRequired : string := "reconciliation_required".
Definition reconciliationSucceeded : string := "confirmed_succeeded".
Definition reconciliationFailed : string := "confirmed_failed".
Definition reconciliationRemainsUnknown : string := "remains_unknown".

Definition errReconciliationNotRequired : goerror := Sentinel "reconciliation_not_required".
Definition errResolutionConflict : goerror := Sentinel "resolution_conflict".

Record externalReference := mkReference { xf_Type : string; xf_Value : string }.

Record operatorReconciliationRequest := mkReconciliationRequest {
  or_RequestID : string;
  or_Resolution : string;
  or_Reason : string;
  or_ExternalReference : option externalReference;
}.
Definition ReconciliationRequest_zero : operatorReconciliationRequest := mkReconciliationRequest "" "" "" None.

(** ** Decoding a request *)

(** [DisallowUnknownFields]: a member that names no field is an error. *)
Definition dec_struct_strict {S} (fields : list (string * dec S)) : dec S := λ n old,
  let '(s, ok) := dec_struct fields n old in
  (s, ok && match n.2 with
            | JObj l => forallb (λ kv, bool_decide (is_Some (find_field fields kv.1))) l
            | _ => true
            end).

Definition externalReference_fields : list (string * dec externalReference) :=
  [("type", field xf_Type (λ x '(mkReference _ b), mkReference x b) dec_string);
   ("value", field xf_Value (λ x '(mkReference a _), mkReference a x) dec_string)].

Definition request_fields : list (string * dec operatorReconciliationRequest) :=
  [("request_id", field or_RequestID (λ x '(mkReconciliationRequest _ b c d), mkReconciliationRequest x b c d) dec_string);
   ("resolution", field or_Resolution (λ x '(mkReconciliationRequest a _ c d), mkReconciliationRequest a x c d) dec_string);
   ("reason", field or_Reason (λ x '(mkReconciliationRequest a b _ d), mkReconciliationRequest a b x d) dec_string);
   ("external_reference",
     field or_ExternalReference (λ x '(mkReconciliationRequest a b c _), mkReconciliationRequest a b c x)
       (dec_ptr (mkReference "" "") (dec_struct_strict externalReference_fields)))].

(** One JSON value and nothing after it but white space. *)
Definition decode_only {A} (d : dec A) (body : string) (old : A) : option A :=
  let s := skip_ws body in
  match parse_val (2 * slen s + 2) max_depth s with
  | Some (v, r) =>
    let '(a, ok) := d (consumed s r, v) old in
    if ok && bool_decide (skip_ws r = "") then Some a else None
  | None => None
  end.

(** [unicode.IsControl]: the category Cc. *)
Definition is_control (r : Z) : bool := in_range 0 31 r || in_range 127 159 r.

Definition unsafe_markers : list string :=
  ["authorization:"; "bearer "; "basic "; "cookie:"; "set-cookie:"; "password="; "password:"; "api_key="; "apikey=";
   "secret="; "token="].

Definition containsUnsafeOperatorText (value : string) : bool :=
  existsb (λ p, is_control p.1) (runes value) || existsb (Contains (ToLower value)) unsafe_markers.

Definition is_alnum (a : ascii) : bool :=
  in_range 48 57 (zb a) || in_range 65 90 (zb a) || in_range 97 122 (zb a).

(** [^[A-Za-z0-9][A-Za-z0-9._:/-]{0,255}$]. *)
Definition externalReferencePattern (s : string) : bool :=
  match String.list_ascii_of_string s with
  | a :: rest =>
    is_alnum a && (length rest <=? 255)%nat &&
    forallb (λ b, is_alnum b || bool_decide (b ∈ ["."; "_"; ":"; "/"; "-"]%char)) rest
  | [] => false
  end.

Definition reference_types : list string := ["provider_reference"; "transaction_id"; "deployment_id"; "ticket_id"].
Definition resolutions : list string := [reconciliationSucceeded; reconciliationFailed; reconciliationRemainsUnknown].

Definition invalid (what : string) : goerror := Errorf what.

Section Reconciliation.
Context `{Ext}.

Definition check_reference (ref : option externalReference) : res (option externalReference) :=
  match ref with
  | None => Ok None
  | Some ref =>
    let ref := mkReference (TrimSpace (xf_Type ref)) (TrimSpace (xf_Value ref)) in
    if negb (bool_decide (xf_Type ref ∈ reference_types)) then Err (invalid "invalid external reference type")
    else if negb (externalReferencePattern (xf_Value ref)) || containsUnsafeOperatorText (xf_Value ref)
    then Err (invalid "invalid external reference value")
    else Ok (Some ref)
  end.

Definition decodeOperatorReconciliationRequest (body : string) : res (operatorReconciliationRequest * uuid) :=
  match decode_only (dec_struct_strict request_fields) body ReconciliationRequest_zero with
  | None => Err (invalid "trailing JSON")
  | Some req =>
    match uuid_Parse (TrimSpace (or_RequestID req)) with
    | None => Err (invalid "invalid UUID")
    | Some requestID =>
      let reason := TrimSpace (or_Reason req) in
      if negb (bool_decide (or_Resolution req ∈ resolutions)) then Err (invalid "invalid resolution")
      else if (slen reason <? 1)%nat || (1000 <? slen reason)%nat || containsUnsafeOperatorText reason
      then Err (invalid "invalid reason")
      else match check_reference (or_ExternalReference req) with
      | Err e => Err e
      | Ok ref => Ok (mkReconciliationRequest (or_RequestID req) (or_Resolution req) reason ref, requestID)
      end
    end
  end.

(** ** The table *)

(** The select list of the queries. *)
Record operatorReconciliationEvent := mkReconciliationEvent {
  oe_TenantID : string;
  oe_TaskID : uuid;
  oe_Bound : BoundActionRunIdentity; (* binding, contract, target *)
  oe_BusinessIdempotencyDigest : string;
  oe_EventType : string;
  oe_Resolution : string;
  oe_ActorType : string;
  oe_ActorID : string;
  oe_ActorEmail : string;
  oe_Reason : string;
  oe_ExternalReferenceType : string;
  oe_ExternalReferenceValue : string;
  oe_TargetHost : string;
  oe_SourceStatusCode : Z;
  oe_OperatorRequestID : option uuid;
}.

Definition scanOperatorReconciliationEvent (x : reconciliation_row) : operatorReconciliationEvent :=
  let '(ref_type, ref_value) := default ("", "") (rc_external_reference x) in
  mkReconciliationEvent (rc_tenant_id x) (rc_task_id x) (rc_bound x) (rc_idempotency_digest x) (rc_event_type x)
    (default "" (rc_resolution x)) (rc_actor_type x) (rc_actor_id x) (default "" (rc_actor_email x)) (rc_reason x)
    ref_type ref_value (default "" (rc_target_host x)) (default 0 (rc_source_status_code x)) (rc_operator_request_id x).

(** The rows of one task of one tenant. *)
Definition concerns (tenantID : string) (taskID : uuid) (x : reconciliation_row) : bool :=
  bool_decide (rc_tenant_id x = tenantID) && bool_decide (rc_task_id x = taskID).

Definition is_terminal_event (x : reconciliation_row) : bool :=
  bool_decide (rc_resolution x = Some reconciliationSucceeded) || bool_decide (rc_resolution x = Some reconciliationFailed).

Definition find_event (P : reconciliation_row → bool) (db : DB) : option reconciliation_row :=
  head (filter (λ x, P x = true) (reconciliation_events db)).

Definition select_event (P : reconciliation_row → bool) : stmt reconciliation_row := λ db,
  (match find_event P db with Some x => Ok x | None => Err ErrNoRows end, db).

Definition loadOperatorReconciliationRequestEvent (tenantID : string) (taskID requestID : uuid) : stmt reconciliation_row :=
  select_event (λ x, concerns tenantID taskID x && bool_decide (rc_operator_request_id x = Some requestID)).

Definition select_terminal (tenantID : string) (taskID : uuid) : stmt reconciliation_row :=
  select_event (λ x, concerns tenantID taskID x && is_terminal_event x).

(** [char_length] of a text. *)
Definition char_length (s : string) : Z := Z.of_nat (length (runes s)).

(** The checks of the table on an operator's row. *)
Definition resolution_admissible (x : reconciliation_row) : bool :=
  in_range 1 256 (char_length (rc_actor_id x)) &&
  (char_length (default "" (rc_actor_email x)) <=? 320) &&
  in_range 1 1000 (char_length (rc_reason x)) &&
  match rc_external_reference x with
  | Some (ty, v) => bool_decide (ty ∈ reference_types) && in_range 1 256 (char_length v)
  | None => true
  end &&
  match rc_resolution x with Some r => bool_decide (r ∈ resolutions) | None => false end &&
  is_hash64 (ba_ContractHash (rc_bound x)) && is_hash64 (ba_TargetVersionHash (rc_bound x)) &&
  is_hash64 (rc_idempotency_digest x).

Definition duplicate_key : goerror := Errorf "pq: duplicate key value violates unique constraint".
Definition terminal_exists : goerror := Errorf "pq: reconciliation already has a terminal resolution".

(** [INSERT ... SELECT ... RETURNING]: the row of the bound run, if its effect
    was observed; the append trigger and the unique indexes may refuse it. *)
Definition insert_resolution (tenantID : string) (taskID : uuid) (resolution actorID actorEmail reason : string)
    (ref : option externalReference) (requestID : uuid) : stmt reconciliation_row := λ db,
  match head (filter (λ r, br_tenant_id r = tenantID ∧ br_task_id r = taskID) (bound_runs db)) with
  | None => (Err ErrNoRows, db)
  | Some run =>
    if negb (observed tenantID taskID db) then (Err ErrNoRows, db)
    else
      let x := mkReconciliation tenantID taskID (br_bound run) (sha256_hex (ba_BusinessIdempotencyKey (br_bound run)))
                 "operator_resolution" (Some resolution) "operator" actorID (nullif_empty actorEmail) reason
                 ((λ f, (xf_Type f, xf_Value f)) <$> ref) None None (Some requestID) in
      if bool_decide (is_Some (find_event (λ y, concerns tenantID taskID y && is_terminal_event y) db))
      then (Err terminal_exists, db)
      else if negb (resolution_admissible x) then (Err constraint_error, db)
      else if bool_decide (is_Some (find_event (λ y, concerns tenantID taskID y &&
                             bool_decide (rc_operator_request_id y = Some requestID)) db))
      then (Err duplicate_key, db)
      else (Ok x, db {{ reconciliation_events ::= λ l, l ++ [x] }})
  end.

(** ** Appending *)

Definition reconciliationRequestMatches (event : operatorReconciliationEvent) (actorID : string)
    (req : operatorReconciliationRequest) : bool :=
  if negb (bool_decide (oe_ActorID event = actorID)) || negb (bool_decide (oe_Resolution event = or_Resolution req)) ||
     negb (bool_decide (oe_Reason event = or_Reason req))
  then false
  else match or_ExternalReference req with
  | None => bool_decide (oe_ExternalReferenceType event = "") && bool_decide (oe_ExternalReferenceValue event = "")
  | Some ref =>
    bool_decide (oe_ExternalReferenceType event = xf_Type ref) &&
    bool_decide (oe_ExternalReferenceValue event = xf_Value ref)
  end.

(** How an error of the insertion is reported. *)
Definition classify_append_error (err : goerror) : goerror :=
  if bool_decide (err = ErrNoRows) then errReconciliationNotRequired
  else
    let lower := ToLower (error_text err) in
    if Contains lower "terminal resolution" || Contains lower "duplicate key" then errResolutionConflict
    else if Contains lower "reconciliation is not required" then errReconciliationNotRequired
    else err.

Definition appendOperatorReconciliation (tenantID : string) (taskID : uuid) (actorID actorEmail : string)
    (requestID : uuid) (req : operatorReconciliationRequest) : ST World (res (operatorReconciliationEvent * bool)) :=
  db ←? tx_begin;
  '(_, db) ←? tx_exec (λ db, (Ok tt, db)) db; (* the advisory lock *)
  e ← tx_exec (loadOperatorReconciliationRequestEvent tenantID taskID requestID) db;
  match e return ST World (res (operatorReconciliationEvent * bool)) with
  | Ok (existing, db) =>
    let existing := scanOperatorReconciliationEvent existing in
    if reconciliationRequestMatches existing actorID req
    then tx_commit db ;;? mret (Ok (existing, true))
    else mret (Err errResolutionConflict)
  | Err err =>
    if negb (bool_decide (err = ErrNoRows)) then mret (Err err)
    else
      t ← tx_exec (select_terminal tenantID taskID) db;
      match t return ST World (res (operatorReconciliationEvent * bool)) with
      | Ok _ => mret (Err errResolutionConflict)
      | Err err =>
        if negb (bool_decide (err = ErrNoRows)) then mret (Err err)
        else
          i ← tx_exec (insert_resolution tenantID taskID (or_Resolution req) actorID actorEmail (or_Reason req)
                         (or_ExternalReference req) requestID) db;
          match i return ST World (res (operatorReconciliationEvent * bool)) with
          | Err err => mret (Err (classify_append_error err))
          | Ok (x, db) => tx_commit db ;;? mret (Ok (scanOperatorReconciliationEvent x, false))
          end
      end
  end.

(** ** Reading *)

Record operatorReconciliationState := mkReconciliationState {
  os_Required : bool;
  os_CurrentState : string;
  os_History : list operatorReconciliationEvent;
}.

(** The query's order: the observation first, then by time. *)
Definition history_rows (tenantID : string) (taskID : uuid) (db : DB) : list reconciliation_row :=
  let mine := filter (λ x, concerns tenantID taskID x = true) (reconciliation_events db) in
  filter (λ x, is_observation x = true) mine ++ filter (λ x, is_observation x = false) mine.

(** The loop over the history: current state and terminal resolution. *)
Definition fold_history (history : list operatorReconciliationEvent) : string * string :=
  foldl (λ acc event,
    let '(current, terminalResolution) := acc in
    if bool_decide (oe_Resolution event = reconciliationSucceeded) || bool_decide (oe_Resolution event = reconciliationFailed)
    then (current, oe_Resolution event)
    else if nonempty (oe_Resolution event) && bool_decide (terminalResolution = "")
    then (oe_Resolution event, terminalResolution)
    else acc) (reconciliationRequired, "") history.

Definition reconciliation_state (history : list operatorReconciliationEvent) : res operatorReconciliationState :=
  match history with
  | first :: _ =>
    if bool_decide (oe_EventType first = "unresolved_effect_observed") then
      let '(current, terminalResolution) := fold_history history in
      let current := if nonempty terminalResolution then terminalResolution else current in
      Ok (mkReconciliationState
            (bool_decide (current = reconciliationRequired) || bool_decide (current = reconciliationRemainsUnknown))
            current history)
    else Err ErrNoRows
  | [] => Err ErrNoRows
  end.

Definition loadOperatorReconciliationState (tenantID : string) (taskID : uuid) : ST World (res operatorReconciliationState) :=
  exec (λ db, (reconciliation_state (scanOperatorReconciliationEvent <$> history_rows tenantID taskID db), db)).

(** ** Handlers: the HTTP status and what is rendered *)

Record operator := mkOperator { op_user : string; op_admin : bool; op_email : string }.

(** The tenant and actor, or the status of the refusal. *)
Definition reconciliationOperator (o : operator) : string * string * string + Z :=
  if bool_decide (op_user o = "") then inr 401
  else if negb (op_admin o) then inr 403
  else inl (op_user o, op_user o, TrimSpace (op_email o)).

Definition handleActionReconciliationAppend (o : operator) (idParam body : string)
    : ST World (Z * option (operatorReconciliationEvent * bool)) :=
  match reconciliationOperator o return ST World (Z * option (operatorReconciliationEvent * bool)) with
  | inr status => mret (status, None)
  | inl (tenantID, actorID, actorEmail) =>
    match uuid_Parse idParam return ST World (Z * option (operatorReconciliationEvent * bool)) with
    | None => mret (404, None)
    | Some taskID =>
      b ← GetBoundActionRun taskID tenantID;
      match b return ST World (Z * option (operatorReconciliationEvent * bool)) with
      | Err e => mret (if bool_decide (e = ErrNoRows) then 404 else 500, None)
      | Ok _ =>
        match decodeOperatorReconciliationRequest body return ST World (Z * option (operatorReconciliationEvent * bool)) with
        | Err _ => mret (422, None)
        | Ok (req, requestID) =>
          r ← appendOperatorReconciliation tenantID taskID actorID actorEmail requestID req;
          mret match r with
          | Ok (event, replayed) => (if replayed : bool then 200 else 201, Some (event, replayed))
          | Err e =>
            (if errors_is e errReconciliationNotRequired || errors_is e errResolutionConflict then 409 else 500, None)
          end
        end
      end
    end
  end.

Definition handleActionReconciliationGet (o : operator) (idParam : string) : ST World (Z * option operatorReconciliationState) :=
  match reconciliationOperator o return ST World (Z * option operatorReconciliationState) with
  | inr status => mret (status, None)
  | inl (tenantID, _, _) =>
    match uuid_Parse idParam return ST World (Z * option operatorReconciliationState) with
    | None => mret (404, None)
    | Some taskID =>
      b ← GetBoundActionRun taskID tenantID;
      match b return ST World (Z * option operatorReconciliationState) with
      | Err e => mret (if bool_decide (e = ErrNoRows) then 404 else 500, None)
      | Ok _ =>
        s ← loadOperatorReconciliationState tenantID taskID;
        mret match s with
        | Ok state => (200, Some state)
        | Err e => (if bool_decide (e = ErrNoRows) then 409 else 500, None)
        end
      end
    end
  end.
End Reconciliation.
