(* ===== verification/StoreLogic.v ===== *)
(** * Reasoning about store statements

    Triples for single statements and transactions under arbitrary faults, and
    the outcome of a guarded status update, from which every operation's
    specification is composed. *)

From S2P Require Import Prelude GoStrings Json Ext WalCodec Checkpoint Types Capability Governance.
From S2P Require Import Store.
Open Scope Z_scope.

(** The world's tables are exactly [db]. *)
Definition db_is (db : DB) (w : World) : Prop := w_db w = db.

Lemma next_fault_db w : w_db (next_fault w).2 = w_db w.
Proof. unfold next_fault. by destruct (w_faults w). Qed.

Lemma hoare_next_fault db : hoare (db_is db) next_fault (λ _, db_is db).
Proof. intros w Hw. unfold db_is. by rewrite next_fault_db. Qed.

Lemma hoare_time_now db : hoare (db_is db) time_now (λ _, db_is db).
Proof. by intros w Hw. Qed.

(** What a statement outside a transaction may leave behind. *)
Inductive exec_outcome {A} (q : stmt A) (db : DB) : res A → DB → Prop :=
| exec_done r db' : q db = (r, db') → exec_outcome q db r db'
| exec_failed : exec_outcome q db (Err sql_error) db
| exec_lost : exec_outcome q db (Err sql_error) (q db).2.

Lemma hoare_exec {A} (q : stmt A) db :
  hoare (db_is db) (exec q) (λ r w, exec_outcome q db r (w_db w)).
Proof.
  intros w Hw. unfold exec, mbind, ST_bind.
  pose proof (next_fault_db w) as Hf. rewrite Hw in Hf.
  destruct (next_fault w) as [f w']. cbn in Hf. unfold db_is in *.
  destruct f; cbn [mret ST_ret].
  - rewrite Hf. destruct (q db) as [r db'] eqn:Hq. cbn. by apply exec_done.
  - cbn. rewrite Hf. apply exec_failed.
  - rewrite Hf. destruct (q db) as [r db'] eqn:Hq. cbn.
    replace db' with (q db).2 by (by rewrite Hq). apply exec_lost.
Qed.

Lemma hoare_tx_begin db :
  hoare (db_is db) tx_begin (λ r w, db_is db w ∧ ∀ db', r = Ok db' → db' = db).
Proof.
  intros w Hw. unfold tx_begin, mbind, ST_bind.
  pose proof (next_fault_db w) as Hf. rewrite Hw in Hf.
  destruct (next_fault w) as [f w']. cbn in Hf. unfold db_is.
  destruct f; cbn; (split; [done|]); intros db' Heq; naive_solver.
Qed.

Lemma hoare_tx_exec {A} (q : stmt A) db0 db :
  hoare (db_is db0) (tx_exec q db)
    (λ r w, db_is db0 w ∧ ∀ a db', r = Ok (a, db') → q db = (Ok a, db')).
Proof.
  intros w Hw. unfold tx_exec, mbind, ST_bind.
  pose proof (next_fault_db w) as Hf. rewrite Hw in Hf.
  destruct (next_fault w) as [f w']. cbn in Hf. unfold db_is.
  destruct f; cbn; (split; [done|]); intros a db' Heq; [|done..].
  destruct (q db) as [[?|?] ?]; naive_solver.
Qed.

Inductive commit_outcome (db0 db : DB) : res () → DB → Prop :=
| commit_done : commit_outcome db0 db (Ok tt) db
| commit_failed : commit_outcome db0 db (Err sql_error) db0
| commit_lost : commit_outcome db0 db (Err sql_error) db.

Lemma hoare_tx_commit db0 db :
  hoare (db_is db0) (tx_commit db) (λ r w, commit_outcome db0 db r (w_db w)).
Proof.
  intros w Hw. unfold tx_commit, mbind, ST_bind.
  pose proof (next_fault_db w) as Hf. rewrite Hw in Hf.
  destruct (next_fault w) as [f w']. cbn in Hf.
  destruct f; cbn; rewrite ?Hf; constructor.
Qed.

(** Composition with a precondition that only speaks about the tables. *)
Lemma hoare_bind_db {A B} db (m : ST World A) (k : A → ST World B) (R : A → DB → Prop) Q :
  hoare (db_is db) m (λ a w, R a (w_db w)) →
  (∀ a db', R a db' → hoare (db_is db') (k a) Q) →
  hoare (db_is db) (m ≫= k) Q.
Proof.
  intros Hm Hk. apply (hoare_bind _ _ _ (λ a w, R a (w_db w))); [done|].
  intros a w Ha. by apply (Hk a (w_db w)).
Qed.

Lemma hoare_bind_err_db {A B} db (m : ST World (res A)) (k : A → ST World (res B)) (R : res A → DB → Prop)
    (Q : res B → World → Prop) :
  hoare (db_is db) m (λ a w, R a (w_db w)) →
  (∀ a db', R (Ok a) db' → hoare (db_is db') (k a) Q) →
  (∀ e w, R (Err e) (w_db w) → Q (Err e) w) →
  hoare (db_is db) (bind_err m k) Q.
Proof.
  intros Hm Hk He. apply (hoare_bind_err _ _ _ (λ a w, R a (w_db w))); [done| |done].
  intros a w Ha. by apply (Hk a (w_db w)).
Qed.

Lemma hoare_ret_db {A} db (a : A) (Q : A → World → Prop) :
  (∀ w, w_db w = db → Q a w) → hoare (db_is db) (mret a) Q.
Proof. intros HQ. by apply hoare_ret. Qed.

(** Transactions, statement by statement. *)
Lemma hoare_begin {B} db (k : DB → ST World (res B)) Q :
  hoare (db_is db) (k db) Q → (∀ e w, w_db w = db → Q (Err e) w) → hoare (db_is db) (bind_err tx_begin k) Q.
Proof.
  intros Hk He. eapply (hoare_bind_err_db _ _ _ (λ r db', db' = db ∧ ∀ x, r = Ok x → x = db)); [apply hoare_tx_begin| |].
  - intros db0 db' [-> Hdb]. by rewrite (Hdb _ eq_refl).
  - intros e w [? _]. by apply He.
Qed.

Lemma hoare_in_tx {A B} (q : stmt A) db db1 (k : res (A * DB) → ST World B) Q :
  (∀ r, (∀ a db2, r = Ok (a, db2) → q db1 = (Ok a, db2)) → hoare (db_is db) (k r) Q) →
  hoare (db_is db) (tx_exec q db1 ≫= k) Q.
Proof.
  intros Hk. eapply (hoare_bind_db _ _ _ (λ r db', db' = db ∧ ∀ a db2, r = Ok (a, db2) → q db1 = (Ok a, db2)));
    [apply hoare_tx_exec|]. intros r db' [-> Hr]. by apply Hk.
Qed.

Lemma hoare_commit {B} db db1 (b : B) Q :
  (∀ r w, commit_outcome db db1 r (w_db w) → Q (match r with Ok _ => Ok b | Err e => Err e end) w) →
  hoare (db_is db) (tx_commit db1 ;;? mret (Ok b)) Q.
Proof.
  intros HQ. eapply (hoare_bind_err _ _ _ (λ r w, commit_outcome db db1 r (w_db w))); [apply hoare_tx_commit| |].
  - intros []. apply hoare_ret. intros w Hc. exact (HQ _ _ Hc).
  - intros e w Hc. exact (HQ _ _ Hc).
Qed.

(** ** Guarded updates of one task *)

(** The row's guard holds and the tables differ in this row only. *)
Definition applied (id : uuid) (P : task_row → bool) (f : task_row → task_row) (db db' : DB) : Prop :=
  ∃ r, task_records db !! id = Some r ∧ P r = true ∧ db' = db {{ task_records ::= <[id := f r]> }}.

Inductive update_outcome (id : uuid) (P : task_row → bool) (f : task_row → task_row) (db : DB)
    : res () → DB → Prop :=
| up_done db' : applied id P f db db' → update_outcome id P f db (Ok tt) db'
| up_rejected :
    (∀ r, task_records db !! id = Some r → P r = false) →
    update_outcome id P f db (Err ErrTaskTransitionRejected) db
| up_failed : update_outcome id P f db (Err sql_error) db
| up_lost db' : applied id P f db db' → update_outcome id P f db (Err sql_error) db'.

Lemma update_task_spec id P f db :
  (∃ r, task_records db !! id = Some r ∧ P r = true ∧
        update_task id P f db = (Ok 1, db {{ task_records ::= <[id := f r]> }})) ∨
  ((∀ r, task_records db !! id = Some r → P r = false) ∧ update_task id P f db = (Ok 0, db)).
Proof.
  unfold update_task. destruct (task_records db !! id) as [r|] eqn:Hr; [|by right].
  destruct (P r) eqn:HP; [left|right]; [naive_solver|]. split; [|done]. naive_solver.
Qed.

Lemma hoare_exec_transition id P f db :
  hoare (db_is db) (exec_transition (update_task id P f)) (λ r w, update_outcome id P f db r (w_db w)).
Proof.
  unfold exec_transition. eapply hoare_bind_db; [apply hoare_exec|].
  intros r db' Ho. apply hoare_ret_db. intros w ->.
  destruct (update_task_spec id P f db) as [(row & Hrow & HP & Hq)|[Hnone Hq]].
  - assert (applied id P f db (db {{ task_records ::= <[id := f row]> }})) as Happ by (by exists row).
    inversion Ho as [r' db1 Hq'| |]; subst.
    + rewrite Hq in Hq'. injection Hq' as <- <-. cbn. by constructor.
    + cbn. apply up_failed.
    + cbn. rewrite Hq. cbn. by apply up_lost.
  - inversion Ho as [r' db1 Hq'| |]; subst.
    + rewrite Hq in Hq'. injection Hq' as <- <-. cbn. by apply up_rejected.
    + cbn. apply up_failed.
    + cbn. rewrite Hq. cbn. apply up_failed.
Qed.

(** ** Operations related to a reflexive relation on tables *)

Section Related.
Context (K : relation DB) (K_refl : ∀ db, K db db).

(** Whatever faults occur, the tables after are [K]-related to those before. *)
Definition relates {A} (m : ST World A) : Prop := ∀ db, hoare (db_is db) m (λ _ w, K db (w_db w)).

Lemma relates_exec {A} (q : stmt A) : (∀ db, K db (q db).2) → relates (exec q).
Proof.
  intros Hq db. eapply hoare_conseq; [apply hoare_exec|done|].
  intros r w Ho. pose proof (Hq db) as Hk. inversion Ho as [r' db' Hd| |]; subst; [|apply K_refl|done].
  by rewrite Hd in Hk.
Qed.

Lemma relates_transition id P f : (∀ db db', applied id P f db db' → K db db') → relates (exec_transition (update_task id P f)).
Proof.
  intros HK db. eapply hoare_conseq; [apply hoare_exec_transition|done|]. intros r w [ | | | ]; auto.
Qed.

Lemma relates_after {A B} (m : ST World A) (k : A → ST World B) :
  (∀ db, hoare (db_is db) m (λ _, db_is db)) → (∀ a, relates (k a)) → relates (m ≫= k).
Proof.
  intros Hm Hk db. eapply (hoare_bind_db _ _ _ (λ _ db', db' = db)); [apply Hm|].
  intros a db' ->. apply Hk.
Qed.

Lemma relates_ret {A} (a : A) : relates (mret a).
Proof. intros db. apply hoare_ret_db. by intros w ->. Qed.

Lemma relates_then {A B} (m : ST World (res A)) (f : A → res B) :
  relates m → relates (bind_err m (λ a, mret (f a))).
Proof.
  intros Hm db. eapply (hoare_bind_err_db _ _ _ (λ _ db', K db db')); [apply Hm| |done].
  intros a db' Hk. apply hoare_ret_db. by intros w ->.
Qed.
End Related.

(** ** Runs without faults are deterministic *)

Lemma exec_no_faults {A} (q : stmt A) w :
  w_faults w = [] → exec q w = ((q (w_db w)).1, w {{ w_db := (q (w_db w)).2 }}).
Proof.
  intros Hf. unfold exec, mbind, ST_bind, next_fault. rewrite Hf. by destruct (q (w_db w)).
Qed.

Lemma exec_transition_no_faults id P f w r :
  w_faults w = [] → task_records (w_db w) !! id = Some r →
  exec_transition (update_task id P f) w =
    (if P r then (Ok tt, w {{ w_db := (w_db w) {{ task_records ::= <[id := f r]> }} }})
     else (Err ErrTaskTransitionRejected, w {{ w_db := w_db w }})).
Proof.
  intros Hf Hr. unfold exec_transition, mbind, ST_bind. rewrite exec_no_faults by done.
  unfold update_task. rewrite Hr. by destruct (P r).
Qed.

Lemma tx_begin_no_faults w : w_faults w = [] → tx_begin w = (Ok (w_db w), w).
Proof. intros Hf. unfold tx_begin, mbind, ST_bind, next_fault. by rewrite Hf. Qed.

Lemma tx_exec_no_faults {A} (q : stmt A) db w :
  w_faults w = [] →
  tx_exec q db w = (let '(r, db') := q db in match r with Ok a => Ok (a, db') | Err e => Err e end, w).
Proof. intros Hf. unfold tx_exec, mbind, ST_bind, next_fault. by rewrite Hf. Qed.

Lemma tx_commit_no_faults db w :
  w_faults w = [] → tx_commit db w = (Ok tt, w {{ w_db := db }}).
Proof. intros Hf. unfold tx_commit, mbind, ST_bind, next_fault. by rewrite Hf. Qed.

(** Unfolding one bind of a run. *)
Lemma run_bind {A B} (m : ST World A) (k : A → ST World B) w a w' :
  m w = (a, w') → (m ≫= k) w = k a w'.
Proof. intros Hm. unfold mbind, ST_bind. by rewrite Hm. Qed.

Lemma run_bind_ok {A B} (m : ST World (res A)) (k : A → ST World (res B)) w a w' :
  m w = (Ok a, w') → bind_err m k w = k a w'.
Proof. intros Hm. unfold bind_err. by rewrite (run_bind _ _ _ _ _ Hm). Qed.

Lemma run_bind_error {A B} (m : ST World (res A)) (k : A → ST World (res B)) w e w' :
  m w = (Err e, w') → bind_err m k w = (Err e, w').
Proof. intros Hm. unfold bind_err. by rewrite (run_bind _ _ _ _ _ Hm). Qed.

(** ** Runs with a known fault at their head *)

Lemma next_fault_cons w f fs : w_faults w = f :: fs → next_fault w = (f, w {{ w_faults := fs }}).
Proof. intros Hf. unfold next_fault. by rewrite Hf. Qed.

Lemma tx_begin_fault w f fs :
  w_faults w = f :: fs →
  tx_begin w = (match f with FOk => Ok (w_db w) | _ => Err sql_error end, w {{ w_faults := fs }}).
Proof. intros Hf. unfold tx_begin. rewrite (run_bind _ _ _ _ _ (next_fault_cons _ _ _ Hf)). by destruct f. Qed.

Lemma tx_exec_fault {A} (q : stmt A) db w f fs :
  w_faults w = f :: fs →
  tx_exec q db w =
    (match f with
     | FOk => let '(r, db') := q db in match r with Ok a => Ok (a, db') | Err e => Err e end
     | _ => Err sql_error
     end, w {{ w_faults := fs }}).
Proof. intros Hf. unfold tx_exec. rewrite (run_bind _ _ _ _ _ (next_fault_cons _ _ _ Hf)). by destruct f. Qed.

Lemma tx_commit_fault db w f fs :
  w_faults w = f :: fs →
  tx_commit db w =
    (match f with FOk => Ok tt | _ => Err sql_error end,
     match f with FErr => w {{ w_faults := fs }} | _ => w {{ w_faults := fs; w_db := db }} end).
Proof. intros Hf. unfold tx_commit. rewrite (run_bind _ _ _ _ _ (next_fault_cons _ _ _ Hf)). by destruct f. Qed.
