(* ===== verification/StoreSpec.v ===== *)
(** * The store's contract

    The abstract task machine ([lifecycle]), what one store operation may do to
    the tables ([db_step]), the integrity invariant ([db_ok]), and the theorems
    that every operation, under every pattern of statement faults, refines the
    machine and preserves the invariant.  [reachable] closes the operations
    under arbitrary sequences: since each operation is atomic here, every
    interleaving of concurrent handlers is such a sequence. *)

From S2P Require Import Prelude GoStrings Json Ext WalCodec Checkpoint Types Capability Governance.
From S2P Require Import Store ProofState StoreLogic Reconciliation.
Open Scope Z_scope.

(** ** The abstract machine *)

Definition terminal (s : TaskRecordStatus) : Prop :=
  s = TaskStatusCompleted ∨ s = TaskStatusFailed ∨ s = TaskStatusCanceled.

Global Instance terminal_dec s : Decision (terminal s).
Proof. unfold terminal. apply _. Defined.

Inductive lifecycle : TaskRecordStatus → TaskRecordStatus → Prop :=
| lc_dispatch s : s ∈ [TaskStatusPending; TaskStatusRecovering] → lifecycle s TaskStatusDispatched
| lc_checkpoint s :
    s ∈ [TaskStatusDispatched; TaskStatusCheckpointed; TaskStatusRecovering] →
    lifecycle s TaskStatusCheckpointed
| lc_complete s :
    s ∈ [TaskStatusDispatched; TaskStatusCheckpointed; TaskStatusRecovering] →
    lifecycle s TaskStatusCompleted
| lc_fail s :
    s ∈ [TaskStatusDispatched; TaskStatusCheckpointed; TaskStatusRecovering] →
    lifecycle s TaskStatusFailed
| lc_cancel s :
    s ∈ [TaskStatusPending; TaskStatusDispatched; TaskStatusCheckpointed; TaskStatusRecovering] →
    lifecycle s TaskStatusCanceled
| lc_recover s :
    s ∈ [TaskStatusDispatched; TaskStatusCheckpointed] → lifecycle s TaskStatusRecovering
| lc_gate s :
    s ∈ [TaskStatusPending; TaskStatusRecovering] → lifecycle s TaskStatusApprovalRequired
| lc_approve : lifecycle TaskStatusApprovalRequired TaskStatusDispatched
| lc_reject : lifecycle TaskStatusApprovalRequired TaskStatusFailed.

Lemma lifecycle_not_terminal s s' : lifecycle s s' → ¬ terminal s.
Proof. intros Hl Ht. destruct Hl; set_unfold; destruct Ht as [?|[?|?]]; naive_solver. Qed.

(** A pending task can only be reached by creation. *)
Lemma lifecycle_not_pending s s' : lifecycle s s' → s' ≠ TaskStatusPending.
Proof. by destruct 1. Qed.

(** ** What an operation may do to a row *)

Definition identity_columns (r : task_row) :=
  (r_task_id r, r_tenant_id r, r_task_definition r, r_idempotency_key r, r_deadline_at r,
   r_created_at r, r_registered_agent_id r, r_registered_agent_name r).

Definition outcome_columns (r : task_row) :=
  (r_status r, r_runtime_id r, r_runtime_endpoint r, r_last_checkpoint r, r_failure_reason r,
   r_failure_details r, r_dispatched_at r, r_completed_at r, r_canceled_at r).

Definition proof_hashes (r : task_row) := (r_proof_status r, r_proof_expected_hash r, r_proof_stored_hash r).

Section Spec.
Context `{Ext} `{CheckpointCodec} `{UUIDSupply}.

(** The watermark of the checkpoint a row holds. *)
Definition row_watermark (r : task_row) : option Z :=
  LastStep <$> decodeCheckpointPayload (r_last_checkpoint r).

Definition watermark_le (r r' : task_row) : Prop :=
  ∀ m, row_watermark r = Some m → ∃ m', row_watermark r' = Some m' ∧ m ≤ m'.

Definition row_step (r r' : task_row) : Prop :=
  identity_columns r' = identity_columns r ∧
  (outcome_columns r' = outcome_columns r ∨
   lifecycle (r_status r) (r_status r') ∧ watermark_le r r') ∧
  (proof_truthful r → proof_truthful r').

Definition db_step (db db' : DB) : Prop :=
  (∀ id r, task_records db !! id = Some r →
     ∃ r', task_records db' !! id = Some r' ∧ row_step r r') ∧
  (∀ id r', task_records db' !! id = Some r' → task_records db !! id = None →
     r_status r' = TaskStatusPending ∧ r_last_checkpoint r' = None) ∧
  wal_checkpoints db `prefix_of` wal_checkpoints db' ∧
  bound_runs db `prefix_of` bound_runs db' ∧
  reconciliation_events db `prefix_of` reconciliation_events db' ∧
  bindings db' = bindings db.

Lemma row_step_refl r : row_step r r.
Proof. split_and!; [done|by left|done]. Qed.

Lemma db_step_refl db : db_step db db.
Proof.
  split_and!; [|by intros id r ->|done..].
  intros id r Hr. exists r. split; [done|]. apply row_step_refl.
Qed.

(** A statement that leaves the task and event tables alone. *)
Lemma db_step_tables db db' :
  task_records db' = task_records db → wal_checkpoints db' = wal_checkpoints db →
  bound_runs db' = bound_runs db → reconciliation_events db' = reconciliation_events db →
  bindings db' = bindings db → db_step db db'.
Proof.
  intros Ht Hw Hb Hr Hbi. unfold db_step. rewrite Ht, Hw, Hb, Hr.
  destruct (db_step_refl db) as (Ha & Hp & _). split_and!; done.
Qed.

Lemma tasks_update (db : DB) g : task_records (db {{ task_records ::= g }}) = g (task_records db).
Proof. reflexivity. Qed.

Lemma recon_update (db : DB) g :
  reconciliation_events (db {{ reconciliation_events ::= g }}) = g (reconciliation_events db).
Proof. reflexivity. Qed.
Lemma wal_update (db : DB) g :
  wal_checkpoints (db {{ wal_checkpoints ::= g }}) = g (wal_checkpoints db).
Proof. reflexivity. Qed.
Lemma runs_update (db : DB) g : bound_runs (db {{ bound_runs ::= g }}) = g (bound_runs db).
Proof. reflexivity. Qed.

(** Replacing one row by a step of it. *)
Lemma db_step_row db id r r' :
  task_records db !! id = Some r → row_step r r' →
  db_step db (db {{ task_records ::= <[id := r']> }}).
Proof.
  intros Hr Hs. unfold db_step. rewrite tasks_update. split_and!; [| |done..].
  - intros i x Hx. destruct (decide (i = id)) as [->|Hne].
    + rewrite lookup_insert_eq. simplify_eq. eauto.
    + rewrite lookup_insert_ne by done. exists x. split; [done|]. apply row_step_refl.
  - intros i x Hx Hn. destruct (decide (i = id)) as [->|Hne]; [congruence|].
    rewrite lookup_insert_ne in Hx by done. congruence.
Qed.

Lemma applied_step id P f db db' :
  (∀ r, P r = true → row_step r (f r)) → applied id P f db db' → db_step db db'.
Proof. intros Hf (r & Hr & HP & ->). apply (db_step_row _ _ r); auto. Qed.

Lemma update_outcome_step id P f db r db' :
  (∀ r, P r = true → row_step r (f r)) → update_outcome id P f db r db' → db_step db db'.
Proof. intros Hf Ho. destruct Ho; eauto using applied_step, db_step_refl. Qed.

Lemma row_step_status r r' :
  identity_columns r' = identity_columns r → r_last_checkpoint r' = r_last_checkpoint r →
  proof_hashes r' = proof_hashes r → lifecycle (r_status r) (r_status r') → row_step r r'.
Proof.
  intros Hid Hcp Hp Hl. split_and!; [done| |].
  - right. split; [done|].
    intros m Hm. exists m. unfold row_watermark in *. rewrite Hcp. split; [done|lia].
  - unfold proof_hashes in Hp. injection Hp as Hp1 Hp2 Hp3.
    unfold proof_truthful. by rewrite Hp1, Hp2, Hp3.
Qed.

Lemma row_step_other r r' :
  identity_columns r' = identity_columns r → outcome_columns r' = outcome_columns r →
  (proof_truthful r → proof_truthful r') → row_step r r'.
Proof. intros Hid Ho Hp. split_and!; auto. Qed.

Lemma status_in_true l r : status_in l r = true ↔ r_status r ∈ l.
Proof. apply bool_decide_eq_true. Qed.
End Spec.

(** Discharge [row_step] of a column update: identity and checkpoint columns are
    untouched, the new status follows from the guard. *)
Ltac row_step_tac :=
  let r := fresh "r" in let Hg := fresh "Hg" in
  intros r Hg; apply row_step_status; [reflexivity|reflexivity|reflexivity|];
  repeat match goal with H : (_ && _)%bool = true |- _ => apply andb_true_iff in H as [_ H] end;
  apply status_in_true in Hg;
  first [ by constructor
        | apply list_elem_of_singleton in Hg; rewrite Hg; first [exact lc_approve | exact lc_reject] ].

Section Steps.
Context `{Ext} `{CheckpointCodec} `{UUIDSupply} `{SortSlice}.

(** An operation that performs at most one [db_step]. *)
Definition one_step {A} (m : ST World A) : Prop :=
  ∀ db, hoare (db_is db) m (λ _ w, db_step db (w_db w)).

Lemma one_step_transition id P f :
  (∀ r, P r = true → row_step r (f r)) → one_step (exec_transition (update_task id P f)).
Proof.
  intros Hf db. eapply hoare_conseq; [apply hoare_exec_transition|done|].
  intros r w Ho. exact (update_outcome_step _ _ _ _ _ _ Hf Ho).
Qed.

Lemma one_step_exec {A} (q : stmt A) : (∀ db, db_step db (q db).2) → one_step (exec q).
Proof.
  intros Hq db. eapply hoare_conseq; [apply hoare_exec|done|].
  intros r w [r' db' Hd| |]; [|apply db_step_refl|apply Hq].
  specialize (Hq db). by rewrite Hd in Hq.
Qed.

Lemma one_step_ret {A} (a : A) : one_step (mret a).
Proof. intros db. apply hoare_ret_db. intros w ->. apply db_step_refl. Qed.

(** Statements that do not touch the tables may come first. *)
Lemma one_step_after {A B} (m : ST World A) (k : A → ST World B) :
  (∀ db, hoare (db_is db) m (λ _, db_is db)) → (∀ a, one_step (k a)) → one_step (m ≫= k).
Proof.
  intros Hm Hk db. eapply (hoare_bind_db _ _ _ (λ _ db', db' = db)); [apply Hm|].
  intros a db' ->. apply Hk.
Qed.

(** Statements that cannot change the result may come last. *)
Lemma one_step_then_ret {A B} (m : ST World A) (g : A → B) :
  one_step m → one_step (m ≫= λ a, mret (g a)).
Proof.
  intros Hm db. eapply (hoare_bind_db _ _ _ (λ _ db', db_step db db')); [apply Hm|].
  intros a db' Hs. apply hoare_ret_db. by intros w ->.
Qed.

Lemma MarkDispatched_step id rt ep : one_step (MarkDispatched id rt ep).
Proof. apply one_step_after; [apply hoare_time_now|]. intros now. apply one_step_transition. row_step_tac. Qed.
Lemma MarkCompleted_step id : one_step (MarkCompleted id).
Proof. apply one_step_after; [apply hoare_time_now|]. intros now. apply one_step_transition. row_step_tac. Qed.
Lemma MarkCanceled_step id : one_step (MarkCanceled id).
Proof. apply one_step_after; [apply hoare_time_now|]. intros now. apply one_step_transition. row_step_tac. Qed.
Lemma MarkApprovalRequired_step id reason : one_step (MarkApprovalRequired id reason).
Proof. apply one_step_transition. row_step_tac. Qed.
Lemma MarkApprovedDispatched_step id tenant rt ep by_ : one_step (MarkApprovedDispatched id tenant rt ep by_).
Proof. apply one_step_after; [apply hoare_time_now|]. intros now. apply one_step_transition. row_step_tac. Qed.
Lemma MarkApprovalRejected_step id tenant reason d : one_step (MarkApprovalRejected id tenant reason d).
Proof. apply one_step_transition. row_step_tac. Qed.

Lemma mark_recovering_step rt db : db_step db (mark_recovering rt db).2.
Proof.
  unfold db_step, mark_recovering. cbn [snd]. rewrite tasks_update. split_and!; [| |done..].
  - intros id r Hr. rewrite lookup_fmap, Hr. eexists; split; [done|].
    destruct (recoverable_on rt r) eqn:Hrec; [|apply row_step_refl].
    apply andb_true_iff in Hrec as [_ Hrec]. apply status_in_true in Hrec.
    apply row_step_status; [done..|]. by constructor.
  - intros id r' Hr' Hn. rewrite lookup_fmap, Hn in Hr'. done.
Qed.

Lemma MarkRecovering_step rt : one_step (MarkRecovering rt).
Proof. apply one_step_exec. apply mark_recovering_step. Qed.

Lemma fail_row_step reason d r :
  status_in [TaskStatusDispatched; TaskStatusCheckpointed; TaskStatusRecovering] r = true →
  row_step r (fail_row reason d r).
Proof. revert r. row_step_tac. Qed.

Lemma markFailedRecord_step id reason d : one_step (markFailedRecord id reason d).
Proof. apply one_step_transition. apply fail_row_step. Qed.

(** ** Failing a task *)

Definition fail_guard : task_row → bool :=
  status_in [TaskStatusDispatched; TaskStatusCheckpointed; TaskStatusRecovering].

Definition is_failed (id : uuid) (db : DB) : Prop :=
  ∃ r, task_records db !! id = Some r ∧ r_status r = TaskStatusFailed.

Lemma applied_failed id reason dt db db' :
  applied id fail_guard (fail_row reason dt) db db' → is_failed id db'.
Proof.
  intros (r & Hr & _ & ->). exists (fail_row reason dt r). split; [|done].
  rewrite tasks_update. apply lookup_insert_eq.
Qed.

Lemma add_observations_tables t id d db l :
  let db' := foldl (add_observation t id d) db l in
  task_records db' = task_records db ∧ wal_checkpoints db' = wal_checkpoints db ∧
  bound_runs db' = bound_runs db ∧ bindings db' = bindings db ∧
  reconciliation_events db `prefix_of` reconciliation_events db'.
Proof.
  revert db. induction l as [|run l IH]; intros db; cbn [foldl]; [done|].
  destruct (IH (add_observation t id d db run)) as (Ht & Hw & Hb & Hbi & Hp).
  rewrite Ht, Hw, Hb, Hbi. unfold add_observation in Hp |- *.
  destruct (observed _ _ _); [done|]. split_and!; [done..|].
  etrans; [|exact Hp]. by apply prefix_app_r.
Qed.

(** The observation statement only appends observations of its own task, at
    most one per tenant. *)
Lemma insert_observation_tables id d db :
  let db' := (insert_observation id d db).2 in
  task_records db' = task_records db ∧ wal_checkpoints db' = wal_checkpoints db ∧
  bound_runs db' = bound_runs db ∧ bindings db' = bindings db ∧
  reconciliation_events db `prefix_of` reconciliation_events db'.
Proof.
  unfold insert_observation. destruct (task_records db !! id) as [t|]; [|done].
  case_match; [|done]. apply add_observations_tables.
Qed.

(** All the tables a failing task can be left with. *)
Inductive fail_tables (id : uuid) (reason : string) (dt : option string) (details : option TaskFailureDetails)
    (db : DB) : DB → Prop :=
| ft_same : fail_tables id reason dt details db db
| ft_failed db' :
    applied id fail_guard (fail_row reason dt) db db' → fail_tables id reason dt details db db'
| ft_observed d db1 :
    details = Some d → IsTypedReconciliationFailure details = true →
    applied id fail_guard (fail_row reason dt) db db1 →
    fail_tables id reason dt details db (insert_observation id d db1).2.

Lemma fail_tables_step id reason dt details db db' :
  fail_tables id reason dt details db db' → db_step db db'.
Proof.
  intros [|db1 Ha|d db1 _ _ Ha]; [apply db_step_refl| |];
    apply (applied_step _ _ _ _ _ (fail_row_step reason dt)) in Ha; [done|].
  destruct (insert_observation_tables id d db1) as (Ht & Hw & Hb & Hbi & Hr).
  destruct Ha as (Hrows & Hnew & Hwal & Hbr & Hrec & Hbind). unfold db_step.
  rewrite Ht, Hw, Hb, Hbi. split_and!; try done. by etrans.
Qed.

Lemma fail_tables_failed id reason dt details db db' :
  fail_tables id reason dt details db db' → db' = db ∨ is_failed id db'.
Proof.
  intros [|db1 Ha|d db1 _ _ Ha]; [by left|right; by eapply applied_failed|right].
  apply applied_failed in Ha as (r & Hr & Hs). exists r.
  destruct (insert_observation_tables id d db1) as (-> & _). done.
Qed.

Lemma hoare_markFailedRecord id reason dt db :
  hoare (db_is db) (markFailedRecord id reason dt)
    (λ r w, update_outcome id fail_guard (fail_row reason dt) db r (w_db w)).
Proof. apply hoare_exec_transition. Qed.

Lemma update_outcome_fail id reason dt details db r db' :
  update_outcome id fail_guard (fail_row reason dt) db r db' →
  fail_tables id reason dt details db db' ∧ (r = Ok tt → is_failed id db').
Proof.
  intros [db1 Ha| | |db1 Ha]; split; eauto using ft_failed, ft_same, applied_failed; done.
Qed.

(** A failure recorded after the tables [db1] were committed or not. *)
Lemma hoare_ensureTaskFailedRecord id reason dt details db :
  hoare (db_is db) (ensureTaskFailedRecord id reason dt)
    (λ r w, fail_tables id reason dt details db (w_db w) ∧ (r = Ok tt → is_failed id (w_db w))).
Proof.
  unfold ensureTaskFailedRecord. eapply hoare_bind_db; [apply hoare_markFailedRecord|].
  intros r db' Ho. pose proof (update_outcome_fail _ _ _ details _ _ _ Ho) as [Hft Hfd].
  destruct r as [[]|e].
  { apply hoare_ret_db. by intros w ->. }
  destruct (errors_is e ErrTaskTransitionRejected); cbn [negb].
  2:{ apply hoare_ret_db. by intros w ->. }
  eapply hoare_bind_db; [apply hoare_exec|]. intros q db2 Hq.
  assert (db2 = db') as ->.
  { destruct Hq as [q db2 Hq| |]; [|done..]. unfold select_task in Hq. naive_solver. }
  destruct q as [row|]; apply hoare_ret_db; intros w ->; (split; [done|]); [|done].
  case_bool_decide as Hst; [|done]. intros _.
  inversion Hq as [? ? Hsel| |]; subst. unfold select_task in Hsel.
  destruct (task_records db' !! id) as [r|] eqn:Hr; [|done]. injection Hsel as <-. by exists r.
Qed.

Lemma fail_tables_idle id reason dt db db' :
  is_failed id db → fail_tables id reason dt None db db' → db' = db.
Proof.
  intros (r & Hr & Hs) [|db1 (r' & Hr' & Hg & _)|d db1 ? _ _]; [done| |done].
  simplify_eq. apply status_in_true in Hg. rewrite Hs in Hg. set_unfold. naive_solver.
Qed.

Lemma tx_mark_failed id reason dt db n db1 :
  mark_failed id reason dt db = (Ok n, db1) →
  taskTransitionResult (Ok n) = Ok tt → applied id fail_guard (fail_row reason dt) db db1.
Proof.
  unfold mark_failed. fold fail_guard. intros Hq Hn.
  destruct (update_task_spec id fail_guard (fail_row reason dt) db) as [(r & Hr & HP & Hu)|[_ Hu]];
    rewrite Hu in Hq; injection Hq as <- <-; [by exists r|done].
Qed.

Lemma hoare_MarkFailedWithDetails id reason details db :
  hoare (db_is db) (MarkFailedWithDetails id reason details)
    (λ r w, fail_tables id reason (details_text details) details db (w_db w) ∧
            (r = Ok tt → is_failed id (w_db w))).
Proof.
  set (dt := details_text details).
  assert (∀ db0, hoare (db_is db0) (markFailedRecord id reason dt)
    (λ r w, fail_tables id reason dt details db0 (w_db w) ∧ (r = Ok tt → is_failed id (w_db w)))) as Hplain.
  { intros db0. eapply hoare_conseq; [apply hoare_markFailedRecord|done|].
    intros r w. apply update_outcome_fail. }
  unfold MarkFailedWithDetails. fold dt. destruct details as [d|] eqn:Hd; [|apply Hplain].
  destruct (IsTypedReconciliationFailure (Some d)) eqn:Htyped; cbn [negb]; [|apply Hplain].
  eapply (hoare_bind_db _ _ _ (λ r db', db' = db ∧ ∀ x, r = Ok x → x = db)); [apply hoare_tx_begin|].
  intros [db0|e] db' [-> Hdb0]; [|apply Hplain]. rewrite (Hdb0 _ eq_refl). clear db0 Hdb0.
  eapply (hoare_bind_db _ _ _ (λ r db', db' = db ∧
    ∀ n db1, r = Ok (n, db1) → mark_failed id reason dt db = (Ok n, db1))); [apply hoare_tx_exec|].
  intros [[n db1]|e] db' [-> Hmf]; [|apply hoare_ret_db; intros w ->; split; [constructor|done]].
  destruct (taskTransitionResult (Ok n)) as [[]|e] eqn:Hn;
    [|apply hoare_ret_db; intros w ->; split; [constructor|done]].
  pose proof (tx_mark_failed _ _ _ _ _ _ (Hmf _ _ eq_refl) Hn) as Happ. clear Hmf.
  eapply (hoare_bind_db _ _ _ (λ r db', db' = db ∧
    ∀ u db2, r = Ok (u, db2) → insert_observation id d db1 = (Ok u, db2))); [apply hoare_tx_exec|].
  intros [[u db2]|e] db' [-> Hobs]; [|apply Hplain]. specialize (Hobs _ _ eq_refl).
  assert (db2 = (insert_observation id d db1).2) as -> by (by rewrite Hobs).
  assert (is_failed id (insert_observation id d db1).2) as Hfailed.
  { apply applied_failed in Happ as (r & Hr & Hs). exists r.
    by destruct (insert_observation_tables id d db1) as (-> & _). }
  eapply hoare_bind_db; [apply hoare_tx_commit|]. intros c db' [ | | ].
  - apply hoare_ret_db. intros w ->. split; [by eapply ft_observed|done].
  - apply hoare_ensureTaskFailedRecord.
  - eapply hoare_conseq; [apply (hoare_ensureTaskFailedRecord _ _ _ None)|done|].
    intros r w [Hft _]. apply (fail_tables_idle _ _ _ _ _ Hfailed) in Hft. rewrite Hft.
    split; [by eapply ft_observed|done].
Qed.

Lemma MarkFailedWithDetails_step id reason details : one_step (MarkFailedWithDetails id reason details).
Proof.
  intros db. eapply hoare_conseq; [apply hoare_MarkFailedWithDetails|done|].
  intros r w [Hft _]. by eapply fail_tables_step.
Qed.

(** ** Creating a task *)

Lemma find_by_key_Some tenant key db r :
  find_by_key tenant key db = Some r →
  ∃ id, task_records db !! id = Some r ∧ r_tenant_id r = tenant ∧ r_idempotency_key r = key.
Proof.
  unfold find_by_key. intros Hh.
  assert (r ∈ filter (λ r, same_key tenant key r = true) ((map_to_list (task_records db)).*2)) as Hin.
  { destruct (filter _ _); simplify_eq/=. set_solver. }
  apply list_elem_of_filter in Hin as [Hk Hin]. apply list_elem_of_fmap in Hin as ([id r'] & -> & Hin).
  apply elem_of_map_to_list in Hin. exists id. split; [done|].
  apply andb_true_iff in Hk as [Hk1%bool_decide_eq_true Hk2%bool_decide_eq_true]. done.
Qed.

Lemma find_by_key_None tenant key db id r :
  find_by_key tenant key db = None → task_records db !! id = Some r →
  ¬ (r_tenant_id r = tenant ∧ r_idempotency_key r = key).
Proof.
  unfold find_by_key. intros Hh Hr [Ht Hk].
  assert (r ∈ filter (λ r, same_key tenant key r = true) ((map_to_list (task_records db)).*2)) as Hin.
  { apply list_elem_of_filter. split; [|].
    - unfold same_key. by rewrite !bool_decide_true.
    - apply list_elem_of_fmap. exists (id, r). split; [done|]. by apply elem_of_map_to_list. }
  destruct (filter _ _); [set_solver|done].
Qed.

(** The tables after a new task was inserted, with its bound run or without. *)
Definition created (task : TaskRecord) (definition : string) (now : time) (db db' : DB) : Prop :=
  find_by_key (t_TenantID task) (t_IdempotencyKey task) db = None ∧
  task_records db !! t_TaskID task = None ∧
  let db1 := db {{ task_records ::= <[t_TaskID task := new_row task definition now]> }} in
  match t_BoundAction task with
  | None => db' = db1
  | Some bound =>
    let run := mkBoundRun (t_TaskID task) (t_TenantID task) bound in
    bound_incomplete bound = false ∧ bound_run_admissible db1 run = true ∧
    db' = db1 {{ bound_runs ::= λ l, l ++ [run] }}
  end.

Lemma insert_task_spec task definition now db :
  (∃ r, find_by_key (t_TenantID task) (t_IdempotencyKey task) db = Some r ∧
        insert_task task definition now db = (Ok 0, db)) ∨
  (find_by_key (t_TenantID task) (t_IdempotencyKey task) db = None ∧
   ((is_Some (task_records db !! t_TaskID task) ∧
     insert_task task definition now db = (Err constraint_error, db)) ∨
    (task_records db !! t_TaskID task = None ∧
     insert_task task definition now db =
       (Ok 1, db {{ task_records ::= <[t_TaskID task := new_row task definition now]> }})))).
Proof.
  unfold insert_task. destruct (find_by_key _ _ db) as [r|]; [left; eauto|right; split; [done|]].
  destruct (task_records db !! t_TaskID task) eqn:Hr; [left|right]; eauto.
Qed.

(** Every outcome of [CreateTask]: [true] only with the task created, [false]
    only when the tenant already had a task under this key. *)
Lemma hoare_CreateTask task db :
  hoare (db_is db) (CreateTask task) (λ r w,
    (w_db w = db ∨ ∃ definition now, marshal_raw (t_TaskDefinition task) = Ok definition ∧
                     created task definition now db (w_db w)) ∧
    match r with
    | Ok true => ∃ definition now, created task definition now db (w_db w)
    | Ok false => w_db w = db ∧ is_Some (find_by_key (t_TenantID task) (t_IdempotencyKey task) db)
    | Err _ => True
    end).
Proof.
  unfold CreateTask. destruct (marshal_raw _) as [definition|e] eqn:Hdef;
    [|apply hoare_ret_db; intros w ->; auto].
  destruct (t_BoundAction task) as [bound|] eqn:Hb.
  - eapply (hoare_bind_err_db _ _ _ (λ r db', db' = db ∧ ∀ x, r = Ok x → x = db)); [apply hoare_tx_begin| |].
    2:{ intros e w [-> _]. auto. }
    intros db0 db' [-> Hdb0]. rewrite (Hdb0 _ eq_refl). clear db0 Hdb0.
    eapply (hoare_bind_db _ _ _ (λ _ db', db' = db)); [apply hoare_time_now|]. intros now db' ->.
    eapply (hoare_bind_err_db _ _ _ (λ r db', db' = db ∧
      ∀ n db1, r = Ok (n, db1) → insert_task task definition now db = (Ok n, db1))); [apply hoare_tx_exec| |].
    2:{ intros e w [-> _]. auto. }
    intros [n db1] db' [-> Hins]. specialize (Hins _ _ eq_refl).
    destruct (insert_task_spec task definition now db) as [(r & Hr & Hq)|(Hnone & [[_ Hq]|[Hfree Hq]])];
      rewrite Hq in Hins; [|done|]; injection Hins as <- <-.
    + cbn [Z.eqb]. eapply hoare_bind_err_db; [apply hoare_tx_commit| |].
      * intros [] db' Hc. apply hoare_ret_db. intros w ->. inversion Hc; subst; eauto.
      * intros e w Hc. inversion Hc; auto.
    + cbn [Z.eqb]. unfold insertBoundActionRun. rewrite Hb.
      set (run := mkBoundRun (t_TaskID task) (t_TenantID task) bound).
      set (db1 := db {{ task_records ::= <[t_TaskID task := new_row task definition now]> }}).
      destruct (bound_incomplete bound) eqn:Hinc.
      { eapply (hoare_bind_err_db _ _ _ (λ r db', db' = db ∧ is_ok r = false));
          [by apply hoare_ret_db|by intros ? ? [_ ?]|]. intros e w [-> _]. auto. }
      eapply (hoare_bind_err_db _ _ _ (λ r db', db' = db ∧
        ∀ u db2, r = Ok (u, db2) → insert_bound_run run db1 = (Ok u, db2))); [apply hoare_tx_exec| |].
      2:{ intros e w [-> _]. auto. }
      intros [u db2] db' [-> Hrun]. specialize (Hrun _ _ eq_refl).
      unfold insert_bound_run in Hrun. destruct (bound_run_admissible db1 run) eqn:Hadm; [|done].
      injection Hrun as <- <-.
      assert (created task definition now db (db1 {{ bound_runs ::= λ l, l ++ [run] }})) as Hcr.
      { split_and!; [done..|]. by rewrite Hb. }
      eapply hoare_bind_err_db; [apply hoare_tx_commit| |].
      * intros [] db' Hc. apply hoare_ret_db. intros w ->. inversion Hc; subst. eauto 10.
      * intros e w Hc. inversion Hc; eauto 10.
  - eapply (hoare_bind_db _ _ _ (λ _ db', db' = db)); [apply hoare_time_now|]. intros now db' ->.
    assert (∀ n db1, insert_task task definition now db = (Ok n, db1) →
      n = 0 ∧ db1 = db ∧ is_Some (find_by_key (t_TenantID task) (t_IdempotencyKey task) db) ∨
      n = 1 ∧ created task definition now db db1) as Hok.
    { intros n db1 Hq. destruct (insert_task_spec task definition now db)
        as [(r & Hr & Hq')|(Hnone & [[_ Hq']|[Hfree Hq']])]; rewrite Hq' in Hq; [left|done|right];
        injection Hq as <- <-; [by rewrite Hr; eauto|]. split; [done|]. split_and!; [done..|]. by rewrite Hb. }
    eapply hoare_bind_err_db; [apply hoare_exec| |].
    + intros n db' Ho. apply hoare_ret_db. intros w ->. inversion Ho as [? ? Hq| |]; subst.
      apply Hok in Hq as [(-> & -> & Hs)|(-> & Hcr)]; cbn [Z.eqb Pos.eqb]; eauto 10.
    + intros e w Ho. split; [|done]. inversion Ho as [? ? Hq| |]; subst; [|by left|].
      * destruct (insert_task_spec task definition now db)
          as [(r & Hr & Hq')|(Hnone & [[_ Hq']|[Hfree Hq']])]; rewrite Hq' in Hq; try done.
        injection Hq as <- <-. by left.
      * destruct (insert_task_spec task definition now db)
          as [(r & Hr & Hq')|(Hnone & [[_ Hq']|[Hfree Hq']])]; rewrite Hq'; [by left..|].
        right. exists definition, now. split; [done|]. split_and!; [done..|]. by rewrite Hb.
Qed.

Lemma created_step task definition now db db' : created task definition now db db' → db_step db db'.
Proof.
  intros (_ & Hfree & Hdb').
  set (db1 := db {{ task_records ::= <[t_TaskID task := new_row task definition now]> }}) in Hdb'.
  assert (db_step db db1) as Hstep.
  { unfold db_step, db1. rewrite tasks_update. split_and!; [| |done..].
    - intros id r Hr. exists r. rewrite lookup_insert_ne by congruence.
      split; [done|apply row_step_refl].
    - intros id r Hr Hn. destruct (decide (id = t_TaskID task)) as [->|Hne].
      + rewrite lookup_insert_eq in Hr. by injection Hr as <-.
      + rewrite lookup_insert_ne in Hr by done. congruence. }
  destruct (t_BoundAction task) as [b|]; [|by rewrite Hdb'].
  destruct Hdb' as (_ & _ & ->). destruct Hstep as (Hr & Hn & Hw & Hb & Hc & Hbi).
  split_and!; try done. by apply prefix_app_r.
Qed.

Lemma CreateTask_step task : one_step (CreateTask task).
Proof.
  intros db. eapply hoare_conseq; [apply hoare_CreateTask|done|].
  intros r w [[->|(definition & now & _ & Hc)] _]; [apply db_step_refl|by eapply created_step].
Qed.

(** ** Saving a checkpoint *)

Definition checkpoint_accepted (cp : CheckpointPayload) : Prop :=
  TaskCheckpointWatermarkConsistent (Some cp) = true ∧
  TaskCheckpointEntriesBelongToTask (Some cp) = true ∧
  TaskCheckpointEntriesHaveStableIDs (Some cp) = true.

Definition checkpoint_row (text : string) (r : task_row) : task_row :=
  r {{ r_status := TaskStatusCheckpointed; r_last_checkpoint := Some text }}.

Definition wal_row_of (cp : CheckpointPayload) (text : string) : wal_row :=
  mkWalRow (cp_TaskID cp) (LastStep cp) (decodeHexToBytes (CheckpointDigest (cp_ResumeToken cp))) text.

(** The tables after a checkpoint was stored. *)
Definition saved (cp : CheckpointPayload) (db db' : DB) : Prop :=
  ∃ r text, checkpoint_accepted cp ∧ marshalCheckpoint cp = Ok text ∧
    task_records db !! cp_TaskID cp = Some r ∧ fail_guard r = true ∧ checkpoint_stale r cp = false ∧
    LastStep cp ≤ int32_max ∧
    db' = db {{ task_records ::= <[cp_TaskID cp := checkpoint_row text r]>;
                wal_checkpoints ::= λ l, l ++ [wal_row_of cp text] }}.

Lemma hoare_SaveCheckpoint ocp db :
  hoare (db_is db) (SaveCheckpoint ocp) (λ r w,
    (w_db w = db ∧ r ≠ Ok tt) ∨ ∃ cp, ocp = Some cp ∧ saved cp db (w_db w)).
Proof.
  unfold SaveCheckpoint.
  assert (∀ e, hoare (db_is db) (mret (Err e) : ST World (res ())) (λ r w,
    (w_db w = db ∧ r ≠ Ok tt) ∨ ∃ cp, ocp = Some cp ∧ saved cp db (w_db w))) as Hrej.
  { intros e. apply hoare_ret_db. intros w ->. by left. }
  destruct (TaskCheckpointWatermarkConsistent ocp) eqn:Hc1; cbn [negb]; [|apply Hrej].
  destruct (TaskCheckpointEntriesBelongToTask ocp) eqn:Hc2; cbn [negb]; [|apply Hrej].
  destruct (TaskCheckpointEntriesHaveStableIDs ocp) eqn:Hc3; cbn [negb]; [|apply Hrej].
  destruct ocp as [cp|]; [|apply Hrej].
  destruct (marshalCheckpoint cp) as [text|e] eqn:Hm; [|apply Hrej].
  eapply (hoare_bind_err_db _ _ _ (λ r db', db' = db ∧ ∀ x, r = Ok x → x = db)); [apply hoare_tx_begin| |].
  2:{ intros e w [-> _]. by left. }
  intros db0 db' [-> Hdb0]. rewrite (Hdb0 _ eq_refl). clear db0 Hdb0.
  eapply (hoare_bind_db _ _ _ (λ r db', db' = db ∧
    ∀ row db1, r = Ok (row, db1) → select_task (cp_TaskID cp) (λ _, true) db = (Ok row, db1)));
    [apply hoare_tx_exec|].
  intros [[row db1]|e] db' [-> Hsel]; [|apply Hrej]. specialize (Hsel _ _ eq_refl).
  unfold select_task in Hsel. destruct (task_records db !! cp_TaskID cp) as [r|] eqn:Hr; [|done].
  injection Hsel as <- <-. destruct (checkpoint_stale r cp) eqn:Hst; [apply Hrej|].
  eapply (hoare_bind_db _ _ _ (λ u db', db' = db ∧
    ∀ n db1, u = Ok (n, db1) → checkpoint_status cp text db = (Ok n, db1))); [apply hoare_tx_exec|].
  intros u db' [-> Hup].
  destruct u as [[n db1]|e]; unfold wrap_err; [|apply Hrej]. specialize (Hup _ _ eq_refl).
  eapply (hoare_bind_err_db _ _ _ (λ x db', x = Ok (n, db1) ∧ db' = db)); [by apply hoare_ret_db| |].
  2:{ intros e w [? _]. done. }
  intros x db' [[= ->] ->]. unfold checkpoint_status in Hup.
  destruct (update_task_spec (cp_TaskID cp) fail_guard (checkpoint_row text) db)
    as [(r' & Hr' & HP & Hu)|[_ Hu]]; fold fail_guard (checkpoint_row text) in Hup;
    rewrite Hu in Hup; injection Hup as <- <-.
  2:{ eapply (hoare_bind_err_db _ _ _ (λ x db', x = Err ErrTaskTransitionRejected ∧ db' = db));
        [by apply hoare_ret_db|by intros ? ? [? _]|]. intros e w [_ ->]. by left. }
  simplify_eq.
  eapply (hoare_bind_err_db _ _ _ (λ x db', x = Ok tt ∧ db' = db)); [by apply hoare_ret_db| |].
  2:{ by intros e w [? _]. }
  intros _ db' [_ ->].
  set (db1 := db {{ task_records ::= <[cp_TaskID cp := checkpoint_row text r]> }}).
  eapply (hoare_bind_db _ _ _ (λ i db', db' = db ∧
    ∀ u db2, i = Ok (u, db2) → insert_checkpoint cp text db1 = (Ok u, db2))); [apply hoare_tx_exec|].
  intros i db' [-> Hins]. destruct i as [[u db2]|e]; unfold wrap_err; [|apply Hrej].
  specialize (Hins _ _ eq_refl). unfold insert_checkpoint in Hins.
  destruct (Z.ltb_spec int32_max (LastStep cp)) as [|Hint]; [done|]. injection Hins as _ <-.
  eapply (hoare_bind_err_db _ _ _ (λ x db', (∃ v, x = Ok (v, db1 {{ wal_checkpoints ::= λ l, l ++ [wal_row_of cp text] }})) ∧ db' = db));
    [apply hoare_ret_db; by eauto| |].
  2:{ intros e w [[v ?] _]. done. }
  intros [v db2] db' [[v' [= _ ->]] ->].
  eapply hoare_conseq; [apply hoare_tx_commit|done|].
  assert (saved cp db (db1 {{ wal_checkpoints ::= λ l, l ++ [wal_row_of cp text] }})) as Hsaved.
  { exists r, text. split_and!; done. }
  intros c w Hc. inversion Hc; subst; eauto.
Qed.
End Steps.

(** ** The integrity invariant *)
Section Invariant.
Context `{Ext} `{CheckpointCodec} `{!CheckpointCodecLaws} `{UUIDSupply} `{SortSlice}.

(** A usable checkpoint stays usable through its text. *)
Lemma watermark_loop_same last es es' m :
  Forall2 same_entry es es' → watermark_loop last es' m = watermark_loop last es m.
Proof.
  intros HF. revert m. induction HF as [|e e' es es' (_ & _ & Hs & _) _ IH]; intros m; [done|].
  cbn [watermark_loop]. rewrite Hs. destruct (_ <? _); [done|]. apply IH.
Qed.

Lemma usable_same taskID cp cp' :
  same_checkpoint cp cp' → TaskRecoveryCheckpointUsable taskID (Some cp) = true →
  TaskRecoveryCheckpointUsable taskID (Some cp') = true.
Proof.
  intros (Hid & Htok & HF) (Hn & Ht & Hw & Htasks & Hids)%usable_spec.
  assert (LastStep cp' = LastStep cp) as Hlast by (unfold LastStep; by rewrite Htok).
  apply usable_spec. split_and!; [done|congruence|..].
  - unfold TaskCheckpointWatermarkConsistent in *. rewrite Hlast.
    destruct HF as [|e e' es es' He HF]; [done|].
    by rewrite (watermark_loop_same _ (e :: es)) by (by constructor).
  - clear -HF Htasks. induction HF as [|e e' es es' (_ & Ht & _ & _) _ IH]; [done|].
    apply Forall_cons in Htasks as [? ?]. constructor; [congruence|auto].
  - clear -HF Hids. induction HF as [|e e' es es' (Ht & _ & _ & _) _ IH]; [done|].
    apply Forall_cons in Hids as [? ?]. constructor; [congruence|auto].
Qed.

Lemma accepted_usable cp :
  checkpoint_accepted cp → TaskRecoveryCheckpointUsable (cp_TaskID cp) (Some cp) = true.
Proof.
  intros (Hw & Hb & Hs). apply usable_spec. apply entries_belong_spec in Hb as [Hn Hb].
  apply entries_stable_spec in Hs. done.
Qed.

(** The stored text decodes to the watermark that was saved. *)
Lemma checkpoint_row_watermark cp text r :
  marshalCheckpoint cp = Ok text → row_watermark (checkpoint_row text r) = Some (LastStep cp).
Proof.
  intros (Hne & cp' & Hu & Hsame)%checkpoint_roundtrip. unfold row_watermark, decodeCheckpointPayload.
  change (r_last_checkpoint (checkpoint_row text r)) with (Some text).
  cbv iota. rewrite bool_decide_false by done. rewrite Hu. cbn. f_equal.
  destruct Hsame as (_ & Htok & _). unfold LastStep. by rewrite Htok.
Qed.

Lemma not_stale_watermark r cp m :
  checkpoint_stale r cp = false → row_watermark r = Some m → m < LastStep cp.
Proof.
  unfold checkpoint_stale, row_watermark. destruct (decodeCheckpointPayload _) as [c|]; [|done].
  intros Hst [= <-]. apply negb_false_iff in Hst. cbn in Hst. lia.
Qed.

Lemma saved_row_step cp text r :
  marshalCheckpoint cp = Ok text → fail_guard r = true → checkpoint_stale r cp = false →
  row_step r (checkpoint_row text r).
Proof.
  intros Hm Hg Hst. split_and!; [reflexivity| |by intros ?]. right. split.
  - apply status_in_true in Hg. change (r_status (checkpoint_row text r)) with TaskStatusCheckpointed.
    by constructor.
  - intros m Hw. exists (LastStep cp). split; [by apply checkpoint_row_watermark|].
    apply (not_stale_watermark _ _ _ Hst) in Hw. lia.
Qed.

Lemma saved_step cp db db' : saved cp db db' → db_step db db'.
Proof.
  intros (r & text & _ & Hm & Hr & Hg & Hst & _ & ->).
  destruct (db_step_row db (cp_TaskID cp) r (checkpoint_row text r) Hr) as (Ha & Hb & _);
    [by apply (saved_row_step cp)|].
  split_and!; try done. by apply prefix_app_r.
Qed.

Lemma SaveCheckpoint_step ocp : one_step (SaveCheckpoint ocp).
Proof.
  intros db. eapply hoare_conseq; [apply hoare_SaveCheckpoint|done|].
  intros r w [[-> _]|(cp & _ & Hs)]; [apply db_step_refl|by eapply saved_step].
Qed.

(** The steps of a task's stored checkpoints, in the order they were stored. *)
Definition steps_of (id : uuid) (db : DB) : list Z :=
  wr_step_index <$> filter (λ x, wr_task_id x = id) (wal_checkpoints db).

Definition observations (db : DB) : list (string * uuid) :=
  (λ x, (rc_tenant_id x, rc_task_id x)) <$> filter (λ x, is_observation x = true) (reconciliation_events db).

(** An event is the observation of an unknown effect, or the resolution of one. *)
Definition event_shape (seen : list (string * uuid)) (x : reconciliation_row) : Prop :=
  (is_observation x = true ∧ rc_resolution x = None ∧ rc_operator_request_id x = None) ∨
  (is_observation x = false ∧ (∃ r, rc_resolution x = Some r ∧ r ∈ resolutions) ∧ is_Some (rc_operator_request_id x) ∧
   (rc_tenant_id x, rc_task_id x) ∈ seen).

(** The identities of the terminal resolutions and of the operators' requests. *)
Definition terminals (l : list reconciliation_row) : list (string * uuid) :=
  (λ x, (rc_tenant_id x, rc_task_id x)) <$> filter (λ x, is_terminal_event x = true) l.
Definition requests (l : list reconciliation_row) : list (string * uuid * uuid) :=
  omap (λ x, (λ q, (rc_tenant_id x, rc_task_id x, q)) <$> rc_operator_request_id x) l.

Record events_ok (db : DB) : Prop := {
  ev_shape : ∀ x, x ∈ reconciliation_events db → event_shape (observations db) x;
  ev_terminal_once : NoDup (terminals (reconciliation_events db));
  ev_request_once : NoDup (requests (reconciliation_events db));
}.

Record db_ok (db : DB) : Prop := {
  ok_ids : ∀ id r, task_records db !! id = Some r → r_task_id r = id;
  ok_keys : ∀ id id' r r', task_records db !! id = Some r → task_records db !! id' = Some r' →
    r_tenant_id r = r_tenant_id r' → r_idempotency_key r = r_idempotency_key r' → id = id';
  ok_steps : ∀ id, StronglySorted Z.lt (steps_of id db);
  ok_watermark : ∀ id r, task_records db !! id = Some r → row_watermark r = last (steps_of id db);
  ok_wal_tasks : ∀ x, x ∈ wal_checkpoints db → is_Some (task_records db !! wr_task_id x);
  ok_wal_rows : ∀ x, x ∈ wal_checkpoints db →
    ∃ cp, unmarshalCheckpoint (wr_wal_entries x) = Some cp ∧ LastStep cp = wr_step_index x ∧
      TaskRecoveryCheckpointUsable (wr_task_id x) (Some cp) = true ∧ wr_step_index x ≤ int32_max;
  ok_runs : ∀ run, run ∈ bound_runs db →
    ∃ r, task_records db !! br_task_id run = Some r ∧ r_tenant_id r = br_tenant_id run;
  ok_run_keys : NoDup ((λ x, (br_tenant_id x, ba_BusinessIdempotencyKey (br_bound x))) <$> bound_runs db);
  ok_run_hashes : ∀ run, run ∈ bound_runs db →
    is_hash64 (ba_ContractHash (br_bound run)) = true ∧ is_hash64 (ba_TargetVersionHash (br_bound run)) = true;
  ok_observed_failed : ∀ x, x ∈ reconciliation_events db → is_observation x = true → is_failed (rc_task_id x) db;
  ok_observed_once : NoDup (observations db);
  ok_events : events_ok db;
  ok_proofs : ∀ id r, task_records db !! id = Some r → proof_truthful r;
}.

(** The invariant of the events depends on their table only. *)
Lemma events_ok_same db db' : reconciliation_events db' = reconciliation_events db → events_ok db → events_ok db'.
Proof. intros He [Hs Ht Hr]. split; unfold observations in *; by rewrite He. Qed.

Definition empty_db (bs : list binding_row) : DB := mkDB ∅ [] [] bs [] [] [] [] [] [] [] true.

Lemma empty_db_ok bs : db_ok (empty_db bs).
Proof.
  assert (events_ok (empty_db bs)) by (split; [by intros x ?%elem_of_nil|constructor..]).
  split; try done; cbn; try set_solver; try constructor; intros; simplify_map_eq.
Qed.

Lemma row_step_identity r r' : row_step r r' →
  r_task_id r' = r_task_id r ∧ r_tenant_id r' = r_tenant_id r ∧ r_idempotency_key r' = r_idempotency_key r.
Proof. intros [Hid _]. unfold identity_columns in Hid. naive_solver. Qed.

Lemma row_step_terminal r r' : row_step r r' → terminal (r_status r) → outcome_columns r' = outcome_columns r.
Proof. intros (_ & [?|[Hl _]] & _) Ht; [done|]. by apply lifecycle_not_terminal in Hl. Qed.

Lemma is_failed_step id db db' : db_step db db' → is_failed id db → is_failed id db'.
Proof.
  intros (Hrows & _) (r & Hr & Hs). apply Hrows in Hr as (r' & Hr' & Hstep). exists r'. split; [done|].
  apply row_step_terminal in Hstep; [|by right; left].
  unfold outcome_columns in Hstep. congruence.
Qed.

(** *** Preservation *)

(** Only rows changed, by steps that keep their checkpoint. *)
Definition rows_only (db db' : DB) : Prop :=
  db_step db db' ∧
  (∀ id r', task_records db' !! id = Some r' →
     ∃ r, task_records db !! id = Some r ∧ row_step r r' ∧ r_last_checkpoint r' = r_last_checkpoint r) ∧
  wal_checkpoints db' = wal_checkpoints db ∧ bound_runs db' = bound_runs db ∧
  reconciliation_events db' = reconciliation_events db.

Lemma rows_only_ok db db' : rows_only db db' → db_ok db → db_ok db'.
Proof.
  intros (Hstep & Hrows & Hw & Hb & Hrec) Hok. destruct Hstep as (Hfwd & Hrest). split.
  - intros id r' (r & Hr & Hs & _)%Hrows. apply row_step_identity in Hs as (-> & _). by eapply ok_ids.
  - intros id id' r1 r2 (x1 & Hx1 & Hs1 & _)%Hrows (x2 & Hx2 & Hs2 & _)%Hrows.
    apply row_step_identity in Hs1 as (_ & -> & ->). apply row_step_identity in Hs2 as (_ & -> & ->).
    by eapply ok_keys.
  - intros id. unfold steps_of. rewrite Hw. by apply ok_steps.
  - intros id r' (r & Hr & _ & Hcp)%Hrows. unfold row_watermark, steps_of. rewrite Hcp, Hw.
    by apply (ok_watermark db Hok).
  - rewrite Hw. intros x Hx. apply (ok_wal_tasks db Hok) in Hx as [r Hr].
    apply Hfwd in Hr as (r' & -> & _). by eexists.
  - rewrite Hw. apply (ok_wal_rows db Hok).
  - rewrite Hb. intros run (r & Hr & Ht)%(ok_runs db Hok). apply Hfwd in Hr as (r' & Hr' & Hs).
    exists r'. apply row_step_identity in Hs as (_ & -> & _). done.
  - rewrite Hb. apply (ok_run_keys db Hok).
  - rewrite Hb. apply (ok_run_hashes db Hok).
  - rewrite Hrec. intros x Hx Ho. eapply is_failed_step; [by split|]. by eapply ok_observed_failed.
  - unfold observations. rewrite Hrec. apply (ok_observed_once db Hok).
  - apply (events_ok_same db); [done|]. by apply ok_events.
  - intros id r' (r & Hr & (_ & _ & Hp) & _)%Hrows. by eapply Hp, ok_proofs.
Qed.

Lemma rows_only_refl db : rows_only db db.
Proof.
  split_and!; [apply db_step_refl| |done..]. intros id r Hr. exists r. split_and!; [done| |done].
  apply row_step_refl.
Qed.

Lemma applied_rows_only id P f db db' :
  (∀ r, P r = true → row_step r (f r) ∧ r_last_checkpoint (f r) = r_last_checkpoint r) →
  applied id P f db db' → rows_only db db'.
Proof.
  intros Hf Ha. split_and!.
  - eapply applied_step; [|exact Ha]. intros r HP. by apply Hf.
  - destruct Ha as (r & Hr & HP & ->). intros i x. rewrite tasks_update.
    destruct (decide (i = id)) as [->|Hne].
    + rewrite lookup_insert_eq. intros [= <-]. exists r. destruct (Hf r HP). done.
    + rewrite lookup_insert_ne by done. intros Hx. exists x. split_and!; [done| |done]. apply row_step_refl.
  - by destruct Ha as (r & _ & _ & ->).
  - by destruct Ha as (r & _ & _ & ->).
  - by destruct Ha as (r & _ & _ & ->).
Qed.

Lemma update_outcome_rows_only id P f db r db' :
  (∀ r, P r = true → row_step r (f r) ∧ r_last_checkpoint (f r) = r_last_checkpoint r) →
  update_outcome id P f db r db' → rows_only db db'.
Proof. intros Hf [ | | | ]; eauto using applied_rows_only, rows_only_refl. Qed.

Lemma mark_recovering_rows_only rt db : rows_only db (mark_recovering rt db).2.
Proof.
  split_and!; [apply mark_recovering_step| |done..]. unfold mark_recovering. cbn [snd].
  intros id r'. rewrite tasks_update, lookup_fmap. destruct (task_records db !! id) as [r|] eqn:Hr; [|done].
  intros [= <-]. exists r. split; [done|].
  destruct (recoverable_on rt r) eqn:Hrec; [|split; [apply row_step_refl|done]].
  apply andb_true_iff in Hrec as [_ Hrec]. apply status_in_true in Hrec.
  split; [|done]. apply row_step_status; [done..|]. by constructor.
Qed.

(** The observations of an append. *)
Lemma observed_spec tenant id db : observed tenant id db = true ↔ (tenant, id) ∈ observations db.
Proof.
  unfold observed, observations. rewrite existsb_exists, list_elem_of_fmap. split.
  - intros (x & Hx%list_elem_of_In & Ho). exists x.
    apply andb_true_iff in Ho as [[Ho Ht%bool_decide_eq_true]%andb_true_iff Hi%bool_decide_eq_true].
    rewrite list_elem_of_filter. by rewrite Ht, Hi.
  - intros (x & [= -> ->] & [Ho Hx]%list_elem_of_filter). exists x.
    split; [by apply list_elem_of_In|]. by rewrite Ho, !bool_decide_true.
Qed.

Lemma event_shape_mono seen seen' x : (∀ p, p ∈ seen → p ∈ seen') → event_shape seen x → event_shape seen' x.
Proof. intros Hs [?|(? & ? & ? & ?)]; [by left|]. right. auto. Qed.

(** Appending an event. *)
Lemma events_ok_append db x :
  event_shape (observations db) x →
  (is_terminal_event x = true → (rc_tenant_id x, rc_task_id x) ∉ terminals (reconciliation_events db)) →
  (∀ q, rc_operator_request_id x = Some q → (rc_tenant_id x, rc_task_id x, q) ∉ requests (reconciliation_events db)) →
  events_ok db → events_ok (db {{ reconciliation_events ::= λ l, l ++ [x] }}).
Proof.
  intros Hx Ht Hq [Hs Hts Hrs]. set (db' := db {{ reconciliation_events ::= _ }}).
  assert (∀ p, p ∈ observations db → p ∈ observations db') as Hmono.
  { intros p Hp. unfold observations, db'. rewrite recon_update, filter_app, fmap_app. by apply elem_of_app; left. }
  split; unfold db'; rewrite ?recon_update.
  - intros y Hy. eapply event_shape_mono; [exact Hmono|]. apply elem_of_app in Hy as [Hy|Hy]; [by apply Hs|].
    apply list_elem_of_singleton in Hy as ->. done.
  - unfold terminals. rewrite filter_app, fmap_app. apply NoDup_app. split_and!; [done| |].
    + intros p Hp (y & -> & [Hy ->%list_elem_of_singleton]%list_elem_of_filter)%list_elem_of_fmap. by apply Ht.
    + rewrite filter_cons. case_decide; [apply NoDup_singleton|constructor].
  - unfold requests. rewrite omap_app. apply NoDup_app. split_and!; [done| |].
    + intros p Hp Hin. cbn in Hin. destruct (rc_operator_request_id x) as [q|] eqn:Hrq; cbn in Hin; [|by apply elem_of_nil in Hin].
      apply list_elem_of_singleton in Hin. subst p. by apply (Hq q).
    + cbn. destruct (rc_operator_request_id x); cbn; [apply NoDup_singleton|constructor].
Qed.

Lemma add_observation_ok t id d db run :
  br_task_id run = id → is_failed id db → db_ok db → db_ok (add_observation t id d db run).
Proof.
  intros Hrun Hf Hok. unfold add_observation. destruct (observed _ _ _) eqn:Hobs; [done|].
  destruct Hok. split; try done; cbn [reconciliation_events].
  - intros x Hx Ho. apply elem_of_app in Hx as [Hx|Hx]; [by eapply ok_observed_failed0|].
    apply list_elem_of_singleton in Hx as ->. cbn. rewrite Hrun. exact Hf.
  - unfold observations. rewrite recon_update, filter_app, fmap_app. apply NoDup_app. split_and!; [done| |].
    + intros p Hp Hin. change (p ∈ [(br_tenant_id run, br_task_id run)]) in Hin.
      apply list_elem_of_singleton in Hin. subst p. rewrite Hrun in Hp.
      apply observed_spec in Hp. congruence.
    + apply NoDup_singleton.
  - apply events_ok_append; [by left|done|done|done].
Qed.

Lemma insert_observation_ok id d db :
  is_failed id db → db_ok db → db_ok (insert_observation id d db).2.
Proof.
  intros Hf Hok. unfold insert_observation. destruct (task_records db !! id) as [t|]; [|done].
  cbv zeta. destruct (forallb _ _); [|done]. cbn [snd].
  assert (∀ run, run ∈ filter (λ run, run_observable db id run = true) (bound_runs db) →
    br_task_id run = id) as Hall.
  { intros run [Ho _]%list_elem_of_filter. unfold run_observable in Ho. reflect_bools. done. }
  revert Hall. generalize (filter (λ run, run_observable db id run = true) (bound_runs db)). intros l Hall.
  revert db Hf Hok. induction l as [|run l IH]; intros db Hf Hok; [done|]. cbn [foldl]. apply IH.
  - set_solver.
  - destruct Hf as (r & Hr & Hs). exists r.
    destruct (add_observations_tables t id d db [run]) as (Ht & _). cbn in Ht. by rewrite Ht.
  - apply add_observation_ok; [set_solver|done..].
Qed.

Lemma fail_row_keeps reason dt r :
  fail_guard r = true →
  row_step r (fail_row reason dt r) ∧ r_last_checkpoint (fail_row reason dt r) = r_last_checkpoint r.
Proof. intros Hg. split; [by apply fail_row_step|done]. Qed.

Lemma fail_tables_ok id reason dt details db db' :
  fail_tables id reason dt details db db' → db_ok db → db_ok db'.
Proof.
  intros [|db1 Ha|d db1 _ _ Ha] Hok; [done| |].
  - eapply rows_only_ok; [|done]. eapply applied_rows_only; [|done]. apply fail_row_keeps.
  - apply insert_observation_ok; [by eapply applied_failed|].
    eapply rows_only_ok; [|done]. eapply applied_rows_only; [|done]. apply fail_row_keeps.
Qed.

(** Inserting a fresh row. *)
Lemma insert_row_ok db task definition now :
  find_by_key (t_TenantID task) (t_IdempotencyKey task) db = None →
  task_records db !! t_TaskID task = None → db_ok db →
  db_ok (db {{ task_records ::= <[t_TaskID task := new_row task definition now]> }}).
Proof.
  intros Hkey Hfree Hok. set (id0 := t_TaskID task). set (r0 := new_row task definition now).
  assert (steps_of id0 db = []) as Hsteps.
  { unfold steps_of. destruct (filter (λ x, wr_task_id x = id0) (wal_checkpoints db)) as [|x l] eqn:Hf; [done|].
    assert (x ∈ filter (λ x, wr_task_id x = id0) (wal_checkpoints db)) as Hx by (rewrite Hf; set_solver).
    apply list_elem_of_filter in Hx as [Hid Hx]. apply (ok_wal_tasks db Hok) in Hx as [r Hr].
    rewrite Hid in Hr. unfold id0 in Hr. congruence. }
  assert (∀ id r, <[id0 := r0]> (task_records db) !! id = Some r →
    (id = id0 ∧ r = r0) ∨ (id ≠ id0 ∧ task_records db !! id = Some r)) as Hcase.
  { intros id r Hr. destruct (decide (id = id0)) as [->|Hne].
    - rewrite lookup_insert_eq in Hr. naive_solver.
    - rewrite lookup_insert_ne in Hr by done. auto. }
  assert (∀ id r, task_records db !! id = Some r → <[id0 := r0]> (task_records db) !! id = Some r) as Hold.
  { intros id r Hr. rewrite lookup_insert_ne; [done|]. unfold id0. congruence. }
  destruct Hok. split; rewrite ?tasks_update; try done.
  - intros id r [[-> ->]|[_ Hr]]%Hcase; [done|]. by apply ok_ids0.
  - intros id id' r r' [[-> ->]|[_ Hr]]%Hcase [[-> ->]|[_ Hr']]%Hcase Ht Hk; [done|..|by eapply ok_keys0].
    + exfalso. by apply (find_by_key_None _ _ _ _ _ Hkey Hr').
    + exfalso. by apply (find_by_key_None _ _ _ _ _ Hkey Hr).
  - intros id r [[-> ->]|[_ Hr]]%Hcase; [|by apply ok_watermark0].
    unfold steps_of in *. cbn [wal_checkpoints]. change (row_watermark r0) with (@None Z).
    change (wal_checkpoints _) with (wal_checkpoints db). by rewrite Hsteps.
  - intros x [r Hr]%ok_wal_tasks0. exists r. by apply Hold.
  - intros run (r & Hr & Ht)%ok_runs0. exists r. split; [by apply Hold|done].
  - intros x Hx Ho. destruct (ok_observed_failed0 x Hx Ho) as (r & Hr & Hs). exists r.
    rewrite tasks_update. split; [by apply Hold|done].
  - by apply (events_ok_same db).
  - intros id r [[-> ->]|[_ Hr]]%Hcase; [by intros ?|]. by eapply ok_proofs0.
Qed.

(** Appending a bound run the constraints admit. *)
Lemma add_run_ok db run r :
  task_records db !! br_task_id run = Some r → r_tenant_id r = br_tenant_id run →
  bound_run_admissible db run = true → db_ok db → db_ok (db {{ bound_runs ::= λ l, l ++ [run] }}).
Proof.
  intros Hr Ht Hadm Hok. unfold bound_run_admissible in Hadm. reflect_bools.
  destruct Hok. split; rewrite ?runs_update; try done.
  - intros x [Hx|Hx%list_elem_of_singleton]%elem_of_app; [by apply ok_runs0|]. subst x. eauto.
  - rewrite fmap_app. apply NoDup_app. split_and!; [done| |apply NoDup_singleton].
    intros p (x & -> & Hx)%list_elem_of_fmap Hin. cbn in Hin. apply list_elem_of_singleton in Hin.
    injection Hin as Hten Hkey.
    match goal with Hex : existsb (λ x, bool_decide (br_tenant_id x = _) && _) _ = false |- _ =>
      rewrite <-not_true_iff_false, existsb_exists in Hex; apply Hex end.
    exists x. split; [by apply list_elem_of_In|]. by rewrite Hten, Hkey, !bool_decide_true.
  - intros x [Hx|Hx%list_elem_of_singleton]%elem_of_app; [by apply ok_run_hashes0|]. by subst x.
  - by apply (events_ok_same db).
Qed.

Lemma created_ok task definition now db db' : created task definition now db db' → db_ok db → db_ok db'.
Proof.
  intros (Hkey & Hfree & Hdb') Hok.
  pose proof (insert_row_ok db task definition now Hkey Hfree Hok) as Hok1.
  destruct (t_BoundAction task) as [b|]; [|by rewrite Hdb'].
  destruct Hdb' as (_ & Hadm & ->). apply (add_run_ok _ _ (new_row task definition now)); [|done|exact Hadm|exact Hok1].
  rewrite tasks_update. apply lookup_insert_eq.
Qed.

Lemma steps_of_snoc id x (db : DB) :
  steps_of id (db {{ wal_checkpoints ::= λ l, l ++ [x] }}) =
  steps_of id db ++ (if decide (wr_task_id x = id) then [wr_step_index x] else []).
Proof.
  unfold steps_of. rewrite wal_update, filter_app, fmap_app. f_equal.
  rewrite filter_cons, filter_nil. by case_decide.
Qed.

Lemma StronglySorted_snoc l z :
  StronglySorted Z.lt l → (∀ m, last l = Some m → m < z) → StronglySorted Z.lt (l ++ [z]).
Proof.
  intros Hs Hlast. induction Hs as [|x l Hs IH HF]; [repeat constructor|].
  cbn. constructor.
  - apply IH. intros m Hm. apply Hlast. destruct l; [done|]. done.
  - apply Forall_app. split; [done|]. apply Forall_singleton.
    destruct (last l) as [m|] eqn:Hm.
    + assert (m ∈ l) as Hin by (apply last_Some_elem_of; done).
      rewrite Forall_forall in HF. specialize (HF m Hin).
      enough (m < z) by lia. apply Hlast. destruct l; [done|]. done.
    + apply last_None in Hm as ->. by apply Hlast.
Qed.

Lemma saved_ok cp db db' : saved cp db db' → db_ok db → db_ok db'.
Proof.
  intros Hsv Hok. pose proof (saved_step _ _ _ Hsv) as Hstep.
  destruct Hsv as (r0 & text & Hacc & Hm & Hr0 & Hg & Hst & Hmax & ->).
  pose proof (saved_row_step cp text r0 Hm Hg Hst) as Hrow.
  pose proof (row_step_identity _ _ Hrow) as (Hid & Hten & Hkey).
  set (r1 := checkpoint_row text r0) in *. set (id0 := cp_TaskID cp) in *.
  set (x0 := wal_row_of cp text).
  set (dbr := db {{ task_records ::= <[id0 := r1]> }}).
  assert (∀ id r, <[id0 := r1]> (task_records db) !! id = Some r →
    (id = id0 ∧ r = r1) ∨ (id ≠ id0 ∧ task_records db !! id = Some r)) as Hcase.
  { intros id r Hr. destruct (decide (id = id0)) as [->|Hne].
    - rewrite lookup_insert_eq in Hr. naive_solver.
    - rewrite lookup_insert_ne in Hr by done. auto. }
  assert (∀ id r, task_records db !! id = Some r → ∃ r', <[id0 := r1]> (task_records db) !! id = Some r' ∧
    r_tenant_id r' = r_tenant_id r) as Hold.
  { intros id r Hr. destruct (decide (id = id0)) as [->|Hne].
    - exists r1. rewrite lookup_insert_eq. split; [done|]. congruence.
    - exists r. by rewrite lookup_insert_ne. }
  pose proof (ok_watermark db Hok _ _ Hr0) as Hwm0. pose proof Hok as Hok'.
  destruct Hok. split; rewrite ?(tasks_update db), ?wal_update; try done.
  - intros id r [[-> ->]|[_ Hr]]%Hcase; [rewrite Hid|]; by apply ok_ids0.
  - intros id id' r r' [[-> ->]|[_ Hr]]%Hcase [[-> ->]|[_ Hr']]%Hcase; rewrite ?Hten, ?Hkey;
      [done| | |]; by eapply ok_keys0.
  - intros id. change (StronglySorted Z.lt (steps_of id (dbr {{ wal_checkpoints ::= λ l, l ++ [x0] }}))).
    rewrite steps_of_snoc. change (steps_of id dbr) with (steps_of id db).
    case_decide as Hx; [|by rewrite app_nil_r]. apply StronglySorted_snoc; [done|].
    intros m Hlast. change (wr_task_id x0) with id0 in Hx. subst id. rewrite <-Hwm0 in Hlast.
    by apply (not_stale_watermark _ _ _ Hst) in Hlast.
  - intros id r Hr. change (row_watermark r = last (steps_of id (dbr {{ wal_checkpoints ::= λ l, l ++ [x0] }}))).
    rewrite steps_of_snoc. change (steps_of id dbr) with (steps_of id db).
    apply Hcase in Hr as [[-> ->]|[Hne Hr]].
    + rewrite decide_True by done. rewrite last_snoc. by apply checkpoint_row_watermark.
    + rewrite decide_False by (by intros <-). rewrite app_nil_r. by apply ok_watermark0.
  - intros x Hx. change (is_Some (<[id0 := r1]> (task_records db) !! wr_task_id x)).
    apply elem_of_app in Hx as [Hx|Hx%list_elem_of_singleton].
    + apply ok_wal_tasks0 in Hx as [r Hr]. apply Hold in Hr as (r' & -> & _). by eexists.
    + subst x. exists r1. apply lookup_insert_eq.
  - intros x [Hx|Hx%list_elem_of_singleton]%elem_of_app; [by apply ok_wal_rows0|]. subst x.
    destruct (checkpoint_roundtrip cp text Hm) as (_ & cp' & Hu & Hsame). exists cp'.
    split_and!; [done| | |done].
    + destruct Hsame as (_ & Htok & _). unfold LastStep. by rewrite Htok.
    + eapply usable_same; [done|]. by apply accepted_usable.
  - intros run (r & Hr & Ht)%ok_runs0. apply Hold in Hr as (r' & Hr' & Ht'). exists r'.
    split; [exact Hr'|]. by rewrite Ht'.
  - intros x Hx Ho. eapply is_failed_step; [exact Hstep|]. by apply (ok_observed_failed db Hok').
  - by apply (events_ok_same db).
  - intros id r [[-> ->]|[_ Hr]]%Hcase; [|by eapply ok_proofs0].
    apply Hrow. by eapply ok_proofs0.
Qed.

(** *** Operator reconciliation *)

Lemma find_event_Some P db x : find_event P db = Some x → x ∈ reconciliation_events db ∧ P x = true.
Proof.
  unfold find_event. intros Hx. destruct (filter _ _) as [|y l] eqn:Hf; [done|]. injection Hx as ->.
  assert (x ∈ filter (λ x, P x = true) (reconciliation_events db)) as Hin by (rewrite Hf; left).
  by apply list_elem_of_filter in Hin as [? ?].
Qed.

Lemma find_event_None P db x : find_event P db = None → x ∈ reconciliation_events db → P x = false.
Proof.
  unfold find_event. intros Hn Hx. apply not_true_iff_false. intros HP.
  assert (x ∈ filter (λ x, P x = true) (reconciliation_events db)) as Hin by (by apply list_elem_of_filter).
  destruct (filter _ _); [by apply elem_of_nil in Hin|done].
Qed.

Lemma concerns_true tenant task x : concerns tenant task x = true ↔ rc_tenant_id x = tenant ∧ rc_task_id x = task.
Proof. unfold concerns. rewrite andb_true_iff, !bool_decide_eq_true. done. Qed.

(** The row of a request, of a task that has no terminal resolution yet. *)
Definition appended (tenantID : string) (taskID : uuid) (actorID : string) (requestID : uuid)
    (req : operatorReconciliationRequest) (x : reconciliation_row) (db db' : DB) : Prop :=
  db' = db {{ reconciliation_events ::= λ l, l ++ [x] }} ∧ observed tenantID taskID db = true ∧
  rc_tenant_id x = tenantID ∧ rc_task_id x = taskID ∧ rc_event_type x = "operator_resolution" ∧
  rc_resolution x = Some (or_Resolution req) ∧ rc_actor_id x = actorID ∧ rc_reason x = or_Reason req ∧
  rc_external_reference x = (λ f, (xf_Type f, xf_Value f)) <$> or_ExternalReference req ∧
  rc_operator_request_id x = Some requestID ∧ or_Resolution req ∈ resolutions ∧
  find_event (λ y, concerns tenantID taskID y && is_terminal_event y) db = None ∧
  find_event (λ y, concerns tenantID taskID y && bool_decide (rc_operator_request_id y = Some requestID)) db = None.

Lemma insert_resolution_spec tenantID taskID actorID email requestID req db x db' :
  insert_resolution tenantID taskID (or_Resolution req) actorID email (or_Reason req) (or_ExternalReference req) requestID db
    = (Ok x, db') → appended tenantID taskID actorID requestID req x db db'.
Proof.
  unfold insert_resolution. destruct (head _) as [run|]; [|done]. destruct (observed tenantID taskID db) eqn:Ho; [|done].
  cbn [negb]. set (row := mkReconciliation _ _ _ _ _ _ _ _ _ _ _ _ _ _).
  case_bool_decide as Ht; [done|]. destruct (resolution_admissible row) eqn:Ha; [|done]. cbn [negb].
  case_bool_decide as Hq; [done|]. intros [= <- <-].
  unfold resolution_admissible in Ha. cbn in Ha. reflect_bools. split_and!; try done; by apply eq_None_not_Some.
Qed.

Lemma appended_ok tenantID taskID actorID requestID req x db db' :
  appended tenantID taskID actorID requestID req x db db' → db_ok db → db_ok db'.
Proof.
  intros (-> & Ho & Hten & Htask & Hty & Hres & _ & _ & _ & Hreq & Hin & Hterm & Hfresh) Hok.
  assert (is_observation x = false) as Hno by (unfold is_observation; rewrite Hty; done).
  assert (observations (db {{ reconciliation_events ::= λ l, l ++ [x] }}) = observations db) as Hobs.
  { unfold observations. rewrite recon_update, filter_app, fmap_app.
    rewrite (filter_cons_False _ x) by congruence. by rewrite filter_nil, app_nil_r. }
  destruct Hok. split; try done.
  - rewrite recon_update. intros y [Hy|Hy%list_elem_of_singleton]%elem_of_app Hyo; [by eapply ok_observed_failed0|].
    subst y. congruence.
  - by rewrite Hobs.
  - apply events_ok_append; [| | |done].
    + right. rewrite Hten, Htask, Hreq. split_and!; [done|by eexists|by eexists|]. by apply observed_spec.
    + intros Htx (y & [= Hy1 Hy2] & [Hyt Hy]%list_elem_of_filter)%list_elem_of_fmap.
      pose proof (find_event_None _ _ _ Hterm Hy) as Hf. cbv beta in Hf. rewrite Hyt, andb_true_r in Hf.
      by rewrite (proj2 (concerns_true _ _ _)) in Hf by (split; congruence).
    + intros q Hq Hreqs. unfold requests in Hreqs. apply list_elem_of_omap in Hreqs as (y & Hy & Heq).
      destruct (rc_operator_request_id y) as [q'|] eqn:Hq'; [|done]. cbn in Heq. injection Heq as Hy1 Hy2 Hqq.
      pose proof (find_event_None _ _ _ Hfresh Hy) as Hf. cbv beta in Hf. rewrite Hq', bool_decide_true in Hf by congruence.
      rewrite andb_true_r in Hf. by rewrite (proj2 (concerns_true _ _ _)) in Hf by (split; congruence).
Qed.

Lemma appended_step tenantID taskID actorID requestID req x db db' :
  appended tenantID taskID actorID requestID req x db db' → db_step db db'.
Proof.
  intros (-> & _). destruct (db_step_refl db) as (Ha & Hp & _). split_and!; try done. by eexists.
Qed.

(** What an append leaves: nothing changed, or the request's row was added and,
    if the outcome is known, its event is returned. *)
Definition append_outcome (tenantID : string) (taskID : uuid) (actorID : string) (requestID : uuid)
    (req : operatorReconciliationRequest) (db : DB) (r : res (operatorReconciliationEvent * bool)) (db' : DB) : Prop :=
  (db' = db ∧ ∀ e b, r = Ok (e, b) → b = true ∧
     ∃ x, x ∈ reconciliation_events db ∧ concerns tenantID taskID x = true ∧ rc_operator_request_id x = Some requestID ∧
       e = scanOperatorReconciliationEvent x ∧ reconciliationRequestMatches e actorID req = true) ∨
  (∃ x, appended tenantID taskID actorID requestID req x db db' ∧
     ∀ e b, r = Ok (e, b) → b = false ∧ e = scanOperatorReconciliationEvent x).

Lemma hoare_appendOperatorReconciliation tenantID taskID actorID email requestID req db :
  hoare (db_is db) (appendOperatorReconciliation tenantID taskID actorID email requestID req)
    (λ r w, append_outcome tenantID taskID actorID requestID req db r (w_db w)).
Proof.
  assert (∀ err, append_outcome tenantID taskID actorID requestID req db (Err err) db) as Hfail.
  { intros err. left. by split. }
  assert (∀ err, hoare (db_is db) (mret (Err err))
    (λ r w, append_outcome tenantID taskID actorID requestID req db r (w_db w))) as Hret.
  { intros err. apply hoare_ret_db. by intros w ->. }
  apply hoare_begin; [|by intros e w ->]. apply hoare_in_tx. intros [[u db1]|e] Hlock; [|apply Hret].
  specialize (Hlock _ _ eq_refl). injection Hlock as _ <-.
  apply hoare_in_tx. intros [[x db1]|e] Hsel.
  - specialize (Hsel _ _ eq_refl). unfold loadOperatorReconciliationRequestEvent, select_event in Hsel.
    destruct (find_event _ db) as [y|] eqn:Hy; [|done]. injection Hsel as <- <-.
    apply find_event_Some in Hy as [Hin Hy]. reflect_bools. cbv zeta.
    destruct (reconciliationRequestMatches _ actorID req) eqn:Hm; [|apply Hret].
    apply hoare_commit. intros r w Hc. left. split; [by inversion Hc|]. intros e b He. destruct r as [[]|]; [|done].
    injection He as <- <-. split; [done|]. exists y. by split_and!.
  - case_bool_decide; cbn [negb]; [|apply Hret]. apply hoare_in_tx. intros [[t db1]|e'] _; [apply Hret|].
    case_bool_decide; cbn [negb]; [|apply Hret]. apply hoare_in_tx. intros [[x db1]|e''] Hins; [|apply Hret].
    specialize (Hins _ _ eq_refl). apply insert_resolution_spec in Hins. apply hoare_commit. intros r w Hc. generalize (w_db w), Hc. clear w Hc. intros db2 Hc.
    assert (∀ err, append_outcome tenantID taskID actorID requestID req db (Err err) db1) as Hlost.
    { intros err. right. exists x. split; [done|]. done. }
    destruct Hc; [|apply Hfail|apply Hlost]. right. exists x. split; [done|]. by intros e0 b [= <- <-].
Qed.
End Invariant.
