(* ===== verification/StoreTheorems.v ===== *)
(** * Theorems about the store

    All state-changing store operations as one type, the worlds reachable by
    any sequence of them under any faults, and the store's properties: the
    lifecycle refinement, absorbing outcomes, tenant-scoped idempotency,
    checkpoint monotonicity, exclusive approval, the failure path, and the
    agreement of the caller-side predicates with the SQL guards. *)

From S2P Require Import Prelude GoStrings Json Ext WalCodec Checkpoint Types Capability Governance.
From S2P Require Import Store ProofState Reconciliation StoreLogic StoreSpec.
Open Scope Z_scope.

Inductive store_op : Type :=
| OpCreateTask (task : TaskRecord)
| OpMarkDispatched (id : uuid) (runtimeID endpoint : string)
| OpSaveCheckpoint (cp : option CheckpointPayload)
| OpMarkCompleted (id : uuid)
| OpMarkFailed (id : uuid) (reason : string) (details : option TaskFailureDetails)
| OpMarkCanceled (id : uuid)
| OpMarkRecovering (runtimeID : string)
| OpMarkApprovalRequired (id : uuid) (reason : string)
| OpMarkApprovedDispatched (id : uuid) (tenantID runtimeID endpoint approvedBy : string)
| OpMarkApprovalRejected (id : uuid) (tenantID reason : string) (details : option TaskFailureDetails)
| OpStampExecutedTarget (id : uuid) (tenantID target : string)
| OpSaveActionPolicyDecision (d : ActionPolicyDecision)
| OpSaveApprovalRequest (d : ActionPolicyDecision)
| OpResolveApprovalRequest (id : uuid) (tenantID status decidedBy reason : string)
| OpSetLatestPolicyDecision (id : uuid) (d : ActionPolicyDecision)
| OpSaveExecutionBoundary (d : ActionPolicyDecision) (definition : string) (caps : list string)
| OpSaveRecoveryEvent (e : RecoveryEvent)
| OpSaveRuntimeHandoffEvent (e : RuntimeHandoffEvent)
| OpSaveArtifacts (id : uuid) (envelope receipt : string)
| OpSyncTaskProofState (id : uuid) (tenantID : string)
| OpUpdateTaskProofStateByExecutionID (tenantID executionID expectedHash storedHash signature : string)
| OpPersistTaskProofVerification (id : uuid) (tenantID : string) (summary : TaskProofVerificationSummary)
| OpSaveLineage (x : lineage_row) (now : time)
| OpReconcile (tenantID : string) (id : uuid) (actorID actorEmail : string) (requestID : uuid)
    (req : operatorReconciliationRequest).

Section Theorems.
Context `{Ext} `{CheckpointCodec} `{UUIDSupply} `{SortSlice}.

Definition discard {A} (m : ST World (res A)) : ST World () := m ≫= λ _, mret tt.

Definition run_op (op : store_op) : ST World () :=
  match op with
  | OpCreateTask task => discard (CreateTask task)
  | OpMarkDispatched id rt ep => discard (MarkDispatched id rt ep)
  | OpSaveCheckpoint cp => discard (SaveCheckpoint cp)
  | OpMarkCompleted id => discard (MarkCompleted id)
  | OpMarkFailed id reason details => discard (MarkFailedWithDetails id reason details)
  | OpMarkCanceled id => discard (MarkCanceled id)
  | OpMarkRecovering rt => discard (MarkRecovering rt)
  | OpMarkApprovalRequired id reason => discard (MarkApprovalRequired id reason)
  | OpMarkApprovedDispatched id tenant rt ep approver => discard (MarkApprovedDispatched id tenant rt ep approver)
  | OpMarkApprovalRejected id tenant reason d => discard (MarkApprovalRejected id tenant reason d)
  | OpStampExecutedTarget id tenant target => discard (StampExecutedTarget id tenant target)
  | OpSaveActionPolicyDecision d => discard (SaveActionPolicyDecision d)
  | OpSaveApprovalRequest d => discard (SaveApprovalRequest d)
  | OpResolveApprovalRequest id tenant status decider reason =>
    discard (ResolveApprovalRequest id tenant status decider reason)
  | OpSetLatestPolicyDecision id d => discard (SetLatestPolicyDecision id d)
  | OpSaveExecutionBoundary d definition caps => discard (SaveExecutionBoundary d definition caps)
  | OpSaveRecoveryEvent e => discard (SaveRecoveryEvent e)
  | OpSaveRuntimeHandoffEvent e => discard (SaveRuntimeHandoffEvent e)
  | OpSaveArtifacts id envelope receipt => discard (exec (save_artifacts id envelope receipt))
  | OpSyncTaskProofState id tenant => discard (SyncTaskProofState id tenant)
  | OpUpdateTaskProofStateByExecutionID tenant e x s g =>
    discard (UpdateTaskProofStateByExecutionID tenant e x s g)
  | OpPersistTaskProofVerification id tenant summary => discard (PersistTaskProofVerification id tenant summary)
  | OpSaveLineage x now => discard (exec (upsert_lineage x now))
  | OpReconcile tenant id actor email requestID req =>
    discard (appendOperatorReconciliation tenant id actor email requestID req)
  end.

(** One operation, started with any pattern of faults at any time. *)
Inductive store_step (w : World) : World → Prop :=
| store_step_op op faults now :
    store_step w (run_op op (w {{ w_faults := faults; w_now := now }})).2.

(** From a database with no tasks and the given bindings. *)
Inductive reachable (bs : list binding_row) : World → Prop :=
| reach_start w : w_db w = empty_db bs → reachable bs w
| reach_step w w' : reachable bs w → store_step w w' → reachable bs w'.

Context `{!CheckpointCodecLaws}.

(** What every operation guarantees. *)
Definition op_sound {A} (m : ST World A) : Prop :=
  ∀ db, hoare (db_is db) m (λ _ w, db_step db (w_db w) ∧ (db_ok db → db_ok (w_db w))).

Lemma op_sound_discard {A} (m : ST World (res A)) : op_sound m → op_sound (discard m).
Proof.
  intros Hm db. eapply (hoare_bind_db _ _ _ (λ _ db', db_step db db' ∧ (db_ok db → db_ok db'))); [apply Hm|].
  intros a db' Hs. apply hoare_ret_db. by intros w ->.
Qed.

Lemma op_sound_after {A B} (m : ST World A) (k : A → ST World B) :
  (∀ db, hoare (db_is db) m (λ _, db_is db)) → (∀ a, op_sound (k a)) → op_sound (m ≫= k).
Proof.
  intros Hm Hk db. eapply (hoare_bind_db _ _ _ (λ _ db', db' = db)); [apply Hm|].
  intros a db' ->. apply Hk.
Qed.

Lemma op_sound_ret {A} (a : A) : op_sound (mret a).
Proof. intros db. apply hoare_ret_db. intros w ->. split; [apply db_step_refl|done]. Qed.

Lemma rows_only_sound db db' : rows_only db db' → db_step db db' ∧ (db_ok db → db_ok db').
Proof. intros Hr. split; [apply Hr|]. by apply rows_only_ok. Qed.

Lemma op_sound_transition id P f :
  (∀ r, P r = true → row_step r (f r) ∧ r_last_checkpoint (f r) = r_last_checkpoint r) →
  op_sound (exec_transition (update_task id P f)).
Proof.
  intros Hf db. eapply hoare_conseq; [apply hoare_exec_transition|done|].
  intros r w Ho. apply rows_only_sound. exact (update_outcome_rows_only _ _ _ _ _ _ Hf Ho).
Qed.

Lemma op_sound_exec {A} (q : stmt A) : (∀ db, rows_only db (q db).2) → op_sound (exec q).
Proof.
  intros Hq db. eapply hoare_conseq; [apply hoare_exec|done|].
  intros r w [r' db' Hd| |]; apply rows_only_sound; [|apply rows_only_refl|apply Hq].
  specialize (Hq db). by rewrite Hd in Hq.
Qed.

(** A statement that leaves the tables of the invariant alone. *)
Lemma rows_only_tables db db' :
  task_records db' = task_records db → wal_checkpoints db' = wal_checkpoints db →
  bound_runs db' = bound_runs db → reconciliation_events db' = reconciliation_events db →
  bindings db' = bindings db → rows_only db db'.
Proof.
  intros Ht Hw Hb Hr Hbi. split_and!; [by apply db_step_tables| |done..].
  rewrite Ht. intros id r Hrow. exists r. split_and!; [done|apply row_step_refl|done].
Qed.

Lemma op_sound_ignore (m : ST World (res Z)) : op_sound m → op_sound (ignore_count m).
Proof.
  intros Hm db. eapply (hoare_bind_err_db _ _ _ (λ _ db', db_step db db' ∧ (db_ok db → db_ok db'))); [apply Hm| |].
  - intros a db' Hs. apply hoare_ret_db. by intros w ->.
  - by intros e w Hs.
Qed.

(** A one-row update that touches neither identity nor outcome columns. *)
Lemma rows_only_update id P f db :
  (∀ r, identity_columns (f r) = identity_columns r ∧ outcome_columns (f r) = outcome_columns r ∧
        (proof_truthful r → proof_truthful (f r))) →
  rows_only db (update_task id P f db).2.
Proof.
  intros Hf. destruct (update_task_spec id P f db) as [(r & Hr & HP & Hq)|[_ Hq]]; rewrite Hq; cbn [snd];
    [|apply rows_only_refl].
  apply (applied_rows_only id P f); [|by exists r].
  intros x _. destruct (Hf x) as (? & Ho & ?). split; [by apply row_step_other|].
  unfold outcome_columns in Ho. congruence.
Qed.

(** The same over the whole table. *)
Lemma rows_only_update_where P f db :
  (∀ r, identity_columns (f r) = identity_columns r ∧ outcome_columns (f r) = outcome_columns r ∧
        (proof_truthful r → proof_truthful (f r))) →
  rows_only db (update_where P f db).2.
Proof.
  intros Hf.
  assert (∀ r, row_step r (if P r then f r else r) ∧
    r_last_checkpoint (if P r then f r else r) = r_last_checkpoint r) as Hrow.
  { intros r. destruct (P r); [|split; [apply row_step_refl|done]].
    destruct (Hf r) as (? & Ho & ?). split; [by apply row_step_other|].
    unfold outcome_columns in Ho. congruence. }
  unfold update_where. cbn [snd]. split_and!; [|rewrite tasks_update|done..].
  - split_and!; rewrite ?tasks_update; try done.
    + intros id r Hr. rewrite lookup_fmap, Hr. eexists. split; [done|]. apply Hrow.
    + intros id r' Hr' Hn. by rewrite lookup_fmap, Hn in Hr'.
  - intros id r'. rewrite lookup_fmap. destruct (task_records db !! id) as [r|]; [|done].
    intros [= <-]. exists r. split; [done|]. apply Hrow.
Qed.

Lemma updateTaskProofState_sound id e x s g found now :
  op_sound (updateTaskProofState id (Some (buildTaskProofState e x s g found now))).
Proof.
  apply op_sound_ignore, op_sound_exec. intros db. apply rows_only_update. intros r.
  split_and!; [reflexivity..|]. intros _. apply proof_columns_row_truthful.
Qed.

(** A read, whatever its outcome. *)
Lemma hoare_read {A} (q : stmt A) db :
  (∀ db, (q db).2 = db) → hoare (db_is db) (exec q) (λ _, db_is db).
Proof.
  intros Hq. eapply hoare_conseq; [apply hoare_exec|done|].
  intros r w Ho. unfold db_is. pose proof (Hq db) as Hdb. inversion Ho as [r' db' Hd| |]; subst.
  - by rewrite Hd in Hdb.
  - done.
  - done.
Qed.

Lemma op_sound_read {A B} (q : stmt A) (k : A → ST World (res B)) :
  (∀ db, (q db).2 = db) → (∀ a, op_sound (k a)) → op_sound (bind_err (exec q) k).
Proof.
  intros Hq Hk. apply op_sound_after; [intros db; by apply hoare_read|].
  intros [a|e]; [apply Hk|apply op_sound_ret].
Qed.

Lemma op_sound_then_ok {A B} (m : ST World (res A)) (b : B) :
  op_sound m → op_sound (m ;;? mret (Ok b)).
Proof.
  intros Hm db. eapply (hoare_bind_err_db _ _ _ (λ _ db', db_step db db' ∧ (db_ok db → db_ok db'))); [apply Hm| |].
  - intros a db' Hs. apply hoare_ret_db. by intros w ->.
  - by intros e w Hs.
Qed.

Lemma SyncTaskProofState_sound id tenant : op_sound (SyncTaskProofState id tenant).
Proof.
  unfold SyncTaskProofState. apply op_sound_read; [done|]. intros row. cbv beta zeta.
  case_bool_decide; [apply op_sound_ret|].
  apply op_sound_after; [apply hoare_time_now|]. intros now.
  apply op_sound_after; [intros db; by apply hoare_read|].
  intros [x|e]; [|case_bool_decide; [|apply op_sound_ret]];
    apply op_sound_then_ok, updateTaskProofState_sound.
Qed.

Lemma sync_from_lineage_rows_only x now db : rows_only db (sync_from_lineage x now db).2.
Proof.
  unfold sync_from_lineage. destruct (li_tenant_id x) as [tenant|]; [|apply rows_only_refl].
  destruct (_ || _); [apply rows_only_refl|]. apply rows_only_update_where. intros r.
  split_and!; [reflexivity..|]. intros _. apply lineage_sync_row_truthful.
Qed.

Lemma upsert_lineage_rows_only x now db : rows_only db (upsert_lineage x now db).2.
Proof.
  unfold upsert_lineage. destruct (_ || _); [apply rows_only_refl|].
  set (db1 := db {{ execution_lineage ::= _ }}).
  assert (rows_only db db1) as H01 by (by apply rows_only_tables). cbv zeta.
  destruct (lineage_trigger db1); [|exact H01].
  exact (sync_from_lineage_rows_only (resulting_lineage x db) now db1).
Qed.

Lemma hoare_new_uuid db : hoare (db_is db) new_uuid (λ _, db_is db).
Proof. by intros w Hw. Qed.

Lemma hoare_maybe_uuid (c : bool) id db :
  hoare (db_is db) (if c then new_uuid else mret id) (λ _, db_is db).
Proof. destruct c; [apply hoare_new_uuid|]. by apply hoare_ret_db. Qed.
End Theorems.

(** Rows whose status moves with the guard, checkpoint untouched. *)
Ltac keep_tac :=
  let r := fresh "r" in let Hg := fresh "Hg" in
  intros r Hg; split; [revert r Hg; row_step_tac|reflexivity].

(** A statement on the event tables. *)
Ltac tables_tac :=
  apply op_sound_exec; intros; apply rows_only_tables;
  cbn [snd]; repeat case_match; reflexivity.

Section AllSound.
Context `{Ext} `{CheckpointCodec} `{UUIDSupply} `{SortSlice} `{!CheckpointCodecLaws}.

Lemma run_op_sound op : op_sound (run_op op).
Proof.
  destruct op; cbn [run_op]; apply op_sound_discard.
  - intros db. eapply hoare_conseq; [apply hoare_CreateTask|done|].
    intros r w [[->|(definition & now & _ & Hc)] _]; [split; [apply db_step_refl|done]|].
    split; [by eapply created_step|by eapply created_ok].
  - apply op_sound_after; [apply hoare_time_now|]. intros now. apply op_sound_transition. keep_tac.
  - intros db. eapply hoare_conseq; [apply hoare_SaveCheckpoint|done|].
    intros r w [[-> _]|(c & _ & Hs)]; [split; [apply db_step_refl|done]|].
    split; [by eapply saved_step|by eapply saved_ok].
  - apply op_sound_after; [apply hoare_time_now|]. intros now. apply op_sound_transition. keep_tac.
  - intros db. eapply hoare_conseq; [apply hoare_MarkFailedWithDetails|done|].
    intros r w [Hft _]. split; [by eapply fail_tables_step|by eapply fail_tables_ok].
  - apply op_sound_after; [apply hoare_time_now|]. intros now. apply op_sound_transition. keep_tac.
  - apply op_sound_exec. apply mark_recovering_rows_only.
  - apply op_sound_transition. keep_tac.
  - apply op_sound_after; [apply hoare_time_now|]. intros now. apply op_sound_transition. keep_tac.
  - apply op_sound_transition. keep_tac.
  - apply op_sound_ignore, op_sound_exec. intros db. by apply rows_only_update.
  - unfold SaveActionPolicyDecision. case_bool_decide; [apply op_sound_ret|]. tables_tac.
  - unfold SaveApprovalRequest. case_match; [apply op_sound_ret|]. tables_tac.
  - apply op_sound_after; [apply hoare_time_now|]. intros now. tables_tac.
  - unfold SetLatestPolicyDecision. case_bool_decide; [apply op_sound_ret|].
    apply op_sound_ignore, op_sound_exec. intros db. by apply rows_only_update.
  - tables_tac.
  - unfold SaveRecoveryEvent. case_bool_decide; [apply op_sound_ret|].
    apply op_sound_after; [apply hoare_maybe_uuid|]. intros id. tables_tac.
  - unfold SaveRuntimeHandoffEvent. case_bool_decide; [apply op_sound_ret|].
    apply op_sound_after; [apply hoare_maybe_uuid|]. intros id. tables_tac.
  - apply op_sound_exec. intros db. apply rows_only_update. intros r.
    unfold artifact_row. split_and!; [by destruct (extractProofRefs receipt) as [[] []]..|].
    apply artifact_row_truthful.
  - apply SyncTaskProofState_sound.
  - unfold UpdateTaskProofStateByExecutionID. case_bool_decide; [apply op_sound_ret|].
    apply op_sound_after; [apply hoare_time_now|]. intros now. apply op_sound_exec. intros db.
    apply rows_only_update_where. intros r. split_and!; [reflexivity..|]. intros _.
    apply proof_update_row_truthful.
  - apply op_sound_after; [apply hoare_time_now|]. intros now.
    apply op_sound_ignore, op_sound_exec. intros db. by apply rows_only_update.
  - apply op_sound_exec. apply upsert_lineage_rows_only.
  - intros db. eapply hoare_conseq; [apply hoare_appendOperatorReconciliation|done|].
    intros r w [[-> _]|(x & Ha & _)]; [split; [apply db_step_refl|done]|].
    split; [by eapply appended_step|by eapply appended_ok].
Qed.

Lemma store_step_sound w w' :
  store_step w w' → db_step (w_db w) (w_db w') ∧ (db_ok (w_db w) → db_ok (w_db w')).
Proof.
  intros [op faults now].
  apply (run_op_sound op (w_db w) (w {{ w_faults := faults; w_now := now }})). reflexivity.
Qed.

Lemma reachable_ok bs w : reachable bs w → db_ok (w_db w).
Proof.
  induction 1 as [w Hw|w w' _ IH Hs]; [rewrite Hw; apply empty_db_ok|].
  by apply (proj2 (store_step_sound _ _ Hs)).
Qed.

(** A row through any number of operations. *)
Lemma steps_row w w' id r :
  rtc store_step w w' → task_records (w_db w) !! id = Some r →
  ∃ r', task_records (w_db w') !! id = Some r' ∧ identity_columns r' = identity_columns r ∧
    (terminal (r_status r) → outcome_columns r' = outcome_columns r).
Proof.
  intros Hs. revert r. induction Hs as [w|w w1 w' Hs _ IH]; intros r Hr; [by exists r|].
  destruct (store_step_sound _ _ Hs) as [(Hrows & _) _].
  destruct (Hrows _ _ Hr) as (r1 & Hr1 & Hstep).
  destruct (IH _ Hr1) as (r' & Hr' & Hid & Hterm). exists r'. split_and!; [done| |].
  - destruct Hstep as [Hid1 _]. congruence.
  - intros Ht. pose proof (row_step_terminal _ _ Hstep Ht) as Ho.
    rewrite Hterm; [done|]. unfold outcome_columns in Ho. by injection Ho as ->.
Qed.




Lemma find_by_key_present tenant key db id r :
  task_records db !! id = Some r → r_tenant_id r = tenant → r_idempotency_key r = key →
  is_Some (find_by_key tenant key db).
Proof.
  intros Hr Ht Hk. destruct (find_by_key tenant key db) eqn:Hf; [by eexists|].
  by destruct (find_by_key_None _ _ _ _ _ Hf Hr).
Qed.

Lemma created_row task definition now db db' :
  created task definition now db db' →
  task_records db' !! t_TaskID task = Some (new_row task definition now).
Proof.
  intros (_ & _ & Hdb'). destruct (t_BoundAction task); [destruct Hdb' as (_ & _ & ->)|rewrite Hdb'];
    apply lookup_insert_eq.
Qed.


(** Saving a checkpoint that is accepted advances the task's watermark
    strictly, from whatever it was to the checkpoint's last committed step,
    leaves the task checkpointed and appends exactly one row; a checkpoint that
    is inconsistent, foreign, without stable ids, not ahead of the stored one,
    beyond the step column's 31 bits, or for a task that is not running changes
    nothing and reports an error. *)
Theorem save_checkpoint_advances cp w r :
  task_records (w_db w) !! cp_TaskID cp = Some r →
  let '(result, w') := SaveCheckpoint (Some cp) w in
  (result = Ok tt →
     (∃ r', task_records (w_db w') !! cp_TaskID cp = Some r' ∧ r_status r' = TaskStatusCheckpointed ∧
            row_watermark r' = Some (LastStep cp)) ∧
     (∀ m, row_watermark r = Some m → m < LastStep cp) ∧
     steps_of (cp_TaskID cp) (w_db w') = steps_of (cp_TaskID cp) (w_db w) ++ [LastStep cp]) ∧
  (TaskRecoveryCheckpointUsable (cp_TaskID cp) (Some cp) = false ∨
   (∃ m, row_watermark r = Some m ∧ LastStep cp ≤ m) ∨ int32_max < LastStep cp ∨
   TaskAllowsRuntimeMutation (r_status r) = false →
   is_ok result = false ∧ w_db w' = w_db w).
Proof.
  intros Hr. pose proof (hoare_SaveCheckpoint (Some cp) (w_db w) w eq_refl) as Hsv.
  destruct (SaveCheckpoint (Some cp) w) as [result w']. cbn [fst snd] in Hsv. split.
  - intros ->. destruct Hsv as [[_ ?]|(c & [= <-] & Hs)]; [done|].
    destruct Hs as (r0 & text & _ & Hm & Hr0 & Hg & Hst & _ & ->). rewrite Hr in Hr0. injection Hr0 as <-.
    split_and!.
    + exists (checkpoint_row text r). split; [apply lookup_insert_eq|]. split; [done|].
      by apply checkpoint_row_watermark.
    + intros m Hw. by apply (not_stale_watermark _ _ _ Hst).
    + set (db1 := (w_db w) {{ task_records ::= <[cp_TaskID cp := checkpoint_row text r]> }}).
      change (steps_of (cp_TaskID cp) (db1 {{ wal_checkpoints ::= λ l, l ++ [wal_row_of cp text] }})
        = steps_of (cp_TaskID cp) (w_db w) ++ [LastStep cp]).
      rewrite steps_of_snoc, decide_True by done. done.
  - intros Hbad. destruct Hsv as [[Hw Hne]|(c & [= <-] & Hs)].
    { split; [|done]. by destruct result as [[]|]. }
    destruct Hs as (r0 & text & Hacc & Hm & Hr0 & Hg & Hst & Hmax & _). rewrite Hr in Hr0. injection Hr0 as <-.
    exfalso. destruct Hbad as [Hu|[(m & Hw & Hle)|[Hbig|Hst']]].
    + apply accepted_usable in Hacc. congruence.
    + apply (not_stale_watermark _ _ _ Hst) in Hw. lia.
    + lia.
    + apply status_in_true in Hg. set_unfold. destruct (r_status r); naive_solver.
Qed.

(** What a successful decoding of a reachable task's rows gives. *)
Lemma decode_rows_elem rows cps cp :
  decode_rows rows = Ok cps → cp ∈ cps →
  ∃ x, x ∈ rows ∧ unmarshalCheckpoint (wr_wal_entries x) = Some cp.
Proof.
  revert cps. induction rows as [|x rows IH]; intros cps; cbn [decode_rows]; [intros [= <-]; set_solver|].
  destruct (unmarshalCheckpoint (wr_wal_entries x)) as [c|] eqn:Hu; [|done].
  unfold mbind, res_bind. destruct (decode_rows rows) as [l|]; [|done]. intros [= <-].
  intros [->|Hin]%elem_of_cons; [exists x; set_solver|].
  destruct (IH l eq_refl Hin) as (y & Hy & Hyu). exists y. set_solver.
Qed.

Lemma decode_rows_complete rows cps x :
  decode_rows rows = Ok cps → x ∈ rows →
  ∃ cp, cp ∈ cps ∧ unmarshalCheckpoint (wr_wal_entries x) = Some cp.
Proof.
  revert cps. induction rows as [|y rows IH]; intros cps; cbn [decode_rows]; [set_solver|].
  destruct (unmarshalCheckpoint (wr_wal_entries y)) as [c|] eqn:Hu; [|done].
  unfold mbind, res_bind. destruct (decode_rows rows) as [l|]; [|done]. intros [= <-].
  intros [->|Hin]%elem_of_cons; [exists c; set_solver|].
  destruct (IH l eq_refl Hin) as (cp & Hcp & Hcu). exists cp. set_solver.
Qed.

Lemma elem_of_wal_rows `{!SortSliceLaws} id db x :
  x ∈ wal_rows id db ↔ wr_task_id x = id ∧ x ∈ wal_checkpoints db.
Proof. unfold wal_rows. rewrite sort_slice_perm. by rewrite list_elem_of_filter. Qed.

Lemma last_steps_max id db m x :
  db_ok db → last (steps_of id db) = Some m → x ∈ wal_checkpoints db → wr_task_id x = id →
  wr_step_index x ≤ m.
Proof.
  intros Hok Hl Hx Hid. pose proof (ok_steps db Hok id) as Hs.
  assert (wr_step_index x ∈ steps_of id db) as Hin.
  { apply list_elem_of_fmap_2, list_elem_of_filter. done. }
  revert Hl Hs Hin. generalize (steps_of id db) (wr_step_index x). clear.
  intros l z Hl Hs. induction Hs as [|y l Hs IH HF]; [done|]. rewrite Forall_forall in HF.
  destruct l as [|y' l]; [cbn in Hl; set_solver by lia|].
  intros [->|Hin]%elem_of_cons; [|by apply IH].
  assert (m ∈ y' :: l) as Hm by (by apply last_Some_elem_of). specialize (HF m Hm). lia.
Qed.

(** The checkpoints decoded from a task's rows. *)
Lemma decoded_rows_ok `{!SortSliceLaws} db tid cps cp :
  db_ok db → decode_rows (wal_rows tid db) = Ok cps → cp ∈ cps → ∃ x, x ∈ wal_checkpoints db ∧ wr_task_id x = tid ∧
    unmarshalCheckpoint (wr_wal_entries x) = Some cp ∧ LastStep cp = wr_step_index x ∧
    TaskRecoveryCheckpointUsable tid (Some cp) = true.
Proof.
  intros Hok Hdec Hcp. destruct (decode_rows_elem _ _ _ Hdec Hcp) as (x & Hx & Hu).
  apply elem_of_wal_rows in Hx as [Hid Hx]. exists x. split_and!; [done..| |].
  - destruct (ok_wal_rows _ Hok x Hx) as (cp' & Hu' & Hl & _ & _). congruence.
  - destruct (ok_wal_rows _ Hok x Hx) as (cp' & Hu' & _ & Hus & _). congruence.
Qed.

(** The furthest of them is the watermark of the row. *)
Lemma watermark_is_furthest `{!SortSliceLaws} db tid r cps cp :
  db_ok db → task_records db !! tid = Some r → decode_rows (wal_rows tid db) = Ok cps → cp ∈ cps →
  (∀ cy, cy ∈ cps → LastStep cy ≤ LastStep cp) → row_watermark r = Some (LastStep cp).
Proof.
  intros Hok Hr Hdec Hcp Hmax. destruct (decoded_rows_ok _ _ _ _ Hok Hdec Hcp) as (x & Hx & Hid & _ & Hlx & _).
  rewrite (ok_watermark _ Hok _ _ Hr). destruct (last (steps_of tid db)) as [m|] eqn:Hlast.
  - f_equal. apply Z.le_antisymm; [|rewrite Hlx; by eapply last_steps_max].
    assert (m ∈ steps_of tid db) as Hm by (by apply last_Some_elem_of).
    apply list_elem_of_fmap in Hm as (y & -> & [Hyid Hy]%list_elem_of_filter).
    destruct (decode_rows_complete _ _ y Hdec) as (cy & Hcy & Huy); [by apply elem_of_wal_rows|].
    destruct (ok_wal_rows _ Hok y Hy) as (cy' & Huy' & Hly & _). simplify_eq. rewrite <-Hly. by apply Hmax.
  - apply last_None in Hlast. exfalso.
    assert (wr_step_index x ∈ steps_of tid db) as Hin by (apply list_elem_of_fmap_2, list_elem_of_filter; done).
    rewrite Hlast in Hin. set_solver.
Qed.

(** Recovery reads back what was saved.  In a reachable store, when the
    cumulative recovery checkpoint of a task can be built, it is usable, it
    ends exactly at the watermark recorded in the task's row, and its WAL is
    one committed entry for each step from 0 to there; when there is none, no
    checkpoint was ever stored for the task. *)
Theorem cumulative_checkpoint_from_store `{!SortSliceLaws} bs w tid r :
  reachable bs w → task_records (w_db w) !! tid = Some r →
  (∀ x cp, x ∈ wal_checkpoints (w_db w) → unmarshalCheckpoint (wr_wal_entries x) = Some cp →
     in_uint32 (LastStep cp)) →
  match (GetCumulativeRecoveryCheckpoint tid w).1 with
  | Ok (Some out) =>
    TaskRecoveryCheckpointUsable tid (Some out) = true ∧ row_watermark r = Some (LastStep out) ∧
    StepIndex <$> WalEntries out = seqZ 0 (LastStep out + 1) ∧
    (∀ e, e ∈ WalEntries out → is_committed e = true)
  | Ok None => row_watermark r = None
  | Err _ => True
  end.
Proof.
  intros Hreach Hr Hfit. pose proof (reachable_ok _ _ Hreach) as Hok.
  unfold GetCumulativeRecoveryCheckpoint, GetAllCheckpoints.
  pose proof (hoare_exec (select_wal tid) (w_db w) w eq_refl) as Ho.
  unfold bind_err, mbind, ST_bind. destruct (exec (select_wal tid) w) as [q w1]. cbn [fst snd] in Ho.
  destruct q as [rows|e]; [|done]. cbn.
  assert (rows = wal_rows tid (w_db w)) as ->.
  { inversion Ho as [? ? Hq| |]. unfold select_wal in Hq. congruence. }
  destruct (decode_rows (wal_rows tid (w_db w))) as [cps|e] eqn:Hdec; cbn; [|done].
  pose proof (λ cp, decoded_rows_ok _ tid cps cp Hok Hdec) as Hall.
  assert (∀ cp, Some cp ∈ Some <$> cps ↔ cp ∈ cps) as Hsome.
  { intros cp. rewrite list_elem_of_fmap. naive_solver. }
  destruct (BuildCumulativeRecoveryCheckpoint tid (Some <$> cps)) as [[out|]|e] eqn:HB; [| |done].
  - assert (fits_uint32 (Some <$> cps)) as Hf32.
    { apply Forall_forall. intros cp (o & Ho' & Heq)%list_elem_of_omap. unfold id in Heq. subst o.
      apply Hsome, Hall in Ho' as (x & Hx & _ & Hu & _). by eapply Hfit. }
    destruct (cumulative_faithful_lemma tid (Some <$> cps) out Hf32) as (Hus & Hsteps & Hmax & Hent & _);
      [|done|].
    { intros cp Hcp%Hsome. by apply Hall in Hcp as (_ & _ & _ & _ & _ & ?). }
    split_and!; [done| |done|intros e He; by apply Hent].
    apply cumulative_exact_lemma in HB as (_ & _ & cp & entries & Hl & _ & _ & ->); [|done].
    apply latest_of_elem, list_elem_of_omap in Hl as (o & Hin & Heq). unfold id in Heq. subst o.
    apply Hsome in Hin. change (LastStep (cumulative_of cp entries)) with (LastStep cp) in *.
    eapply watermark_is_furthest; [done..|]. intros cy Hcy. by apply Hmax, Hsome.
  - rewrite (ok_watermark _ Hok _ _ Hr). apply last_None.
    destruct (steps_of tid (w_db w)) as [|m l] eqn:Hst; [done|]. exfalso.
    assert (m ∈ steps_of tid (w_db w)) as Hm by (rewrite Hst; set_solver).
    apply list_elem_of_fmap in Hm as (y & _ & [Hyid Hy]%list_elem_of_filter).
    destruct (decode_rows_complete _ _ y Hdec) as (cy & Hcy & _); [by apply elem_of_wal_rows|].
    by apply (build_none_empty tid (Some <$> cps) cy HB), Hsome.
Qed.

(** A guarded update of a row whose guard is false. *)
Lemma transition_refused tid P f w r :
  task_records (w_db w) !! tid = Some r → P r = false →
  (exec_transition (update_task tid P f) w).1 ≠ Ok tt ∧
  w_db (exec_transition (update_task tid P f) w).2 = w_db w.
Proof.
  intros Hr HP. pose proof (hoare_exec_transition tid P f (w_db w) w eq_refl) as Ho.
  assert (∀ db', ¬ applied tid P f (w_db w) db') as Hno.
  { intros db' (x & Hx & Hp & _). congruence. }
  destruct (exec_transition (update_task tid P f) w) as [res' w']. cbn [fst snd] in *.
  inversion Ho as [db' Ha| | |db' Ha]; subst; try done; by apply Hno in Ha.
Qed.

Lemma transition_done tid P f w :
  (exec_transition (update_task tid P f) w).1 = Ok tt →
  applied tid P f (w_db w) (w_db (exec_transition (update_task tid P f) w).2).
Proof.
  pose proof (hoare_exec_transition tid P f (w_db w) w eq_refl) as Ho. intros Hr. rewrite Hr in Ho.
  by inversion Ho.
Qed.

(** The guard of both approval updates. *)
Definition awaiting (tenant : string) (r : task_row) : bool :=
  tenant_is tenant r && status_in [TaskStatusApprovalRequired] r.

Lemma not_awaiting_refused tid tenant w r :
  task_records (w_db w) !! tid = Some r →
  r_status r ≠ TaskStatusApprovalRequired ∨ r_tenant_id r ≠ tenant →
  awaiting tenant r = false.
Proof.
  intros _ Hne. apply andb_false_iff. unfold tenant_is, status_in.
  rewrite !bool_decide_eq_false, list_elem_of_singleton. tauto.
Qed.

(** Approval is exclusive.  A successful approval finds the task of this
    tenant awaiting approval and leaves it dispatched to the given runtime; from
    then on, whatever operations follow, as long as the task has not come to
    await approval again no second approval and no rejection succeeds or
    changes anything, whatever statements fail.  The same holds after a
    successful rejection, which leaves the task failed for good. *)
Theorem approval_exclusive tid tenant rt ep approver reason details w :
  let resolved (m : ST World (res ())) (st : TaskRecordStatus) :=
    (m w).1 = Ok tt →
    (∃ r, task_records (w_db w) !! tid = Some r ∧ r_tenant_id r = tenant ∧
          r_status r = TaskStatusApprovalRequired) ∧
    (∃ r, task_records (w_db (m w).2) !! tid = Some r ∧ r_status r = st) ∧
    ∀ w2 r2 tenant' rt' ep' approver' reason' details',
      rtc store_step (m w).2 w2 → task_records (w_db w2) !! tid = Some r2 →
      r_status r2 ≠ TaskStatusApprovalRequired →
      (MarkApprovedDispatched tid tenant' rt' ep' approver' w2).1 ≠ Ok tt ∧
      w_db (MarkApprovedDispatched tid tenant' rt' ep' approver' w2).2 = w_db w2 ∧
      (MarkApprovalRejected tid tenant' reason' details' w2).1 ≠ Ok tt ∧
      w_db (MarkApprovalRejected tid tenant' reason' details' w2).2 = w_db w2 in
  resolved (MarkApprovedDispatched tid tenant rt ep approver) TaskStatusDispatched ∧
  resolved (MarkApprovalRejected tid tenant reason details) TaskStatusFailed.
Proof.
  intros resolved.
  assert (∀ w2 r2 tenant' rt' ep' approver' reason' details',
    task_records (w_db w2) !! tid = Some r2 → r_status r2 ≠ TaskStatusApprovalRequired →
    (MarkApprovedDispatched tid tenant' rt' ep' approver' w2).1 ≠ Ok tt ∧
    w_db (MarkApprovedDispatched tid tenant' rt' ep' approver' w2).2 = w_db w2 ∧
    (MarkApprovalRejected tid tenant' reason' details' w2).1 ≠ Ok tt ∧
    w_db (MarkApprovalRejected tid tenant' reason' details' w2).2 = w_db w2) as Hlater.
  { intros w2 r2 tenant' rt' ep' approver' reason' details' Hr2 Hs2.
    pose proof (not_awaiting_refused tid tenant' w2 r2 Hr2 (or_introl Hs2)) as Hg.
    destruct (transition_refused tid (awaiting tenant') (λ r, r {{ r_status := TaskStatusDispatched;
      r_runtime_id := Some rt'; r_runtime_endpoint := Some ep'; r_dispatched_at := Some (w_now w2);
      r_failure_reason := None }}) w2 r2 Hr2 Hg) as [Ha Hb].
    destruct (transition_refused tid (awaiting tenant') (λ r, r {{ r_status := TaskStatusFailed;
      r_failure_reason := Some reason';
      r_failure_details := jsonb_text <$> details_text details' }}) w2 r2 Hr2 Hg) as [Hc Hd].
    split_and!; [exact Ha|exact Hb|exact Hc|exact Hd]. }
  assert (∀ f st, (∀ r, r_status (f r) = st) →
    (exec_transition (update_task tid (awaiting tenant) f) w).1
      = Ok tt →
    (∃ r, task_records (w_db w) !! tid = Some r ∧ r_tenant_id r = tenant ∧
          r_status r = TaskStatusApprovalRequired) ∧
    (∃ r, task_records (w_db (exec_transition (update_task tid (awaiting tenant) f) w).2) !! tid = Some r ∧
       r_status r = st)) as Hnow.
  { intros f st Hf Hok. apply transition_done in Hok as (r & Hr & HP & ->).
    apply andb_true_iff in HP as [Ht%bool_decide_eq_true Hs%status_in_true%list_elem_of_singleton].
    split; [by exists r|]. exists (f r). rewrite tasks_update, lookup_insert_eq. done. }
  split; intros Hok.
  - destruct (Hnow (λ r, r {{ r_status := TaskStatusDispatched; r_runtime_id := Some rt;
      r_runtime_endpoint := Some ep; r_dispatched_at := Some (w_now w);
      r_failure_reason := None }}) TaskStatusDispatched) as [Ha Hb]; [done|exact Hok|].
    split_and!; [exact Ha|exact Hb|]. intros; by eapply Hlater.
  - destruct (Hnow (λ r, r {{ r_status := TaskStatusFailed; r_failure_reason := Some reason;
      r_failure_details := jsonb_text <$> details_text details }}) TaskStatusFailed) as [Ha Hb];
      [done|exact Hok|].
    split_and!; [exact Ha|exact Hb|]. intros; by eapply Hlater.
Qed.

Lemma transition_is_ok tid P f w r :
  w_faults w = [] → task_records (w_db w) !! tid = Some r →
  is_ok (exec_transition (update_task tid P f) w).1 = P r.
Proof. intros Hf Hr. rewrite (exec_transition_no_faults _ _ _ _ r) by done. by destruct (P r). Qed.

(** The table's checks accept the observation or abort the statement. *)
Lemma insert_observation_result tid d db :
  insert_observation tid d db = (Ok tt, (insert_observation tid d db).2) ∨
  insert_observation tid d db = (Err constraint_error, db).
Proof.
  unfold insert_observation. destruct (task_records db !! tid); [|by left]. cbv zeta.
  destruct (forallb _ _); [by left|by right].
Qed.

(** The predicates the handlers test agree with the SQL guards: without
    statement faults, dispatching, completing, failing, canceling, approving
    and rejecting a task succeed exactly when the corresponding predicate
    allows the task's status. *)
Theorem predicates_match_guards tid w r rt ep reason details approver :
  w_faults w = [] → task_records (w_db w) !! tid = Some r →
  is_ok (MarkDispatched tid rt ep w).1 = TaskAllowsDispatch (r_status r) ∧
  is_ok (MarkCompleted tid w).1 = TaskAllowsRuntimeMutation (r_status r) ∧
  is_ok (MarkFailedWithDetails tid reason details w).1 = TaskAllowsRuntimeMutation (r_status r) ∧
  is_ok (MarkCanceled tid w).1 = TaskAllowsCancellation (r_status r) ∧
  is_ok (MarkApprovalRequired tid reason w).1 = TaskAllowsDispatch (r_status r) ∧
  is_ok (MarkApprovedDispatched tid (r_tenant_id r) rt ep approver w).1 = TaskAwaitingApproval (r_status r) ∧
  is_ok (MarkApprovalRejected tid (r_tenant_id r) reason details w).1 = TaskAwaitingApproval (r_status r).
Proof.
  intros Hf Hr.
  assert (is_ok (markFailedRecord tid reason (details_text details) w).1
          = TaskAllowsRuntimeMutation (r_status r)) as Hplain.
  { unfold markFailedRecord, mark_failed. rewrite (transition_is_ok _ _ _ _ r) by done.
    unfold status_in. by destruct (r_status r). }
  split_and!.
  3:{ unfold MarkFailedWithDetails. destruct details as [d|]; [|exact Hplain].
      destruct (IsTypedReconciliationFailure (Some d)); cbn [negb]; [|exact Hplain].
      rewrite (run_bind _ _ _ _ _ (tx_begin_no_faults _ Hf)).
      erewrite run_bind by (by apply tx_exec_no_faults).
      unfold mark_failed, update_task. rewrite Hr. unfold status_in.
      destruct (r_status r); cbn [TaskAllowsRuntimeMutation];
        repeat (case_bool_decide; try (exfalso; set_solver)); try reflexivity.
      all: cbn [taskTransitionResult Z.eqb];
        (erewrite run_bind by (by apply tx_exec_no_faults));
        match goal with |- context [insert_observation ?i ?x ?db] =>
          destruct (insert_observation_result i x db) as [->| ->] end; [|exact Hplain];
        (erewrite run_bind by (by apply tx_commit_no_faults)); reflexivity. }
  all: unfold MarkDispatched, MarkCompleted, MarkCanceled, MarkApprovalRequired, MarkApprovedDispatched,
         MarkApprovalRejected; try (rewrite (run_bind time_now _ w (w_now w) w eq_refl));
       rewrite (transition_is_ok _ _ _ _ r) by done; unfold status_in, tenant_is;
       rewrite ?(bool_decide_true (r_tenant_id r = r_tenant_id r)) by done; by destruct (r_status r).
Qed.

Lemma guard_mutation r : fail_guard r = TaskAllowsRuntimeMutation (r_status r).
Proof. unfold fail_guard, status_in. by destruct (r_status r). Qed.

Lemma mark_failed_running tid reason dt db r :
  task_records db !! tid = Some r → fail_guard r = true →
  mark_failed tid reason dt db = (Ok 1, db {{ task_records ::= <[tid := fail_row reason dt r]> }}).
Proof. intros Hr Hg. unfold mark_failed, update_task. rewrite Hr. unfold fail_guard in Hg. by rewrite Hg. Qed.

Lemma markFailedRecord_running tid reason dt w r :
  w_faults w = [] → task_records (w_db w) !! tid = Some r → fail_guard r = true →
  (markFailedRecord tid reason dt w).1 = Ok tt.
Proof.
  intros Hf Hr Hg. pose proof (transition_is_ok tid fail_guard (fail_row reason dt) w r Hf Hr) as Hok.
  rewrite Hg in Hok. unfold markFailedRecord, mark_failed. fold fail_guard. by destruct (_ w).1 as [[]|].
Qed.

(** A failed task is reported as such by the check after a lost commit. *)
Lemma ensure_reports_failed tid reason dt w :
  w_faults w = [] → is_failed tid (w_db w) → (ensureTaskFailedRecord tid reason dt w).1 = Ok tt.
Proof.
  intros Hf (r & Hr & Hs). unfold ensureTaskFailedRecord.
  pose proof (exec_transition_no_faults tid fail_guard (fail_row reason dt) w r Hf Hr) as Hq.
  assert (fail_guard r = false) as Hg by (rewrite guard_mutation, Hs; done). rewrite Hg in Hq.
  unfold markFailedRecord, mark_failed. fold fail_guard. rewrite (run_bind _ _ _ _ _ Hq).
  cbv beta iota. change (errors_is ErrTaskTransitionRejected ErrTaskTransitionRejected) with true.
  cbn [negb]. erewrite run_bind by (by apply exec_no_faults). unfold select_task. cbn [w_db].
  change (w_db (w {{ w_db := w_db w }})) with (w_db w). rewrite Hr. cbn [fst].
  by rewrite bool_decide_true.
Qed.

Lemma ensure_running tid reason dt w r :
  w_faults w = [] → task_records (w_db w) !! tid = Some r → fail_guard r = true →
  (ensureTaskFailedRecord tid reason dt w).1 = Ok tt.
Proof.
  intros Hf Hr Hg. pose proof (markFailedRecord_running tid reason dt w r Hf Hr Hg) as Hok.
  unfold ensureTaskFailedRecord, mbind, ST_bind. by destruct (markFailedRecord tid reason dt w) as [[[]|] w'].
Qed.

Definition failed_db (tid : uuid) (reason : string) (d : TaskFailureDetails) (r : task_row) (db : DB) : DB :=
  db {{ task_records ::= <[tid := fail_row reason (details_text (Some d)) r]> }}.

Lemma observation_accepted_insert tid reason d r db :
  (∀ run, run ∈ bound_runs db → br_task_id run = tid → observation_accepted d (observation_row r run d) = true) →
  insert_observation tid d (failed_db tid reason d r db) = (Ok tt, (insert_observation tid d (failed_db tid reason d r db)).2).
Proof.
  intros Hacc. unfold insert_observation, failed_db. rewrite tasks_update, lookup_insert_eq. cbv zeta.
  match goal with |- context [forallb ?f ?l] => assert (forallb f l = true) as -> end; [|done].
  apply forallb_forall. intros run [Ho Hrun]%list_elem_of_In%list_elem_of_filter.
  unfold run_observable in Ho. reflect_bools. by apply Hacc.
Qed.

(** A fault of the commit, once the observation is in. *)
Lemma commit_fault_recorded tid reason d w r f :
  task_records (w_db w) !! tid = Some r → fail_guard r = true → IsTypedReconciliationFailure (Some d) = true →
  w_faults w = [FOk; FOk; FOk; f] →
  (∀ run, run ∈ bound_runs (w_db w) → br_task_id run = tid → observation_accepted d (observation_row r run d) = true) →
  (MarkFailedWithDetails tid reason (Some d) w).1 = Ok tt.
Proof.
  intros Hr Hmut Htyped Hfaults Hacc. unfold MarkFailedWithDetails. rewrite Htyped. cbn [negb].
  rewrite (run_bind _ _ _ _ _ (tx_begin_fault _ _ _ Hfaults)).
  erewrite run_bind by (by apply tx_exec_fault). rewrite (mark_failed_running _ _ _ _ r) by done.
  cbn [taskTransitionResult Z.eqb].
  erewrite run_bind by (by apply tx_exec_fault).
  set (db1 := (w_db w) {{ task_records ::= <[tid := fail_row reason (details_text (Some d)) r]> }}).
  pose proof (observation_accepted_insert tid reason d r (w_db w) ltac:(eauto)) as Hi.
  change (failed_db tid reason d r (w_db w)) with db1 in Hi. rewrite Hi. cbv beta iota.
  erewrite run_bind by (by apply tx_commit_fault).
  destruct f; [done| |].
  - by apply (ensure_running _ _ _ _ r).
  - apply ensure_reports_failed; [done|].
    destruct (insert_observation_tables tid d db1) as (Ht & _).
    exists (fail_row reason (details_text (Some d)) r). split; [|done].
    change (task_records (insert_observation tid d db1).2 !! tid
            = Some (fail_row reason (details_text (Some d)) r)).
    rewrite Ht. apply lookup_insert_eq.
Qed.

(** C12: recording a failure is truthful and survives trouble with the
    reconciliation observation.  Under any faults, a report of success means
    the task is failed in the database.  For a running task with a typed
    unknown-effect failure, one fault of any kind in opening the transaction,
    inserting the observation or committing still ends with success reported
    and the task failed, so an uncertain effect is never left recoverable; that
    the table's checks reject the observation changes nothing, unless the fault
    comes after that. *)
Theorem failure_recorded_despite_faults tid reason details w :
  ((MarkFailedWithDetails tid reason details w).1 = Ok tt →
     is_failed tid (w_db (MarkFailedWithDetails tid reason details w).2)) ∧
  (∀ r k f, task_records (w_db w) !! tid = Some r → TaskAllowsRuntimeMutation (r_status r) = true →
     IsTypedReconciliationFailure details = true → k ∈ [0%nat; 2%nat; 3%nat] →
     w_faults w = replicate k FOk ++ [f] →
     (k = 3%nat → ∀ d run, details = Some d → run ∈ bound_runs (w_db w) → br_task_id run = tid →
        observation_accepted d (observation_row r run d) = true) →
     (MarkFailedWithDetails tid reason details w).1 = Ok tt ∧
     is_failed tid (w_db (MarkFailedWithDetails tid reason details w).2)).
Proof.
  pose proof (hoare_MarkFailedWithDetails tid reason details (w_db w) w eq_refl) as [_ Htrue].
  split; [exact Htrue|]. intros r k f Hr Hmut Htyped Hk Hfaults Hacc.
  enough ((MarkFailedWithDetails tid reason details w).1 = Ok tt) as Hok by (split; [done|by apply Htrue]).
  rewrite <-guard_mutation in Hmut. clear Htrue.
  destruct details as [d|]; [|done].
  assert (∀ w', w_faults w' = [] → w_db w' = w_db w →
    (markFailedRecord tid reason (details_text (Some d)) w').1 = Ok tt) as Hplain.
  { intros w' Hf' Hdb. apply (markFailedRecord_running _ _ _ _ r); [done|by rewrite Hdb|done]. }
  set_unfold in Hk. destruct Hk as [->|[->|[->|[]]]]; cbn [replicate app] in Hfaults.
  - unfold MarkFailedWithDetails. rewrite Htyped. cbn [negb]. rewrite (run_bind _ _ _ _ _ (tx_begin_fault _ _ _ Hfaults)).
    destruct f; [|by apply Hplain..].
    erewrite run_bind by (by apply tx_exec_no_faults). rewrite (mark_failed_running _ _ _ _ r) by done.
    cbn [taskTransitionResult Z.eqb].
    erewrite run_bind by (by apply tx_exec_no_faults).
    destruct (insert_observation_result tid d (failed_db tid reason d r (w_db w))) as [Hi|Hi]; unfold failed_db in Hi; rewrite Hi;
      [|by apply Hplain].
    erewrite run_bind by (by apply tx_commit_no_faults). done.
  - unfold MarkFailedWithDetails. rewrite Htyped. cbn [negb]. rewrite (run_bind _ _ _ _ _ (tx_begin_fault _ _ _ Hfaults)).
    erewrite run_bind by (by apply tx_exec_fault). rewrite (mark_failed_running _ _ _ _ r) by done.
    cbn [taskTransitionResult Z.eqb].
    erewrite run_bind by (by apply tx_exec_fault).
    destruct f; [|by apply Hplain..].
    destruct (insert_observation_result tid d (failed_db tid reason d r (w_db w))) as [Hi|Hi]; unfold failed_db in Hi; rewrite Hi;
      [|by apply Hplain].
    erewrite run_bind by (by apply tx_commit_no_faults). done.
  - apply (commit_fault_recorded _ _ _ _ r f); [done..|]. intros run. by apply Hacc.
Qed.

(** Without faults, a task whose status forbids it is not failed. *)
Lemma predicates_lemma tid w r reason details :
  w_faults w = [] → task_records (w_db w) !! tid = Some r → fail_guard r = false →
  (MarkFailedWithDetails tid reason details w).1 = Err ErrTaskTransitionRejected.
Proof.
  intros Hf Hr Hg.
  assert ((markFailedRecord tid reason (details_text details) w).1 = Err ErrTaskTransitionRejected) as Hplain.
  { unfold markFailedRecord, mark_failed. fold fail_guard.
    by rewrite (exec_transition_no_faults _ _ _ _ r Hf Hr), Hg. }
  unfold MarkFailedWithDetails. destruct details as [d|]; [|exact Hplain].
  destruct (IsTypedReconciliationFailure (Some d)); cbn [negb]; [|exact Hplain].
  rewrite (run_bind _ _ _ _ _ (tx_begin_no_faults _ Hf)).
  erewrite run_bind by (by apply tx_exec_no_faults).
  unfold mark_failed, update_task. fold fail_guard. rewrite Hr, Hg. reflexivity.
Qed.

(** A pending task cannot be failed.  Recording a failure for a task that
    was never dispatched is refused and changes nothing, so the submission
    paths that fail a task they could not dispatch leave it pending. *)
Theorem pending_cannot_be_failed tid reason details w r :
  task_records (w_db w) !! tid = Some r → r_status r = TaskStatusPending →
  (MarkFailedWithDetails tid reason details w).1 ≠ Ok tt ∧
  w_db (MarkFailedWithDetails tid reason details w).2 = w_db w ∧
  (w_faults w = [] → (MarkFailedWithDetails tid reason details w).1 = Err ErrTaskTransitionRejected).
Proof.
  intros Hr Hs.
  assert (fail_guard r = false) as Hg by (rewrite guard_mutation, Hs; done).
  pose proof (hoare_MarkFailedWithDetails tid reason details (w_db w) w eq_refl) as [Hft Hok].
  assert (w_db (MarkFailedWithDetails tid reason details w).2 = w_db w) as Hdb.
  { destruct Hft as [|db1 (r' & Hr' & Hg' & _)|d db1 _ _ (r' & Hr' & Hg' & _)]; [done|congruence..]. }
  split_and!; [|done|].
  - intros Hres. destruct (Hok Hres) as (r' & Hr' & Hs'). rewrite Hdb in Hr'. congruence.
  - intros Hf. by apply (predicates_lemma _ _ r).
Qed.

(** Listing the recovering tasks fails whenever there is one.  The query
    selects two columns fewer than the scan has destinations, so the first row
    is an error; the call only succeeds when no task is recovering, with the
    empty list. *)
Theorem recovering_listing_always_fails `{!SortSliceLaws} tid w r :
  task_records (w_db w) !! tid = Some r → r_status r = TaskStatusRecovering →
  is_ok (GetRecoveringTasks w).1 = false.
Proof.
  intros Hr Hs. unfold GetRecoveringTasks.
  set (q := λ db, (Ok (rows_where (status_in [TaskStatusRecovering]) db), db)).
  pose proof (hoare_exec q (w_db w) w eq_refl) as Ho. unfold bind_err, mbind, ST_bind.
  destruct (exec q w) as [rows w1]. cbn [fst snd] in Ho. destruct rows as [rows|]; [|done].
  inversion Ho as [? ? Hq| |]; subst. unfold q in Hq. injection Hq as Hrows _. cbn.
  assert (r ∈ rows) as Hin.
  { rewrite <-Hrows. unfold rows_where. rewrite sort_slice_perm. apply list_elem_of_filter. split.
    - apply status_in_true. rewrite Hs. set_solver.
    - apply list_elem_of_fmap. exists (tid, r). split; [done|]. by apply elem_of_map_to_list. }
  destruct rows as [|x rows]; [set_solver|]. done.
Qed.

(** Tenants are isolated: a caller of another tenant cannot read the task,
    approve it, reject it or stamp it, whatever statements fail. *)
Theorem tenant_isolation tid w r tenant rt ep approver reason details target :
  task_records (w_db w) !! tid = Some r → r_tenant_id r ≠ tenant →
  is_ok (GetTask tid tenant w).1 = false ∧
  (MarkApprovedDispatched tid tenant rt ep approver w).1 ≠ Ok tt ∧
  w_db (MarkApprovedDispatched tid tenant rt ep approver w).2 = w_db w ∧
  (MarkApprovalRejected tid tenant reason details w).1 ≠ Ok tt ∧
  w_db (MarkApprovalRejected tid tenant reason details w).2 = w_db w ∧
  w_db (StampExecutedTarget tid tenant target w).2 = w_db w.
Proof.
  intros Hr Hne.
  assert (tenant_is tenant r = false) as Ht by (by apply bool_decide_eq_false).
  pose proof (not_awaiting_refused tid tenant w r Hr (or_intror Hne)) as Hg.
  destruct (transition_refused tid (awaiting tenant) (λ r, r {{ r_status := TaskStatusDispatched;
    r_runtime_id := Some rt; r_runtime_endpoint := Some ep; r_dispatched_at := Some (w_now w);
    r_failure_reason := None }}) w r Hr Hg) as [Ha Hb].
  destruct (transition_refused tid (awaiting tenant) (λ r, r {{ r_status := TaskStatusFailed;
    r_failure_reason := Some reason;
    r_failure_details := jsonb_text <$> details_text details }}) w r Hr Hg) as [Hc Hd].
  split_and!; [|exact Ha|exact Hb|exact Hc|exact Hd|].
  - unfold GetTask. pose proof (hoare_exec (select_task tid (tenant_is tenant)) (w_db w) w eq_refl) as Ho.
    unfold bind_err, mbind, ST_bind. destruct (exec _ w) as [q w1]. cbn [fst snd] in Ho.
    destruct q as [x|]; [|done]. inversion Ho as [? ? Hq| |]; subst.
    unfold select_task in Hq. rewrite Hr, Ht in Hq. done.
  - unfold StampExecutedTarget, ignore_count.
    set (q := update_task tid (tenant_is tenant) (λ r, r {{ r_executed_target := Some target }})).
    pose proof (hoare_exec q (w_db w) w eq_refl) as Ho.
    assert (q (w_db w) = (Ok 0, w_db w)) as Hq by (unfold q, update_task; by rewrite Hr, Ht).
    unfold bind_err, mbind, ST_bind. destruct (exec q w) as [n w1]. cbn [fst snd] in Ho.
    assert (w_db w1 = w_db w) as Hdb.
    { inversion Ho as [? ? Hq'| |]; subst; [congruence|done|by rewrite Hq]. }
    by destruct n.
Qed.
End AllSound.
