(* ===== verification/ReconciliationFacts.v ===== *)
(** * What operator reconciliation guarantees

    In every database the store can reach: the state the code computes from the
    history of a task, the finality of a resolution, the idempotency of
    requests, and that accepted requests meet the table's own checks. *)

From S2P Require Import Prelude GoStrings Json Ext WalCodec Checkpoint Types Capability Governance.
From S2P Require Import Store ProofState Reconciliation StoreLogic StoreSpec StoreTheorems.
Open Scope Z_scope.

(** ** The fold over a history *)

Definition event_terminal (e : operatorReconciliationEvent) : Prop :=
  oe_Resolution e = reconciliationSucceeded ∨ oe_Resolution e = reconciliationFailed.

Definition fold_from (acc : string * string) (l : list operatorReconciliationEvent) : string * string :=
  foldl (λ acc event,
    let '(current, terminalResolution) := acc in
    if bool_decide (oe_Resolution event = reconciliationSucceeded) || bool_decide (oe_Resolution event = reconciliationFailed)
    then (current, oe_Resolution event)
    else if nonempty (oe_Resolution event) && bool_decide (terminalResolution = "")
    then (oe_Resolution event, terminalResolution)
    else acc) acc l.

Lemma resolutions_inv r :
  r ∈ resolutions → r = reconciliationSucceeded ∨ r = reconciliationFailed ∨ r = reconciliationRemainsUnknown.
Proof. unfold resolutions. intros Hr. repeat (apply elem_of_cons in Hr as [->|Hr]; [by auto|]). by apply elem_of_nil in Hr. Qed.

Lemma fold_terminal l : ∀ c t,
  (Forall (λ e, ¬ event_terminal e) l ∧ (fold_from (c, t) l).2 = t) ∨
  ∃ e, e ∈ l ∧ event_terminal e ∧ (fold_from (c, t) l).2 = oe_Resolution e.
Proof.
  induction l as [|e l IH]; intros c t; [by left|]. cbn [fold_from foldl]. unfold event_terminal in *.
  destruct (_ || _) eqn:He.
  - apply orb_true_iff in He. rewrite !bool_decide_eq_true in He.
    destruct (IH c (oe_Resolution e)) as [[_ Hl]|(e' & Hin & Ht & Hl)]; right.
    + exists e. split_and!; [left|done|exact Hl].
    + exists e'. split_and!; [by right|done|exact Hl].
  - apply orb_false_iff in He as [H1%bool_decide_eq_false H2%bool_decide_eq_false].
    assert (∀ c', (Forall (λ e, ¬ event_terminal e) (e :: l) ∧ (fold_from (c', t) l).2 = t) ∨
      ∃ e', e' ∈ e :: l ∧ event_terminal e' ∧ (fold_from (c', t) l).2 = oe_Resolution e') as Hgo.
    { intros c'. destruct (IH c' t) as [[Hf Hl]|(e' & Hin & Ht & Hl)]; [left|right].
      - split; [|done]. constructor; [|done]. intros [?|?]; congruence.
      - exists e'. split_and!; [by right|done|done]. }
    destruct (nonempty _ && _); apply Hgo.
Qed.

Lemma fold_open l : Forall (λ e, oe_Resolution e = "" ∨ oe_Resolution e = reconciliationRemainsUnknown) l → ∀ c,
  fold_from (c, "") l = (if existsb (λ e, nonempty (oe_Resolution e)) l then reconciliationRemainsUnknown else c, "").
Proof.
  induction 1 as [|e l He _ IH]; intros c; [done|]. cbn [fold_from foldl existsb].
  destruct He as [->| ->]; cbn [orb]; change (nonempty "") with false; cbn [andb orb].
  - exact (IH c).
  - change (foldl _ _ l) with (fold_from (reconciliationRemainsUnknown, "") l). rewrite IH. by destruct (existsb _ l).
Qed.

Section Facts.
Context `{Ext} `{CheckpointCodec} `{UUIDSupply} `{SortSlice} `{!CheckpointCodecLaws}.

(** The history the query returns for a task. *)
Definition history (tenantID : string) (taskID : uuid) (db : DB) : list operatorReconciliationEvent :=
  scanOperatorReconciliationEvent <$> history_rows tenantID taskID db.

Lemma elem_of_history_rows tenant task db x :
  x ∈ history_rows tenant task db ↔ x ∈ reconciliation_events db ∧ concerns tenant task x = true.
Proof.
  unfold history_rows. rewrite elem_of_app, !list_elem_of_filter. destruct (is_observation x); naive_solver.
Qed.

Lemma scan_resolution x : oe_Resolution (scanOperatorReconciliationEvent x) = default "" (rc_resolution x).
Proof. unfold scanOperatorReconciliationEvent. by destruct (default ("", "") _). Qed.
Lemma scan_type x : oe_EventType (scanOperatorReconciliationEvent x) = rc_event_type x.
Proof. unfold scanOperatorReconciliationEvent. by destruct (default ("", "") _). Qed.

Lemma scan_terminal x : event_terminal (scanOperatorReconciliationEvent x) ↔ is_terminal_event x = true.
Proof.
  unfold event_terminal, is_terminal_event. rewrite scan_resolution, orb_true_iff, !bool_decide_eq_true.
  destruct (rc_resolution x); cbn; naive_solver.
Qed.

(** The observation comes first, if there is one. *)
Lemma history_first tenant task db :
  events_ok db →
  ((tenant, task) ∈ observations db ∧ ∃ x l, history_rows tenant task db = x :: l ∧ rc_event_type x = "unresolved_effect_observed") ∨
  ((tenant, task) ∉ observations db ∧ history_rows tenant task db = []).
Proof.
  intros Hok. destruct (decide ((tenant, task) ∈ observations db)) as [Hin|Hni]; [left|right]; (split; [done|]).
  - unfold observations in Hin. apply list_elem_of_fmap in Hin as (x & [= -> ->] & [Ho Hx]%list_elem_of_filter).
    unfold history_rows. set (mine := filter _ (reconciliation_events db)).
    destruct (filter (λ x, is_observation x = true) mine) as [|y l] eqn:Hf.
    + exfalso. assert (x ∈ filter (λ x, is_observation x = true) mine) as Hx'.
      { apply list_elem_of_filter. split; [done|]. apply list_elem_of_filter. split; [|done]. by apply concerns_true. }
      rewrite Hf in Hx'. by apply elem_of_nil in Hx'.
    + exists y, (l ++ filter (λ x, is_observation x = false) mine). split; [done|].
      assert (y ∈ filter (λ x, is_observation x = true) mine) as Hy by (rewrite Hf; left).
      apply list_elem_of_filter in Hy as [Hy _]. unfold is_observation in Hy. by apply bool_decide_eq_true in Hy.
  - destruct (history_rows tenant task db) as [|x l] eqn:Hh; [done|]. exfalso.
    assert (x ∈ history_rows tenant task db) as Hx by (rewrite Hh; left).
    apply elem_of_history_rows in Hx as [Hx [<- <-]%concerns_true]. apply Hni.
    destruct (ev_shape _ Hok x Hx) as [(Ho & _)|(_ & _ & _ & Hseen)]; [|done].
    unfold observations. apply list_elem_of_fmap. exists x. by rewrite list_elem_of_filter.
Qed.

Lemma terminal_unique db tenant task x y :
  events_ok db → x ∈ reconciliation_events db → y ∈ reconciliation_events db →
  concerns tenant task x = true → concerns tenant task y = true →
  is_terminal_event x = true → is_terminal_event y = true → x = y.
Proof.
  intros Hok Hx Hy [Hx1 Hx2]%concerns_true [Hy1 Hy2]%concerns_true Htx Hty.
  pose proof (ev_terminal_once _ Hok) as Hnd. unfold terminals in Hnd. eapply NoDup_fmap_elem; [exact Hnd| | |congruence];
    by apply list_elem_of_filter.
Qed.

(** What the code computes, in terms of the table. *)
Definition resolved_as (tenantID : string) (taskID : uuid) (db : DB) (st : operatorReconciliationState) : Prop :=
  (os_Required st = false ∧ ∃ x, x ∈ reconciliation_events db ∧ concerns tenantID taskID x = true ∧
     is_terminal_event x = true ∧ rc_resolution x = Some (os_CurrentState st)) ∨
  (os_Required st = true ∧
   (∀ x, x ∈ reconciliation_events db → concerns tenantID taskID x = true → is_terminal_event x = false) ∧
   os_CurrentState st = if existsb (λ x, concerns tenantID taskID x && negb (is_observation x)) (reconciliation_events db)
                        then reconciliationRemainsUnknown else reconciliationRequired).

Lemma state_spec db tenant task :
  events_ok db →
  match reconciliation_state (history tenant task db) with
  | Ok st => (tenant, task) ∈ observations db ∧ os_History st = history tenant task db ∧ resolved_as tenant task db st
  | Err e => e = ErrNoRows ∧ (tenant, task) ∉ observations db
  end.
Proof.
  intros Hok. destruct (history_first tenant task db Hok) as [[Hin (x & l & Hh & Hty)]|[Hni Hh]].
  2:{ unfold history. by rewrite Hh. }
  assert (∀ y, y ∈ history_rows tenant task db → event_shape (observations db) y) as Hshape.
  { intros y [Hy _]%elem_of_history_rows. by apply (ev_shape _ Hok). }
  assert (∃ e, history tenant task db = scanOperatorReconciliationEvent x :: e) as [e He] by (unfold history; rewrite Hh; eauto).
  set (h := history tenant task db) in *. unfold reconciliation_state. rewrite He, scan_type, Hty, <-He. cbn [bool_decide decide].
  rewrite bool_decide_true by done. change (fold_history h) with (fold_from (reconciliationRequired, "") h).
  destruct (fold_terminal h reconciliationRequired "") as [[Hno Ht]|(ev & Hev & Ht & Hres)].
  - assert (Forall (λ e, oe_Resolution e = "" ∨ oe_Resolution e = reconciliationRemainsUnknown) h) as Hopen.
    { apply Forall_forall. intros ev Hev. unfold h, history in Hev. apply list_elem_of_fmap in Hev as (y & -> & Hy).
      rewrite Forall_forall in Hno. specialize (Hno (scanOperatorReconciliationEvent y) ltac:(by apply list_elem_of_fmap_2)).
      unfold event_terminal in Hno. rewrite scan_resolution in *.
      destruct (Hshape y Hy) as [(_ & -> & _)|(_ & (r & Hyr & Hr) & _)]; [by left|]. rewrite Hyr in *. cbn in Hno |- *.
      apply resolutions_inv in Hr as [->|[->| ->]]; [by destruct Hno; left|by destruct Hno; right|by right]. }
    rewrite (fold_open h Hopen). split_and!; [done|done|]. right. cbn [os_Required os_CurrentState]. split_and!.
    + by destruct (existsb _ h).
    + intros y Hy Hc. apply not_true_iff_false. intros Hyt%scan_terminal. rewrite Forall_forall in Hno.
      apply (Hno (scanOperatorReconciliationEvent y)); [|done]. apply list_elem_of_fmap_2. by apply elem_of_history_rows.
    + change (nonempty "") with false. cbv iota. f_equal.
      enough (existsb (λ e, nonempty (oe_Resolution e)) h = existsb (λ y, concerns tenant task y && negb (is_observation y))
                (reconciliation_events db)) as -> by done.
      apply eq_true_iff_eq. rewrite !existsb_exists. split.
      * intros (ev & Hev%list_elem_of_In & Hne). unfold h, history in Hev. apply list_elem_of_fmap in Hev as (y & -> & Hy).
        exists y. rewrite scan_resolution in Hne. pose proof (Hshape y Hy) as Hs.
        apply elem_of_history_rows in Hy as [Hy Hc]. split; [by apply list_elem_of_In|]. rewrite Hc.
        destruct Hs as [(_ & Hn & _)|(-> & _)]; [|done]. by rewrite Hn in Hne.
      * intros (y & Hy%list_elem_of_In & Hb). apply andb_true_iff in Hb as [Hc Hno'%negb_true_iff].
        assert (y ∈ history_rows tenant task db) as Hy' by (by apply elem_of_history_rows).
        exists (scanOperatorReconciliationEvent y). split; [apply list_elem_of_In, list_elem_of_fmap_2, Hy'|].
        rewrite scan_resolution. destruct (Hshape y Hy') as [(Ho & _)|(_ & (r & -> & Hr) & _)]; [congruence|]. cbn.
        by apply resolutions_inv in Hr as [->|[->| ->]].
  - unfold h, history in Hev. apply list_elem_of_fmap in Hev as (y & -> & [Hy Hc]%elem_of_history_rows).
    destruct (fold_from _ h) as [c t]. cbn [snd] in Hres. subst t. pose proof (proj1 (scan_terminal y) Ht) as Hyt.
    rewrite scan_resolution in *. unfold is_terminal_event in Hyt. rewrite orb_true_iff, !bool_decide_eq_true in Hyt.
    split_and!; [done|by destruct Hyt as [->| ->]|]. left. split; [by destruct Hyt as [->| ->]|].
    exists y. split_and!; [done|done|by apply scan_terminal|by destruct Hyt as [->| ->]].
Qed.

(** ** Runs without faults *)

Abbreviation has_request tenant task requestID :=
  (λ y, concerns tenant task y && bool_decide (rc_operator_request_id y = Some requestID)).
Abbreviation has_terminal tenant task := (λ y, concerns tenant task y && is_terminal_event y).

(** An append as one function of the tables. *)
Definition append_result (tenantID : string) (taskID : uuid) (actorID actorEmail : string) (requestID : uuid)
    (req : operatorReconciliationRequest) (db : DB) : res (operatorReconciliationEvent * bool) * DB :=
  match find_event (has_request tenantID taskID requestID) db with
  | Some x =>
    let e := scanOperatorReconciliationEvent x in
    (if reconciliationRequestMatches e actorID req then Ok (e, true) else Err errResolutionConflict, db)
  | None =>
    match find_event (has_terminal tenantID taskID) db with
    | Some _ => (Err errResolutionConflict, db)
    | None =>
      match insert_resolution tenantID taskID (or_Resolution req) actorID actorEmail (or_Reason req)
              (or_ExternalReference req) requestID db with
      | (Ok x, db') => (Ok (scanOperatorReconciliationEvent x, false), db')
      | (Err e, _) => (Err (classify_append_error e), db)
      end
    end
  end.

Lemma World_same_db (w : World) : w {{ w_db := w_db w }} = w.
Proof. by destruct w. Qed.

Lemma append_no_faults tenantID taskID actorID actorEmail requestID req w :
  w_faults w = [] →
  appendOperatorReconciliation tenantID taskID actorID actorEmail requestID req w =
    ((append_result tenantID taskID actorID actorEmail requestID req (w_db w)).1,
     w {{ w_db := (append_result tenantID taskID actorID actorEmail requestID req (w_db w)).2 }}).
Proof.
  intros Hf. unfold appendOperatorReconciliation, append_result.
  rewrite (run_bind_ok _ _ _ _ _ (tx_begin_no_faults _ Hf)).
  erewrite run_bind_ok by (by rewrite tx_exec_no_faults by done). cbv beta iota.
  erewrite run_bind by (by apply tx_exec_no_faults).
  unfold loadOperatorReconciliationRequestEvent, select_event. destruct (find_event _ (w_db w)) as [x|].
  { cbv zeta. destruct (reconciliationRequestMatches _ _ _); [|cbn [fst snd]; by rewrite World_same_db].
    by erewrite run_bind_ok by (by apply tx_commit_no_faults). }
  rewrite bool_decide_true by done. cbn [negb].
  erewrite run_bind by (by apply tx_exec_no_faults). unfold select_terminal, select_event.
  destruct (find_event _ (w_db w)) as [x|]; [cbn [fst snd]; by rewrite World_same_db|]. rewrite bool_decide_true by done. cbn [negb].
  erewrite run_bind by (by apply tx_exec_no_faults).
  destruct (insert_resolution _ _ _ _ _ _ _ _ _) as [[x|e] db']; [|cbn [fst snd]; by rewrite World_same_db].
  by erewrite run_bind_ok by (by apply tx_commit_no_faults).
Qed.

Lemma steps_events w w' : rtc store_step w w' → reconciliation_events (w_db w) `prefix_of` reconciliation_events (w_db w').
Proof.
  induction 1 as [w|w w1 w' Hs _ IH]; [done|]. destruct (store_step_sound _ _ Hs) as [(_ & _ & _ & _ & Hp & _) _].
  by etrans.
Qed.

Lemma steps_keep_ok w w' : rtc store_step w w' → db_ok (w_db w) → db_ok (w_db w').
Proof. induction 1 as [w|w w1 w' Hs _ IH]; [done|]. intros Hok. by apply IH, (proj2 (store_step_sound _ _ Hs)). Qed.

Lemma load_no_faults tenantID taskID w :
  w_faults w = [] →
  loadOperatorReconciliationState tenantID taskID w = (reconciliation_state (history tenantID taskID (w_db w)), w).
Proof. intros Hf. unfold loadOperatorReconciliationState. rewrite exec_no_faults by done. cbn [fst snd]. by rewrite World_same_db. Qed.

(** In every database the store can reach, what the code reports of a task's
    reconciliation is exactly what its rows say: there is a state exactly when
    an unknown effect of the task was observed; it is the one terminal
    resolution and nothing is required any more, or, while there is none,
    resolution is still required and the state says whether an operator left
    the effect unknown. *)
Theorem reconciliation_state_exact bs w tenantID taskID :
  reachable bs w → w_faults w = [] →
  match (loadOperatorReconciliationState tenantID taskID w).1 with
  | Ok st => (tenantID, taskID) ∈ observations (w_db w) ∧ os_History st = history tenantID taskID (w_db w) ∧
             resolved_as tenantID taskID (w_db w) st
  | Err e => e = ErrNoRows ∧ (tenantID, taskID) ∉ observations (w_db w)
  end.
Proof. intros Hw Hf. rewrite load_no_faults by done. apply state_spec, ok_events. by eapply reachable_ok. Qed.

(** ** Requests *)

Lemma find_event_elem P db x : x ∈ reconciliation_events db → P x = true → ∃ y, find_event P db = Some y.
Proof.
  intros Hx HP. destruct (find_event P db) as [y|] eqn:Hf; [by exists y|].
  pose proof (find_event_None _ _ _ Hf Hx). congruence.
Qed.

Lemma request_unique db tenant task q x y :
  events_ok db → x ∈ reconciliation_events db → y ∈ reconciliation_events db →
  has_request tenant task q x = true → has_request tenant task q y = true → x = y.
Proof.
  intros Hok Hx Hy [[Hx1 Hx2]%concerns_true Hqx%bool_decide_eq_true]%andb_true_iff
    [[Hy1 Hy2]%concerns_true Hqy%bool_decide_eq_true]%andb_true_iff.
  eapply (NoDup_omap_elem _ _ x y (tenant, task, q)); [exact (ev_request_once _ Hok)|done|done| |];
    cbv beta; by rewrite ?Hqx, ?Hqy, ?Hx1, ?Hx2, ?Hy1, ?Hy2.
Qed.

Lemma appended_matches tenantID taskID actorID requestID req x db db' :
  appended tenantID taskID actorID requestID req x db db' →
  reconciliationRequestMatches (scanOperatorReconciliationEvent x) actorID req = true.
Proof.
  intros (_ & _ & _ & _ & _ & Hres & Hact & Hrea & Href & _). unfold reconciliationRequestMatches, scanOperatorReconciliationEvent.
  rewrite Hres, Hact, Hrea, Href. destruct (or_ExternalReference req) as [[ty v]|]; cbn; by rewrite !bool_decide_true.
Qed.

(** The row behind a successful append. *)
Lemma append_row tenantID taskID actorID email requestID req w e b w' :
  appendOperatorReconciliation tenantID taskID actorID email requestID req w = (Ok (e, b), w') →
  ∃ x, x ∈ reconciliation_events (w_db w') ∧ has_request tenantID taskID requestID x = true ∧
    e = scanOperatorReconciliationEvent x ∧ reconciliationRequestMatches e actorID req = true.
Proof.
  intros Hr. pose proof (hoare_appendOperatorReconciliation tenantID taskID actorID email requestID req (w_db w) w eq_refl) as Ho.
  rewrite Hr in Ho. cbn [snd] in Ho. destruct Ho as [[Hdb Ho]|(x & Ha & Ho)]; destruct (Ho _ _ eq_refl) as [-> Hx].
  - destruct Hx as (x & Hx & Hc & Hq & -> & Hm). exists x. rewrite Hdb, Hc, Hq, bool_decide_true by done. done.
  - subst e. exists x. split_and!; [| |done|by eapply appended_matches].
    + destruct Ha as (-> & _). rewrite recon_update. apply elem_of_app. right. by apply list_elem_of_singleton.
    + destruct Ha as (_ & _ & Ht & Hi & _ & _ & _ & _ & _ & Hq & _).
      by rewrite (proj2 (concerns_true _ _ _)), Hq, bool_decide_true by done.
Qed.

Lemma hoare_run_op_append tenantID taskID actorID email requestID req w :
  db_ok (w_db w) → db_ok (w_db (appendOperatorReconciliation tenantID taskID actorID email requestID req w).2).
Proof.
  intros Hok. pose proof (run_op_sound (OpReconcile tenantID taskID actorID email requestID req) (w_db w) w eq_refl) as [_ Ho].
  cbn [run_op] in Ho. unfold discard, mbind, ST_bind in Ho.
  destruct (appendOperatorReconciliation _ _ _ _ _ _ w) as [r w']. by apply Ho.
Qed.


(** Requests are idempotent.  After an append that succeeded, and whatever
    happened since, the same request of the same operator returns the same
    event as a replay; under any faults it changes nothing; and the request's
    identifier with another content is refused as a conflict. *)
Theorem reconciliation_request_idempotent bs w w1 w2 tenantID taskID actorID email requestID req e b :
  reachable bs w → appendOperatorReconciliation tenantID taskID actorID email requestID req w = (Ok (e, b), w1) →
  rtc store_step w1 w2 →
  ∀ actorID' email' req',
    let '(r, w3) := appendOperatorReconciliation tenantID taskID actorID' email' requestID req' w2 in
    w_db w3 = w_db w2 ∧
    (w_faults w2 = [] →
     r = if reconciliationRequestMatches e actorID' req' then Ok (e, true) else Err errResolutionConflict) ∧
    reconciliationRequestMatches e actorID req = true.
Proof.
  intros Hw Ha Hs actorID' email' req'. destruct (append_row _ _ _ _ _ _ _ _ _ _ Ha) as (x & Hx & Hq & -> & Hm).
  pose proof (hoare_run_op_append tenantID taskID actorID email requestID req w) as Hok1. rewrite Ha in Hok1.
  pose proof (steps_keep_ok _ _ Hs (Hok1 (reachable_ok _ _ Hw))) as Hok. apply ok_events in Hok as Hev.
  assert (x ∈ reconciliation_events (w_db w2)) as Hx' by (by destruct (steps_events _ _ Hs) as [l ->]; apply elem_of_app; left).
  destruct (find_event_elem (has_request tenantID taskID requestID) _ _ Hx' Hq) as [y Hy]. pose proof (find_event_Some _ _ _ Hy) as [Hyin Hyq].
  assert (y = x) as -> by (by eapply request_unique).
  pose proof (hoare_appendOperatorReconciliation tenantID taskID actorID' email' requestID req' _ w2 eq_refl) as Ho.
  pose proof (append_no_faults tenantID taskID actorID' email' requestID req' w2) as Hnf.
  destruct (appendOperatorReconciliation _ _ _ _ _ _ w2) as [r w3]. split_and!; [| |done].
  - destruct Ho as [[Hdb _]|(z & (_ & _ & _ & _ & _ & _ & _ & _ & _ & _ & _ & _ & Hn) & _)]; [done|]. congruence.
  - intros Hf. injection (Hnf Hf) as -> _. unfold append_result. by rewrite Hy.
Qed.

(** ** What accepted requests can lead to *)

Lemma runes_bounds t : (length (runes t) ≤ slen t)%nat ∧ (t ≠ "" → 1 ≤ length (runes t))%nat.
Proof.
  induction t as [t IH] using (well_founded_induction (well_founded_ltof _ String.length)).
  destruct t as [|a t]; [done|]. destruct (runes_head a t) as (p & rest & Ht & Hp & Hr). rewrite Ht in *.
  rewrite (Hr rest "") by (by rewrite str_app_nil_r). rewrite slen_app. cbn [length].
  assert (0 < slen p.2)%nat by (destruct p.2; [done|cbn; lia]).
  destruct (IH rest) as [Hle _]; [|split; [lia|intros _; lia]].
  unfold ltof. change String.length with slen. rewrite slen_app. lia.
Qed.

Lemma char_length_range k t : (1 ≤ slen t ≤ k)%nat → in_range 1 (Z.of_nat k) (char_length t) = true.
Proof.
  intros Hk. destruct (runes_bounds t) as [Hle Hge]. unfold in_range, char_length.
  assert (t ≠ "") as Hne by (intros ->; cbn in Hk; lia). specialize (Hge Hne).
  apply andb_true_iff. rewrite !Z.leb_le. lia.
Qed.

Lemma reference_length v : externalReferencePattern v = true → in_range 1 256 (char_length v) = true.
Proof.
  intros Hp. apply (char_length_range 256). unfold externalReferencePattern in Hp.
  assert (slen v = length (String.list_ascii_of_string v)) as ->.
  { clear. induction v as [|a v IH]; [done|]. cbn in *. by rewrite <-IH. }
  destruct (String.list_ascii_of_string v) as [|a l]; [done|].
  apply andb_true_iff in Hp as [[_ Hl%Nat.leb_le]%andb_true_iff _]. cbn. lia.
Qed.

Lemma hex_encode_lower t : all_lower_hex (hex_encode t) = true.
Proof.
  assert (∀ d, 0 ≤ d < 16 → in_range 48 57 (zb (hex_digit d)) || in_range 97 102 (zb (hex_digit d)) = true) as Hd.
  { intros d. apply (forall_below 16 (λ d, in_range 48 57 (zb (hex_digit d)) || in_range 97 102 (zb (hex_digit d)) = true)).
    by vm_compute. }
  induction t as [|a t IH]; [done|]. pose proof (zb_range a). cbn [hex_encode all_lower_hex].
  rewrite !Hd, IH by (Z.to_euclidean_division_equations; lia). done.
Qed.

Lemma sha256_hex_hash64 `{!ExtLaws} t : is_hash64 (sha256_hex t) = true.
Proof. unfold is_hash64, sha256_hex. rewrite slen_hex_encode, sha256_length, hex_encode_lower. done. Qed.

(** What decoding establishes of a request: the table's checks on it. *)
Lemma decoded_admissible body req requestID :
  decodeOperatorReconciliationRequest body = Ok (req, requestID) →
  or_Resolution req ∈ resolutions ∧ in_range 1 1000 (char_length (or_Reason req)) = true ∧
  match or_ExternalReference req with
  | Some f => xf_Type f ∈ reference_types ∧ in_range 1 256 (char_length (xf_Value f)) = true
  | None => True
  end.
Proof.
  unfold decodeOperatorReconciliationRequest. destruct (decode_only _ _ _) as [raw|]; [|done].
  destruct (uuid_Parse _) as [q|]; [|done]. case_bool_decide as Hres; [|done]. cbn [negb].
  destruct (_ || containsUnsafeOperatorText _) eqn:Hreason; [done|].
  apply orb_false_iff in Hreason as [[Hlo%Nat.ltb_ge Hhi%Nat.ltb_ge]%orb_false_iff _].
  destruct (check_reference _) as [ref|] eqn:Href; [|done]. intros [= <- _]. cbn.
  split_and!; [done|apply (char_length_range 1000); lia|].
  unfold check_reference in Href. destruct (or_ExternalReference raw) as [f|]; [|by injection Href as <-].
  cbn in Href. case_bool_decide; [|done]. cbn [negb] in Href. destruct (negb _ || _) eqn:Hv; [done|].
  injection Href as <-. cbn. reflect_bools. split; [done|]. by apply reference_length.
Qed.

Lemma World_db_update (w : World) db : w_db (w {{ w_db := db }}) = db.
Proof. by destruct w. Qed.

(** The insertion of an admissible request is refused only for want of an effect
    to reconcile. *)
Lemma insert_refused `{!ExtLaws} tenantID taskID actorID email requestID req db e db' :
  (∀ run, run ∈ bound_runs db →
     is_hash64 (ba_ContractHash (br_bound run)) = true ∧ is_hash64 (ba_TargetVersionHash (br_bound run)) = true) →
  insert_resolution tenantID taskID (or_Resolution req) actorID email (or_Reason req) (or_ExternalReference req) requestID db
    = (Err e, db') →
  find_event (has_request tenantID taskID requestID) db = None → find_event (has_terminal tenantID taskID) db = None →
  or_Resolution req ∈ resolutions → in_range 1 1000 (char_length (or_Reason req)) = true →
  match or_ExternalReference req with
  | Some f => xf_Type f ∈ reference_types ∧ in_range 1 256 (char_length (xf_Value f)) = true
  | None => True
  end → in_range 1 256 (char_length actorID) = true → char_length email ≤ 320 →
  e = ErrNoRows ∧ ((tenantID, taskID) ∉ observations db ∨
    ∀ run, run ∈ bound_runs db → ¬ (br_tenant_id run = tenantID ∧ br_task_id run = taskID)).
Proof.
  intros Hruns Hi Hq Ht Hres Hreason Href Hactor Hemail. unfold insert_resolution in Hi.
  destruct (filter _ (bound_runs db)) as [|run l] eqn:Hr; cbn [head] in Hi.
  { injection Hi as <- <-. split; [done|]. right. intros run Hrun Hk.
    assert (run ∈ filter (λ r, br_tenant_id r = tenantID ∧ br_task_id r = taskID) (bound_runs db)) as Hin
      by (by apply list_elem_of_filter). rewrite Hr in Hin. by apply elem_of_nil in Hin. }
  destruct (observed tenantID taskID db) eqn:Ho; cbn [negb] in Hi.
  2:{ injection Hi as <- <-. split; [done|]. left. rewrite <-observed_spec, Ho. done. }
  assert (run ∈ bound_runs db) as [Hc Hv]%Hruns.
  { assert (run ∈ filter (λ r, br_tenant_id r = tenantID ∧ br_task_id r = taskID) (bound_runs db)) as Hin
      by (rewrite Hr; left). by apply list_elem_of_filter in Hin as [_ ?]. }
  rewrite Ht, Hq, !bool_decide_false in Hi by (by intros []).
  assert (default "" (nullif_empty email) = email) as Hnull by (unfold nullif_empty; by destruct email).
  unfold resolution_admissible in Hi. cbn -[in_range resolutions reference_types sha256_hex is_hash64] in Hi.
  rewrite Hactor, Hnull, Hreason, Hc, Hv, sha256_hex_hash64, (bool_decide_true (_ ∈ resolutions)) in Hi by done.
  rewrite (proj2 (Z.leb_le _ _) Hemail) in Hi.
  destruct (or_ExternalReference req) as [f|]; cbn -[in_range reference_types] in Hi; [|done].
  destruct Href as [Hty Hval]. by rewrite Hval, bool_decide_true in Hi by done.
Qed.

(** What an accepted request can lead to.  In every reachable database, a
    request that was decoded, from an operator whose name fits the table's
    columns, is always answered: replayed, appended as one row, refused as a
    conflict because its identifier was used for something else or the task is
    already resolved, or refused because there is nothing to reconcile.  No
    constraint of the table can fail on it. *)
Theorem decoded_append_exact `{!ExtLaws} bs w body req requestID tenantID taskID actorID email :
  reachable bs w → w_faults w = [] → decodeOperatorReconciliationRequest body = Ok (req, requestID) →
  in_range 1 256 (char_length actorID) = true → char_length email ≤ 320 →
  let '(r, w') := appendOperatorReconciliation tenantID taskID actorID email requestID req w in
  (∃ x, r = Ok (scanOperatorReconciliationEvent x, true) ∧ w_db w' = w_db w ∧ x ∈ reconciliation_events (w_db w) ∧
     has_request tenantID taskID requestID x = true) ∨
  (∃ x, r = Ok (scanOperatorReconciliationEvent x, false) ∧
     appended tenantID taskID actorID requestID req x (w_db w) (w_db w')) ∨
  (r = Err errResolutionConflict ∧ w_db w' = w_db w ∧
   ∃ x, x ∈ reconciliation_events (w_db w) ∧
     (has_request tenantID taskID requestID x = true ∧
        reconciliationRequestMatches (scanOperatorReconciliationEvent x) actorID req = false ∨
      has_terminal tenantID taskID x = true)) ∨
  (r = Err errReconciliationNotRequired ∧ w_db w' = w_db w ∧
   ((tenantID, taskID) ∉ observations (w_db w) ∨
    ∀ run, run ∈ bound_runs (w_db w) → ¬ (br_tenant_id run = tenantID ∧ br_task_id run = taskID))).
Proof.
  intros Hw Hf (Hres & Hreason & Href)%decoded_admissible Hactor Hemail. rewrite append_no_faults by done.
  cbn [w_db]. rewrite (World_db_update w). unfold append_result.
  destruct (find_event (has_request _ _ _) _) as [x|] eqn:Hq.
  { apply find_event_Some in Hq as [Hx Hq]. cbv zeta.
    destruct (reconciliationRequestMatches _ _ _) eqn:Hm; [left; by exists x|]. right; right; left. eauto 10. }
  destruct (find_event (has_terminal _ _) _) as [x|] eqn:Ht.
  { apply find_event_Some in Ht as [Hx Ht]. right; right; left. eauto 10. }
  destruct (insert_resolution _ _ _ _ _ _ _ _ _) as [[x|e] db'] eqn:Hi; cbn [fst snd].
  { right; left. exists x. split; [done|]. by eapply insert_resolution_spec. }
  apply (insert_refused _ _ _ _ _ _ _ _ _ (ok_run_hashes _ (reachable_ok _ _ Hw))) in Hi as [-> Hn]; [|done..].
  right; right; right. by split_and!.
Qed.

Lemma observation_refused t run d :
  TrimSpace (fd_TargetHost d) ≠ fd_TargetHost d → observation_accepted d (observation_row t run d) = false.
Proof.
  intros Hhost. unfold observation_accepted. cbn [rc_target_host observation_row].
  by rewrite (bool_decide_false (Some _ = Some _)), andb_false_r by congruence.
Qed.

(** The insertion compares the trimmed host it writes with the stored one, which
    is not trimmed: a typed failure whose host has blanks around it is recorded,
    but its unknown effect is not, and it can never be reconciled. *)
Theorem observation_lost tid reason d w r run :
  w_faults w = [] → task_records (w_db w) !! tid = Some r → TaskAllowsRuntimeMutation (r_status r) = true →
  IsTypedReconciliationFailure (Some d) = true →
  run ∈ bound_runs (w_db w) → run_observable (w_db w) tid run = true → TrimSpace (fd_TargetHost d) ≠ fd_TargetHost d →
  let '(res, w') := MarkFailedWithDetails tid reason (Some d) w in
  res = Ok tt ∧ is_failed tid (w_db w') ∧ reconciliation_events (w_db w') = reconciliation_events (w_db w).
Proof.
  intros Hf Hr Hg Htyped Hrun Hobs Hhost. rewrite <-guard_mutation in Hg.
  assert (markFailedRecord tid reason (details_text (Some d)) w = (Ok tt, w {{ w_db := failed_db tid reason d r (w_db w) }})) as Hplain.
  { unfold markFailedRecord, mark_failed. fold fail_guard. rewrite (exec_transition_no_faults _ _ _ _ r) by done. by rewrite Hg. }
  unfold MarkFailedWithDetails. rewrite Htyped. cbn [negb].
  rewrite (run_bind _ _ _ _ _ (tx_begin_no_faults _ Hf)).
  erewrite run_bind by (by apply tx_exec_no_faults). rewrite (mark_failed_running _ _ _ _ r) by done.
  cbn [taskTransitionResult Z.eqb]. erewrite run_bind by (by apply tx_exec_no_faults).
  assert (insert_observation tid d (failed_db tid reason d r (w_db w)) = (Err constraint_error, failed_db tid reason d r (w_db w))) as Hi.
  { unfold insert_observation, failed_db. rewrite tasks_update, lookup_insert_eq. cbv zeta.
    match goal with |- context [forallb ?f ?l] => destruct (forallb f l) eqn:Hall end; [|done]. exfalso.
    rewrite forallb_forall in Hall. specialize (Hall run). rewrite <-list_elem_of_In, list_elem_of_filter in Hall.
    rewrite observation_refused in Hall by done. discriminate Hall. split; [|done].
    unfold run_observable in *. rewrite Hr in Hobs. rewrite tasks_update, lookup_insert_eq. exact Hobs. }
  unfold failed_db in Hi. rewrite Hi. cbv beta iota. rewrite Hplain. split_and!; [done| |done].
  exists (fail_row reason (details_text (Some d)) r). split; [|done].
  change (<[tid := fail_row reason (details_text (Some d)) r]> (task_records (w_db w)) !! tid = Some (fail_row reason (details_text (Some d)) r)).
  apply lookup_insert_eq.
Qed.
End Facts.
