(* ===== verification/StoreExamples.v ===== *)
(** * Concrete runs of the store

    A checkpoint codec that satisfies [CheckpointCodecLaws], a short life of one
    task, and the theorems of StoreTheorems.v applied to it. *)

From S2P Require Import Prelude GoStrings Json Ext WalCodec Checkpoint Types Capability Governance.
From S2P Require Import Store Reconciliation StoreLogic StoreSpec StoreTheorems ReconciliationFacts.
Open Scope Z_scope.

Module StoreExample.
#[local] Existing Instance demo_ext.
#[local] Existing Instance stable_sort.
#[local] Existing Instance stable_sort_laws.
#[local] Instance supply : UUIDSupply := λ n, N.of_nat (1000 + n).

(** ** A codec: the identifying data as one decimal number *)

Abbreviation coded := (N * (Z * string * string) * list (N * N * Z * bool))%type.

Definition code_entry (e : WalEntry) : N * N * Z * bool :=
  (EntryID e, we_TaskID e, StepIndex e, is_committed e).
Definition code (cp : CheckpointPayload) : coded :=
  (cp_TaskID cp, (LastCommittedStep (cp_ResumeToken cp), CheckpointDigest (cp_ResumeToken cp),
                  rt_RuntimeID (cp_ResumeToken cp)), code_entry <$> WalEntries cp).

Definition uncode_entry (c : N * N * Z * bool) : WalEntry :=
  let '(id, task, step, com) := c in
  mkWalEntry id task step None (if com : bool then "committed" else "") "" None 0 "" None.
Definition uncode (c : coded) : CheckpointPayload :=
  let '(id, (last, digest, rt), es) := c in
  mkCheckpoint id (mkToken last digest rt) (uncode_entry <$> es) "" 0.

#[local] Instance codec : CheckpointCodec := {
  marshalCheckpoint cp := Ok (pretty (N.pos (encode (code cp))));
  unmarshalCheckpoint text :=
    match digits_value 0 text with
    | Some (Z.pos p) => uncode <$> decode p
    | _ => None
    end;
}.

#[local] Instance codec_laws : CheckpointCodecLaws.
Proof.
  intros cp text [= <-]. split; [apply pretty_N_nonempty|].
  exists (uncode (code cp)). split.
  - cbn. rewrite digits_value_pretty. cbn. by rewrite decode_encode.
  - split_and!; cbn; [done|by destruct (cp_ResumeToken cp)|].
    rewrite <-list_fmap_compose. apply Forall2_fmap_r, Forall_Forall2_diag, Forall_forall.
    intros e _. cbn. split_and!; [done..|]. by destruct (is_committed e); vm_compute.
Qed.

(** ** A task's life *)

Definition task : TaskRecord :=
  mkTask 7%N "acme" TaskStatusPending None None "{}" None "" "" None AgentIdentity_zero [] []
    None "key-1" None None None None None None 0 0 false None None None "" None.

Definition w0 : World := mkWorld (empty_db []) [] 5 0.
Definition w1 : World := (run_op (OpCreateTask task) w0).2.
Definition w2 : World := (run_op (OpMarkDispatched 7%N "rt-1" "http://rt-1") w1).2.
Definition cp1 : CheckpointPayload := CheckpointExample.delta [0; 1] 1.
Definition w3 : World := (run_op (OpSaveCheckpoint (Some cp1)) w2).2.
Definition w4 : World := (run_op (OpMarkCompleted 7%N) w3).2.

Lemma step_at op w : w_faults w = [] → w_now w = 5 → store_step w (run_op op w).2.
Proof.
  intros Hf Hn. replace w with (w {{ w_faults := []; w_now := 5 }}) at 2; [apply store_step_op|].
  destruct w; cbn in *; by subst.
Qed.

Lemma reach1 : reachable [] w1.
Proof. eapply reach_step; [by apply (reach_start [] w0)|]. by apply step_at. Qed.
Lemma reach2 : reachable [] w2.
Proof. eapply reach_step; [apply reach1|]. by apply step_at. Qed.
Lemma reach3 : reachable [] w3.
Proof. eapply reach_step; [apply reach2|]. apply step_at; vm_compute; reflexivity. Qed.

Definition row_of (w : World) : task_row :=
  default (new_row task "{}" 0) (task_records (w_db w) !! 7%N).





Lemma save_checkpoint_advances_witness :
  (SaveCheckpoint (Some cp1) w2).1 = Ok tt ∧
  steps_of 7%N (w_db (SaveCheckpoint (Some cp1) w2).2) = [1].
Proof.
  assert (Hr : task_records (w_db w2) !! cp_TaskID cp1 = Some (row_of w2)) by (vm_compute; reflexivity).
  assert (Hok : (SaveCheckpoint (Some cp1) w2).1 = Ok tt) by (vm_compute; reflexivity).
  pose proof (save_checkpoint_advances cp1 w2 (row_of w2) Hr) as Hs.
  split; [exact Hok|]. revert Hs Hok.
  destruct (SaveCheckpoint (Some cp1) w2) as [result w'] eqn:He. cbn [fst snd].
  intros [Hdone _] Hok. destruct (Hdone Hok) as (_ & _ & Hst). exact Hst.
Defined.

Lemma cumulative_checkpoint_from_store_witness :
  match (GetCumulativeRecoveryCheckpoint 7%N w3).1 with
  | Ok (Some out) => row_watermark (row_of w3) = Some (LastStep out)
  | _ => False
  end.
Proof.
  assert (Hr : task_records (w_db w3) !! 7%N = Some (row_of w3)) by (vm_compute; reflexivity).
  assert (Hfit : ∀ x cp, x ∈ wal_checkpoints (w_db w3) →
    unmarshalCheckpoint (wr_wal_entries x) = Some cp → in_uint32 (LastStep cp)).
  { intros x cp Hx Hu. assert (wal_checkpoints (w_db w3) = [x]) as Hl.
    { vm_compute in Hx |- *. apply list_elem_of_singleton in Hx. by rewrite Hx. }
    assert (Some cp = Some (uncode (code cp1))) as [= ->].
    { rewrite <-Hu. vm_compute in Hl. injection Hl as <-. vm_compute. reflexivity. }
    vm_compute. split; discriminate. }
  pose proof (cumulative_checkpoint_from_store [] w3 7%N (row_of w3) reach3 Hr Hfit) as Hc.
  destruct (GetCumulativeRecoveryCheckpoint 7%N w3).1 as [[out|]|] eqn:He.
  - destruct Hc as (_ & Hw & _). exact Hw.
  - vm_compute in He. discriminate He.
  - vm_compute in He. discriminate He.
Defined.

Lemma predicates_match_guards_witness :
  is_ok (MarkCompleted 7%N w2).1 = true ∧ is_ok (MarkDispatched 7%N "rt-2" "http://rt-2" w2).1 = false.
Proof.
  assert (Hr : task_records (w_db w2) !! 7%N = Some (row_of w2)) by (vm_compute; reflexivity).
  destruct (predicates_match_guards 7%N w2 (row_of w2) "rt-2" "http://rt-2" "" None "" eq_refl Hr)
    as (Hd & Hc & _).
  split; [exact Hc|exact Hd].
Defined.

Lemma pending_cannot_be_failed_witness :
  (MarkFailedWithDetails 7%N "policy persistence failed" None w1).1 = Err ErrTaskTransitionRejected.
Proof.
  assert (Hr : task_records (w_db w1) !! 7%N = Some (row_of w1)) by (vm_compute; reflexivity).
  destruct (pending_cannot_be_failed 7%N "policy persistence failed" None w1 (row_of w1) Hr
              ltac:(vm_compute; reflexivity)) as (_ & _ & Hres).
  apply Hres. vm_compute. reflexivity.
Defined.

Definition w_recovering : World := (run_op (OpMarkRecovering "rt-1") w2).2.

Lemma recovering_listing_always_fails_witness :
  r_status (row_of w_recovering) = TaskStatusRecovering ∧
  is_ok (GetRecoveringTasks w_recovering).1 = false.
Proof.
  assert (Hs : r_status (row_of w_recovering) = TaskStatusRecovering) by (vm_compute; reflexivity).
  assert (Hr : task_records (w_db w_recovering) !! 7%N = Some (row_of w_recovering)) by (vm_compute; reflexivity).
  split; [exact Hs|]. exact (recovering_listing_always_fails 7%N w_recovering (row_of w_recovering) Hr Hs).
Defined.

Lemma tenant_isolation_witness : is_ok (GetTask 7%N "other" w2).1 = false ∧ is_ok (GetTask 7%N "acme" w2).1 = true.
Proof.
  assert (Hr : task_records (w_db w2) !! 7%N = Some (row_of w2)) by (vm_compute; reflexivity).
  split; [|vm_compute; reflexivity].
  refine (proj1 (tenant_isolation 7%N w2 (row_of w2) "other" "" "" "" "" None "" Hr _)).
  vm_compute. discriminate.
Defined.
End StoreExample.

(** * An unknown effect and its reconciliation *)
Module ReconciliationExample.
#[local] Existing Instance demo_ext.
#[local] Existing Instance stable_sort.
#[local] Existing Instance StoreExample.supply.
#[local] Existing Instance StoreExample.codec.
#[local] Existing Instance StoreExample.codec_laws.
#[local] Instance laws : ExtLaws := demo_ext_laws (λ _, "").

Definition hash : string := "0123456789abcdef0123456789abcdef0123456789abcdef0123456789abcdef".
Definition bound : BoundActionRunIdentity := mkBoundAction 11%N hash 12%N hash "order-9" hash.
Definition binding : binding_row := mkBinding 11%N "acme" hash 12%N hash true.
Definition bound_task : TaskRecord := mkTask 7%N "acme" TaskStatusPending None None "{}" None "" "" None AgentIdentity_zero [] []
  None "key-1" None None None None None None 0 0 false None None None "" (Some bound).
Definition unknown_effect (host : string) : TaskFailureDetails :=
  mkFailureDetails "runtime" "execute" 502 "" "" None "" "" None None "" "" None "unknown_effect_state" true
    "idempotency_unresolved" host hash.

Definition w0 : World := mkWorld (empty_db [binding]) [] 5 0.
Definition w1 : World := (run_op (OpCreateTask bound_task) w0).2.
Definition w2 : World := (run_op (OpMarkDispatched 7%N "rt-1" "http://rt-1") w1).2.
Definition w3 : World := (run_op (OpMarkFailed 7%N "unknown effect" (Some (unknown_effect "api.example.com"))) w2).2.
Definition body : string :=
  obj_text [("request_id", str_text "21"); ("resolution", str_text reconciliationSucceeded);
    ("reason", str_text "the order is in the ledger")].
Definition req (resolution : string) : operatorReconciliationRequest :=
  mkReconciliationRequest "21" resolution "the order is in the ledger" None.
Definition w4 : World := (run_op (OpReconcile "acme" 7%N "root" "ops@acme.test" 21%N (req reconciliationSucceeded)) w3).2.

Lemma effect_reach1 : reachable [binding] w1.
Proof. eapply reach_step; [by apply (reach_start [binding] w0)|]. by apply StoreExample.step_at. Qed.
Lemma effect_reach2 : reachable [binding] w2.
Proof. eapply reach_step; [apply effect_reach1|]. apply StoreExample.step_at; vm_compute; reflexivity. Qed.
Lemma effect_reach3 : reachable [binding] w3.
Proof. eapply reach_step; [apply effect_reach2|]. apply StoreExample.step_at; vm_compute; reflexivity. Qed.
Lemma effect_reach4 : reachable [binding] w4.
Proof. eapply reach_step; [apply effect_reach3|]. apply StoreExample.step_at; vm_compute; reflexivity. Qed.

Lemma reconciliation_state_exact_witness :
  match (loadOperatorReconciliationState "acme" 7%N w3).1 with
  | Ok st => resolved_as "acme" 7%N (w_db w3) st ∧ os_Required st = true
  | Err _ => False
  end.
Proof.
  pose proof (reconciliation_state_exact [binding] w3 "acme" 7%N effect_reach3 ltac:(vm_compute; reflexivity)) as Hst.
  destruct (loadOperatorReconciliationState "acme" 7%N w3).1 as [st|e] eqn:Hl.
  - split; [apply Hst|]. vm_compute in Hl. injection Hl as <-. reflexivity.
  - vm_compute in Hl. discriminate Hl.
Defined.


Definition append (q : operatorReconciliationRequest) : ST World (res (operatorReconciliationEvent * bool)) :=
  appendOperatorReconciliation "acme" 7%N "root" "ops@acme.test" 21%N q.

Definition event : operatorReconciliationEvent :=
  match (append (req reconciliationSucceeded) w3).1 with
  | Ok (e, _) => e
  | Err _ => scanOperatorReconciliationEvent (mkReconciliation "" 0%N bound "" "" None "" "" None "" None None None None)
  end.

Lemma reconciliation_request_idempotent_witness :
  (append (req reconciliationSucceeded) w4).1 = Ok (event, true) ∧
  (append (req reconciliationFailed) w4).1 = Err errResolutionConflict.
Proof.
  assert (Ha : append (req reconciliationSucceeded) w3 = (Ok (event, false), w4)) by (vm_compute; reflexivity).
  pose proof (reconciliation_request_idempotent [binding] w3 w4 w4 "acme" 7%N "root" "ops@acme.test" 21%N
    (req reconciliationSucceeded) event false effect_reach3 Ha (rtc_refl _ _) "root" "ops@acme.test") as Hall.
  assert (Hf : w_faults w4 = []) by (vm_compute; reflexivity).
  split.
  - specialize (Hall (req reconciliationSucceeded)). unfold append.
    destruct (appendOperatorReconciliation _ _ _ _ _ _ w4) as [r w']. destruct Hall as (_ & Hr & _). cbn [fst].
    rewrite (Hr Hf). vm_compute. reflexivity.
  - specialize (Hall (req reconciliationFailed)). unfold append.
    destruct (appendOperatorReconciliation _ _ _ _ _ _ w4) as [r w']. destruct Hall as (_ & Hr & _). cbn [fst].
    rewrite (Hr Hf). vm_compute. reflexivity.
Defined.

Lemma decoded_append_exact_witness :
  decodeOperatorReconciliationRequest body = Ok (req reconciliationSucceeded, 21%N) ∧
  (∃ x, appended "acme" 7%N "root" 21%N (req reconciliationSucceeded) x (w_db w3) (w_db w4)).
Proof.
  assert (Hd : decodeOperatorReconciliationRequest body = Ok (req reconciliationSucceeded, 21%N)) by (vm_compute; reflexivity).
  split; [exact Hd|].
  pose proof (decoded_append_exact [binding] w3 body (req reconciliationSucceeded) 21%N
    "acme" 7%N "root" "ops@acme.test" effect_reach3 ltac:(vm_compute; reflexivity) Hd ltac:(vm_compute; reflexivity)
    ltac:(vm_compute; discriminate)) as Hx.
  assert (Ha : append (req reconciliationSucceeded) w3 = (Ok (event, false), w4)) by (vm_compute; reflexivity).
  unfold append in Ha. rewrite Ha in Hx. revert Hx. clear. generalize event, w3, w4. intros ev w w'.
  intros [(x & Hx & _)|[(x & _ & Hx)|[(Hx & _)|(Hx & _)]]]; [discriminate Hx|by exists x|discriminate Hx..].
Defined.

(** A host with a blank: the failure is recorded, the unknown effect is not. *)
Lemma observation_lost_witness :
  reconciliation_events (w_db (MarkFailedWithDetails 7%N "unknown effect" (Some (unknown_effect " api.example.com")) w2).2) = [].
Proof.
  pose proof (observation_lost 7%N "unknown effect" (unknown_effect " api.example.com") w2 (StoreExample.row_of w2)
    (mkBoundRun 7%N "acme" bound) ltac:(vm_compute; reflexivity) ltac:(vm_compute; reflexivity) ltac:(vm_compute; reflexivity)
    ltac:(vm_compute; reflexivity) ltac:(vm_compute; left) ltac:(vm_compute; reflexivity) ltac:(vm_compute; discriminate)) as Hl.
  destruct (MarkFailedWithDetails _ _ _ w2) as [r w']. destruct Hl as (_ & _ & Hl). cbn [snd]. rewrite Hl. vm_compute. reflexivity.
Defined.
End ReconciliationExample.
