(* ===== verification/InputRefs.v ===== *)
(** * Sensitive inputs: redaction, the keyring and encrypted input references

    coordinator/input_redaction.go, input_ref_crypto.go, input_ref_transform.go
    and the pure half of execution_input_refs.go.  Before a task definition is
    stored, [protectTaskDefinitionInputs] replaces its sensitive parts by
    references to ciphertexts; at recovery [rehydrateTaskDefinitionInputRefs]
    puts the plaintexts back.

    A decoded [interface{}] is a [jv] (the raw texts it carries are not looked
    at); a Go map is listed in any order, [range] visits its keys in the order
    [MapRange] chooses, and a computation that panics is [None]. *)

From S2P Require Import Prelude GoStrings Json Ext WalCodec Checkpoint Types Capability Governance.
From S2P Require Import Store.
Open Scope Z_scope.

(** The order in which [range] visits the keys of a map. *)
Class MapRange := range_keys : list string → list string.
Class MapRangeLaws `{MapRange} : Prop := range_keys_perm ks : range_keys ks ≡ₚ ks.

(** crypto/cipher's AES-GCM for a 32-byte key, and crypto/rand: the [n]-th
    nonce, [None] when the source fails. *)
Class AEAD := {
  gcm_Seal : string → string → string → string → string; (* key nonce plaintext aad *)
  gcm_Open : string → string → string → string → option string; (* key nonce ciphertext aad *)
  nonce_supply : nat → option string;
}.
Class AEADLaws `{AEAD} : Prop :=
  gcm_open_seal key nonce plaintext aad :
    gcm_Open key nonce (gcm_Seal key nonce plaintext aad) aad = Some plaintext.

(** ** Decoded values *)

(** The members of a decoded object: a repeated key keeps its last value. *)
Fixpoint last_wins {A} (l : list (string * A)) : list (string * A) :=
  match l with
  | [] => []
  | (k, v) :: l => if bool_decide (k ∈ l.*1) then last_wins l else (k, v) :: last_wins l
  end.

(** What decoding into an [interface{}] keeps. *)
Fixpoint norm (v : jv) : jv :=
  match v with
  | JArr l => JArr (List.map (λ n, ("", norm n.2)) l)
  | JObj l => JObj (last_wins (List.map (λ kv, (kv.1, ("", norm kv.2.2))) l))
  | _ => v
  end.

(** [json.Unmarshal(raw, &value)] for [var value interface{}]; [None] is an error. *)
Definition unmarshal_any (raw : string) : option jv :=
  match json_parse raw with
  | Some n => if numbers_fit n.2 then Some (norm n.2) else None
  | None => None
  end.

Definition mk_obj (l : list (string * jv)) : jv := JObj ((λ kv, (kv.1, ("", kv.2))) <$> l).
Definition mk_arr (l : list jv) : jv := JArr ((λ v, ("", v)) <$> l).
Definition mk_strings (l : list string) : jv := mk_arr (JStr <$> l).

(** ** Classifying keys and values *)

Definition inputRedactionPolicyVersion : string := "overture-input-redaction-v1".
Definition inputReferenceRedactionPolicyVersion : string := "input-reference-redaction-v1".
Definition maxSafeInputStringLength : nat := 512.

Definition sensitiveInputKeyPatterns : list string :=
  ["authorization"; "cookie"; "set_cookie"; "set-cookie"; "token"; "secret"; "password"; "api_key";
   "apikey"; "access_key"; "refresh_token"; "private_key"; "credential"; "body"; "raw_body";
   "response_body"; "request_body"; "payload"; "content"; "file_content"; "file_contents";
   "full_text"; "file_path"; "absolute_path"; "full_absolute_path"].

Definition safeInputMetadataKeys : list string :=
  ["content_redacted"; "content_digest"; "content_digest_sha256"; "content_bytes"; "content_type";
   "input_redacted"; "input_digest_sha256"; "input_bytes"; "input_content_type";
   "encrypted_input_ref"; "encrypted_input_ref_id"; "purpose"; "key_version"; "created_at";
   "expires_at"; "safe_summary"; "sensitive_fields_redacted"; "redaction_policy_version"].

Fixpoint dash_to_underscore (s : string) : string :=
  match s with
  | "" => ""
  | String a s' => String (if bool_decide (a = "-"%char) then "_"%char else a) (dash_to_underscore s')
  end.

Definition normalizeInputKey (key : string) : string := dash_to_underscore (ToLower (TrimSpace key)).

Definition inputKeySensitive (normalized : string) : bool :=
  existsb (λ pattern, Contains normalized (normalizeInputKey pattern)) sensitiveInputKeyPatterns.

Definition inputKeySafe (normalized : string) : bool := bool_decide (normalized ∈ safeInputMetadataKeys).

(** The third and second byte of a drive path. *)
Definition drive_path (s : string) : bool :=
  match s with
  | String _ (String b (String c _)) =>
    bool_decide (b = ":"%char) && (bool_decide (c = bsl) || bool_decide (c = "/"%char))
  | _ => false
  end.

Definition looksLikePrivatePath (value : string) : bool :=
  let trimmed := TrimSpace value in
  HasPrefix trimmed "/" || HasPrefix trimmed "~/" || HasPrefix trimmed (String bsl (str1 bsl)) ||
  drive_path trimmed.

Section Redaction.
Context `{Ext} `{MapRange}.

Definition valueToInputString (v : jv) : string :=
  match v with JStr s => s | _ => any_text v end.

Definition sha256InputBytes (value : string) : string := sha256_hex value.

(** The replacer of [redactInlineInputAuth]: [skip] bytes of a match are left. *)
Fixpoint replace_auth (skip : nat) (s : string) : string :=
  match s with
  | "" => ""
  | String a s' =>
    match skip with
    | S k => replace_auth k s'
    | O =>
      if HasPrefix s "Bearer " then "[redacted-auth] " +:+ replace_auth 6 s'
      else if HasPrefix s "Basic " then "[redacted-auth] " +:+ replace_auth 5 s'
      else String a (replace_auth 0 s')
    end
  end.
Definition redactInlineInputAuth (value : string) : string := replace_auth 0 value.

Definition safeURLContainsSensitiveMaterial (raw : string) : bool :=
  match url_Parse (TrimSpace raw) with
  | Some u => nonempty (url_Scheme u) && nonempty (url_Host u) && (nonempty (url_RawQuery u) || url_has_User u)
  | None => false
  end.

Definition inputRedactedEnvelope (value : jv) (reason : string) : jv :=
  let raw := valueToInputString value in
  mk_obj [("input_redacted", JBool true); ("safe_summary", JStr reason);
          ("input_digest_sha256", JStr (sha256InputBytes raw));
          ("input_bytes", JNum (itoa (Z.of_nat (slen raw))));
          ("sensitive_fields_redacted", mk_strings [reason]);
          ("redaction_policy_version", JStr inputRedactionPolicyVersion)].

Definition inputRedactedJSON (reason raw : string) : string :=
  any_text (mk_obj [("input_redacted", JBool true); ("safe_summary", JStr reason);
    ("input_digest_sha256", JStr (sha256InputBytes raw)); ("input_bytes", JNum (itoa (Z.of_nat (slen raw))));
    ("sensitive_fields_redacted", mk_strings ["task_definition"]);
    ("redaction_policy_version", JStr inputRedactionPolicyVersion)]).

Definition obj_add (k : string) (v : jv) (o : jv) : jv :=
  match o with JObj l => JObj (filter (λ kv, kv.1 ≠ k) l ++ [(k, ("", v))]) | _ => o end.

Definition safePathEnvelope (path : string) : jv :=
  let trimmed := TrimSpace path in
  obj_add "safe_path_digest" (JStr (sha256InputBytes trimmed))
    (inputRedactedEnvelope (JStr trimmed) "private_path").

Definition safeURLForPersistence (raw : string) : jv :=
  let trimmed := TrimSpace raw in
  if negb (nonempty trimmed) then JStr ""
  else match url_Parse trimmed with
  | Some u =>
    if negb (nonempty (url_Scheme u)) || negb (nonempty (url_Host u)) then JStr (redactInlineInputAuth trimmed)
    else
      mk_obj ([("safe_url", JStr (url_Scheme u +:+ "://" +:+ url_Host u +:+ url_EscapedPath u));
               ("safe_host", JStr (url_Hostname u));
               ("redaction_policy_version", JStr inputRedactionPolicyVersion)]
        ++ if nonempty (url_RawQuery u) || url_has_User u then
             [("input_redacted", JBool true); ("input_digest_sha256", JStr (sha256InputBytes trimmed));
              ("input_bytes", JNum (itoa (Z.of_nat (slen trimmed))));
              ("sensitive_fields_redacted", mk_strings ["url_query_or_credentials"])]
           else [])
  | None => JStr (redactInlineInputAuth trimmed)
  end.

(** ** The header map

    [protectHeaders] and [safeHeaderMetadata] fill a map whose
    ["sensitive_fields_redacted"] entry starts as a [[]string] that the loop
    appends to through a type assertion: the assertion panics once a header of
    that very name has replaced the entry. *)

Inductive header_value := HStrings (l : list string) | HValue (v : jv).

Definition header_jv (h : header_value) : jv :=
  match h with HStrings l => mk_strings l | HValue v => v end.

Definition headers_start (version : string) : gmap string header_value :=
  {[ "input_redacted" := HValue (JBool true); "sensitive_fields_redacted" := HStrings [];
     "redaction_policy_version" := HValue (JStr version) ]}.

(** [out["sensitive_fields_redacted"] = append(out[...].([]string), key)]. *)
Definition note_sensitive (key : string) (out : gmap string header_value)
    : option (gmap string header_value) :=
  match out !! "sensitive_fields_redacted" with
  | Some (HStrings l) => Some (<["sensitive_fields_redacted" := HStrings (l ++ [key])]> out)
  | _ => None
  end.

Definition headers_value (out : gmap string header_value) : jv :=
  mk_obj ((λ kv, (kv.1, header_jv kv.2)) <$> map_to_list out).

Definition allowed_header (normalized : string) : bool :=
  bool_decide (normalized ∈ ["content_type"; "content_length"; "etag"; "last_modified"; "cache_control";
                              "x_request_id"; "x_correlation_id"]).

Fixpoint assoc {A} (k : string) (l : list (string * A)) : option A :=
  match l with
  | [] => None
  | (k', a) :: l => if bool_decide (k = k') then Some a else assoc k l
  end.

(** One header of [safeHeaderMetadata]; [clean] is its sanitized value, [None]
    if sanitizing it panics. *)
Definition safe_header (key : string) (child : jv) (clean : option jv) (out : gmap string header_value)
    : option (gmap string header_value) :=
  let normalized := normalizeInputKey key in
  if inputKeySensitive normalized then
    note_sensitive key (<[key := HValue (inputRedactedEnvelope child "sensitive_header")]> out)
  else if allowed_header normalized then c ← clean; Some (<[key := HValue c]> out)
  else Some (<[key := HValue (inputRedactedEnvelope child "non_allowlisted_header")]> out).

Fixpoint safe_headers_loop (keys : list string) (members : list (string * (jv * option jv)))
    (out : gmap string header_value) : option (gmap string header_value) :=
  match keys with
  | [] => Some out
  | k :: keys =>
    match assoc k members with
    | Some (child, clean) => out ← safe_header k child clean out; safe_headers_loop keys members out
    | None => safe_headers_loop keys members out
    end
  end.

(** The headers, each with its value and its sanitized value. *)
Definition safeHeaderMetadata (headers : list (string * (jv * option jv))) : option jv :=
  out ← safe_headers_loop (range_keys (headers.*1)) headers (headers_start inputRedactionPolicyVersion);
  Some (headers_value out).

(** All values, or [None] if one is missing. *)
Fixpoint all_some {A} (l : list (option A)) : option (list A) :=
  match l with
  | [] => Some []
  | x :: l => a ← x; r ← all_some l; Some (a :: r)
  end.

(** The sanitized value of one member; [clean] is its child sanitized, and
    [headers] the child's own members, each with its sanitized value. *)
Definition sanitize_member (key : string) (child : jv) (clean : option jv)
    (headers : list (string * (jv * option jv))) : option jv :=
  let normalized := normalizeInputKey key in
  if inputKeySafe normalized then clean
  else if inputKeySensitive normalized then Some (inputRedactedEnvelope child "sensitive_input")
  else if bool_decide (normalized = "path") && looksLikePrivatePath (valueToInputString child)
  then Some (safePathEnvelope (valueToInputString child))
  else if bool_decide (normalized = "url") then Some (safeURLForPersistence (valueToInputString child))
  else if bool_decide (normalized = "headers") then
    match child with
    | JObj _ => safeHeaderMetadata headers
    | _ => Some (inputRedactedEnvelope child "headers")
    end
  else clean.

Fixpoint sanitizeInputValue (v : jv) : option jv :=
  match v with
  | JObj l =>
    vs ← all_some (List.map (λ kv,
           x ← sanitize_member kv.1 kv.2.2 (sanitizeInputValue kv.2.2)
                 match kv.2.2 with
                 | JObj l' => List.map (λ kv', (kv'.1, (kv'.2.2, sanitizeInputValue kv'.2.2))) l'
                 | _ => []
                 end;
           Some (kv.1, x)) l);
    Some (mk_obj vs)
  | JArr l => vs ← all_some (List.map (λ n, sanitizeInputValue n.2) l); Some (mk_arr vs)
  | JStr s =>
    Some (if looksLikePrivatePath s then safePathEnvelope s
          else if (maxSafeInputStringLength <? slen s)%nat then inputRedactedEnvelope v "large_string"
          else JStr (redactInlineInputAuth s))
  | _ => Some v
  end.

(** [None] is a panic. *)
Definition sanitizeTaskDefinitionForPersistence (raw : string) : option string :=
  if negb (nonempty raw) then Some raw
  else match unmarshal_any raw with
  | None => Some (inputRedactedJSON "invalid_json" raw)
  | Some value => any_text <$> sanitizeInputValue value
  end.

Fixpoint containsSensitiveInput (v : jv) : bool :=
  match v with
  | JObj l =>
    existsb (λ kv,
      let normalized := normalizeInputKey kv.1 in
      inputKeySensitive normalized ||
      (bool_decide (normalized = "path") && looksLikePrivatePath (valueToInputString kv.2.2)) ||
      (bool_decide (normalized = "url") && safeURLContainsSensitiveMaterial (valueToInputString kv.2.2)) ||
      containsSensitiveInput kv.2.2) l
  | JArr l => existsb (λ n, containsSensitiveInput n.2) l
  | JStr s => looksLikePrivatePath s || (maxSafeInputStringLength <? slen s)%nat
  | _ => false
  end.
End Redaction.

(** ** The keyring *)

Definition ErrExecutionInputRefKeyMissing : goerror := Sentinel "execution input ref encryption key missing".
Definition ErrExecutionInputRefKeyVersionMissing : goerror := Sentinel "execution input ref key version missing".
Definition ErrExecutionInputRefDecrypt : goerror := Sentinel "execution input ref decrypt denied".

Definition defaultExecutionInputRefKeyVersion : string := "env:v1".

Record executionInputCipher := mkCipher {
  ci_keyVersion : string;
  ci_keyFingerprint : string;
  ci_key : string; (* the 32 bytes [gcm] was made from *)
}.

Record executionInputKeyring := mkKeyring {
  kr_activeKeyVersion : string;
  kr_ciphers : gmap string executionInputCipher;
}.

Definition errExecutionInputKeyringConfig (detail : string) : goerror :=
  Errorf ("execution input ref keyring config invalid: " +:+ detail).

Definition key_size_error : goerror := Errorf "execution input ref key must decode to 32 bytes".

(** The first decoding to 32 bytes. *)
Fixpoint first_key (decodings : list (option string)) : option string :=
  match decodings with
  | [] => None
  | Some key :: l => if (slen key =? 32)%nat then Some key else first_key l
  | None :: l => first_key l
  end.

Definition base64_decodings (raw : string) : list (option string) :=
  [b64_decode false true raw; b64_decode false false raw; b64_decode true true raw; b64_decode true false raw].

Definition decodeExecutionInputKey (rawKey : string) : res string :=
  let rawKey := TrimSpace rawKey in
  if negb (nonempty rawKey) then Err ErrExecutionInputRefKeyMissing
  else match first_key (base64_decodings rawKey ++ [hex_decode rawKey]) with
  | Some key => Ok key
  | None => if (slen rawKey =? 32)%nat then Ok rawKey else Err key_size_error
  end.

Definition decodeExecutionInputKeyringKey (rawKey : string) : res string :=
  let rawKey := TrimSpace rawKey in
  if negb (nonempty rawKey) then Err ErrExecutionInputRefKeyMissing
  else match first_key (base64_decodings rawKey) with
  | Some key => Ok key
  | None => Err (Errorf "execution input ref keyring key must decode from base64 to 32 bytes")
  end.

(** [strings.Cut(s, ":")]. *)
Fixpoint cut_colon (s : string) : option (string * string) :=
  match s with
  | "" => None
  | String a s' =>
    if bool_decide (a = ":"%char) then Some ("", s')
    else '(l, r) ← cut_colon s'; Some (String a l, r)
  end.

Section Keyring.
Context `{Ext}.

(** AES accepts every 32-byte key, so only the length can be refused. *)
Definition newExecutionInputCipherFromKeyBytes (key keyVersion : string) : res executionInputCipher :=
  if negb (slen key =? 32)%nat then Err key_size_error
  else
    let keyVersion := TrimSpace keyVersion in
    Ok (mkCipher (if nonempty keyVersion then keyVersion else defaultExecutionInputRefKeyVersion)
          (sha256_hex key) key).

Definition newExecutionInputCipher (rawKey keyVersion : string) : res executionInputCipher :=
  key ← decodeExecutionInputKey rawKey; newExecutionInputCipherFromKeyBytes key keyVersion.

Fixpoint parse_entries (entries : list string) (ciphers : gmap string executionInputCipher)
    : res (gmap string executionInputCipher) :=
  match entries with
  | [] => Ok ciphers
  | entry :: entries =>
    let entry := TrimSpace entry in
    if negb (nonempty entry) then Err (errExecutionInputKeyringConfig "empty keyring entry")
    else
      let '(version, keyPart, found) :=
        match cut_colon entry with
        | Some (v, k) => (TrimSpace v, TrimSpace k, true)
        | None => (TrimSpace entry, "", false)
        end in
      if negb found || negb (nonempty version) || negb (nonempty keyPart)
      then Err (errExecutionInputKeyringConfig "malformed keyring entry")
      else match ciphers !! version with
      | Some _ => Err (errExecutionInputKeyringConfig "duplicate key version")
      | None =>
        match decodeExecutionInputKeyringKey keyPart with
        | Err _ => Err (errExecutionInputKeyringConfig ("invalid key for version " +:+ version))
        | Ok key =>
          match newExecutionInputCipherFromKeyBytes key version with
          | Err _ => Err (errExecutionInputKeyringConfig ("invalid key for version " +:+ version))
          | Ok c => parse_entries entries (<[version := c]> ciphers)
          end
        end
      end
  end.

Definition parseExecutionInputKeyring (raw activeVersionRaw : string) : res executionInputKeyring :=
  let activeVersion := TrimSpace activeVersionRaw in
  if negb (nonempty activeVersion)
  then Err (errExecutionInputKeyringConfig "active key version is empty")
  else
    ciphers ← parse_entries (Split raw ",") ∅;
    if bool_decide (ciphers = ∅) then Err (errExecutionInputKeyringConfig "keyring is empty")
    else match ciphers !! activeVersion with
    | None => Err (errExecutionInputKeyringConfig "active key version not present in keyring")
    | Some _ => Ok (mkKeyring activeVersion ciphers)
    end.

Definition ensureLegacyKeyConsistent (ring : executionInputKeyring) (legacyKeyRaw legacyVersionRaw : string)
    : res () :=
  match newExecutionInputCipher legacyKeyRaw legacyVersionRaw with
  | Err _ => Err (errExecutionInputKeyringConfig "legacy single key invalid")
  | Ok legacy =>
    match kr_ciphers ring !! ci_keyVersion legacy with
    | None => Err (errExecutionInputKeyringConfig "legacy single key version not present in keyring")
    | Some existing =>
      if bool_decide (ci_keyFingerprint existing = ci_keyFingerprint legacy) then Ok tt
      else Err (errExecutionInputKeyringConfig "legacy single key disagrees with keyring entry")
    end
  end.

Definition buildExecutionInputKeyring (keyringRaw activeVersionRaw legacyKeyRaw legacyVersionRaw : string)
    : res executionInputKeyring :=
  let keyringRaw := TrimSpace keyringRaw in
  let legacyKeyRaw := TrimSpace legacyKeyRaw in
  if nonempty keyringRaw then
    ring ← parseExecutionInputKeyring keyringRaw activeVersionRaw;
    _ ← (if nonempty legacyKeyRaw then ensureLegacyKeyConsistent ring legacyKeyRaw legacyVersionRaw else Ok tt);
    Ok ring
  else if nonempty legacyKeyRaw then
    c ← newExecutionInputCipher legacyKeyRaw legacyVersionRaw;
    let active := TrimSpace activeVersionRaw in
    if nonempty active && negb (bool_decide (active = ci_keyVersion c))
    then Err (errExecutionInputKeyringConfig "active key version does not match configured single key version")
    else Ok (mkKeyring (ci_keyVersion c) {[ ci_keyVersion c := c ]})
  else Err ErrExecutionInputRefKeyMissing.

Definition newExecutionInputKeyringFromEnv : res executionInputKeyring :=
  buildExecutionInputKeyring (getenv "IGRIS_EXECUTION_INPUT_REF_KEYS")
    (getenv "IGRIS_EXECUTION_INPUT_REF_ACTIVE_KEY_VERSION")
    (getenv "IGRIS_EXECUTION_INPUT_REF_KEY") (getenv "IGRIS_EXECUTION_INPUT_REF_KEY_VERSION").

Definition keyring_active (k : executionInputKeyring) : res executionInputCipher :=
  match kr_ciphers k !! kr_activeKeyVersion k with
  | Some c => Ok c
  | None => Err ErrExecutionInputRefKeyMissing
  end.

Definition keyring_forVersion (k : executionInputKeyring) (keyVersion : string) : res executionInputCipher :=
  let keyVersion := TrimSpace keyVersion in
  if negb (nonempty keyVersion) then Err ErrExecutionInputRefKeyVersionMissing
  else match kr_ciphers k !! keyVersion with
  | Some c => Ok c
  | None => Err ErrExecutionInputRefKeyVersionMissing
  end.
End Keyring.

(** ** Encrypted references *)

Record ExecutionInputRef := mkInputRef {
  ir_ID : uuid;
  ir_TenantID : string;
  ir_TaskID : uuid;
  ir_Purpose : string;
  ir_Ciphertext : string;
  ir_Nonce : string;
  ir_AAD : string;
  ir_DigestSHA256 : string;
  ir_PlaintextBytes : Z;
  ir_ContentType : string;
  ir_RedactionPolicyVersion : string;
  ir_KeyVersion : string;
}.

Definition purposeForSensitiveInputKey (key : string) : string :=
  let k := normalizeInputKey key in
  if bool_decide (k ∈ ["body"; "raw_body"; "request_body"; "payload"; "content"; "file_content";
                       "file_contents"; "full_text"]) then "execution_payload"
  else if bool_decide (k ∈ ["path"; "file_path"; "absolute_path"; "full_absolute_path"; "private_path"])
  then "private_path"
  else if bool_decide (k = "url") then "signed_url"
  else if bool_decide (k ∈ ["headers"; "authorization"; "cookie"; "set_cookie"; "set-cookie"; "token";
                            "secret"; "password"; "api_key"; "apikey"; "private_key"; "credential"])
  then "sensitive_header"
  else "sensitive_input".

(** Where [protect] is: how many UUIDs and nonces were drawn, and the
    references built so far. *)
Record inputRefProtectionState := mkProtection {
  ps_draws : nat;
  ps_refs : list ExecutionInputRef;
}.

(** A step of [protect]: [None] is a panic. *)
Definition PM (A : Type) : Type := inputRefProtectionState → option (res A * inputRefProtectionState).
Definition pm_ret {A} (a : A) : PM A := λ st, Some (Ok a, st).
Definition pm_fail {A} (e : goerror) : PM A := λ st, Some (Err e, st).
Definition pm_bind {A B} (m : PM A) (f : A → PM B) : PM B := λ st,
  match m st with
  | None => None
  | Some (Err e, st) => Some (Err e, st)
  | Some (Ok a, st) => f a st
  end.
Definition pm_lift {A} (o : option A) : PM A := λ st, a ← o; Some (Ok a, st).

Fixpoint pm_map {A B} (f : A → PM B) (l : list A) : PM (list B) :=
  match l with
  | [] => pm_ret []
  | a :: l => pm_bind (f a) (λ b, pm_bind (pm_map f l) (λ bs, pm_ret (b :: bs)))
  end.

(** Run the members' computations in [range]'s order. *)
Fixpoint pm_range (keys : list string) (members : list (string * PM jv)) (out : gmap string jv)
    : PM (gmap string jv) :=
  match keys with
  | [] => pm_ret out
  | k :: keys =>
    match assoc k members with
    | Some m => pm_bind m (λ v, pm_range keys members (<[k := v]> out))
    | None => pm_range keys members out
    end
  end.

Section Protect.
Context `{Ext} `{MapRange} `{AEAD} `{UUIDSupply}.

Definition executionInputAssociatedData (tenantID : string) (taskID refID : uuid) (purpose keyVersion : string)
    : string :=
  obj_text [("tenant_id", str_text tenantID); ("task_id", str_text (uuid_String taskID));
            ("input_ref_id", str_text (uuid_String refID)); ("purpose", str_text purpose);
            ("key_version", str_text keyVersion)].

Definition encryptedInputRefMetadata (ref : ExecutionInputRef) (summary : string) : jv :=
  mk_obj [("input_redacted", JBool true); ("encrypted_input_ref", JBool true);
          ("encrypted_input_ref_id", JStr (uuid_String (ir_ID ref))); ("purpose", JStr (ir_Purpose ref));
          ("input_digest_sha256", JStr (ir_DigestSHA256 ref));
          ("input_bytes", JNum (itoa (ir_PlaintextBytes ref)));
          ("input_content_type", JStr (ir_ContentType ref)); ("safe_summary", JStr summary);
          ("sensitive_fields_redacted", mk_strings [ir_Purpose ref]);
          ("key_version", JStr (ir_KeyVersion ref));
          ("redaction_policy_version", JStr inputReferenceRedactionPolicyVersion)].

(** The reference an object is, if it is one. *)
Definition inputRefMetadata (l : list (string * jnode)) : option (uuid * string) :=
  if default false (as_bool (obj_lookup l "encrypted_input_ref")) then
    refID ← uuid_Parse (valueToInputString (default JNull (obj_lookup l "encrypted_input_ref_id")));
    let purpose := TrimSpace (valueToInputString (default JNull (obj_lookup l "purpose"))) in
    if nonempty purpose then Some (refID, purpose) else None
  else None.

Definition ensureInputRefMetadataScope (refID : uuid) (purpose : string) : res () :=
  guard_err (bool_decide (refID = uuid_Nil) || bool_decide (TrimSpace purpose = ""))
    (Errorf "invalid encrypted input ref metadata").

Section State.
Context (tenantID : string) (taskID : uuid) (cipher : executionInputCipher).

Definition buildRef (value : jv) (purpose : string) : PM ExecutionInputRef := λ st,
  let n := ps_draws st in
  let refID := uuid_supply n in
  let plaintext := valueToInputString value in
  let aad := executionInputAssociatedData tenantID taskID refID purpose (ci_keyVersion cipher) in
  match nonce_supply n with
  | None => Some (Err (Wrapf "generate input ref nonce: " (Errorf "unexpected EOF") ""),
                  mkProtection (S n) (ps_refs st))
  | Some nonce =>
    let ref := mkInputRef refID tenantID taskID purpose
                 (gcm_Seal (ci_key cipher) nonce plaintext aad) nonce aad (sha256InputBytes plaintext)
                 (Z.of_nat (slen plaintext)) "" inputReferenceRedactionPolicyVersion (ci_keyVersion cipher) in
    Some (Ok ref, mkProtection (S n) (ps_refs st ++ [ref]))
  end.

(** The value that stands for an encrypted one. *)
Definition encrypt_as (value : jv) (purpose summary : string) : PM jv :=
  pm_bind (buildRef value purpose) (λ ref, pm_ret (encryptedInputRefMetadata ref summary)).

Definition protect_header (key : string) (child : jv) (out : gmap string header_value)
    : PM (gmap string header_value) :=
  let normalized := normalizeInputKey key in
  if inputKeySensitive normalized then
    pm_bind (encrypt_as child "sensitive_header"
               "sensitive header redacted; encrypted input ref available for authorized recovery")
      (λ v, pm_lift (note_sensitive key (<[key := HValue v]> out)))
  else if allowed_header normalized then pm_ret (<[key := HValue child]> out)
  else
    pm_bind (encrypt_as child "sensitive_header"
               "non-allowlisted header redacted; encrypted input ref available for authorized recovery")
      (λ v, pm_ret (<[key := HValue v]> out)).

Fixpoint protect_headers_loop (keys : list string) (headers : list (string * jnode))
    (out : gmap string header_value) : PM (gmap string header_value) :=
  match keys with
  | [] => pm_ret out
  | k :: keys =>
    match assoc k headers with
    | Some child => pm_bind (protect_header k child.2 out) (protect_headers_loop keys headers)
    | None => protect_headers_loop keys headers out
    end
  end.

Definition protectHeaders (value : jv) : PM jv :=
  match value with
  | JObj headers =>
    pm_bind (protect_headers_loop (range_keys (headers.*1)) headers
               (headers_start inputReferenceRedactionPolicyVersion))
      (λ out, pm_ret (headers_value out))
  | _ => encrypt_as value "sensitive_header"
           "headers redacted; encrypted input ref available for authorized recovery"
  end.

(** One member of an object; [rec] protects its child. *)
Definition protect_member (key : string) (child : jv) (rec : string → PM jv) : PM jv :=
  let normalized := normalizeInputKey key in
  if inputKeySafe normalized then pm_ret child
  else if bool_decide (normalized = "headers") then protectHeaders child
  else if bool_decide (normalized = "url") && safeURLContainsSensitiveMaterial (valueToInputString child)
  then encrypt_as child "signed_url"
         "signed URL redacted; encrypted input ref available for authorized recovery"
  else if inputKeySensitive normalized
  then encrypt_as child (purposeForSensitiveInputKey normalized)
         "sensitive input redacted; encrypted input ref available for authorized recovery"
  else if bool_decide (normalized = "path") && looksLikePrivatePath (valueToInputString child)
  then encrypt_as child "private_path"
         "private path redacted; encrypted input ref available for authorized recovery"
  else rec normalized.

(** The members of the result, listed as the object's own. *)
Definition collect (l : list (string * jnode)) (out : gmap string jv) : jv :=
  JObj (omap (λ kv, (λ v, (kv.1, ("", v))) <$> out !! kv.1) l).

Fixpoint protect (value : jv) (parentKey : string) {struct value} : PM jv :=
  match value with
  | JObj l =>
    match inputRefMetadata l with
    | Some (refID, purpose) =>
      match ensureInputRefMetadataScope refID purpose with
      | Ok _ => pm_ret value
      | Err e => pm_fail e
      end
    | None =>
      pm_bind (pm_range (range_keys (l.*1))
                 (List.map (λ kv, (kv.1, protect_member kv.1 kv.2.2 (protect kv.2.2))) l) ∅)
        (λ out, pm_ret (collect l out))
    end
  | JArr l =>
    pm_bind (pm_map (λ n, protect n.2 parentKey) l) (λ vs, pm_ret (mk_arr vs))
  | JStr s =>
    if looksLikePrivatePath s then
      encrypt_as value "private_path"
        "private path redacted; encrypted input ref available for authorized recovery"
    else if (maxSafeInputStringLength <? slen s)%nat || inputKeySensitive parentKey then
      encrypt_as value (purposeForSensitiveInputKey parentKey)
        "sensitive string redacted; encrypted input ref available for authorized recovery"
    else pm_ret (JStr (redactInlineInputAuth s))
  | _ => pm_ret value
  end.
End State.

(** The stored definition and its references; [None] is a panic. *)
Definition protectTaskDefinitionInputs (raw tenantID : string) (taskID : uuid) (draws : nat)
    : option (res (string * list ExecutionInputRef) * nat) :=
  if negb (nonempty raw) then Some (Ok (raw, []), draws)
  else match unmarshal_any raw with
  | None => Some (Err (Errorf "json: cannot unmarshal"), draws)
  | Some value =>
    match (k ← newExecutionInputKeyringFromEnv; keyring_active k) with
    | Err e =>
      if containsSensitiveInput value then Some (Err e, draws)
      else d ← sanitizeTaskDefinitionForPersistence raw; Some (Ok (d, []), draws)
    | Ok cipher =>
      '(r, st) ← protect tenantID taskID cipher value "" (mkProtection draws []);
      Some (match r with Ok v => Ok (any_text v, ps_refs st) | Err e => Err e end, ps_draws st)
    end
  end.

Section Rehydrate.
Context {W : Type} (resolver : uuid → string → ST W (res string)).

Fixpoint st_range (keys : list string) (members : list (string * ST W (res jv))) (out : gmap string jv)
    : ST W (res (gmap string jv)) :=
  match keys with
  | [] => mret (Ok out)
  | k :: keys =>
    match assoc k members with
    | Some m => v ←? m; st_range keys members (<[k := v]> out)
    | None => st_range keys members out
    end
  end.

Fixpoint st_map {A B} (f : A → ST W (res B)) (l : list A) : ST W (res (list B)) :=
  match l with
  | [] => mret (Ok [])
  | a :: l => b ←? f a; bs ←? st_map f l; mret (Ok (b :: bs))
  end.

Fixpoint rehydrateInputRefValue (value : jv) : ST W (res jv) :=
  match value with
  | JObj l =>
    match inputRefMetadata l with
    | Some (refID, purpose) => plaintext ←? resolver refID purpose; mret (Ok (JStr plaintext))
    | None =>
      out ←? st_range (range_keys (l.*1)) (List.map (λ kv, (kv.1, rehydrateInputRefValue kv.2.2)) l) ∅;
      mret (Ok (collect l out))
    end
  | JArr l => vs ←? st_map (λ n, rehydrateInputRefValue n.2) l; mret (Ok (mk_arr vs))
  | _ => mret (Ok value)
  end.

Definition rehydrateTaskDefinitionInputRefs (raw : string) : ST W (res string) :=
  if negb (nonempty raw) then mret (Ok raw)
  else match unmarshal_any raw with
  | None => mret (Err (Errorf "json: cannot unmarshal"))
  | Some value => v ←? rehydrateInputRefValue value; mret (Ok (any_text v))
  end.
End Rehydrate.
End Protect.
