(* ===== verification/InputRefsFacts.v ===== *)
(** * Theorems about sensitive inputs

    - what [protect] encrypts, [rehydrateInputRefValue] restores: the value a
      recovered runtime receives agrees with the submitted one, member by
      member, up to the documented redactions ([restores]);
    - a keyring that was built holds what it says and never falls back to
      another version;
    - two defects of the header and metadata-key handling. *)

From S2P Require Import Prelude GoStrings Json JsonFacts Ext WalCodec Checkpoint Types Capability.
From S2P Require Import Governance.
From S2P Require Import Store InputRefs.
Open Scope Z_scope.

(** ** Values *)

(** Looking up a member of a list with distinct keys. *)
Section Assoc.
Context {A : Type}.
Implicit Types l : list (string * A).

Lemma assoc_Some_elem k l a : assoc k l = Some a → (k, a) ∈ l.
Proof.
  induction l as [|[k' a'] l IH]; cbn [assoc]; [done|].
  case_bool_decide as Hk; [intros [= <-]; subst; left|intros ?; right; auto].
Qed.

Lemma assoc_elem k l a : NoDup (l.*1) → (k, a) ∈ l → assoc k l = Some a.
Proof.
  induction l as [|[k' a'] l IH]; cbn [assoc fmap list_fmap]; [set_solver|].
  intros [Hk Hn]%NoDup_cons Hin. apply elem_of_cons in Hin as [[= <- <-]|Hin].
  - by rewrite bool_decide_true.
  - rewrite bool_decide_false; [by apply IH|]. cbn. intros ->. apply Hk.
    by apply (list_elem_of_fmap_2 fst _ _ Hin).
Qed.

Lemma assoc_None k l : assoc k l = None ↔ k ∉ l.*1.
Proof.
  induction l as [|[k' a'] l IH]; cbn [assoc fmap list_fmap]; [set_solver|].
  case_bool_decide; subst; [split; [done|set_solver]|]. rewrite IH, not_elem_of_cons. tauto.
Qed.

Lemma assoc_map {B} (f : string * A → B) k l :
  assoc k (List.map (λ kv, (kv.1, f kv)) l) = (λ a, f (k, a)) <$> assoc k l.
Proof.
  induction l as [|[k' a'] l IH]; cbn [assoc List.map]; [done|]. cbn [fst].
  case_bool_decide; [by subst|done].
Qed.
End Assoc.

Lemma obj_lookup_assoc (l : list (string * jnode)) k :
  NoDup (l.*1) → obj_lookup l k = snd <$> assoc k l.
Proof.
  intros Hn. unfold obj_lookup. destruct (list_find _ (reverse l)) as [[i [k' n]]|] eqn:Hf.
  - apply list_find_Some in Hf as (Hi & Hk & _). cbn in Hk. subst k'.
    apply list_elem_of_lookup_2 in Hi. rewrite elem_of_reverse in Hi. by rewrite (assoc_elem _ _ _ Hn Hi).
  - apply list_find_None in Hf. destruct (assoc k l) as [n|] eqn:Ha; [|done].
    apply assoc_Some_elem in Ha. rewrite Forall_forall in Hf.
    destruct (Hf (k, n)); [by rewrite elem_of_reverse|done].
Qed.

(** ** Freshly decoded values that hold no reference yet *)

Section Facts.
Context `{Ext} `{MapRange} `{AEAD} `{UUIDSupply}.

Inductive fresh : jv → Prop :=
| fresh_null : fresh JNull
| fresh_bool b : fresh (JBool b)
| fresh_num l : fresh (JNum l)
| fresh_str s : fresh (JStr s)
| fresh_arr l : Forall (λ n : jnode, n.1 = "" ∧ fresh n.2) l → fresh (JArr l)
| fresh_obj l : NoDup (l.*1) → inputRefMetadata l = None →
    Forall (λ kv : string * jnode, kv.2.1 = "" ∧ fresh kv.2.2) l → fresh (JObj l).

(** What a recovered runtime receives for a submitted value.  Scalars and the
    children of metadata keys come back as they were; encrypted values come
    back as their text; other strings come back with inline credentials
    redacted; every header comes back, an encrypted one as its text. *)
Definition restored_header (key : string) (child r : jv) : Prop :=
  if negb (inputKeySensitive (normalizeInputKey key)) && allowed_header (normalizeInputKey key)
  then r = child else r = JStr (valueToInputString child).

Definition reserved_headers : list string :=
  ["input_redacted"; "sensitive_fields_redacted"; "redaction_policy_version"].

Definition restored_headers (child r : jv) : Prop :=
  match child with
  | JObj hs => ∃ r', r = JObj r' ∧
      ∀ k n, (k, n) ∈ hs → k ∉ reserved_headers →
        ∃ n', (k, n') ∈ r' ∧ restored_header k n.2 n'.2
  | _ => r = JStr (valueToInputString child)
  end.

Definition restored_member (key : string) (child : jv) (rec : string → jv → Prop) (r : jv) : Prop :=
  let normalized := normalizeInputKey key in
  if inputKeySafe normalized then r = child
  else if bool_decide (normalized = "headers") then restored_headers child r
  else if bool_decide (normalized = "url") && safeURLContainsSensitiveMaterial (valueToInputString child)
  then r = JStr (valueToInputString child)
  else if inputKeySensitive normalized then r = JStr (valueToInputString child)
  else if bool_decide (normalized = "path") && looksLikePrivatePath (valueToInputString child)
  then r = JStr (valueToInputString child)
  else rec normalized r.

Fixpoint restores (v : jv) (parentKey : string) (r : jv) {struct v} : Prop :=
  match v with
  | JObj l =>
    ∃ rs, r = mk_obj rs ∧ rs.*1 = l.*1 ∧
    (fix all (l : list (string * jnode)) (rs : list (string * jv)) : Prop :=
       match l, rs with
       | kv :: l, r :: rs => restored_member kv.1 kv.2.2 (restores kv.2.2) r.2 ∧ all l rs
       | _, _ => True
       end) l rs
  | JArr l =>
    ∃ rs, r = mk_arr rs ∧ length rs = length l ∧
    (fix all (l : list jnode) (rs : list jv) : Prop :=
       match l, rs with
       | n :: l, r :: rs => restores n.2 parentKey r ∧ all l rs
       | _, _ => True
       end) l rs
  | JStr s =>
    r = JStr (if looksLikePrivatePath s || (maxSafeInputStringLength <? slen s)%nat ||
                 inputKeySensitive parentKey then s else redactInlineInputAuth s)
  | _ => r = v
  end.

Definition restores_members (l : list (string * jnode)) (rs : list (string * jv)) : Prop :=
  Forall2 (λ (kv : string * jnode) r, restored_member kv.1 kv.2.2 (restores kv.2.2) r.2 ∧ r.1 = kv.1) l rs.

Lemma restores_obj l pk rs :
  restores_members l rs → restores (JObj l) pk (mk_obj rs).
Proof.
  intros HF. exists rs. split_and!; [done| |].
  - induction HF as [|kv r l rs [_ Hk] _ IH]; [done|]. cbn. by rewrite Hk, IH.
  - induction HF as [|kv r l rs [Hm _] _ IH]; [done|]. by split.
Qed.

Lemma restores_arr l pk rs :
  Forall2 (λ (n : jnode) r, restores n.2 pk r) l rs → restores (JArr l) pk (mk_arr rs).
Proof.
  intros HF. exists rs. split_and!; [done| |].
  - symmetry. by eapply Forall2_length.
  - induction HF; [done|]. by split.
Qed.

(** ** The computations of [protect] *)

Section RoundTrip.
Context (tenantID : string) (taskID : uuid) (cipher : executionInputCipher).
Context {W : Type} `{!Inhabited W} (resolver : uuid → string → ST W (res string)).
Context `{!ExtLaws} `{!MapRangeLaws} `{!AEADLaws} (Hids : ∀ n, (uuid_supply n < 2 ^ 128)%N).

(** A computation only adds references. *)
Definition grows {A} (m : PM A) : Prop :=
  ∀ st r st', m st = Some (r, st') → ps_refs st `prefix_of` ps_refs st'.

(** Opening a reference with the cipher it was sealed with. *)
Definition opened (ref : ExecutionInputRef) : res string :=
  match gcm_Open (ci_key cipher) (ir_Nonce ref) (ir_Ciphertext ref) (ir_AAD ref) with
  | Some p => Ok p
  | None => Err ErrExecutionInputRefDecrypt
  end.

Definition known (refs : list ExecutionInputRef) : Prop :=
  ∀ ref, ref ∈ refs → ∀ w, resolver (ir_ID ref) (ir_Purpose ref) w = (opened ref, w).

(** Every successful run, once its references are known, satisfies [Q]. *)
Definition good {A} (m : PM A) (Q : A → Prop) : Prop :=
  grows m ∧ ∀ st a st', m st = Some (Ok a, st') → known (ps_refs st') → Q a.

Lemma known_prefix refs refs' : refs `prefix_of` refs' → known refs' → known refs.
Proof. intros [k ->] Hk ref Hin. apply Hk. set_solver. Qed.

Lemma good_ret {A} (a : A) (Q : A → Prop) : Q a → good (pm_ret a) Q.
Proof. intros HQ. split; [by intros st r st' [= _ <-]|by intros st a' st' [= <- _]]. Qed.

Lemma good_fail {A} e (Q : A → Prop) : good (pm_fail e) Q.
Proof. split; [by intros st r st' [= _ <-]|done]. Qed.

Lemma good_lift {A} (o : option A) (Q : A → Prop) : (∀ a, o = Some a → Q a) → good (pm_lift o) Q.
Proof.
  intros HQ. unfold pm_lift. destruct o as [a|]; cbn.
  - split; [by intros st r st' [= _ <-]|intros st a' st' [= <- _] _; auto].
  - by split.
Qed.

Lemma good_bind {A B} (m : PM A) (k : A → PM B) R Q :
  good m R → (∀ a, grows (k a)) → (∀ a, R a → good (k a) Q) → good (pm_bind m k) Q.
Proof.
  intros [Hg Hm] Hgk Hk. split.
  - intros st r st'. unfold pm_bind. destruct (m st) as [[[a|e] st1]|] eqn:Hm1; [| |done].
    + intros Hk1. transitivity (ps_refs st1); [by eapply Hg|by eapply Hgk].
    + intros [= <- <-]. by eapply Hg.
  - intros st b st'. unfold pm_bind. destruct (m st) as [[[a|e] st1]|] eqn:Hm1; [|done|done].
    intros Hk1 Hkn. apply (Hk a) with st1 st'; [|done|done].
    apply (Hm st a st1 Hm1). eapply known_prefix; [by eapply Hgk|done].
Qed.

Lemma good_conseq {A} (m : PM A) (Q Q' : A → Prop) : good m Q' → (∀ a, Q' a → Q a) → good m Q.
Proof. intros [Hg Hm] HQ. split; [done|]. eauto. Qed.

Lemma grows_bind {A B} (m : PM A) (k : A → PM B) : grows m → (∀ a, grows (k a)) → grows (pm_bind m k).
Proof.
  intros Hg Hk st r st'. unfold pm_bind. destruct (m st) as [[[a|e] st1]|] eqn:Hm1; [| |done].
  - intros Hk1. transitivity (ps_refs st1); [by eapply Hg|by eapply Hk].
  - intros [= <- <-]. by eapply Hg.
Qed.

Lemma grows_ret {A} (a : A) : grows (pm_ret a).
Proof. by intros st r st' [= _ <-]. Qed.
Lemma grows_fail {A} e : grows (pm_fail e : PM A).
Proof. by intros st r st' [= _ <-]. Qed.
Lemma grows_lift {A} (o : option A) : grows (pm_lift o).
Proof. destruct o; [|done]. by intros st r st' [= _ <-]. Qed.
Lemma grows_map {A B} (f : A → PM B) l : Forall (λ a, grows (f a)) l → grows (pm_map f l).
Proof.
  induction 1 as [|a l Ha _ IH]; cbn [pm_map]; [apply grows_ret|].
  apply grows_bind; [done|]. intros b. apply grows_bind; [done|]. intros bs. apply grows_ret.
Qed.
Lemma grows_range keys members out :
  (∀ k m, assoc k members = Some m → grows m) → grows (pm_range keys members out).
Proof.
  intros Hm. revert out. induction keys as [|k keys IH]; intros out; cbn [pm_range]; [apply grows_ret|].
  destruct (assoc k members) as [m|] eqn:Ha; [|apply IH]. apply grows_bind; [by eapply Hm|]. intros v. apply IH.
Qed.
Lemma grows_encrypt value p s : grows (encrypt_as tenantID taskID cipher value p s).
Proof.
  apply grows_bind; [|intros ref; apply grows_ret]. unfold buildRef. intros st r st'.
  destruct (nonce_supply (ps_draws st)); intros [= <- <-]; cbn; [by apply prefix_app_r|done].
Qed.
Lemma grows_header k child out : grows (protect_header tenantID taskID cipher k child out).
Proof.
  unfold protect_header. repeat case_match;
    first [apply grows_ret | apply grows_bind; [apply grows_encrypt|]; intros v; apply grows_lift || apply grows_ret].
Qed.
Lemma grows_headers_loop keys headers out : grows (protect_headers_loop tenantID taskID cipher keys headers out).
Proof.
  revert out. induction keys as [|k keys IH]; intros out; cbn [protect_headers_loop]; [apply grows_ret|].
  destruct (assoc k headers); [|apply IH]. apply grows_bind; [apply grows_header|]. intros o. apply IH.
Qed.
Lemma grows_protectHeaders v : grows (protectHeaders tenantID taskID cipher v).
Proof.
  unfold protectHeaders. destruct v; try apply grows_encrypt.
  apply grows_bind; [apply grows_headers_loop|]. intros o. apply grows_ret.
Qed.
Lemma grows_member k child rec :
  (∀ n, grows (rec n)) → grows (protect_member tenantID taskID cipher k child rec).
Proof.
  intros Hr. unfold protect_member.
  repeat case_match; first [apply grows_ret | apply grows_encrypt | apply grows_protectHeaders | apply Hr].
Qed.
Lemma grows_protect v : ∀ pk, grows (protect tenantID taskID cipher v pk).
Proof.
  induction v as [| | | |l IH|l IH] using jv_induction; intros pk; cbn [protect];
    repeat case_match; try first [apply grows_ret | apply grows_encrypt | apply grows_fail].
  - apply grows_bind; [|intros vs; apply grows_ret]. apply grows_map. eapply Forall_impl; [exact IH|].
    intros n Hn. apply Hn.
  - apply grows_bind; [|intros o; apply grows_ret]. apply grows_range. intros k m.
    rewrite (assoc_map (λ kv, protect_member tenantID taskID cipher kv.1 kv.2.2
                              (protect tenantID taskID cipher kv.2.2))).
    destruct (assoc k l) as [n|] eqn:Ha; [|done]. intros [= <-]. apply grows_member.
    apply assoc_Some_elem in Ha. rewrite Forall_forall in IH. exact (IH _ Ha).
Qed.

(** Rehydrating [v'] gives [r], whatever the world. *)
Definition yields (v' r : jv) : Prop := ∀ w : W, rehydrateInputRefValue resolver v' w = (Ok r, w).

Definition good_purpose (p : string) : Prop := TrimSpace p = p ∧ nonempty p = true.

Definition metadata_members (ref : ExecutionInputRef) (summary : string) : list (string * jnode) :=
  match encryptedInputRefMetadata ref summary with JObj l => l | _ => [] end.

Lemma metadata_ref ref summary :
  good_purpose (ir_Purpose ref) → (ir_ID ref < 2 ^ 128)%N →
  inputRefMetadata (metadata_members ref summary) = Some (ir_ID ref, ir_Purpose ref).
Proof.
  intros [Ht Hp] Hid. unfold inputRefMetadata.
  assert (NoDup ((metadata_members ref summary).*1)) as Hn.
  { change ((metadata_members ref summary).*1) with
      ["input_redacted"; "encrypted_input_ref"; "encrypted_input_ref_id"; "purpose"; "input_digest_sha256";
       "input_bytes"; "input_content_type"; "safe_summary"; "sensitive_fields_redacted"; "key_version";
       "redaction_policy_version"]. apply (bool_decide_unpack _). vm_compute. exact I. }
  rewrite !(obj_lookup_assoc _ _ Hn).
  change (assoc "encrypted_input_ref" (metadata_members ref summary)) with (Some ("", JBool true)).
  change (assoc "encrypted_input_ref_id" (metadata_members ref summary))
    with (Some ("", JStr (uuid_String (ir_ID ref)))).
  change (assoc "purpose" (metadata_members ref summary)) with (Some ("", JStr (ir_Purpose ref))).
  cbn [fmap option_fmap option_map as_bool default snd from_option id valueToInputString].
  rewrite uuid_Parse_String by done. cbn [mbind option_bind]. by rewrite Ht, Hp.
Qed.

Lemma encrypt_as_good value p s :
  good_purpose p →
  good (encrypt_as tenantID taskID cipher value p s)
    (λ v', yields v' (JStr (valueToInputString value)) ∧ ∃ l, v' = JObj l).
Proof.
  intros Hp. unfold encrypt_as, buildRef, pm_bind, pm_ret. split; intros st a st'; cbv beta zeta.
  - destruct (nonce_supply (ps_draws st)); intros [= <- <-]; cbn; [by apply prefix_app_r|done].
  - destruct (nonce_supply (ps_draws st)) as [nonce|]; [|done].
    set (ref := mkInputRef _ _ _ _ _ _ _ _ _ _ _ _). intros [= <- <-] Hk. split; [|by eexists].
    intros w. change (encryptedInputRefMetadata ref s) with (JObj (metadata_members ref s)).
    cbn [rehydrateInputRefValue]. rewrite metadata_ref by (done || apply Hids).
    specialize (Hk ref). cbn [ps_refs] in Hk. unfold bind_err, mbind, ST_bind.
    rewrite Hk by set_solver. unfold opened. cbn [ir_Nonce ir_Ciphertext ir_AAD ref].
    by rewrite gcm_open_seal.
Qed.

(** [range] over members that each satisfy their own postcondition. *)
Lemma pm_range_good keys members (R : string → jv → Prop) :
  NoDup keys → (∀ k m, assoc k members = Some m → good m (R k)) →
  ∀ out, good (pm_range keys members out)
    (λ out', (∀ k, k ∈ keys → is_Some (assoc k members) → ∃ v, out' !! k = Some v ∧ R k v) ∧
             (∀ k, k ∉ keys → out' !! k = out !! k)).
Proof.
  intros Hnd Hm. induction keys as [|k keys IH]; intros out; cbn [pm_range].
  - apply good_ret. split; [set_solver|done].
  - apply NoDup_cons in Hnd as [Hk Hnd]. destruct (assoc k members) as [m|] eqn:Ha.
    + eapply good_bind; [by apply Hm|intros v; apply (IH Hnd)|]. cbn beta. intros v HR.
      eapply good_conseq; [apply (IH Hnd)|]. intros out' [Hin Hout]. split.
      * intros k' [->|Hk']%elem_of_cons Hs; [|auto].
        rewrite Hout by done. rewrite lookup_insert_eq. eauto.
      * intros k' [? ?]%not_elem_of_cons. rewrite Hout by done. by rewrite lookup_insert_ne.
    + eapply good_conseq; [apply (IH Hnd)|]. intros out' [Hin Hout]. split.
      * intros k' [->|Hk']%elem_of_cons Hs; [|auto]. rewrite Ha in Hs. by destruct Hs.
      * intros k' [? ?]%not_elem_of_cons. auto.
Qed.

Lemma pm_map_good {A B} (f : A → PM B) (R : A → B → Prop) l :
  Forall (λ a, good (f a) (R a)) l → good (pm_map f l) (Forall2 R l).
Proof.
  induction 1 as [|a l Ha _ IH]; cbn [pm_map]; [by apply good_ret|].
  eapply good_bind; [exact Ha| |].
  - intros b. apply grows_bind; [apply IH|]. intros bs st r st' [= <- <-]. done.
  - intros b Hb. eapply good_bind; [exact IH|by intros bs st r st' [= <- <-]|].
    intros bs Hbs. apply good_ret. by constructor.
Qed.

Lemma collect_spec (l : list (string * jnode)) out (R : string * jnode → jv → Prop) :
  (∀ kv, kv ∈ l → ∃ v, out !! kv.1 = Some v ∧ R kv v) →
  ∃ vs, collect l out = mk_obj vs ∧ Forall2 (λ kv r, R kv r.2 ∧ r.1 = kv.1) l vs.
Proof.
  unfold collect, mk_obj. induction l as [|kv l IH]; intros Hl; [by exists []|].
  destruct IH as (vs & [= Hvs] & HF); [set_solver|].
  destruct (Hl kv) as (v & Hv & HR); [set_solver|]. exists ((kv.1, v) :: vs).
  cbn [omap list_omap]. rewrite Hv. cbn [fmap option_fmap option_map list_fmap fst snd].
  split; [|by constructor]. do 2 f_equal. exact Hvs.
Qed.

Lemma Forall2_keys {A B} (l : list (string * A)) (rs : list (string * B)) (R : string * A → string * B → Prop) :
  Forall2 (λ kv r, R kv r ∧ r.1 = kv.1) l rs → rs.*1 = l.*1.
Proof. induction 1 as [|kv r l rs [_ Hk] _ IH]; [done|]. cbn. by rewrite Hk, IH. Qed.

(** Rehydration runs the members in [range]'s order and changes no world here. *)
Lemma st_range_pure (keys : list string) (members : list (string * ST W (res jv))) :
  (∀ k m, assoc k members = Some m → ∃ r, ∀ w, m w = (Ok r, w)) →
  ∀ out, ∃ out', (∀ w, st_range keys members out w = (Ok out', w)) ∧
    ∀ k, (k ∈ keys → ∀ m, assoc k members = Some m → ∃ r, out' !! k = Some r ∧ ∀ w, m w = (Ok r, w)) ∧
         (k ∉ keys → out' !! k = out !! k).
Proof.
  intros Hm. induction keys as [|k keys IH]; intros out; cbn [st_range].
  - exists out. split; [done|]. intros k. split; [set_solver|done].
  - destruct (assoc k members) as [m|] eqn:Ha.
    + destruct (Hm k m Ha) as [r Hr]. destruct (IH (<[k := r]> out)) as (out' & Hrun & Hout).
      exists out'. split; [intros w; unfold bind_err, mbind, ST_bind; by rewrite Hr|].
      intros k'. destruct (Hout k') as [Hin Hnin]. split.
      * intros Hk' m' Hm'. destruct (decide (k' ∈ keys)); [by apply Hin|].
        assert (k' = k) as -> by set_solver. rewrite Hnin, lookup_insert_eq by done.
        exists r. split; [done|]. congruence.
      * intros [? ?]%not_elem_of_cons. rewrite Hnin by done. by rewrite lookup_insert_ne.
    + destruct (IH out) as (out' & Hrun & Hout). exists out'. split; [done|].
      intros k'. destruct (Hout k') as [Hin Hnin]. split.
      * intros [->|Hk']%elem_of_cons m' Hm'; [congruence|]. by apply Hin.
      * intros [? ?]%not_elem_of_cons. auto.
Qed.

Lemma yields_fun v r r' : yields v r → yields v r' → r = r'.
Proof. intros Hr Hr'. specialize (Hr inhabitant). specialize (Hr' inhabitant). congruence. Qed.

(** An object that is no reference is rehydrated member by member. *)
Lemma yields_obj (vs rs : list (string * jv)) :
  NoDup (vs.*1) → inputRefMetadata ((λ kv, (kv.1, ("", kv.2))) <$> vs) = None →
  Forall2 (λ a b : string * jv, yields a.2 b.2 ∧ b.1 = a.1) vs rs → yields (mk_obj vs) (mk_obj rs).
Proof.
  intros Hnd Hmeta HF w. unfold mk_obj. cbn [rehydrateInputRefValue]. rewrite Hmeta.
  set (l := (λ kv : string * jv, (kv.1, ("", kv.2))) <$> vs).
  set (members := List.map (λ kv, (kv.1, rehydrateInputRefValue resolver kv.2.2)) l).
  assert (Hl : l.*1 = vs.*1).
  { unfold l. clear. induction vs as [|kv vs IH]; [done|]. cbn in *. by rewrite IH. }
  assert (Hmem : ∀ k m, assoc k members = Some m → ∃ v, (k, v) ∈ vs ∧ m = rehydrateInputRefValue resolver v).
  { intros k m. unfold members. rewrite (assoc_map (λ kv, rehydrateInputRefValue resolver kv.2.2)).
    destruct (assoc k l) as [n|] eqn:Ha; [|done]. intros [= <-]. exists n.2. split; [|done].
    apply assoc_Some_elem in Ha. unfold l in Ha. apply list_elem_of_fmap in Ha as ([k' v] & [= -> ->] & Hin). done. }
  destruct (st_range_pure (range_keys (l.*1)) members) with (out := (∅ : gmap string jv))
    as (out' & Hrun & Hout).
  { intros k m (v & Hin & ->)%Hmem. apply list_elem_of_lookup in Hin as [i Hi].
    destruct (Forall2_lookup_l _ _ _ _ _ HF Hi) as (r & _ & Hy & _). exists r.2. exact Hy. }
  unfold bind_err at 1, mbind, ST_bind. rewrite Hrun.
  cbn [mret ST_ret]. do 2 f_equal. unfold collect. f_equal.
  assert (Hall : ∀ i a b, vs !! i = Some a → rs !! i = Some b → out' !! a.1 = Some b.2 ∧ b.1 = a.1).
  { intros i [k v] b Hi Hb. destruct (Forall2_lookup_lr _ _ _ _ _ _ HF Hi Hb) as [Hy Hk]. split; [|done].
    destruct (Hout k) as [Hin _]. destruct (Hin) with (m := rehydrateInputRefValue resolver v) as (r & Hr & Hr').
    - rewrite range_keys_perm, Hl. apply list_elem_of_fmap. exists (k, v). split; [done|]. by eapply list_elem_of_lookup_2.
    - unfold members. rewrite (assoc_map (λ kv, rehydrateInputRefValue resolver kv.2.2)).
      rewrite (assoc_elem k l ("", v)); [done|by rewrite Hl|]. unfold l. apply list_elem_of_fmap.
      exists (k, v). split; [done|]. by eapply list_elem_of_lookup_2.
    - cbn. rewrite Hr. f_equal. specialize (Hr' w). specialize (Hy w). cbn in Hy. congruence. }
  clear Hrun Hmem Hout Hmeta Hl members Hnd. unfold l. clear l. revert rs HF Hall.
  induction vs as [|a vs IH]; intros rs HF Hall.
  - by apply Forall2_nil_inv_l in HF as ->.
  - apply Forall2_cons_inv_l in HF as (b & rs' & _ & HF & ->).
    destruct (Hall 0%nat a b) as [Ho Hk]; [done..|].
    cbn [fmap list_fmap omap list_omap fst snd]. rewrite Ho. cbn [fmap option_fmap option_map].
    f_equal; [by rewrite Hk|]. apply IH; [done|]. intros i x y Hx Hy. by apply (Hall (S i)).
Qed.

Lemma st_map_pure {A} (f : A → ST W (res jv)) (l : list A) rs :
  Forall2 (λ a r, ∀ w, f a w = (Ok r, w)) l rs → ∀ w, st_map f l w = (Ok rs, w).
Proof.
  induction 1 as [|a r l rs Ha _ IH]; intros w; [done|].
  cbn [st_map]. unfold bind_err, mbind, ST_bind. by rewrite Ha, IH.
Qed.

Lemma yields_arr (l : list jnode) rs :
  Forall2 (λ n r, yields n.2 r) l rs → yields (JArr l) (mk_arr rs).
Proof.
  intros HF w. cbn [rehydrateInputRefValue]. unfold bind_err, mbind, ST_bind.
  by rewrite (st_map_pure (λ n, rehydrateInputRefValue resolver n.2) l rs HF w).
Qed.

Definition plain (l : list (string * jnode)) : list (string * jv) := (λ kv, (kv.1, kv.2.2)) <$> l.

Lemma plain_obj l : Forall (λ kv : string * jnode, kv.2.1 = "") l →
  l = (λ kv, (kv.1, ("", kv.2))) <$> plain l.
Proof.
  unfold plain. induction 1 as [|[k [raw v]] l Hr _ IH]; [done|]. cbn in *. subst raw. by f_equal.
Qed.

Lemma plain_keys l : (plain l).*1 = l.*1.
Proof. unfold plain. induction l as [|kv l IH]; [done|]. cbn in *. by rewrite IH. Qed.

(** A value without references is rehydrated to itself. *)
Lemma fresh_yields v : fresh v → yields v v.
Proof.
  induction v as [| | | |l IH|l IH] using jv_induction; intros Hf; try (by intros w).
  - inversion_clear Hf as [| | | |l' HF|]. rewrite Forall_forall in HF, IH.
    assert (JArr l = mk_arr (l.*2)) as Heq.
    { unfold mk_arr. f_equal. clear IH. induction l as [|[raw v] l IHl]; [done|].
      cbn. destruct (HF (raw, v)) as [Hr _]; [set_solver|]. cbn in Hr. subst raw. f_equal. apply IHl. set_solver. }
    rewrite Heq at 2. apply yields_arr. apply Forall2_fmap_r, Forall_Forall2_diag, Forall_forall.
    intros n Hn. apply IH; [done|]. by apply HF.
  - inversion_clear Hf as [| | | | |l' Hnd Hmeta HF].
    assert (Hp : l = (λ kv, (kv.1, ("", kv.2))) <$> plain l).
    { apply plain_obj. eapply Forall_impl; [exact HF|]. by intros kv [? _]. }
    change (JObj l) with (JObj l). rewrite Hp at 1 2. apply (yields_obj (plain l) (plain l)).
    + by rewrite plain_keys.
    + by rewrite <-Hp.
    + apply Forall_Forall2_diag. unfold plain. rewrite Forall_fmap. rewrite Forall_forall in *.
      intros kv Hkv. cbn. split; [|done]. apply IH; [done|]. by apply HF.
Qed.

(** ** Headers *)

(** What the header map holds at every step. *)
Definition headers_inv (out : gmap string header_value) : Prop :=
  (∀ k h, out !! k = Some h → ∃ r, yields (header_jv h) r) ∧
  (∀ h, out !! "encrypted_input_ref" = Some h → as_bool (Some (header_jv h)) = None).

Lemma strings_yields l : ∃ r, yields (mk_strings l) r.
Proof.
  exists (mk_strings l). apply fresh_yields. constructor. apply Forall_fmap, Forall_fmap, Forall_true.
  intros s. split; [done|constructor].
Qed.

Lemma headers_inv_insert out k v r :
  headers_inv out → yields v r → (k = "encrypted_input_ref" → as_bool (Some v) = None) →
  headers_inv (<[k := HValue v]> out).
Proof.
  intros [Hy He] Hv Hk. split.
  - intros k' h. rewrite lookup_insert_Some. intros [[-> <-]|[_ ?]]; eauto.
  - intros h. rewrite lookup_insert_Some. intros [[-> <-]|[_ ?]]; eauto.
Qed.

Lemma note_sensitive_spec key out out' :
  note_sensitive key out = Some out' →
  ∃ l, out' = <["sensitive_fields_redacted" := HStrings l]> out.
Proof. unfold note_sensitive. repeat case_match; try done. intros [= <-]. by eexists. Qed.

Lemma headers_inv_note key out out' :
  note_sensitive key out = Some out' → headers_inv out → headers_inv out'.
Proof.
  intros (l & ->)%note_sensitive_spec [Hy He]. split.
  - intros k h. rewrite lookup_insert_Some. intros [[_ <-]|[_ ?]]; [apply strings_yields|eauto].
  - intros h. rewrite lookup_insert_ne by done. apply He.
Qed.

(** A header's value in the map and what it is rehydrated to. *)
Definition header_stored (k : string) (child : jv) (out : gmap string header_value) : Prop :=
  ∃ v r, out !! k = Some (HValue v) ∧ yields v r ∧ restored_header k child r.

Lemma reserved_ne k : k ∉ reserved_headers → "sensitive_fields_redacted" ≠ k.
Proof. intros Hk <-. apply Hk. right. left. Qed.

Lemma good_purpose_header : good_purpose "sensitive_header".
Proof. done. Qed.

Lemma protect_header_good k child out :
  fresh child → headers_inv out →
  good (protect_header tenantID taskID cipher k child out)
    (λ out', headers_inv out' ∧ (k ∉ reserved_headers → header_stored k child out') ∧
       ∀ k', k' ≠ k → k' ∉ reserved_headers → out' !! k' = out !! k').
Proof.
  intros Hf Hinv. unfold protect_header.
  destruct (inputKeySensitive (normalizeInputKey k)) eqn:Hs.
  - eapply good_bind; [by apply encrypt_as_good| |].
    { intros v. apply grows_lift. }
    intros v [Hy [l ->]]. apply good_lift. intros out' Hn.
    assert (headers_inv (<[k := HValue (JObj l)]> out)) as Hi by (eapply headers_inv_insert; eauto).
    split; [by eapply headers_inv_note|].
    apply note_sensitive_spec in Hn as [l' ->]. split.
    + intros Hk. exists (JObj l), (JStr (valueToInputString child)).
      rewrite lookup_insert_ne by (by apply reserved_ne). rewrite lookup_insert_eq. unfold restored_header. by rewrite Hs.
    + intros k' Hk' Hr. by rewrite !lookup_insert_ne by (done || by apply reserved_ne).
  - destruct (allowed_header (normalizeInputKey k)) eqn:Ha.
    + apply good_ret. split_and!.
      * eapply headers_inv_insert; [done|by apply fresh_yields|]. intros ->. exfalso. clear -Ha. vm_compute in Ha. discriminate Ha.
      * intros _. exists child, child. rewrite lookup_insert_eq. split_and!; [done|by apply fresh_yields|].
        unfold restored_header. by rewrite Hs, Ha.
      * intros k' Hk' _. by rewrite lookup_insert_ne.
    + eapply good_bind; [by apply encrypt_as_good| |].
      { intros v. apply grows_ret. }
      intros v [Hy [l ->]]. apply good_ret. split_and!.
      * eapply headers_inv_insert; eauto.
      * intros _. exists (JObj l), (JStr (valueToInputString child)). rewrite lookup_insert_eq.
        unfold restored_header. by rewrite Hs, Ha.
      * intros k' Hk' _. by rewrite lookup_insert_ne.
Qed.

Lemma headers_loop_good keys headers :
  NoDup keys → Forall (λ kv : string * jnode, fresh kv.2.2) headers →
  ∀ out, headers_inv out →
  good (protect_headers_loop tenantID taskID cipher keys headers out)
    (λ out', headers_inv out' ∧
       (∀ k n, k ∈ keys → assoc k headers = Some n → k ∉ reserved_headers → header_stored k n.2 out') ∧
       ∀ k, k ∉ keys → k ∉ reserved_headers → out' !! k = out !! k).
Proof.
  intros Hnd Hf. induction keys as [|k keys IH]; intros out Hinv; cbn [protect_headers_loop].
  - apply good_ret. split_and!; [done|set_solver|done].
  - apply NoDup_cons in Hnd as [Hk Hnd]. destruct (assoc k headers) as [n|] eqn:Ha.
    + assert (fresh n.2) as Hn.
      { apply assoc_Some_elem in Ha. rewrite Forall_forall in Hf. exact (Hf _ Ha). }
      eapply good_bind; [by apply protect_header_good|intros o; apply grows_headers_loop|].
      intros o (Hi & Hst & Ho). eapply good_conseq; [by apply IH|].
      intros out' (Hi' & Hin & Hout). split_and!; [done| |].
      * intros k' n' [->|Hk']%elem_of_cons Hn' Hr; [|by apply Hin].
        rewrite Ha in Hn'. injection Hn' as <-. destruct (Hst Hr) as (v & r & Hv & Hvr).
        exists v, r. by rewrite Hout.
      * intros k' [? ?]%not_elem_of_cons Hr. rewrite Hout by done. by apply Ho.
    + eapply good_conseq; [by apply IH|]. intros out' (Hi' & Hin & Hout). split_and!; [done| |].
      * intros k' n' [->|Hk']%elem_of_cons Hn' Hr; [congruence|by apply Hin].
      * intros k' [? ?]%not_elem_of_cons Hr. by apply Hout.
Qed.

Lemma headers_start_inv version : headers_inv (headers_start version).
Proof.
  unfold headers_start. split.
  - intros k h. rewrite !lookup_insert_Some, lookup_singleton_Some.
    intros [[_ <-]|[_ [[_ <-]|[_ [_ <-]]]]]; [by eexists; intros w|apply (strings_yields [])|by eexists; intros w].
  - intros h. rewrite !lookup_insert_ne, lookup_singleton_ne by done. done.
Qed.

(** The finished header map is rehydrated entry by entry. *)
Lemma headers_value_yields out :
  headers_inv out →
  ∃ rs, yields (headers_value out) (mk_obj rs) ∧
    ∀ k h, out !! k = Some h → ∃ r, (k, r) ∈ rs ∧ yields (header_jv h) r.
Proof.
  intros [Hy He]. unfold headers_value. set (vs := (λ kv, (kv.1, header_jv kv.2)) <$> map_to_list out).
  assert (Hvs : vs.*1 = (map_to_list out).*1) by (unfold vs; by rewrite <-list_fmap_compose).
  assert (∃ rs, Forall2 (λ a b : string * jv, yields a.2 b.2 ∧ b.1 = a.1) vs rs) as [rs HF].
  { assert (∀ l, (∀ kh, kh ∈ l → ∃ r, yields (header_jv kh.2) r) →
      ∃ rs, Forall2 (λ a b : string * jv, yields a.2 b.2 ∧ b.1 = a.1)
              ((λ kv : string * header_value, (kv.1, header_jv kv.2)) <$> l) rs) as Hex.
    { clear. induction l as [|kh l IH]; intros Hl; [by exists []; constructor|].
      destruct IH as [rs HF]; [set_solver|]. destruct (Hl kh) as [r Hr]; [set_solver|].
      exists ((kh.1, r) :: rs). by constructor. }
    apply Hex. intros [k h] Hin. apply elem_of_map_to_list in Hin. eauto. }
  assert (NoDup (vs.*1)) as Hnd by (rewrite Hvs; apply NoDup_fst_map_to_list).
  exists rs. split.
  - apply yields_obj; [done| |done]. unfold inputRefMetadata. rewrite obj_lookup_assoc.
    2:{ rewrite <-list_fmap_compose. exact Hnd. }
    destruct (assoc _ _) as [n|] eqn:Ha; [|done]. apply assoc_Some_elem in Ha.
    apply list_elem_of_fmap in Ha as ([k v] & [= <- ->] & Ha).
    unfold vs in Ha. apply list_elem_of_fmap in Ha as ([k h] & [= <- ->] & Ha).
    apply elem_of_map_to_list, He in Ha. cbn [fmap option_fmap option_map snd]. by rewrite Ha.
  - intros k h Hk. apply elem_of_map_to_list in Hk.
    assert ((k, header_jv h) ∈ vs) as Hin by (apply list_elem_of_fmap; by exists (k, h)).
    apply list_elem_of_lookup in Hin as [i Hi].
    destruct (Forall2_lookup_l _ _ _ _ _ HF Hi) as ([k' r] & Hr & Hyr & Hk'). cbn in Hk'. subst k'.
    exists r. split; [by eapply list_elem_of_lookup_2|done].
Qed.

Lemma protectHeaders_good child :
  fresh child →
  good (protectHeaders tenantID taskID cipher child) (λ v, ∃ r, yields v r ∧ restored_headers child r).
Proof.
  intros Hf. unfold protectHeaders.
  destruct child as [| | | | |hs];
    try (eapply good_conseq; [by apply encrypt_as_good|]; intros v [Hy _]; by eexists).
  inversion_clear Hf as [| | | | |l' Hnd Hmeta HF].
  eapply good_bind.
  - apply headers_loop_good; [by rewrite range_keys_perm| |apply headers_start_inv].
    eapply Forall_impl; [exact HF|]. by intros kv [_ ?].
  - intros o. apply grows_ret.
  - intros out (Hinv & Hst & _). apply good_ret.
    destruct (headers_value_yields out Hinv) as (rs & Hy & Hrs).
    exists (mk_obj rs). split; [done|]. eexists. split; [reflexivity|].
    intros k n Hin Hr. destruct (Hst k n) as (v & r & Hv & Hvr & Hres).
    + rewrite range_keys_perm. apply list_elem_of_fmap. by exists (k, n).
    + by apply assoc_elem.
    + done.
    + destruct (Hrs k _ Hv) as (r' & Hin' & Hr'). exists ("", r'). split.
      * apply list_elem_of_fmap. by exists (k, r').
      * cbn. by rewrite (yields_fun _ _ _ Hr' Hvr).
Qed.

(** ** Values *)

Lemma purpose_good key : good_purpose (purposeForSensitiveInputKey key).
Proof. unfold purposeForSensitiveInputKey. by repeat case_bool_decide. Qed.

Lemma protect_member_good k child rec (Q : string → jv → Prop) :
  fresh child →
  (∀ n, good (rec n) (λ v, ∃ r, yields v r ∧ Q n r)) →
  good (protect_member tenantID taskID cipher k child rec)
    (λ v, (∃ r, yields v r ∧ restored_member k child Q r) ∧
          (inputKeySafe (normalizeInputKey k) = true → v = child)).
Proof.
  intros Hf Hrec. unfold protect_member, restored_member.
  assert (∀ p s, good_purpose p → good (encrypt_as tenantID taskID cipher child p s)
    (λ v, ∃ r, yields v r ∧ r = JStr (valueToInputString child))) as Henc.
  { intros p s Hp. eapply good_conseq; [by apply encrypt_as_good|]. intros v [Hy _]. by eexists. }
  destruct (inputKeySafe (normalizeInputKey k)).
  { apply good_ret. split; [|done]. exists child. split; [by apply fresh_yields|done]. }
  eapply good_conseq; [|intros v Hv; split; [exact Hv|done]].
  case_bool_decide; [by apply protectHeaders_good|].
  destruct (bool_decide (normalizeInputKey k = "url") && _); [by apply Henc|].
  destruct (inputKeySensitive (normalizeInputKey k)); [apply Henc, purpose_good|].
  destruct (bool_decide (normalizeInputKey k = "path") && _); [by apply Henc|].
  apply Hrec.
Qed.

(** The three keys a reference is recognised by are copied unchanged. *)
Lemma metadata_preserved (l : list (string * jnode)) vs :
  NoDup (l.*1) → inputRefMetadata l = None →
  Forall2 (λ kv r, (inputKeySafe (normalizeInputKey kv.1) = true → r.2 = kv.2.2) ∧ r.1 = kv.1) l vs →
  inputRefMetadata ((λ kv, (kv.1, ("", kv.2))) <$> vs) = None.
Proof.
  intros Hnd Hmeta HF.
  assert (Hkeys : ((λ kv : string * jv, (kv.1, ("", kv.2))) <$> vs).*1 = l.*1).
  { rewrite <-list_fmap_compose. rewrite <-(Forall2_keys _ _ _ HF). done. }
  assert (∀ k, inputKeySafe (normalizeInputKey k) = true →
    obj_lookup ((λ kv, (kv.1, ("", kv.2))) <$> vs) k = obj_lookup l k) as Hlook.
  { intros k Hk. rewrite !obj_lookup_assoc by (by rewrite ?Hkeys). clear Hmeta Hkeys Hnd.
    induction HF as [|kv r l vs [Hs Hr] _ IH]; [done|]. cbn. destruct kv as [k' n], r as [k'' v]. cbn in *. subst k''.
    case_bool_decide; [subst; cbn; by rewrite Hs|exact IH]. }
  unfold inputRefMetadata in *. by rewrite !Hlook.
Qed.

(** What the range over an object's members leaves for one of them. *)
Definition member_done (kv : string * jnode) (v : jv) : Prop :=
  (∃ r, yields v r ∧ restored_member kv.1 kv.2.2 (restores kv.2.2) r) ∧
  (inputKeySafe (normalizeInputKey kv.1) = true → v = kv.2.2).

Lemma assoc_protect k (l : list (string * jnode)) :
  assoc k (List.map (λ kv, (kv.1, protect_member tenantID taskID cipher kv.1 kv.2.2
                                    (protect tenantID taskID cipher kv.2.2))) l) =
  (λ n, protect_member tenantID taskID cipher k n.2 (protect tenantID taskID cipher n.2)) <$> assoc k l.
Proof.
  apply (assoc_map (λ kv : string * jnode, protect_member tenantID taskID cipher kv.1 kv.2.2
                      (protect tenantID taskID cipher kv.2.2))).
Qed.

Lemma members_good (l : list (string * jnode)) :
  Forall (λ kv : string * jnode, fresh kv.2.2 → ∀ pk, good (protect tenantID taskID cipher kv.2.2 pk)
            (λ v', ∃ r, yields v' r ∧ restores kv.2.2 pk r)) l →
  NoDup (l.*1) → Forall (λ kv : string * jnode, kv.2.1 = "" ∧ fresh kv.2.2) l →
  good (pm_range (range_keys (l.*1))
          (List.map (λ kv, (kv.1, protect_member tenantID taskID cipher kv.1 kv.2.2
                                    (protect tenantID taskID cipher kv.2.2))) l) ∅)
    (λ out, ∀ kv, kv ∈ l → ∃ v, out !! kv.1 = Some v ∧ member_done kv v).
Proof.
  intros IH Hnd HF. rewrite Forall_forall in IH, HF. eapply good_conseq.
  - apply (pm_range_good _ _ (λ k v, ∀ n, (k, n) ∈ l → member_done (k, n) v)).
    { by rewrite range_keys_perm. }
    intros k m. rewrite assoc_protect. destruct (assoc k l) as [n|] eqn:Ha; [|done].
    intros [= <-]. pose proof (assoc_Some_elem _ _ _ Ha) as Hin. destruct (HF _ Hin) as [_ Hfn].
    eapply good_conseq; [apply (protect_member_good k n.2 _ (restores n.2) Hfn)|].
    { intros nk. by apply (IH _ Hin). }
    intros v Hv n' Hin'. apply (assoc_elem _ _ _ Hnd) in Hin'. rewrite Ha in Hin'. injection Hin' as <-. exact Hv.
  - intros out [Hout _] [k n] Hin. destruct (Hout k) as (v & Hv & Hd).
    + rewrite range_keys_perm. apply list_elem_of_fmap. by exists (k, n).
    + rewrite assoc_protect, (assoc_elem k l n Hnd Hin). done.
    + exists v. split; [done|]. by apply Hd.
Qed.

Lemma members_yield (l : list (string * jnode)) vs pk :
  NoDup (l.*1) → inputRefMetadata l = None →
  Forall2 (λ kv r, member_done kv r.2 ∧ r.1 = kv.1) l vs →
  ∃ r, yields (mk_obj vs) r ∧ restores (JObj l) pk r.
Proof.
  intros Hnd Hmeta HF.
  assert (∃ rs, Forall2 (λ a b : string * jv, yields a.2 b.2 ∧ b.1 = a.1) vs rs ∧ restores_members l rs)
    as (rs & Hy & Hr).
  { clear Hnd Hmeta. induction HF as [|kv [k v] l vs [[(r & Hy & Hr) _] Hk] _ (rs & IH1 & IH2)];
      [by exists []; split; constructor|]. cbn in Hk. exists ((k, r) :: rs). subst k. by split; constructor. }
  exists (mk_obj rs). split; [|by apply restores_obj]. apply yields_obj; [| |done].
  - by rewrite (Forall2_keys _ _ _ HF).
  - apply (metadata_preserved l); [done..|]. eapply Forall2_impl; [exact HF|]. by intros kv r [[_ ?] ?].
Qed.

Lemma protect_string_good s pk :
  good (protect tenantID taskID cipher (JStr s) pk) (λ v', ∃ r, yields v' r ∧ restores (JStr s) pk r).
Proof.
  cbn [protect restores].
  assert (∀ p sm, good_purpose p → good (encrypt_as tenantID taskID cipher (JStr s) p sm)
    (λ v', ∃ r, yields v' r ∧ r = JStr s)) as Henc.
  { intros p sm Hp. eapply good_conseq; [by apply encrypt_as_good|]. intros v [Hy _]. by eexists. }
  destruct (looksLikePrivatePath s); cbn [orb]; [by apply Henc|].
  destruct ((maxSafeInputStringLength <? slen s)%nat || inputKeySensitive pk).
  - apply Henc, purpose_good.
  - apply good_ret. eexists. split; [by apply fresh_yields; constructor|done].
Qed.

Lemma protect_good v : fresh v → ∀ pk,
  good (protect tenantID taskID cipher v pk) (λ v', ∃ r, yields v' r ∧ restores v pk r).
Proof.
  induction v as [| | |s|l IH|l IH] using jv_induction; intros Hf pk; try apply protect_string_good; cbn [protect];
    try (apply good_ret; eexists; split; [by apply fresh_yields|done]).
  - inversion_clear Hf as [| | | |l' HF|]. eapply good_bind.
    + apply (pm_map_good _ (λ n v', ∃ r, yields v' r ∧ restores n.2 pk r)).
      rewrite Forall_forall in *. intros n Hn. apply IH; [done|]. by apply HF.
    + intros vs. apply grows_ret.
    + intros vs HFv. apply good_ret.
      assert (∃ rs, Forall2 yields vs rs ∧ Forall2 (λ (n : jnode) r, restores n.2 pk r) l rs) as (rs & Hy & Hr).
      { clear IH HF. induction HFv as [|n v l vs (r & Hy & Hr) _ (rs & IH1 & IH2)]; [by exists []|].
        exists (r :: rs). by split; constructor. }
      exists (mk_arr rs). split; [|by apply restores_arr]. apply yields_arr. by apply Forall2_fmap_l.
  - inversion_clear Hf as [| | | | |l' Hnd Hmeta HF]. rewrite Hmeta.
    eapply good_bind; [by apply members_good|intros o; apply grows_ret|].
    intros out Hout. apply good_ret. destruct (collect_spec l out _ Hout) as (vs & -> & HFv).
    by apply members_yield.
Qed.
End RoundTrip.

(** C13: encryption of inputs loses nothing a recovery needs.  For every decoded
    value that holds no reference yet, under any iteration order of maps: when
    [protect] succeeds, rehydrating its result with a resolver that opens the
    references it built succeeds too, and gives the submitted value back,
    member by member: values under metadata keys unchanged, encrypted values as
    their text, other strings with inline credentials redacted, every header
    present. *)
Theorem protected_inputs_recoverable {W} `{!Inhabited W} (resolver : uuid → string → ST W (res string))
    tenantID taskID cipher v parentKey st v' st' :
  ExtLaws → MapRangeLaws → AEADLaws → (∀ n, (uuid_supply n < 2 ^ 128)%N) →
  fresh v → protect tenantID taskID cipher v parentKey st = Some (Ok v', st') →
  (∀ ref, ref ∈ ps_refs st' → ∀ w, resolver (ir_ID ref) (ir_Purpose ref) w = (opened cipher ref, w)) →
  ∃ r, (∀ w, rehydrateInputRefValue resolver v' w = (Ok r, w)) ∧ restores v parentKey r.
Proof.
  intros HE HM HA Hids Hf Hp Hk.
  destruct (protect_good tenantID taskID cipher resolver Hids v Hf parentKey) as [_ Hgood].
  exact (Hgood st v' st' Hp Hk).
Qed.
End Facts.

(** ** The keyring *)

Section KeyringFacts.
Context `{Ext}.

(** The cipher was built from a 32-byte key for this version. *)
Definition cipher_for (version : string) (c : executionInputCipher) : Prop :=
  ci_keyVersion c = version ∧ nonempty version = true ∧ TrimSpace version = version ∧
  slen (ci_key c) = 32%nat ∧ ci_keyFingerprint c = sha256_hex (ci_key c).

Lemma cipher_from_bytes key version c :
  newExecutionInputCipherFromKeyBytes key version = Ok c → cipher_for (ci_keyVersion c) c.
Proof.
  unfold newExecutionInputCipherFromKeyBytes. destruct (slen key =? 32)%nat eqn:Hk; [|done]. cbn [negb].
  apply Nat.eqb_eq in Hk. intros [= <-]. unfold cipher_for. cbn [ci_keyVersion ci_key ci_keyFingerprint].
  destruct (nonempty (TrimSpace version)) eqn:Hn; split_and!; try done. apply TrimSpace_idem.
Qed.

Lemma cipher_from_version key version c :
  TrimSpace version = version → nonempty version = true →
  newExecutionInputCipherFromKeyBytes key version = Ok c → ci_keyVersion c = version.
Proof.
  intros Ht Hn. unfold newExecutionInputCipherFromKeyBytes. destruct (negb _); [done|].
  intros [= <-]. cbn. by rewrite Ht, Hn.
Qed.

Lemma cipher_from_raw raw version c :
  newExecutionInputCipher raw version = Ok c → cipher_for (ci_keyVersion c) c.
Proof.
  unfold newExecutionInputCipher. destruct (decodeExecutionInputKey raw); [|done].
  apply cipher_from_bytes.
Qed.

Definition ciphers_ok (cs : gmap string executionInputCipher) : Prop :=
  map_Forall cipher_for cs.

Lemma parse_entries_ok entries cs cs' :
  ciphers_ok cs → parse_entries entries cs = Ok cs' → ciphers_ok cs' ∧ cs ⊆ cs'.
Proof.
  revert cs. induction entries as [|e entries IH]; intros cs Hcs; cbn [parse_entries];
    [by intros [= <-]|].
  destruct (negb (nonempty (TrimSpace e))); [done|].
  destruct (cut_colon (TrimSpace e)) as [[v k]|]; cbn [negb orb]; [|done].
  destruct (nonempty (TrimSpace v)) eqn:Hv; cbn [negb orb]; [|done].
  destruct (nonempty (TrimSpace k)); cbn [negb]; [|done].
  destruct (cs !! TrimSpace v) eqn:Hl; [done|].
  destruct (decodeExecutionInputKeyringKey (TrimSpace k)) as [key|]; [|done].
  destruct (newExecutionInputCipherFromKeyBytes key (TrimSpace v)) as [c|] eqn:Hc; [|done].
  intros Hp. pose proof (cipher_from_bytes _ _ _ Hc) as Hfor.
  rewrite (cipher_from_version _ _ _ (TrimSpace_idem v) Hv Hc) in Hfor.
  destruct (IH (<[TrimSpace v := c]> cs)) as [Hok Hsub]; [by apply map_Forall_insert_2|done|].
  split; [done|]. etransitivity; [by apply insert_subseteq|done].
Qed.

Lemma keyring_ok keyringRaw activeRaw legacyKey legacyVersion k :
  buildExecutionInputKeyring keyringRaw activeRaw legacyKey legacyVersion = Ok k →
  ciphers_ok (kr_ciphers k) ∧ is_Some (kr_ciphers k !! kr_activeKeyVersion k) ∧
  (nonempty (TrimSpace keyringRaw) = true → nonempty (TrimSpace legacyKey) = true →
   ∃ legacy c, newExecutionInputCipher (TrimSpace legacyKey) legacyVersion = Ok legacy ∧
     kr_ciphers k !! ci_keyVersion legacy = Some c ∧ ci_keyFingerprint c = ci_keyFingerprint legacy).
Proof.
  unfold buildExecutionInputKeyring. destruct (nonempty (TrimSpace keyringRaw)).
  - unfold parseExecutionInputKeyring. destruct (negb _); [done|].
    destruct (parse_entries _ ∅) as [cs|] eqn:Hp; [|done]. unfold mbind, res_bind.
    case_bool_decide; [done|]. destruct (cs !! TrimSpace activeRaw) eqn:Ha; [|done].
    apply parse_entries_ok in Hp as [Hok _]; [|apply map_Forall_empty].
    destruct (nonempty (TrimSpace legacyKey)).
    + unfold ensureLegacyKeyConsistent. destruct (newExecutionInputCipher _ _) as [legacy|]; [|done].
      cbn [kr_ciphers]. destruct (cs !! ci_keyVersion legacy) as [c|] eqn:Hc; [|done].
      case_bool_decide; [|done]. intros [= <-]. split_and!; [done|by eexists|]. eauto.
    + intros [= <-]. split_and!; [done|by eexists|done].
  - destruct (nonempty (TrimSpace legacyKey)); [|done].
    destruct (newExecutionInputCipher _ _) as [c|] eqn:Hc; [|done]. unfold mbind, res_bind.
    destruct (nonempty (TrimSpace activeRaw) && _); [done|]. intros [= <-]. split_and!; [| |done].
    + cbn. apply map_Forall_singleton. by eapply cipher_from_raw.
    + cbn. rewrite lookup_singleton_eq. by eexists.
Qed.

End KeyringFacts.

(** ** Two defects *)

Section Defects.
Context `{Ext} `{MapRange} `{AEAD} `{UUIDSupply}.

(** A header of a particular name crashes the submission.  The map that
    collects protected headers is also where their names are accumulated, under
    ["sensitive_fields_redacted"]; a client header of that name, visited before
    a sensitive one, replaces the list and the next type assertion panics,
    whatever the two values are. *)
Theorem reserved_header_panics tenantID taskID cipher a b st :
  (∀ n, is_Some (nonce_supply n)) →
  range_keys ["sensitive_fields_redacted"; "Authorization"] = ["sensitive_fields_redacted"; "Authorization"] →
  protectHeaders tenantID taskID cipher
    (JObj [("sensitive_fields_redacted", ("", a)); ("Authorization", ("", b))]) st = None.
Proof.
  intros Hnonce Hrange. unfold protectHeaders. cbn [fmap list_fmap fst]. rewrite Hrange.
  destruct (Hnonce (ps_draws st)) as [n1 Hn1].
  destruct (Hnonce (S (ps_draws st))) as [n2 Hn2].
  assert (inputKeySensitive (normalizeInputKey "sensitive_fields_redacted") = false ∧
          allowed_header (normalizeInputKey "sensitive_fields_redacted") = false ∧
          inputKeySensitive (normalizeInputKey "Authorization") = true) as (Hs & Ha & Hs')
    by (vm_compute; done).
  unfold pm_bind at 1. cbn [protect_headers_loop assoc].
  rewrite bool_decide_true by done. cbn [snd].
  unfold protect_header at 1. rewrite Hs, Ha.
  unfold pm_bind, encrypt_as, pm_bind, buildRef, pm_ret. cbv beta zeta. rewrite Hn1.
  cbn [protect_headers_loop assoc]. rewrite bool_decide_false, bool_decide_true by done.
  unfold protect_header. rewrite Hs'. unfold encrypt_as, buildRef, pm_bind, pm_ret. cbv beta zeta.
  cbn [ps_draws]. rewrite Hn2.
  unfold pm_lift, note_sensitive. rewrite lookup_insert_ne by done. by rewrite lookup_insert_eq.
Qed.

(** A value under a metadata key is stored in plaintext.  [protect] copies
    the child of such a key verbatim, so whatever a client nests under
    ["created_at"] is persisted unencrypted with no reference, although the
    child may be sensitive by the code's own test. *)
Theorem metadata_key_stored_plain tenantID taskID cipher child parentKey st :
  MapRangeLaws →
  protect tenantID taskID cipher (JObj [("created_at", ("", child))]) parentKey st =
    Some (Ok (JObj [("created_at", ("", child))]), st).
Proof.
  intros HM. cbn [protect]. change (inputRefMetadata [("created_at", ("", child))]) with (@None (uuid * string)).
  assert (range_keys (([("created_at", ("", child))] : list (string * jnode)).*1) = ["created_at"]) as ->.
  { apply Permutation_singleton_r, range_keys_perm. }
  cbn [pm_range List.map fst snd assoc]. rewrite bool_decide_true by done.
  unfold protect_member.
  assert (inputKeySafe (normalizeInputKey "created_at") = true) as -> by (vm_compute; done).
  unfold pm_bind, pm_ret, collect. cbn [omap list_omap fst].
  by rewrite lookup_insert_eq.
Qed.
End Defects.

(** ** Evaluation *)
Module InputRefsExample.
#[local] Existing Instance demo_ext.

Definition range_as_listed : MapRange := λ ks, ks.
#[local] Existing Instance range_as_listed.

(** A stand-in cipher that keeps key, nonce and associated data next to the text. *)
Definition toy_aead : AEAD := {|
  gcm_Seal key nonce plaintext aad := hex_encode (key +:+ nonce +:+ aad) +:+ ":" +:+ plaintext;
  gcm_Open key nonce ciphertext aad :=
    if HasPrefix ciphertext (hex_encode (key +:+ nonce +:+ aad) +:+ ":")
    then Some (drop_str (slen (hex_encode (key +:+ nonce +:+ aad) +:+ ":")) ciphertext) else None;
  nonce_supply n := Some (pretty n);
|}.
#[local] Existing Instance toy_aead.
Definition counting_uuids : UUIDSupply := λ n, (N.of_nat n mod 2 ^ 128)%N.
#[local] Existing Instance counting_uuids.

Lemma drop_str_app s t : drop_str (slen s) (s +:+ t) = t.
Proof. induction s as [|a s IH]; [done|]. rewrite str_app_cons. exact IH. Qed.

Lemma toy_aead_laws : AEADLaws.
Proof.
  intros key nonce plaintext aad. cbn [gcm_Open gcm_Seal toy_aead].
  rewrite str_app_assoc. rewrite (proj2 (HasPrefix_spec _ _)) by (by eexists). by rewrite drop_str_app.
Qed.

Lemma range_as_listed_laws : MapRangeLaws.
Proof. by intros ks. Qed.

Definition demo_cipher : executionInputCipher := mkCipher "v1" "" "0123456789abcdef0123456789abcdef".

(** A definition with a password, an inline credential and a path. *)
Definition submitted : jv :=
  mk_obj [("model", JStr "m"); ("password", JStr "hunter2"); ("note", JStr "use Bearer abc");
          ("file", JStr "/etc/passwd")].

Definition start_state : inputRefProtectionState := mkProtection 5 [].

Definition stored_run := Eval vm_compute in protect "acme" 7%N demo_cipher submitted "" start_state.
Definition stored_value : jv := match stored_run with Some (Ok v, _) => v | _ => JNull end.
Definition stored_state : inputRefProtectionState :=
  match stored_run with Some (_, st) => st | None => start_state end.

(** The resolver over the references of the run. *)
Definition resolve : uuid → string → ST () (res string) := λ id purpose w,
  (match list_find (λ ref, ir_ID ref = id ∧ ir_Purpose ref = purpose) (ps_refs stored_state) with
   | Some (_, ref) => opened demo_cipher ref
   | None => Err ErrExecutionInputRefDecrypt
   end, w).

Lemma submitted_fresh : fresh submitted.
Proof.
  constructor.
  - apply (bool_decide_unpack _). vm_compute. exact I.
  - vm_compute. reflexivity.
  - repeat constructor.
Qed.

Lemma resolve_known :
  ∀ ref, ref ∈ ps_refs stored_state → ∀ w, resolve (ir_ID ref) (ir_Purpose ref) w = (opened demo_cipher ref, w).
Proof.
  intros ref Hin w. cbn [stored_state stored_run ps_refs] in Hin.
  apply elem_of_cons in Hin as [->|[->|[]%elem_of_nil]%elem_of_cons]; vm_compute; reflexivity.
Qed.

Lemma protected_inputs_recoverable_witness :
  length (ps_refs stored_state) = 2%nat ∧
  ∃ r, (∀ w, rehydrateInputRefValue resolve stored_value w = (Ok r, w)) ∧ restores submitted "" r.
Proof.
  split; [vm_compute; reflexivity|].
  apply (protected_inputs_recoverable resolve "acme" 7%N demo_cipher submitted "" start_state
           stored_value stored_state).
  - apply demo_ext_laws.
  - apply range_as_listed_laws.
  - apply toy_aead_laws.
  - intros n. apply N.mod_lt. done.
  - apply submitted_fresh.
  - vm_compute. reflexivity.
  - apply resolve_known.
Defined.

Definition demo_ring : string := "v1:MDEyMzQ1Njc4OWFiY2RlZjAxMjM0NTY3ODlhYmNkZWY=".
Definition demo_built := Eval vm_compute in buildExecutionInputKeyring demo_ring "v1" "" "".


Lemma reserved_header_panics_witness :
  protectHeaders "acme" 7%N demo_cipher
    (JObj [("sensitive_fields_redacted", ("", JStr "x")); ("Authorization", ("", JStr "y"))]) start_state = None.
Proof.
  apply (reserved_header_panics "acme" 7%N demo_cipher (JStr "x") (JStr "y") start_state).
  - intros n. by eexists.
  - reflexivity.
Defined.

Lemma metadata_key_stored_plain_witness :
  containsSensitiveInput (JObj [("created_at", ("", mk_obj [("password", JStr "hunter2")]))]) = true ∧
  protect "acme" 7%N demo_cipher (JObj [("created_at", ("", mk_obj [("password", JStr "hunter2")]))]) ""
    start_state =
  Some (Ok (JObj [("created_at", ("", mk_obj [("password", JStr "hunter2")]))]), start_state).
Proof.
  split; [vm_compute; reflexivity|].
  apply (metadata_key_stored_plain "acme" 7%N demo_cipher (mk_obj [("password", JStr "hunter2")]) "" start_state).
  apply range_as_listed_laws.
Defined.
End InputRefsExample.
