(* ===== verification/Redaction.v ===== *)
(** * Redaction of API responses

    api/redaction.go: what is removed from stored values before they are shown.
    A decoded [interface{}] is a [jv] and a computation that panics is [None], as
    in [InputRefs], whose maps, replacer and header accumulator are used here. *)

From S2P Require Import Prelude GoStrings Json Ext InputRefs.
Open Scope Z_scope.

Definition responseRedactionPolicyVersion : string := "api-response-redaction-v1".
Definition maxSafeResponseStringLength : nat := 512.

Definition sensitiveResponseKeyPatterns : list string :=
  ["authorization"; "cookie"; "set_cookie"; "set-cookie"; "token"; "secret"; "password"; "api_key"; "apikey";
   "access_key"; "refresh_token"; "private_key"; "credential"; "ciphertext"; "nonce"; "body"; "raw_body";
   "response_body"; "request_body"; "content"; "file_content"; "file_contents"; "full_text"; "file_path";
   "absolute_path"; "full_absolute_path"].

Definition safeResponseRedactionMetadataKeys : list string :=
  ["content_redacted"; "content_digest"; "content_digest_sha256"; "content_bytes"; "content_type"; "input_redacted";
   "input_digest_sha256"; "input_bytes"; "input_content_type"; "encrypted_input_ref"; "encrypted_input_ref_id"; "purpose";
   "key_version"; "created_at"; "expires_at"; "safe_summary"; "sensitive_fields_redacted"; "redaction_policy_version";
   "local_auth_secret_env"].

(** [strings.ReplaceAll(strings.ToLower(key), "-", "_")]. *)
Definition normalized_key (key : string) : string := dash_to_underscore (ToLower key).

Definition responseKeyDropped (normalized : string) : bool := bool_decide (normalized ∈ ["ciphertext"; "nonce"]).

Definition responseKeySensitive (key : string) : bool :=
  let normalized := normalized_key key in
  if bool_decide (normalized ∈ safeResponseRedactionMetadataKeys) then false
  else existsb (λ pattern, Contains normalized (dash_to_underscore pattern)) sensitiveResponseKeyPatterns.

Definition looksLikePrivateResponsePath (value : string) : bool :=
  let trimmed := TrimSpace value in
  HasPrefix trimmed "/" || HasPrefix trimmed "~/" || HasPrefix trimmed (String bsl (str1 bsl)) || drive_path trimmed.

Definition redactInlineAuth (value : string) : string := replace_auth 0 value.

Section Redaction.
Context `{Ext} `{MapRange}.

Definition sha256HexString (value : string) : string := sha256_hex value.

Definition valueToString (v : jv) : string := match v with JStr s => s | _ => any_text v end.

Definition redactedMap (reason digest : string) (bytes : Z) : jv :=
  mk_obj [("redacted", JBool true); ("reason", JStr reason); ("content_digest_sha256", JStr digest);
          ("content_bytes", JNum (itoa bytes)); ("redaction_policy_version", JStr responseRedactionPolicyVersion)].

Definition inputRedactedMap (reason digest : string) (bytes : Z) : jv :=
  mk_obj [("input_redacted", JBool true); ("safe_summary", JStr reason); ("input_digest_sha256", JStr digest);
          ("input_bytes", JNum (itoa bytes)); ("sensitive_fields_redacted", mk_strings [reason]);
          ("redaction_policy_version", JStr responseRedactionPolicyVersion)].

(** The two maps of a text: its digest and its length. *)
Definition redacted_text (reason s : string) : jv := redactedMap reason (sha256HexString s) (Z.of_nat (slen s)).
Definition input_redacted_text (reason s : string) : jv := inputRedactedMap reason (sha256HexString s) (Z.of_nat (slen s)).

Definition redactedJSONValue (reason digest : string) (bytes : Z) : string := any_text (redactedMap reason digest bytes).

Definition safeResponseURL (raw : string) : jv :=
  let trimmed := TrimSpace raw in
  if negb (nonempty trimmed) then JStr ""
  else match url_Parse trimmed with
  | Some u =>
    if negb (nonempty (url_Scheme u)) || negb (nonempty (url_Host u)) then JStr (redactInlineAuth trimmed)
    else
      mk_obj ([("safe_url", JStr (url_Scheme u +:+ "://" +:+ url_Host u +:+ url_EscapedPath u));
               ("safe_host", JStr (url_Hostname u));
               ("redaction_policy_version", JStr responseRedactionPolicyVersion)]
        ++ if nonempty (url_RawQuery u) || url_has_User u then
             [("input_redacted", JBool true); ("input_digest_sha256", JStr (sha256HexString trimmed));
              ("input_bytes", JNum (itoa (Z.of_nat (slen trimmed))));
              ("sensitive_fields_redacted", mk_strings ["url_query_or_credentials"])]
           else [])
  | None => JStr (redactInlineAuth trimmed)
  end.

Definition safeResponsePathEnvelope (path : string) : jv :=
  let trimmed := TrimSpace path in
  obj_add "safe_path_digest" (JStr (sha256HexString trimmed)) (input_redacted_text "private_path" trimmed).

(** One header; [clean] is its sanitized value. *)
Definition response_header (key : string) (child : jv) (clean : option jv) (out : gmap string header_value)
    : option (gmap string header_value) :=
  if responseKeySensitive key then
    note_sensitive key (<[key := HValue (input_redacted_text "sensitive_header" (valueToString child))]> out)
  else if allowed_header (normalized_key key) then c ← clean; Some (<[key := HValue c]> out)
  else Some (<[key := HValue (input_redacted_text "non_allowlisted_header" (valueToString child))]> out).

Fixpoint response_headers_loop (keys : list string) (members : list (string * (jv * option jv)))
    (out : gmap string header_value) : option (gmap string header_value) :=
  match keys with
  | [] => Some out
  | k :: keys =>
    match assoc k members with
    | Some (child, clean) => out ← response_header k child clean out; response_headers_loop keys members out
    | None => response_headers_loop keys members out
    end
  end.

(** The value of a [headers] member: [clean] is the whole value sanitized,
    [headers] its members, each with its sanitized value. *)
Definition sanitizeResponseHeaders (value : jv) (clean : option jv) (headers : list (string * (jv * option jv))) : option jv :=
  match value with
  | JObj _ =>
    match assoc "input_redacted" headers with
    | Some (JBool true, _) => clean
    | _ =>
      out ← response_headers_loop (range_keys (headers.*1)) headers (headers_start responseRedactionPolicyVersion);
      Some (headers_value out)
    end
  | _ => Some (input_redacted_text "headers" (valueToString value))
  end.

Definition response_member (key : string) (child : jv) (clean : option jv) (headers : list (string * (jv * option jv))) : option jv :=
  let normalized := normalized_key key in
  if responseKeySensitive key then Some (redacted_text "sensitive_key" (valueToString child))
  else if bool_decide (normalized = "path") && looksLikePrivateResponsePath (valueToString child)
  then Some (safeResponsePathEnvelope (valueToString child))
  else if bool_decide (normalized = "url") then Some (safeResponseURL (valueToString child))
  else if bool_decide (normalized = "headers") then sanitizeResponseHeaders child clean headers
  else clean.

Fixpoint sanitizeResponseValue (v : jv) : option jv :=
  match v with
  | JObj l =>
    vs ← all_some (List.concat (List.map (λ kv,
           if responseKeyDropped (normalized_key kv.1) then []
           else [x ← response_member kv.1 kv.2.2 (sanitizeResponseValue kv.2.2)
                   match kv.2.2 with
                   | JObj l' => List.map (λ kv', (kv'.1, (kv'.2.2, sanitizeResponseValue kv'.2.2))) l'
                   | _ => []
                   end;
                 Some (kv.1, x)]) l));
    Some (mk_obj vs)
  | JArr l => vs ← all_some (List.map (λ n, sanitizeResponseValue n.2) l); Some (mk_arr vs)
  | JStr s =>
    Some (if (maxSafeResponseStringLength <? slen s)%nat then redacted_text "large_string" s else JStr (redactInlineAuth s))
  | _ => Some v
  end.

(** [None] is a panic. *)
Definition sanitizeJSONRawMessage (raw : string) : option string :=
  if negb (nonempty raw) then Some raw
  else match unmarshal_any raw with
  | None => Some (redactedJSONValue "invalid_json" (sha256HexString raw) (Z.of_nat (slen raw)))
  | Some value => any_text <$> sanitizeResponseValue value
  end.

Definition redactURLQuery (value : string) : string :=
  let value := TrimSpace value in
  match Split value "?" with
  | before :: _ :: _ => before +:+ "?[redacted]"
  | _ => value
  end.

Definition sanitizeTargetSummary (actionType target : string) : string :=
  let target := TrimSpace target in
  if negb (nonempty target) then ""
  else if bool_decide (actionType = "read_file") then "file:" +:+ sha256HexString target
  else if bool_decide (actionType = "http_call") then
    match Split target " " with
    | method :: ((_ :: _) as rest) => TrimSpace method +:+ " " +:+ redactURLQuery (Join rest " ")
    | _ => redactURLQuery target
    end
  else redactInlineAuth target.

Definition sanitizeActionTargetURL (target : string) : string :=
  match safeResponseURL target with
  | JObj l => default "" (as_string (obj_lookup l "safe_url"))
  | JStr s => s
  | _ => ""
  end.

(** A [map[string]interface{}] is its object; [JNull] is the nil map. *)
Definition sanitizeActionMetadata (metadata : jv) : option jv :=
  match metadata with
  | JObj _ => sanitizeResponseValue metadata
  | _ => Some (mk_obj [])
  end.
End Redaction.
