(* ===== verification/RedactionFacts.v ===== *)
(** * What a redacted response reveals

    Two values that differ only where the redaction is meant to hide something,
    and there agree on the digests and lengths that are shown instead, are shown
    alike. *)

From S2P Require Import Prelude GoStrings Json JsonFacts Ext InputRefs Redaction.
Open Scope Z_scope.

Definition all2 {A B} (P : A → B → Prop) : list A → list B → Prop :=
  fix go l l' := match l, l' with [], [] => True | x :: l, y :: l' => P x y ∧ go l l' | _, _ => False end.

Lemma all2_Forall2 {A B} (P : A → B → Prop) l l' : all2 P l l' ↔ Forall2 P l l'.
Proof.
  revert l'. induction l as [|x l IH]; intros [|y l']; cbn.
  - by split.
  - split; [done|]. by intros ?%Forall2_nil_inv_l.
  - split; [done|]. by intros ?%Forall2_nil_inv_r.
  - by rewrite IH, Forall2_cons.
Qed.

Section Alike.
Context `{Ext}.

(** The texts the redaction shows of [s] are those it shows of [s']. *)
Definition same_digest (s s' : string) : Prop := sha256HexString s = sha256HexString s' ∧ slen s = slen s'.

(** A header whose value is replaced. *)
Definition header_hidden (k : string) : bool := responseKeySensitive k || negb (allowed_header (normalized_key k)).

Fixpoint alike (v v' : jv) : Prop :=
  match v, v' with
  | JObj l, JObj l' =>
    all2 (λ kv kv',
      kv.1 = kv'.1 ∧
      let k := kv.1 in let c := kv.2.2 in let c' := kv'.2.2 in
      if responseKeyDropped (normalized_key k) then True
      else if responseKeySensitive k then same_digest (valueToString c) (valueToString c')
      else if bool_decide (normalized_key k = "path") then
        c = c' ∨ looksLikePrivateResponsePath (valueToString c) = true ∧ looksLikePrivateResponsePath (valueToString c') = true ∧
                 same_digest (TrimSpace (valueToString c)) (TrimSpace (valueToString c'))
      else if bool_decide (normalized_key k = "url") then c = c'
      else if bool_decide (normalized_key k = "headers") then
        match c, c' with
        | JObj h, JObj h' =>
          "input_redacted" ∉ h.*1 ∧
          all2 (λ x x', x.1 = x'.1 ∧
            if header_hidden x.1 then same_digest (valueToString x.2.2) (valueToString x'.2.2) else alike x.2.2 x'.2.2) h h'
        | JObj _, _ | _, JObj _ => False
        | _, _ => same_digest (valueToString c) (valueToString c')
        end
      else alike c c') l l'
  | JArr l, JArr l' => all2 (λ n n', alike n.2 n'.2) l l'
  | JStr s, JStr s' =>
    s = s' ∨ (maxSafeResponseStringLength < slen s)%nat ∧ (maxSafeResponseStringLength < slen s')%nat ∧ same_digest s s'
  | _, _ => v = v'
  end.

Lemma redacted_text_same reason s s' : same_digest s s' → redacted_text reason s = redacted_text reason s'.
Proof. unfold redacted_text. by intros [-> ->]. Qed.

Lemma input_redacted_text_same reason s s' : same_digest s s' → input_redacted_text reason s = input_redacted_text reason s'.
Proof. unfold input_redacted_text. by intros [-> ->]. Qed.

Context `{MapRange}.

(** The headers, each with its value and its sanitized value. *)
Definition swept (l : list (string * jnode)) : list (string * (jv * option jv)) :=
  List.map (λ x, (x.1, (x.2.2, sanitizeResponseValue x.2.2))) l.

Definition shown_alike (v : jv) : Prop := ∀ v', alike v v' → sanitizeResponseValue v = sanitizeResponseValue v'.

Definition header_alike (x x' : string * (jv * option jv)) : Prop :=
  x.1 = x'.1 ∧ if header_hidden x.1 then same_digest (valueToString x.2.1) (valueToString x'.2.1) else x.2.2 = x'.2.2.

Lemma response_header_alike k x x' out : header_alike (k, x) (k, x') →
  response_header k x.1 x.2 out = response_header k x'.1 x'.2 out.
Proof.
  intros [_ Hx]. unfold header_hidden in Hx. cbn [fst snd] in Hx. unfold response_header.
  destruct (responseKeySensitive k); cbn [orb] in Hx; [by rewrite (input_redacted_text_same _ _ _ Hx)|].
  destruct (allowed_header _); cbn [negb] in Hx; [by rewrite Hx|by rewrite (input_redacted_text_same _ _ _ Hx)].
Qed.

Lemma assoc_alike k l l' : Forall2 header_alike l l' →
  match assoc k l, assoc k l' with
  | Some x, Some x' => header_alike (k, x) (k, x')
  | None, None => True
  | _, _ => False
  end.
Proof.
  induction 1 as [|[a x] [a' x'] l l' Hx Hl IH]; [done|]. cbn [assoc]. destruct Hx as [Ha Hx]. cbn [fst] in Ha. subst a'.
  case_bool_decide; [subst; by split|done].
Qed.

Lemma response_headers_alike l l' : Forall2 header_alike l l' → ∀ ks out,
  response_headers_loop ks l out = response_headers_loop ks l' out.
Proof.
  intros Hl ks. induction ks as [|k ks IH]; intros out; [done|]. cbn [response_headers_loop]. pose proof (assoc_alike k _ _ Hl) as Hk.
  destruct (assoc k l) as [[c cl]|], (assoc k l') as [[c' cl']|]; try done.
  pose proof (response_header_alike k (c, cl) (c', cl') out Hk) as Hr. cbn [fst snd] in Hr. rewrite Hr.
  destruct (response_header k c' cl' out); [cbn; apply IH|done].
Qed.

Lemma header_keys l l' : Forall2 header_alike l l' → l.*1 = l'.*1.
Proof. induction 1 as [|x x' l l' [Hx _] Hl IH]; [done|]. cbn. by rewrite Hx, IH. Qed.

Lemma assoc_absent {A} k (l : list (string * A)) : k ∉ l.*1 → assoc k l = None.
Proof.
  induction l as [|[a x] l IH]; [done|]. cbn [fmap list_fmap fst assoc]. intros [Hk Hl]%not_elem_of_cons.
  rewrite bool_decide_false by done. by apply IH.
Qed.

Lemma swept_keys l : (swept l).*1 = l.*1.
Proof. unfold swept. induction l as [|x l IH]; [done|]. cbn. f_equal. exact IH. Qed.

Lemma headers_alike h h' : Forall (λ x, shown_alike x.2.2) h → "input_redacted" ∉ h.*1 →
  all2 (λ x x', x.1 = x'.1 ∧
    if header_hidden x.1 then same_digest (valueToString x.2.2) (valueToString x'.2.2) else alike x.2.2 x'.2.2) h h' →
  sanitizeResponseHeaders (JObj h) (sanitizeResponseValue (JObj h)) (swept h) =
  sanitizeResponseHeaders (JObj h') (sanitizeResponseValue (JObj h')) (swept h').
Proof.
  intros Hs Hk Hh%all2_Forall2.
  assert (Forall2 header_alike (swept h) (swept h')) as Hsw.
  { clear Hk. induction Hh as [|x x' h h' [Hx Hd] Hh IH]; [constructor|]. apply Forall_cons in Hs as [Hs Hs'].
    constructor; [|by apply IH]. split; [done|]. cbn [fst snd]. destruct (header_hidden x.1); [done|by apply Hs]. }
  unfold sanitizeResponseHeaders. rewrite (assoc_absent _ (swept h)) by (by rewrite swept_keys).
  rewrite (assoc_absent _ (swept h')) by (by rewrite <-(header_keys _ _ Hsw), swept_keys).
  by rewrite (header_keys _ _ Hsw), (response_headers_alike _ _ Hsw).
Qed.

Definition kids (v : jv) : list (string * jnode) := match v with JObj l => l | _ => [] end.

(** One member of an object that is not dropped. *)
Lemma member_alike k c c' : responseKeyDropped (normalized_key k) = false →
  shown_alike c → Forall (λ x, shown_alike x.2.2) (kids c) → alike (JObj [(k, ("", c))]) (JObj [(k, ("", c'))]) →
  response_member k c (sanitizeResponseValue c) (swept (kids c)) = response_member k c' (sanitizeResponseValue c') (swept (kids c')).
Proof.
  intros Hd Hc Hkids Ha. destruct Ha as [[_ Ha] _]. cbn [fst snd] in Ha. rewrite Hd in Ha. unfold response_member.
  destruct (responseKeySensitive k); [by rewrite (redacted_text_same _ _ _ Ha)|].
  destruct (bool_decide (normalized_key k = "path")) eqn:Hp.
  { destruct Ha as [->|(H1 & H2 & Hs)]; [done|]. rewrite H1, H2. cbn [andb]. unfold safeResponsePathEnvelope.
    destruct Hs as [Hs Hn]. rewrite Hs. by rewrite (input_redacted_text_same _ _ _ (conj Hs Hn)). }
  cbn [andb]. destruct (bool_decide (normalized_key k = "url")); [by subst|].
  destruct (bool_decide (normalized_key k = "headers")).
  - destruct c as [| | | | |h], c' as [| | | | |h']; cbn [sanitizeResponseHeaders];
      first [done | by rewrite (input_redacted_text_same _ _ _ Ha) | idtac].
    destruct Ha as [Hk Hh]. by apply headers_alike.
  - by apply Hc.
Qed.

Lemma alike_shown v : shown_alike v ∧ Forall (λ x, shown_alike x.2.2) (kids v).
Proof.
  induction v as [|b|l|s|l IH|l IH] using jv_induction.
  1-3: split; [intros v' Hv; destruct v'; cbn [alike] in Hv; try done; by inversion Hv|constructor].
  - split; [|constructor]. intros v' Hv. destruct v' as [| | |s'| |]; cbn [alike] in Hv; try done. destruct Hv as [->|(H1 & H2 & Hs)]; [done|].
    cbn [sanitizeResponseValue]. rewrite (proj2 (Nat.ltb_lt _ _) H1), (proj2 (Nat.ltb_lt _ _) H2). by rewrite (redacted_text_same _ _ _ Hs).
  - split; [|constructor]. intros v' Hv. destruct v' as [| | | |l'|]; cbn [alike] in Hv; try done. apply all2_Forall2 in Hv.
    cbn [sanitizeResponseValue]. f_equal. induction Hv as [|n n' l l' Hn Hl IHl]; [done|]. apply Forall_cons in IH as [[IHn _] IH].
    cbn [List.map all_some]. rewrite (IHn _ Hn). destruct (sanitizeResponseValue n'.2); [cbn|done].
    specialize (IHl IH). destruct (all_some _), (all_some _); cbn in *; congruence.
  - split; [|cbn [kids]; eapply Forall_impl; [exact IH|]; intros x [Hx _]; exact Hx].
    intros v' Hv. destruct v' as [| | | | |l']; cbn [alike] in Hv; try done. apply all2_Forall2 in Hv.
    cbn [sanitizeResponseValue]. f_equal. induction Hv as [|n n' l l' Hn Hl IHl]; [done|]. apply Forall_cons in IH as [[IHn IHk] IH].
    destruct n as [k [t c]], n' as [k' [t' c']]. cbn [fst snd] in *. destruct Hn as [<- Hn]. specialize (IHl IH).
    cbn [List.map List.concat fst snd]. destruct (responseKeyDropped (normalized_key k)) eqn:Hd; [exact IHl|]. cbn [app all_some].
    assert (alike (JObj [(k, ("", c))]) (JObj [(k, ("", c'))])) as Ha. { cbn [alike all2 fst snd]. split; [|done]. by rewrite Hd. }
    pose proof (member_alike k c c' Hd IHn IHk Ha) as Hm. unfold swept, kids in Hm.
    replace (match c with JObj l' => List.map (λ kv', (kv'.1, (kv'.2.2, sanitizeResponseValue kv'.2.2))) l' | _ => [] end)
      with (swept (kids c)) by (by destruct c).
    replace (match c' with JObj l' => List.map (λ kv', (kv'.1, (kv'.2.2, sanitizeResponseValue kv'.2.2))) l' | _ => [] end)
      with (swept (kids c')) by (by destruct c').
    rewrite (member_alike k c c' Hd IHn IHk Ha). destruct (response_member k c' _ _); [cbn|done].
    destruct (all_some _), (all_some _); cbn in *; congruence.
Qed.

(** C21: a response reveals of a hidden value only its digest and its length.
    Two stored values that differ only under sensitive keys, in headers that are
    not allow-listed, in private paths, in over-long strings or in ciphertexts
    and nonces, and agree there on SHA-256 and length, give the same response,
    whatever the order in which maps are visited. *)
Theorem redaction_hides v v' : alike v v' → sanitizeResponseValue v = sanitizeResponseValue v'.
Proof. apply alike_shown. Qed.
End Alike.

Module RedactionExample.
#[local] Existing Instance demo_ext.
#[local] Instance as_listed : MapRange := λ ks, ks.

Definition secret (last : string) : string := "0123456789abcdef0123456789abcdef" +:+ last.
Definition stored (last nonce : string) : jv :=
  mk_obj [("api_token", JStr (secret last)); ("nonce", JStr nonce); ("n", JNum "1");
          ("headers", mk_obj [("Accept", JStr (secret last)); ("ETag", JStr "x")])].

Lemma redaction_hides_witness : alike (stored "a" "p") (stored "b" "quite another") ∧
  sanitizeResponseValue (stored "a" "p") = sanitizeResponseValue (stored "b" "quite another").
Proof.
  assert (alike (stored "a" "p") (stored "b" "quite another")) as Ha.
  { vm_compute. repeat split; try (by left); try reflexivity.
    intros Hin. apply list_elem_of_In in Hin. cbn in Hin. by destruct Hin as [|[|]]. }
  split; [exact Ha|]. exact (redaction_hides _ _ Ha).
Defined.

(** The text of an object stored under "url" is shown, the secrets inside it
    included. *)
Example url_object_leaks :
  sanitizeResponseValue (mk_obj [("url", mk_obj [("password", JStr "hunter2")])]) =
  Some (mk_obj [("url", JStr (any_text (mk_obj [("password", JStr "hunter2")])))]).
Proof. vm_compute. reflexivity. Qed.

(** A header named like the list of redacted headers makes the redaction of a
    later sensitive header panic. *)
Example header_name_panics :
  sanitizeResponseValue (mk_obj [("headers", mk_obj [("sensitive_fields_redacted", JStr ""); ("Authorization", JStr "x")])]) = None.
Proof. vm_compute. reflexivity. Qed.

(** What is redacted twice shows the digest of the first redaction. *)
Example redacted_again :
  let once := sanitizeResponseValue (mk_obj [("token", JStr "t")]) in bool_decide (any_text <$> (once ≫= sanitizeResponseValue) = any_text <$> once) = false.
Proof. vm_compute. reflexivity. Qed.
End RedactionExample.
