(* ===== verification/TargetPolicy.v ===== *)
(** * Where a webhook may point

    api/action_target_url_policy.go, with what it uses of package net: the
    parser of address literals and the address classes.  An address is the list
    of its bytes, 4 or 16 of them.  The system resolver is a parameter. *)

From S2P Require Import Prelude GoStrings Json Ext TaskDef.
Open Scope Z_scope.

(** [net.IP]. *)
Abbreviation ip := (list Z).

(** [net.LookupIP]: [None] is an error. *)
Class Resolver := LookupIP : string → option (list ip).

(** ** package net *)

(** One decimal field of an IPv4 literal. *)
Definition ipv4_field (s : string) : option Z :=
  if (slen s =? 0)%nat || (3 <? slen s)%nat then None
  else if (1 <? slen s)%nat && HasPrefix s "0" then None
  else z ← digits_value 0 s; if z <=? 255 then Some z else None.

Definition ParseIPv4 (s : string) : option (list Z) :=
  match Split s "." with
  | [a; b; c; d] => a ← ipv4_field a; b ← ipv4_field b; c ← ipv4_field c; d ← ipv4_field d; Some [a; b; c; d]
  | _ => None
  end.

(** The hexadecimal digits a text starts with, and the rest. *)
Fixpoint span_hex (s : string) : list Z * string :=
  match s with
  | String a s' =>
    match hex_val a with
    | Some d => let '(ds, r) := span_hex s' in (d :: ds, r)
    | None => ([], s)
    end
  | "" => ([], "")
  end.

(** The fields of an IPv6 literal: the bytes so far, and their number when the
    ellipsis was met.  At most eight fields are read. *)
Fixpoint ipv6_fields (n : nat) (bytes : list Z) (ellipsis : option nat) (s : string) : option (list Z * option nat) :=
  match n with
  | O => None (* trailing garbage *)
  | S n =>
    let '(ds, r) := span_hex s in
    if (length ds =? 0)%nat || (4 <? length ds)%nat then None
    else if HasPrefix r "." then
      if (bool_decide (ellipsis = None) && negb (length bytes =? 12)%nat) || (16 <? length bytes + 4)%nat then None
      else v4 ← ParseIPv4 s; Some (bytes ++ v4, ellipsis)
    else
      let acc := foldl (λ acc d, acc * 16 + d) 0 ds in
      let bytes := bytes ++ [acc / 256; acc mod 256] in
      match r with
      | "" => Some (bytes, ellipsis)
      | String ":" r =>
        match r with
        | "" => None
        | String ":" r =>
          if bool_decide (ellipsis = None) then
            if nonempty r then ipv6_fields n bytes (Some (length bytes)) r else Some (bytes, Some (length bytes))
          else None
        | _ => ipv6_fields n bytes ellipsis r
        end
      | _ => None
      end
  end.

(** The zeros an ellipsis stands for. *)
Definition ipv6_expand (x : list Z * option nat) : option ip :=
  let '(bytes, ellipsis) := x in
  match ellipsis with
  | None => if (length bytes =? 16)%nat then Some bytes else None
  | Some e => if (length bytes <? 16)%nat then Some (take e bytes ++ repeat 0 (16 - length bytes) ++ drop e bytes) else None
  end.

Definition ParseIPv6 (s : string) : option ip :=
  if HasPrefix s "::" then
    let r := drop_str 2 s in
    if nonempty r then ipv6_fields 8 [] (Some 0%nat) r ≫= ipv6_expand else Some (repeat 0 16)
  else ipv6_fields 8 [] None s ≫= ipv6_expand.

(** The sixteen bytes of an IPv4 address. *)
Definition v4_mapped (v4 : list Z) : ip := repeat 0 10 ++ [255; 255] ++ v4.

(** What the first separator of a literal is decides how it is read; one with a
    zone is refused. *)
Fixpoint first_separator (s : string) : option ascii :=
  match s with
  | "" => None
  | String a s => if bool_decide (a ∈ ["."; ":"; "%"]%char) then Some a else first_separator s
  end.

Definition ParseIP (s : string) : option ip :=
  match first_separator s with
  | Some "."%char => v4_mapped <$> ParseIPv4 s
  | Some ":"%char => if Contains s "%" then None else ParseIPv6 s
  | _ => None
  end.

Definition To4 (x : ip) : option (list Z) :=
  if (length x =? 4)%nat then Some x
  else if (length x =? 16)%nat && bool_decide (take 12 x = repeat 0 10 ++ [255; 255]) then Some (drop 12 x)
  else None.

Definition byte (i : nat) (x : ip) : Z := nth i x 0.

Definition ip_Equal (x y : ip) : bool :=
  match To4 x, To4 y with
  | Some a, Some b => bool_decide (a = b)
  | None, None => bool_decide (x = y)
  | _, _ => false
  end.

Definition IsUnspecified (x : ip) : bool := ip_Equal x (v4_mapped [0; 0; 0; 0]) || ip_Equal x (repeat 0 16).
Definition IsLoopback (x : ip) : bool :=
  match To4 x with Some v4 => byte 0 v4 =? 127 | None => ip_Equal x (repeat 0 15 ++ [1]) end.
Definition IsPrivate (x : ip) : bool :=
  match To4 x with
  | Some v4 => (byte 0 v4 =? 10) || ((byte 0 v4 =? 172) && (Z.land (byte 1 v4) 0xf0 =? 16)) ||
               ((byte 0 v4 =? 192) && (byte 1 v4 =? 168))
  | None => (length x =? 16)%nat && (Z.land (byte 0 x) 0xfe =? 0xfc)
  end.
Definition IsMulticast (x : ip) : bool :=
  match To4 x with
  | Some v4 => Z.land (byte 0 v4) 0xf0 =? 0xe0
  | None => (length x =? 16)%nat && (byte 0 x =? 0xff)
  end.
Definition IsInterfaceLocalMulticast (x : ip) : bool :=
  (length x =? 16)%nat && (byte 0 x =? 0xff) && (Z.land (byte 1 x) 0x0f =? 1).
Definition IsLinkLocalMulticast (x : ip) : bool :=
  match To4 x with
  | Some v4 => (byte 0 v4 =? 224) && (byte 1 v4 =? 0) && (byte 2 v4 =? 0)
  | None => (length x =? 16)%nat && (byte 0 x =? 0xff) && (Z.land (byte 1 x) 0x0f =? 2)
  end.
Definition IsLinkLocalUnicast (x : ip) : bool :=
  match To4 x with
  | Some v4 => (byte 0 v4 =? 169) && (byte 1 v4 =? 254)
  | None => (length x =? 16)%nat && (byte 0 x =? 0xfe) && (Z.land (byte 1 x) 0xc0 =? 0x80)
  end.

(** ** The policy *)

Inductive ActionTargetURLClass := ActionTargetURLLoopbackHTTP | ActionTargetURLExternalHTTPS.

#[export] Instance ActionTargetURLClass_eq_dec : EqDecision ActionTargetURLClass.
Proof. solve_decision. Defined.

Definition isDeniedDestinationIP (x : ip) : bool :=
  IsLoopback x || IsPrivate x || IsLinkLocalUnicast x || IsLinkLocalMulticast x || IsMulticast x || IsUnspecified x ||
  IsInterfaceLocalMulticast x ||
  match To4 x with
  | Some v4 =>
    ((byte 0 v4 =? 100) && (64 <=? byte 1 v4) && (byte 1 v4 <=? 127)) ||
    (byte 0 v4 =? 0) ||
    ((byte 0 v4 =? 192) && (byte 1 v4 =? 0) && (byte 2 v4 =? 0)) ||
    ((byte 0 v4 =? 192) && (byte 1 v4 =? 0) && (byte 2 v4 =? 2)) ||
    ((byte 0 v4 =? 198) && (byte 1 v4 =? 51) && (byte 2 v4 =? 100)) ||
    ((byte 0 v4 =? 203) && (byte 1 v4 =? 0) && (byte 2 v4 =? 113)) ||
    ((byte 0 v4 =? 198) && ((byte 1 v4 =? 18) || (byte 1 v4 =? 19)))
  | None =>
    (length x =? 16)%nat &&
    ((Z.land (byte 0 x) 0xfe =? 0xfc) ||
     ((byte 0 x =? 0x20) && (byte 1 x =? 0x01) && (byte 2 x =? 0x0d) && (byte 3 x =? 0xb8)))
  end.

(** [ip.String()] only occurs in messages, which are kept without it. *)
Definition classifyIP (x : ip) (requireLoopback : bool) : res () :=
  let x := default x (To4 x) in
  if requireLoopback then
    if negb (IsLoopback x) then Err (Errorf "loopback target resolved to non-loopback address") else Ok tt
  else if isDeniedDestinationIP x then Err (Errorf "target resolves to denied address") else Ok tt.

Definition isLoopbackHostname (host : string) : bool :=
  bool_decide (ToLower (TrimSpace host) ∈ ["127.0.0.1"; "localhost"; "::1"]).

Record parsedActionTargetURL := mkTargetURL { pt_host : string; pt_class : ActionTargetURLClass }.

Section Policy.
Context `{Ext}.

Definition parseActionTargetURL (raw : string) : res parsedActionTargetURL :=
  let trimmed := TrimSpace raw in
  if negb (nonempty trimmed) then Err (Errorf "target URL is required")
  else match url_Parse trimmed with
  | None => Err (Errorf "invalid target URL")
  | Some parsed =>
    if url_has_User parsed then Err (Errorf "target URL must not embed credentials")
    else
      let scheme := ToLower (url_Scheme parsed) in
      let host := ToLower (TrimSpace (url_Hostname parsed)) in
      if negb (nonempty host) then Err (Errorf "target URL host is required")
      else if bool_decide (scheme = "http") then
        if negb (isLoopbackHostname host)
        then Err (Errorf "http targets are limited to loopback hosts (127.0.0.1, localhost, ::1)")
        else Ok (mkTargetURL host ActionTargetURLLoopbackHTTP)
      else if bool_decide (scheme = "https") then
        if isLoopbackHostname host
        then Err (Errorf "https targets must not use loopback hosts; use http://127.0.0.1 for local development")
        else Ok (mkTargetURL host ActionTargetURLExternalHTTPS)
      else Err (Errorf ("unsupported target URL scheme " +:+ strconv_Quote scheme))
  end.

Definition require_loopback (pt : parsedActionTargetURL) : bool := bool_decide (pt_class pt = ActionTargetURLLoopbackHTTP).

Definition ValidateActionTargetURLSyntax (raw : string) : res ActionTargetURLClass :=
  pt ← parseActionTargetURL raw;
  match ParseIP (pt_host pt) with
  | Some x => classifyIP x (require_loopback pt) ≫= λ _, Ok (pt_class pt)
  | None => Ok (pt_class pt)
  end.

Context `{Resolver}.

Definition validateResolvedAddresses (host : string) (requireLoopback : bool) : res () :=
  match ParseIP host with
  | Some x => classifyIP x requireLoopback
  | None =>
    match LookupIP host with
    | None => Err (Errorf ("failed to resolve target host " +:+ strconv_Quote host))
    | Some [] =>
      Err (Errorf ("failed to resolve target host " +:+ strconv_Quote host +:+ ": no addresses for host " +:+ strconv_Quote host))
    | Some ips => res_forM (λ x, classifyIP x requireLoopback) ips
    end
  end.

Definition ValidateActionTargetURL (raw : string) : res ActionTargetURLClass :=
  pt ← parseActionTargetURL raw;
  validateResolvedAddresses (pt_host pt) (require_loopback pt) ≫= λ _, Ok (pt_class pt).

Definition IsAllowedActionTargetURL (raw : string) : bool := is_ok (ValidateActionTargetURL raw).

Definition isLoopbackHTTPURL (raw : string) : bool :=
  match url_Parse (TrimSpace raw) with
  | Some parsed => bool_decide (url_Scheme parsed = "http") && isLoopbackHostname (url_Hostname parsed)
  | None => false
  end.
End Policy.
