(* ===== verification/TargetPolicyFacts.v ===== *)
(** * The destination policy, by address blocks

    The reference is a table of CIDR blocks: an address is a number, a block is
    the interval of the numbers that share its prefix. *)

From S2P Require Import Prelude GoStrings Json JsonFacts Ext TargetPolicy.
Open Scope Z_scope.

(** The number a list of bytes spells. *)
Definition num (x : list Z) : Z := foldl (λ acc b, acc * 256 + b) 0 x.

(** A block: the address it starts at and the length of its prefix. *)
Definition in_block (bits n : Z) (b : list Z * Z) : bool :=
  (num b.1 <=? n) && (n <? num b.1 + 2 ^ (bits - b.2)).

Definition loopback4 : list Z * Z := ([127; 0; 0; 0], 8).
Definition loopback6 : list Z * Z := (repeat 0 15 ++ [1], 128).

(** The blocks no public destination is in. *)
Definition denied4 : list (list Z * Z) :=
  [([0; 0; 0; 0], 8); ([10; 0; 0; 0], 8); ([100; 64; 0; 0], 10); loopback4; ([169; 254; 0; 0], 16); ([172; 16; 0; 0], 12);
   ([192; 0; 0; 0], 24); ([192; 0; 2; 0], 24); ([192; 168; 0; 0], 16); ([198; 18; 0; 0], 15); ([198; 51; 100; 0], 24);
   ([203; 0; 113; 0], 24); ([224; 0; 0; 0], 4)].
Definition denied6 : list (list Z * Z) :=
  [(repeat 0 16, 128); loopback6; (0xfc :: repeat 0 15, 7); (0xfe :: 0x80 :: repeat 0 14, 10); (0xff :: repeat 0 15, 8);
   (0x20 :: 0x01 :: 0x0d :: 0xb8 :: repeat 0 12, 32)].

Definition loopback_address (x : ip) : bool :=
  match To4 x with Some v4 => in_block 32 (num v4) loopback4 | None => in_block 128 (num x) loopback6 end.
Definition public_address (x : ip) : bool :=
  match To4 x with
  | Some v4 => negb (existsb (in_block 32 (num v4)) denied4)
  | None => negb (existsb (in_block 128 (num x)) denied6)
  end.

Definition is_ip (x : ip) : Prop := (length x = 4%nat ∨ length x = 16%nat) ∧ Forall (λ b, 0 ≤ b < 256) x.

(** ** Arithmetic of bytes *)

Lemma byte_check (P : Z → bool) : forallb P (seqZ 0 256) = true → ∀ b, 0 ≤ b < 256 → P b = true.
Proof. rewrite forallb_forall. intros HP b Hb. apply HP. apply list_elem_of_In, elem_of_seqZ. lia. Qed.

Lemma mask_range m lo hi : forallb (λ b, Bool.eqb (Z.land b m =? lo) ((lo <=? b) && (b <? hi))) (seqZ 0 256) = true →
  ∀ b, 0 ≤ b < 256 → (Z.land b m =? lo) = (lo <=? b) && (b <? hi).
Proof. intros Hc b Hb. apply eqb_prop. by apply (byte_check (λ b, Bool.eqb (Z.land b m =? lo) ((lo <=? b) && (b <? hi)))). Qed.

Definition mask_f0_16 := mask_range 0xf0 16 32 eq_refl.
Definition mask_f0_e0 := mask_range 0xf0 0xe0 0xf0 eq_refl.
Definition mask_fe_fc := mask_range 0xfe 0xfc 0xfe eq_refl.
Definition mask_c0_80 := mask_range 0xc0 0x80 0xc0 eq_refl.

Lemma num_cons b x : num (b :: x) = b * 256 ^ Z.of_nat (length x) + num x.
Proof.
  assert (∀ x acc, foldl (λ acc b, acc * 256 + b) acc x = acc * 256 ^ Z.of_nat (length x) + num x) as Hf.
  { clear. induction x as [|b x IH]; intros acc; [cbn; lia|]. unfold num. cbn [foldl length]. rewrite !IH, Nat2Z.inj_succ, Z.pow_succ_r by lia. lia. }
  unfold num at 1. cbn [foldl]. by rewrite Hf.
Qed.

Lemma num_bound x : Forall (λ b, 0 ≤ b < 256) x → 0 ≤ num x < 256 ^ Z.of_nat (length x).
Proof.
  induction 1 as [|b x Hb Hx IH]; [cbn; lia|]. rewrite num_cons. cbn [length]. rewrite Nat2Z.inj_succ, Z.pow_succ_r by lia. nia.
Qed.

Lemma bool_eq_iff (a b : bool) : (a = true ↔ b = true) → a = b.
Proof. destruct a, b; naive_solver. Qed.

Section V4.
Context (a b c d : Z) (Ha : 0 ≤ a < 256) (Hb : 0 ≤ b < 256) (Hc : 0 ≤ c < 256) (Hd : 0 ≤ d < 256).
Abbreviation n := (num [a; b; c; d]).

Ltac block := unfold in_block; cbn [num foldl fst snd Z.sub Z.opp Z.add Z.pos_sub Pos.sub Pos.sub_mask Z.pow Z.pow_pos Pos.iter Z.mul Pos.mul Z.succ_double Z.double Z.pred_double];
  apply bool_eq_iff; rewrite ?andb_true_iff, ?orb_true_iff, ?Z.eqb_eq, ?Z.leb_le, ?Z.ltb_lt; lia.

Lemma block8 k : in_block 32 n ([k; 0; 0; 0], 8) = (a =? k).
Proof using Ha Hb Hc Hd. block. Qed.
Lemma block16 k j : 0 ≤ j < 256 → in_block 32 n ([k; j; 0; 0], 16) = (a =? k) && (b =? j).
Proof using Ha Hb Hc Hd. intros Hj. block. Qed.
Lemma block24 k j i : 0 ≤ j < 256 → 0 ≤ i < 256 → in_block 32 n ([k; j; i; 0], 24) = (a =? k) && (b =? j) && (c =? i).
Proof using Ha Hb Hc Hd. intros Hj Hi. block. Qed.
Lemma block10 k : in_block 32 n ([k; 64; 0; 0], 10) = (a =? k) && (64 <=? b) && (b <=? 127).
Proof using Ha Hb Hc Hd. block. Qed.
Lemma block12 k : in_block 32 n ([k; 16; 0; 0], 12) = (a =? k) && ((16 <=? b) && (b <? 32)).
Proof using Ha Hb Hc Hd. block. Qed.
Lemma block15 k : in_block 32 n ([k; 18; 0; 0], 15) = (a =? k) && ((b =? 18) || (b =? 19)).
Proof using Ha Hb Hc Hd. block. Qed.
Lemma block4 : in_block 32 n ([224; 0; 0; 0], 4) = (224 <=? a) && (a <? 240).
Proof using Ha Hb Hc Hd. block. Qed.

Lemma denied_blocks4 : isDeniedDestinationIP [a; b; c; d] = existsb (in_block 32 n) denied4.
Proof using Ha Hb Hc Hd.
  unfold isDeniedDestinationIP, IsLoopback, IsPrivate, IsMulticast, IsLinkLocalUnicast, IsLinkLocalMulticast,
    IsInterfaceLocalMulticast, IsUnspecified, ip_Equal.
  cbn [To4 length Nat.eqb byte nth andb]. rewrite mask_f0_16, mask_f0_e0 by done.
  change (To4 (v4_mapped [0; 0; 0; 0])) with (Some [0; 0; 0; 0]). change (To4 (repeat 0 16)) with (@None (list Z)).
  unfold denied4, loopback4. cbn [existsb].
  rewrite !block8, block10, block12, block15, block4, !block16, !block24 by lia.
  assert (((a =? 224) && (b =? 0) && (c =? 0)) = true → ((224 <=? a) && (a <? 240)) = true) as Hm.
  { rewrite !andb_true_iff, !Z.eqb_eq, Z.leb_le, Z.ltb_lt. lia. }
  assert (bool_decide ([a; b; c; d] = [0; 0; 0; 0]) = true → (a =? 0) = true) as Hz.
  { intros H0%bool_decide_eq_true. by simplify_eq. }
  apply bool_eq_iff; split; intros Hcase; repeat (apply orb_true_iff in Hcase as [Hcase|Hcase]);
    first [done | rewrite Hcase, ?orb_true_r; reflexivity | rewrite (Hm Hcase), ?orb_true_r; reflexivity
          | rewrite (Hz Hcase), ?orb_true_r; reflexivity].
Qed.
End V4.

Section V6.
Context (x : ip) (Hlen : length x = 16%nat) (Hx : Forall (λ b, 0 ≤ b < 256) x) (H4 : To4 x = None).

(** The first four bytes and the rest. *)
Lemma num_split : ∃ lo, num x = ((byte 0 x * 256 + byte 1 x) * 65536 + byte 2 x * 256 + byte 3 x) * 2 ^ 96 + lo ∧ 0 ≤ lo < 2 ^ 96 ∧
  0 ≤ byte 0 x < 256 ∧ 0 ≤ byte 1 x < 256 ∧ 0 ≤ byte 2 x < 256 ∧ 0 ≤ byte 3 x < 256.
Proof using Hlen Hx.
  clear H4. destruct x as [|b0 [|b1 [|b2 [|b3 r]]]]; try done. cbn [byte nth]. rewrite !Forall_cons in Hx. destruct Hx as (? & ? & ? & ? & Hr).
  exists (num r). pose proof (num_bound r Hr) as Hlo. cbn [length] in Hlen. injection Hlen as Hl. rewrite !num_cons. cbn [length]. rewrite Hl in *.
  change (256 ^ Z.of_nat 12) with (2 ^ 96) in *. change (256 ^ Z.of_nat (S (S (S 12)))) with (2 ^ 120).
  change (256 ^ Z.of_nat (S (S 12))) with (2 ^ 112). change (256 ^ Z.of_nat (S 12)) with (2 ^ 104). split_and!; lia.
Qed.

Lemma num_inj y z : length y = length z → Forall (λ b, 0 ≤ b < 256) y → Forall (λ b, 0 ≤ b < 256) z → num y = num z → y = z.
Proof.
  revert z. induction y as [|b y IH]; intros [|c z] Hl Hy Hz Hn; try done. cbn [length] in Hl. injection Hl as Hl.
  apply Forall_cons in Hy as [Hb Hy]. apply Forall_cons in Hz as [Hc Hz]. rewrite !num_cons, Hl in Hn.
  pose proof (num_bound y Hy) as B1. pose proof (num_bound z Hz) as B2. rewrite Hl in B1.
  assert (b = c) as -> by nia. f_equal. apply IH; try done. lia.
Qed.

Lemma block128 y : length y = 16%nat → Forall (λ b, 0 ≤ b < 256) y → in_block 128 (num x) (y, 128) = bool_decide (x = y).
Proof using Hlen Hx.
  clear H4. intros Hl Hy. unfold in_block. cbn [fst snd]. change (2 ^ (128 - 128)) with 1. apply bool_eq_iff.
  rewrite andb_true_iff, Z.leb_le, Z.ltb_lt, bool_decide_eq_true. split.
  - intros Hn. apply num_inj; [by rewrite Hlen|done..|lia].
  - intros ->. lia.
Qed.

Lemma denied_blocks6 : isDeniedDestinationIP x = existsb (in_block 128 (num x)) denied6.
Proof using Hlen Hx H4.
  unfold isDeniedDestinationIP, IsLoopback, IsPrivate, IsMulticast, IsLinkLocalUnicast, IsLinkLocalMulticast,
    IsInterfaceLocalMulticast, IsUnspecified, ip_Equal.
  rewrite H4, Hlen. change (To4 (v4_mapped [0; 0; 0; 0])) with (Some [0; 0; 0; 0]).
  change (To4 (repeat 0 16)) with (@None (list Z)). change (To4 (repeat 0 15 ++ [1])) with (@None (list Z)).
  change (16 =? 16)%nat with true. cbn [andb orb].
  destruct num_split as (lo & Hn & Hlo & H0 & H1 & H2 & H3). rewrite mask_fe_fc, mask_c0_80 by done.
  unfold denied6, loopback6. cbn [existsb]. rewrite !block128 by (reflexivity || (repeat constructor; lia)).
  assert (∀ m, in_block 128 (num x) (m :: repeat 0 15, 8) = (byte 0 x =? m)) as ->.
  { intros m. unfold in_block. cbn [fst snd]. rewrite num_cons, Hn. change (num (repeat 0 15)) with 0. change (length (repeat 0 15)) with 15%nat.
    change (256 ^ Z.of_nat 15) with (2 ^ 120). change (128 - 8) with 120. apply bool_eq_iff.
    rewrite andb_true_iff, Z.leb_le, Z.ltb_lt, Z.eqb_eq. lia. }
  assert (in_block 128 (num x) (0xfc :: repeat 0 15, 7) = (0xfc <=? byte 0 x) && (byte 0 x <? 0xfe)) as ->.
  { unfold in_block. cbn [fst snd]. rewrite Hn. change (num (0xfc :: repeat 0 15)) with (0xfc * 2 ^ 120). change (128 - 7) with 121.
    apply bool_eq_iff. rewrite !andb_true_iff, !Z.leb_le, !Z.ltb_lt. lia. }
  assert (in_block 128 (num x) (0xfe :: 0x80 :: repeat 0 14, 10) = (byte 0 x =? 0xfe) && ((0x80 <=? byte 1 x) && (byte 1 x <? 0xc0))) as ->.
  { unfold in_block. cbn [fst snd]. rewrite Hn. change (num (0xfe :: 0x80 :: repeat 0 14)) with (0xfe80 * 2 ^ 112). change (128 - 10) with 118.
    apply bool_eq_iff. rewrite !andb_true_iff, !Z.leb_le, !Z.ltb_lt, !Z.eqb_eq. lia. }
  assert (in_block 128 (num x) (0x20 :: 0x01 :: 0x0d :: 0xb8 :: repeat 0 12, 32) =
          (byte 0 x =? 0x20) && (byte 1 x =? 0x01) && (byte 2 x =? 0x0d) && (byte 3 x =? 0xb8)) as ->.
  { unfold in_block. cbn [fst snd]. rewrite Hn. change (num (0x20 :: 0x01 :: 0x0d :: 0xb8 :: repeat 0 12)) with (0x20010db8 * 2 ^ 96).
    change (128 - 32) with 96. apply bool_eq_iff. rewrite !andb_true_iff, !Z.leb_le, !Z.ltb_lt, !Z.eqb_eq. lia. }
  apply bool_eq_iff; split; intros Hcase; repeat (apply orb_true_iff in Hcase as [Hcase|Hcase]);
    first [done | rewrite Hcase, ?orb_true_r; reflexivity
          | do 2 (apply andb_true_iff in Hcase as [Hcase _]); rewrite Hcase, ?orb_true_r; reflexivity
          | apply andb_true_iff in Hcase as [Hcase _]; rewrite Hcase, ?orb_true_r; reflexivity].
Qed.
End V6.

Lemma To4_bytes x v4 : is_ip x → To4 x = Some v4 → length v4 = 4%nat ∧ Forall (λ b, 0 ≤ b < 256) v4.
Proof.
  intros [Hlen Hx] H4. unfold To4 in H4. destruct (length x =? 4)%nat eqn:Hl; [apply Nat.eqb_eq in Hl; by simplify_eq|].
  destruct (length x =? 16)%nat eqn:Hl'; [|done]. cbn [andb] in H4. case_bool_decide; [|done]. simplify_eq.
  apply Nat.eqb_eq in Hl'. rewrite length_drop. split; [lia|by apply Forall_drop].
Qed.

(** The tests on bytes are the table of blocks. *)
Lemma denied_exact x : is_ip x → isDeniedDestinationIP (default x (To4 x)) = negb (public_address x).
Proof.
  intros [Hlen Hx]. unfold public_address. destruct (To4 x) as [v4|] eqn:H4; cbn [default]; rewrite negb_involutive.
  - destruct (To4_bytes x v4 (conj Hlen Hx) H4) as [Hl Hv].
    destruct v4 as [|a [|b [|c [|d [|]]]]]; try done. rewrite !Forall_cons in Hv. destruct Hv as (? & ? & ? & ? & _).
    by apply denied_blocks4.
  - apply denied_blocks6; [|done|done]. destruct Hlen as [Hlen|Hlen]; [|done]. unfold To4 in H4. by rewrite Hlen in H4.
Qed.

Lemma loopback_exact x : is_ip x → IsLoopback (default x (To4 x)) = loopback_address x.
Proof.
  intros [Hlen Hx]. unfold loopback_address. destruct (To4 x) as [v4|] eqn:H4; cbn [default].
  - destruct (To4_bytes x v4 (conj Hlen Hx) H4) as [Hl Hv].
    destruct v4 as [|a [|b [|c [|d [|]]]]]; try done. rewrite !Forall_cons in Hv. destruct Hv as (? & ? & ? & ? & _).
    unfold IsLoopback. cbn [To4 length Nat.eqb byte nth]. symmetry. by apply block8.
  - destruct Hlen as [Hlen|Hlen]; [unfold To4 in H4; by rewrite Hlen in H4|]. unfold IsLoopback, ip_Equal. rewrite H4.
    change (To4 (repeat 0 15 ++ [1])) with (@None (list Z)). symmetry. apply block128; [done..| |]; [reflexivity|repeat constructor; lia].
Qed.

Lemma classify_exact x loopback : is_ip x →
  classifyIP x loopback = Ok tt ↔ (if loopback then loopback_address x else public_address x) = true.
Proof.
  intros Hx. unfold classifyIP. rewrite (loopback_exact x Hx), (denied_exact x Hx).
  destruct loopback; [destruct (loopback_address x)|destruct (public_address x)]; cbn; done.
Qed.

(** ** Literals *)

Lemma digits_value_nonneg acc s z : 0 ≤ acc → digits_value acc s = Some z → 0 ≤ z.
Proof.
  revert acc. induction s as [|a s IH]; intros acc Ha; cbn [digits_value]; [by intros [= <-]|].
  destruct (is_digit a) eqn:Hd; [|done]. apply IH. unfold is_digit in Hd. apply in_range_true in Hd. lia.
Qed.

Lemma ipv4_field_byte s z : ipv4_field s = Some z → 0 ≤ z < 256.
Proof.
  unfold ipv4_field. destruct (_ || _); [done|]. destruct (_ && _); [done|]. destruct (digits_value 0 s) as [y|] eqn:Hy; [cbn|done].
  destruct (y <=? 255) eqn:Hle; [|done]. intros [= <-]. apply Z.leb_le in Hle. apply digits_value_nonneg in Hy; lia.
Qed.

Lemma ParseIPv4_bytes s v4 : ParseIPv4 s = Some v4 → length v4 = 4%nat ∧ Forall (λ b, 0 ≤ b < 256) v4.
Proof.
  unfold ParseIPv4. destruct (Split s ".") as [|a [|b [|c [|d [|]]]]]; try done.
  destruct (ipv4_field a) eqn:Ha; [cbn|done]. destruct (ipv4_field b) eqn:Hb; [cbn|done]. destruct (ipv4_field c) eqn:Hc; [cbn|done].
  destruct (ipv4_field d) eqn:Hd; [cbn|done]. intros [= <-]. split; [done|]. repeat constructor; (eapply proj1, ipv4_field_byte; done) || (eapply proj2, ipv4_field_byte; done).
Qed.

Lemma hex_val_range a d : hex_val a = Some d → 0 ≤ d < 16.
Proof.
  unfold hex_val. destruct (in_range 48 57 _) eqn:H1; [intros [= <-]; apply in_range_true in H1; lia|].
  destruct (in_range 97 102 _) eqn:H2; [intros [= <-]; apply in_range_true in H2; lia|].
  destruct (in_range 65 70 _) eqn:H3; [intros [= <-]; apply in_range_true in H3; lia|done].
Qed.

Lemma span_hex_digits s : Forall (λ d, 0 ≤ d < 16) (span_hex s).1.
Proof.
  induction s as [|a s IH]; [constructor|]. cbn [span_hex]. destruct (hex_val a) as [d|] eqn:Hd; [|constructor].
  destruct (span_hex s). constructor; [by eapply hex_val_range|done].
Qed.

Lemma hex_field ds : Forall (λ d, 0 ≤ d < 16) ds → (length ds ≤ 4)%nat → 0 ≤ foldl (λ acc d, acc * 16 + d) 0 ds < 65536.
Proof.
  intros Hd Hl. destruct ds as [|a [|b [|c [|d [|]]]]]; cbn [length] in Hl; try lia; rewrite ?Forall_cons in Hd; cbn [foldl]; lia.
Qed.

Lemma ipv6_fields_bytes n bytes e s x : Forall (λ b, 0 ≤ b < 256) bytes → ipv6_fields n bytes e s = Some x → Forall (λ b, 0 ≤ b < 256) x.1.
Proof.
  revert bytes e s. induction n as [|n IH]; intros bytes e s Hb; [done|]. cbn [ipv6_fields]. pose proof (span_hex_digits s) as Hs.
  destruct (span_hex s) as [ds r]. cbn [fst] in Hs. destruct (_ || _) eqn:Hl; [done|]. apply orb_false_iff in Hl as [_ Hl]. apply Nat.ltb_ge in Hl.
  destruct (HasPrefix r ".").
  { destruct (_ || _); [done|]. destruct (ParseIPv4 s) as [v4|] eqn:H4; [cbn|done]. intros [= <-]. cbn. apply Forall_app. split; [done|].
    by eapply ParseIPv4_bytes. }
  pose proof (hex_field ds Hs Hl) as Hv. set (acc := foldl _ 0 ds) in *.
  assert (Forall (λ b, 0 ≤ b < 256) (bytes ++ [acc / 256; acc mod 256])) as Hb'.
  { apply Forall_app. split; [done|]. repeat constructor; try (apply Z.mod_pos_bound; lia); [apply Z.div_pos; lia|apply Z.div_lt_upper_bound; lia]. }
  intros Hx. repeat (case_match; simplify_eq; try done); first [exact Hb' | by eapply IH | by eapply IH].
Qed.

Lemma ParseIP_is_ip s x : ParseIP s = Some x → is_ip x.
Proof.
  unfold ParseIP. destruct (first_separator s) as [c|]; [|done].
  assert (ParseIPv6 s = Some x → is_ip x) as H6.
  { unfold ParseIPv6. assert (∀ e r, ipv6_fields 8 [] e r ≫= ipv6_expand = Some x → is_ip x) as Hf.
    { intros e r. destruct (ipv6_fields 8 [] e r) as [[bytes e']|] eqn:Hr; [cbn [mbind option_bind ipv6_expand]|done].
      apply ipv6_fields_bytes in Hr as Hb; [cbn [fst] in Hb|constructor]. destruct e' as [k|].
      - destruct (_ <? _)%nat eqn:Hl; [|done]. apply Nat.ltb_lt in Hl. intros [= <-]. split.
        + right. rewrite !length_app, repeat_length, length_take, length_drop. lia.
        + rewrite !Forall_app. split_and!; [by apply Forall_take| |by apply Forall_drop]. apply List.Forall_forall. intros b Hin%repeat_spec. lia.
      - destruct (_ =? _)%nat eqn:Hl; [|done]. apply Nat.eqb_eq in Hl. intros [= <-]. split; [by right|done]. }
    destruct (HasPrefix s "::"); [|by apply Hf]. destruct (nonempty _); [by apply Hf|]. intros [= <-]. split; [by right|].
    repeat constructor; lia. }
  assert (v4_mapped <$> ParseIPv4 s = Some x → is_ip x) as H4.
  { destruct (ParseIPv4 s) as [v4|] eqn:Hv; [|done]. cbn. intros [= <-]. apply ParseIPv4_bytes in Hv as [Hl Hv]. split.
    - right. cbn. by rewrite Hl.
    - unfold v4_mapped. cbn. repeat (constructor; [lia|]). done. }
  repeat (case_match; try done); auto.
Qed.

(** ** The policy *)

(** The resolver returns addresses. *)
Class ResolverLaws `{Resolver} : Prop := lookup_ips host ips : LookupIP host = Some ips → Forall is_ip ips.

Section Policy.
Context `{Ext} `{Resolver}.

(** The addresses behind a host: itself when it is a literal. *)
Definition addresses (host : string) : option (list ip) :=
  match ParseIP host with Some x => Some [x] | None => LookupIP host end.

(** What the policy's two classes allow. *)
Definition target_allowed (raw : string) (class : ActionTargetURLClass) : Prop :=
  ∃ u ips, TrimSpace raw ≠ "" ∧ url_Parse (TrimSpace raw) = Some u ∧ url_has_User u = false ∧
    let host := ToLower (TrimSpace (url_Hostname u)) in
    host ≠ "" ∧ addresses host = Some ips ∧ ips ≠ [] ∧
    match class with
    | ActionTargetURLLoopbackHTTP =>
      ToLower (url_Scheme u) = "http" ∧ isLoopbackHostname host = true ∧ Forall (λ x, loopback_address x = true) ips
    | ActionTargetURLExternalHTTPS =>
      ToLower (url_Scheme u) = "https" ∧ isLoopbackHostname host = false ∧ Forall (λ x, public_address x = true) ips
    end.

Lemma resolved_exact `{!ResolverLaws} host loopback : validateResolvedAddresses host loopback = Ok tt ↔
  ∃ ips, addresses host = Some ips ∧ ips ≠ [] ∧ Forall (λ x, (if loopback then loopback_address x else public_address x) = true) ips.
Proof.
  unfold validateResolvedAddresses, addresses. destruct (ParseIP host) as [x|] eqn:Hx.
  - rewrite classify_exact by (by eapply ParseIP_is_ip). split; [intros Hc; eexists; split_and!; [done|done|by repeat constructor]|].
    intros (ips & [= <-] & _ & Hc). inversion Hc; subst; assumption.
  - destruct (LookupIP host) as [ips|] eqn:Hips; [|split; [done|]; by intros (? & ? & _)].
    assert (Forall is_ip ips) as Hwf by (by eapply lookup_ips). destruct ips as [|x ips]; [split; [done|]; intros (l & [= <-] & Hne & _); done|].
    rewrite res_forM_ok. split.
    + intros Hc. exists (x :: ips). split_and!; [done|done|]. rewrite Forall_forall in *. intros y Hy. apply classify_exact; auto.
    + intros (l & [= <-] & _ & Hc). rewrite Forall_forall in *. intros y Hy. apply classify_exact; auto.
Qed.

Lemma parse_target_exact raw pt : parseActionTargetURL raw = Ok pt ↔
  ∃ u, TrimSpace raw ≠ "" ∧ url_Parse (TrimSpace raw) = Some u ∧ url_has_User u = false ∧
    pt_host pt = ToLower (TrimSpace (url_Hostname u)) ∧ pt_host pt ≠ "" ∧
    match pt_class pt with
    | ActionTargetURLLoopbackHTTP => ToLower (url_Scheme u) = "http" ∧ isLoopbackHostname (pt_host pt) = true
    | ActionTargetURLExternalHTTPS => ToLower (url_Scheme u) = "https" ∧ isLoopbackHostname (pt_host pt) = false
    end.
Proof.
  unfold parseActionTargetURL, nonempty. destruct pt as [host class]. cbn [pt_host pt_class].
  destruct (bool_decide (TrimSpace raw = "")) eqn:Hr; [apply bool_decide_eq_true in Hr; cbn; split; [done|]; by intros (? & ? & _)|].
  apply bool_decide_eq_false in Hr. cbn [negb]. destruct (url_Parse _) as [u|]; [|split; [done|]; by intros (? & _ & ? & _)].
  destruct (url_has_User u) eqn:Hu; [split; [done|]; intros (? & _ & [= <-] & ? & _); congruence|].
  set (h := ToLower (TrimSpace (url_Hostname u))). set (sc := ToLower (url_Scheme u)). split.
  - destruct (bool_decide (h = "")) eqn:Hh; [done|]. apply bool_decide_eq_false in Hh. cbn [negb]. intros Hp. exists u.
    repeat (case_match; simplify_eq; try done); repeat match goal with
      | E : bool_decide _ = true |- _ => apply bool_decide_eq_true in E
      | E : negb _ = false |- _ => apply negb_false_iff in E
      end; done.
  - intros (u' & _ & [= <-] & _ & -> & Hh & Hc). fold h in Hh, Hc |- *. fold sc in Hc. rewrite (bool_decide_false (h = "")) by done. cbn [negb].
    destruct class, Hc as [Hs Hl]; rewrite Hs, Hl; done.
Qed.

End Policy.

Module TargetExample.
#[local] Existing Instance demo_ext.
#[local] Instance resolver : Resolver := λ host, if bool_decide (host = "example.com") then Some [[93; 184; 216; 34]] else None.

Lemma resolver_laws : ResolverLaws.
Proof.
  intros host ips. unfold LookupIP, resolver. case_bool_decide; [|done]. intros [= <-]. repeat constructor; lia.
Qed.


Definition answers (raw : string) : bool := IsAllowedActionTargetURL raw.

(** Spellings of addresses a webhook may not reach. *)
Example internal_targets_refused : answers <$> ["https://169.254.169.254/latest"; "https://10.0.0.7"; "http://10.0.0.7"; "https://unknown.test";
  "https://100.64.0.1"; "ftp://example.com"; "https://localhost"; "http://example.com"] = repeat false 8.
Proof. vm_compute. reflexivity. Qed.

Example literals_denote_addresses :
  (public_address <$> ParseIP "::ffff:192.168.1.1", public_address <$> ParseIP "fe80::1", public_address <$> ParseIP "2606:4700::1111",
   public_address <$> ParseIP "8.8.8.8", ParseIP "010.0.0.1", ParseIP "fe80::1%eth0", ParseIP "1::2::3", ParseIP "1:2:3:4:5:6:7:8:9") =
  (Some false, Some false, Some true, Some true, None, None, None, None).
Proof. vm_compute. reflexivity. Qed.
End TargetExample.
