(* ===== verification/Actions.v ===== *)
(** * Action definitions

    api/routes_actions.go: the registry of a tenant's actions, i.e. the data, the
    normalisation of a create or patch request, and the rows of
    action_definitions (migrations 054, 055 and 067).  A
    [map[string]interface{}] is a finite map of decoded values; a computation that
    panics is [None]. *)

From S2P Require Import Prelude GoStrings Json Ext Types InputRefs Redaction TargetPolicy Evidence.
Open Scope Z_scope.

Definition actionTargetHostedAPI : string := "hosted_api".
Definition actionTargetWebhook : string := "webhook".
Definition actionTargetLocalRuntime : string := "local_runtime".
Definition actionTargetHybridFallback : string := "hybrid_fallback".
Definition actionTargetMockDemo : string := "mock_demo".
Definition actionTargetAPIDeprecated : string := "api".
Definition localWebhookAuthHeaderNameMetadata : string := "local_auth_header_name".
Definition localWebhookAuthSecretEnvMetadata : string := "local_auth_secret_env".

Definition canonicalActionTargetType (targetType : string) : string :=
  let t := TrimSpace targetType in if bool_decide (t = actionTargetAPIDeprecated) then actionTargetHostedAPI else t.

(** ** Maps of decoded values *)

Abbreviation amap := (gmap string jv).

Definition obj_of (m : amap) : jv := mk_obj (map_to_list m).
Definition amap_of (v : jv) : amap :=
  match v with JObj l => list_to_map ((λ kv, (kv.1, kv.2.2)) <$> l) | _ => ∅ end.

(** Into a nil [map[string]interface{}]. *)
Definition dec_amap : dec (option amap) := dec_map JNull (λ n _, (norm (drop_unfit n.2), numbers_fit n.2)).

(** A [[]string] that may be nil. *)
Definition dec_strings : dec (option (list string)) :=
  λ n old, match n.2 with
           | JNull => (None, true)
           | JArr _ => let '(l, ok) := dec_list "" dec_string n [] in (Some l, ok)
           | _ => (old, false)
           end.

Definition strings_text (l : option (list string)) : string :=
  match l with Some l => arr_text (str_text <$> l) | None => "null" end.

Definition copyActionMap (values : option amap) : amap := default ∅ values.

Definition stringFromMap (values : amap) (key : string) : string :=
  match values !! key with Some (JStr s) => TrimSpace s | _ => "" end.

(** ** Data *)

Record actionFallbackPolicy := mkFallback {
  fb_Enabled : bool;
  fb_PrimaryTarget : string;
  fb_SecondaryTarget : string;
  fb_AllowedTargets : list string;
  fb_RequiresReplaySafe : bool;
  fb_MaxAttempts : Z;
}.
Definition actionFallbackPolicy_zero : actionFallbackPolicy := mkFallback false "" "" [] false 0.
#[export] Instance set_fb_Enabled : Setter fb_Enabled := _.
#[export] Instance set_fb_PrimaryTarget : Setter fb_PrimaryTarget := _.
#[export] Instance set_fb_SecondaryTarget : Setter fb_SecondaryTarget := _.
#[export] Instance set_fb_AllowedTargets : Setter fb_AllowedTargets := _.
#[export] Instance set_fb_RequiresReplaySafe : Setter fb_RequiresReplaySafe := _.
#[export] Instance set_fb_MaxAttempts : Setter fb_MaxAttempts := _.
Definition actionFallbackPolicy_fields : list (string * dec actionFallbackPolicy) :=
  [("enabled", field fb_Enabled (λ x r, r {{ fb_Enabled := x }}) dec_bool);
   ("primary_target", field fb_PrimaryTarget (λ x r, r {{ fb_PrimaryTarget := x }}) dec_string);
   ("secondary_target", field fb_SecondaryTarget (λ x r, r {{ fb_SecondaryTarget := x }}) dec_string);
   ("allowed_targets", field fb_AllowedTargets (λ x r, r {{ fb_AllowedTargets := x }}) (dec_list "" dec_string));
   ("requires_replay_safe", field fb_RequiresReplaySafe (λ x r, r {{ fb_RequiresReplaySafe := x }}) dec_bool);
   ("max_attempts", field fb_MaxAttempts (λ x r, r {{ fb_MaxAttempts := x }}) (dec_int 64))].
Definition actionFallbackPolicy_text (p : actionFallbackPolicy) : string :=
  obj_text ([("enabled", bool_text (fb_Enabled p))] ++ omit_empty "primary_target" (fb_PrimaryTarget p)
    ++ omit_empty "secondary_target" (fb_SecondaryTarget p)
    ++ (match fb_AllowedTargets p with [] => [] | l => [("allowed_targets", arr_text (str_text <$> l))] end)
    ++ [("requires_replay_safe", bool_text (fb_RequiresReplaySafe p))]
    ++ (if fb_MaxAttempts p =? 0 then [] else [("max_attempts", num_text (fb_MaxAttempts p))])).

(** [ad_SecretRefs] is [None] for the nil slice. *)
Record actionDefinition := mkDefinition {
  ad_ID : uuid;
  ad_TenantID : string;
  ad_Name : string;
  ad_DisplayName : string;
  ad_Description : string;
  ad_TargetType : string;
  ad_TargetURL : string;
  ad_Method : string;
  ad_PolicyPreset : string;
  ad_ReplayClass : string;
  ad_ApprovalRequired : bool;
  ad_Irreversible : bool;
  ad_SecretRefs : option (list string);
  ad_TargetMetadata : amap;
  ad_FallbackPolicy : actionFallbackPolicy;
  ad_CreatedAt : time;
  ad_UpdatedAt : time;
  ad_ArchivedAt : option time;
}.
#[export] Instance set_ad_ID : Setter ad_ID := _.
#[export] Instance set_ad_TenantID : Setter ad_TenantID := _.
#[export] Instance set_ad_Name : Setter ad_Name := _.
#[export] Instance set_ad_DisplayName : Setter ad_DisplayName := _.
#[export] Instance set_ad_Description : Setter ad_Description := _.
#[export] Instance set_ad_TargetType : Setter ad_TargetType := _.
#[export] Instance set_ad_TargetURL : Setter ad_TargetURL := _.
#[export] Instance set_ad_Method : Setter ad_Method := _.
#[export] Instance set_ad_PolicyPreset : Setter ad_PolicyPreset := _.
#[export] Instance set_ad_ReplayClass : Setter ad_ReplayClass := _.
#[export] Instance set_ad_ApprovalRequired : Setter ad_ApprovalRequired := _.
#[export] Instance set_ad_Irreversible : Setter ad_Irreversible := _.
#[export] Instance set_ad_SecretRefs : Setter ad_SecretRefs := _.
#[export] Instance set_ad_TargetMetadata : Setter ad_TargetMetadata := _.
#[export] Instance set_ad_FallbackPolicy : Setter ad_FallbackPolicy := _.

Record actionDefinitionRequest := mkDefinitionRequest {
  dr_Name : string;
  dr_DisplayName : string;
  dr_Description : string;
  dr_TargetType : string;
  dr_TargetURL : string;
  dr_Method : string;
  dr_PolicyPreset : string;
  dr_ReplayClass : string;
  dr_ApprovalRequired : option bool;
  dr_Irreversible : option bool;
  dr_SecretRefs : option (list string);
  dr_TargetMetadata : option amap;
  dr_FallbackPolicy : option actionFallbackPolicy;
}.
Definition actionDefinitionRequest_zero : actionDefinitionRequest :=
  mkDefinitionRequest "" "" "" "" "" "" "" "" None None None None None.
#[export] Instance set_dr_Name : Setter dr_Name := _.
#[export] Instance set_dr_DisplayName : Setter dr_DisplayName := _.
#[export] Instance set_dr_Description : Setter dr_Description := _.
#[export] Instance set_dr_TargetType : Setter dr_TargetType := _.
#[export] Instance set_dr_TargetURL : Setter dr_TargetURL := _.
#[export] Instance set_dr_Method : Setter dr_Method := _.
#[export] Instance set_dr_PolicyPreset : Setter dr_PolicyPreset := _.
#[export] Instance set_dr_ReplayClass : Setter dr_ReplayClass := _.
#[export] Instance set_dr_ApprovalRequired : Setter dr_ApprovalRequired := _.
#[export] Instance set_dr_Irreversible : Setter dr_Irreversible := _.
#[export] Instance set_dr_SecretRefs : Setter dr_SecretRefs := _.
#[export] Instance set_dr_TargetMetadata : Setter dr_TargetMetadata := _.
#[export] Instance set_dr_FallbackPolicy : Setter dr_FallbackPolicy := _.
Definition actionDefinitionRequest_fields : list (string * dec actionDefinitionRequest) :=
  [("name", field dr_Name (λ x r, r {{ dr_Name := x }}) dec_string);
   ("display_name", field dr_DisplayName (λ x r, r {{ dr_DisplayName := x }}) dec_string);
   ("description", field dr_Description (λ x r, r {{ dr_Description := x }}) dec_string);
   ("target_type", field dr_TargetType (λ x r, r {{ dr_TargetType := x }}) dec_string);
   ("target_url", field dr_TargetURL (λ x r, r {{ dr_TargetURL := x }}) dec_string);
   ("method", field dr_Method (λ x r, r {{ dr_Method := x }}) dec_string);
   ("policy_preset", field dr_PolicyPreset (λ x r, r {{ dr_PolicyPreset := x }}) dec_string);
   ("replay_class", field dr_ReplayClass (λ x r, r {{ dr_ReplayClass := x }}) dec_string);
   ("approval_required", field dr_ApprovalRequired (λ x r, r {{ dr_ApprovalRequired := x }}) (dec_ptr false dec_bool));
   ("irreversible", field dr_Irreversible (λ x r, r {{ dr_Irreversible := x }}) (dec_ptr false dec_bool));
   ("secret_refs", field dr_SecretRefs (λ x r, r {{ dr_SecretRefs := x }}) dec_strings);
   ("target_metadata", field dr_TargetMetadata (λ x r, r {{ dr_TargetMetadata := x }}) dec_amap);
   ("fallback_policy", field dr_FallbackPolicy (λ x r, r {{ dr_FallbackPolicy := x }})
                         (dec_ptr actionFallbackPolicy_zero (dec_struct actionFallbackPolicy_fields)))].

(** ** Checks on fields *)

Definition is_lower (a : ascii) : bool := in_range 97 122 (zb a).

(** [^[a-z][a-z0-9_.]{1,63}$]. *)
Definition validActionName (name : string) : bool :=
  match name with
  | "" => false
  | String a r =>
    is_lower a && (1 <=? slen r)%nat && (slen r <=? 63)%nat &&
    all_chars (λ c, is_lower c || is_digit c || is_one_of ["_"; "."]%char c) r
  end.
(** [^[A-Za-z0-9-]{1,64}$]. *)
Definition localWebhookAuthHeaderPattern (s : string) : bool :=
  (1 <=? slen s)%nat && (slen s <=? 64)%nat && all_chars (λ c, is_letter c || is_digit c || is_one_of ["-"]%char c) s.
(** [^IGRIS_[A-Z0-9_]{1,96}$]. *)
Definition localWebhookSecretEnvPattern (s : string) : bool :=
  HasPrefix s "IGRIS_" && (7 <=? slen s)%nat && (slen s <=? 102)%nat &&
  all_chars (λ c, in_range 65 90 (zb c) || is_digit c || is_one_of ["_"]%char c) (drop_str 6 s).

(** [strings.ReplaceAll] of one byte by another. *)
Fixpoint replace_byte (x y : ascii) (s : string) : string :=
  match s with "" => "" | String a s => String (if bool_decide (a = x) then y else a) (replace_byte x y s) end.

Definition normalizeActionName (name : string) : string :=
  replace_byte " " "_" (replace_byte "-" "_" (ToLower (TrimSpace name))).

Definition action_targets : list string :=
  [actionTargetHostedAPI; actionTargetWebhook; actionTargetLocalRuntime; actionTargetHybridFallback; actionTargetMockDemo].
Definition validActionTargetType (targetType : string) : bool := bool_decide (targetType ∈ action_targets).
Definition validActionMethod (method : string) : bool := bool_decide (method ∈ ["GET"; "POST"; "PUT"; "PATCH"; "DELETE"]).
Definition validPolicyPreset (preset : string) : bool :=
  bool_decide (preset ∈ ["Safe automation"; "Human-gated"; "Non-replayable"; "Read-only"]).
Definition validReplayClass (replayClass : string) : bool := bool_decide (replayClass ∈ ["retryable"; "non_retryable"; "read_only"]).
Definition isCanonicalFallbackSurface (targetType : string) : bool :=
  bool_decide (targetType ∈ [actionTargetHostedAPI; actionTargetWebhook; actionTargetLocalRuntime; actionTargetMockDemo]).

Definition applyPolicyPresetDefaults (def : actionDefinition) : actionDefinition :=
  if bool_decide (ad_PolicyPreset def = "Human-gated") then def {{ ad_ReplayClass := "non_retryable"; ad_ApprovalRequired := true }}
  else if bool_decide (ad_PolicyPreset def = "Non-replayable") then def {{ ad_ReplayClass := "non_retryable"; ad_Irreversible := true }}
  else if bool_decide (ad_PolicyPreset def = "Read-only") then def {{ ad_ReplayClass := "read_only"; ad_ApprovalRequired := false }}
  else def {{ ad_ReplayClass := "retryable"; ad_ApprovalRequired := false }}.

Fixpoint count_byte (x : ascii) (s : string) : nat :=
  match s with "" => 0 | String a s => (if bool_decide (a = x) then 1 else 0) + count_byte x s end.

Definition raw_secret_words : list string :=
  ["bearer"; "basic"; "password"; "authorization"; "cookie"; "private_key"; "-----begin"; "://"].
Definition raw_secret_prefixes : list string :=
  ["sk-"; "sk_"; "rk-"; "rk_"; "pk-"; "pk_"; "xoxb-"; "xoxp-"; "ghp_"; "github_pat_"; "ya29."].

Definition looksLikeRawActionSecret (value : string) : bool :=
  let lower := ToLower (TrimSpace value) in
  if negb (nonempty lower) then false
  else if existsb (Contains lower) raw_secret_words then true
  else if existsb (HasPrefix lower) raw_secret_prefixes then true
  else (count_byte "." value =? 2)%nat && HasPrefix value "eyJ".

Definition ref_byte (a : ascii) : bool := is_letter a || is_digit a || is_one_of ["_"; "-"; "."; "/"; ":"; "@"]%char a.

Definition validateActionSecretRef (ref : string) : res () :=
  let trimmed := TrimSpace ref in
  if negb (nonempty trimmed) then Err (Errorf "secret_refs cannot contain empty values")
  else if (160 <? slen trimmed)%nat then Err (Errorf "secret_refs must contain references, not secret values")
  else if negb (all_chars ref_byte trimmed) then Err (Errorf "secret_refs must contain safe reference identifiers only")
  else if looksLikeRawActionSecret trimmed then Err (Errorf "secret_refs must contain references, not secret values")
  else Ok tt.

Definition validateFallbackPolicy (def : actionDefinition) : res () :=
  let fp := ad_FallbackPolicy def in
  (if bool_decide (ad_TargetType def = actionTargetHybridFallback) then
     if negb (fb_Enabled fp) then Err (Errorf "target_type hybrid_fallback requires fallback_policy.enabled = true")
     else if bool_decide (fb_PrimaryTarget fp = "") || bool_decide (fb_SecondaryTarget fp = "")
     then Err (Errorf "hybrid_fallback requires both fallback_policy.primary_target and secondary_target")
     else if bool_decide (fb_PrimaryTarget fp = fb_SecondaryTarget fp)
     then Err (Errorf "hybrid_fallback primary_target and secondary_target must differ")
     else if negb (isCanonicalFallbackSurface (fb_PrimaryTarget fp))
     then Err (Errorf "fallback_policy.primary_target must be a canonical execution surface")
     else if negb (isCanonicalFallbackSurface (fb_SecondaryTarget fp))
     then Err (Errorf "fallback_policy.secondary_target must be a canonical execution surface")
     else if fb_MaxAttempts fp <? 0 then Err (Errorf "fallback_policy.max_attempts must be >= 0")
     else Ok tt
   else Ok tt) ≫= λ _,
  if fb_Enabled fp && negb (fb_RequiresReplaySafe fp) then
    if ad_Irreversible def then Err (Errorf "irreversible actions cannot enable fallback without requires_replay_safe=true")
    else if bool_decide (ad_ReplayClass def = "non_retryable")
    then Err (Errorf "non_retryable replay_class cannot enable fallback without requires_replay_safe=true")
    else Ok tt
  else Ok tt.

Definition canonical_fallback (fp : actionFallbackPolicy) : actionFallbackPolicy :=
  fp {{ fb_PrimaryTarget := canonicalActionTargetType (fb_PrimaryTarget fp);
        fb_SecondaryTarget := canonicalActionTargetType (fb_SecondaryTarget fp);
        fb_AllowedTargets := canonicalActionTargetType <$> fb_AllowedTargets fp }}.

Definition actionDefinition_default : actionDefinition :=
  mkDefinition uuid_Nil "" "" "" "" "mock_demo" "" "POST" "Safe automation" "retryable" false false (Some []) ∅
    actionFallbackPolicy_zero 0 0 None.

Section Actions.
Context `{Ext} `{MapRange} `{Resolver}.

Definition sanitize_ref (ref : string) : list string :=
  let trimmed := TrimSpace ref in
  if negb (nonempty trimmed) then []
  else if looksLikeRawActionSecret trimmed then ["redacted:" +:+ sha256HexString trimmed] else [trimmed].

Definition sanitizeActionSecretRefs (refs : option (list string)) : list string :=
  List.concat (sanitize_ref <$> default [] refs).

(** ** Normalisation *)

(** A string of the request replaces the current one when it is not blank, or
    when there is no current definition. *)
Definition given (current : option actionDefinition) (s : string) : bool :=
  nonempty (TrimSpace s) || bool_decide (current = None).

(** What the normalisation starts from. *)
Definition start_definition (current : option actionDefinition) : actionDefinition :=
  match current with
  | None => actionDefinition_default
  | Some c => c {{ ad_SecretRefs := match ad_SecretRefs c with Some ((_ :: _) as l) => Some l | _ => None end }}
  end.

Definition set_name (req : actionDefinitionRequest) (current : option actionDefinition) (def : actionDefinition) : actionDefinition :=
  if given current (dr_Name req) then def {{ ad_Name := normalizeActionName (dr_Name req) }} else def.

Definition set_texts (req : actionDefinitionRequest) (current : option actionDefinition) (def : actionDefinition) : actionDefinition :=
  let displayName := if given current (dr_DisplayName req) then TrimSpace (dr_DisplayName req) else ad_DisplayName def in
  let description := if given current (dr_Description req) then TrimSpace (dr_Description req) else ad_Description def in
  def {{ ad_DisplayName := if bool_decide (displayName = "") then ad_Name def else displayName; ad_Description := description }}.

Definition set_target_type (req : actionDefinitionRequest) (def : actionDefinition) : actionDefinition :=
  def {{ ad_TargetType :=
    canonicalActionTargetType (if nonempty (TrimSpace (dr_TargetType req)) then dr_TargetType req else ad_TargetType def) }}.

Definition set_target_url (req : actionDefinitionRequest) (current : option actionDefinition) (def : actionDefinition) : actionDefinition :=
  if given current (dr_TargetURL req) then def {{ ad_TargetURL := sanitizeActionTargetURL (dr_TargetURL req) }} else def.

Definition check_target_url (def : actionDefinition) : res () :=
  if bool_decide (ad_TargetType def ∈ [actionTargetWebhook; actionTargetHostedAPI]) then
    if negb (nonempty (TrimSpace (ad_TargetURL def)))
    then Err (Errorf ("target_url is required for " +:+ ad_TargetType def +:+ " targets"))
    else match ValidateActionTargetURL (ad_TargetURL def) with
         | Err e => Err (Wrapf "unsafe_target_url: " e "")
         | Ok _ => Ok tt
         end
  else Ok tt.

Definition set_method (req : actionDefinitionRequest) (def : actionDefinition) : actionDefinition :=
  let method := if nonempty (TrimSpace (dr_Method req)) then ToUpper (TrimSpace (dr_Method req)) else ad_Method def in
  def {{ ad_Method := if bool_decide (method = "") then "POST" else method }}.

(** Name, texts, target and method. *)
Definition normalize_target (req : actionDefinitionRequest) (current : option actionDefinition) : res actionDefinition :=
  let def := set_name req current (start_definition current) in
  _ ← guard_err (negb (validActionName (ad_Name def))) (Errorf "name must match ^[a-z][a-z0-9_.]{1,63}$");
  let def := set_target_type req (set_texts req current def) in
  _ ← guard_err (negb (validActionTargetType (ad_TargetType def)))
        (Errorf "target_type must be one of hosted_api, webhook, local_runtime, hybrid_fallback, or mock_demo");
  let def := set_target_url req current def in
  _ ← check_target_url def;
  let def := set_method req def in
  _ ← guard_err (negb (validActionMethod (ad_Method def))) (Errorf "method must be GET, POST, PUT, PATCH, or DELETE");
  Ok def.

Definition set_preset (req : actionDefinitionRequest) (current : option actionDefinition) (def : actionDefinition) : actionDefinition :=
  if given current (dr_PolicyPreset req) then def {{ ad_PolicyPreset := TrimSpace (dr_PolicyPreset req) }} else def.

Definition set_replay_class (req : actionDefinitionRequest) (def : actionDefinition) : actionDefinition :=
  if nonempty (TrimSpace (dr_ReplayClass req)) then def {{ ad_ReplayClass := TrimSpace (dr_ReplayClass req) }} else def.

Definition set_flags (req : actionDefinitionRequest) (def : actionDefinition) : actionDefinition :=
  def {{ ad_ApprovalRequired := default (ad_ApprovalRequired def) (dr_ApprovalRequired req);
         ad_Irreversible := default (ad_Irreversible def) (dr_Irreversible req) }}.

(** Preset, replay class, approval and secret references. *)
Definition normalize_policy (req : actionDefinitionRequest) (current : option actionDefinition) (def : actionDefinition)
    : res actionDefinition :=
  let def := set_preset req current def in
  _ ← guard_err (negb (validPolicyPreset (ad_PolicyPreset def))) (Errorf "unsupported policy_preset");
  let def := set_replay_class req (applyPolicyPresetDefaults def) in
  _ ← guard_err (negb (validReplayClass (ad_ReplayClass def)))
        (Errorf "replay_class must be retryable, non_retryable, or read_only");
  let def := set_flags req def in
  match dr_SecretRefs req with
  | None => Ok def
  | Some refs => _ ← res_forM validateActionSecretRef refs; Ok (def {{ ad_SecretRefs := Some (sanitizeActionSecretRefs (Some refs)) }})
  end.

(** [None] is a panic while the metadata is redacted. *)
Definition normalizeActionDefinitionRequest (req : actionDefinitionRequest) (current : option actionDefinition)
    : option (res actionDefinition) :=
  match (def ← normalize_target req current; normalize_policy req current def) with
  | Err e => Some (Err e)
  | Ok def =>
    def ← match dr_TargetMetadata req with
          | None => Some def
          | Some m => v ← sanitizeActionMetadata (obj_of m); Some (def {{ ad_TargetMetadata := amap_of v }})
          end;
    let def := match dr_FallbackPolicy req with
               | None => def
               | Some fp => def {{ ad_FallbackPolicy := canonical_fallback fp }}
               end in
    Some (_ ← validateFallbackPolicy def; Ok def)
  end.

(** ** Rows *)

Record action_row := mkActionRow {
  aw_id : uuid;
  aw_tenant_id : string;
  aw_name : string;
  aw_display_name : string;
  aw_description : string;
  aw_target_type : string;
  aw_target_url : string;
  aw_method : string;
  aw_policy_preset : string;
  aw_replay_class : string;
  aw_approval_required : bool;
  aw_irreversible : bool;
  aw_secret_refs : string;
  aw_target_metadata : string;
  aw_fallback_policy : string;
  aw_created_at : time;
  aw_updated_at : time;
  aw_archived_at : option time;
  aw_origin : string;
}.

(** The texts are those of [json.Marshal], as a JSONB column returns them. *)
Definition marshalActionJSON (def : actionDefinition) : string * string * string :=
  (strings_text (ad_SecretRefs def), any_text (obj_of (ad_TargetMetadata def)), actionFallbackPolicy_text (ad_FallbackPolicy def)).

(** The row of a definition that is stored at [now]. *)
Definition definition_row (def : actionDefinition) (created now : time) (origin : string) : action_row :=
  let '(secretRefs, targetMetadata, fallbackPolicy) := marshalActionJSON def in
  mkActionRow (ad_ID def) (ad_TenantID def) (ad_Name def) (ad_DisplayName def) (ad_Description def) (ad_TargetType def)
    (ad_TargetURL def) (ad_Method def) (ad_PolicyPreset def) (ad_ReplayClass def) (ad_ApprovalRequired def) (ad_Irreversible def)
    (jsonb_text secretRefs) (jsonb_text targetMetadata) (jsonb_text fallbackPolicy) created now None origin.

Definition scanActionDefinition (x : action_row) : option actionDefinition :=
  let refs := (unmarshal dec_strings (aw_secret_refs x) None).1 in
  let metadata := (unmarshal dec_amap (aw_target_metadata x) None).1 in
  let fallback := (unmarshal (dec_struct actionFallbackPolicy_fields) (aw_fallback_policy x) actionFallbackPolicy_zero).1 in
  m ← sanitizeActionMetadata (obj_of (default ∅ metadata));
  Some (mkDefinition (aw_id x) (aw_tenant_id x) (aw_name x) (aw_display_name x) (aw_description x)
    (canonicalActionTargetType (aw_target_type x)) (sanitizeActionTargetURL (aw_target_url x)) (aw_method x) (aw_policy_preset x)
    (aw_replay_class x) (aw_approval_required x) (aw_irreversible x) (Some (sanitizeActionSecretRefs refs)) (amap_of m)
    (canonical_fallback fallback) (aw_created_at x) (aw_updated_at x) (aw_archived_at x)).
End Actions.
