(* ===== verification/ActionFacts.v ===== *)
(** * Well-formed action definitions

    What a create or a patch leaves is well-formed, whatever the definition was
    before, and what it does to the approval gate. *)

From S2P Require Import Prelude GoStrings Json Ext Types TaskDef InputRefs Redaction TargetPolicy.
From S2P Require Import TargetPolicyFacts Evidence Actions.
Open Scope Z_scope.

Section ActionFacts.
Context `{Ext} `{MapRange} `{Resolver}.

(** A reference that is shown: none that looks like a secret. *)
Definition safe_ref (ref : string) : Prop := looksLikeRawActionSecret ref = false ∨ HasPrefix ref "redacted:" = true.

Definition fallback_typed (def : actionDefinition) : Prop :=
  let fp := ad_FallbackPolicy def in
  (ad_TargetType def = actionTargetHybridFallback →
   fb_Enabled fp = true ∧ fb_PrimaryTarget fp ≠ fb_SecondaryTarget fp ∧ isCanonicalFallbackSurface (fb_PrimaryTarget fp) = true ∧
   isCanonicalFallbackSurface (fb_SecondaryTarget fp) = true ∧ 0 ≤ fb_MaxAttempts fp) ∧
  (fb_Enabled fp = true → fb_RequiresReplaySafe fp = false → ad_Irreversible def = false ∧ ad_ReplayClass def ≠ "non_retryable").

(** A definition an operator may register. *)
Record typed_definition (def : actionDefinition) : Prop := {
  td_name : validActionName (ad_Name def) = true;
  td_display : ad_DisplayName def ≠ "";
  td_target : ad_TargetType def ∈ action_targets;
  td_url : ad_TargetType def ∈ [actionTargetWebhook; actionTargetHostedAPI] → IsAllowedActionTargetURL (ad_TargetURL def) = true;
  td_method : validActionMethod (ad_Method def) = true;
  td_preset : validPolicyPreset (ad_PolicyPreset def) = true;
  td_replay : validReplayClass (ad_ReplayClass def) = true;
  td_refs : Forall safe_ref (default [] (ad_SecretRefs def));
  td_fallback : fallback_typed def;
}.

Lemma sanitized_refs refs : Forall safe_ref (sanitizeActionSecretRefs refs).
Proof.
  unfold sanitizeActionSecretRefs. apply Forall_concat, Forall_fmap, Forall_true. intros ref. unfold sanitize_ref, compose. cbv zeta.
  destruct (nonempty _); [|constructor]. cbn [negb]. destruct (looksLikeRawActionSecret (TrimSpace ref)) eqn:Hl; apply List.Forall_cons_iff.
  - split; [right; apply HasPrefix_spec; by eexists|constructor].
  - split; [by left|constructor].
Qed.

Lemma url_check_ok def : check_target_url def = Ok tt →
  ad_TargetType def ∈ [actionTargetWebhook; actionTargetHostedAPI] → IsAllowedActionTargetURL (ad_TargetURL def) = true.
Proof.
  unfold check_target_url. intros Hc Ht. rewrite bool_decide_true in Hc by done. unfold IsAllowedActionTargetURL. destruct (negb _); [done|].
  by destruct (ValidateActionTargetURL _).
Qed.

(** ** What the steps change *)

Lemma set_name_keeps req cur def : let d := set_name req cur def in
  ad_SecretRefs d = ad_SecretRefs def ∧ ad_PolicyPreset d = ad_PolicyPreset def ∧ ad_ApprovalRequired d = ad_ApprovalRequired def.
Proof. unfold set_name. by destruct def, (given _ _). Qed.

Lemma set_texts_keeps req cur def : let d := set_texts req cur def in
  ad_Name d = ad_Name def ∧ ad_SecretRefs d = ad_SecretRefs def ∧ ad_PolicyPreset d = ad_PolicyPreset def ∧
  ad_ApprovalRequired d = ad_ApprovalRequired def.
Proof. by destruct def. Qed.

Lemma set_target_type_keeps req def : let d := set_target_type req def in
  ad_Name d = ad_Name def ∧ ad_DisplayName d = ad_DisplayName def ∧ ad_SecretRefs d = ad_SecretRefs def ∧
  ad_PolicyPreset d = ad_PolicyPreset def ∧ ad_ApprovalRequired d = ad_ApprovalRequired def.
Proof. by destruct def. Qed.

Lemma set_target_url_keeps req cur def : let d := set_target_url req cur def in
  ad_Name d = ad_Name def ∧ ad_DisplayName d = ad_DisplayName def ∧ ad_TargetType d = ad_TargetType def ∧
  ad_SecretRefs d = ad_SecretRefs def ∧ ad_PolicyPreset d = ad_PolicyPreset def ∧ ad_ApprovalRequired d = ad_ApprovalRequired def.
Proof. unfold set_target_url. by destruct def, (given _ _). Qed.

Lemma set_method_keeps req def : let d := set_method req def in
  ad_Name d = ad_Name def ∧ ad_DisplayName d = ad_DisplayName def ∧ ad_TargetType d = ad_TargetType def ∧ ad_TargetURL d = ad_TargetURL def ∧
  ad_SecretRefs d = ad_SecretRefs def ∧ ad_PolicyPreset d = ad_PolicyPreset def ∧ ad_ApprovalRequired d = ad_ApprovalRequired def.
Proof. by destruct def. Qed.

Lemma start_keeps cur : default [] (ad_SecretRefs (start_definition cur)) = default [] (cur ≫= ad_SecretRefs) ∧
  ad_PolicyPreset (start_definition cur) = default "Safe automation" (ad_PolicyPreset <$> cur) ∧
  ad_ApprovalRequired (start_definition cur) = default false (ad_ApprovalRequired <$> cur).
Proof. destruct cur as [[]|]; [|done]. cbn. repeat case_match; done. Qed.

Lemma set_texts_display req cur def : ad_Name def ≠ "" → ad_DisplayName (set_texts req cur def) ≠ "".
Proof. intros Hn. unfold set_texts. destruct def. cbn in *. case_bool_decide; done. Qed.

Lemma validActionName_nonempty s : validActionName s = true → s ≠ "".
Proof. by destruct s. Qed.

(** A definition's name, texts, target and method are well-formed, and the rest
    is what it was. *)
Lemma normalize_target_typed req cur def : normalize_target req cur = Ok def →
  validActionName (ad_Name def) = true ∧ ad_DisplayName def ≠ "" ∧ ad_TargetType def ∈ action_targets ∧
  (ad_TargetType def ∈ [actionTargetWebhook; actionTargetHostedAPI] → IsAllowedActionTargetURL (ad_TargetURL def) = true) ∧
  validActionMethod (ad_Method def) = true ∧
  default [] (ad_SecretRefs def) = default [] (cur ≫= ad_SecretRefs) ∧
  ad_PolicyPreset def = default "Safe automation" (ad_PolicyPreset <$> cur) ∧
  ad_ApprovalRequired def = default false (ad_ApprovalRequired <$> cur).
Proof.
  unfold normalize_target. intros Hn. destruct (start_keeps cur) as (Hr & Hp & Ha). set (d0 := start_definition cur) in *. clearbody d0.
  destruct (set_name_keeps req cur d0) as (R1 & P1 & A1). set (d1 := set_name req cur d0) in *. clearbody d1.
  apply res_bind_ok in Hn as ([] & Hname & Hn). apply guard_err_ok, negb_false_iff in Hname.
  pose proof (set_texts_display req cur d1 (validActionName_nonempty _ Hname)) as D2.
  destruct (set_texts_keeps req cur d1) as (N2 & R2 & P2 & A2). set (d2 := set_texts req cur d1) in *. clearbody d2.
  destruct (set_target_type_keeps req d2) as (N3 & D3 & R3 & P3 & A3). set (d3 := set_target_type req d2) in *. clearbody d3.
  apply res_bind_ok in Hn as ([] & Htarget & Hn). apply guard_err_ok, negb_false_iff in Htarget.
  unfold validActionTargetType in Htarget. rewrite bool_decide_eq_true in Htarget.
  destruct (set_target_url_keeps req cur d3) as (N4 & D4 & T4 & R4 & P4 & A4). set (d4 := set_target_url req cur d3) in *. clearbody d4.
  apply res_bind_ok in Hn as ([] & Hurl & Hn). pose proof (url_check_ok _ Hurl) as Hallowed.
  destruct (set_method_keeps req d4) as (N5 & D5 & T5 & U5 & R5 & P5 & A5). set (d5 := set_method req d4) in *. clearbody d5.
  apply res_bind_ok in Hn as ([] & Hmethod & Hn). apply guard_err_ok, negb_false_iff in Hmethod. injection Hn as <-.
  rewrite N5, N4, N3, N2, D5, D4, D3, T5, T4, U5, R5, R4, R3, R2, R1, P5, P4, P3, P2, P1, A5, A4, A3, A2, A1. rewrite T4 in Hallowed.
  by split_and!.
Qed.

Lemma set_preset_keeps req cur def : let d := set_preset req cur def in
  ad_Name d = ad_Name def ∧ ad_DisplayName d = ad_DisplayName def ∧ ad_TargetType d = ad_TargetType def ∧ ad_TargetURL d = ad_TargetURL def ∧
  ad_Method d = ad_Method def ∧ ad_SecretRefs d = ad_SecretRefs def ∧ ad_ApprovalRequired d = ad_ApprovalRequired def ∧
  (given cur (dr_PolicyPreset req) = false → ad_PolicyPreset d = ad_PolicyPreset def).
Proof. unfold set_preset. by destruct def, (given _ _). Qed.

Lemma defaults_keep def : let d := applyPolicyPresetDefaults def in
  ad_Name d = ad_Name def ∧ ad_DisplayName d = ad_DisplayName def ∧ ad_TargetType d = ad_TargetType def ∧ ad_TargetURL d = ad_TargetURL def ∧
  ad_Method d = ad_Method def ∧ ad_SecretRefs d = ad_SecretRefs def ∧ ad_PolicyPreset d = ad_PolicyPreset def.
Proof. unfold applyPolicyPresetDefaults. destruct def. repeat case_bool_decide; by split_and!. Qed.

(** The approval a preset implies. *)
Definition preset_approval (preset : string) (before : bool) : bool :=
  if bool_decide (preset = "Human-gated") then true else if bool_decide (preset = "Non-replayable") then before else false.

Lemma defaults_approval def : ad_ApprovalRequired (applyPolicyPresetDefaults def) = preset_approval (ad_PolicyPreset def) (ad_ApprovalRequired def).
Proof. unfold applyPolicyPresetDefaults, preset_approval. destruct def. cbn. repeat case_bool_decide; try done. Qed.

Lemma set_replay_class_keeps req def : let d := set_replay_class req def in
  ad_Name d = ad_Name def ∧ ad_DisplayName d = ad_DisplayName def ∧ ad_TargetType d = ad_TargetType def ∧ ad_TargetURL d = ad_TargetURL def ∧
  ad_Method d = ad_Method def ∧ ad_SecretRefs d = ad_SecretRefs def ∧ ad_PolicyPreset d = ad_PolicyPreset def ∧
  ad_ApprovalRequired d = ad_ApprovalRequired def.
Proof. unfold set_replay_class. by destruct def, (nonempty _). Qed.

(** The part of a definition that [normalize_policy] leaves alone. *)
Definition target_part (def : actionDefinition) : string * string * string * string * string :=
  (ad_Name def, ad_DisplayName def, ad_TargetType def, ad_TargetURL def, ad_Method def).

Lemma normalize_policy_typed req cur def0 def : normalize_policy req cur def0 = Ok def →
  target_part def = target_part def0 ∧ validPolicyPreset (ad_PolicyPreset def) = true ∧ validReplayClass (ad_ReplayClass def) = true ∧
  (Forall safe_ref (default [] (ad_SecretRefs def0)) → Forall safe_ref (default [] (ad_SecretRefs def))) ∧
  (given cur (dr_PolicyPreset req) = false → ad_PolicyPreset def = ad_PolicyPreset def0) ∧
  ad_ApprovalRequired def = default (preset_approval (ad_PolicyPreset def) (ad_ApprovalRequired def0)) (dr_ApprovalRequired req).
Proof.
  unfold normalize_policy, target_part. intros Hn. destruct (set_preset_keeps req cur def0) as (N1 & D1 & T1 & U1 & M1 & R1 & A1 & P1).
  set (d1 := set_preset req cur def0) in *. clearbody d1. apply res_bind_ok in Hn as ([] & Hpreset & Hn). apply guard_err_ok, negb_false_iff in Hpreset.
  destruct (defaults_keep d1) as (N2 & D2 & T2 & U2 & M2 & R2 & P2). pose proof (defaults_approval d1) as A2.
  set (d2 := applyPolicyPresetDefaults d1) in *. clearbody d2. destruct (set_replay_class_keeps req d2) as (N3 & D3 & T3 & U3 & M3 & R3 & P3 & A3).
  set (d3 := set_replay_class req d2) in *. clearbody d3. apply res_bind_ok in Hn as ([] & Hreplay & Hn). apply guard_err_ok, negb_false_iff in Hreplay.
  assert (∃ refs, def = (set_flags req d3) {{ ad_SecretRefs := refs }} ∧
    (Forall safe_ref (default [] (ad_SecretRefs def0)) → Forall safe_ref (default [] refs))) as (refs & -> & Hrefs).
  { destruct (dr_SecretRefs req) as [l|].
    - apply res_bind_ok in Hn as ([] & _ & Hn). injection Hn as <-. eexists. split; [done|]. intros _. exact (sanitized_refs (Some l)).
    - injection Hn as <-. exists (ad_SecretRefs d3). split; [by destruct d3|]. by rewrite R3, R2, R1. }
  rewrite <-N1, <-N2, <-N3, <-D1, <-D2, <-D3, <-T1, <-T2, <-T3, <-U1, <-U2, <-U3, <-M1, <-M2, <-M3.
  rewrite <-P2, <-P3 in Hpreset. rewrite <-P2, <-P3 in P1. rewrite A1, <-P2, <-P3, <-A3 in A2. clear -Hpreset Hreplay Hrefs P1 A2. destruct d3. cbn in *.
  split_and!; try done. unfold constant. by rewrite A2.
Qed.

Lemma validateFallback_typed def : validateFallbackPolicy def = Ok tt → fallback_typed def.
Proof.
  unfold validateFallbackPolicy, fallback_typed. intros Hv. apply res_bind_ok in Hv as ([] & Hh & He). split.
  - intros Ht. rewrite bool_decide_true in Hh by done. clear He. revert Hh. destruct (fb_Enabled _); cbn [negb]; [|done].
    destruct (_ || _); [done|]. case_bool_decide as Hne; [done|]. destruct (isCanonicalFallbackSurface (fb_PrimaryTarget _)); cbn [negb]; [|done].
    destruct (isCanonicalFallbackSurface (fb_SecondaryTarget _)); cbn [negb]; [|done].
    destruct (_ <? _) eqn:Hm; [done|]. apply Z.ltb_ge in Hm. intros _. by split_and!.
  - intros Hen Hr. rewrite Hen, Hr in He. cbn in He. destruct (ad_Irreversible def); [done|]. split; [done|].
    intros Hc. by rewrite bool_decide_true in He.
Qed.

Lemma set_late def m fp : let d := def {{ ad_TargetMetadata := m; ad_FallbackPolicy := fp }} in
  target_part d = target_part def ∧ ad_PolicyPreset d = ad_PolicyPreset def ∧ ad_ReplayClass d = ad_ReplayClass def ∧
  ad_SecretRefs d = ad_SecretRefs def ∧ ad_ApprovalRequired d = ad_ApprovalRequired def.
Proof. by destruct def. Qed.

(** The parts of a successful normalisation. *)
Lemma normalized_parts req cur def : normalizeActionDefinitionRequest req cur = Some (Ok def) →
  ∃ d0 d1, normalize_target req cur = Ok d0 ∧ normalize_policy req cur d0 = Ok d1 ∧ validateFallbackPolicy def = Ok tt ∧
    target_part def = target_part d1 ∧ ad_PolicyPreset def = ad_PolicyPreset d1 ∧ ad_ReplayClass def = ad_ReplayClass d1 ∧
    ad_SecretRefs def = ad_SecretRefs d1 ∧ ad_ApprovalRequired def = ad_ApprovalRequired d1.
Proof.
  unfold normalizeActionDefinitionRequest. destruct (normalize_target req cur) as [d0|e] eqn:H0'; cbn [mbind res_bind]; [|done].
  destruct (normalize_policy req cur d0) as [d1|e] eqn:H1'; [|done]. intros Hn. exists d0, d1. split; [done|]. split; [done|].
  destruct (match dr_TargetMetadata req with None => Some d1 | Some _ => _ end) as [d2|] eqn:E2; [|done].
  assert (∃ m, d2 = d1 {{ ad_TargetMetadata := m }}) as [m ->].
  { destruct (dr_TargetMetadata req) as [l|].
    - destruct (sanitizeActionMetadata (obj_of l)) as [v|]; [|done]. injection E2 as <-. by exists (amap_of v).
    - injection E2 as <-. exists (ad_TargetMetadata d1). by destruct d1. }
  clear E2. cbn [mbind option_bind] in Hn. injection Hn as Hn. apply res_bind_ok in Hn as ([] & Hv & Hn). injection Hn as Hn. rewrite Hn in Hv.
  assert (∃ fp, def = d1 {{ ad_TargetMetadata := m; ad_FallbackPolicy := fp }}) as [fp ->].
  { subst def. destruct (dr_FallbackPolicy req) as [fp|]; [by eexists|]. exists (ad_FallbackPolicy d1). by destruct d1. }
  split; [done|]. by destruct (set_late d1 m fp) as (? & ? & ? & ? & ?).
Qed.

Lemma normalized_typed req cur def : (∀ c, cur = Some c → Forall safe_ref (default [] (ad_SecretRefs c))) →
  normalizeActionDefinitionRequest req cur = Some (Ok def) → typed_definition def.
Proof.
  intros Hc (d0 & d1 & H0' & H1' & Hv & Ht & Hp & Hr & Hs & _)%normalized_parts.
  apply normalize_target_typed in H0' as (N & D & T & U & M & R & _). apply normalize_policy_typed in H1' as (Ht' & P & C & Hrefs & _).
  rewrite Ht' in Ht. unfold target_part in Ht. injection Ht as E1 E2 E3 E4 E5. constructor; rewrite ?E1, ?E2, ?E3, ?E4, ?E5, ?Hp, ?Hr, ?Hs; try done.
  - apply Hrefs. rewrite R. destruct cur as [c|]; [by apply Hc|constructor].
  - by apply validateFallback_typed.
Qed.

(** C23: the approval gate after a create or a patch is what the request says or,
    when it says nothing, what the preset implies; only "Non-replayable" keeps
    the gate that was there.  A patch that mentions neither leaves the preset
    and so takes an explicit gate off a definition that is not gated by its
    preset. *)
Theorem normalized_approval req cur def : normalizeActionDefinitionRequest req cur = Some (Ok def) →
  ad_ApprovalRequired def =
    default (preset_approval (ad_PolicyPreset def) (default false (ad_ApprovalRequired <$> cur))) (dr_ApprovalRequired req) ∧
  (given cur (dr_PolicyPreset req) = false → ad_PolicyPreset def = default "Safe automation" (ad_PolicyPreset <$> cur)).
Proof.
  intros (d0 & d1 & H0' & H1' & _ & _ & Hp & _ & _ & Ha)%normalized_parts.
  apply normalize_target_typed in H0' as (_ & _ & _ & _ & _ & _ & P0 & A0). apply normalize_policy_typed in H1' as (_ & _ & _ & _ & P1 & A1).
  rewrite Ha, Hp, A1, A0. split; [done|]. intros Hg. by rewrite P1, P0.
Qed.
End ActionFacts.

Module ActionExample.
#[local] Existing Instance demo_ext.
#[local] Instance as_listed : MapRange := λ ks, ks.
#[local] Instance nowhere : Resolver := λ _, None.

(** A definition with an explicit gate, and a patch of its description. *)
Definition gated : actionDefinition := (start_definition None) {{ ad_Name := "send_mail"; ad_ApprovalRequired := true }}.
Definition patch : actionDefinitionRequest := actionDefinitionRequest_zero {{ dr_Description := "Sends a mail" }}.
Definition patched : actionDefinition :=
  match normalizeActionDefinitionRequest patch (Some gated) with Some (Ok def) => def | _ => gated end.

Lemma normalized_approval_witness : normalizeActionDefinitionRequest patch (Some gated) = Some (Ok patched) ∧
  ad_ApprovalRequired gated = true ∧ ad_ApprovalRequired patched = false.
Proof.
  assert (normalizeActionDefinitionRequest patch (Some gated) = Some (Ok patched)) as Hn by (vm_compute; reflexivity).
  split; [exact Hn|]. split; [reflexivity|]. exact (proj1 (normalized_approval _ _ _ Hn)).
Defined.
End ActionExample.
