(* ===== verification/Contracts.v ===== *)
(** * ActionContract v1

    api/routes_contracts.go, its pure part: the validation of a submitted
    contract, the security-sensitive differences between versions, and the
    mapping of a contract's parameters to a target's fields. *)

From S2P Require Import Prelude GoStrings Json Ext CanonicalJson Types TaskDef Evidence.
Open Scope Z_scope.

Definition contractSyncMaxBodyBytes : Z := 64 * 1024.
Definition contractMaxParameterDescriptor : nat := 128.
Definition contractMaxStringField : nat := 512.
Definition contractListDefaultLimit : Z := 50.
Definition contractListMaxLimit : Z := 200.

Definition contractRiskLevels : list string := ["low"; "medium"; "high"; "critical"].
Definition contractApprovalModes : list string := ["required"; "never"].

(** [contractRiskRank[risk]]: zero for a risk the map does not have. *)
Definition contractRiskRank (risk : string) : Z :=
  default 0 ((list_to_map [("low", 1); ("medium", 2); ("high", 3); ("critical", 4)] : gmap string Z) !! risk).

Definition contractAllowedFields : list string :=
  ["schema_version"; "action_name"; "module"; "qualified_name"; "risk"; "approval_mode"; "execution_mode";
   "parameter_descriptors"; "code_fingerprint"; "contract_hash"].
Definition contractDescriptorAllowedFields : list string := ["name"; "kind"; "has_default"; "annotation"].

Record validatedContract := mkContract {
  vc_SchemaVersion : string;
  vc_ActionName : string;
  vc_Risk : string;
  vc_ApprovalMode : string;
  vc_ExecutionMode : string;
  vc_CodeFingerprint : option string;
  vc_RecomputedHash : string;
  vc_SuppliedHash : string;
  vc_CanonicalBody : string;
}.

(** A row of action_contract_versions; the flags are the text of a JSONB column. *)
Record contractVersionRecord := mkVersion {
  cr_tenant_id : string;
  cr_action_name : string;
  cr_ID : uuid;
  cr_ContractHash : string;
  cr_SchemaVersion : string;
  cr_Contract : string;
  cr_Risk : string;
  cr_ApprovalMode : string;
  cr_ExecutionMode : string;
  cr_CodeFingerprint : option string;
  cr_SecuritySensitiveChange : bool;
  cr_PolicyFlags : string;
  cr_CreatedAt : time;
}.

(** The checks of one descriptor, in their order; [None] when it passes. *)
Definition refuse (detail : string) : option contractValidationError := Some (unprocessable detail).

Definition text_field_bad (m : object) (field : string) : bool :=
  match str_at m field with Some value => bool_decide (value = "") || (contractMaxStringField <? slen value)%nat | None => true end.

Section Contracts.
Context `{Ext}.

Definition descriptor_refusal (raw : any) : option contractValidationError :=
  match raw with
  | AMap descriptor =>
    match unexpected_key contractDescriptorAllowedFields descriptor with
    | Some key => refuse ("unexpected parameter descriptor field: " +:+ key)
    | None =>
      if text_field_bad descriptor "name" then refuse "parameter descriptor name must be a non-empty string of at most 512 chars"
      else if text_field_bad descriptor "kind" then refuse "parameter descriptor kind must be a non-empty string of at most 512 chars"
      else match get "has_default" descriptor with
      | Some (ABool _) =>
        match get "annotation" descriptor with
        | None | Some ANil => None
        | Some (AString annotation) =>
          if (contractMaxStringField <? slen annotation)%nat then refuse "parameter descriptor annotation exceeds 512 chars" else None
        | _ => refuse "parameter descriptor annotation must be a string or null"
        end
      | _ => refuse "parameter descriptor has_default must be a boolean"
      end
    end
  | _ => refuse "parameter_descriptors entries must be objects"
  end.

Fixpoint first_refusal {A} (check : A → option contractValidationError) (l : list A) : option contractValidationError :=
  match l with [] => None | x :: l => match check x with Some e => Some e | None => first_refusal check l end end.

Definition name_refusal (contract : object) (field : string) : option contractValidationError :=
  match str_at contract field with
  | Some value =>
    if bool_decide (value = "") then refuse (field +:+ " must be a non-empty string")
    else if (contractMaxStringField <? slen value)%nat then refuse (field +:+ " exceeds 512 chars") else None
  | None => refuse (field +:+ " must be a non-empty string")
  end.

Definition descriptors_refusal (contract : object) : option contractValidationError :=
  match get "parameter_descriptors" contract with
  | Some (AList descriptorsRaw) =>
    if (contractMaxParameterDescriptor <? length descriptorsRaw)%nat then refuse "parameter_descriptors exceeds 128 entries"
    else first_refusal descriptor_refusal descriptorsRaw
  | _ => refuse "parameter_descriptors must be an array"
  end.

(** [code_fingerprint]: null or a hash. *)
Definition code_fingerprint (contract : object) : contractValidationError + option string :=
  match get "code_fingerprint" contract with
  | None | Some ANil => inr None
  | Some (AString fingerprint) =>
    if contractHashPattern fingerprint then inr (Some fingerprint)
    else inl (unprocessable "code_fingerprint must be 64 lowercase hex chars or null")
  | _ => inl (unprocessable "code_fingerprint must be 64 lowercase hex chars or null")
  end.

Definition validateContractV1 (contract : object) : contractValidationError + validatedContract :=
  match unexpected_key contractAllowedFields contract with
  | Some key => inl (unprocessable ("unexpected contract field: " +:+ key))
  | None =>
    let actionName := str_or contract "action_name" in
    let risk := str_or contract "risk" in
    let approvalMode := str_or contract "approval_mode" in
    let executionMode := str_or contract "execution_mode" in
    if negb (bool_decide (str_or contract "schema_version" = "1"))
    then inl (mkValidationError 422 "unsupported_schema_version" ("schema_version must be " +:+ str_text "1"))
    else if negb (contractActionNamePattern actionName)
    then inl (mkValidationError 422 "invalid_action_name" "action_name must start with a letter, use [A-Za-z0-9_.:-], max 128 chars")
    else if negb (bool_decide (risk ∈ contractRiskLevels)) then inl (unprocessable "risk must be one of low, medium, high, critical")
    else if negb (bool_decide (approvalMode ∈ contractApprovalModes)) then inl (unprocessable "approval_mode must be required or never")
    else if negb (bool_decide (executionMode = "embedded"))
    then inl (unprocessable "execution_mode must be embedded for this endpoint version")
    else match first_refusal (name_refusal contract) ["module"; "qualified_name"] with
    | Some e => inl e
    | None =>
      match descriptors_refusal contract with
      | Some e => inl e
      | None =>
        match code_fingerprint contract with
        | inl e => inl e
        | inr codeFingerprint =>
          let suppliedHash := str_or contract "contract_hash" in
          if negb (contractHashPattern suppliedHash) then inl (unprocessable "contract_hash must be 64 lowercase hex chars")
          else
            let recomputed := ContractHash contract in
            if negb (bool_decide (recomputed = suppliedHash))
            then inl (mkValidationError 422 "contract_hash_mismatch"
                        "supplied contract_hash does not match the server-recomputed canonical hash")
            else inr (mkContract "1" actionName risk approvalMode executionMode codeFingerprint recomputed suppliedHash (Encode contract))
        end
      end
    end
  end.
End Contracts.

Definition contractSecurityDelta (prior : option contractVersionRecord) (next : validatedContract) : bool * list string :=
  match prior with
  | None => (false, [])
  | Some prior =>
    let flags :=
      (if contractRiskRank (vc_Risk next) <? contractRiskRank (cr_Risk prior)
       then ["risk_lowered:" +:+ cr_Risk prior +:+ "->" +:+ vc_Risk next] else [])
      ++ (if bool_decide (cr_ApprovalMode prior = "required") && bool_decide (vc_ApprovalMode next = "never")
          then ["approval_weakened:required->never"] else [])
      ++ (if negb (bool_decide (cr_ExecutionMode prior = vc_ExecutionMode next))
          then ["execution_mode_changed:" +:+ cr_ExecutionMode prior +:+ "->" +:+ vc_ExecutionMode next] else []) in
    ((0 <? length flags)%nat, flags)
  end.

(** ** Parameter mappings *)

Record contractParameterDescriptor := mkDescriptor {
  cd_Name : string;
  cd_Kind : string;
  cd_HasDefault : bool;
  cd_Annotation : option string;
}.
Definition contractParameterDescriptor_zero : contractParameterDescriptor := mkDescriptor "" "" false None.
#[export] Instance set_cd_Name : Setter cd_Name := _.
#[export] Instance set_cd_Kind : Setter cd_Kind := _.
#[export] Instance set_cd_HasDefault : Setter cd_HasDefault := _.
#[export] Instance set_cd_Annotation : Setter cd_Annotation := _.
Definition contractParameterDescriptor_fields : list (string * dec contractParameterDescriptor) :=
  [("name", field cd_Name (λ x r, r {{ cd_Name := x }}) dec_string);
   ("kind", field cd_Kind (λ x r, r {{ cd_Kind := x }}) dec_string);
   ("has_default", field cd_HasDefault (λ x r, r {{ cd_HasDefault := x }}) dec_bool);
   ("annotation", field cd_Annotation (λ x r, r {{ cd_Annotation := x }}) (dec_ptr "" dec_string))].

(** The members of the stored contract that are read; [None] is an error. *)
Definition contractParameterDescriptors (raw : string) : option (list contractParameterDescriptor) :=
  let fields := [("parameter_descriptors",
                  (λ n (old : list contractParameterDescriptor),
                     dec_list contractParameterDescriptor_zero (dec_struct contractParameterDescriptor_fields) n old))] in
  let '(l, ok) := unmarshal (dec_struct fields) raw [] in if ok then Some l else None.

Section Mapping.
Context `{Ext}.

(** The loop over the descriptors; [targetFields] are those taken so far. *)
Fixpoint mapping_loop (descriptors : list contractParameterDescriptor) (mapping : gmap string string) (targetFields : gset string)
    : res () :=
  match descriptors with
  | [] => Ok tt
  | descriptor :: descriptors =>
    let targetField := TrimSpace (default "" (mapping !! cd_Name descriptor)) in
    if bool_decide (targetField = "") then Err (Errorf ("missing mapping for contract parameter " +:+ strconv_Quote (cd_Name descriptor)))
    else if negb (contractActionNamePattern targetField) then Err (Errorf ("mapped target field " +:+ strconv_Quote targetField +:+ " is invalid"))
    else if bool_decide (targetField ∈ targetFields)
    then Err (Errorf ("target field " +:+ strconv_Quote targetField +:+ " is mapped more than once"))
    else mapping_loop descriptors mapping ({[targetField]} ∪ targetFields)
  end.

Definition validateContractInputMapping (descriptors : list contractParameterDescriptor) (mapping : gmap string string) : res () :=
  if negb (size mapping =? length descriptors)%nat
  then Err (Errorf "input_mapping must contain exactly one target field for every contract parameter")
  else
    mapping_loop descriptors mapping ∅ ≫= λ _,
    match filter (λ parameter, parameter ∉ cd_Name <$> descriptors) (map_to_list mapping).*1 with
    | [] => Ok tt
    | unknown => Err (Errorf ("mapping contains unknown contract parameter " +:+ strconv_Quote (map_first_key unknown)))
    end.
End Mapping.
