(* ===== verification/Registry.v ===== *)
(** * The registry of actions, contracts and bindings

    api/contract_store.go, contract_binding_store.go, routes_contracts.go and the
    definition handlers of routes_actions.go over the tables of migrations 054,
    055, 067, 069 and 070.  A request runs its statements between those of other
    requests ([Concurrent]).  Transactions run at PostgreSQL's default level: a
    statement sees what is committed and what its own transaction wrote, an
    INSERT waits while another transaction holds an uncommitted row with the same
    unique key, a commit publishes all rows at once, and a connection that is
    lost ends its transaction.  A request opens at most one transaction, which is
    named by the request's number. *)

From S2P Require Import Prelude GoStrings Json GoTime Ext CanonicalJson Concurrent Types TaskDef.
From S2P Require Import InputRefs Redaction TargetPolicy.
From S2P Require Import Evidence Actions Contracts.
Open Scope Z_scope.

(** How PostgreSQL reads the text of a UUID. *)
Class PgText := pg_uuid : string → option uuid.

(** ** Tables *)

(** A row of contract_sync_idempotency; its operation is constant. *)
Record sync_row := mkSync {
  si_tenant_id : string;
  si_action_name : string;
  si_idempotency_key : string;
  si_RequestFingerprint : string;
  si_ResponseStatus : Z;
  si_ResponseBody : string;
}.

(** A row of action_contract_execution_bindings. *)
Record contractExecutionBindingRecord := mkBinding {
  bi_ID : uuid;
  bi_TenantID : string;
  bi_ActionName : string;
  bi_ContractVersionID : uuid;
  bi_ContractHash : string;
  bi_TargetActionID : uuid;
  bi_TargetVersionHash : string;
  bi_TargetSnapshot : string;
  bi_InputMapping : string;
  bi_EndpointConfigRef : string;
  bi_TimeoutMS : Z;
  bi_ReplayClass : string;
  bi_IdempotencyRequired : bool;
  bi_CreatedAt : time;
}.

(** The rows a transaction has inserted and not yet committed, and the
    definitions it has locked; [NOW()] is the time it began. *)
Record transaction := mkTx {
  tx_now : time;
  tx_actions : list action_row;
  tx_versions : list contractVersionRecord;
  tx_syncs : list sync_row;
  tx_bindings : list contractExecutionBindingRecord;
  tx_shared : list uuid;
}.
#[export] Instance set_tx_actions : Setter tx_actions := _.
#[export] Instance set_tx_versions : Setter tx_versions := _.
#[export] Instance set_tx_syncs : Setter tx_syncs := _.
#[export] Instance set_tx_bindings : Setter tx_bindings := _.
#[export] Instance set_tx_shared : Setter tx_shared := _.

Record registry := mkRegistry {
  rg_actions : list action_row;
  rg_versions : list contractVersionRecord;
  rg_syncs : list sync_row;
  rg_bindings : list contractExecutionBindingRecord;
  rg_open : gmap nat transaction;
}.
#[export] Instance set_rg_actions : Setter rg_actions := _.
#[export] Instance set_rg_open : Setter rg_open := _.

Abbreviation rstmt X := (evidence_env → registry → res X * registry).
Abbreviation rprog A := (prog evidence_env registry A).

(** ** Keys *)

(** The partial unique index on live definitions. *)
Definition live_action (tenantID name : string) (x : action_row) : bool :=
  bool_decide (aw_tenant_id x = tenantID ∧ aw_name x = name ∧ aw_archived_at x = None).
Definition version_key (x : contractVersionRecord) : string * string * string := (cr_tenant_id x, cr_action_name x, cr_ContractHash x).
Definition sync_key (x : sync_row) : string * string * string := (si_tenant_id x, si_action_name x, si_idempotency_key x).
Definition binding_key (x : contractExecutionBindingRecord) : string * string * string := (bi_TenantID x, bi_ActionName x, bi_ContractHash x).

(** Some transaction other than [i] satisfies [P]. *)
Definition elsewhere (i : nat) (P : transaction → bool) (db : registry) : bool :=
  existsb (λ jx, P jx.2) (map_to_list (delete i (rg_open db))).

(** Some transaction satisfies [P]: what a statement outside of transactions
    looks at. *)
Definition held (P : transaction → bool) (db : registry) : bool := existsb (λ jx, P jx.2) (map_to_list (rg_open db)).

(** The rows of a table, committed or not: random identifiers are compared with
    all of them. *)
Definition everywhere {X} (com : registry → list X) (own : transaction → list X) (db : registry) : list X :=
  com db ++ List.concat ((λ jx, own jx.2) <$> map_to_list (rg_open db)).

(** A uniqueness violation, as lib/pq reports it. *)
Definition unique_violation (index : string) : goerror := Errorf ("pq: duplicate key value violates unique constraint " +:+ index).

(** ** Transactions *)

Definition BeginTx (i : nat) : rstmt () := λ env db, (Ok tt, db {{ rg_open := <[i := mkTx (en_now env) [] [] [] [] []]> (rg_open db) }}).

(** A statement of transaction [i]: what it does to the transaction. *)
Definition in_tx {X} (i : nat) (q : evidence_env → registry → transaction → res X * transaction) : rstmt X := λ env db,
  match rg_open db !! i with
  | None => (Err (Errorf "driver: bad connection"), db)
  | Some x => let '(r, x') := q env db x in (r, db {{ rg_open := <[i := x']> (rg_open db) }})
  end.

Definition Commit (i : nat) : rstmt () := λ _ db,
  match rg_open db !! i with
  | None => (Err (Errorf "driver: bad connection"), db)
  | Some x => (Ok tt, mkRegistry (rg_actions db ++ tx_actions x) (rg_versions db ++ tx_versions x) (rg_syncs db ++ tx_syncs x)
                        (rg_bindings db ++ tx_bindings x) (delete i (rg_open db)))
  end.

(** Rollback, and what the server does when the connection is lost. *)
Definition Rollback (i : nat) : rstmt () := λ _ db, (Ok tt, db {{ rg_open := delete i (rg_open db) }}).

(** What a statement of the transaction sees. *)
Definition seen_actions (db : registry) (x : transaction) : list action_row := rg_actions db ++ tx_actions x.
Definition seen_versions (db : registry) (x : transaction) : list contractVersionRecord := rg_versions db ++ tx_versions x.
Definition seen_syncs (db : registry) (x : transaction) : list sync_row := rg_syncs db ++ tx_syncs x.
Definition seen_bindings (db : registry) (x : transaction) : list contractExecutionBindingRecord := rg_bindings db ++ tx_bindings x.

(** ** contract_store.go *)

Definition contractLogicalActionTargetType : string := "embedded_sdk".
Definition contractOriginSDKSync : string := "sdk_sync".

Section Store.
Context `{Ext}.

(** The row the first statement of [ensureContractLogicalAction] inserts; the
    other columns have the defaults of the migrations. *)
Definition logical_action (tenantID actionName : string) (id : uuid) (now : time) : action_row :=
  mkActionRow id tenantID actionName actionName "" contractLogicalActionTargetType "" "POST" "Safe automation" "retryable" false false
    (jsonb_text "[]") (jsonb_text "{}") (jsonb_text (obj_text [("enabled", "false")])) now now None contractOriginSDKSync.

Definition insert_logical_action (i : nat) (tenantID actionName : string) : rstmt () := in_tx i (λ env db x,
  if existsb (live_action tenantID actionName) (seen_actions db x) then (Ok tt, x)
  else if existsb (λ y, bool_decide (aw_id y = en_uuid env)) (everywhere rg_actions tx_actions db)
  then (Err (unique_violation "action_definitions_pkey"), x)
  else (Ok tt, x {{ tx_actions := tx_actions x ++ [logical_action tenantID actionName (en_uuid env) (tx_now x)] }})).

Definition holds_action (tenantID name : string) (x : transaction) : bool := existsb (live_action tenantID name) (tx_actions x).

Definition ensureContractLogicalAction (i : nat) (tenantID actionName : string) : rprog (res (uuid * string)) :=
  r ← waiting (elsewhere i (holds_action tenantID actionName)) (insert_logical_action i tenantID actionName);
  match r return rprog (res (uuid * string)) with
  | Err e => mret (Err e)
  | Ok _ => statement (in_tx i (λ _ db x,
      ((λ y, (aw_id y, aw_origin y)) <$> one_row (filter (live_action tenantID actionName) (seen_actions db x)), x)))
  end.

Definition find_version (tenantID actionName contractHash : string) (l : list contractVersionRecord) : res contractVersionRecord :=
  one_row (filter (λ x, version_key x = (tenantID, actionName, contractHash)) l).

Definition version_newer (x y : contractVersionRecord) : Prop :=
  cr_CreatedAt y < cr_CreatedAt x ∨ cr_CreatedAt x = cr_CreatedAt y ∧ (cr_ID y ≤ cr_ID x)%N.
#[export] Instance version_newer_dec x y : Decision (version_newer x y).
Proof. unfold version_newer. apply _. Defined.

(** The history of an action, newest first. *)
Definition version_history (tenantID actionName : string) (l : list contractVersionRecord) : list contractVersionRecord :=
  merge_sort version_newer (filter (λ x, cr_tenant_id x = tenantID ∧ cr_action_name x = actionName) l).

Definition latestContractVersion (tenantID actionName : string) (l : list contractVersionRecord) : res contractVersionRecord :=
  one_row (version_history tenantID actionName l).

(** The flags of a stored version: an error of the decoder is ignored. *)
Definition policy_flags (x : contractVersionRecord) : list string := default [] (unmarshal dec_strings (cr_PolicyFlags x) None).1.

Definition new_version (tenantID : string) (contract : validatedContract) (sensitive : bool) (flags : list string) (id : uuid) (now : time)
    : contractVersionRecord :=
  mkVersion tenantID (vc_ActionName contract) id (vc_RecomputedHash contract) (vc_SchemaVersion contract)
    (jsonb_text (vc_CanonicalBody contract)) (vc_Risk contract) (vc_ApprovalMode contract) (vc_ExecutionMode contract)
    (vc_CodeFingerprint contract) sensitive (jsonb_text (strings_text (Some flags))) now.

Definition insertContractVersion (i : nat) (tenantID : string) (contract : validatedContract) (sensitive : bool) (flags : list string)
    : rstmt (uuid * time) := in_tx i (λ env db x,
  let v := new_version tenantID contract sensitive flags (en_uuid env) (tx_now x) in
  if existsb (λ y, bool_decide (version_key y = version_key v)) (seen_versions db x) then (Err ErrNoRows, x)
  else if existsb (λ y, bool_decide (cr_ID y = cr_ID v)) (everywhere rg_versions tx_versions db)
  then (Err (unique_violation "action_contract_versions_pkey"), x)
  else (Ok (cr_ID v, cr_CreatedAt v), x {{ tx_versions := tx_versions x ++ [v] }})).

Definition holds_version (k : string * string * string) (x : transaction) : bool :=
  existsb (λ y, bool_decide (version_key y = k)) (tx_versions x).

Definition getContractSyncIdempotencyRecord (tenantID actionName key : string) (l : list sync_row) : res sync_row :=
  one_row (filter (λ x, sync_key x = (tenantID, actionName, key)) l).

Definition claimContractSyncIdempotencyRecord (i : nat) (tenantID actionName key fingerprint : string) : rstmt bool := in_tx i (λ _ db x,
  if existsb (λ y, bool_decide (sync_key y = (tenantID, actionName, key))) (seen_syncs db x) then (Ok false, x)
  else (Ok true, x {{ tx_syncs := tx_syncs x ++ [mkSync tenantID actionName key fingerprint 0 (jsonb_text "{}")] }})).

Definition holds_sync (k : string * string * string) (x : transaction) : bool :=
  existsb (λ y, bool_decide (sync_key y = k)) (tx_syncs x).

(** The rows an UPDATE of the claimed key and fingerprint reaches are those the
    transaction claimed: the key is the table's primary key. *)
Definition completeContractSyncIdempotencyRecord (i : nat) (tenantID actionName key fingerprint : string) (status : Z) (body : string)
    : rstmt () := in_tx i (λ _ db x,
  let mine y := bool_decide (sync_key y = (tenantID, actionName, key) ∧ si_RequestFingerprint y = fingerprint) in
  let complete y := if mine y then mkSync tenantID actionName key fingerprint status (jsonb_text body) else y in
  if (length (List.filter mine (tx_syncs x)) =? 1)%nat then (Ok tt, x {{ tx_syncs := complete <$> tx_syncs x }}) else (Err ErrNoRows, x)).

(** ** The transactional core of a synchronization *)

Record sync_response := mkResponse {
  sr_action_id : uuid;
  sr_action_name : string;
  sr_origin : string;
  sr_version_id : uuid;
  sr_contract_hash : string;
  sr_schema_version : string;
  sr_created : bool;
  sr_created_at : time;
  sr_sensitive : bool;
  sr_policy_flags : list string;
}.

Definition text_map (l : list (string * string)) : string := map_text (list_to_map l).

Definition sync_response_text (r : sync_response) : string :=
  text_map
    [("action", text_map [("id", str_text (uuid_String (sr_action_id r))); ("tenant_owned", "true");
                          ("action_name", str_text (sr_action_name r)); ("origin", str_text (sr_origin r));
                          ("origin_divergence", bool_text (negb (bool_decide (sr_origin r = contractOriginSDKSync))))]);
     ("version", text_map [("id", str_text (uuid_String (sr_version_id r))); ("contract_hash", str_text (sr_contract_hash r));
                           ("schema_version", str_text (sr_schema_version r)); ("created", bool_text (sr_created r));
                           ("created_at", str_text (contractTimestamp (sr_created_at r)));
                           ("security_sensitive_change", bool_text (sr_sensitive r));
                           ("policy_flags", strings_text (Some (sr_policy_flags r)))]);
     ("grants", text_map [("execution_permission", "false");
                          ("note", str_text "synchronization records a declaration; it authorizes nothing")])].

Definition sync_status (created : bool) : Z := if created then 201 else 200.

Definition existing_response (action : uuid * string) (contract : validatedContract) (v : contractVersionRecord) : sync_response :=
  mkResponse action.1 (vc_ActionName contract) action.2 (cr_ID v) (cr_ContractHash v) (cr_SchemaVersion v) false (cr_CreatedAt v)
    (cr_SecuritySensitiveChange v) (policy_flags v).

Definition created_response (action : uuid * string) (contract : validatedContract) (sensitive : bool) (flags : list string)
    (id : uuid) (now : time) : sync_response :=
  mkResponse action.1 (vc_ActionName contract) action.2 id (vc_RecomputedHash contract) (vc_SchemaVersion contract) true now sensitive flags.

(** A read of the versions the transaction sees. *)
Definition read_versions {X} (i : nat) (f : list contractVersionRecord → res X) : rprog (res X) :=
  statement (in_tx i (λ _ db x, (f (seen_versions db x), x))).

(** A version that was not there a statement ago. *)
Definition append_version (i : nat) (tenantID : string) (contract : validatedContract) (action : uuid * string) : rprog (res sync_response) :=
  prior ← read_versions i (latestContractVersion tenantID (vc_ActionName contract));
  match optional_row prior return rprog (res sync_response) with
  | Err e => mret (Err e)
  | Ok prior =>
    let '(sensitive, flags) := contractSecurityDelta prior contract in
    r ← waiting (elsewhere i (holds_version (tenantID, vc_ActionName contract, vc_RecomputedHash contract)))
          (insertContractVersion i tenantID contract sensitive flags);
    match optional_row r return rprog (res sync_response) with
    | Err e => mret (Err e)
    | Ok (Some (id, now)) => mret (Ok (created_response action contract sensitive flags id now))
    | Ok None =>
      v ← read_versions i (find_version tenantID (vc_ActionName contract) (vc_RecomputedHash contract));
      mret match v with Ok v => Ok (existing_response action contract v) | Err e => Err e end
    end
  end.

Definition performContractSyncInTx (i : nat) (tenantID : string) (contract : validatedContract) : rprog (res sync_response) :=
  action ← ensureContractLogicalAction i tenantID (vc_ActionName contract);
  match action return rprog (res sync_response) with
  | Err e => mret (Err e)
  | Ok action =>
    v ← read_versions i (find_version tenantID (vc_ActionName contract) (vc_RecomputedHash contract));
    match optional_row v return rprog (res sync_response) with
    | Err e => mret (Err e)
    | Ok (Some v) => mret (Ok (existing_response action contract v))
    | Ok None => append_version i tenantID contract action
    end
  end.

(** [defer tx.Rollback()] on a path that did not try to commit. *)
Definition roll_back {X} (i : nat) (r : X) : rprog X := _ ← statement (Rollback i); mret r.

Definition performContractSync (i : nat) (tenantID : string) (contract : validatedContract) : rprog (res sync_response) :=
  b ← statement (BeginTx i);
  match b return rprog (res sync_response) with
  | Err e => mret (Err e)
  | Ok _ =>
    r ← performContractSyncInTx i tenantID contract;
    match r return rprog (res sync_response) with
    | Err e => roll_back i (Err e)
    | Ok response => c ← statement (Commit i); mret match c with Ok _ => Ok response | Err e => Err e end
    end
  end.

(** What an idempotent synchronization ends with, besides an error. *)
Inductive idempotent_outcome :=
| Replayed (status : Z) (body : string)
| Conflicting
| Performed (response : sync_response).

Definition performIdempotentContractSync (i : nat) (tenantID : string) (contract : validatedContract) (key : string)
    : rprog (res idempotent_outcome) :=
  b ← statement (BeginTx i);
  match b return rprog (res idempotent_outcome) with
  | Err e => mret (Err e)
  | Ok _ =>
    claimed ← waiting (elsewhere i (holds_sync (tenantID, vc_ActionName contract, key)))
                (claimContractSyncIdempotencyRecord i tenantID (vc_ActionName contract) key (vc_RecomputedHash contract));
    match claimed return rprog (res idempotent_outcome) with
    | Err e => roll_back i (Err e)
    | Ok false =>
      record ← statement (in_tx i (λ _ db x, (getContractSyncIdempotencyRecord tenantID (vc_ActionName contract) key (seen_syncs db x), x)));
      match record return rprog (res idempotent_outcome) with
      | Err e => roll_back i (Err e)
      | Ok record =>
        if negb (bool_decide (si_RequestFingerprint record = vc_RecomputedHash contract)) then roll_back i (Ok Conflicting)
        else
          c ← statement (Commit i);
          mret match c with Ok _ => Ok (Replayed (si_ResponseStatus record) (si_ResponseBody record)) | Err e => Err e end
      end
    | Ok true =>
      r ← performContractSyncInTx i tenantID contract;
      match r return rprog (res idempotent_outcome) with
      | Err e => roll_back i (Err e)
      | Ok response =>
        d ← statement (completeContractSyncIdempotencyRecord i tenantID (vc_ActionName contract) key (vc_RecomputedHash contract)
              (sync_status (sr_created response)) (sync_response_text response));
        match d return rprog (res idempotent_outcome) with
        | Err e => roll_back i (Err e)
        | Ok _ => c ← statement (Commit i); mret match c with Ok _ => Ok (Performed response) | Err e => Err e end
        end
      end
    end
  end.
End Store.
