(* ===== verification/RegistryHandlers.v ===== *)
(** * The handlers of the registry

    The HTTP handlers of routes_contracts.go and the definition handlers of
    routes_actions.go as programs over the registry; a request names its tenant
    (which authentication supplies), its path parameters, headers and body. *)

From S2P Require Import Prelude GoStrings Json GoTime Float64 Ext CanonicalJson Concurrent Types.
From S2P Require Import TaskDef InputRefs Redaction TargetPolicy.
From S2P Require Import Evidence Actions Contracts Registry.
Open Scope Z_scope.

Inductive registry_request : Type :=
| ContractSync (tenantID idempotencyKey body : string)
| ContractActionGet (tenantID name limit before : string)
| ContractVersionGet (tenantID name hash : string)
| ContractBindingCreate (tenantID name hash body : string)
| ContractBindingGet (tenantID name hash : string)
| ActionList (tenantID : string)
| ActionCreate (tenantID body : string)
| ActionGet (tenantID id : string)
| ActionPatch (tenantID id body : string)
| ActionArchive (tenantID id : string)
| Disconnect (j : nat). (* the server ends the transaction of request [j] *)

Inductive registry_reply : Type :=
| ReplyFailure (status : Z) (error detail : string)
| ReplySync (status : Z) (body : string) (replayed : bool)
| ReplyVersion (name : string) (v : contractVersionRecord)
| ReplyHistory (name origin : string) (created : time) (versions : list contractVersionRecord)
| ReplyBinding (status : Z) (b : contractExecutionBindingRecord)
| ReplyAction (status : Z) (def : actionDefinition)
| ReplyActions (defs : list actionDefinition)
| ReplyNoContent
| ReplyPanic (* the handler panicked *)
| ReplyDisconnected.

(** [url.PathUnescape]. *)
Fixpoint path_unescape (s : string) : option string :=
  match s with
  | "" => Some ""
  | String "%" s =>
    match s with
    | String a (String b s) => x ← hex_val a; y ← hex_val b; r ← path_unescape s; Some (String (bz (x * 16 + y)) r)
    | _ => None
    end
  | String a s => r ← path_unescape s; Some (String a r)
  end.

Definition contractActionNameParam (raw : string) : contractValidationError + string :=
  let name := TrimSpace (default raw (path_unescape raw)) in
  if contractActionNamePattern name then inr name
  else inl (mkValidationError 400 "invalid_action_name" "action name must start with a letter, use [A-Za-z0-9_.:-], max 128 chars").

Definition contractBindingPath (rawName rawHash : string) : contractValidationError + (string * string) :=
  match contractActionNameParam rawName with
  | inl e => inl e
  | inr name =>
    let hash := TrimSpace rawHash in
    if contractHashPattern hash then inr (name, hash)
    else inl (mkValidationError 400 "invalid_contract_hash" "contract_hash must be 64 lowercase hex chars")
  end.

Definition invalid_contract (e : contractValidationError) : registry_reply := ReplyFailure (cv_status e) (cv_code e) (cv_detail e).
Definition failure (status : Z) (error : string) : registry_reply := ReplyFailure status error "".
Definition unauthenticated : registry_reply := failure 401 "unauthenticated".
Definition storage_error : registry_reply := failure 500 "db_error".

Definition isLikelyUniqueViolation (e : goerror) : bool :=
  let msg := ToLower (error_text e) in Contains msg "unique" || Contains msg "duplicate".

(** ** Bindings *)

Record contractBindingCreateRequest := mkBindingRequest {
  br_TargetActionID : string;
  br_InputMapping : option (gmap string string);
  br_EndpointConfigRef : string;
  br_TimeoutMS : Z;
  br_ReplayClass : string;
  br_IdempotencyRequired : option bool;
}.
Definition contractBindingCreateRequest_zero : contractBindingCreateRequest := mkBindingRequest "" None "" 0 "" None.
#[export] Instance set_br_TargetActionID : Setter br_TargetActionID := _.
#[export] Instance set_br_InputMapping : Setter br_InputMapping := _.
#[export] Instance set_br_EndpointConfigRef : Setter br_EndpointConfigRef := _.
#[export] Instance set_br_TimeoutMS : Setter br_TimeoutMS := _.
#[export] Instance set_br_ReplayClass : Setter br_ReplayClass := _.
#[export] Instance set_br_IdempotencyRequired : Setter br_IdempotencyRequired := _.
Definition contractBindingCreateRequest_fields : list (string * dec contractBindingCreateRequest) :=
  [("target_action_id", field br_TargetActionID (λ x r, r {{ br_TargetActionID := x }}) dec_string);
   ("input_mapping", field br_InputMapping (λ x r, r {{ br_InputMapping := x }}) (dec_map "" dec_string));
   ("endpoint_config_ref", field br_EndpointConfigRef (λ x r, r {{ br_EndpointConfigRef := x }}) dec_string);
   ("timeout_ms", field br_TimeoutMS (λ x r, r {{ br_TimeoutMS := x }}) (dec_int 64));
   ("replay_class", field br_ReplayClass (λ x r, r {{ br_ReplayClass := x }}) dec_string);
   ("idempotency_required", field br_IdempotencyRequired (λ x r, r {{ br_IdempotencyRequired := x }}) (dec_ptr false dec_bool))].

(** The decoder with [DisallowUnknownFields], and the check that nothing but
    white space follows; the text of an error is not kept. *)
Definition decode_binding_request (body : string) : res contractBindingCreateRequest :=
  let s := skip_ws body in
  match parse_val (2 * slen s + 2) max_depth s with
  | None => Err (Errorf "json: invalid syntax")
  | Some (v, rest) =>
    let known := match v with
                 | JObj l => forallb (λ kv, bool_decide (is_Some (find_field contractBindingCreateRequest_fields kv.1))) l
                 | _ => true
                 end in
    let '(r, ok) := dec_struct contractBindingCreateRequest_fields (consumed s rest, v) contractBindingCreateRequest_zero in
    if negb (known && ok) then Err (Errorf "json: cannot decode")
    else if nonempty (skip_ws rest) then Err (Errorf "request must contain exactly one JSON object")
    else Ok r
  end.

Section Handlers.
Context `{Ext} `{MapRange} `{Resolver} `{PgText}.

(** A decoded value as canonical JSON prints it: numbers are [float64]s. *)
Fixpoint value_any (v : jv) : any :=
  match v with
  | JNull => ANil
  | JBool b => ABool b
  | JNum l => ANumber (json_float l)
  | JStr s => AString s
  | JArr l => AList (List.map (λ n, value_any n.2) l)
  | JObj l => AMap (foldl (λ m kv, put kv.1 kv.2 m) [] (List.map (λ kv, (kv.1, value_any kv.2.2)) l))
  end.

(** [canonicaljson.Encode(boundTargetSnapshot{...})]: the fields of a struct are
    printed in their order. *)
Definition target_snapshot (target : actionDefinition) : string :=
  any_json (AMap
    [("name", AString (ad_Name target)); ("target_type", AString (canonicalActionTargetType (ad_TargetType target)));
     ("target_url", AString (ad_TargetURL target)); ("method", AString (ad_Method target));
     ("policy_preset", AString (ad_PolicyPreset target)); ("replay_class", AString (ad_ReplayClass target));
     ("approval_required", ABool (ad_ApprovalRequired target)); ("irreversible", ABool (ad_Irreversible target));
     ("secret_refs", match default [] (ad_SecretRefs target) with [] => ANil | l => AList (AString <$> l) end);
     ("target_metadata", value_any (obj_of (ad_TargetMetadata target)))]).

Definition mapping_text (mapping : option (gmap string string)) : string :=
  match mapping with
  | Some m => any_json (value_any (mk_obj ((λ kv, (kv.1, JStr kv.2)) <$> map_to_list m)))
  | None => "null"
  end.

(** The checks on the target of a binding, up to the mapping of inputs. *)
Definition target_refusal (target : actionDefinition) : option registry_reply :=
  if negb (bool_decide (canonicalActionTargetType (ad_TargetType target) = actionTargetWebhook))
  then Some (ReplyFailure 422 "unsupported_bound_target" "Clock 3B binds only an explicit authenticated webhook target")
  else match ValidateActionTargetURL (ad_TargetURL target) with
  | Err e => Some (ReplyFailure 422 "unsafe_target_url" (error_text e))
  | Ok _ =>
    if negb (localWebhookAuthHeaderPattern (stringFromMap (ad_TargetMetadata target) localWebhookAuthHeaderNameMetadata)) ||
       negb (localWebhookSecretEnvPattern (stringFromMap (ad_TargetMetadata target) localWebhookAuthSecretEnvMetadata))
    then Some (ReplyFailure 422 "adapter_auth_required"
                 "target metadata must reference an allowed auth header and IGRIS_* secret environment variable")
    else None
  end.

(** The binding a request describes, or the refusal. *)
Definition prepare_binding (tenantID name hash : string) (request : contractBindingCreateRequest) (targetID : uuid)
    (version : contractVersionRecord) (target : actionDefinition) : registry_reply + (uuid → time → contractExecutionBindingRecord) :=
  match target_refusal target with
  | Some reply => inl reply
  | None =>
    match contractParameterDescriptors (cr_Contract version) with
    | None => inl (failure 500 "invalid_stored_contract")
    | Some descriptors =>
      match validateContractInputMapping descriptors (default ∅ (br_InputMapping request)) with
      | Err e => inl (ReplyFailure 422 "invalid_input_mapping" (error_text e))
      | Ok _ =>
        let replayClass := if nonempty (TrimSpace (br_ReplayClass request)) then TrimSpace (br_ReplayClass request) else ad_ReplayClass target in
        if negb (validReplayClass replayClass) then inl (failure 422 "invalid_replay_class")
        else if bool_decide (ad_ReplayClass target = "non_retryable") && negb (bool_decide (replayClass = "non_retryable"))
        then inl (ReplyFailure 422 "policy_weakening" "binding replay_class cannot weaken a non_retryable target")
        else
          let targetVersionHash := SHA256Hex (target_snapshot target) in
          let endpointRef := if nonempty (TrimSpace (br_EndpointConfigRef request)) then TrimSpace (br_EndpointConfigRef request)
                             else "action_definition:" +:+ uuid_String (ad_ID target) +:+ "@sha256:" +:+ targetVersionHash in
          if (512 <? slen endpointRef)%nat || looksLikeRawActionSecret endpointRef then inl (failure 422 "invalid_endpoint_config_ref")
          else inr (λ id now, mkBinding id tenantID name (cr_ID version) hash targetID targetVersionHash
                      (jsonb_text (target_snapshot target)) (jsonb_text (mapping_text (br_InputMapping request))) endpointRef 30000
                      replayClass true now)
      end
    end
  end.

(** The insert, with the constraints of the table. *)
Definition insertContractExecutionBinding (i : nat) (new : uuid → time → contractExecutionBindingRecord)
    : rstmt contractExecutionBindingRecord := in_tx i (λ env db x,
  let b := new (en_uuid env) (tx_now x) in
  if existsb (λ y, bool_decide (binding_key y = binding_key b)) (seen_bindings db x)
  then (Err (unique_violation "action_contract_execution_bindings_contract_idx"), x)
  else if existsb (λ y, bool_decide (bi_ID y = bi_ID b)) (everywhere rg_bindings tx_bindings db)
  then (Err (unique_violation "action_contract_execution_bindings_pkey"), x)
  else if negb (existsb (λ v, bool_decide (cr_ID v = bi_ContractVersionID b ∧ version_key v = binding_key b)) (seen_versions db x)) ||
          negb (existsb (λ a, bool_decide (aw_id a = bi_TargetActionID b ∧ aw_tenant_id a = bi_TenantID b)) (seen_actions db x))
  then (Err (Errorf "pq: insert or update violates foreign key constraint"), x)
  else (Ok b, x {{ tx_bindings := tx_bindings x ++ [b] }})).

Definition holds_binding (k : string * string * string) (x : transaction) : bool :=
  existsb (λ y, bool_decide (binding_key y = k)) (tx_bindings x).

(** [loadActionDefinitionByIDFromQuerier]: the row is locked against updates.
    Scanning it may panic. *)
Definition load_target (i : nat) (tenantID : string) (id : uuid) : rstmt (option actionDefinition) := in_tx i (λ _ db x,
  match filter (λ y, aw_tenant_id y = tenantID ∧ aw_id y = id ∧ aw_archived_at y = None) (seen_actions db x) with
  | [] => (Err ErrNoRows, x)
  | y :: _ => (Ok (scanActionDefinition y), x {{ tx_shared := id :: tx_shared x }})
  end).

(** The transaction of [handleContractBindingCreate]. *)
Definition bind_contract (i : nat) (tenantID name hash : string) (request : contractBindingCreateRequest) (targetID : uuid)
    : rprog registry_reply :=
  b ← statement (BeginTx i);
  match b return rprog registry_reply with
  | Err _ => mret storage_error
  | Ok _ =>
    v ← read_versions i (find_version tenantID name hash);
    match optional_row v return rprog registry_reply with
    | Err _ => roll_back i storage_error
    | Ok None => roll_back i (failure 404 "contract_version_not_found")
    | Ok (Some version) =>
      t ← statement (load_target i tenantID targetID);
      match optional_row t return rprog registry_reply with
      | Err _ => roll_back i storage_error
      | Ok None => roll_back i (failure 404 "target_action_not_found")
      | Ok (Some None) => roll_back i ReplyPanic
      | Ok (Some (Some target)) =>
        match prepare_binding tenantID name hash request targetID version target return rprog registry_reply with
        | inl reply => roll_back i reply
        | inr new =>
          r ← waiting (elsewhere i (holds_binding (tenantID, name, hash))) (insertContractExecutionBinding i new);
          match r return rprog registry_reply with
          | Err e =>
            roll_back i (if isLikelyUniqueViolation e
                         then ReplyFailure 409 "binding_exists" "this immutable contract version already has an execution binding"
                         else storage_error)
          | Ok binding => c ← statement (Commit i); mret match c with Ok _ => ReplyBinding 201 binding | Err _ => storage_error end
          end
        end
      end
    end
  end.

Definition handleContractBindingCreate (i : nat) (tenantID rawName rawHash body : string) : rprog registry_reply :=
  if bool_decide (tenantID = "") then mret unauthenticated
  else match contractBindingPath rawName rawHash return rprog registry_reply with
  | inl e => mret (invalid_contract e)
  | inr (name, hash) =>
    match decode_binding_request body return rprog registry_reply with
    | Err e => mret (ReplyFailure 400 "invalid_body" (error_text e))
    | Ok request =>
      match uuid_Parse (TrimSpace (br_TargetActionID request)) return rprog registry_reply with
      | None => mret (failure 422 "invalid_target_action_id")
      | Some targetID =>
        let timeout := if br_TimeoutMS request =? 0 then 30000 else br_TimeoutMS request in
        if negb (timeout =? 30000)
        then mret (ReplyFailure 422 "unsupported_timeout_ms" "Clock 3B uses the existing Runtime HTTP tool's fixed 30000 ms timeout")
        else if negb (default false (br_IdempotencyRequired request))
        then mret (ReplyFailure 422 "idempotency_required" "Clock 3B contract-bound targets must honor end-to-end idempotency")
        else bind_contract i tenantID name hash request targetID
      end
    end
  end.

Definition handleContractBindingGet (tenantID rawName rawHash : string) : rprog registry_reply :=
  if bool_decide (tenantID = "") then mret unauthenticated
  else match contractBindingPath rawName rawHash return rprog registry_reply with
  | inl e => mret (invalid_contract e)
  | inr (name, hash) =>
    r ← statement (λ _ db, (one_row (filter (λ x, binding_key x = (tenantID, name, hash)) (rg_bindings db)), db));
    mret match optional_row r with
         | Err _ => storage_error
         | Ok None => failure 404 "binding_not_found"
         | Ok (Some b) => ReplyBinding 200 b
         end
  end.

(** ** Synchronization and look-up *)

Definition handleContractSync (i : nat) (tenantID key body : string) : rprog registry_reply :=
  let idempotencyKey := TrimSpace key in
  if bool_decide (tenantID = "") then mret unauthenticated
  else if contractSyncMaxBodyBytes <? Z.of_nat (slen body)
  then mret (ReplyFailure 413 "payload_too_large" "request body exceeds 64 KiB")
  else if nonempty idempotencyKey && negb (contractIdempotencyKeyPattern idempotencyKey)
  then mret (ReplyFailure 422 "validation_failed" "Idempotency-Key must be 1-128 chars of [A-Za-z0-9._:-]")
  else match DecodeObjectPreserving body return rprog registry_reply with
  | Err _ => mret (failure 400 "invalid_body")
  | Ok request =>
    match unexpected_key ["contract"; "client"] request return rprog registry_reply with
    | Some field => mret (ReplyFailure 422 "validation_failed" ("unexpected request field: " +:+ field))
    | None =>
      match get "contract" request return rprog registry_reply with
      | Some (AMap contractRaw) =>
        match validateContractV1 contractRaw return rprog registry_reply with
        | inl e => mret (invalid_contract e)
        | inr contract =>
          if nonempty idempotencyKey then
            r ← performIdempotentContractSync i tenantID contract idempotencyKey;
            mret match r with
                 | Err _ => storage_error
                 | Ok Conflicting =>
                   ReplyFailure 409 "idempotency_key_conflict"
                     "this Idempotency-Key was already used with a different contract fingerprint; use a new key"
                 | Ok (Replayed status text) => ReplySync status text true
                 | Ok (Performed response) => ReplySync (sync_status (sr_created response)) (sync_response_text response) false
                 end
          else
            r ← performContractSync i tenantID contract;
            mret match r with
                 | Err _ => storage_error
                 | Ok response => ReplySync (sync_status (sr_created response)) (sync_response_text response) false
                 end
        end
      | _ => mret (ReplyFailure 400 "invalid_body" "contract must be a JSON object")
      end
    end
  end.

Definition history_limit (raw : string) : option Z :=
  let raw := TrimSpace raw in
  if nonempty raw then
    match parse_int 64 raw with
    | Some parsed => if (parsed <? 1) || (contractListMaxLimit <? parsed) then None else Some parsed
    | None => None
    end
  else Some contractListDefaultLimit.

Definition listContractVersions (tenantID name : string) (limit : Z) (before : option time) (l : list contractVersionRecord)
    : list contractVersionRecord :=
  take (Z.to_nat limit)
    (version_history tenantID name (List.filter (λ x, match before with Some t => cr_CreatedAt x <? t | None => true end) l)).

Definition handleContractActionGet (tenantID rawName rawLimit rawBefore : string) : rprog registry_reply :=
  if bool_decide (tenantID = "") then mret unauthenticated
  else match contractActionNameParam rawName return rprog registry_reply with
  | inl e => mret (invalid_contract e)
  | inr name =>
    match history_limit rawLimit return rprog registry_reply with
    | None => mret (ReplyFailure 422 "validation_failed" "limit must be an integer between 1 and 200")
    | Some limit =>
      let raw := TrimSpace rawBefore in
      let before := parse_RFC3339 raw in
      if nonempty raw && bool_decide (before = None)
      then mret (ReplyFailure 422 "validation_failed" "before must be an RFC3339 timestamp")
      else
        a ← statement (λ _ db, (one_row (filter (live_action tenantID name) (rg_actions db)), db));
        match optional_row a return rprog registry_reply with
        | Err _ => mret storage_error
        | Ok None => mret (failure 404 "action_not_found")
        | Ok (Some action) =>
          l ← statement (λ _ db, (Ok (listContractVersions tenantID name limit before (rg_versions db)), db));
          mret match l with
               | Err _ => storage_error
               | Ok l => ReplyHistory name (aw_origin action) (aw_created_at action) l
               end
        end
    end
  end.

Definition handleContractVersionGet (tenantID rawName rawHash : string) : rprog registry_reply :=
  if bool_decide (tenantID = "") then mret unauthenticated
  else match contractActionNameParam rawName return rprog registry_reply with
  | inl e => mret (invalid_contract e)
  | inr name =>
    let hash := TrimSpace rawHash in
    if negb (contractHashPattern hash) then mret (failure 400 "invalid_contract_hash")
    else
      v ← statement (λ _ db, (find_version tenantID name hash (rg_versions db), db));
      mret match optional_row v with
           | Err _ => storage_error
           | Ok None => failure 404 "contract_version_not_found"
           | Ok (Some version) => ReplyVersion name version
           end
  end.

(** ** Definitions *)

Definition live_id (tenantID : string) (id : uuid) (x : action_row) : bool :=
  bool_decide (aw_tenant_id x = tenantID ∧ aw_id x = id ∧ aw_archived_at x = None).

(** A comparison of the id column with a text. *)
Definition with_id {X} (id : string) (q : uuid → rstmt X) : rstmt X := λ env db,
  match pg_uuid id with
  | Some u => q u env db
  | None => (Err (Errorf "pq: invalid input syntax for type uuid"), db)
  end.

(** [loadActionDefinitionByID]: the row, which the handler scans. *)
Definition load_definition (tenantID id : string) : rstmt action_row := with_id id (λ u _ db,
  (one_row (filter (live_id tenantID u) (rg_actions db)), db)).

Definition scanned (status : Z) (x : action_row) : registry_reply :=
  match scanActionDefinition x with Some def => ReplyAction status def | None => ReplyPanic end.

Definition name_index : string := "action_definitions_tenant_name_active_idx".

Definition insert_definition (def : actionDefinition) : rstmt action_row := λ env db,
  let x := definition_row (def {{ ad_ID := en_uuid env }}) (en_now env) (en_now env) "manual" in
  if existsb (live_action (aw_tenant_id x) (aw_name x)) (rg_actions db) then (Err (unique_violation name_index), db)
  else if existsb (λ y, bool_decide (aw_id y = aw_id x)) (everywhere rg_actions tx_actions db) then (Err (unique_violation "action_definitions_pkey"), db)
  else (Ok x, db {{ rg_actions := rg_actions db ++ [x] }}).

Definition update_failure (e : goerror) : registry_reply :=
  if isLikelyUniqueViolation e then failure 409 "action_name_conflict" else storage_error.

Definition handleActionCreate (tenantID body : string) : rprog registry_reply :=
  if bool_decide (tenantID = "") then mret unauthenticated
  else
    let '(req, ok) := unmarshal (dec_struct actionDefinitionRequest_fields) body actionDefinitionRequest_zero in
    if negb ok then mret (failure 400 "invalid_body")
    else match normalizeActionDefinitionRequest req None return rprog registry_reply with
    | None => mret ReplyPanic
    | Some (Err e) => mret (ReplyFailure 400 "invalid_action_definition" (error_text e))
    | Some (Ok def) =>
      r ← waiting (held (holds_action tenantID (ad_Name def))) (insert_definition (def {{ ad_TenantID := tenantID }}));
      mret match r with Ok x => scanned 201 x | Err e => update_failure e end
    end.

Definition handleActionGet (tenantID id : string) : rprog registry_reply :=
  if bool_decide (tenantID = "") then mret unauthenticated
  else
    r ← statement (load_definition tenantID id);
    mret match optional_row r with
         | Err _ => storage_error
         | Ok None => failure 404 "action_not_found"
         | Ok (Some x) => scanned 200 x
         end.

(** The row an update of the definition leaves. *)
Definition updated_row (def : actionDefinition) (now : time) (x : action_row) : action_row :=
  definition_row (def {{ ad_ID := aw_id x; ad_TenantID := aw_tenant_id x }}) (aw_created_at x) now (aw_origin x).

Definition locks_id (id : uuid) (x : transaction) : bool := bool_decide (id ∈ tx_shared x).

Definition update_definition (tenantID : string) (id : uuid) (def : actionDefinition) : rstmt action_row := λ env db,
  match filter (live_id tenantID id) (rg_actions db) with
  | [] => (Err ErrNoRows, db)
  | x :: _ =>
    if existsb (λ y, live_action tenantID (ad_Name def) y && negb (bool_decide (aw_id y = id))) (rg_actions db)
    then (Err (unique_violation name_index), db)
    else (Ok (updated_row def (en_now env) x),
          db {{ rg_actions := (λ y, if live_id tenantID id y then updated_row def (en_now env) y else y) <$> rg_actions db }})
  end.

Definition handleActionPatch (tenantID id body : string) : rprog registry_reply :=
  if bool_decide (tenantID = "") then mret unauthenticated
  else
    r ← statement (load_definition tenantID id);
    match optional_row r return rprog registry_reply with
    | Err _ => mret storage_error
    | Ok None => mret (failure 404 "action_not_found")
    | Ok (Some row) =>
      match scanActionDefinition row return rprog registry_reply with
      | None => mret ReplyPanic
      | Some current =>
        let '(req, ok) := unmarshal (dec_struct actionDefinitionRequest_fields) body actionDefinitionRequest_zero in
        if negb ok then mret (failure 400 "invalid_body")
        else match normalizeActionDefinitionRequest req (Some current) return rprog registry_reply with
        | None => mret ReplyPanic
        | Some (Err e) => mret (ReplyFailure 400 "invalid_action_definition" (error_text e))
        | Some (Ok def) =>
          u ← waiting (held (λ x, locks_id (ad_ID current) x || holds_action tenantID (ad_Name def) x))
                (update_definition tenantID (ad_ID current) def);
          mret match optional_row u with
               | Ok (Some x) => scanned 200 x
               | Ok None => failure 404 "action_not_found"
               | Err e => update_failure e
               end
        end
      end
    end.

Definition archived (now : time) (x : action_row) : action_row :=
  mkActionRow (aw_id x) (aw_tenant_id x) (aw_name x) (aw_display_name x) (aw_description x) (aw_target_type x) (aw_target_url x)
    (aw_method x) (aw_policy_preset x) (aw_replay_class x) (aw_approval_required x) (aw_irreversible x) (aw_secret_refs x)
    (aw_target_metadata x) (aw_fallback_policy x) (aw_created_at x) now (Some now) (aw_origin x).

(** The number of rows affected. *)
Definition archive_definition (tenantID id : string) : rstmt nat := with_id id (λ u env db,
  (Ok (length (List.filter (live_id tenantID u) (rg_actions db))),
   db {{ rg_actions := (λ y, if live_id tenantID u y then archived (en_now env) y else y) <$> rg_actions db }})).

Definition handleActionArchive (tenantID id : string) : rprog registry_reply :=
  if bool_decide (tenantID = "") then mret unauthenticated
  else
    r ← waiting (λ db, match pg_uuid id with Some u => held (locks_id u) db | None => false end) (archive_definition tenantID id);
    mret match r with
         | Err _ => storage_error
         | Ok affected => if (affected =? 0)%nat then failure 404 "action_not_found" else ReplyNoContent
         end.

Definition updated_desc (x y : action_row) : Prop := aw_updated_at y ≤ aw_updated_at x.
#[local] Instance updated_desc_dec x y : Decision (updated_desc x y).
Proof. unfold updated_desc. apply _. Defined.

Definition handleActionList (tenantID : string) : rprog registry_reply :=
  if bool_decide (tenantID = "") then mret unauthenticated
  else
    r ← statement (λ _ db,
          (Ok (take 200 (merge_sort updated_desc (filter (λ x, aw_tenant_id x = tenantID ∧ aw_archived_at x = None) (rg_actions db)))), db));
    mret match r with
         | Err _ => storage_error
         | Ok rows => match all_some (scanActionDefinition <$> rows) with Some defs => ReplyActions defs | None => ReplyPanic end
         end.

(** ** All requests *)

Definition handle_request (i : nat) (req : registry_request) : rprog registry_reply :=
  match req with
  | ContractSync tenantID key body => handleContractSync i tenantID key body
  | ContractActionGet tenantID name limit before => handleContractActionGet tenantID name limit before
  | ContractVersionGet tenantID name hash => handleContractVersionGet tenantID name hash
  | ContractBindingCreate tenantID name hash body => handleContractBindingCreate i tenantID name hash body
  | ContractBindingGet tenantID name hash => handleContractBindingGet tenantID name hash
  | ActionList tenantID => handleActionList tenantID
  | ActionCreate tenantID body => handleActionCreate tenantID body
  | ActionGet tenantID id => handleActionGet tenantID id
  | ActionPatch tenantID id body => handleActionPatch tenantID id body
  | ActionArchive tenantID id => handleActionArchive tenantID id
  | Disconnect j => _ ← statement (Rollback j); mret ReplyDisconnected
  end.

(** A request together with its reply. *)
Definition serve (i : nat) (req : registry_request) : rprog (registry_request * registry_reply) :=
  reply ← handle_request i req; mret (req, reply).
End Handlers.
