(* ===== verification/RegistryLogic.v ===== *)
(** * The invariant of the registry

    What holds of the tables and of the open transactions, how the statements
    keep it, and what a request may rely on while others run. *)

From S2P Require Import Prelude GoStrings Json GoTime Ext CanonicalJson Concurrent Types TaskDef.
From S2P Require Import InputRefs Redaction TargetPolicy.
From S2P Require Import Evidence Actions Contracts Registry RegistryHandlers.
Open Scope Z_scope.

(** ** Rows of one table *)

Section Table.
Context {X : Type} (com : registry → list X) (own : transaction → list X).
Abbreviation all_rows := (everywhere com own).

(** The uncommitted rows of the transactions other than [i]. *)
Definition rest (i : nat) (db : registry) : list X := List.concat ((λ jx, own jx.2) <$> map_to_list (delete i (rg_open db))).

Lemma concat_perm {A} (l l' : list (list A)) : l ≡ₚ l' → List.concat l ≡ₚ List.concat l'.
Proof.
  induction 1 as [|x l l' _ IH|x y l|l l' l'' _ IH1 _ IH2]; cbn; [done|by rewrite IH|by rewrite !(assoc_L app), (comm app x y)|by etrans].
Qed.

Lemma everywhere_open i x db : rg_open db !! i = Some x → all_rows db ≡ₚ (com db ++ own x) ++ rest i db.
Proof.
  intros Hi. unfold everywhere, rest. rewrite <-(assoc_L app). apply Permutation_app_head.
  rewrite (concat_perm _ ((λ jx, own jx.2) <$> (i, x) :: map_to_list (delete i (rg_open db)))); [done|].
  apply fmap_Permutation. by rewrite map_to_list_delete.
Qed.

Lemma everywhere_closed i db : rg_open db !! i = None → all_rows db = com db ++ rest i db.
Proof. intros Hi. unfold everywhere, rest. by rewrite delete_id. Qed.

Lemma elsewhere_rest i (P : transaction → bool) (Q : X → bool) db : (∀ x, P x = existsb Q (own x)) →
  elsewhere i P db = false → ∀ y, y ∈ rest i db → Q y = false.
Proof.
  intros HP He y Hy. unfold rest in Hy. apply list_elem_of_In, in_concat in Hy as (l & Hl & Hy).
  apply list_elem_of_In, list_elem_of_fmap in Hl as ([j x] & -> & Hx). cbn [snd] in *.
  apply not_true_iff_false. intros Hq. apply not_true_iff_false in He. apply He. unfold elsewhere. apply existsb_exists.
  exists (j, x). split; [by apply list_elem_of_In|]. cbn [snd]. rewrite HP. apply existsb_exists. by exists y.
Qed.

Lemma held_none (P : transaction → bool) (Q : X → bool) db : (∀ x, P x = existsb Q (own x)) →
  held P db = false → ∀ y, y ∈ all_rows db → y ∈ com db ∨ Q y = false.
Proof.
  intros HP He y [Hy|Hy]%elem_of_app; [by left|right]. apply list_elem_of_In, in_concat in Hy as (l & Hl & Hy).
  apply list_elem_of_In, list_elem_of_fmap in Hl as ([j x] & -> & Hx). cbn [snd] in *.
  apply not_true_iff_false. intros Hq. apply not_true_iff_false in He. apply He. unfold held. apply existsb_exists.
  exists (j, x). split; [by apply list_elem_of_In|]. cbn [snd]. rewrite HP. apply existsb_exists. by exists y.
Qed.
End Table.

(** [NoDup] of the keys of some rows, a row without key being free. *)
Definition unique_keys {X K} (key : X → option K) (l : list X) : Prop := NoDup (omap key l).

Lemma unique_perm {X K} (key : X → option K) l l' : l ≡ₚ l' → unique_keys key l → unique_keys key l'.
Proof. unfold unique_keys. intros Hp. by rewrite Hp. Qed.

Lemma unique_sub {X K} (key : X → option K) l l' : unique_keys key (l ++ l') → unique_keys key l.
Proof. unfold unique_keys. rewrite omap_app. apply NoDup_app. Qed.

(** A row whose key no other row has. *)
Lemma unique_snoc {X K} (key : X → option K) l y : unique_keys key l → (∀ k z, key y = Some k → z ∈ l → key z ≠ Some k) →
  unique_keys key (l ++ [y]).
Proof.
  unfold unique_keys. intros Hl Hy. rewrite omap_app. apply NoDup_app. split_and!; [done| |].
  - intros k (z & Hz & Hk)%list_elem_of_omap Hk'. cbn in Hk'. destruct (key y) as [k'|] eqn:He; [|by apply elem_of_nil in Hk'].
    apply list_elem_of_singleton in Hk' as ->. by apply (Hy k' z).
  - cbn. destruct (key y); [apply NoDup_singleton|constructor].
Qed.

(** Two rows with one key are one. *)
Lemma unique_eq {X K} (key : X → option K) l y z k : unique_keys key l → y ∈ l → z ∈ l → key y = Some k → key z = Some k → y = z.
Proof.
  intros Hu Hy Hz Hky Hkz. induction l as [|a l IH]; [by apply elem_of_nil in Hy|]. unfold unique_keys in Hu. cbn in Hu.
  apply elem_of_cons in Hy as [->|Hy], Hz as [->|Hz]; [done| | |].
  - rewrite Hky in Hu. apply NoDup_cons in Hu as [Hk _]. exfalso. apply Hk. apply list_elem_of_omap. eauto.
  - rewrite Hkz in Hu. apply NoDup_cons in Hu as [Hk _]. exfalso. apply Hk. apply list_elem_of_omap. eauto.
  - destruct (key a); [apply NoDup_cons in Hu as [_ Hu]|]; by apply IH.
Qed.

Lemma unique_total {X K} (key : X → K) l : unique_keys (Some ∘ key) l ↔ NoDup (key <$> l).
Proof.
  unfold unique_keys. replace (omap (Some ∘ key) l) with (key <$> l); [done|]. induction l as [|a l IH]; [done|].
  cbn [omap list_omap fmap list_fmap]. by rewrite IH.
Qed.

Lemma unique_id_nodup {X K} (id : X → K) l : unique_keys (Some ∘ id) l → NoDup l.
Proof. rewrite unique_total. apply NoDup_fmap_1. Qed.

(** Rows replaced one by one. *)
Lemma unique_forall2 {X K} (key : X → option K) (R : X → X → Prop) l l' : NoDup l → Forall2 R l l' →
  (∀ y z y' z' k, y ∈ l → z ∈ l → R y y' → R z z' → key y' = Some k → key z' = Some k → y = z) → unique_keys key l'.
Proof.
  intros Hd Hl. induction Hl as [|y y' l l' Hy Hl IH]; intros Hk; [constructor|]. apply NoDup_cons in Hd as [Hn Hd].
  assert (unique_keys key l') as Hu by (apply IH; [done|]; intros a b a' b' k ??; apply Hk; by right).
  unfold unique_keys in *. cbn. destruct (key y') as [k|] eqn:He; [|done]. apply NoDup_cons. split; [|done].
  intros (z' & Hz' & Hkz)%list_elem_of_omap. apply list_elem_of_lookup in Hz' as [j Hj].
  destruct (Forall2_lookup_r _ _ _ _ _ Hl Hj) as (z & Hz & HR). apply list_elem_of_lookup_2 in Hz.
  apply Hn. by rewrite (Hk y z y' z' k) by (done || by constructor).
Qed.

(** A table: its keys are unique, its identifiers are unique, its rows are
    sound; over all rows, committed or not. *)
Section Tables.
Context {X K : Type} (com : registry → list X) (own : transaction → list X) (key : X → option K) (id : X → option uuid) (sound : X → Prop).
Context (Hcom : ∀ db o, com (db {{ rg_open := o }}) = com db).

Definition table_ok (db : registry) : Prop :=
  unique_keys key (everywhere com own db) ∧ unique_keys id (everywhere com own db) ∧ Forall sound (everywhere com own db).

Lemma table_perm db db' : everywhere com own db ≡ₚ everywhere com own db' → table_ok db → table_ok db'.
Proof. intros Hp (Hk & Hi & Hs). split_and!; [by eapply unique_perm|by eapply unique_perm|by rewrite <-Hp]. Qed.

Lemma table_sub db db' l : everywhere com own db ≡ₚ everywhere com own db' ++ l → table_ok db → table_ok db'.
Proof.
  intros Hp (Hk & Hi & Hs). split_and!; [by eapply unique_sub, unique_perm|by eapply unique_sub, unique_perm|]. rewrite Hp in Hs.
  by apply Forall_app in Hs as [? _].
Qed.

Lemma rest_open i o db : delete i o = delete i (rg_open db) → rest own i (db {{ rg_open := o }}) = rest own i db.
Proof. intros Ho. unfold rest. change (rg_open (db {{ rg_open := o }})) with o. by rewrite Ho. Qed.

Lemma everywhere_set i x' db : everywhere com own (db {{ rg_open := <[i := x']> (rg_open db) }}) ≡ₚ (com db ++ own x') ++ rest own i db.
Proof using Hcom.
  rewrite (everywhere_open _ _ i x') by exact (lookup_insert_eq (rg_open db) i x'). rewrite Hcom.
  by rewrite rest_open by (by rewrite delete_insert_eq).
Qed.

Lemma table_same i x x' db : rg_open db !! i = Some x → own x' = own x → table_ok db →
  table_ok (db {{ rg_open := <[i := x']> (rg_open db) }}).
Proof using Hcom.
  intros Hi Ho. apply table_perm. rewrite everywhere_set, Ho. by apply everywhere_open.
Qed.

(** The rows of a transaction rewritten, their keys kept. *)
Lemma table_mapped i x x' f db : rg_open db !! i = Some x → own x' = f <$> own x →
  (∀ y, key (f y) = key y ∧ id (f y) = id y ∧ (sound y → sound (f y))) → table_ok db →
  table_ok (db {{ rg_open := <[i := x']> (rg_open db) }}).
Proof using Hcom.
  intros Hi Ho Hf (Hk & Hd & Hs). pose proof (everywhere_set i x' db) as Hp. pose proof (everywhere_open com own i x db Hi) as Hp'. rewrite Ho in Hp.
  assert (∀ {Y} (g : X → option Y), (∀ y, g (f y) = g y) → unique_keys g (everywhere com own db) →
    unique_keys g (everywhere com own (db {{ rg_open := <[i := x']> (rg_open db) }}))) as Hu.
  { intros Y g Hg Hold. eapply unique_perm; [symmetry; exact Hp|]. eapply unique_perm in Hold; [|exact Hp']. unfold unique_keys in *.
    rewrite !omap_app in *. replace (omap g (f <$> own x)) with (omap g (own x)); [done|]. clear -Hg. induction (own x) as [|a l IH]; [done|]. cbn. by rewrite Hg, IH. }
  split_and!; [apply Hu; [apply Hf|done]|apply Hu; [apply Hf|done]|]. rewrite Hp. rewrite Hp' in Hs. rewrite !Forall_app in *. destruct Hs as [[Hs1 Hs2] Hs3].
  split_and!; [done| |done]. rewrite Forall_fmap. eapply Forall_impl; [exact Hs2|]. intros y. apply Hf.
Qed.

Lemma table_added i x x' y db : rg_open db !! i = Some x → own x' = own x ++ [y] → table_ok db →
  (∀ k z, key y = Some k → z ∈ everywhere com own db → key z ≠ Some k) → (∀ k z, id y = Some k → z ∈ everywhere com own db → id z ≠ Some k) →
  sound y → table_ok (db {{ rg_open := <[i := x']> (rg_open db) }}).
Proof using Hcom.
  intros Hi Ho (Hk & Hd & Hs) Hky Hdy Hsy.
  assert (everywhere com own db ++ [y] ≡ₚ everywhere com own (db {{ rg_open := <[i := x']> (rg_open db) }})) as Hp.
  { rewrite everywhere_set, Ho, (everywhere_open com own i x db Hi). rewrite <-!(assoc_L app). do 2 apply Permutation_app_head. apply Permutation_app_comm. }
  split_and!; [by eapply unique_perm, unique_snoc|by eapply unique_perm, unique_snoc|]. rewrite <-Hp. apply Forall_app. by repeat constructor.
Qed.

Lemma table_begin i x' db : own x' = [] → table_ok db → table_ok (db {{ rg_open := <[i := x']> (rg_open db) }}).
Proof using Hcom.
  intros Ho. destruct (rg_open db !! i) as [x|] eqn:Hi.
  - apply (table_sub _ _ (own x)). rewrite everywhere_set, Ho, (everywhere_open com own i x db Hi), app_nil_r. rewrite <-!(assoc_L app).
    apply Permutation_app_head, Permutation_app_comm.
  - apply table_perm. by rewrite everywhere_set, Ho, app_nil_r, (everywhere_closed com own i).
Qed.

Lemma table_drop i db : table_ok db → table_ok (db {{ rg_open := delete i (rg_open db) }}).
Proof using Hcom.
  assert (everywhere com own (db {{ rg_open := delete i (rg_open db) }}) = com db ++ rest own i db) as Hp by (unfold everywhere; by rewrite Hcom).
  destruct (rg_open db !! i) as [x|] eqn:Hi.
  - apply (table_sub _ _ (own x)). rewrite Hp, (everywhere_open com own i x db Hi). rewrite <-!(assoc_L app).
    apply Permutation_app_head, Permutation_app_comm.
  - apply table_perm. by rewrite Hp, (everywhere_closed com own i).
Qed.

Lemma table_commit i x db db' : rg_open db !! i = Some x → com db' = com db ++ own x → rg_open db' = delete i (rg_open db) →
  table_ok db → table_ok db'.
Proof using.
  intros Hi Hc Ho. apply table_perm. rewrite (everywhere_open com own i x db Hi). unfold everywhere, rest. by rewrite Hc, Ho.
Qed.

(** A row inserted outside of transactions. *)
Lemma table_inserted y db db' : rg_open db' = rg_open db → com db' = com db ++ [y] → table_ok db →
  (∀ k z, key y = Some k → z ∈ everywhere com own db → key z ≠ Some k) → (∀ k z, id y = Some k → z ∈ everywhere com own db → id z ≠ Some k) →
  sound y → table_ok db'.
Proof using.
  intros Ho Hc (Hk & Hd & Hs) Hky Hdy Hsy. assert (everywhere com own db ++ [y] ≡ₚ everywhere com own db') as Hp.
  { unfold everywhere. rewrite Ho, Hc. rewrite <-!(assoc_L app). apply Permutation_app_head, Permutation_app_comm. }
  split_and!; [by eapply unique_perm, unique_snoc|by eapply unique_perm, unique_snoc|]. rewrite <-Hp. apply Forall_app. by repeat constructor.
Qed.

(** The committed rows replaced. *)
Lemma table_committed db db' : rg_open db' = rg_open db → com db' = com db → table_ok db → table_ok db'.
Proof using. intros Ho Hc. apply table_perm. unfold everywhere. by rewrite Ho, Hc. Qed.

(** A key that neither the rows a statement sees nor those it waits for have. *)
Lemma fresh_key `{EqDecision K} i x db k (P : transaction → bool) : rg_open db !! i = Some x →
  (∀ x, P x = existsb (λ y, bool_decide (key y = Some k)) (own x)) → elsewhere i P db = false →
  existsb (λ y, bool_decide (key y = Some k)) (com db ++ own x) = false → ∀ z, z ∈ everywhere com own db → key z ≠ Some k.
Proof using.
  intros Hi HP He Hs z Hz Hk. rewrite (everywhere_open com own i x db Hi) in Hz. apply elem_of_app in Hz as [Hz|Hz].
  - apply not_true_iff_false in Hs. apply Hs. apply existsb_exists. exists z. split; [by apply list_elem_of_In|by apply bool_decide_eq_true].
  - apply (elsewhere_rest own i P _ db HP He) in Hz. by apply bool_decide_eq_false in Hz.
Qed.
End Tables.
