(* ===== verification/RegistryInv.v ===== *)
(** * Statements keep the registry's invariant

    The soundness of each table's rows, the invariant over committed and
    uncommitted rows, and a lemma per statement. *)

From S2P Require Import Prelude GoStrings Json GoTime Ext CanonicalJson Concurrent Types TaskDef.
From S2P Require Import InputRefs Redaction TargetPolicy.
From S2P Require Import Evidence Actions ActionFacts Contracts Registry RegistryHandlers.
From S2P Require Import RegistryLogic.
Open Scope Z_scope.

Section Inv.
Context `{Ext} `{MapRange} `{Resolver} `{PgText}.

(** ** Rows *)

Definition action_key (x : action_row) : option (string * string) :=
  if bool_decide (aw_archived_at x = None) then Some (aw_tenant_id x, aw_name x) else None.

(** Declared by a synchronization, or registered by an operator. *)
Definition declared_action (x : action_row) : Prop :=
  ∃ tenantID name id now, let y := logical_action tenantID name id now in x = y ∨ ∃ t, x = archived t y.
Definition registered_action (x : action_row) : Prop :=
  ∃ def created now origin, typed_definition def ∧ let y := definition_row def created now origin in x = y ∨ ∃ t, x = archived t y.
Definition action_sound (x : action_row) : Prop := declared_action x ∨ registered_action x.

(** A version holds a validated contract under the hash of its bytes. *)
Definition version_sound (v : contractVersionRecord) : Prop :=
  ∃ contract vc sensitive flags, validateContractV1 contract = inr vc ∧
    v = new_version (cr_tenant_id v) vc sensitive flags (cr_ID v) (cr_CreatedAt v).

(** A response describes a version. *)
Definition describes (r : sync_response) (v : contractVersionRecord) : Prop :=
  sr_action_name r = cr_action_name v ∧ sr_version_id r = cr_ID v ∧ sr_contract_hash r = cr_ContractHash v ∧
  sr_schema_version r = cr_SchemaVersion v ∧ sr_created_at r = cr_CreatedAt v ∧ sr_sensitive r = cr_SecuritySensitiveChange v.

(** An idempotency record holds a response on the version of its fingerprint. *)
Definition sync_complete (vs : list contractVersionRecord) (y : sync_row) : Prop :=
  ∃ r v, v ∈ vs ∧ version_key v = (si_tenant_id y, si_action_name y, si_RequestFingerprint y) ∧ describes r v ∧
    si_ResponseStatus y = sync_status (sr_created r) ∧ si_ResponseBody y = jsonb_text (sync_response_text r).

(** A binding is what a request prepared from a version and a definition. *)
Definition binding_sound (vs : list contractVersionRecord) (acts : list action_row) (b : contractExecutionBindingRecord) : Prop :=
  ∃ v row target request new, v ∈ vs ∧ version_key v = binding_key b ∧
    (∃ a, a ∈ acts ∧ aw_id a = bi_TargetActionID b ∧ aw_tenant_id a = bi_TenantID b) ∧
    scanActionDefinition row = Some target ∧ aw_id row = bi_TargetActionID b ∧ aw_tenant_id row = bi_TenantID b ∧
    prepare_binding (bi_TenantID b) (bi_ActionName b) (bi_ContractHash b) request (bi_TargetActionID b) v target = inr new ∧
    b = new (bi_ID b) (bi_CreatedAt b).

(** ** The invariant *)

Definition actions_ok : registry → Prop := table_ok rg_actions tx_actions action_key (Some ∘ aw_id) action_sound.
Definition versions_ok : registry → Prop := table_ok rg_versions tx_versions (Some ∘ version_key) (Some ∘ cr_ID) version_sound.
Definition syncs_ok : registry → Prop := table_ok rg_syncs tx_syncs (Some ∘ sync_key) (λ _, None) (λ _, True).
Definition bindings_ok : registry → Prop := table_ok rg_bindings tx_bindings (Some ∘ binding_key) (Some ∘ bi_ID) (λ _, True).

Record registry_inv (db : registry) : Prop := {
  ri_actions : actions_ok db;
  ri_versions : versions_ok db;
  ri_syncs : syncs_ok db;
  ri_bindings : bindings_ok db;
  ri_complete : Forall (sync_complete (rg_versions db)) (rg_syncs db);
  ri_bound : Forall (binding_sound (rg_versions db) (rg_actions db)) (rg_bindings db);
  ri_pending i x : rg_open db !! i = Some x → Forall (binding_sound (seen_versions db x) (seen_actions db x)) (tx_bindings x);
}.

Lemma empty_registry_inv : registry_inv (mkRegistry [] [] [] [] ∅).
Proof. split; by repeat constructor. Qed.

(** ** How the registry moves *)

(** A definition that was committed is still there: under its id, for its
    tenant, with its origin, and unchanged once archived. *)
Definition action_kept (x x' : action_row) : Prop :=
  aw_id x' = aw_id x ∧ aw_tenant_id x' = aw_tenant_id x ∧ aw_created_at x' = aw_created_at x ∧ aw_origin x' = aw_origin x ∧
  (aw_archived_at x ≠ None → x' = x).

Record advances (db db' : registry) : Prop := {
  av_versions : ∃ l, rg_versions db' = rg_versions db ++ l;
  av_syncs : ∃ l, rg_syncs db' = rg_syncs db ++ l;
  av_bindings : ∃ l, rg_bindings db' = rg_bindings db ++ l;
  av_actions : ∀ x, x ∈ rg_actions db → ∃ x', x' ∈ rg_actions db' ∧ action_kept x x';
}.

Lemma action_kept_refl x : action_kept x x.
Proof. by repeat split. Qed.

Lemma action_kept_trans x y z : action_kept x y → action_kept y z → action_kept x z.
Proof.
  intros (I1 & T1 & C1 & O1 & A1) (I2 & T2 & C2 & O2 & A2). split_and!; [congruence..|]. intros Hx. rewrite <-(A1 Hx). apply A2. by rewrite (A1 Hx).
Qed.

#[export] Instance advances_preorder : PreOrder advances.
Proof.
  split.
  - intros db. split; [by exists []; rewrite app_nil_r..|]. intros x Hx. exists x. split; [done|apply action_kept_refl].
  - intros a b c [[v1 V1] [s1 S1] [b1 B1] A1] [[v2 V2] [s2 S2] [b2 B2] A2]. split.
    + exists (v1 ++ v2). by rewrite V2, V1, (assoc_L app).
    + exists (s1 ++ s2). by rewrite S2, S1, (assoc_L app).
    + exists (b1 ++ b2). by rewrite B2, B1, (assoc_L app).
    + intros x Hx. destruct (A1 x Hx) as (y & Hy & Hxy). destruct (A2 y Hy) as (z & Hz & Hyz). exists z. split; [done|by eapply action_kept_trans].
Qed.

(** The definitions a transaction has locked stay as they are. *)
Definition locked_kept (x : transaction) (db db' : registry) : Prop :=
  ∀ row, row ∈ rg_actions db → aw_id row ∈ tx_shared x → row ∈ rg_actions db'.

(** A binding whose target is live and as its snapshot says. *)
Definition current (acts : list action_row) (b : contractExecutionBindingRecord) : Prop :=
  ∃ row target, row ∈ acts ∧ live_id (bi_TenantID b) (bi_TargetActionID b) row = true ∧ scanActionDefinition row = Some target ∧
    target_refusal target = None ∧ bi_TargetVersionHash b = SHA256Hex (target_snapshot target) ∧
    bi_TargetSnapshot b = jsonb_text (target_snapshot target).

(** The steps of request [i]: other transactions stay as they are or end, what
    they have locked is not changed, and a binding that is published is current. *)
Record step_of (i : nat) (db db' : registry) : Prop := {
  so_advances : advances db db';
  so_open j : j ≠ i → rg_open db' !! j = rg_open db !! j ∨ rg_open db' !! j = None;
  so_locked j x : j ≠ i → rg_open db !! j = Some x → locked_kept x db db';
  so_published b : b ∈ rg_bindings db' → b ∈ rg_bindings db ∨ current (rg_actions db') b;
}.

#[export] Instance step_of_refl i : Reflexive (step_of i).
Proof.
  intros db. split; [done| | |].
  - by left.
  - by intros j x _ _ row Hrow _.
  - by left.
Qed.

Lemma same_tables db db' : rg_actions db' = rg_actions db → rg_versions db' = rg_versions db → rg_syncs db' = rg_syncs db →
  rg_bindings db' = rg_bindings db → advances db db'.
Proof.
  intros Ha Hv Hs Hb. split; [by exists []; rewrite app_nil_r..|]. intros x Hx. exists x. rewrite Ha. split; [done|apply action_kept_refl].
Qed.

Lemma step_open i o db : (∀ j, j ≠ i → o !! j = rg_open db !! j ∨ o !! j = None) → step_of i db (db {{ rg_open := o }}).
Proof. intros Ho. split; [by apply same_tables|exact Ho|by intros j x _ _ row Hrow _|by left]. Qed.

Lemma step_set i x db : step_of i db (db {{ rg_open := <[i := x]> (rg_open db) }}).
Proof. apply step_open. intros j Hj. left. by apply lookup_insert_ne. Qed.

Lemma step_drop i j db : step_of i db (db {{ rg_open := delete j (rg_open db) }}).
Proof.
  apply step_open. intros k Hk. destruct (decide (j = k)) as [->|Hne]; [right; apply lookup_delete_eq|left; by apply lookup_delete_ne].
Qed.

(** ** What is known stays known *)

Lemma complete_mono vs vs' y : vs ⊆ vs' → sync_complete vs y → sync_complete vs' y.
Proof. intros Hs (r & v & Hv & Hrest). exists r, v. split; [by apply Hs|done]. Qed.

Lemma binding_mono vs vs' acts acts' b : vs ⊆ vs' → (∀ a, a ∈ acts → ∃ a', a' ∈ acts' ∧ action_kept a a') →
  binding_sound vs acts b → binding_sound vs' acts' b.
Proof.
  intros Hv Ha (v & row & target & request & new & Hin & Hk & (a & Hain & Hid & Ht) & Hrest). exists v, row, target, request, new.
  split; [by apply Hv|]. split; [done|]. split; [|done]. destruct (Ha a Hain) as (a' & Hin' & Hid' & Ht' & _). exists a'. split_and!; [done|congruence..].
Qed.

Lemma advances_versions db db' : advances db db' → rg_versions db ⊆ rg_versions db'.
Proof. intros [[l ->] _ _ _]. set_solver. Qed.

Lemma kept_all acts acts' l : (∀ a, a ∈ acts → ∃ a', a' ∈ acts' ∧ action_kept a a') →
  ∀ a, a ∈ acts ++ l → ∃ a', a' ∈ acts' ++ l ∧ action_kept a a'.
Proof.
  intros Ha a [Hin|Hin]%elem_of_app.
  - destruct (Ha a Hin) as (a' & ? & ?). exists a'. split; [apply elem_of_app; by left|done].
  - exists a. split; [apply elem_of_app; by right|apply action_kept_refl].
Qed.

(** The uncommitted bindings of a transaction, after a step of another one. *)
Lemma pending_mono db db' x : advances db db' → Forall (binding_sound (seen_versions db x) (seen_actions db x)) (tx_bindings x) →
  Forall (binding_sound (seen_versions db' x) (seen_actions db' x)) (tx_bindings x).
Proof.
  intros Hadv Hb. eapply Forall_impl; [exact Hb|]. intros b. apply binding_mono; [|apply kept_all, Hadv].
  apply advances_versions in Hadv. unfold seen_versions. set_solver.
Qed.
End Inv.
