(* ===== verification/RegistrySteps.v ===== *)
(** * Statements keep the registry's invariant

    One lemma per statement that writes, and what the statement leaves behind. *)

From S2P Require Import Prelude GoStrings Json GoTime Ext CanonicalJson Concurrent Types TaskDef.
From S2P Require Import InputRefs Redaction TargetPolicy.
From S2P Require Import Evidence Actions ActionFacts Contracts Registry RegistryHandlers.
From S2P Require Import RegistryLogic RegistryInv.
Open Scope Z_scope.

Section Steps.
Context `{Ext} `{MapRange} `{Resolver} `{PgText}.

(** The registry with another transaction [i]. *)
Abbreviation set_tx db i x := (db {{ rg_open := <[i := x]> (rg_open db) }}).

Lemma set_same i x db : rg_open db !! i = Some x → set_tx db i x = db.
Proof. intros Hi. destruct db. cbn in *. by rewrite insert_id. Qed.

Lemma set_lookup i x db : rg_open (set_tx db i x) !! i = Some x.
Proof. apply lookup_insert_eq. Qed.

Lemma inv_set i x' db : registry_inv db → actions_ok (set_tx db i x') → versions_ok (set_tx db i x') → syncs_ok (set_tx db i x') →
  bindings_ok (set_tx db i x') → Forall (binding_sound (seen_versions db x') (seen_actions db x')) (tx_bindings x') →
  registry_inv (set_tx db i x').
Proof.
  intros Hinv Ha Hv Hs Hb Hp. split; [done..|apply Hinv|apply Hinv|]. intros j x Hj.
  change (<[i := x']> (rg_open db) !! j = Some x) in Hj. apply lookup_insert_Some in Hj as [[_ <-]|[_ Hj]]; [exact Hp|by eapply ri_pending in Hj].
Qed.

Lemma begin_inv i env db : registry_inv db → registry_inv (BeginTx i env db).2.
Proof.
  intros Hinv. apply inv_set; [done|by apply table_begin, Hinv..|constructor].
Qed.

Lemma drop_inv j db : registry_inv db → registry_inv (db {{ rg_open := delete j (rg_open db) }}).
Proof.
  intros Hinv. split; [by apply table_drop, Hinv..|apply Hinv|apply Hinv|]. intros k x Hk.
  change (delete j (rg_open db) !! k = Some x) in Hk. apply lookup_delete_Some in Hk as [_ Hk]. by eapply ri_pending in Hk.
Qed.

(** ** Inserts *)

Lemma live_key tenantID name y : live_action tenantID name y = bool_decide (action_key y = Some (tenantID, name)).
Proof.
  unfold live_action, action_key. apply bool_decide_ext. destruct (decide (aw_archived_at y = None)) as [He|He].
  - rewrite bool_decide_true by done. naive_solver.
  - rewrite bool_decide_false by done. naive_solver.
Qed.

Lemma no_id {X} (id : X → uuid) u (l : list X) : existsb (λ y, bool_decide (id y = u)) l = false →
  ∀ k z, Some u = Some k → z ∈ l → (Some ∘ id) z ≠ Some k.
Proof.
  intros He k z [= <-] Hz [= Hk]. apply not_true_iff_false in He. apply He. apply existsb_exists. exists z.
  split; [by apply list_elem_of_In|by apply bool_decide_eq_true].
Qed.

Lemma live_existsb tenantID name l : existsb (live_action tenantID name) l = existsb (λ y, bool_decide (action_key y = Some (tenantID, name))) l.
Proof. induction l as [|y l IH]; [done|]. cbn. by rewrite IH, live_key. Qed.

Lemma holds_action_key tenantID name x :
  holds_action tenantID name x = existsb (λ y, bool_decide (action_key y = Some (tenantID, name))) (tx_actions x).
Proof. apply live_existsb. Qed.

Lemma insert_logical_inv i tenantID name env db : registry_inv db → elsewhere i (holds_action tenantID name) db = false →
  registry_inv (insert_logical_action i tenantID name env db).2.
Proof.
  intros Hinv Hw. unfold insert_logical_action, in_tx. destruct (rg_open db !! i) as [x|] eqn:Hi; [|done].
  destruct (existsb (live_action _ _) _) eqn:Hl; [cbn [snd]; by rewrite set_same|].
  destruct (existsb _ (everywhere _ _ _)) eqn:Hid; [cbn [snd]; by rewrite set_same|]. cbn [snd]. apply inv_set; [done| | | | |].
  - eapply table_added; [done|done| |apply Hinv| | |]; [by destruct x| |by eapply no_id|left; by eexists _, _, _, _; left].
    intros k z [= <-]. eapply (fresh_key _ _ _ i x db _ _ Hi); [apply holds_action_key|done|]. by rewrite <-live_existsb.
  - eapply table_same; [done|done|by destruct x|apply Hinv].
  - eapply table_same; [done|done|by destruct x|apply Hinv].
  - eapply table_same; [done|done|by destruct x|apply Hinv].
  - destruct x. eapply Forall_impl; [exact (ri_pending db Hinv i _ Hi)|]. intros b. apply binding_mono; [done|].
    intros a Ha. exists a. split; [|apply action_kept_refl]. unfold seen_actions in *. cbn in *. set_solver.
Qed.

Lemma some_existsb {X K} `{EqDecision K} (key : X → K) k l :
  existsb (λ y, bool_decide (key y = k)) l = existsb (λ y, bool_decide ((Some ∘ key) y = Some k)) l.
Proof.
  induction l as [|y l IH]; [done|]. cbn. rewrite IH. f_equal. apply bool_decide_ext. split; [by intros ->|by intros [= ?]].
Qed.

Lemma claim_inv i tenantID name key fingerprint env db :
  registry_inv db → elsewhere i (holds_sync (tenantID, name, key)) db = false →
  registry_inv (claimContractSyncIdempotencyRecord i tenantID name key fingerprint env db).2.
Proof.
  intros Hinv Hw. unfold claimContractSyncIdempotencyRecord, in_tx. destruct (rg_open db !! i) as [x|] eqn:Hi; [|done].
  destruct (existsb _ _) eqn:Hl; cbn [snd]; [by rewrite set_same|]. apply inv_set; [done| | | | |].
  - eapply table_same; [done|done|by destruct x|apply Hinv].
  - eapply table_same; [done|done|by destruct x|apply Hinv].
  - eapply table_added; [done|done| |apply Hinv| |done|done]; [by destruct x|].
    intros k z [= <-]. eapply (fresh_key _ _ _ i x db _ _ Hi); [intros x'; apply some_existsb|done|]. by rewrite <-some_existsb.
  - eapply table_same; [done|done|by destruct x|apply Hinv].
  - destruct x. exact (ri_pending db Hinv i _ Hi).
Qed.

Lemma version_inv i tenantID contract vc sensitive flags env db : validateContractV1 contract = inr vc →
  registry_inv db → elsewhere i (holds_version (tenantID, vc_ActionName vc, vc_RecomputedHash vc)) db = false →
  registry_inv (insertContractVersion i tenantID vc sensitive flags env db).2.
Proof.
  intros Hc Hinv Hw. unfold insertContractVersion, in_tx. destruct (rg_open db !! i) as [x|] eqn:Hi; [|done].
  destruct (existsb _ (seen_versions _ _)) eqn:Hl; [cbn [snd]; by rewrite set_same|].
  destruct (existsb _ (everywhere _ _ _)) eqn:Hid; [cbn [snd]; by rewrite set_same|]. cbn [snd]. apply inv_set; [done| | | | |].
  - eapply table_same; [done|done|by destruct x|apply Hinv].
  - eapply table_added; [done|done| |apply Hinv| |by eapply no_id|by exists contract, vc, sensitive, flags]; [by destruct x|].
    intros k z [= <-]. eapply (fresh_key _ _ _ i x db _ _ Hi); [intros x'; apply some_existsb|done|]. by rewrite <-some_existsb.
  - eapply table_same; [done|done|by destruct x|apply Hinv].
  - eapply table_same; [done|done|by destruct x|apply Hinv].
  - destruct x. eapply Forall_impl; [exact (ri_pending db Hinv i _ Hi)|]. intros b. apply binding_mono.
    + unfold seen_versions. cbn. set_solver.
    + intros a Ha. exists a. split; [done|apply action_kept_refl].
Qed.

Lemma complete_inv i tenantID name key fingerprint status body env db : registry_inv db →
  registry_inv (completeContractSyncIdempotencyRecord i tenantID name key fingerprint status body env db).2.
Proof.
  intros Hinv. unfold completeContractSyncIdempotencyRecord, in_tx. destruct (rg_open db !! i) as [x|] eqn:Hi; [|done].
  cbv zeta. destruct (_ =? 1)%nat; cbn [snd]; [|by rewrite set_same]. apply inv_set; [done| | | | |].
  - eapply table_same; [done|done|by destruct x|apply Hinv].
  - eapply table_same; [done|done|by destruct x|apply Hinv].
  - eapply table_mapped; [done|done|destruct x; reflexivity| |apply Hinv]. intros y. cbv beta. case_bool_decide as Hy; [|done].
    destruct Hy as [Hy _]. unfold compose. by rewrite Hy.
  - eapply table_same; [done|done|by destruct x|apply Hinv].
  - destruct x. exact (ri_pending db Hinv i _ Hi).
Qed.

(** A lock changes nothing but the transaction's list of locks. *)
Lemma lock_inv i x id db : registry_inv db → rg_open db !! i = Some x → registry_inv (set_tx db i (x {{ tx_shared := id :: tx_shared x }})).
Proof.
  intros Hinv Hi. apply inv_set; [done|by eapply table_same; [done|done|by destruct x|apply Hinv]..|].
  destruct x. exact (ri_pending db Hinv i _ Hi).
Qed.

Lemma load_target_inv i tenantID id env db : registry_inv db → registry_inv (load_target i tenantID id env db).2.
Proof.
  intros Hinv. unfold load_target, in_tx. destruct (rg_open db !! i) as [x|] eqn:Hi; [|done].
  destruct (filter _ _); cbn [snd]; [by rewrite set_same|by apply lock_inv].
Qed.

Lemma binding_inv i new env db :
  registry_inv db → (∀ x, rg_open db !! i = Some x → let b := new (en_uuid env) (tx_now x) in
    elsewhere i (holds_binding (binding_key b)) db = false ∧ binding_sound (seen_versions db x) (seen_actions db x) b) →
  registry_inv (insertContractExecutionBinding i new env db).2.
Proof.
  intros Hinv Hnew. unfold insertContractExecutionBinding, in_tx. destruct (rg_open db !! i) as [x|] eqn:Hi; [|done].
  destruct (Hnew x eq_refl) as [Hw Hb]. cbv zeta in *. set (b := new (en_uuid env) (tx_now x)) in *.
  destruct (existsb _ (seen_bindings _ _)) eqn:Hl; [cbn [snd]; by rewrite set_same|].
  destruct (existsb _ (everywhere _ _ _)) eqn:Hid; [cbn [snd]; by rewrite set_same|].
  destruct (negb _ || negb _); [cbn [snd]; by rewrite set_same|]. cbn [snd]. apply inv_set; [done| | | | |].
  - eapply table_same; [done|done|by destruct x|apply Hinv].
  - eapply table_same; [done|done|by destruct x|apply Hinv].
  - eapply table_same; [done|done|by destruct x|apply Hinv].
  - eapply table_added; [done|done| |apply Hinv| |by eapply no_id|done]; [by destruct x|].
    intros k z [= <-]. eapply (fresh_key _ _ _ i x db _ _ Hi); [intros x'; apply some_existsb|done|]. by rewrite <-some_existsb.
  - destruct x. apply Forall_app. split; [exact (ri_pending db Hinv i _ Hi)|by repeat constructor].
Qed.

(** ** Commit *)

Lemma commit_inv i x env db : registry_inv db → rg_open db !! i = Some x → Forall (sync_complete (seen_versions db x)) (tx_syncs x) →
  registry_inv (Commit i env db).2.
Proof.
  intros Hinv Hi Hs. unfold Commit. rewrite Hi. cbn [snd]. split; [by eapply table_commit; [exact Hi|done|done|apply Hinv]..| | |].
  - apply Forall_app. split; [|done]. eapply Forall_impl; [apply Hinv|]. intros y. apply complete_mono. cbn. set_solver.
  - apply Forall_app. split; [|exact (ri_pending db Hinv i _ Hi)]. eapply Forall_impl; [apply Hinv|].
    intros b. apply binding_mono; [cbn; set_solver|]. intros a Ha. exists a. split; [cbn; set_solver|apply action_kept_refl].
  - intros j y Hj. change (delete i (rg_open db) !! j = Some y) in Hj. apply lookup_delete_Some in Hj as [_ Hj]. eapply Forall_impl; [exact (ri_pending db Hinv j _ Hj)|]. intros b.
    apply binding_mono; [unfold seen_versions; cbn; set_solver|]. intros a Ha. exists a. split; [unfold seen_actions in *; cbn; set_solver|apply action_kept_refl].
Qed.

Lemma commit_step i x env db : rg_open db !! i = Some x → Forall (current (seen_actions db x)) (tx_bindings x) →
  step_of i db (Commit i env db).2.
Proof.
  intros Hi Hb. unfold Commit. rewrite Hi. cbn [snd]. split.
  - split; [by eexists..|]. intros a Ha. exists a. split; [cbn; set_solver|apply action_kept_refl].
  - intros j Hj. left. by apply lookup_delete_ne.
  - intros j y _ _ row Hr _. cbn. set_solver.
  - intros b [Hb'|Hb']%elem_of_app; [by left|right]. rewrite Forall_forall in Hb. by apply Hb.
Qed.

(** ** Definitions *)

(** Every live definition of the tenant and identifier rewritten. *)
Abbreviation rewrite_rows t u g db := (db {{ rg_actions := (λ y, if live_id t u y then g y else y) <$> rg_actions db }}).

Section Rewrite.
Context (t : string) (u : uuid) (g : action_row → action_row) (db : registry) (Hinv : registry_inv db).
Context (Hg : ∀ y, y ∈ rg_actions db → live_id t u y = true →
  (aw_id (g y) = aw_id y ∧ aw_tenant_id (g y) = aw_tenant_id y ∧ aw_created_at (g y) = aw_created_at y ∧ aw_origin (g y) = aw_origin y) ∧
  action_sound (g y)).
Context (Hk : ∀ y z k, y ∈ rg_actions db → live_id t u y = true → z ∈ everywhere rg_actions tx_actions db → action_key (g y) = Some k →
  action_key z = Some k → aw_id z = u).

Lemma live_id_spec y : live_id t u y = true ↔ aw_tenant_id y = t ∧ aw_id y = u ∧ aw_archived_at y = None.
Proof. apply bool_decide_eq_true. Qed.

Lemma rewrite_kept y : y ∈ rg_actions db → action_kept y (if live_id t u y then g y else y).
Proof using Hg.
  intros Hy. destruct (live_id t u y) eqn:Hl; [|apply action_kept_refl]. destruct (Hg y Hy Hl) as [(? & ? & ? & ?) _].
  apply live_id_spec in Hl as (_ & _ & Ha). by split_and!.
Qed.

Lemma rewrite_advances : advances db (rewrite_rows t u g db).
Proof using Hg.
  split; [by exists []; rewrite app_nil_r..|]. intros y Hy. eexists. split; [|by apply rewrite_kept].
  change (rg_actions (rewrite_rows t u g db)) with ((λ y, if live_id t u y then g y else y) <$> rg_actions db).
  apply list_elem_of_fmap. by exists y.
Qed.

Lemma rewrite_actions : actions_ok (rewrite_rows t u g db).
Proof using Hinv Hg Hk.
  destruct (ri_actions db Hinv) as (Hkeys & Hids & Hs). set (R := λ y y', y' = y ∨ y ∈ rg_actions db ∧ live_id t u y = true ∧ y' = g y).
  assert (Forall2 R (everywhere rg_actions tx_actions db) (everywhere rg_actions tx_actions (rewrite_rows t u g db))) as HR.
  { unfold everywhere. change (rg_open (rewrite_rows t u g db)) with (rg_open db). apply Forall2_app; [|apply Forall_Forall2_diag, Forall_true; intros y; by left].
    change (rg_actions (rewrite_rows t u g db)) with ((λ y, if live_id t u y then g y else y) <$> rg_actions db).
    apply Forall2_fmap_r, Forall_Forall2_diag, Forall_forall. intros y Hy. unfold R, compose. destruct (live_id t u y) eqn:Hl; [right; by split_and!|by left]. }
  assert (∀ y y', R y y' → aw_id y' = aw_id y) as Hid by (intros y y' [->|(Hy & Hl & ->)]; [done|by apply Hg]).
  assert (∀ y z, y ∈ everywhere rg_actions tx_actions db → z ∈ everywhere rg_actions tx_actions db → aw_id y = aw_id z → y = z) as Heq.
  { intros y z Hy Hz He. eapply (unique_eq (Some ∘ aw_id)); [exact Hids|done|done|done|]. unfold compose. by rewrite He. }
  pose proof (unique_id_nodup _ _ Hids) as Hnd. split_and!.
  - eapply unique_forall2; [exact Hnd|exact HR|]. intros y z y' z' k Hy Hz [->|(Hy' & Hly & ->)] [->|(Hz' & Hlz & ->)] Ky Kz.
    + eapply unique_eq; [exact Hkeys|done|done|exact Ky|exact Kz].
    + apply Heq; [done|done|]. rewrite (Hk z y k) by done. by apply live_id_spec in Hlz as (_ & -> & _).
    + apply Heq; [done|done|]. rewrite (Hk y z k) by done. by apply live_id_spec in Hly as (_ & -> & _).
    + apply Heq; [done|done|]. apply live_id_spec in Hlz as (_ & -> & _). by apply live_id_spec in Hly as (_ & -> & _).
  - eapply unique_forall2; [exact Hnd|exact HR|]. intros y z y' z' k Hy Hz Ry Rz [= Ky] [= Kz]. apply Heq; [done|done|].
    rewrite <-(Hid _ _ Ry), <-(Hid _ _ Rz). congruence.
  - apply Forall_forall. intros y' Hy'. apply list_elem_of_lookup in Hy' as [j Hj]. destruct (Forall2_lookup_r _ _ _ _ _ HR Hj) as (y & Hy & Ry).
    destruct Ry as [->|(Hy' & Hl & ->)]; [|by apply Hg]. rewrite Forall_lookup in Hs. by eapply Hs.
Qed.

Lemma rewrite_inv : registry_inv (rewrite_rows t u g db).
Proof using Hinv Hg Hk.
  pose proof rewrite_advances as Hadv. split; [exact rewrite_actions|by eapply table_committed; [..|apply Hinv]..|apply Hinv| |].
  - eapply Forall_impl; [apply Hinv|]. intros b. apply binding_mono; [done|apply Hadv].
  - intros j x Hj. eapply pending_mono; [exact Hadv|]. by eapply ri_pending.
Qed.

Lemma rewrite_step i : held (locks_id u) db = false → step_of i db (rewrite_rows t u g db).
Proof using Hg.
  intros Hh. split; [exact rewrite_advances|by left| |by left]. intros j x _ Hj row Hr Hl.
  change (rg_actions (rewrite_rows t u g db)) with ((λ y, if live_id t u y then g y else y) <$> rg_actions db).
  apply list_elem_of_fmap. exists row. split; [|done]. destruct (live_id t u row) eqn:Hlive; [|done]. exfalso.
  apply live_id_spec in Hlive as (_ & Hid & _). apply not_true_iff_false in Hh. apply Hh. unfold held. apply existsb_exists.
  exists (j, x). split; [by apply list_elem_of_In, elem_of_map_to_list|]. apply bool_decide_eq_true. cbn. by rewrite <-Hid.
Qed.
End Rewrite.

Lemma definition_row_fields def created now origin : let x := definition_row def created now origin in
  aw_id x = ad_ID def ∧ aw_tenant_id x = ad_TenantID def ∧ aw_name x = ad_Name def ∧ aw_created_at x = created ∧ aw_origin x = origin ∧
  aw_archived_at x = None.
Proof. unfold definition_row. by destruct (marshalActionJSON def) as [[??]?]. Qed.

Lemma definition_row_key def created now origin : action_key (definition_row def created now origin) = Some (ad_TenantID def, ad_Name def).
Proof. destruct (definition_row_fields def created now origin) as (_ & Ht & Hn & _ & _ & Ha). unfold action_key. by rewrite bool_decide_true, Ht, Hn. Qed.

Lemma typed_id def id : typed_definition def → typed_definition (def {{ ad_ID := id }}).
Proof. destruct def. by intros []. Qed.

Lemma typed_tenant def t : typed_definition def → typed_definition (def {{ ad_TenantID := t }}).
Proof. destruct def. by intros []. Qed.

Lemma def_id def id t : ad_TenantID (def {{ ad_ID := id; ad_TenantID := t }}) = t ∧ ad_ID (def {{ ad_ID := id; ad_TenantID := t }}) = id ∧
  ad_Name (def {{ ad_ID := id; ad_TenantID := t }}) = ad_Name def.
Proof. by destruct def. Qed.

Lemma def_new_id def id : ad_TenantID (def {{ ad_ID := id }}) = ad_TenantID def ∧ ad_Name (def {{ ad_ID := id }}) = ad_Name def.
Proof. by destruct def. Qed.

Lemma registered_row def created now origin : typed_definition def → action_sound (definition_row def created now origin).
Proof. intros Hd. right. exists def, created, now, origin. split; [done|by left]. Qed.

Lemma insert_definition_ok i def env db : typed_definition def → registry_inv db →
  held (holds_action (ad_TenantID def) (ad_Name def)) db = false →
  registry_inv (insert_definition def env db).2 ∧ step_of i db (insert_definition def env db).2.
Proof.
  intros Hd Hinv Hw. unfold insert_definition. cbv zeta. destruct (def_new_id def (en_uuid env)) as [HT HN].
  set (x := definition_row (def {{ ad_ID := en_uuid env }}) (en_now env) (en_now env) "manual").
  destruct (definition_row_fields (def {{ ad_ID := en_uuid env }}) (en_now env) (en_now env) "manual") as (_ & Ft & Fn & _). fold x in Ft, Fn.
  pose proof (definition_row_key (def {{ ad_ID := en_uuid env }}) (en_now env) (en_now env) "manual") as Fk. fold x in Fk.
  assert (action_sound x) as Hs by (by apply registered_row, typed_id). clearbody x.
  destruct (existsb (live_action _ _) _) eqn:Hl; [done|]. destruct (existsb _ (everywhere _ _ _)) eqn:Hid; [done|]. cbn [snd]. split.
  - split; [|by eapply table_committed; [..|apply Hinv]..|apply Hinv| |].
    + apply (table_inserted rg_actions tx_actions _ _ _ x db); [done|done|apply Hinv| |by eapply no_id|done]. rewrite Fk, HT, HN. intros k z [= <-] Hz Hkz.
      destruct (held_none _ _ _ (λ y, bool_decide (action_key y = Some (ad_TenantID def, ad_Name def))) db (holds_action_key _ _) Hw z Hz) as [Hin|Hno].
      * rewrite live_existsb, Ft, Fn, HT, HN in Hl. apply not_true_iff_false in Hl. apply Hl, existsb_exists. exists z.
        split; [by apply list_elem_of_In|by apply bool_decide_eq_true].
      * by apply bool_decide_eq_false in Hno.
    + eapply Forall_impl; [apply Hinv|]. intros b. apply binding_mono; [done|]. intros a Ha. exists a. split; [cbn; set_solver|apply action_kept_refl].
    + intros j y Hj. eapply Forall_impl; [exact (ri_pending db Hinv j y Hj)|]. intros b. apply binding_mono; [done|].
      intros a Ha. exists a. split; [unfold seen_actions in *; cbn; set_solver|apply action_kept_refl].
  - split; [|by left| |by left].
    + split; [by exists []; rewrite app_nil_r..|]. intros y Hy. exists y. split; [cbn; set_solver|apply action_kept_refl].
    + intros j y _ _ row Hr _. cbn. set_solver.
Qed.

Lemma held_orb P Q db : held (λ x, P x || Q x) db = false → held P db = false ∧ held Q db = false.
Proof.
  unfold held. induction (map_to_list (rg_open db)) as [|y l IH]; cbn; [done|].
  intros [[HP HQ]%orb_false_iff Hr]%orb_false_iff. destruct (IH Hr) as [HP' HQ']. by rewrite HP, HQ, HP', HQ'.
Qed.

Lemma update_definition_ok i tenantID id def env db : typed_definition def → registry_inv db →
  held (λ x, locks_id id x || holds_action tenantID (ad_Name def) x) db = false →
  registry_inv (update_definition tenantID id def env db).2 ∧ step_of i db (update_definition tenantID id def env db).2.
Proof.
  intros Hd Hinv [Hlock Hname]%held_orb. unfold update_definition. destruct (filter _ _) as [|x l]; [done|].
  destruct (existsb _ _) eqn:Hother; [done|]. cbn [snd].
  assert (∀ y, aw_id (updated_row def (en_now env) y) = aw_id y ∧ aw_tenant_id (updated_row def (en_now env) y) = aw_tenant_id y ∧
    aw_created_at (updated_row def (en_now env) y) = aw_created_at y ∧ aw_origin (updated_row def (en_now env) y) = aw_origin y ∧
    action_key (updated_row def (en_now env) y) = Some (aw_tenant_id y, ad_Name def) ∧ action_sound (updated_row def (en_now env) y)) as Hrow.
  { intros y. unfold updated_row. destruct (def_id def (aw_id y) (aw_tenant_id y)) as (HT & HI & HN).
    destruct (definition_row_fields (def {{ ad_ID := aw_id y; ad_TenantID := aw_tenant_id y }}) (aw_created_at y) (en_now env) (aw_origin y))
      as (Fi & Ft & _ & Fc & Fo & _). rewrite definition_row_key, Fi, Ft, HT, HI, HN. split_and!; [done..|]. by apply registered_row, typed_tenant, typed_id. }
  assert (∀ y, y ∈ rg_actions db → live_id tenantID id y = true →
    (aw_id (updated_row def (en_now env) y) = aw_id y ∧ aw_tenant_id (updated_row def (en_now env) y) = aw_tenant_id y ∧
     aw_created_at (updated_row def (en_now env) y) = aw_created_at y ∧ aw_origin (updated_row def (en_now env) y) = aw_origin y) ∧
    action_sound (updated_row def (en_now env) y)) as Hg by (intros y _ _; destruct (Hrow y) as (? & ? & ? & ? & _ & ?); by split_and!).
  split; [|by apply rewrite_step]. apply rewrite_inv; [done|done|]. intros y z k Hy Hl Hz Hk Hkz.
  destruct (Hrow y) as (_ & _ & _ & _ & Hk' & _). rewrite Hk' in Hk. injection Hk as <-. apply live_id_spec in Hl as (Ht & _ & _). rewrite Ht in Hkz.
  destruct (held_none _ _ _ (λ y, bool_decide (action_key y = Some (tenantID, ad_Name def))) db (holds_action_key _ _) Hname z Hz) as [Hin|Hno].
  - destruct (decide (aw_id z = id)) as [|Hne]; [done|]. apply not_true_iff_false in Hother. exfalso. apply Hother, existsb_exists. exists z.
    split; [by apply list_elem_of_In|]. rewrite live_key, !bool_decide_true by done. by rewrite bool_decide_false.
  - by apply bool_decide_eq_false in Hno.
Qed.

Lemma archived_sound t x : aw_archived_at x = None → action_sound x → action_sound (archived t x).
Proof.
  intros Hx [(tenantID & name & id & now & [->|(t' & ->)])|(def & created & now & origin & Hd & [->|(t' & ->)])]; [|done| |done].
  - left. exists tenantID, name, id, now. right. by exists t.
  - right. exists def, created, now, origin. split; [done|]. right. by exists t.
Qed.

Lemma archive_definition_ok i tenantID id env db : registry_inv db →
  match pg_uuid id with Some u => held (locks_id u) db | None => false end = false →
  registry_inv (archive_definition tenantID id env db).2 ∧ step_of i db (archive_definition tenantID id env db).2.
Proof.
  intros Hinv Hlock. unfold archive_definition, with_id. destruct (pg_uuid id) as [u|]; [|done]. cbn [snd].
  assert (∀ y, y ∈ rg_actions db → live_id tenantID u y = true →
    (aw_id (archived (en_now env) y) = aw_id y ∧ aw_tenant_id (archived (en_now env) y) = aw_tenant_id y ∧
     aw_created_at (archived (en_now env) y) = aw_created_at y ∧ aw_origin (archived (en_now env) y) = aw_origin y) ∧
    action_sound (archived (en_now env) y)) as Hg.
  { intros y Hy (_ & _ & Ha)%live_id_spec. split; [done|]. apply archived_sound; [done|]. destruct (ri_actions db Hinv) as (_ & _ & Hs).
    unfold everywhere in Hs. apply Forall_app in Hs as [Hs _]. rewrite Forall_forall in Hs. by apply Hs. }
  split; [|by apply rewrite_step]. by apply rewrite_inv.
Qed.
End Steps.
