(* ===== verification/RegistryFacts.v ===== *)
(** * What a request of the registry knows

    The handlers step by step: what a request knows of its own transaction
    between its statements, while others run theirs. *)

From S2P Require Import Prelude GoStrings Json GoTime Ext CanonicalJson Concurrent Types TaskDef.
From S2P Require Import InputRefs Redaction TargetPolicy.
From S2P Require Import Evidence Actions ActionFacts Contracts Registry RegistryHandlers.
From S2P Require Import RegistryLogic RegistryInv RegistrySteps.
Open Scope Z_scope.

(** What is known of one transaction. *)
Definition knowledge : Type := registry → transaction → Prop.

Section Facts.
Context `{Ext} `{MapRange} `{Resolver} `{PgText}.

Abbreviation rsafe i := (safe registry_inv (others step_of i) (step_of i)).

(** ** Facts about one's own transaction *)

(** [P] holds of transaction [i], as long as it is open. *)
Definition mine (i : nat) (P : knowledge) (db : registry) : Prop := ∀ x, rg_open db !! i = Some x → P db x.

(** Others cannot break [P]. *)
Definition lasting (P : knowledge) : Prop := ∀ db db' x, advances db db' → locked_kept x db db' → P db x → P db' x.

Lemma mine_stable i P : lasting P → stable (others step_of i) (mine i P).
Proof.
  intros HP db db' Hm (j & Hne & Hs) x Hx. destruct (so_open _ _ _ Hs i) as [Ho|Ho]; [done| |congruence].
  rewrite Ho in Hx. eapply HP; [apply Hs|by eapply so_locked; [exact Hs|..]|by apply Hm].
Qed.

Lemma always_stable R : stable R (λ _ : registry, True).
Proof. by intros ???. Qed.

(** What is known after a statement of the transaction: [P' a] after the answer
    [a], and still [P] when there was no row; nothing after a failure. *)
Definition after {X} (i : nat) (P : knowledge) (P' : X → knowledge) (r : res X) (db : registry) : Prop :=
  match r with Ok a => mine i (P' a) db | Err e => e = ErrNoRows → mine i P db end.

Lemma tx_waiting {X} i w (q : evidence_env → registry → transaction → res X * transaction) (P : knowledge) (P' : X → knowledge) :
  lasting P → (∀ a, lasting (P' a)) →
  (∀ env db x, registry_inv db → w db = false → rg_open db !! i = Some x → P db x →
     registry_inv (in_tx i q env db).2 ∧ (∀ a, (q env db x).1 = Ok a → P' a db (q env db x).2) ∧
     ((q env db x).1 = Err ErrNoRows → (q env db x).2 = x)) →
  rsafe i (mine i P) (waiting w (in_tx i q)) (after i P P').
Proof.
  intros HP HP' Hq. apply safe_waiting; [by apply mine_stable| |done]. intros env db Hinv Hw Hm. unfold in_tx in *.
  destruct (rg_open db !! i) as [x|] eqn:Hi; [|by split_and!]. destruct (Hq env db x Hinv Hw Hi (Hm x Hi)) as (Hinv' & Ha & He). rewrite Hi in Hinv'.
  destruct (q env db x) as [[a|e] x']; cbn [fst snd] in *; (split_and!; [done|apply step_set| |done]).
  - intros y Hy. rewrite set_lookup in Hy. injection Hy as <-. eapply (HP' a db); [|by intros row Hr _|by apply Ha]. by apply same_tables.
  - intros ->. rewrite He, set_same by done. exact Hm.
Qed.

(** A read in the transaction. *)
Lemma tx_read {X} i (f : registry → transaction → res X) (P : knowledge) (P' : X → knowledge) : lasting P → (∀ a, lasting (P' a)) →
  (∀ db x a, P db x → f db x = Ok a → P' a db x) →
  rsafe i (mine i P) (statement (in_tx i (λ _ db x, (f db x, x)))) (after i P P').
Proof.
  intros HP HP' Hf. apply tx_waiting; [done|done|]. intros env db x Hinv _ Hi Hx. split_and!; [|intros a; by apply Hf|done].
  unfold in_tx. rewrite Hi. cbn [snd]. by rewrite set_same.
Qed.

(** What is known after the answer or the absence of a row is read off. *)
Lemma optional_after {X} i P (P' : X → knowledge) (r : res X) (o : option X) db : after i P P' r db → optional_row r = Ok o →
  match o with Some a => mine i (P' a) db | None => mine i P db end.
Proof.
  destruct r as [a|e]; cbn; [by intros Hm [= <-]|]. case_bool_decide as He; [|done]. intros Hm [= <-]. by apply Hm.
Qed.

Lemma optional_err {X} (r : res X) e : optional_row r = Err e → e ≠ ErrNoRows.
Proof. destruct r as [a|e']; cbn; [done|]. case_bool_decide; [done|]. by intros [= <-]. Qed.

Lemma begin_safe i P (P' : knowledge) : lasting P' → (∀ db now, P' db (mkTx now [] [] [] [] [])) → stable (others step_of i) P →
  rsafe i P (statement (BeginTx i)) (λ r db, r = Ok tt → mine i P' db).
Proof.
  intros HP' HP Hst. apply safe_statement; [done| |done]. intros env db Hinv _. split_and!; [by apply begin_inv|apply step_set| |done].
  intros _ x Hx. unfold BeginTx in Hx. cbn [snd] in Hx. rewrite set_lookup in Hx. injection Hx as <-. apply HP.
Qed.

Lemma commit_safe i P (Q : registry → Prop) : lasting P →
  (∀ db x, P db x → Forall (sync_complete (seen_versions db x)) (tx_syncs x) ∧ Forall (current (seen_actions db x)) (tx_bindings x)) →
  (∀ db x db', P db x → rg_versions db' = seen_versions db x → rg_syncs db' = seen_syncs db x → rg_bindings db' = seen_bindings db x → Q db') →
  rsafe i (mine i P) (statement (Commit i)) (λ r db, r = Ok tt → Q db).
Proof.
  intros HP Hc HQ. apply safe_statement; [by apply mine_stable| |done]. intros env db Hinv Hm.
  destruct (rg_open db !! i) as [x|] eqn:Hi; [|unfold Commit; rewrite Hi; by split_and!]. pose proof (Hm x Hi) as Hx.
  destruct (Hc db x Hx) as [Hs Hb]. split_and!; [by eapply commit_inv|by eapply commit_step| |done]. intros _. eapply HQ; [exact Hx|..];
  unfold Commit; by rewrite Hi.
Qed.

(** A rollback, after which the reply says nothing about the tables. *)
Lemma roll_back_safe {X} i P (r : X) (Q : X → registry → Prop) : (∀ db, Q r db) → rsafe i P (roll_back i r) Q.
Proof.
  intros HQ. apply (safe_bind _ _ _ _ _ _ (λ _ _, True)); [|by intros b db _ _].
  apply (safe_weaken _ _ _ _ (λ _, True)); [|done]. apply safe_statement; [apply always_stable| |done].
  intros env db Hinv _. split_and!; [by apply drop_inv|apply step_drop|done|done].
Qed.

Lemma ret_safe {X} i P (r : X) (Q : X → registry → Prop) : (∀ db, registry_inv db → P db → Q r db) → rsafe i P (mret r : rprog X) Q.
Proof. done. Qed.

(** ** Rows found *)

Lemma one_row_elem {A} (P : A → Prop) `{!∀ a, Decision (P a)} (l : list A) a : one_row (filter P l) = Ok a → P a ∧ a ∈ l.
Proof.
  intros Ho. assert (a ∈ filter P l) as Ha; [|by apply list_elem_of_filter in Ha].
  destruct (filter P l) as [|b m]; [done|]. injection Ho as ->. by left.
Qed.

(** ** Synchronization *)

(** The transaction claimed the idempotency rows [S] and has no bindings. *)
Definition claimed_rows (S : list sync_row) : knowledge := λ _ x, tx_syncs x = S ∧ tx_bindings x = [].

(** A response on a version the transaction sees. *)
Definition responded (k : string * string * string) (r : sync_response) : knowledge := λ db x,
  ∃ v, v ∈ seen_versions db x ∧ version_key v = k ∧ describes r v.

Lemma claimed_lasting S : lasting (claimed_rows S).
Proof. by intros db db' x _ _. Qed.

Lemma both_lasting (P P' : knowledge) : lasting P → lasting P' → lasting (λ db x, P db x ∧ P' db x).
Proof. intros HP HP' db db' x Ha Hl [Hx Hx']. split; [by eapply HP|by eapply HP']. Qed.

Lemma seen_lasting db db' x v : advances db db' → v ∈ seen_versions db x → v ∈ seen_versions db' x.
Proof. intros Ha%advances_versions. unfold seen_versions. set_solver. Qed.

Lemma responded_lasting k r : lasting (responded k r).
Proof. intros db db' x Ha _ (v & Hv & Hrest). exists v. split; [by eapply seen_lasting|done]. Qed.

Section Sync.
Context (i : nat) (tenantID : string) (contract : object) (vc : validatedContract) (Hvc : validateContractV1 contract = inr vc).
Context (S : list sync_row).
Abbreviation vkey := (tenantID, vc_ActionName vc, vc_RecomputedHash vc).
Abbreviation claimed := (claimed_rows S).

(** What is known once the response is. *)
Definition answered : sync_response → knowledge := λ a db x, claimed db x ∧ responded vkey a db x.

Lemma answered_lasting a : lasting (answered a).
Proof. apply both_lasting; [apply claimed_lasting|apply responded_lasting]. Qed.

Lemma ensure_safe name : rsafe i (mine i claimed) (ensureContractLogicalAction i tenantID name) (after i claimed (λ _, claimed)).
Proof.
  eapply safe_bind.
  - apply (tx_waiting _ _ _ claimed (λ _, claimed)); [apply claimed_lasting|intros _; apply claimed_lasting|].
    intros env db x Hinv Hw Hi HS. split; [by apply insert_logical_inv|].
    destruct (existsb _ _); [done|]. destruct (existsb _ _); [done|]. by destruct x.
  - intros [a|e]; [|by apply ret_safe]. by apply tx_read; [apply claimed_lasting|intros ?; apply claimed_lasting|].
Qed.

(** A version that is found answers the request. *)
Definition found (v : contractVersionRecord) : knowledge := λ db x, claimed db x ∧ version_key v = vkey ∧ v ∈ seen_versions db x.

Lemma found_safe : rsafe i (mine i claimed) (read_versions i (find_version tenantID (vc_ActionName vc) (vc_RecomputedHash vc)))
  (after i claimed found).
Proof.
  apply tx_read.
  - apply claimed_lasting.
  - intros v. apply both_lasting; [apply claimed_lasting|]. intros db db' x Ha _ [Hk Hv]. split; [done|by eapply seen_lasting].
  - intros db x v HS Hv. split; [done|]. by apply one_row_elem in Hv.
Qed.

Lemma found_answered action v db : mine i (found v) db → mine i (answered (existing_response action vc v)) db.
Proof.
  intros Hm x Hx. destruct (Hm x Hx) as (HS & Hk & Hin). split; [done|]. exists v. split_and!; [done|done|]. injection Hk as _ Hn _. unfold describes. cbn. by rewrite Hn.
Qed.

(** A version that was inserted. *)
Lemma insert_safe action sensitive flags :
  rsafe i (mine i claimed) (waiting (elsewhere i (holds_version vkey)) (insertContractVersion i tenantID vc sensitive flags))
    (after i claimed (λ a, answered (created_response action vc sensitive flags a.1 a.2))).
Proof using Hvc.
  apply tx_waiting; [apply claimed_lasting|intros a; apply answered_lasting|]. intros env db x Hinv Hw Hi HS. split; [by eapply version_inv|].
  cbv zeta. destruct (existsb _ _); [done|]. destruct (existsb _ _); [done|]. cbn [fst snd]. split; [|done]. intros a [= <-]. destruct x. split; [done|].
  eexists. split; [apply elem_of_app; right; apply elem_of_app; right; by apply list_elem_of_singleton|]. done.
Qed.

Lemma append_safe action : rsafe i (mine i claimed) (append_version i tenantID vc action) (after i claimed answered).
Proof using Hvc.
  eapply safe_bind; [apply (tx_read _ _ claimed (λ _, claimed)); [apply claimed_lasting|intros ?; apply claimed_lasting|done]|].
  intros r. destruct (optional_row r) as [prior|e] eqn:Ho; [|apply ret_safe; intros db _ _ ->; by apply optional_err in Ho].
  apply (safe_weaken _ _ _ _ (mine i claimed)); [|intros db _ Hr; apply (optional_after _ _ _ _ _ _ Hr) in Ho; by destruct prior].
  clear r Ho. destruct (contractSecurityDelta prior vc) as [sensitive flags].
  eapply safe_bind; [apply (insert_safe action)|]. intros r. destruct (optional_row r) as [[[id now]|]|e] eqn:Ho.
  - apply ret_safe. intros db _ Hr. by apply (optional_after _ _ _ _ _ _ Hr) in Ho.
  - apply (safe_weaken _ _ _ _ (mine i claimed)); [|intros db _ Hr; by apply (optional_after _ _ _ _ _ _ Hr) in Ho].
    eapply safe_bind; [apply found_safe|]. intros [v|e]; apply ret_safe; [intros db _; apply found_answered|done].
  - apply ret_safe. intros db _ _ ->. by apply optional_err in Ho.
Qed.

Lemma in_tx_safe : rsafe i (mine i claimed) (performContractSyncInTx i tenantID vc) (after i claimed answered).
Proof using Hvc.
  eapply safe_bind; [apply ensure_safe|]. intros [action|e]; [|by apply ret_safe].
  eapply safe_bind; [apply found_safe|]. intros r. destruct (optional_row r) as [[v|]|e] eqn:Ho.
  - apply ret_safe. intros db _ Hr. apply (optional_after _ _ _ _ _ _ Hr) in Ho. by apply found_answered.
  - eapply safe_weaken; [apply append_safe|]. intros db _ Hr. by apply (optional_after _ _ _ _ _ _ Hr) in Ho.
  - apply ret_safe. intros db _ _ ->. by apply optional_err in Ho.
Qed.
End Sync.
End Facts.
