(* ===== verification/RegistryReplies.v ===== *)
(** * What the replies of the registry say

    [reply_true] is what a reply tells of the tables; it stays true.  Every
    handler keeps the invariant and ends with a true reply. *)

From S2P Require Import Prelude GoStrings Json GoTime Ext CanonicalJson Concurrent Types TaskDef.
From S2P Require Import InputRefs Redaction TargetPolicy.
From S2P Require Import Evidence Actions ActionFacts Contracts Registry RegistryHandlers.
From S2P Require Import RegistryLogic RegistryInv RegistrySteps RegistryFacts.
Open Scope Z_scope.

Section Replies.
Context `{Ext} `{MapRange} `{Resolver} `{PgText}.

Abbreviation rsafe i := (safe registry_inv (others step_of i) (step_of i)).

(** A version answers a contract. *)
Definition answers (tenantID : string) (vc : validatedContract) (r : sync_response) (db : registry) : Prop :=
  ∃ v, v ∈ rg_versions db ∧ version_key v = (tenantID, vc_ActionName vc, vc_RecomputedHash vc) ∧ describes r v.

(** The row an idempotency key of the contract ends with. *)
Definition recorded (tenantID : string) (vc : validatedContract) (key : string) (status : Z) (body : string) (db : registry) : Prop :=
  mkSync tenantID (vc_ActionName vc) key (vc_RecomputedHash vc) status body ∈ rg_syncs db.

(** ** Synchronization without a key *)

Lemma empty_claim db now : claimed_rows [] db (mkTx now [] [] [] [] []).
Proof. done. Qed.

Lemma commit_answer i tenantID vc S r : Forall (λ y, ∀ vs v, v ∈ vs → version_key v = (tenantID, vc_ActionName vc, vc_RecomputedHash vc) → describes r v →
    sync_complete vs y) S →
  rsafe i (mine i (answered tenantID vc S r)) (statement (Commit i)) (λ c db, c = Ok tt → answers tenantID vc r db ∧ Forall (λ y, y ∈ rg_syncs db) S).
Proof.
  intros HS. apply commit_safe; [apply answered_lasting| |].
  - intros db x ([Hs Hb] & v & Hv & Hk & Hd). rewrite Hs, Hb. split; [|constructor]. eapply Forall_impl; [exact HS|].
    intros y Hy. by apply (Hy _ v).
  - intros db x db' ([Hs Hb] & v & Hv & Hk & Hd) Ev Es _. split; [exists v; by rewrite Ev|]. rewrite Es. unfold seen_syncs. rewrite Hs.
    apply Forall_forall. set_solver.
Qed.

Lemma perform_safe i tenantID contract vc : validateContractV1 contract = inr vc →
  rsafe i (λ _, True) (performContractSync i tenantID vc) (λ r db, ∀ a, r = Ok a → answers tenantID vc a db).
Proof.
  intros Hvc. eapply safe_bind; [apply (begin_safe _ _ (claimed_rows [])); [apply claimed_lasting|apply empty_claim|apply always_stable]|].
  intros [[]|e]; [|by apply ret_safe]. eapply safe_weaken; [|intros db _ Hm; exact (Hm eq_refl)].
  eapply safe_bind; [by eapply in_tx_safe|]. intros [a|e]; [|by apply roll_back_safe].
  eapply safe_bind; [apply commit_answer; constructor|]. intros [[]|e]; [|by apply ret_safe].
  apply ret_safe. intros db _ Hm a' [= <-]. by apply Hm.
Qed.

(** ** Synchronization with a key *)

Section Keyed.
Context (i : nat) (tenantID key : string) (contract : object) (vc : validatedContract) (Hvc : validateContractV1 contract = inr vc).

Definition claimed_row (status : Z) (body : string) : sync_row := mkSync tenantID (vc_ActionName vc) key (vc_RecomputedHash vc) status body.

Lemma claim_safe : rsafe i (mine i (claimed_rows []))
  (waiting (elsewhere i (holds_sync (tenantID, vc_ActionName vc, key)))
     (claimContractSyncIdempotencyRecord i tenantID (vc_ActionName vc) key (vc_RecomputedHash vc)))
  (after i (claimed_rows []) (λ b : bool, claimed_rows (if b then [claimed_row 0 (jsonb_text "{}")] else []))).
Proof.
  apply tx_waiting; [apply claimed_lasting|intros a; apply claimed_lasting|]. intros env db x Hinv Hw Hi [Hs Hb]. split; [by apply claim_inv|].
  destruct (existsb _ _); cbn [fst snd]; (split; [|done]); intros b [= <-]; [by split|]. destruct x. cbn in *. by rewrite Hs.
Qed.

Lemma record_safe : rsafe i (mine i (claimed_rows []))
  (statement (in_tx i (λ _ db x, (getContractSyncIdempotencyRecord tenantID (vc_ActionName vc) key (seen_syncs db x), x))))
  (after i (claimed_rows []) (λ y db x, claimed_rows [] db x ∧ sync_key y = (tenantID, vc_ActionName vc, key) ∧ y ∈ rg_syncs db)).
Proof.
  apply tx_read; [apply claimed_lasting| |].
  - intros y. apply both_lasting; [apply claimed_lasting|]. intros db db' x [_ [l Hl] _ _] _ [Hk Hy]. split; [done|]. rewrite Hl. set_solver.
  - intros db x y [Hs Hb] [Hk Hy]%one_row_elem. split; [done|]. split; [done|]. unfold seen_syncs in Hy. by rewrite Hs, app_nil_r in Hy.
Qed.

Lemma complete_safe r : rsafe i (mine i (answered tenantID vc [claimed_row 0 (jsonb_text "{}")] r))
  (statement (completeContractSyncIdempotencyRecord i tenantID (vc_ActionName vc) key (vc_RecomputedHash vc)
     (sync_status (sr_created r)) (sync_response_text r)))
  (after i (answered tenantID vc [claimed_row 0 (jsonb_text "{}")] r)
     (λ _, answered tenantID vc [claimed_row (sync_status (sr_created r)) (jsonb_text (sync_response_text r))] r)).
Proof.
  apply tx_waiting; [apply answered_lasting|intros a; apply answered_lasting|]. intros env db x Hinv _ Hi [[Hs Hb] Ha].
  split; [by apply complete_inv|]. cbv zeta. rewrite Hs. destruct (_ =? 1)%nat; cbn [fst snd]; [|by split].
  split; [|done]. intros a [= <-]. destruct x. cbn in *. split; [|exact Ha]. split; [|done]. cbn. by rewrite bool_decide_true.
Qed.

(** The outcome and the tables. *)
Definition outcome_true (o : idempotent_outcome) (db : registry) : Prop :=
  match o with
  | Replayed status text => recorded tenantID vc key status text db
  | Conflicting => True
  | Performed r => answers tenantID vc r db ∧ recorded tenantID vc key (sync_status (sr_created r)) (jsonb_text (sync_response_text r)) db
  end.

Lemma replay_safe y : si_RequestFingerprint y = vc_RecomputedHash vc →
  rsafe i (mine i (λ db x, claimed_rows [] db x ∧ sync_key y = (tenantID, vc_ActionName vc, key) ∧ y ∈ rg_syncs db)) (statement (Commit i))
    (λ c db, c = Ok tt → outcome_true (Replayed (si_ResponseStatus y) (si_ResponseBody y)) db).
Proof.
  intros Hf. apply commit_safe.
  - apply both_lasting; [apply claimed_lasting|]. intros db db' x [_ [l Hl] _ _] _ [Hk Hy]. split; [done|]. rewrite Hl. set_solver.
  - intros db x ([Hs Hb] & _). by rewrite Hs, Hb.
  - intros db x db' (_ & Hk & Hy) _ Es _. unfold outcome_true, recorded. rewrite Es. unfold seen_syncs. apply elem_of_app. left.
    destruct y. cbn in *. injection Hk as -> -> ->. by rewrite <-Hf.
Qed.

Lemma perform_keyed_safe : rsafe i (λ _, True) (performIdempotentContractSync i tenantID vc key)
  (λ r db, ∀ o, r = Ok o → outcome_true o db).
Proof using Hvc.
  eapply safe_bind; [apply (begin_safe _ _ (claimed_rows [])); [apply claimed_lasting|apply empty_claim|apply always_stable]|].
  intros [[]|e]; [|by apply ret_safe]. eapply safe_weaken; [|intros db _ Hm; exact (Hm eq_refl)].
  eapply safe_bind; [apply claim_safe|]. intros [[]|e]; [| |by apply roll_back_safe].
  - eapply safe_bind; [by eapply in_tx_safe|]. intros [r|e]; [|by apply roll_back_safe].
    eapply safe_bind; [apply complete_safe|]. intros [[]|e]; [|by apply roll_back_safe].
    eapply safe_bind; [apply commit_answer|].
    { apply List.Forall_cons_iff. split; [|constructor]. intros vs v Hv Hk Hd. exists r, v. by split_and!. }
    intros [[]|e]; [|by apply ret_safe]. apply ret_safe. intros db _ Hm o [= <-]. destruct (Hm eq_refl) as [Ha Hr].
    split; [done|]. by apply List.Forall_inv in Hr.
  - eapply safe_bind; [apply record_safe|]. intros [y|e]; [|by apply roll_back_safe].
    case_bool_decide as Hf; cbn [negb]; [|apply roll_back_safe; by intros db o [= <-]].
    eapply safe_bind; [by apply replay_safe|]. intros [[]|e]; [|by apply ret_safe]. apply ret_safe. intros db _ Hm o [= <-]. by apply Hm.
Qed.
End Keyed.

(** ** Bindings *)

(** A transaction that wrote nothing. *)
Definition clean : knowledge := λ _ x, tx_actions x = [] ∧ tx_versions x = [] ∧ tx_syncs x = [] ∧ tx_bindings x = [].

(** The version and the target a binding is made of; the target is locked. *)
Definition version_known (k : string * string * string) (v : contractVersionRecord) : knowledge := λ db _, v ∈ rg_versions db ∧ version_key v = k.
Definition target_known (t : string) (u : uuid) (target : option actionDefinition) : knowledge := λ db x,
  ∃ row, row ∈ rg_actions db ∧ live_id t u row = true ∧ scanActionDefinition row = target ∧ u ∈ tx_shared x.

Lemma clean_lasting : lasting clean.
Proof. by intros db db' x _ _. Qed.

Lemma version_known_lasting k v : lasting (version_known k v).
Proof. intros db db' x Ha _ [Hv Hk]. split; [|done]. by eapply advances_versions. Qed.

Lemma target_known_lasting t u target : lasting (target_known t u target).
Proof.
  intros db db' x _ Hl (row & Hr & Hlive & Hscan & Hu). exists row. split; [|done]. apply Hl; [done|].
  by apply live_id_spec in Hlive as (_ & -> & _).
Qed.

Lemma prepared t name hash request u version target new : prepare_binding t name hash request u version target = inr new →
  target_refusal target = None ∧ ∀ id now, let b := new id now in
    bi_ID b = id ∧ bi_CreatedAt b = now ∧ binding_key b = (t, name, hash) ∧ bi_TargetActionID b = u ∧
    bi_TargetVersionHash b = SHA256Hex (target_snapshot target) ∧ bi_TargetSnapshot b = jsonb_text (target_snapshot target).
Proof.
  unfold prepare_binding. destruct (target_refusal target) as [?|]; [done|]. destruct (contractParameterDescriptors _) as [ds|]; [|done].
  destruct (validateContractInputMapping _ _) as [?|?]; [|done]. cbv zeta. set (rc := if nonempty (TrimSpace (br_ReplayClass request)) then _ else _).
  destruct (negb (validReplayClass rc)); [done|]. destruct (_ && _); [done|]. destruct (_ || _); [done|]. intros [= <-]. by split.
Qed.

(** A refusal is no binding. *)
Lemma target_refuses target status b : target_refusal target ≠ Some (ReplyBinding status b).
Proof. unfold target_refusal. destruct (negb _); [done|]. destruct (ValidateActionTargetURL _); [|done]. by destruct (_ || _). Qed.

Lemma prepare_refuses t name hash request u version target status b :
  prepare_binding t name hash request u version target ≠ inl (ReplyBinding status b).
Proof.
  unfold prepare_binding. destruct (target_refusal target) as [r|] eqn:Hr; [intros [= ->]; by apply target_refuses in Hr|].
  destruct (contractParameterDescriptors _) as [ds|]; [|done]. destruct (validateContractInputMapping _ _) as [?|?]; [|done]. cbv zeta.
  set (rc := if nonempty (TrimSpace (br_ReplayClass request)) then _ else _).
  destruct (negb (validReplayClass rc)); [done|]. destruct (_ && _); [done|]. by destruct (_ || _).
Qed.

Lemma binding_key_spec b t name hash : binding_key b = (t, name, hash) → bi_TenantID b = t ∧ bi_ActionName b = name ∧ bi_ContractHash b = hash.
Proof. by intros [= -> -> ->]. Qed.

Section Binding.
Context (i : nat) (t name hash : string) (request : contractBindingCreateRequest) (u : uuid).
Abbreviation bkey := (t, name, hash).

Definition version_read v : knowledge := λ db x, clean db x ∧ version_known bkey v db x.
Definition target_read v target : knowledge := λ db x, version_read v db x ∧ target_known t u target db x.

Lemma version_read_lasting v : lasting (version_read v).
Proof. apply both_lasting; [apply clean_lasting|apply version_known_lasting]. Qed.

Lemma target_read_lasting v target : lasting (target_read v target).
Proof. apply both_lasting; [apply version_read_lasting|apply target_known_lasting]. Qed.

Lemma read_version_safe : rsafe i (mine i clean) (read_versions i (find_version t name hash)) (after i clean version_read).
Proof.
  apply tx_read; [apply clean_lasting|apply version_read_lasting|]. intros db x v Hc [Hk Hv]%one_row_elem. split; [done|].
  destruct Hc as (_ & Ev & _). unfold seen_versions in Hv. by rewrite Ev, app_nil_r in Hv.
Qed.

Lemma load_target_safe v : rsafe i (mine i (version_read v)) (statement (load_target i t u)) (after i (version_read v) (target_read v)).
Proof.
  apply tx_waiting; [apply version_read_lasting|intros o; apply target_read_lasting|]. intros env db x Hinv _ Hi [(Ea & Ev & Es & Eb) Hv].
  split; [by apply load_target_inv|]. unfold seen_actions. rewrite Ea, app_nil_r.
  destruct (filter _ _) as [|row l] eqn:Hf; cbn [fst snd]; [done|]. split; [|done]. intros o [= <-].
  assert (row ∈ row :: l) as Hr by (by left). rewrite <-Hf in Hr. apply list_elem_of_filter in Hr as [(Ht & Hid & Har) Hr].
  destruct x. split; [done|]. exists row. split_and!; [done|by apply live_id_spec|done|]. cbn. by left.
Qed.

(** The binding that is inserted, with its target still live. *)
Definition bound b : knowledge := λ db x,
  tx_syncs x = [] ∧ tx_bindings x = [b] ∧ binding_key b = bkey ∧ ∃ target, target_known t u (Some target) db x ∧
    target_refusal target = None ∧ bi_TargetActionID b = u ∧ bi_TargetVersionHash b = SHA256Hex (target_snapshot target) ∧
    bi_TargetSnapshot b = jsonb_text (target_snapshot target).

Lemma bound_lasting b : lasting (bound b).
Proof.
  intros db db' x Ha Hl (Hs & Hb & Hk & target & Ht & Hrest). split; [done|]. split; [done|]. split; [done|]. exists target.
  split; [|done]. by eapply target_known_lasting.
Qed.

Lemma insert_binding_safe v target new : prepare_binding t name hash request u v target = inr new →
  rsafe i (mine i (target_read v (Some target))) (waiting (elsewhere i (holds_binding bkey)) (insertContractExecutionBinding i new))
    (after i (target_read v (Some target)) bound).
Proof.
  intros Hp. destruct (prepared _ _ _ _ _ _ _ _ Hp) as [Href Hnew].
  apply tx_waiting; [apply target_read_lasting|apply bound_lasting|]. intros env db x Hinv Hw Hi [[(Ea & Ev & Es & Eb) [Hv Hkv]] Ht].
  destruct (Hnew (en_uuid env) (tx_now x)) as (Eid & Ec & Hk & Hu & Hh & Hsn). cbv zeta in *.
  destruct (binding_key_spec _ _ _ _ Hk) as (ET & EN & EH). split.
  - apply binding_inv; [done|]. intros x' Hx'. rewrite Hx' in Hi. injection Hi as ->. cbv zeta. rewrite Hk. split; [done|].
    destruct Ht as (row & Hr & Hlive & Hscan & _). pose proof Hlive as (Htr & Hidr & _)%live_id_spec.
    exists v, row, target, request, new. unfold seen_versions, seen_actions. rewrite Hu, ET, EN, EH, Eid, Ec. split_and!; [set_solver|congruence| |done..].
    exists row. split; [set_solver|done].
  - destruct (existsb _ _); [done|]. destruct (existsb _ _); [done|]. destruct (_ || _); [done|]. cbn [fst snd]. split; [|done].
    intros b [= <-]. destruct x. cbn in *. split; [done|]. split; [by rewrite Eb|]. split; [done|]. by exists target.
Qed.

Lemma commit_binding_safe b : rsafe i (mine i (bound b)) (statement (Commit i))
  (λ c db, c = Ok tt → b ∈ rg_bindings db ∧ binding_key b = bkey).
Proof.
  apply commit_safe; [apply bound_lasting| |].
  - intros db x (Hs & Hb & Hk & target & (row & Hr & Hlive & Hscan & _) & Href & Hu & Hh & Hsn). rewrite Hs, Hb. split; [constructor|].
    apply List.Forall_cons_iff. split; [|constructor]. destruct (binding_key_spec _ _ _ _ Hk) as (ET & _ & _).
    exists row, target. rewrite ET, Hu. split_and!; [|done..]. unfold seen_actions. set_solver.
  - intros db x db' (Hs & Hb & Hk & _) _ _ Eb. split; [|done]. rewrite Eb. unfold seen_bindings. rewrite Hb. set_solver.
Qed.

(** What a created binding's reply says. *)
Lemma bind_safe : rsafe i (λ _, True) (bind_contract i t name hash request u)
  (λ r db, ∀ status b, r = ReplyBinding status b → b ∈ rg_bindings db ∧ binding_key b = bkey).
Proof.
  eapply safe_bind; [apply (begin_safe _ _ clean); [apply clean_lasting|done|apply always_stable]|].
  intros [[]|e]; [|by apply ret_safe]. eapply safe_weaken; [|intros db _ Hm; exact (Hm eq_refl)].
  eapply safe_bind; [apply read_version_safe|]. intros r. destruct (optional_row r) as [[v|]|e] eqn:Hv; [|by apply roll_back_safe..].
  apply (safe_weaken _ _ _ _ (mine i (version_read v))); [|intros db _ Hr; by apply (optional_after _ _ _ _ _ _ Hr) in Hv]. clear r Hv.
  eapply safe_bind; [apply load_target_safe|]. intros r. destruct (optional_row r) as [[[target|]|]|e] eqn:Ht; [|by apply roll_back_safe..].
  apply (safe_weaken _ _ _ _ (mine i (target_read v (Some target)))); [|intros db _ Hr; by apply (optional_after _ _ _ _ _ _ Hr) in Ht]. clear r Ht.
  destruct (prepare_binding t name hash request u v target) as [reply|new] eqn:Hp.
  { apply roll_back_safe. intros db status b ->. exfalso. revert Hp. apply prepare_refuses. }
  eapply safe_bind; [by apply insert_binding_safe|]. intros [b|e].
  - eapply safe_bind; [apply commit_binding_safe|]. intros [[]|e]; [|by apply ret_safe].
    apply ret_safe. intros db _ Hm status b' [= _ <-]. by apply Hm.
  - apply roll_back_safe. intros db status b. by destruct (isLikelyUniqueViolation e).
Qed.
End Binding.
End Replies.
