(* ===== verification/RegistryServe.v ===== *)
(** * Every request of the registry

    Whatever a request is, its handler keeps the invariant of the registry and
    ends with a reply that is, and stays, true. *)

From S2P Require Import Prelude GoStrings Json GoTime Ext CanonicalJson Concurrent Types TaskDef.
From S2P Require Import InputRefs Redaction TargetPolicy.
From S2P Require Import Evidence Actions ActionFacts Contracts Registry RegistryHandlers.
From S2P Require Import RegistryLogic RegistryInv RegistrySteps RegistryFacts.
From S2P Require Import RegistryReplies.
Open Scope Z_scope.

Section Serve.
Context `{Ext} `{MapRange} `{Resolver} `{PgText}.

Abbreviation rsafe i := (safe registry_inv (others step_of i) (step_of i)).

(** The contract of a synchronization request. *)
Definition submitted (body : string) (vc : validatedContract) : Prop :=
  ∃ request contractRaw, DecodeObjectPreserving body = Ok request ∧ get "contract" request = Some (AMap contractRaw) ∧
    validateContractV1 contractRaw = inr vc.

(** A synchronization's reply is about the version with the contract's hash;
    with a key it is the one the key's record holds. *)
Definition sync_true (tenantID rawKey body : string) (status : Z) (text : string) (replayed : bool) (db : registry) : Prop :=
  ∃ vc r, submitted body vc ∧ answers tenantID vc r db ∧ status = sync_status (sr_created r) ∧
    (if replayed then text = jsonb_text (sync_response_text r) else text = sync_response_text r) ∧
    (TrimSpace rawKey ≠ "" → recorded tenantID vc (TrimSpace rawKey) status (if replayed then text else jsonb_text text) db).

(** A definition that was read from a row of the tenant, which is still there
    (if not unchanged). *)
Definition shown (tenantID : string) (def : actionDefinition) (db : registry) : Prop :=
  ∃ x x', action_sound x ∧ aw_tenant_id x = tenantID ∧ scanActionDefinition x = Some def ∧ x' ∈ rg_actions db ∧ action_kept x x'.

Definition reply_true (req : registry_request) (reply : registry_reply) (db : registry) : Prop :=
  match req, reply with
  | ContractSync t key body, ReplySync status text replayed => sync_true t key body status text replayed db
  | ContractVersionGet t _ hash, ReplyVersion name v => v ∈ rg_versions db ∧ version_key v = (t, name, TrimSpace hash)
  | ContractActionGet t _ _ _, ReplyHistory name _ _ l => Forall (λ v, v ∈ rg_versions db ∧ cr_tenant_id v = t ∧ cr_action_name v = name) l
  | (ContractBindingCreate t name hash _ | ContractBindingGet t name hash), ReplyBinding _ b =>
    b ∈ rg_bindings db ∧ bi_TenantID b = t ∧ contractBindingPath name hash = inr (bi_ActionName b, bi_ContractHash b)
  | (ActionCreate t _ | ActionGet t _ | ActionPatch t _ _), ReplyAction _ def => shown t def db
  | ActionList t, ReplyActions defs => Forall (λ def, shown t def db) defs
  | _, _ => True
  end.

(** ** Replies stay true *)

Lemma answers_mono t vc r : stable advances (answers t vc r).
Proof. intros db db' (v & Hv & Hrest) Ha. exists v. split; [by eapply advances_versions|done]. Qed.

Lemma recorded_mono t vc key status body : stable advances (recorded t vc key status body).
Proof. intros db db' Hr [_ [l Hl] _ _]. unfold recorded in *. rewrite Hl. set_solver. Qed.

Lemma shown_mono t def : stable advances (shown t def).
Proof.
  intros db db' (x & x' & Hs & Ht & Hscan & Hin & Hk) Ha. destruct (av_actions _ _ Ha x' Hin) as (x'' & Hin' & Hk').
  exists x, x''. split_and!; [done..|by eapply action_kept_trans].
Qed.

Lemma bound_mono db db' b : advances db db' → b ∈ rg_bindings db → b ∈ rg_bindings db'.
Proof. intros [_ _ [l ->] _]. set_solver. Qed.

Lemma reply_stable req reply : stable advances (reply_true req reply).
Proof.
  intros db db' Hr Ha. destruct req, reply; cbn [reply_true] in *; try done; try (by eapply (shown_mono _ _ db db')).
  - destruct Hr as (vc & r & Hs & Hans & Est & Htext & Hrec). exists vc, r. split_and!; [done|by eapply answers_mono|done|done|].
    intros Hk. eapply recorded_mono; [by apply Hrec|done].
  - eapply Forall_impl; [exact Hr|]. intros v [Hv Hk]. split; [by eapply advances_versions|done].
  - destruct Hr as [Hv Hk]. split; [by eapply advances_versions|done].
  - destruct Hr as [Hb Hk]. split; [by eapply bound_mono|done].
  - destruct Hr as [Hb Hk]. split; [by eapply bound_mono|done].
  - eapply Forall_impl; [exact Hr|]. intros def Hd. by eapply (shown_mono _ _ db db').
Qed.

(** ** Contracts *)

Lemma sync_handler_safe i t key body : rsafe i (λ _, True) (handleContractSync i t key body) (reply_true (ContractSync t key body)).
Proof.
  unfold handleContractSync. cbv zeta. case_bool_decide; [by apply ret_safe|]. destruct (_ <? _); [by apply ret_safe|].
  destruct (_ && _); [by apply ret_safe|]. destruct (DecodeObjectPreserving body) as [request|e] eqn:Hd; [|by apply ret_safe].
  destruct (unexpected_key _ _); [by apply ret_safe|].
  destruct (get "contract" request) as [[| | | | |contractRaw]|] eqn:Hc; try by apply ret_safe.
  destruct (validateContractV1 contractRaw) as [e|vc] eqn:Hvc; [by apply ret_safe|].
  assert (submitted body vc) as Hs by (by exists request, contractRaw).
  destruct (nonempty (TrimSpace key)) eqn:Hk.
  - eapply safe_bind; [by eapply perform_keyed_safe|]. intros [[status text| |r]|e]; apply ret_safe; intros db Hinv Hr; try done.
    + pose proof (Hr _ eq_refl) as Hrec. pose proof (ri_complete _ Hinv) as Hcomp. rewrite Forall_forall in Hcomp.
      destruct (Hcomp _ Hrec) as (r & v & Hv & Hkey & Hdesc & Hst & Hbody). cbn in Hst, Hbody. exists vc, r. split_and!; [done|by exists v|done|done|done].
    + destruct (Hr _ eq_refl) as [Ha Hrec]. by exists vc, r.
  - eapply safe_bind; [by eapply perform_safe|]. intros [r|e]; apply ret_safe; intros db Hinv Hr; [|done]. exists vc, r.
    split_and!; [done|by apply Hr|done|done|]. intros Hne. by destruct (TrimSpace key).
Qed.

Lemma read_safe {X} i (q : evidence_env → registry → res X * registry) (Q : res X → registry → Prop) :
  (∀ env db, (q env db).2 = db) → (∀ env db, registry_inv db → Q (q env db).1 db) → (∀ msg db, Q (Err (Errorf msg)) db) →
  rsafe i (λ _, True) (statement q) Q.
Proof. intros Hq HQ He. apply safe_read; [apply _|apply always_stable|done|by intros env db Hi _; apply HQ|by intros msg db _ _]. Qed.

Lemma version_get_safe i t rawName rawHash :
  rsafe i (λ _, True) (handleContractVersionGet t rawName rawHash) (reply_true (ContractVersionGet t rawName rawHash)).
Proof.
  unfold handleContractVersionGet. cbv zeta. case_bool_decide; [by apply ret_safe|].
  destruct (contractActionNameParam rawName) as [e|name]; [by apply ret_safe|]. destruct (negb _); [by apply ret_safe|].
  eapply safe_bind.
  - apply (read_safe _ _ (λ r db, ∀ v, r = Ok v → v ∈ rg_versions db ∧ version_key v = (t, name, TrimSpace rawHash))); [done| |done].
    intros env db _ v [Hk Hv]%one_row_elem. done.
  - intros r. apply ret_safe. intros db _ Hr. destruct r as [v|e]; cbn; [by apply Hr|]. by case_bool_decide.
Qed.

Lemma history_elem t name limit before l : Forall (λ v, v ∈ l ∧ cr_tenant_id v = t ∧ cr_action_name v = name)
  (listContractVersions t name limit before l).
Proof.
  unfold listContractVersions, version_history. apply Forall_take. apply Forall_forall. intros v Hv. rewrite merge_sort_Permutation in Hv.
  apply list_elem_of_filter in Hv as [Hk Hv]. apply list_elem_of_In, List.filter_In in Hv as [Hv _]. split; [by apply list_elem_of_In|done].
Qed.

Lemma action_get_safe i t rawName rawLimit rawBefore :
  rsafe i (λ _, True) (handleContractActionGet t rawName rawLimit rawBefore) (reply_true (ContractActionGet t rawName rawLimit rawBefore)).
Proof.
  unfold handleContractActionGet. cbv zeta. case_bool_decide; [by apply ret_safe|].
  destruct (contractActionNameParam rawName) as [e|name]; [by apply ret_safe|]. destruct (history_limit rawLimit) as [limit|]; [|by apply ret_safe].
  destruct (_ && _); [by apply ret_safe|]. eapply safe_bind; [by apply (read_safe _ _ (λ _ _, True))|].
  intros r. destruct (optional_row r) as [[action|]|e]; try by apply ret_safe.
  eapply safe_bind.
  - apply (read_safe _ _ (λ r db, ∀ l, r = Ok l → Forall (λ v, v ∈ rg_versions db ∧ cr_tenant_id v = t ∧ cr_action_name v = name) l)); [done| |done].
    intros env db _ l [= <-]. apply history_elem.
  - intros [l|e]; apply ret_safe; [|done]. intros db _ Hl. by apply Hl.
Qed.

(** ** Bindings *)

Lemma binding_create_safe i t rawName rawHash body :
  rsafe i (λ _, True) (handleContractBindingCreate i t rawName rawHash body) (reply_true (ContractBindingCreate t rawName rawHash body)).
Proof.
  unfold handleContractBindingCreate. cbv zeta. case_bool_decide; [by apply ret_safe|].
  destruct (contractBindingPath rawName rawHash) as [e|[name hash]] eqn:Hp; [by apply ret_safe|].
  destruct (decode_binding_request body) as [request|e]; [|by apply ret_safe].
  destruct (uuid_Parse _) as [u|]; [|by apply ret_safe]. destruct (negb _); [by apply ret_safe|]. destruct (negb _); [by apply ret_safe|].
  eapply safe_post; [apply bind_safe|]. intros r db _ Hr. destruct r; cbn [reply_true]; try done.
  destruct (Hr _ _ eq_refl) as [Hb (<- & <- & <-)%binding_key_spec]. done.
Qed.

Lemma binding_get_safe i t rawName rawHash :
  rsafe i (λ _, True) (handleContractBindingGet t rawName rawHash) (reply_true (ContractBindingGet t rawName rawHash)).
Proof.
  unfold handleContractBindingGet. case_bool_decide; [by apply ret_safe|].
  destruct (contractBindingPath rawName rawHash) as [e|[name hash]] eqn:Hp; [by apply ret_safe|]. eapply safe_bind.
  - apply (read_safe _ _ (λ r db, ∀ b, r = Ok b → b ∈ rg_bindings db ∧ binding_key b = (t, name, hash))); [done| |done].
    intros env db _ b [Hk Hb]%one_row_elem. done.
  - intros r. apply ret_safe. intros db _ Hr. destruct r as [b|e]; cbn; [|by case_bool_decide].
    destruct (Hr _ eq_refl) as [Hb (<- & <- & <-)%binding_key_spec]. done.
Qed.

(** ** Definitions *)

(** A committed row is sound. *)
Lemma row_sound db x : registry_inv db → x ∈ rg_actions db → action_sound x.
Proof.
  intros Hinv Hx. destruct (ri_actions db Hinv) as (_ & _ & Hs). apply Forall_app in Hs as [Hs _]. rewrite Forall_forall in Hs. by apply Hs.
Qed.

(** What is read of one definition. *)
Definition read_row (t : string) (x : action_row) (db : registry) : Prop :=
  ∃ x', action_sound x ∧ aw_tenant_id x = t ∧ x' ∈ rg_actions db ∧ action_kept x x'.

Lemma read_row_now t x db : registry_inv db → x ∈ rg_actions db → aw_tenant_id x = t → read_row t x db.
Proof. intros Hinv Hx Ht. exists x. split_and!; [by eapply row_sound|done|done|apply action_kept_refl]. Qed.

Lemma read_row_shown t x def db : read_row t x db → scanActionDefinition x = Some def → shown t def db.
Proof. intros (x' & Hs & Ht & Hx' & Hk) Hd. by exists x, x'. Qed.

Lemma read_row_stable i t x : stable (others step_of i) (read_row t x).
Proof.
  intros db db' (x' & Hs & Ht & Hx' & Hk) (j & _ & Hj). destruct (av_actions _ _ (so_advances _ _ _ Hj) x' Hx') as (x'' & Hx'' & Hk').
  exists x''. split_and!; [done..|by eapply action_kept_trans].
Qed.

Lemma load_safe i t id : rsafe i (λ _, True) (statement (load_definition t id)) (λ r db, ∀ x, r = Ok x → read_row t x db).
Proof.
  apply read_safe.
  - intros env db. unfold load_definition, with_id. by destruct (pg_uuid id).
  - intros env db Hinv x. unfold load_definition, with_id. destruct (pg_uuid id) as [u|]; [|done]. cbn [fst].
    intros [Hl Hx]%one_row_elem. apply Is_true_true, live_id_spec in Hl as [Ht _]. by apply read_row_now.
  - done.
Qed.

(** A reply with a definition that was read. *)
Definition shows (t : string) (reply : registry_reply) (db : registry) : Prop := ∀ st def, reply = ReplyAction st def → shown t def db.

Lemma scanned_shows t status x db : read_row t x db → shows t (scanned status x) db.
Proof.
  intros Hx st def. unfold scanned. destruct (scanActionDefinition x) as [d|] eqn:Hs; [|done]. intros [= _ <-]. by eapply read_row_shown.
Qed.

Lemma action_read_safe i t id : rsafe i (λ _, True) (handleActionGet t id) (shows t).
Proof.
  unfold handleActionGet. case_bool_decide; [by apply ret_safe|]. eapply safe_bind; [apply load_safe|].
  intros r. apply ret_safe. intros db _ Hr. destruct r as [x|e]; cbn; [by apply scanned_shows, Hr|by case_bool_decide].
Qed.

Lemma update_failure_shows t e db : shows t (update_failure e) db.
Proof. intros st def. unfold update_failure. by destruct (isLikelyUniqueViolation e). Qed.

Lemma insert_definition_result def env db x : (insert_definition def env db).1 = Ok x → x ∈ rg_actions (insert_definition def env db).2 ∧
  aw_tenant_id x = ad_TenantID def.
Proof.
  unfold insert_definition. cbv zeta. destruct (existsb _ _); [done|]. destruct (existsb _ _); [done|]. intros [= <-]. split; [cbn; set_solver|].
  destruct (definition_row_fields (def {{ ad_ID := en_uuid env }}) (en_now env) (en_now env) "manual") as (_ & Ht & _). etrans; [exact Ht|].
  by destruct (def_new_id def (en_uuid env)).
Qed.

Lemma action_create_safe i t body : rsafe i (λ _, True) (handleActionCreate t body) (shows t).
Proof.
  unfold handleActionCreate. case_bool_decide; [by apply ret_safe|]. destruct (unmarshal _ _ _) as [req ok].
  destruct (negb ok); [by apply ret_safe|]. destruct (normalizeActionDefinitionRequest req None) as [[def|e]|] eqn:Hn; [|by apply ret_safe..].
  assert (typed_definition (def {{ ad_TenantID := t }})) as Hd by (apply typed_tenant; by eapply normalized_typed; [|exact Hn]).
  assert (ad_TenantID (def {{ ad_TenantID := t }}) = t ∧ ad_Name (def {{ ad_TenantID := t }}) = ad_Name def) as [HT HN] by (by destruct def).
  rewrite <-HN. set (def' := def {{ ad_TenantID := t }}) in *. clearbody def'. subst t.
  eapply safe_bind; [apply (safe_waiting _ _ _ _ _ _ (λ r db, ∀ x, r = Ok x → read_row (ad_TenantID def') x db)); [apply always_stable| |done]|].
  - intros env db Hinv Hw _. destruct (insert_definition_ok i def' env db Hd Hinv Hw) as [Hinv' Hstep]. split_and!; [done|done| |done].
    intros x Hx. apply insert_definition_result in Hx as [Hx Ht]. by apply read_row_now.
  - intros [x|e]; apply ret_safe; intros db _ Hr; [|apply update_failure_shows]. by apply scanned_shows, Hr.
Qed.

Lemma update_definition_result t id def env db x : (update_definition t id def env db).1 = Ok x →
  x ∈ rg_actions (update_definition t id def env db).2 ∧ aw_tenant_id x = t.
Proof.
  unfold update_definition. destruct (filter _ _) as [|y l] eqn:Hf; [done|]. destruct (existsb _ _); [done|]. intros [= <-]. cbn [snd].
  assert (y ∈ y :: l) as Hy by (by left). rewrite <-Hf in Hy. apply list_elem_of_filter in Hy as [Hl Hy]. split.
  - change (updated_row def (en_now env) y ∈ (λ y, if live_id t id y then updated_row def (en_now env) y else y) <$> rg_actions db).
    apply list_elem_of_fmap. exists y. apply Is_true_true in Hl. by rewrite Hl.
  - apply Is_true_true, live_id_spec in Hl as (Ht & _). unfold updated_row.
    destruct (definition_row_fields (def {{ ad_ID := aw_id y; ad_TenantID := aw_tenant_id y }}) (aw_created_at y) (en_now env) (aw_origin y)) as (_ & -> & _).
    by destruct def.
Qed.

(** The references of a definition that was scanned are safe. *)
Lemma scanned_refs x def : scanActionDefinition x = Some def → Forall safe_ref (default [] (ad_SecretRefs def)).
Proof.
  unfold scanActionDefinition. cbv zeta. destruct (sanitizeActionMetadata _) as [m|]; [|done]. intros [= <-]. apply sanitized_refs.
Qed.

Lemma action_patch_safe i t id body : rsafe i (λ _, True) (handleActionPatch t id body) (shows t).
Proof.
  unfold handleActionPatch. case_bool_decide; [by apply ret_safe|]. eapply safe_bind; [apply load_safe|].
  intros r. apply (safe_weaken _ _ _ _ (λ _, True)); [|done]. destruct (optional_row r) as [[row|]|e]; [|by apply ret_safe..].
  destruct (scanActionDefinition row) as [current|] eqn:Hscan; [|by apply ret_safe]. destruct (unmarshal _ _ _) as [req ok].
  destruct (negb ok); [by apply ret_safe|]. destruct (normalizeActionDefinitionRequest req (Some current)) as [[def|e]|] eqn:Hn; [|by apply ret_safe..].
  assert (typed_definition def) as Hd by (eapply normalized_typed; [|exact Hn]; intros c [= <-]; by eapply scanned_refs).
  eapply safe_bind; [apply (safe_waiting _ _ _ _ _ _ (λ r db, ∀ x, r = Ok x → read_row t x db)); [apply always_stable| |done]|].
  - intros env db Hinv Hw _. destruct (update_definition_ok i t (ad_ID current) def env db Hd Hinv Hw) as [Hinv' Hstep].
    split_and!; [done|done| |done]. intros x Hx. apply update_definition_result in Hx as [Hx Ht]. by apply read_row_now.
  - intros u. apply ret_safe. intros db _ Hr. destruct u as [x|e]; cbn; [by apply scanned_shows, Hr|].
    case_bool_decide; [done|apply update_failure_shows].
Qed.

Lemma action_archive_safe i t id : rsafe i (λ _, True) (handleActionArchive t id) (λ reply _, ∀ st def, reply ≠ ReplyAction st def).
Proof.
  unfold handleActionArchive. case_bool_decide; [by apply ret_safe|].
  eapply safe_bind; [apply (safe_waiting _ _ _ _ _ _ (λ _ _, True)); [apply always_stable| |done]|].
  - intros env db Hinv Hw _. destruct (archive_definition_ok i t id env db Hinv Hw) as [? ?]. by split_and!.
  - intros [n|e]; apply ret_safe; [|done]. intros db _ _. by destruct (n =? 0)%nat.
Qed.

Lemma all_some_forall {A} (l : list (option A)) (m : list A) : all_some l = Some m → Forall2 (λ o a, o = Some a) l m.
Proof.
  revert m. induction l as [|[a|] l IH]; intros m; cbn; [by intros [= <-]| |done]. destruct (all_some l) as [m'|]; [|done].
  intros [= <-]. constructor; [done|by apply IH].
Qed.

Lemma action_list_safe i t : rsafe i (λ _, True) (handleActionList t) (reply_true (ActionList t)).
Proof.
  unfold handleActionList. case_bool_decide; [by apply ret_safe|]. eapply safe_bind.
  - apply (read_safe _ _ (λ r db, ∀ l, r = Ok l → Forall (λ x, read_row t x db) l)); [done| |done].
    intros env db Hinv l [= <-]. apply Forall_take, Forall_forall. intros x Hx. rewrite merge_sort_Permutation in Hx.
    apply list_elem_of_filter in Hx as [[Ht _] Hx]. by apply read_row_now.
  - intros [l|e]; apply ret_safe; [|done]. intros db _ Hl. pose proof (Hl _ eq_refl) as Hall.
    destruct (all_some _) as [defs|] eqn:Hd; [|done]. apply all_some_forall in Hd. cbn [reply_true].
    apply Forall_forall. intros def Hdef. apply list_elem_of_lookup in Hdef as [k Hk].
    destruct (Forall2_lookup_r _ _ _ _ _ Hd Hk) as (o & Ho & ->). rewrite list_lookup_fmap in Ho. destruct (l !! k) as [x|] eqn:Hx; [|done].
    injection Ho as Ho. eapply read_row_shown; [|exact Ho]. rewrite Forall_lookup in Hall. by eapply Hall.
Qed.

(** ** All requests *)

Lemma handle_safe i req : rsafe i (λ _, True) (handle_request i req) (reply_true req).
Proof.
  destruct req as [t key body|t n l b|t n h|t n h body|t n h|t|t body|t id|t id body|t id|j]; cbn [handle_request].
  - apply sync_handler_safe.
  - apply action_get_safe.
  - apply version_get_safe.
  - apply binding_create_safe.
  - apply binding_get_safe.
  - apply action_list_safe.
  - eapply safe_post; [apply action_create_safe|]. intros [] db _ Hr; cbn; try done. by eapply Hr.
  - eapply safe_post; [apply action_read_safe|]. intros [] db _ Hr; cbn; try done. by eapply Hr.
  - eapply safe_post; [apply action_patch_safe|]. intros [] db _ Hr; cbn; try done. by eapply Hr.
  - eapply safe_post; [apply action_archive_safe|]. intros [] db _ Hr; by cbn.
  - eapply safe_bind; [apply (safe_statement _ _ _ _ _ (λ _ _, True)); [apply always_stable| |done]|intros r; by apply ret_safe].
    intros env db Hinv _. split_and!; [by apply drop_inv|apply step_drop|done|done].
Qed.

Definition pair_true (rr : registry_request * registry_reply) : registry → Prop := reply_true rr.1 rr.2.

Lemma serve_safe i req : rsafe i (λ _, True) (serve i req) pair_true.
Proof. eapply safe_bind; [apply handle_safe|]. intros reply. by apply ret_safe. Qed.
End Serve.
