(* ===== verification/RegistryTheorems.v ===== *)
(** * The registry, whatever happens

    The theorems about all interleavings of the requests of the registry, with
    statements that fail, replies that are lost and connections that end. *)

From S2P Require Import Prelude GoStrings Json GoTime Ext CanonicalJson Concurrent Types TaskDef.
From S2P Require Import InputRefs Redaction TargetPolicy.
From S2P Require Import Evidence Actions ActionFacts Contracts Registry RegistryHandlers.
From S2P Require Import RegistryLogic RegistryInv RegistrySteps RegistryFacts.
From S2P Require Import RegistryReplies RegistryServe.
Open Scope Z_scope.

Definition empty_registry : registry := mkRegistry [] [] [] [] ∅.

Section Theorems.
Context `{Ext} `{MapRange} `{Resolver} `{PgText}.

(** What the server becomes. *)
Definition served (hs : list (happening evidence_env registry_request)) : registry * list (rprog (registry_request * registry_reply)) :=
  history serve empty_registry hs.

(** Request [i] was [req] and has been answered with [reply]. *)
Definition replied hs (i : nat) (req : registry_request) (reply : registry_reply) : Prop := (served hs).2 !! i = Some (Ret (req, reply)).

Lemma requests_safe i req : ∃ P, safe registry_inv (others step_of i) (step_of i) P (serve i req) pair_true ∧ ∀ db, P db.
Proof. exists (λ _, True). split; [apply serve_safe|done]. Qed.

Lemma pairs_stable rr : stable advances (pair_true rr).
Proof. apply reply_stable. Qed.

Lemma served_ok hs : pool_ok registry_inv step_of pair_true (served hs).
Proof.
  eapply (history_ok serve registry_inv advances step_of so_advances pair_true pairs_stable); [apply requests_safe|apply empty_registry_inv].
Qed.

Lemma served_inv hs : registry_inv (served hs).1.
Proof. apply served_ok. Qed.

Lemma served_advances hs hs' : advances (served hs).1 (served (hs ++ hs')).1.
Proof.
  unfold served. rewrite history_app. apply (continue_ok serve registry_inv advances step_of so_advances pair_true pairs_stable); [apply requests_safe|].
  apply served_ok.
Qed.

Lemma served_step hs h : (served (hs ++ [h])).1 = (served hs).1 ∨ ∃ i, step_of i (served hs).1 (served (hs ++ [h])).1.
Proof. unfold served. rewrite history_app. eapply happen_step, served_ok. Qed.

Lemma served_reply hs i req reply : replied hs i req reply → reply_true req reply (served hs).1.
Proof. intros Hr. destruct (served_ok hs) as [_ Hp]. destruct (Hp i _ Hr) as (P & _ & _ & Ht). by apply (Ht (req, reply)). Qed.

Lemma validated contract vc : validateContractV1 contract = inr vc →
  vc_RecomputedHash vc = ContractHash contract ∧ vc_CanonicalBody vc = Encode contract ∧ vc_ActionName vc = str_or contract "action_name" ∧
  str_or contract "contract_hash" = ContractHash contract.
Proof.
  unfold validateContractV1. destruct (unexpected_key _ _); [done|]. cbv zeta. destruct (negb _); [done|]. destruct (negb _); [done|].
  destruct (negb _); [done|]. destruct (negb _); [done|]. destruct (negb _); [done|]. destruct (first_refusal _ _); [done|].
  destruct (descriptors_refusal contract); [done|]. destruct (code_fingerprint contract); [done|]. destruct (negb _); [done|].
  case_bool_decide as Hh; cbn [negb]; [|done]. by intros [= <-].
Qed.

(** ** The registry's theorems *)

(** A stored version: a contract that passed validation, under the hash of its
    canonical bytes. *)
Definition contract_version (v : contractVersionRecord) : Prop :=
  ∃ contract vc, validateContractV1 contract = inr vc ∧ cr_action_name v = str_or contract "action_name" ∧
    cr_ContractHash v = ContractHash contract ∧ cr_Contract v = jsonb_text (Encode contract) ∧ cr_Risk v = vc_Risk vc ∧
    cr_ApprovalMode v = vc_ApprovalMode vc.

(** C18: however requests interleave, fail or lose their replies, the history of
    contract versions is append-only; a tenant's action has one version for a
    hash; and each version is a contract that passed validation, stored under
    the hash of its own canonical bytes. *)
Theorem contract_versions_immutable hs hs' :
  let db := (served hs).1 in
  (∃ l, rg_versions (served (hs ++ hs')).1 = rg_versions db ++ l) ∧ NoDup (version_key <$> rg_versions db) ∧
  Forall contract_version (rg_versions db).
Proof.
  cbv zeta. split; [apply served_advances|]. destruct (ri_versions _ (served_inv hs)) as (Hk & _ & Hs).
  unfold everywhere in Hk, Hs. apply unique_sub in Hk. apply Forall_app in Hs as [Hs _]. split.
  - by apply unique_total.
  - eapply Forall_impl; [exact Hs|]. intros v (contract & vc & sensitive & flags & Hvc & ->). exists contract, vc.
    destruct (validated contract vc Hvc) as (Hh & Hb & Hn & _). cbn. rewrite Hh, Hb, Hn. by split_and!.
Qed.

(** C20: whatever the interleaving, every row of action_definitions is a
    definition an operator registered, well-formed (name, target, URL policy,
    method, preset, replay class, secret references, fallback), or one an SDK's
    synchronization declared; archived or not. *)
Theorem registry_typed hs : Forall (λ x, declared_action x ∨ registered_action x) (rg_actions (served hs).1).
Proof. apply Forall_forall. intros x. apply row_sound, served_inv. Qed.

(** C19: when a binding becomes visible, its target is live at that moment, and
    its snapshot and hash are those of the target's current definition, which
    meets the policy for bound targets: no patch or archive slips in between.
    Bindings are never changed, and there is one for a contract version. *)
Theorem bindings_published_current hs h :
  let db := (served hs).1 in let db' := (served (hs ++ [h])).1 in
  (∃ l, rg_bindings db' = rg_bindings db ++ l) ∧ NoDup (binding_key <$> rg_bindings db') ∧
  Forall (λ b, b ∈ rg_bindings db ∨ current (rg_actions db') b) (rg_bindings db') ∧
  Forall (binding_sound (rg_versions db') (rg_actions db')) (rg_bindings db').
Proof.
  cbv zeta. split; [apply served_advances|]. pose proof (served_inv (hs ++ [h])) as Hinv. split_and!; [| |apply Hinv].
  - destruct (ri_bindings _ Hinv) as (Hk & _). by apply unique_sub, unique_total in Hk.
  - apply Forall_forall. intros b Hb. destruct (served_step hs h) as [He|[i Hs]]; [left; by rewrite <-He|by eapply so_published].
Qed.

(** What is stored of a reply's body. *)
Definition stored_text (text : string) (replayed : bool) : string := if replayed then text else jsonb_text text.

Lemma submitted_fun body vc vc' : submitted body vc → submitted body vc' → vc = vc'.
Proof. intros (r & c & H1' & H2' & H3') (r' & c' & H1'' & H2'' & H3''). congruence. Qed.

(** C17: an idempotency key stands for one contract and one answer: of any two
    synchronizations of a tenant's action that were answered under the same key,
    however they raced, both submitted the same contract hash and got the same
    status and (up to JSONB's layout) the same body, which describes a version
    that is in the table. *)
Theorem sync_replies_agree hs i j tenantID key key' body body' status status' text text' replayed replayed' :
  replied hs i (ContractSync tenantID key body) (ReplySync status text replayed) →
  replied hs j (ContractSync tenantID key' body') (ReplySync status' text' replayed') →
  TrimSpace key' = TrimSpace key → TrimSpace key ≠ "" →
  ∃ vc vc', submitted body vc ∧ submitted body' vc' ∧
    (vc_ActionName vc' = vc_ActionName vc →
     vc_RecomputedHash vc' = vc_RecomputedHash vc ∧ status' = status ∧ stored_text text' replayed' = stored_text text replayed ∧
     ∃ r, answers tenantID vc r (served hs).1 ∧ status = sync_status (sr_created r) ∧
       stored_text text replayed = jsonb_text (sync_response_text r)).
Proof.
  intros Hi%served_reply Hj%served_reply Hkey Hne. destruct Hi as (vc & r & Hs & Ha & Hst & Ht & Hrec).
  destruct Hj as (vc' & r' & Hs' & Ha' & Hst' & Ht' & Hrec'). rewrite Hkey in Hrec'. exists vc, vc'. split_and!; [done|done|]. intros Hn.
  specialize (Hrec Hne). specialize (Hrec' Hne). unfold recorded in *. destruct (ri_syncs _ (served_inv hs)) as (Hk & _). apply unique_sub in Hk.
  pose proof (unique_eq _ _ _ _ (tenantID, vc_ActionName vc, TrimSpace key) Hk Hrec Hrec') as He. unfold compose, sync_key in He. cbn in He. rewrite Hn in He.
  specialize (He eq_refl eq_refl). injection He as Hh Hst'' Hb. split_and!; [done|done|by destruct replayed, replayed'|].
  exists r. split_and!; [done|done|]. by destruct replayed; rewrite Ht.
Qed.
End Theorems.
