(* ===== verification/RegistryExamples.v ===== *)
(** * The registry, run

    Synchronizations that race for one key, a binding whose target is patched
    meanwhile, and two surprises of the definition handlers. *)

From S2P Require Import Prelude GoStrings Json GoTime Ext CanonicalJson Concurrent Types TaskDef.
From S2P Require Import InputRefs Redaction TargetPolicy.
From S2P Require Import Evidence EvidenceExamples Actions ActionFacts Contracts Registry.
From S2P Require Import RegistryHandlers RegistryLogic RegistryInv.
From S2P Require Import RegistryServe RegistryTheorems.
Open Scope Z_scope.

Module RegistryExample.
#[local] Existing Instance EvidenceExample.evidence_ext.
#[local] Instance as_listed : MapRange := λ ks, ks.
#[local] Instance resolver : Resolver := λ host, if bool_decide (host ∈ ["a.example"; "b.example"]) then Some [[93; 184; 216; 34]] else None.
#[local] Instance as_parsed : PgText := uuid_Parse.

Definition of_list (l : list (string * any)) : object := foldl (λ m kv, put kv.1 kv.2 m) [] l.

(** A contract under its own hash. *)
Definition contract (risk : string) : object :=
  let m := of_list [("schema_version", AString "1"); ("action_name", AString "deploy"); ("module", AString "ops");
    ("qualified_name", AString "ops.deploy"); ("risk", AString risk); ("approval_mode", AString "never"); ("execution_mode", AString "embedded");
    ("parameter_descriptors", AList [AMap (of_list [("name", AString "env"); ("kind", AString "arg"); ("has_default", ABool false)])])] in
  put "contract_hash" (AString (ContractHash m)) m.
Definition body (risk : string) : string := Encode (of_list [("contract", AMap (contract risk))]).
Definition hash (risk : string) : string := ContractHash (contract risk).

Definition env (n : Z) : evidence_env := mkEvidenceEnv (n * Second) (Z.to_N n) (n * Second).
Definition turns (i : nat) (n : Z) (k : nat) : list (happening evidence_env registry_request) := (λ m, Run i (env (n + Z.of_nat m))) <$> seq 0 k.

(** The status of a reply, and whether it was replayed. *)
Definition status_of (p : option (rprog (registry_request * registry_reply))) : option (Z * bool) :=
  match p with
  | Some (Ret (_, ReplySync st _ replayed)) => Some (st, replayed)
  | Some (Ret (_, ReplyBinding st _)) => Some (st, false)
  | Some (Ret (_, ReplyAction st _)) => Some (st, false)
  | Some (Ret (_, ReplyFailure st _ _)) => Some (st, false)
  | Some (Ret (_, ReplyNoContent)) => Some (204, false)
  | _ => None
  end.

(** Two synchronizations under one key: the second waits for the first one's
    claim and replays its answer; a third one with another contract conflicts. *)
Definition race : list (happening evidence_env registry_request) :=
  [Start (ContractSync "acme" "k" (body "high")); Start (ContractSync "acme" "k " (body "high")); Start (ContractSync "acme" "k" (body "low"))]
  ++ turns 0 1 2 ++ turns 1 10 3 ++ turns 0 20 10 ++ turns 1 40 5 ++ turns 2 60 5.

Example race_replies : status_of <$> [(served race).2 !! 0%nat; (served race).2 !! 1%nat; (served race).2 !! 2%nat] =
  [Some (201, false); Some (201, true); Some (409, false)].
Proof. vm_compute. reflexivity. Qed.

Definition text_of (n : nat) : string := match (served race).2 !! n with Some (Ret (_, ReplySync _ text _)) => text | _ => "" end.

Lemma sync_replies_agree_witness :
  replied race 0 (ContractSync "acme" "k" (body "high")) (ReplySync 201 (text_of 0) false) ∧
  replied race 1 (ContractSync "acme" "k " (body "high")) (ReplySync 201 (text_of 1) true) ∧
  ∃ vc, submitted (body "high") vc ∧ stored_text (text_of 1) true = stored_text (text_of 0) false.
Proof.
  assert (replied race 0 (ContractSync "acme" "k" (body "high")) (ReplySync 201 (text_of 0) false)) as Hi by (vm_compute; reflexivity).
  assert (replied race 1 (ContractSync "acme" "k " (body "high")) (ReplySync 201 (text_of 1) true)) as Hj by (vm_compute; reflexivity).
  split; [exact Hi|]. split; [exact Hj|].
  assert (TrimSpace "k " = TrimSpace "k") as Hk by (vm_compute; reflexivity). assert (TrimSpace "k" ≠ "") as Hne by (vm_compute; discriminate).
  destruct (sync_replies_agree race 0 1 _ _ _ _ _ _ _ _ _ _ _ Hi Hj Hk Hne) as (vc & vc' & Hs & Hs' & Ha).
  exists vc. split; [exact Hs|]. apply Ha. f_equal. exact (submitted_fun _ _ _ Hs' Hs).
Defined.

(** ** Bindings *)

Definition hook (url : string) : string := Encode (of_list [("name", AString "deploy_hook"); ("target_type", AString "webhook");
  ("target_url", AString url); ("policy_preset", AString "Human-gated");
  ("target_metadata", AMap (of_list [("local_auth_header_name", AString "X-Auth"); ("local_auth_secret_env", AString "IGRIS_HOOK")]))]).
Definition binding_body : string := Encode (of_list [("target_action_id", AString (uuid_String 9%N));
  ("input_mapping", AMap (of_list [("env", AString "env")])); ("idempotency_required", ABool true)]).

(** A contract and a target (whose identifier is 9), then a binding; a patch
    that arrives while the binding's transaction holds its target waits. *)
Definition bind_race : list (happening evidence_env registry_request) :=
  [Start (ContractSync "acme" "" (body "high"))] ++ turns 0 1 7 ++ [Start (ActionCreate "acme" (hook "https://a.example"))] ++ turns 1 9 1
  ++ [Start (ContractBindingCreate "acme" "deploy" (hash "high") binding_body);
      Start (ActionPatch "acme" (uuid_String 9%N) (Encode (of_list [("target_url", AString "https://b.example")])))]
  ++ turns 2 20 3 ++ turns 3 30 2 ++ turns 2 40 2 ++ turns 3 50 1.

Example bind_replies :
  let c := served bind_race in
  (status_of <$> [c.2 !! 0%nat; c.2 !! 1%nat; c.2 !! 2%nat; c.2 !! 3%nat], aw_target_url <$> rg_actions c.1, length (rg_bindings c.1)) =
  ([Some (201, false); Some (201, false); Some (201, false); Some (200, false)], [""; "https://b.example"], 1%nat).
Proof. vm_compute. reflexivity. Qed.

(** Before the binding commits the patch has not run. *)
Example patch_waits :
  let c := served (take (length bind_race - 3) bind_race) in
  (status_of (c.2 !! 3%nat), aw_target_url <$> rg_actions c.1) = (None, [""; "https://a.example"]).
Proof. vm_compute. reflexivity. Qed.
End RegistryExample.
