(* ===== verification/Receipts.v ===== *)
(** * Verification of runtime artifacts

    internal/runtime_client.go: an execution receipt is hashed over a canonical
    map of its fields and signed by the runtime; an execution envelope is signed
    over its own JSON.  coordinator/task_coordinator.go accepts a batch of
    per-step receipts when each verifies and each names the hash of the one
    before.

    A decoded [map[string]interface{}] is an [option jv] ([None] is nil); a
    missing public key is the empty string.  Error values of other packages
    keep their prefix only. *)

From S2P Require Import Prelude GoStrings Json JsonFacts Float64 Ext Types Capability TaskDef.
Open Scope Z_scope.

Definition PublicKeySize : nat := 32.

Section Receipts.
Context `{Ext}.

(** ** Canonical form *)

(** [fmt.Sprintf("%v", v)] of a decoded value: a map prints its keys in order. *)
Fixpoint any_v (v : jv) : string :=
  match v with
  | JNull => "<nil>"
  | JBool b => bool_text b
  | JNum l => format_v (float64_of l)
  | JStr s => s
  | JArr l => "[" +:+ Join (List.map (λ n, any_v n.2) l) " " +:+ "]"
  | JObj l =>
    let m := foldl (λ m (kv : string * string), <[kv.1 := kv.2]> m) (∅ : gmap string string)
               (List.map (λ kv, (kv.1, any_v kv.2.2)) l) in
    "map[" +:+ Join ((λ kv, kv.1 +:+ ":" +:+ kv.2) <$> sorted_members m) " " +:+ "]"
  end.

Definition receiptFieldString (receipt : option jv) (key : string) : string :=
  match any_get receipt key with
  | None | Some JNull => ""
  | Some (JStr s) => s
  | Some (JBool b) => bool_text b
  | Some (JNum l) => receipt_float l
  | Some v => any_v v
  end.

Definition required_fields : list string :=
  ["agent_id"; "cpu_time_ms"; "execution_id"; "fs_bytes_written"; "memory_peak_mb"; "previous_hash";
   "timestamp_utc"; "tool_calls"; "violation_occurred"; "wall_time_ms"].
Definition optional_fields : list string := ["runtime_id"; "transaction_hash"; "transaction_id"].

(** The members of the canonical map: the required fields, and the optional ones
    that are not empty. *)
Definition canonical_map (receipt : option jv) : gmap string string :=
  list_to_map (((λ k, (k, receiptFieldString receipt k)) <$> required_fields) ++
    filter (λ kv, kv.2 ≠ "") ((λ k, (k, receiptFieldString receipt k)) <$> optional_fields)).

Definition canonicalReceiptBytes (receipt : option jv) : string :=
  map_text (str_text <$> canonical_map receipt).

Definition ComputeCanonicalReceiptHash (receipt : option jv) : string :=
  sha256_hex (canonicalReceiptBytes receipt).

(** ** One receipt *)

Record ReceiptVerificationResult := mkReceiptResult {
  rv_RuntimeKeyFound : bool;
  rv_ReceiptPresent : bool;
  rv_SignaturePresent : bool;
  rv_HashValid : bool;
  rv_SignatureValid : bool;
  rv_ComputedHash : string;
  rv_StoredHash : string;
  rv_Reason : string;
}.

Definition rv_Verified (r : ReceiptVerificationResult) : bool :=
  rv_RuntimeKeyFound r && rv_ReceiptPresent r && rv_SignaturePresent r && rv_HashValid r && rv_SignatureValid r.

(** A hex public key of the right size. *)
Definition decode_public_key (hexKey : string) : option string :=
  match hex_decode hexKey with
  | Some decoded => if bool_decide (slen decoded = PublicKeySize) then Some decoded else None
  | None => None
  end.

Definition string_field (receipt : option jv) (key : string) : string :=
  default "" (as_string (any_get receipt key)).

Definition VerifyReceiptCryptographic (receipt : option jv) (publicKeyHex : string) : ReceiptVerificationResult :=
  match receipt with
  | Some (JObj (_ :: _)) =>
    let publicKeyHex := TrimSpace publicKeyHex in
    let failed reason := mkReceiptResult false true false false false "" "" reason in
    if bool_decide (publicKeyHex = "") then failed "runtime public key not found"
    else match decode_public_key publicKeyHex with
    | None => failed "runtime public key invalid"
    | Some keyBytes =>
      let storedHash := string_field receipt "hash" in
      let digest := sha256 (canonicalReceiptBytes receipt) in
      let computedHash := hex_encode digest in
      let hashValid := nonempty storedHash && bool_decide (computedHash = storedHash) in
      let sigStr := string_field receipt "signature" in
      if bool_decide (sigStr = "")
      then mkReceiptResult true true false hashValid false computedHash storedHash "receipt has no signature"
      else match b64_decode false true sigStr with
      | None => mkReceiptResult true true true hashValid false computedHash storedHash
                  "receipt signature base64 decode failed: illegal base64 data"
      | Some sigBytes =>
        if negb (ed25519_Verify keyBytes digest sigBytes)
        then mkReceiptResult true true true hashValid false computedHash storedHash
               "receipt signature verification failed"
        else mkReceiptResult true true true hashValid true computedHash storedHash
               (if hashValid then "receipt cryptographically verified"
                else "receipt hash does not match canonical re-computation")
      end
    end
  | _ => mkReceiptResult false false false false false "" "" "receipt is empty"
  end.

(** ** Envelope and receipt under one key *)

(** [sig, ok := record["signature"]] up to its decoding. *)
Definition record_signature (recordName : string) (record : option jv) : res string :=
  match any_get record "signature" with
  | None => Err (Errorf (recordName +:+ " missing signature field"))
  | Some v =>
    let sigStr := default "" (as_string (Some v)) in
    if bool_decide (sigStr = "") then Err (Errorf (recordName +:+ " has empty signature"))
    else match b64_decode false true sigStr with
    | None => Err (Wrapf (recordName +:+ " signature base64 decode: ") (Errorf "illegal base64 data") "")
    | Some sigBytes => Ok sigBytes
    end
  end.

(** [json.Marshal] of the record without its signature. *)
Definition unsigned_text (record : option jv) : string :=
  match record with
  | Some (JObj l) => any_text (JObj (filter (λ kv, kv.1 ≠ "signature") l))
  | _ => "null"
  end.

Definition verifySignedJSON (publicKey : string) (record : option jv) (recordName : string) : res () :=
  if bool_decide (publicKey = "") then
    if bool_decide (getenv "ENV" = "production") || bool_decide (getenv "OVERTURE_ENV" = "production")
    then Err (Errorf (recordName +:+
           " verification requires public key in production (OVERTURE_RUNTIME_PUBLIC_KEY not set)"))
    else Ok tt
  else
    match record_signature recordName record with
    | Err e => Err e
    | Ok sigBytes =>
      if ed25519_Verify publicKey (sha256 (unsigned_text record)) sigBytes then Ok tt
      else Err (Errorf (recordName +:+ " signature verification failed"))
    end.

Definition verifyEnvelope (publicKey : string) (envelope : option jv) : res () :=
  verifySignedJSON publicKey envelope "execution_envelope".

Definition verifyReceipt (publicKey : string) (receipt : option jv) : res () :=
  if bool_decide (publicKey = "") then Ok tt
  else match record_signature "execution_receipt" receipt with
  | Err e => Err e
  | Ok sigBytes =>
    let hash := sha256 (canonicalReceiptBytes receipt) in
    let hashStr := string_field receipt "hash" in
    if nonempty hashStr && negb (bool_decide (hashStr = hex_encode hash))
    then Err (Errorf "execution_receipt hash mismatch")
    else if ed25519_Verify publicKey hash sigBytes then Ok tt
    else Err (Errorf "execution_receipt signature verification failed")
  end.

Definition verifyArtifactRuntimeID (envelope receipt : option jv) : res () :=
  let envelopeRuntimeID := TrimSpace (receiptFieldString envelope "runtime_id") in
  let receiptRuntimeID := TrimSpace (receiptFieldString receipt "runtime_id") in
  if bool_decide (envelopeRuntimeID = "") || bool_decide (receiptRuntimeID = "") then Ok tt
  else if bool_decide (envelopeRuntimeID = receiptRuntimeID) then Ok tt
  else Err (Errorf "execution artifact runtime_id mismatch").

Definition decode_failed (what : string) : goerror := Wrapf (what +:+ " decode: ") (Errorf "json: cannot unmarshal") "".

Definition client_VerifyExecutionArtifactsRaw (publicKey envelopeRaw receiptRaw : string) : res () :=
  _ ← (if nonempty envelopeRaw then
         match unmarshal_object envelopeRaw with
         | None => Err (decode_failed "execution_envelope")
         | Some envelope => verifyEnvelope publicKey envelope
         end
       else Ok tt);
  if nonempty receiptRaw then
    match unmarshal_object receiptRaw with
    | None => Err (decode_failed "execution_receipt")
    | Some receipt =>
      _ ← verifyReceipt publicKey receipt;
      if nonempty envelopeRaw then
        match unmarshal_object envelopeRaw with
        | None => Err (decode_failed "execution_envelope")
        | Some envelope => verifyArtifactRuntimeID envelope receipt
        end
      else verifyArtifactRuntimeID None receipt
    end
  else Ok tt.

(** The public key [NewRuntimeClient] takes from the environment. *)
Definition env_public_key : string :=
  let hexKey := EnvOrLegacy "OVERTURE_RUNTIME_PUBLIC_KEY" "IGRIS_RUNTIME_PUBLIC_KEY" in
  if nonempty hexKey then default "" (decode_public_key (TrimSpace hexKey)) else "".

Definition VerifyExecutionArtifactsRaw (envelopeRaw receiptRaw : string) : res () :=
  client_VerifyExecutionArtifactsRaw env_public_key envelopeRaw receiptRaw.

Definition VerifyExecutionArtifactsRawWithPublicKey (envelopeRaw receiptRaw publicKeyHex : string) : res () :=
  if nonempty publicKeyHex then
    match decode_public_key publicKeyHex with
    | None => Err (Errorf "runtime public key invalid")
    | Some decoded => client_VerifyExecutionArtifactsRaw decoded envelopeRaw receiptRaw
    end
  else client_VerifyExecutionArtifactsRaw "" envelopeRaw receiptRaw.

(** ** Chains of step receipts *)

Definition not_object (idx : nat) : goerror :=
  Wrapf ("step receipt " +:+ pretty idx +:+ " is not a JSON object: ") (Errorf "json: cannot unmarshal") "".

Fixpoint chain_links (idx : nat) (prevHash : string) (stepReceipts : list string) : res string :=
  match stepReceipts with
  | [] => Ok prevHash
  | raw :: rest =>
    match unmarshal_object raw with
    | None => Err (not_object idx)
    | Some receipt =>
      let gotPrev := string_field receipt "previous_hash" in
      if (0 <? idx)%nat && negb (bool_decide (gotPrev = prevHash))
      then Err (Errorf ("step receipt " +:+ pretty idx +:+ " previous_hash " +:+ strconv_Quote gotPrev
                        +:+ " does not chain to prior receipt hash " +:+ strconv_Quote prevHash))
      else
        let hash := string_field receipt "hash" in
        if bool_decide (TrimSpace hash = "")
        then Err (Errorf ("step receipt " +:+ pretty idx +:+ " has no hash"))
        else chain_links (S idx) hash rest
    end
  end.

Definition validateReceiptChainLinks (stepReceipts : list string) : res string := chain_links 0 "" stepReceipts.

(** The loop of [verifyStepReceiptsForTask]. *)
Definition verify_step (publicKeyHex : string) (idx : nat) (raw : string) : res () :=
  match unmarshal_object raw with
  | None => Err (not_object idx)
  | Some receipt =>
    let r := VerifyReceiptCryptographic receipt publicKeyHex in
    if rv_Verified r then Ok tt
    else Err (Errorf ("step receipt " +:+ pretty idx +:+ " failed cryptographic verification: " +:+ rv_Reason r))
  end.

Definition verify_step_receipts (publicKeyHex : string) (stepReceipts : list string) : res () :=
  _ ← res_forMi (verify_step publicKeyHex) 0 stepReceipts;
  _ ← validateReceiptChainLinks stepReceipts;
  Ok tt.
End Receipts.
