(* ===== verification/ReceiptFacts.v ===== *)
(** * What verified receipts guarantee

    Exactness of the verification of one receipt, acceptance of what the
    runtime signs, exactness of the chain check, and what they give together:
    the hash of an accepted chain's last receipt fixes every hashed field of
    every receipt of the chain. *)

From S2P Require Import Prelude GoStrings Json JsonFacts Float64 Ext Types Capability TaskDef.
From S2P Require Import Receipts.
Open Scope Z_scope.

Section Facts.
Context `{Ext}.

Definition receipt_of (raw : string) : option jv := default None (unmarshal_object raw).
Definition step_hash (raw : string) : string := string_field (receipt_of raw) "hash".
Definition step_prev (raw : string) : string := string_field (receipt_of raw) "previous_hash".

(** The key, the digest and the signature a verified receipt has. *)
Definition signed_under (receipt : option jv) (publicKeyHex : string) : Prop :=
  ∃ keyBytes sigBytes,
    decode_public_key (TrimSpace publicKeyHex) = Some keyBytes ∧
    string_field receipt "hash" = ComputeCanonicalReceiptHash receipt ∧
    string_field receipt "hash" ≠ "" ∧
    b64_decode false true (string_field receipt "signature") = Some sigBytes ∧
    string_field receipt "signature" ≠ "" ∧
    ed25519_Verify keyBytes (sha256 (canonicalReceiptBytes receipt)) sigBytes = true.

Lemma decode_public_key_empty : decode_public_key "" = None.
Proof. reflexivity. Qed.

Lemma string_field_member receipt k : string_field receipt k ≠ "" → ∃ f l, receipt = Some (JObj (f :: l)).
Proof.
  unfold string_field. destruct receipt as [v|]; [|done]. destruct v as [| | | | |l]; try done.
  destruct l as [|f l]; [done|]. eauto.
Qed.

Lemma receipt_verified_iff receipt publicKeyHex :
  rv_Verified (VerifyReceiptCryptographic receipt publicKeyHex) = true ↔ signed_under receipt publicKeyHex.
Proof.
  split.
  - unfold VerifyReceiptCryptographic. destruct receipt as [v|]; [|done].
    destruct v as [| | | | |l]; try done. destruct l as [|f l]; [done|]. cbv zeta.
    set (receipt := Some (JObj (f :: l))).
    case_bool_decide as Hk; [done|]. destruct (decode_public_key _) as [keyBytes|] eqn:Hkey; [|done].
    case_bool_decide as Hs; [done|]. destruct (b64_decode _ _ _) as [sigBytes|] eqn:Hb; [|by destruct (nonempty _ && _)].
    destruct (ed25519_Verify _ _ _) eqn:Hv; cbn [negb]; [|by destruct (nonempty _ && _)].
    unfold rv_Verified. cbn [rv_RuntimeKeyFound rv_ReceiptPresent rv_SignaturePresent rv_HashValid rv_SignatureValid andb].
    rewrite andb_true_r, andb_true_iff, bool_decide_eq_true. unfold nonempty.
    rewrite negb_true_iff, bool_decide_eq_false. intros [Hne Hh].
    exists keyBytes, sigBytes. by split_and!.
  - intros (keyBytes & sigBytes & Hkey & Hh & Hne & Hb & Hs & Hv).
    destruct (string_field_member _ _ Hne) as (f & l & Hr). unfold VerifyReceiptCryptographic.
    rewrite Hr. cbv zeta. rewrite <-Hr.
    rewrite bool_decide_false; [|intros Ht; rewrite Ht in Hkey; done]. rewrite Hkey.
    rewrite (bool_decide_false _ Hs), Hb, Hv. cbn [negb]. unfold rv_Verified.
    cbn [rv_RuntimeKeyFound rv_ReceiptPresent rv_SignaturePresent rv_HashValid rv_SignatureValid andb].
    unfold nonempty. rewrite (bool_decide_false _ Hne). cbn [negb andb].
    rewrite bool_decide_true; [done|]. symmetry. exact Hh.
Qed.

(** C30: A receipt counts as verified exactly when the registered key decodes to
    an Ed25519 key, the stored hash is the SHA-256 of the canonical form
    recomputed from the receipt's own fields, and the signature decodes and
    verifies over that digest: a missing key, hash or signature is never
    enough. *)
Theorem receipt_verified_exact receipt publicKeyHex :
  rv_Verified (VerifyReceiptCryptographic receipt publicKeyHex) = true ↔ signed_under receipt publicKeyHex.
Proof. apply receipt_verified_iff. Qed.

(** ** Signing *)

(** The last member named [k] decides. *)
Lemma obj_lookup_snoc l f k :
  obj_lookup (l ++ [f]) k = if decide (f.1 = k) then Some f.2.2 else obj_lookup l k.
Proof.
  unfold obj_lookup. rewrite reverse_snoc. cbn [list_find]. destruct (decide (f.1 = k)); [done|].
  destruct (list_find _ (reverse l)) as [[i x]|]; done.
Qed.

(** A receipt as the runtime completes it: its hash and its signature appended. *)
Definition sealed (key : string) (fields : list (string * jnode)) : list (string * jnode) :=
  let canonical := canonicalReceiptBytes (Some (JObj fields)) in
  fields ++ [("hash", ("", JStr (sha256_hex canonical)));
             ("signature", ("", JStr (b64_encode (ed25519_Sign key (sha256 canonical)))))].

Lemma sealed_lookup key fields k :
  obj_lookup (sealed key fields) k =
  if decide (k = "signature")
  then Some (JStr (b64_encode (ed25519_Sign key (sha256 (canonicalReceiptBytes (Some (JObj fields)))))))
  else if decide (k = "hash") then Some (JStr (ComputeCanonicalReceiptHash (Some (JObj fields))))
  else obj_lookup fields k.
Proof.
  unfold sealed. cbv zeta. change (?a ++ [?x; ?y]) with (a ++ [x] ++ [y]). rewrite app_assoc, !obj_lookup_snoc.
  cbn [fst snd]. repeat case_decide; congruence || done.
Qed.

(** The hash and the signature are not hashed. *)
Lemma sealed_canonical key fields :
  canonicalReceiptBytes (Some (JObj (sealed key fields))) = canonicalReceiptBytes (Some (JObj fields)).
Proof.
  assert (∀ k, k ≠ "signature" → k ≠ "hash" →
    receiptFieldString (Some (JObj (sealed key fields))) k = receiptFieldString (Some (JObj fields)) k) as Hk.
  { intros k H1 H2. unfold receiptFieldString, any_get. rewrite sealed_lookup. by rewrite !decide_False. }
  unfold canonicalReceiptBytes, canonical_map. cbn [required_fields optional_fields fmap list_fmap].
  by rewrite !Hk.
Qed.

Lemma b64_encode_nonempty s : s ≠ "" → b64_encode s ≠ "".
Proof. by destruct s as [|a [|b [|c s]]]. Qed.

(** What the runtime signs is accepted: a receipt completed with the hash
    of its canonical form and a signature over it verifies under the runtime's
    registered public key, whatever else it contains. *)
Theorem signed_receipt_verifies `{!ExtLaws} key fields :
  slen (ed25519_Public key) = PublicKeySize →
  ed25519_Sign key (sha256 (canonicalReceiptBytes (Some (JObj fields)))) ≠ "" →
  rv_Verified (VerifyReceiptCryptographic (Some (JObj (sealed key fields))) (hex_encode (ed25519_Public key))) = true.
Proof.
  intros Hpub Hsig. set (receipt := Some (JObj (sealed key fields))).
  assert (string_field receipt "hash" = ComputeCanonicalReceiptHash receipt) as Hh.
  { unfold string_field, receipt, any_get, ComputeCanonicalReceiptHash. rewrite sealed_lookup, sealed_canonical. done. }
  assert (string_field receipt "signature" =
    b64_encode (ed25519_Sign key (sha256 (canonicalReceiptBytes receipt)))) as Hs.
  { unfold string_field, receipt, any_get. rewrite sealed_lookup, sealed_canonical. done. }
  apply receipt_verified_iff. exists (ed25519_Public key), (ed25519_Sign key (sha256 (canonicalReceiptBytes receipt))).
  rewrite Hh, Hs, TrimSpace_graphic by apply graphic_hex_encode.
  assert (ed25519_Sign key (sha256 (canonicalReceiptBytes receipt)) ≠ "") by (unfold receipt; by rewrite sealed_canonical).
  split_and!; [|done| |apply b64_decode_encode|by apply b64_encode_nonempty|apply ed25519_Verify_Sign].
  - unfold decode_public_key. by rewrite hex_decode_encode, bool_decide_true.
  - intros He. apply (f_equal slen) in He. unfold ComputeCanonicalReceiptHash, sha256_hex in He.
    rewrite slen_hex_encode, sha256_length in He. done.
Qed.

(** ** Chains *)

(** Every receipt is an object with a hash, and names the hash of the one before. *)
Definition linked (rs : list string) : Prop :=
  Forall (λ raw, is_Some (unmarshal_object raw) ∧ TrimSpace (step_hash raw) ≠ "") rs ∧
  ∀ i a b, rs !! i = Some a → rs !! S i = Some b → step_prev b = step_hash a.

Lemma linked_cons raw rs :
  linked (raw :: rs) ↔ is_Some (unmarshal_object raw) ∧ TrimSpace (step_hash raw) ≠ "" ∧
    (∀ b, head rs = Some b → step_prev b = step_hash raw) ∧ linked rs.
Proof.
  unfold linked. rewrite Forall_cons. split.
  - intros [[[Ho Hh] Hf] Hl]. split_and!; [done..| |done|].
    + intros b Hb. apply (Hl 0%nat raw b); [done|]. cbn. by destruct rs.
    + intros i a b Ha Hb. by apply (Hl (S i)).
  - intros (Ho & Hh & Hhead & Hf & Hl). split; [done|]. intros [|i] a b; cbn.
    + intros [= <-] Hb. apply Hhead. by destruct rs.
    + apply Hl.
Qed.

Lemma chain_links_spec idx prev rs h :
  chain_links idx prev rs = Ok h ↔
  linked rs ∧ ((0 < idx)%nat → ∀ b, head rs = Some b → step_prev b = prev) ∧
  h = default prev (step_hash <$> last rs).
Proof.
  revert idx prev. induction rs as [|raw rs IH]; intros idx prev; cbn [chain_links].
  { unfold linked. split; [|by intros (_ & _ & ->)]. intros [= ->]. split_and!; [constructor|done..]. }
  rewrite linked_cons. unfold step_prev at 2, step_hash at 1 2, receipt_of.
  destruct (unmarshal_object raw) as [receipt|] eqn:Hr; cbn [default].
  2:{ split; [done|]. intros [[Hn _] _]. by destruct Hn. }
  destruct ((0 <? idx)%nat && _) eqn:Hp.
  { apply andb_true_iff in Hp as [Hi%Nat.ltb_lt Hp%negb_true_iff%bool_decide_eq_false].
    split; [done|]. intros (_ & Hb & _). destruct Hp. rewrite <-(Hb Hi raw eq_refl). by rewrite Hr. }
  assert ((0 < idx)%nat → string_field receipt "previous_hash" = prev) as Hprev.
  { intros Hi. apply andb_false_iff in Hp as [Hp%Nat.ltb_ge|Hp%negb_false_iff%bool_decide_eq_true]; [lia|done]. }
  clear Hp. change (id receipt) with receipt. case_bool_decide as Hh.
  { split; [done|]. intros [(_ & Hne & _) _]. done. }
  assert (last (raw :: rs) = Some (default raw (last rs))) as Hlast.
  { clear. revert raw. induction rs as [|b rs IH]; intros raw; [done|]. cbn [last] in *. by rewrite IH. }
  assert (default prev (step_hash <$> last (raw :: rs)) = default (step_hash raw) (step_hash <$> last rs)) as Hd.
  { rewrite Hlast. by destruct (last rs). }
  rewrite IH.
  assert (step_hash raw = string_field receipt "hash") as Hraw by (unfold step_hash, receipt_of; by rewrite Hr).
  rewrite Hd, Hraw. split.
  - intros (Hl & Hhead & ->). split_and!; [done|done| |done|..].
    + intros b Hb. apply Hhead; [lia|done].
    + intros Hi b [= <-]. rewrite Hr. by apply Hprev.
    + done.
  - intros ((_ & _ & Hhead & Hl) & _ & ->). split_and!; [done| |done]. intros _. done.
Qed.

(** A batch of step receipts passes the chain check, with head hash [h],
    exactly when every receipt is a JSON object with a non-blank hash, every
    receipt after the first names its predecessor's hash, and [h] is the hash of
    the last receipt (empty for an empty batch). *)
Theorem receipt_chain_exact rs h :
  validateReceiptChainLinks rs = Ok h ↔ linked rs ∧ h = default "" (step_hash <$> last rs).
Proof.
  unfold validateReceiptChainLinks. rewrite chain_links_spec. split; [by intros (? & _ & ?)|].
  intros [? ?]. split_and!; [done|lia|done].
Qed.

Lemma verify_step_receipts_ok key rs :
  verify_step_receipts key rs = Ok tt ↔
  Forall (λ raw, is_Some (unmarshal_object raw) ∧ signed_under (receipt_of raw) key) rs ∧ linked rs.
Proof.
  assert (∀ i raw, verify_step key i raw = Ok tt ↔
            is_Some (unmarshal_object raw) ∧ signed_under (receipt_of raw) key) as Hstep.
  { intros i raw. unfold verify_step, receipt_of. destruct (unmarshal_object raw) as [receipt|].
    - cbn [default]. rewrite <-receipt_verified_iff. destruct (rv_Verified _); naive_solver.
    - split; [done|]. intros [Hn _]. by destruct Hn. }
  unfold verify_step_receipts, mbind, res_bind.
  destruct (res_forMi _ 0 rs) as [[]|e] eqn:Hf.
  - rewrite res_forMi_ok in Hf.
    assert (Forall (λ raw, is_Some (unmarshal_object raw) ∧ signed_under (receipt_of raw) key) rs).
    { apply Forall_lookup. intros j raw Hj. by apply (Hstep (0 + j)%nat), Hf. }
    destruct (validateReceiptChainLinks rs) as [h|e] eqn:Hv.
    + apply chain_links_spec in Hv as (Hl & _). by split.
    + split; [done|]. intros [_ Hl]. unfold validateReceiptChainLinks in Hv.
      rewrite (proj2 (chain_links_spec 0 "" rs (default "" (step_hash <$> last rs)))) in Hv; [done|]. split_and!; [done|lia|reflexivity].
  - split; [done|]. intros [Hall _]. rewrite (proj2 (res_forMi_ok _ _ _)) in Hf; [done|].
    intros j raw Hj. apply Hstep. by eapply (proj1 (Forall_lookup _ _) Hall).
Qed.

(** The hashed fields of two receipts agree, invalid UTF-8 replaced. *)
Definition same_fields (receipt receipt' : option jv) : Prop :=
  ∀ k, k ∈ required_fields ++ optional_fields →
    sanitize_utf8 (receiptFieldString receipt k) = sanitize_utf8 (receiptFieldString receipt' k).

Lemma lookup_fields receipt (l : list string) k : NoDup l →
  (list_to_map ((λ k, (k, receiptFieldString receipt k)) <$> l) : gmap string string) !! k =
  if decide (k ∈ l) then Some (receiptFieldString receipt k) else None.
Proof.
  intros Hl. assert (((λ k, (k, receiptFieldString receipt k)) <$> l).*1 = l) as Hfst.
  { rewrite <-list_fmap_compose. apply list_fmap_id. }
  case_decide as Hk.
  - apply elem_of_list_to_map_1; [by rewrite Hfst|]. apply list_elem_of_fmap. eauto.
  - apply not_elem_of_list_to_map_1. by rewrite Hfst.
Qed.

Lemma filter_fields receipt (l : list string) :
  filter (λ kv, kv.2 ≠ "") ((λ k, (k, receiptFieldString receipt k)) <$> l) =
  (λ k, (k, receiptFieldString receipt k)) <$> filter (λ k, receiptFieldString receipt k ≠ "") l.
Proof.
  induction l as [|k l IH]; [done|]. rewrite fmap_cons, !filter_cons. cbn [snd].
  case_decide; [|done]. by rewrite fmap_cons, IH.
Qed.

Lemma canonical_map_lookup receipt k :
  canonical_map receipt !! k =
  if decide (k ∈ required_fields) then Some (receiptFieldString receipt k)
  else if decide (k ∈ optional_fields ∧ receiptFieldString receipt k ≠ "")
  then Some (receiptFieldString receipt k) else None.
Proof.
  unfold canonical_map. rewrite list_to_map_app, lookup_union, filter_fields.
  rewrite !lookup_fields; [|apply NoDup_filter|]; [|by apply (bool_decide_unpack _)..].
  destruct (decide (k ∈ required_fields)); [by case_decide|].
  case_decide as H1; case_decide as H2; try done; rewrite list_elem_of_filter in H1; tauto.
Qed.

Lemma canonical_bytes_inj receipt receipt' :
  canonicalReceiptBytes receipt = canonicalReceiptBytes receipt' → same_fields receipt receipt'.
Proof.
  unfold canonicalReceiptBytes. intros Heq. apply map_text_inj in Heq.
  - intros k Hk. apply (f_equal (.!! k)) in Heq. rewrite !lookup_fmap, !canonical_map_lookup in Heq.
    apply elem_of_app in Hk as [Hk|Hk].
    + rewrite !decide_True in Heq by done. by injection Heq.
    + assert (k ∉ required_fields) as Hn.
      { clear Heq. revert k Hk. apply Forall_forall. by apply (bool_decide_unpack _). }
      rewrite !(decide_False (P := k ∈ required_fields)) in Heq by done.
      destruct (decide (receiptFieldString receipt k = "")) as [E|E],
        (decide (receiptFieldString receipt' k = "")) as [E'|E'].
      * by rewrite E, E'.
      * rewrite decide_False, decide_True in Heq by tauto. done.
      * rewrite decide_True, decide_False in Heq by tauto. done.
      * rewrite !decide_True in Heq by tauto. by injection Heq.
  - intros k Hk. assert (k ∈ required_fields ++ optional_fields) as Hin.
    { rewrite !canonical_map_lookup in Hk. apply elem_of_app. repeat case_decide; try tauto.
      by destruct Hk as [[]|[]]. }
    clear Hk. revert k Hin. apply Forall_forall. by apply (bool_decide_unpack _).
Qed.

Lemma hashed_prev raw a : step_prev raw = a → a ≠ "" → receiptFieldString (receipt_of raw) "previous_hash" = a.
Proof.
  unfold step_prev, string_field, receiptFieldString, as_string.
  destruct (any_get _ _) as [v|]; [destruct v|]; cbn; by intros <-.
Qed.

(** C31: The hash of the last receipt commits to the whole chain: two accepted
    batches of the same length whose last receipts carry the same hash agree on
    every hashed field of every receipt, from the last back to the first
    (SHA-256 having no collision between the canonical forms involved). *)
Theorem chain_head_commits key key' rs rs' :
  verify_step_receipts key rs = Ok tt → verify_step_receipts key' rs' = Ok tt →
  length rs = length rs' → step_hash <$> last rs = step_hash <$> last rs' →
  (∀ a b, a ∈ rs → b ∈ rs' → sha256 (canonicalReceiptBytes (receipt_of a)) = sha256 (canonicalReceiptBytes (receipt_of b)) →
          canonicalReceiptBytes (receipt_of a) = canonicalReceiptBytes (receipt_of b)) →
  Forall2 (λ a b, same_fields (receipt_of a) (receipt_of b)) rs rs'.
Proof.
  intros [Hok Hl]%verify_step_receipts_ok [Hok' Hl']%verify_step_receipts_ok Hlen Hlast Hinj.
  rewrite Forall_lookup in Hok. rewrite Forall_lookup in Hok'.
  assert (∀ i a b, rs !! i = Some a → rs' !! i = Some b → step_hash a = step_hash b →
            same_fields (receipt_of a) (receipt_of b)) as Hsame.
  { intros i a b Ha Hb Hh. destruct (Hok i a Ha) as [_ (k1 & s1 & _ & H1 & _)].
    destruct (Hok' i b Hb) as [_ (k2 & s2 & _ & H2 & _)]. apply canonical_bytes_inj, Hinj.
    - by eapply list_elem_of_lookup_2.
    - by eapply list_elem_of_lookup_2.
    - unfold step_hash in Hh. rewrite H1, H2 in Hh. unfold ComputeCanonicalReceiptHash, sha256_hex in Hh.
      apply (f_equal hex_decode) in Hh. rewrite !hex_decode_encode in Hh. by injection Hh. }
  assert (∀ d i a b, (i + d + 1)%nat = length rs → rs !! i = Some a → rs' !! i = Some b → step_hash a = step_hash b)
    as Hback.
  { induction d as [|d IH]; intros i a b Hi Ha Hb.
    - rewrite !last_lookup, <-Hlen in Hlast. replace (pred (length rs)) with i in Hlast by lia.
      rewrite Ha, Hb in Hlast. by injection Hlast.
    - destruct (lookup_lt_is_Some_2 rs (S i)) as [a' Ha']; [lia|].
      destruct (lookup_lt_is_Some_2 rs' (S i)) as [b' Hb']; [lia|].
      pose proof (Hsame _ _ _ Ha' Hb' (IH (S i) a' b' ltac:(lia) Ha' Hb') "previous_hash") as Hp.
      destruct (Hok i a Ha) as [_ (k1 & s1 & _ & H1 & Hn1 & _)].
      destruct (Hok' i b Hb) as [_ (k2 & s2 & _ & H2 & Hn2 & _)].
      rewrite (hashed_prev a' (step_hash a)), (hashed_prev b' (step_hash b)) in Hp;
        [|by apply (proj2 Hl' i)|done|by apply (proj2 Hl i)|done].
      unfold step_hash in *. rewrite H1, H2 in *. unfold ComputeCanonicalReceiptHash, sha256_hex in *.
      rewrite !sanitize_graphic in Hp by apply graphic_hex_encode. apply Hp. by apply (bool_decide_unpack _). }
  apply Forall2_same_length_lookup_2; [done|]. intros i a b Ha Hb. eapply Hsame; [done..|].
  apply lookup_lt_Some in Ha as Hi. by apply (Hback (length rs - i - 1)%nat i); [lia|..].
Qed.

(** Counters beyond 2^53 are not told apart: a receipt that reports
    9007199254740993 has the canonical form of one that reports
    9007199254740992, so the hash a runtime computes over the exact integer is
    not the one recomputed here; up to 2^53 a counter is hashed as written. *)
Theorem receipt_counter_precision k l z :
  canonicalReceiptBytes (Some (JObj (l ++ [(k, ("", JNum "9007199254740993"))]))) =
  canonicalReceiptBytes (Some (JObj (l ++ [(k, ("", JNum "9007199254740992"))]))) ∧
  (0 ≤ z ≤ 2 ^ 53 → receiptFieldString (Some (JObj (l ++ [(k, ("", JNum (itoa z)))]))) k = itoa z).
Proof.
  split.
  - assert (∀ j, receiptFieldString (Some (JObj (l ++ [(k, ("", JNum "9007199254740993"))]))) j =
                 receiptFieldString (Some (JObj (l ++ [(k, ("", JNum "9007199254740992"))]))) j) as Hj.
    { intros j. unfold receiptFieldString, any_get. rewrite !obj_lookup_snoc. cbn [fst snd].
      by case_decide. }
    unfold canonicalReceiptBytes, canonical_map. cbn [required_fields optional_fields fmap list_fmap]. by rewrite !Hj.
  - intros Hz. unfold receiptFieldString, any_get. rewrite obj_lookup_snoc. cbn [fst snd].
    rewrite decide_True by done. by apply receipt_float_integer.
Qed.
End Facts.

(** ** A two-step chain *)

Module ReceiptExample.

Definition key : string := "kkkkkkkkkkkkkkkkkkkkkkkkkkkkkkkk".
Definition step (execution previous : string) : list (string * jnode) :=
  [("execution_id", ("", JStr execution)); ("previous_hash", ("", JStr previous));
   ("cpu_time_ms", ("", JNum "12")); ("violation_occurred", ("", JBool false))].

Lemma signed_receipt_verifies_witness :
  slen (@ed25519_Public demo_ext key) = PublicKeySize ∧
  rv_Verified (@VerifyReceiptCryptographic demo_ext (Some (JObj (@sealed demo_ext key (step "e-1" ""))))
    (hex_encode key)) = true.
Proof.
  split; [reflexivity|].
  apply (@signed_receipt_verifies demo_ext (demo_ext_laws _) key (step "e-1" "")); [reflexivity|]. done.
Defined.

(** A digest without collisions. *)
Definition ext : Ext := {|
  uuid_String := @uuid_String demo_ext; uuid_Parse := @uuid_Parse demo_ext;
  unicode_IsPrint := @unicode_IsPrint demo_ext; map_first_key := @map_first_key demo_ext;
  sha256 s := s; ed25519_Sign := @ed25519_Sign demo_ext; ed25519_Public := @ed25519_Public demo_ext;
  ed25519_Verify := @ed25519_Verify demo_ext; url_Parse := @url_Parse demo_ext;
  url_String := @url_String demo_ext; url_EscapedPath := @url_EscapedPath demo_ext;
  url_Hostname := @url_Hostname demo_ext; getenv := @getenv demo_ext; jsonb_text := @jsonb_text demo_ext;
|}.

Definition raw (fields : list (string * jnode)) : string := @any_text ext (JObj (@sealed ext key fields)).
Definition first : string := Eval vm_compute in raw (step "e-1" "").
Definition second : string := Eval vm_compute in raw (step "e-2" (@step_hash first)).
Definition batch : list string := [first; second].
(** The same receipts, one of them spaced differently. *)
Definition respaced : list string := [" " +:+ first +:+ " "; second].

Lemma chain_head_commits_witness :
  @verify_step_receipts ext (hex_encode key) batch = Ok tt ∧
  Forall2 (λ a b, @same_fields (receipt_of a) (receipt_of b)) batch respaced.
Proof.
  split; [vm_compute; reflexivity|].
  apply (@chain_head_commits ext (hex_encode key) (hex_encode key) batch respaced);
    [vm_compute; reflexivity..|by intros a b _ _].
Defined.
End ReceiptExample.
