(* ===== verification/RuntimeClient.v ===== *)
(** * The runtime client

    internal/runtime_client.go: [RuntimeClient], which sends inference requests,
    cancellations, command revocations and health checks to one runtime.  The
    HTTP client, its timeout included, is an argument; identifiers and clock
    readings are arguments of the operations that draw them. *)

From S2P Require Import Prelude GoStrings Json Float64 Models Ext WalCodec Types Capability TaskDef.
From S2P Require Import Receipts.
Open Scope Z_scope.

Record RuntimeClient := mkRuntimeClient {
  rc_baseURL : string;
  rc_secret : string;
  rc_publicKey : string;  (* empty: none *)
  rc_signingKey : string; (* empty: none *)
}.

(** ** Payloads *)

Record executeMessage := mkExecuteMessage { em_Role : string; em_Content : string }.

Record executeBounds := mkBounds {
  xb_CpuPercent : option Z;
  xb_MemoryMb : option Z;
  xb_MaxTickMs : option Z;
}.

Record taskTypeRequest := mkTaskType {
  tt_Type : string;
  tt_Model : string;
  tt_Messages : list executeMessage;
  tt_MaxTokens : option Z;
  tt_Temperature : option (option f64); (* a [*float32]; [Some None] is an infinity *)
  tt_Stream : bool;
  tt_Mode : string;
}.

Record taskSubmitRequest := mkTaskSubmit {
  ts_TaskID : string;
  ts_TaskType : taskTypeRequest;
  ts_Containment : option executeBounds;
  ts_IdempotencyKey : string;
  ts_TenantID : string;
  ts_DeadlineMs : option Z;
}.

Definition buildExecuteMessages (messages : list Message) : list executeMessage :=
  (λ m, mkExecuteMessage (ms_Role m) (GetTextContent m)) <$> messages.

(** [uint32(maxTokens)] keeps the low 32 bits. *)
Definition buildOptionalMaxTokens (maxTokens : Z) : option Z :=
  if maxTokens <=? 0 then None else Some (maxTokens mod 2 ^ 32).

Definition buildOptionalTemperature (temperature : f64) : option (option f64) :=
  if f_man temperature =? 0 then None else Some (float32_of temperature).

Definition executeBounds_fields : list (string * dec executeBounds) :=
  [("cpu_percent", field xb_CpuPercent (λ x '(mkBounds _ b c), mkBounds x b c) (dec_ptr 0 (dec_uint 8)));
   ("memory_mb", field xb_MemoryMb (λ x '(mkBounds a _ c), mkBounds a x c) (dec_ptr 0 (dec_uint 32)));
   ("max_tick_ms", field xb_MaxTickMs (λ x '(mkBounds a b _), mkBounds a b x) (dec_ptr 0 (dec_uint 64)))].

Definition parseBoundsHeader (boundsHeader : string) : res (option executeBounds) :=
  if bool_decide (boundsHeader = "") then Ok None
  else
    let '(bounds, ok) := unmarshal (dec_struct executeBounds_fields) boundsHeader (mkBounds None None None) in
    if ok then Ok (Some bounds)
    else Err (Wrapf "runtime_client: parse bounds header: " (Errorf "json: cannot unmarshal") "").

Definition opt_num (name : string) (n : option Z) : list (string * string) := opt_member name (num_text <$> n).

Definition executeBounds_text (b : executeBounds) : string :=
  obj_text (opt_num "cpu_percent" (xb_CpuPercent b) ++ opt_num "memory_mb" (xb_MemoryMb b)
            ++ opt_num "max_tick_ms" (xb_MaxTickMs b)).

Definition executeMessage_text (m : executeMessage) : string :=
  obj_text [("role", str_text (em_Role m)); ("content", str_text (em_Content m))].

(** [json.Marshal]: an infinite temperature has no text. *)
Definition taskType_text (t : taskTypeRequest) : option string :=
  let rest (temperature : list (string * string)) :=
    obj_text ([("type", str_text (tt_Type t))] ++ omit_empty "model" (tt_Model t)
      ++ (if bool_decide (length (tt_Messages t) = 0%nat) then []
          else [("messages", arr_text (executeMessage_text <$> tt_Messages t))])
      ++ opt_num "max_tokens" (tt_MaxTokens t) ++ temperature
      ++ (if tt_Stream t then [("stream", bool_text true)] else [])
      ++ omit_empty "mode" (tt_Mode t)) in
  match tt_Temperature t with
  | None => Some (rest [])
  | Some None => None
  | Some (Some x) => Some (rest [("temperature", json_float32 x)])
  end.

Definition taskSubmit_text (p : taskSubmitRequest) : option string :=
  (λ task_type, obj_text ([("task_id", str_text (ts_TaskID p)); ("task_type", task_type)]
     ++ opt_member "containment" (executeBounds_text <$> ts_Containment p)
     ++ [("idempotency_key", str_text (ts_IdempotencyKey p)); ("tenant_id", str_text (ts_TenantID p))]
     ++ opt_num "deadline_ms" (ts_DeadlineMs p))) <$> taskType_text (ts_TaskType p).

Definition key_text (tenantID : string) (taskType : taskTypeRequest) (containment : option executeBounds)
    (deadlineMs : option Z) : option string :=
  (λ task_type, obj_text ([("tenant_id", str_text tenantID); ("task_type", task_type)]
     ++ opt_member "containment" (executeBounds_text <$> containment) ++ opt_num "deadline_ms" deadlineMs))
    <$> taskType_text taskType.

(** ** Replies *)

(** [map[string]interface{}]: a repeated member is decoded into the same map. *)
Definition dec_object : dec (option jv) := λ n old,
  match n.2 with
  | JObj l => (Some (JObj (match old with Some (JObj o) => o | _ => [] end ++ l)), numbers_fit (JObj l))
  | JNull => (None, true)
  | _ => (old, false)
  end.

Record taskSubmitStatus := mkTaskStatus {
  tk_Value : string;
  tk_Reason : string;
  tk_ResumeToken : option jv;
}.
Definition TaskStatus_zero : taskSubmitStatus := mkTaskStatus "" "" None.

Definition taskSubmitStatus_fields : list (string * dec taskSubmitStatus) :=
  [("status", field tk_Value (λ x '(mkTaskStatus _ b c), mkTaskStatus x b c) dec_string);
   ("reason", field tk_Reason (λ x '(mkTaskStatus a _ c), mkTaskStatus a x c) dec_string);
   ("resume_token", field tk_ResumeToken (λ x '(mkTaskStatus a b _), mkTaskStatus a b x) dec_object)].

(** [UnmarshalJSON]. *)
Definition dec_task_status : dec taskSubmitStatus := λ n old,
  match n.2 with
  | JNull => (TaskStatus_zero, true)
  | JStr legacy => (mkTaskStatus legacy "" None, true)
  | _ => let '(s, ok) := dec_struct taskSubmitStatus_fields n TaskStatus_zero in
         if ok then (s, true) else (old, false)
  end.

(** [strings.EqualFold]; the letters of "completed" have no other foldings. *)
Definition IsCompleted (s : taskSubmitStatus) : bool := bool_decide (fold_name (tk_Value s) = fold_name "completed").

Definition TaskStatus_String (s : taskSubmitStatus) : string :=
  if bool_decide (tk_Value s = "") then "unknown" else tk_Value s.

Record executeUsage := mkExecuteUsage {
  eu_PromptTokens : Z;
  eu_CompletionTokens : Z;
  eu_TotalTokens : Z;
}.
Definition executeUsage_fields : list (string * dec executeUsage) :=
  [("prompt_tokens", field eu_PromptTokens (λ x '(mkExecuteUsage _ b c), mkExecuteUsage x b c) (dec_int 64));
   ("completion_tokens", field eu_CompletionTokens (λ x '(mkExecuteUsage a _ c), mkExecuteUsage a x c) (dec_int 64));
   ("total_tokens", field eu_TotalTokens (λ x '(mkExecuteUsage a b _), mkExecuteUsage a b x) (dec_int 64))].

Record taskSubmitResponse := mkTaskResponse {
  tr_TaskID : string;
  tr_StepsCompleted : Z;
  tr_StepsTotal : Z;
  tr_Status : taskSubmitStatus;
  tr_Checkpoint : option jv;
  tr_Reason : string;
  tr_FinalOutput : string;
  tr_Usage : option executeUsage;
  tr_FailureDetails : option jv;
  tr_ExecutionEnvelope : option jv;
  tr_ExecutionReceipt : option jv;
}.
#[local] Instance set_tr_TaskID : Setter tr_TaskID := _.
#[local] Instance set_tr_StepsCompleted : Setter tr_StepsCompleted := _.
#[local] Instance set_tr_StepsTotal : Setter tr_StepsTotal := _.
#[local] Instance set_tr_Status : Setter tr_Status := _.
#[local] Instance set_tr_Checkpoint : Setter tr_Checkpoint := _.
#[local] Instance set_tr_Reason : Setter tr_Reason := _.
#[local] Instance set_tr_FinalOutput : Setter tr_FinalOutput := _.
#[local] Instance set_tr_Usage : Setter tr_Usage := _.
#[local] Instance set_tr_FailureDetails : Setter tr_FailureDetails := _.
#[local] Instance set_tr_ExecutionEnvelope : Setter tr_ExecutionEnvelope := _.
#[local] Instance set_tr_ExecutionReceipt : Setter tr_ExecutionReceipt := _.
Definition TaskResponse_zero : taskSubmitResponse :=
  mkTaskResponse "" 0 0 TaskStatus_zero None "" "" None None None None.

Definition taskSubmitResponse_fields : list (string * dec taskSubmitResponse) :=
  [("task_id", field tr_TaskID (λ x r, r {{ tr_TaskID := x }}) dec_string);
   ("steps_completed", field tr_StepsCompleted (λ x r, r {{ tr_StepsCompleted := x }}) (dec_uint 32));
   ("steps_total", field tr_StepsTotal (λ x r, r {{ tr_StepsTotal := x }}) (dec_uint 32));
   ("status", field tr_Status (λ x r, r {{ tr_Status := x }}) dec_task_status);
   ("checkpoint", field tr_Checkpoint (λ x r, r {{ tr_Checkpoint := x }}) dec_object);
   ("reason", field tr_Reason (λ x r, r {{ tr_Reason := x }}) dec_string);
   ("final_output", field tr_FinalOutput (λ x r, r {{ tr_FinalOutput := x }}) dec_string);
   ("usage", field tr_Usage (λ x r, r {{ tr_Usage := x }})
               (dec_ptr (mkExecuteUsage 0 0 0) (dec_struct executeUsage_fields)));
   ("failure_details", field tr_FailureDetails (λ x r, r {{ tr_FailureDetails := x }}) dec_object);
   ("execution_envelope", field tr_ExecutionEnvelope (λ x r, r {{ tr_ExecutionEnvelope := x }}) dec_object);
   ("execution_receipt", field tr_ExecutionReceipt (λ x r, r {{ tr_ExecutionReceipt := x }}) dec_object)].

Definition decode_task_response (body : string) : option taskSubmitResponse :=
  let '(r, ok) := unmarshal (dec_struct taskSubmitResponse_fields) body TaskResponse_zero in
  if ok then Some r else None.

Definition hasSignature (record : option jv) : bool :=
  match as_string (any_get record "signature") with Some sig => nonempty sig | None => false end.

Definition extractProvider (taskResp : taskSubmitResponse) : string :=
  let envelope := tr_ExecutionEnvelope taskResp in
  if nonempty (member_string envelope "provider") then member_string envelope "provider"
  else if nonempty (member_string envelope "routing_decision") then member_string envelope "routing_decision"
  else "runtime".

Definition buildRuntimeTaskErrorPayload (body : string) : option jv :=
  if bool_decide (TrimSpace body = "") then None else default None (unmarshal_object body).

Definition buildRuntimeTaskReason (taskResp : taskSubmitResponse) : string :=
  if nonempty (tk_Reason (tr_Status taskResp)) then tk_Reason (tr_Status taskResp)
  else if nonempty (tr_Reason taskResp) then tr_Reason taskResp
  else if nonempty (member_string (tr_FailureDetails taskResp) "message")
  then member_string (tr_FailureDetails taskResp) "message"
  else "runtime task ended with status " +:+ TaskStatus_String (tr_Status taskResp).

(** ** Operations *)

(** What a call fails with: an error value, or one of the typed errors. *)
Inductive client_error :=
| Plain (e : goerror)
| TaskFailed (e : RuntimeTaskError)
| StreamFailed (e : RuntimeStreamError).

Definition client_error_text (e : client_error) : string :=
  match e with
  | Plain e => error_text e
  | TaskFailed e => TaskError_Error e
  | StreamFailed e => StreamError_Error e
  end.

(** [errors.Is(err, models.ErrRuntimeSecurity)]. *)
Definition is_security (e : client_error) : bool :=
  match e with Plain e => errors_is e ErrRuntimeSecurity | _ => false end.

Inductive reply (A : Type) := Done (a : A) | Fails (e : client_error).
Arguments Done {A}.
Arguments Fails {A}.

(** [fmt.Errorf("%w: ...", models.ErrRuntimeSecurity)]. *)
Definition security (detail : string) : client_error := Plain (Wrapf "" ErrRuntimeSecurity (": " +:+ detail)).
Definition client_failed (what : string) (cause : string) : client_error :=
  Plain (Wrapf ("runtime_client: " +:+ what +:+ ": ") (Errorf cause) "").

Section RuntimeClient.
Context `{Ext}.
Context (http : string → transport). (* by method *)

Definition NewRuntimeClient (baseURL : string) : RuntimeClient :=
  let hexKey := EnvOrLegacy "OVERTURE_SIGNING_KEY" "IGRIS_OVERTURE_SIGNING_KEY" in
  let signingKey :=
    if nonempty hexKey then
      match hex_decode (TrimSpace hexKey) with
      | Some decoded => if bool_decide (slen decoded = PrivateKeySize) then decoded else ""
      | None => ""
      end
    else "" in
  mkRuntimeClient baseURL (EnvOrLegacy "OVERTURE_RUNTIME_SECRET" "IGRIS_RUNTIME_SECRET") env_public_key signingKey.

Definition setAuthHeader (c : RuntimeClient) : list (string * string) :=
  if nonempty (rc_secret c) then [("Authorization", "Bearer " +:+ rc_secret c)] else [].

Definition setDecisionSigHeaderWithKey (body signingKey : string) : list (string * string) :=
  [("X-Igris-Decision-Sig", b64_encode (ed25519_Sign signingKey (sha256 body)))].

Definition setDecisionSigHeader (c : RuntimeClient) (body : string) : list (string * string) :=
  if bool_decide (rc_signingKey c = "") then [] else setDecisionSigHeaderWithKey body (rc_signingKey c).

Definition computeIdempotencyKey (tenantID : string) (taskType : taskTypeRequest) (containment : option executeBounds)
    (deadlineMs : option Z) : string :=
  sha256_hex (default "" (key_text tenantID taskType containment deadlineMs)).

Definition deadline_of (bounds : option executeBounds) (req : InferRequest) : option Z :=
  match bounds ≫= xb_MaxTickMs with
  | Some value => Some value
  | None =>
    match ir_Policy req with
    | Some p => if 0 <? po_TimeoutMs p then Some (po_TimeoutMs p) else None
    | None => None
    end
  end.

Definition mode_of (req : InferRequest) : string := if ir_CouncilMode req then "council" else ir_SpeculativeMode req.

Definition task_type_of (req : InferRequest) (stream : bool) : taskTypeRequest :=
  mkTaskType "single_inference" (ir_Model req) (buildExecuteMessages (ir_Messages req))
    (buildOptionalMaxTokens (ir_MaxTokens req)) (buildOptionalTemperature (ir_Temperature req)) stream (mode_of req).

Definition submit_request (taskID tenantID : string) (req : InferRequest) (bounds : option executeBounds)
    (stream : bool) : taskSubmitRequest :=
  let deadlineMs := deadline_of bounds req in
  let taskType := task_type_of req stream in
  mkTaskSubmit taskID taskType bounds (computeIdempotencyKey tenantID taskType bounds deadlineMs) tenantID deadlineMs.

(** [http.NewRequestWithContext] and [Do]: the request is built when its URL
    parses. *)
Definition call (method url : string) (headers : list (string * string)) (body : string)
    : option (option (Z * string)) :=
  match url_Parse url with
  | None => None
  | Some _ => Some (http method (mkRequest url headers body))
  end.

Definition submit_headers (c : RuntimeClient) (tenantID body : string) : list (string * string) :=
  [("Content-Type", "application/json")] ++ setAuthHeader c ++ setDecisionSigHeader c body
  ++ (if nonempty tenantID then [("X-Igris-Tenant", tenantID)] else []).

(** The checks on a decoded reply before it is accepted. *)
Definition accept_artifacts (c : RuntimeClient) (taskResp : taskSubmitResponse) : option client_error :=
  let envelope := tr_ExecutionEnvelope taskResp in
  let receipt := tr_ExecutionReceipt taskResp in
  if negb (hasSignature envelope) then Some (security "task response missing signed execution envelope")
  else match verifyEnvelope (rc_publicKey c) envelope with
  | Err e => Some (security (error_text e))
  | Ok _ =>
    match (if hasSignature receipt then verifyReceipt (rc_publicKey c) receipt else Ok tt) with
    | Err e => Some (security (error_text e))
    | Ok _ =>
      match verifyArtifactRuntimeID envelope receipt with
      | Err e => Some (security (error_text e))
      | Ok _ => None
      end
    end
  end.

Definition build_response (created stamped : time) (req : InferRequest) (taskResp : taskSubmitResponse)
    : InferResponse :=
  let r := (NewInferResponse created (tr_TaskID taskResp) (ir_Model req)) {{ is_Created := unix created }} in
  let r := AddChoice 0 (mkMessage "assistant" (tr_FinalOutput taskResp) []) "stop" r in
  let r := match tr_Usage taskResp with
           | Some u => SetUsage (eu_PromptTokens u) (eu_CompletionTokens u) r
           | None => SetUsage 0 0 r
           end in
  let r := r {{ is_Metadata := Some (ResponseMetadata_zero {{ md_Provider := extractProvider taskResp;
                  md_RouteDecision := "forwarded_to_runtime_task"; md_Timestamp := stamped }});
                is_ExecutionEnvelope := tr_ExecutionEnvelope taskResp }} in
  if hasSignature (tr_ExecutionReceipt taskResp)
  then r {{ is_ExecutionReceipt := tr_ExecutionReceipt taskResp;
            is_Receipt := BuildReceiptReference (tr_ExecutionReceipt taskResp) }}
  else r.

Definition handle_submit (c : RuntimeClient) (created stamped : time) (req : InferRequest) (status : Z) (body : string)
    : reply InferResponse :=
  if (status =? 401) || (status =? 403) then Fails (security ("status " +:+ itoa status))
  else if negb (status =? 200)
  then Fails (Plain (Errorf ("runtime_client: runtime returned status " +:+ itoa status)))
  else match decode_task_response body with
  | None => Fails (client_failed "decode" "json: cannot unmarshal")
  | Some taskResp =>
    if negb (IsCompleted (tr_Status taskResp))
    then Fails (TaskFailed (mkTaskError status (buildRuntimeTaskErrorPayload body) (buildRuntimeTaskReason taskResp)))
    else match accept_artifacts c taskResp with
    | Some e => Fails e
    | None => Done (build_response created stamped req taskResp)
    end
  end.

Definition ForwardExecution (c : RuntimeClient) (taskID : string) (created stamped : time) (tenantID : string)
    (req : InferRequest) (boundsHeader : string) : reply InferResponse :=
  if ir_Stream req
  then Fails (Plain (Errorf "runtime_client: streaming is not supported on the durable task endpoint"))
  else match parseBoundsHeader boundsHeader with
  | Err e => Fails (Plain e)
  | Ok bounds =>
    match taskSubmit_text (submit_request taskID tenantID req bounds (ir_Stream req)) with
    | None => Fails (client_failed "marshal" "json: unsupported value: +Inf")
    | Some data =>
      let url := rc_baseURL c +:+ "/v1/runtime/task/submit" in
      match call "POST" url (submit_headers c tenantID data) data with
      | None => Fails (client_failed "build request" ("parse " +:+ url))
      | Some None => Fails (client_failed "http" "no answer")
      | Some (Some (status, body)) => handle_submit c created stamped req status body
      end
    end
  end.

(** A stream that was opened: its status is 200 and the caller reads its body. *)
Definition OpenStreamingExecution (c : RuntimeClient) (taskID tenantID : string) (req : InferRequest)
    (boundsHeader : string) : reply string :=
  let mode := mode_of req in
  if negb (bool_decide (mode ∈ [""; "latency"; "speculative"; "thompson"; "balanced"; "quality"; "cost"; "council"]))
  then Fails (Plain (Errorf ("runtime_client: streaming runtime relay does not support speculative mode "
                              +:+ strconv_Quote mode)))
  else match parseBoundsHeader boundsHeader with
  | Err e => Fails (Plain e)
  | Ok bounds =>
    match taskSubmit_text (submit_request taskID tenantID req bounds true) with
    | None => Fails (client_failed "marshal streaming request" "json: unsupported value: +Inf")
    | Some data =>
      let url := rc_baseURL c +:+ "/v1/runtime/task/stream" in
      let headers := [("Content-Type", "application/json"); ("Accept", "text/event-stream")] ++ setAuthHeader c
        ++ setDecisionSigHeader c data ++ (if nonempty tenantID then [("X-Igris-Tenant", tenantID)] else []) in
      match call "POST" url headers data with
      | None => Fails (client_failed "build streaming request" ("parse " +:+ url))
      | Some None => Fails (client_failed "streaming http" "no answer")
      | Some (Some (status, body)) =>
        if (status =? 401) || (status =? 403) then Fails (security ("status " +:+ itoa status))
        else if negb (status =? 200)
        then let body := take_str 4096 body in
             Fails (StreamFailed (mkStreamError status (default None (unmarshal_object body)) body))
        else Done body
      end
    end
  end.

Definition Health (c : RuntimeClient) : res () :=
  let url := rc_baseURL c +:+ "/v1/health" in
  match call "GET" url (setAuthHeader c) "" with
  | None => Err (Errorf ("parse " +:+ url))
  | Some None => Err (Wrapf "runtime unreachable: " (Errorf "no answer") "")
  | Some (Some (status, _)) =>
    if status =? 200 then Ok tt else Err (Errorf ("runtime unhealthy: status " +:+ itoa status))
  end.

(** ** Cancellation and revocation *)

Record RuntimeResult := mkRuntimeResult { rr_StatusCode : Z; rr_Payload : option jv }.

Definition Signaled (r : option RuntimeResult) : bool :=
  match r with Some r => rr_StatusCode r =? 202 | None => false end.

Definition ResponsePayload (r : option RuntimeResult) : option jv :=
  (λ r, JObj (match rr_Payload r with Some (JObj l) => l | _ => [] end
              ++ [("status_code", (itoa (rr_StatusCode r), JNum (itoa (rr_StatusCode r))))])) <$> r.

(** The payload of a raw answer: what decoding left, and the answer itself when
    that failed. *)
Definition payload_of (raw : string) : option jv :=
  if bool_decide (TrimSpace raw = "") then Some (JObj [])
  else
    let raw_body := [("raw_body", (str_text raw, JStr raw))] in
    match json_parse raw with
    | Some (_, JObj l) =>
      if numbers_fit (JObj l) then Some (JObj l)
      else Some (JObj ((λ kv, (kv.1, (kv.2.1, drop_unfit kv.2.2))) <$> l ++ raw_body))
    | Some (_, JNull) => None
    | _ => Some (JObj raw_body)
    end.

Definition signal (c : RuntimeClient) (what path tenantID body : string) : res RuntimeResult :=
  let url := rc_baseURL c +:+ path in
  let headers := [("Content-Type", "application/json"); ("X-Igris-Tenant", tenantID)] ++ setAuthHeader c
                 ++ setDecisionSigHeader c body in
  match call "POST" url headers body with
  | None => Err (Errorf ("parse " +:+ url))
  | Some None => Err (Errorf "no answer")
  | Some (Some (status, answer)) =>
    let raw := take_str 4096 answer in
    if (status =? 202) || (status =? 404) || (status =? 409) then Ok (mkRuntimeResult status (payload_of raw))
    else Err (Errorf ("runtime " +:+ what +:+ " failed: status=" +:+ itoa status +:+ " body=" +:+ raw))
  end.

Definition CancelTask (c : RuntimeClient) (taskID : uuid) (tenantID : string) : res RuntimeResult :=
  signal c "cancel" ("/v1/runtime/task/" +:+ uuid_String taskID +:+ "/cancel") tenantID "{}".

Definition RevokeCommands (c : RuntimeClient) (tenantID : string) (deliveryKeys : list string) (revokeOwned : bool)
    (reason : string) : res RuntimeResult :=
  let body := map_text (list_to_map ([("revoke_owned", bool_text revokeOwned)]
    ++ (if bool_decide (length deliveryKeys = 0%nat) then [] else [("delivery_keys", string_list_text deliveryKeys)])
    ++ (if nonempty reason then [("reason", str_text reason)] else []))) in
  signal c "command revoke" "/v1/runtime/commands/revoke" tenantID body.

(** The violation records; a reply without the member decodes to none. *)
Definition GetViolations (c : RuntimeClient) : res (list (option jv)) :=
  let url := rc_baseURL c +:+ "/v1/runtime/violations" in
  match call "GET" url (setAuthHeader c) "" with
  | None => Err (Errorf ("parse " +:+ url))
  | Some None => Err (Errorf "no answer")
  | Some (Some (_, body)) =>
    let '(result, ok) := decode_first (dec_struct
       [("violations", field fst (λ x (p : list (option jv) * Z), (x, p.2)) (dec_list None dec_object));
        ("count", field snd (λ x (p : list (option jv) * Z), (p.1, x)) (dec_int 64))]) body ([], 0) in
    if ok then Ok result.1 else Err (Errorf "json: cannot decode")
  end.
End RuntimeClient.

(** ** What a client accepts *)

Section Facts.
Context `{Ext}.

(** The record's signature, under the key, is over these bytes. *)
Definition signs (publicKey bytes : string) (record : option jv) : Prop :=
  ∃ sig64 sig, any_get record "signature" = Some (JStr sig64) ∧ sig64 ≠ "" ∧
    b64_decode false true sig64 = Some sig ∧ ed25519_Verify publicKey (sha256 bytes) sig = true.

Definition production : Prop := getenv "ENV" = "production" ∨ getenv "OVERTURE_ENV" = "production".

Definition names_runtime (record : option jv) (id : string) : Prop :=
  id ≠ "" ∧ TrimSpace (receiptFieldString record "runtime_id") = id.

(** The artifacts of a reply as a client with this key must have them. *)
Record trusted (publicKey : string) (envelope receipt : option jv) : Prop := {
  trusted_present : ∃ s, any_get envelope "signature" = Some (JStr s) ∧ s ≠ "";
  trusted_envelope : publicKey ≠ "" → signs publicKey (unsigned_text envelope) envelope;
  trusted_keyless : publicKey = "" → ¬ production;
  trusted_receipt : publicKey ≠ "" → hasSignature receipt = true →
    signs publicKey (canonicalReceiptBytes receipt) receipt ∧
    (string_field receipt "hash" = "" ∨ string_field receipt "hash" = ComputeCanonicalReceiptHash receipt);
  trusted_runtime : ∀ a b, names_runtime envelope a → names_runtime receipt b → a = b;
}.

Lemma hasSignature_iff record : hasSignature record = true ↔ ∃ s, any_get record "signature" = Some (JStr s) ∧ s ≠ "".
Proof.
  unfold hasSignature, as_string, nonempty. destruct (any_get record "signature") as [v|];
    [destruct v|]; try (split; [done|intros (? & ? & ?); congruence]).
  rewrite negb_true_iff, bool_decide_eq_false. split; [eauto|]. intros (? & ? & ?). congruence.
Qed.

Lemma record_signature_iff name record sig :
  record_signature name record = Ok sig ↔
  ∃ sig64, any_get record "signature" = Some (JStr sig64) ∧ sig64 ≠ "" ∧ b64_decode false true sig64 = Some sig.
Proof.
  unfold record_signature, as_string. destruct (any_get record "signature") as [v|]; [|split; [done|by intros (? & ? & ?)]].
  destruct v as [| | |s| |]; cbn [default]; try (split; [done|intros (? & ? & ?); congruence]).
  unfold default, id. case_bool_decide as Hs.
  - split; [done|]. intros (? & ? & ? & _). congruence.
  - destruct (b64_decode false true s) as [d|] eqn:Hd.
    + split; [|by intros (? & ? & ? & ?); simplify_eq]. intros [= <-]. eauto.
    + split; [done|]. intros (? & ? & ? & ?). congruence.
Qed.

Lemma verifyEnvelope_iff key envelope :
  verifyEnvelope key envelope = Ok tt ↔
  (key ≠ "" → signs key (unsigned_text envelope) envelope) ∧ (key = "" → ¬ production).
Proof.
  unfold verifyEnvelope, verifySignedJSON, production. case_bool_decide as Hk.
  - repeat case_bool_decide; cbn [orb]; naive_solver.
  - destruct (record_signature _ envelope) as [sig|e] eqn:Hs.
    + apply record_signature_iff in Hs as (s & ? & ? & ?).
      destruct (ed25519_Verify key _ sig) eqn:Hv; split; try done.
      * intros _. split; [|done]. intros _. by exists s, sig.
      * intros [Hsig _]. destruct (Hsig Hk) as (? & ? & ? & ? & ? & ?). simplify_eq. congruence.
    + split; [done|]. intros [Hsig _]. destruct (Hsig Hk) as (s & sig & ? & ? & ? & _).
      assert (record_signature "execution_envelope" envelope = Ok sig) by (apply record_signature_iff; eauto). congruence.
Qed.

Lemma verifyReceipt_iff key receipt :
  verifyReceipt key receipt = Ok tt ↔
  (key ≠ "" → signs key (canonicalReceiptBytes receipt) receipt ∧
     (string_field receipt "hash" = "" ∨ string_field receipt "hash" = ComputeCanonicalReceiptHash receipt)).
Proof.
  unfold verifyReceipt. case_bool_decide as Hk; [by split|].
  destruct (record_signature _ receipt) as [sig|e] eqn:Hs; cycle 1.
  { split; [done|]. intros Hsig. destruct (Hsig Hk) as ((s & sig & ? & ? & ? & _) & _).
    assert (record_signature "execution_receipt" receipt = Ok sig) by (apply record_signature_iff; eauto). congruence. }
  apply record_signature_iff in Hs as (s & ? & ? & ?).
  unfold ComputeCanonicalReceiptHash, sha256_hex, nonempty.
  set (h := string_field receipt "hash"). set (d := hex_encode (sha256 (canonicalReceiptBytes receipt))).
  assert (negb (bool_decide (h = "")) && negb (bool_decide (h = d)) = false ↔ h = "" ∨ h = d) as Hh.
  { repeat case_bool_decide; cbn; naive_solver. }
  destruct (negb (bool_decide (h = "")) && _) eqn:Hb.
  { split; [done|]. intros Hsig. destruct (Hsig Hk) as [_ Hd]. by apply Hh in Hd. }
  destruct (ed25519_Verify key _ sig) eqn:Hv; split; try done.
  - intros _ _. split; [by exists s, sig|by apply Hh].
  - intros Hsig. destruct (Hsig Hk) as [(? & ? & ? & ? & ? & ?) _]. simplify_eq. congruence.
Qed.

Lemma verifyArtifactRuntimeID_iff envelope receipt :
  verifyArtifactRuntimeID envelope receipt = Ok tt ↔
  ∀ a b, names_runtime envelope a → names_runtime receipt b → a = b.
Proof.
  unfold verifyArtifactRuntimeID, names_runtime.
  set (a := TrimSpace (receiptFieldString envelope "runtime_id")).
  set (b := TrimSpace (receiptFieldString receipt "runtime_id")).
  repeat case_bool_decide; cbn [orb]; split; try done; try (intros; naive_solver).
Qed.

Lemma accept_artifacts_iff c resp :
  accept_artifacts c resp = None ↔
  trusted (rc_publicKey c) (tr_ExecutionEnvelope resp) (tr_ExecutionReceipt resp).
Proof.
  unfold accept_artifacts. set (env := tr_ExecutionEnvelope resp). set (rec := tr_ExecutionReceipt resp).
  destruct (hasSignature env) eqn:Hsig; cbn [negb].
  2:{ split; [done|]. intros Ht. destruct Ht as [Hp]. apply hasSignature_iff in Hp. congruence. }
  apply hasSignature_iff in Hsig.
  assert ((if hasSignature rec then verifyReceipt (rc_publicKey c) rec else Ok tt) = Ok tt ↔
          (hasSignature rec = true → verifyReceipt (rc_publicKey c) rec = Ok tt)) as Hrec by (destruct (hasSignature rec); naive_solver).
  rewrite verifyReceipt_iff in Hrec. pose proof (verifyEnvelope_iff (rc_publicKey c) env) as Henv.
  pose proof (verifyArtifactRuntimeID_iff env rec) as Hid.
  destruct (verifyEnvelope _ env) as [[]|] eqn:?; [|split; [done|]; intros []; exfalso; naive_solver].
  destruct (if hasSignature rec then _ else _) as [[]|]; [|split; [done|]; intros []; exfalso; naive_solver].
  destruct (verifyArtifactRuntimeID env rec) as [[]|]; [|split; [done|]; intros []; exfalso; naive_solver].
  split; [|done]. intros _. split; naive_solver.
Qed.

(** C38: an inference is accepted exactly when the runtime answered the one
    request sent to it with status 200 and a completed task whose artifacts can
    be trusted: a signed envelope, verified under the client's key over its
    unsigned text, a receipt that is unsigned or verified with its hash, and
    agreeing runtime identities; a client without a key accepts nothing in
    production.  The response is then the one built from that answer. *)
Theorem inference_accepted_exactly http c taskID created stamped tenantID req boundsHeader r :
  ForwardExecution http c taskID created stamped tenantID req boundsHeader = Done r ↔
  ∃ bounds data body resp,
    ir_Stream req = false ∧ parseBoundsHeader boundsHeader = Ok bounds ∧
    taskSubmit_text (submit_request taskID tenantID req bounds false) = Some data ∧
    let url := rc_baseURL c +:+ "/v1/runtime/task/submit" in
    url_Parse url ≠ None ∧ http "POST" (mkRequest url (submit_headers c tenantID data) data) = Some (200, body) ∧
    decode_task_response body = Some resp ∧ IsCompleted (tr_Status resp) = true ∧
    trusted (rc_publicKey c) (tr_ExecutionEnvelope resp) (tr_ExecutionReceipt resp) ∧
    r = build_response created stamped req resp.
Proof.
  unfold ForwardExecution, call, handle_submit. split.
  - destruct (ir_Stream req); [done|]. destruct (parseBoundsHeader boundsHeader) as [bounds|]; [|done].
    destruct (taskSubmit_text _) as [data|] eqn:Ht; [|done]. destruct (url_Parse _) eqn:Hu; [|done].
    destruct (http _ _) as [[status body]|] eqn:Hh; [|done]. destruct (_ || _); [done|].
    destruct (Z.eqb_spec status 200) as [->|]; [|done]. cbn [negb].
    destruct (decode_task_response body) as [resp|] eqn:Hd; [|done].
    destruct (IsCompleted _) eqn:Hc; [|done]. cbn [negb].
    destruct (accept_artifacts c resp) eqn:Ha; [done|]. apply accept_artifacts_iff in Ha.
    intros [= <-]. exists bounds, data, body, resp. split_and!; try done.
  - intros (bounds & data & body & resp & -> & -> & -> & Hu & -> & Hd & Hc & Ht & ->).
    destruct (url_Parse _); [|done]. rewrite Hd. cbn [Z.eqb Pos.eqb orb negb]. rewrite Hc. cbn [negb].
    apply accept_artifacts_iff in Ht. by rewrite Ht.
Qed.
End Facts.
