(* ===== verification/RuntimeSelector.v ===== *)
(** * Choosing a runtime for an inference

    internal/runtime_repository.go and internal/runtime_selector.go.  The
    repository is an interface in the code, and here a class of operations with
    the laws its users rely on; the selector is proved against the interface and
    the database-backed repository is an instance of it.

    The selector's world counts its observations of the outside: the [n]th one
    has a clock reading, a fresh identifier and an HTTP client.  The requests it
    sends are logged, the newest first. *)

From S2P Require Import Prelude GoStrings Json Float64 Models CircuitBreaker Ext Checkpoint Types.
From S2P Require Import Receipts.
From S2P Require Import RuntimeClient.
Open Scope Z_scope.

Record RuntimeInstance := mkInstance {
  in_RuntimeID : string;
  in_Endpoint : string;
  in_PublicKey : string;
  in_Capabilities : list string;
  in_Platform : string;
  in_Version : string;
  in_IsEdge : bool;
  in_IsHealthy : bool;
  in_LastSeenAt : time;
}.

Class RuntimeRepositoryI (R : Type) := {
  ListHealthy : ST R (res (list RuntimeInstance));
  ListAll : ST R (res (list RuntimeInstance));
  UpdateHealth : string → bool → ST R (res ());
}.

(** Edge instances come before the others. *)
Definition edge_first (l : list RuntimeInstance) : Prop :=
  StronglySorted (λ a b, in_IsEdge b = true → in_IsEdge a = true) l.

(** What the selector may assume of a repository: [health] is the stored health
    of each registered runtime. *)
Class RepositoryLaws (R : Type) `{RuntimeRepositoryI R} := {
  health : R → gmap string bool;
  listed_healthy r : health (ListHealthy r).2 = health r ∧
    ∀ l, (ListHealthy r).1 = Ok l →
      edge_first l ∧ NoDup (in_RuntimeID <$> l) ∧ ∀ i, i ∈ l → health r !! in_RuntimeID i = Some true;
  listed_all r : health (ListAll r).2 = health r ∧
    ∀ l, (ListAll r).1 = Ok l →
      NoDup (in_RuntimeID <$> l) ∧ ∀ id, is_Some (health r !! id) ↔ id ∈ in_RuntimeID <$> l;
  updated_health id b r :
    let changed := alter (λ _, b) id (health r) in
    match (UpdateHealth id b r).1 with
    | Ok _ => health (UpdateHealth id b r).2 = changed
    | Err _ => health (UpdateHealth id b r).2 = health r ∨ health (UpdateHealth id b r).2 = changed
    end;
}.

(** ** The repository in the database *)

Record instance_row := mkInstanceRow {
  ix_endpoint : string;
  ix_public_key_ed25519 : string;
  ix_capabilities : string; (* JSONB *)
  ix_platform : option string;
  ix_version : option string;
  ix_is_edge : bool;
  ix_is_healthy : bool;
  ix_last_seen_at : time;
  ix_registered_at : time;
}.
#[export] Instance set_ix_endpoint : Setter ix_endpoint := _.
#[export] Instance set_ix_public_key_ed25519 : Setter ix_public_key_ed25519 := _.
#[export] Instance set_ix_capabilities : Setter ix_capabilities := _.
#[export] Instance set_ix_platform : Setter ix_platform := _.
#[export] Instance set_ix_version : Setter ix_version := _.
#[export] Instance set_ix_is_edge : Setter ix_is_edge := _.
#[export] Instance set_ix_is_healthy : Setter ix_is_healthy := _.
#[export] Instance set_ix_last_seen_at : Setter ix_last_seen_at := _.

(** The table by its unique key, the runtime_id, the outcome of each coming statement (whether
    it fails, and whether it took effect), and the clock. *)
Record RuntimeRepository := mkRepository {
  rp_rows : gmap string instance_row;
  rp_outcomes : list (bool * bool);
  rp_now : time;
}.
#[export] Instance set_rp_rows : Setter rp_rows := _.
#[export] Instance set_rp_outcomes : Setter rp_outcomes := _.

Definition repository_error (what : string) : goerror := Wrapf ("runtime_repository: " +:+ what +:+ ": ") (Errorf "pq") "".

Definition query {A} (what : string) (q : gmap string instance_row → A) : ST RuntimeRepository (res A) := λ r,
  let r' := r {{ rp_outcomes ::= tail }} in
  match rp_outcomes r with
  | (true, _) :: _ => (Err (repository_error what), r')
  | _ => (Ok (q (rp_rows r)), r')
  end.

Definition statement (what : string) (f : gmap string instance_row → gmap string instance_row)
    : ST RuntimeRepository (res ()) := λ r,
  let r' := r {{ rp_outcomes ::= tail }} in
  match rp_outcomes r with
  | (true, applied) :: _ => (Err (repository_error what), if applied : bool then r' {{ rp_rows ::= f }} else r')
  | _ => (Ok tt, r' {{ rp_rows ::= f }})
  end.

(** A row of the result; what of the capabilities decodes is kept. *)
Definition scan_instance (row : string * instance_row) : RuntimeInstance :=
  let '(runtime_id, x) := row in
  mkInstance runtime_id (ix_endpoint x) (ix_public_key_ed25519 x)
    (unmarshal (dec_list "" dec_string) (ix_capabilities x) []).1
    (default "" (ix_platform x)) (default "" (ix_version x)) (ix_is_edge x) (ix_is_healthy x) (ix_last_seen_at x).

Definition scanInstances (rows : list (string * instance_row)) : list RuntimeInstance := scan_instance <$> rows.

(** [BTRIM(endpoint) <> '']. *)
Fixpoint not_blank (s : string) : bool :=
  match s with
  | "" => false
  | String a s' => negb (bool_decide (a = " "%char)) || not_blank s'
  end.

(** [ORDER BY is_edge DESC] and [..., last_seen_at DESC]. *)
Definition edge_order (a b : string * instance_row) : Prop := ix_is_edge b.2 = true → ix_is_edge a.2 = true.
Definition seen_order (a b : string * instance_row) : Prop :=
  edge_order a b ∧ (ix_is_edge a.2 = ix_is_edge b.2 → ix_last_seen_at b.2 ≤ ix_last_seen_at a.2).
#[global] Instance edge_order_dec : RelDecision edge_order.
Proof. intros a b. unfold edge_order. apply _. Defined.
#[global] Instance seen_order_dec : RelDecision seen_order.
Proof. intros a b. unfold seen_order. apply _. Defined.

Section Repository.
Context `{Ext}.

Definition repo_ListHealthy : ST RuntimeRepository (res (list RuntimeInstance)) :=
  query "list_healthy" (λ m, scanInstances (merge_sort seen_order
    (filter (λ row, ix_is_healthy row.2 = true ∧ not_blank (ix_endpoint row.2) = true) (map_to_list m)))).

Definition repo_ListAll : ST RuntimeRepository (res (list RuntimeInstance)) :=
  query "list_all" (λ m, scanInstances (merge_sort edge_order (map_to_list m))).

Definition repo_UpdateHealth (runtimeID : string) (healthy : bool) : ST RuntimeRepository (res ()) := λ r,
  statement "update_health"
    (alter (λ x, x {{ ix_is_healthy := healthy; ix_last_seen_at := rp_now r }}) runtimeID) r.

Definition Upsert (inst : RuntimeInstance) : ST RuntimeRepository (res ()) := λ r,
  match NormalizeHTTPRuntimeEndpoint (in_Endpoint inst) with
  | Err _ => (Err (Wrapf "runtime_repository: upsert: " ErrInvalidRuntimeEndpoint ""), r)
  | Ok endpoint =>
    let caps := arr_text (str_text <$> in_Capabilities inst) in
    let id := in_RuntimeID inst in
    let new := mkInstanceRow endpoint (in_PublicKey inst) caps (Some (in_Platform inst)) (Some (in_Version inst))
                 (in_IsEdge inst) true (rp_now r) (rp_now r) in
    statement "upsert" (λ m, <[id := match m !! id with
       | Some old => old {{ ix_endpoint := endpoint; ix_public_key_ed25519 := in_PublicKey inst;
                            ix_capabilities := caps; ix_platform := Some (in_Platform inst);
                            ix_version := Some (in_Version inst); ix_is_edge := in_IsEdge inst;
                            ix_is_healthy := true; ix_last_seen_at := rp_now r }}
       | None => new
       end]> m) r
  end.

#[global] Instance RuntimeRepository_impl : RuntimeRepositoryI RuntimeRepository := {
  ListHealthy := repo_ListHealthy;
  ListAll := repo_ListAll;
  UpdateHealth := repo_UpdateHealth;
}.
End Repository.

(** ** The selector *)

(** What a request leaves for the background: an upsert of circuit_breaker_states. *)
Inductive persistence :=
| PersistState (runtimeID state : string)
| PersistTrip (runtimeID : string).

Record contact := mkContact {
  ct_step : nat;
  ct_runtime : string;
  ct_endpoint : string;
  ct_ok : bool;
}.

Record RuntimeSelector (R : Type) := mkSelector {
  s_repo : R;
  s_breakers : ProviderCircuitBreakers;
  s_clients : gmap string RuntimeClient;
  s_db : bool; (* whether a database is attached *)
  s_jobs : list persistence;
  s_step : nat;
  s_contacts : list contact; (* requests sent, newest first *)
}.
Arguments mkSelector {R}.
Arguments s_repo {R}.
Arguments s_breakers {R}.
Arguments s_clients {R}.
Arguments s_db {R}.
Arguments s_jobs {R}.
Arguments s_step {R}.
Arguments s_contacts {R}.
#[export] Instance set_s_repo {R} : Setter (@s_repo R) := _.
#[export] Instance set_s_breakers {R} : Setter (@s_breakers R) := _.
#[export] Instance set_s_clients {R} : Setter (@s_clients R) := _.
#[export] Instance set_s_db {R} : Setter (@s_db R) := _.
#[export] Instance set_s_jobs {R} : Setter (@s_jobs R) := _.
#[export] Instance set_s_step {R} : Setter (@s_step R) := _.
#[export] Instance set_s_contacts {R} : Setter (@s_contacts R) := _.

Section Selector.
Context `{Ext} {R : Type} `{RuntimeRepositoryI R}.
Context (tick : nat → time) (fresh : nat → string) (http : nat → string → transport).

Notation sel := (ST (RuntimeSelector R)).

Definition NewRuntimeSelector (repo : R) : RuntimeSelector R :=
  mkSelector repo (NewProviderCircuitBreakers (mkBreakerConfig 3 (30 * Second))) ∅ false [] 0 [].

Definition WithDB (s : RuntimeSelector R) : RuntimeSelector R := s {{ s_db := true }}.

Definition on_repo {A} (m : ST R A) : sel A := λ s,
  let '(a, r) := m (s_repo s) in (a, s {{ s_repo := r }}).
Definition on_breakers {A} (f : ProviderCircuitBreakers → A * ProviderCircuitBreakers) : sel A := λ s,
  let '(a, b) := f (s_breakers s) in (a, s {{ s_breakers := b }}).

(** The next [k] observations. *)
Definition observe (k : nat) : sel nat := λ s, (s_step s, s {{ s_step ::= Nat.add k }}).

Definition available (runtimeID : string) : sel bool :=
  n ← observe 1; on_breakers (IsProviderAvailable (tick n) runtimeID).
Definition record_failure (runtimeID : string) : sel () :=
  n ← observe 1; on_breakers (ProviderRecordFailure (tick n) runtimeID).
Definition record_success (runtimeID : string) : sel () := on_breakers (ProviderRecordSuccess runtimeID).

Definition background (job : persistence) : sel () := modify (λ s, s {{ s_jobs ::= λ l, l ++ [job] }}).

Definition persistCBState (runtimeID : string) : sel () :=
  s ← get_world;
  if s_db s then background (PersistState runtimeID (State_String (GetState runtimeID (s_breakers s)))) else mret tt.

Definition persistCBTrip (runtimeID : string) : sel () :=
  s ← get_world; if s_db s then background (PersistTrip runtimeID) else mret tt.

Definition getOrCreateClient (endpoint : string) : sel RuntimeClient := λ s,
  match s_clients s !! endpoint with
  | Some c => (c, s)
  | None => let rc := NewRuntimeClient endpoint in (rc, s {{ s_clients ::= <[endpoint := rc]> }})
  end.

(** One request: it takes the observations [n], [n + 1] and [n + 2]. *)
Definition send_request {A} (attempt : RuntimeClient → nat → reply A) (inst : RuntimeInstance) (endpoint : string)
    : sel (reply A) :=
  client ← getOrCreateClient endpoint;
  n ← observe 3;
  let r := attempt client n in
  modify (λ s, s {{ s_contacts ::= cons (mkContact n (in_RuntimeID inst) endpoint
    match r with Done _ => true | Fails _ => false end) }}) ;;
  mret r.

Definition after_failure (runtimeID : string) : sel () :=
  record_failure runtimeID ;;
  up ← available runtimeID;
  if up : bool then persistCBState runtimeID else persistCBTrip runtimeID.

(** The loop of both operations. *)
Fixpoint try_instances {A} (attempt : RuntimeClient → nat → reply A) (instances : list RuntimeInstance)
    : sel (option A) :=
  match instances with
  | [] => mret None
  | inst :: rest =>
    match NormalizeHTTPRuntimeEndpoint (in_Endpoint inst) with
    | Err _ => try_instances attempt rest
    | Ok endpoint =>
      up ← available (in_RuntimeID inst);
      if up : bool then
        r ← send_request attempt inst endpoint;
        match r with
        | Fails _ => after_failure (in_RuntimeID inst) ;; try_instances attempt rest
        | Done resp =>
          record_success (in_RuntimeID inst) ;; persistCBState (in_RuntimeID inst) ;; mret (Some resp)
        end
      else try_instances attempt rest
    end
  end.

Definition select_and_send {A} (attempt : RuntimeClient → nat → reply A) (none : string) : sel (res A) :=
  instances ← on_repo ListHealthy;
  match instances with
  | Err e => mret (Err (Wrapf "runtime_selector: list_healthy: " e ""))
  | Ok instances =>
    r ← try_instances attempt instances;
    mret match r with Some resp => Ok resp | None => Err (Errorf none) end
  end.

Definition forward_attempt (tenantID : string) (req : InferRequest) (boundsHeader : string) (c : RuntimeClient) (n : nat)
    : reply InferResponse :=
  ForwardExecution (http n) c (fresh n) (tick (n + 1)) (tick (n + 2)) tenantID req boundsHeader.

Definition selector_ForwardExecution (tenantID : string) (req : InferRequest) (boundsHeader : string)
    : sel (res InferResponse) :=
  select_and_send (forward_attempt tenantID req boundsHeader) "runtime_selector: no healthy runtime available".

Definition stream_attempt (tenantID : string) (req : InferRequest) (boundsHeader : string) (c : RuntimeClient) (n : nat)
    : reply string := OpenStreamingExecution (http n) c (fresh n) tenantID req boundsHeader.

Definition selector_OpenStreamingExecution (tenantID : string) (req : InferRequest) (boundsHeader : string)
    : sel (res string) :=
  select_and_send (stream_attempt tenantID req boundsHeader)
    "runtime_selector: no healthy runtime available for streaming".

(** The loop of the poller; the runtimes whose update failed are logged. *)
Fixpoint poll_instances (instances : list RuntimeInstance) : sel (list string) :=
  match instances with
  | [] => mret []
  | inst :: rest =>
    healthy ← match NormalizeHTTPRuntimeEndpoint (in_Endpoint inst) return sel bool with
              | Err _ => mret false
              | Ok endpoint =>
                client ← getOrCreateClient endpoint;
                n ← observe 1;
                mret (is_ok (Health (http n) client))
              end;
    u ← on_repo (UpdateHealth (in_RuntimeID inst) healthy);
    failed ← poll_instances rest;
    mret (if is_ok u then failed else in_RuntimeID inst :: failed)
  end.

(** [pollHealth]; [None] when the instances could not be listed. *)
Definition pollHealth : sel (option (list string)) :=
  instances ← on_repo ListAll;
  match instances return sel (option (list string)) with
  | Err _ => mret None
  | Ok instances => failed ← poll_instances instances; mret (Some failed)
  end.
End Selector.
