(* ===== verification/SelectorFacts.v ===== *)
(** * What the runtime selector guarantees

    The database-backed repository obeys the laws of the interface; the selector
    keeps away from failing runtimes, prefers edge runtimes, and its poller
    leaves the health it observed. *)

From S2P Require Import Prelude GoStrings Json Float64 Models CircuitBreaker Ext Checkpoint Types.
From S2P Require Import Receipts.
From S2P Require Import RuntimeClient RuntimeSelector.
Open Scope Z_scope.

(** ** The repository *)

#[local] Instance edge_order_trans : Transitive edge_order.
Proof. intros a b c Hab Hbc ?. auto. Qed.
#[local] Instance edge_order_total : Total edge_order.
Proof. intros a b. unfold edge_order. destruct (ix_is_edge a.2), (ix_is_edge b.2); auto. Qed.
#[local] Instance seen_order_trans : Transitive seen_order.
Proof.
  intros a b c [Hab Hab'] [Hbc Hbc']. split; [by etransitivity|]. unfold edge_order in *.
  destruct (ix_is_edge a.2), (ix_is_edge b.2), (ix_is_edge c.2); intros; try done;
    try (specialize (Hab eq_refl); done); try (specialize (Hbc eq_refl); done);
    specialize (Hab' eq_refl); specialize (Hbc' eq_refl); lia.
Qed.
#[local] Instance seen_order_total : Total seen_order.
Proof.
  intros a b. unfold seen_order, edge_order.
  destruct (ix_is_edge a.2), (ix_is_edge b.2), (Z.le_ge_cases (ix_last_seen_at a.2) (ix_last_seen_at b.2)); naive_solver.
Qed.

Lemma scan_edge row : in_IsEdge (scan_instance row) = ix_is_edge row.2.
Proof. by destruct row. Qed.
Lemma scan_id row : in_RuntimeID (scan_instance row) = row.1.
Proof. by destruct row. Qed.

Lemma scan_edge_first l : StronglySorted edge_order l → edge_first (scanInstances l).
Proof.
  intros Hs. unfold edge_first, scanInstances. induction Hs as [|x l Hs IH Hx]; cbn; constructor; [done|].
  apply Forall_fmap. eapply Forall_impl; [exact Hx|]. intros y Hxy. cbn. by rewrite !scan_edge.
Qed.

Lemma seen_edge_sorted l : StronglySorted seen_order l → StronglySorted edge_order l.
Proof.
  induction 1 as [|x l Hs IH Hx]; constructor; [done|]. eapply Forall_impl; [exact Hx|]. by intros y [? _].
Qed.

Lemma scan_ids l : in_RuntimeID <$> scanInstances l = l.*1.
Proof. unfold scanInstances. rewrite <-list_fmap_compose. apply list_fmap_ext. intros i [id x] _. done. Qed.

Lemma NoDup_keys_filter {A} (P : string * A → Prop) `{!∀ x, Decision (P x)} (l : list (string * A)) :
  NoDup l.*1 → NoDup (filter P l).*1.
Proof.
  induction l as [|x l IH]; [done|]. cbn [fmap list_fmap]. intros [Hx Hl]%NoDup_cons. rewrite filter_cons.
  destruct (decide (P x)); [|by apply IH]. cbn. constructor; [|by apply IH].
  intros (y & Heq & [_ Hy]%list_elem_of_filter)%list_elem_of_fmap. apply Hx. rewrite Heq. by apply list_elem_of_fmap_2.
Qed.

Section Laws.
Context `{Ext}.

Definition stored_health (r : RuntimeRepository) : gmap string bool := ix_is_healthy <$> rp_rows r.

Lemma query_ok {A} what (q : gmap string instance_row → A) r :
  rp_rows (query what q r).2 = rp_rows r ∧ ∀ a, (query what q r).1 = Ok a → a = q (rp_rows r).
Proof. unfold query. destruct (rp_outcomes r) as [|[[] ?] ?]; split; try done; intros a [= <-]; done. Qed.

Lemma statement_ok what f r :
  match (statement what f r).1 with
  | Ok _ => rp_rows (statement what f r).2 = f (rp_rows r)
  | Err _ => rp_rows (statement what f r).2 = rp_rows r ∨ rp_rows (statement what f r).2 = f (rp_rows r)
  end.
Proof. unfold statement. destruct (rp_outcomes r) as [|[[] []] ?]; cbn; auto. Qed.

#[export, program] Instance RuntimeRepository_laws : RepositoryLaws RuntimeRepository := { health := stored_health }.
Next Obligation.
  intros r. destruct (query_ok "list_healthy" (λ m, scanInstances (merge_sort seen_order
    (filter (λ row, ix_is_healthy row.2 = true ∧ not_blank (ix_endpoint row.2) = true) (map_to_list m)))) r) as [Hrows Hl].
  split; [unfold stored_health; cbn; unfold repo_ListHealthy; by rewrite Hrows|].
  intros l Hlist. rewrite (Hl l Hlist). clear Hl Hlist. set (rows := filter _ _).
  assert (merge_sort seen_order rows ≡ₚ rows) as Hperm by apply merge_sort_Permutation. split_and!.
  - apply scan_edge_first, seen_edge_sorted, StronglySorted_merge_sort; apply _.
  - rewrite scan_ids, Hperm. apply NoDup_keys_filter, NoDup_fst_map_to_list.
  - intros i Hi. apply list_elem_of_fmap in Hi as (row & -> & Hrow). rewrite Hperm in Hrow.
    apply list_elem_of_filter in Hrow as [[Hh _] Hrow]. destruct row as [id x]. cbn in *.
    apply elem_of_map_to_list in Hrow. unfold stored_health. by rewrite lookup_fmap, Hrow, <-Hh.
Qed.
Next Obligation.
  intros r. destruct (query_ok "list_all" (λ m, scanInstances (merge_sort edge_order (map_to_list m))) r) as [Hrows Hl].
  split; [unfold stored_health; cbn; unfold repo_ListAll; by rewrite Hrows|].
  intros l Hlist. rewrite (Hl l Hlist). rewrite scan_ids. split; [rewrite merge_sort_Permutation; apply NoDup_fst_map_to_list|].
  intros id. rewrite merge_sort_Permutation. unfold stored_health. rewrite lookup_fmap, fmap_is_Some. split.
  - intros [x Hx]. apply list_elem_of_fmap. exists (id, x). split; [done|]. by apply elem_of_map_to_list.
  - intros ([? x] & -> & Hx)%list_elem_of_fmap. apply elem_of_map_to_list in Hx. by exists x.
Qed.
Next Obligation.
  intros id b r. cbv zeta. unfold UpdateHealth, RuntimeRepository_impl, repo_UpdateHealth.
  set (f := alter _ id). pose proof (statement_ok "update_health" f r) as Hs.
  assert (ix_is_healthy <$> f (rp_rows r) = alter (λ _, b) id (stored_health r)) as Hf.
  { apply map_eq. intros j. unfold f, stored_health. rewrite lookup_fmap. destruct (decide (id = j)) as [->|?].
    - rewrite !lookup_alter_eq, lookup_fmap. by destruct (rp_rows r !! j) as [[]|].
    - by rewrite !lookup_alter_ne, lookup_fmap by done. }
  destruct (statement _ f r) as [[u|e] r']; cbn [fst snd] in *; [by rewrite <-Hf, <-Hs|].
  rewrite <-Hf. unfold stored_health. destruct Hs as [->| ->]; auto.
Qed.
End Laws.

(** ** Keeping away from failing runtimes *)

Fixpoint failures_in_a_row (l : list contact) : nat :=
  match l with
  | c :: l => if ct_ok c then 0 else S (failures_in_a_row l)
  | [] => 0
  end.

Section Quarantine.
Context (tick : nat → time) (tick_mono : ∀ n m, (n ≤ m)%nat → tick n ≤ tick m).

(** In a log, newest first: after three failures in a row comes a pause. *)
Definition pauses (l : list contact) : Prop :=
  ∀ newer c f3 f2 f1 older, l = newer ++ c :: f3 :: f2 :: f1 :: older →
    ct_ok f1 = false → ct_ok f2 = false → ct_ok f3 = false →
    tick (ct_step f3) + 30 * Second ≤ tick (ct_step c).

(** By step [n] the pause after three failures is over. *)
Definition rested (l : list contact) (n : nat) : Prop :=
  (3 ≤ failures_in_a_row l)%nat → ∀ c, head l = Some c → tick (ct_step c) + 30 * Second ≤ tick n.

(** A breaker, the log of its runtime and the current step, between requests. *)
Record steady (cb : CircuitBreaker) (l : list contact) (n : nat) : Prop := {
  st_ok : breaker_ok cb;
  st_threshold : cb_failureThreshold cb = 3;
  st_timeout : cb_recoveryTimeout cb = 30 * Second;
  st_past : ∀ c, c ∈ l → (ct_step c < n)%nat;
  st_pauses : pauses l;
  st_closed : cb_state cb = StateClosed → Z.of_nat (failures_in_a_row l) ≤ cb_failureCount cb;
  st_open : cb_state cb = StateOpen → ∀ c, head l = Some c → tick (ct_step c) ≤ cb_lastFailureTime cb;
  st_half_open : cb_state cb = StateHalfOpen → rested l n;
}.

Lemma rested_later l n m : (n ≤ m)%nat → rested l n → rested l m.
Proof. intros Hnm Hr H3 c Hc. specialize (Hr H3 c Hc). specialize (tick_mono n m Hnm). lia. Qed.

Lemma steady_later cb l n m : (n ≤ m)%nat → steady cb l n → steady cb l m.
Proof.
  intros Hnm [????????]. split; try done.
  - intros c Hc. specialize (st_past0 c Hc). lia.
  - intros Hs. eapply rested_later; eauto.
Qed.

Lemma steady_Allow cb l n :
  steady cb l n →
  steady (Allow (tick n) cb).2 l (S n) ∧
  ((Allow (tick n) cb).1 = true → cb_state (Allow (tick n) cb).2 ≠ StateOpen ∧ rested l n).
Proof.
  intros Hst. pose proof (steady_later _ _ n (S n) ltac:(lia) Hst) as Hst'. destruct Hst as [Hok Hth Hto Hp Hq Hc Ho Hh].
  unfold Allow. destruct (cb_state cb) eqn:Hs.
  - split; [done|]. intros _. split; [cbn; congruence|]. intros H3.
    pose proof (bo_closed _ Hok Hs). specialize (Hc eq_refl). lia.
  - rewrite timeout_passed by done. destruct (Z.leb_spec (cb_recoveryTimeout cb) (tick n - cb_lastFailureTime cb)).
    + assert (rested l n) as Hr.
      { intros _ c Hhd. specialize (Ho eq_refl c Hhd). lia. }
      split; [|by intros _].
      pose proof (Allow_ok (tick n) cb Hok) as Hok'. unfold Allow in Hok'.
      rewrite Hs, timeout_passed, (proj2 (Z.leb_le _ _)) in Hok' by done.
      split; try done. * intros c Hin. specialize (Hp c Hin). lia.
      * intros _. apply (rested_later _ n); [lia|done].
    + split; [done|]. done.
  - split; [done|]. intros _. split; [cbn; congruence|]. by apply Hh.
Qed.

Lemma pauses_cons l c n : pauses l → rested l n → (n ≤ ct_step c)%nat → pauses (c :: l).
Proof.
  intros Hp Hr Hn newer c' f3 f2 f1 older Heq H1 H2 H3. destruct newer as [|x newer]; injection Heq as -> ->.
  - assert (tick (ct_step f3) + 30 * Second ≤ tick n) as Ht.
    { apply Hr; [cbn; rewrite H1, H2, H3; lia|done]. }
    specialize (tick_mono _ _ Hn). lia.
  - by eapply Hp.
Qed.

(** A contact and the record of its outcome. *)
Lemma steady_failure cb l n c m :
  steady cb l n → cb_state cb ≠ StateOpen → rested l n → ct_ok c = false → (n ≤ ct_step c)%nat → (ct_step c < m)%nat →
  steady (RecordFailure (tick m) cb) (c :: l) (S m).
Proof.
  intros [Hok Hth Hto Hp Hq Hc Ho Hh] Hs Hr Hf Hn Hm.
  pose proof (RecordFailure_ok (tick m) cb Hok) as Hok'. pose proof (pauses_cons l c n Hq Hr Hn) as Hq'.
  assert (∀ c', c' ∈ c :: l → (ct_step c' < S m)%nat) as Hp'.
  { intros c' [->|Hin]%elem_of_cons; [lia|]. specialize (Hp c' Hin). lia. }
  assert (∀ c', head (c :: l) = Some c' → tick (ct_step c') ≤ tick m) as Hlast.
  { intros c' [= <-]. apply tick_mono. lia. }
  destruct cb as [[] f k t th rt]; unfold RecordFailure in *; cbn in *; [|done|].
  - destruct (bo_closed _ Hok eq_refl) as [Hfc _]. cbn in Hfc. rewrite wrap_int64_small in * by lia.
    destruct (Z.leb_spec th (f + 1)); split; try done; cbn; unfold constant in *; try done.
    intros _. rewrite Hf. specialize (Hc eq_refl). rewrite wrap_int64_small by lia. lia.
  - split; try done.
Qed.

Lemma steady_success cb l n c m :
  steady cb l n → cb_state cb ≠ StateOpen → rested l n → ct_ok c = true → (n ≤ ct_step c)%nat → (ct_step c < m)%nat →
  steady (RecordSuccess cb) (c :: l) m.
Proof.
  intros [Hok Hth Hto Hp Hq Hc Ho Hh] Hs Hr Hf Hn Hm.
  pose proof (RecordSuccess_ok cb Hok) as Hok'. pose proof (pauses_cons l c n Hq Hr Hn) as Hq'.
  assert (∀ c', c' ∈ c :: l → (ct_step c' < m)%nat) as Hp'.
  { intros c' [->|Hin]%elem_of_cons; [lia|]. specialize (Hp c' Hin). lia. }
  assert (failures_in_a_row (c :: l) = 0%nat) as H0 by (cbn; by rewrite Hf).
  assert (rested (c :: l) m) as Hr' by (intros ?; lia).
  destruct cb as [[] f k t th rt]; unfold RecordSuccess in *; cbn in Hs, Hok', Hth, Hto |- *; [|done|].
  - split; try done. intros _. rewrite H0. done.
  - destruct (2 <=? wrap_int64 (k + 1)); split; try done. intros _. rewrite H0. done.
Qed.
End Quarantine.

Section Selecting.
Context `{Ext} {R : Type} `{RuntimeRepositoryI R}.
Context (tick : nat → time) (fresh : nat → string) (http : nat → string → transport).
Context (tick_mono : ∀ n m, (n ≤ m)%nat → tick n ≤ tick m).
Implicit Types s : RuntimeSelector R.

(** The requests sent to a runtime. *)
Definition sent_to (p : string) s : list contact := filter (λ c, ct_runtime c = p) (s_contacts s).
Definition breaker (p : string) s : CircuitBreaker := breaker_of p (s_breakers s).

Definition calm_for (p : string) s : Prop := steady tick (breaker p s) (sent_to p s) (s_step s).
Definition ready_for (p : string) s : Prop :=
  calm_for p s ∧ cb_state (breaker p s) ≠ StateOpen ∧ rested tick (sent_to p s) (s_step s).
(** A request was sent whose outcome is not recorded yet. *)
Definition pending_for (p : string) (ok : bool) s : Prop :=
  ∃ c l n, sent_to p s = c :: l ∧ ct_ok c = ok ∧ steady tick (breaker p s) l n ∧
    cb_state (breaker p s) ≠ StateOpen ∧ rested tick l n ∧ (n ≤ ct_step c < s_step s)%nat.

(** An operation on a breaker, as seen by any runtime. *)
Lemma on_breaker_view {A} id (f : CircuitBreaker → A * CircuitBreaker) s p :
  let s' := (on_breakers (on_breaker id f) s).2 in
  (on_breakers (on_breaker id f) s).1 = (f (breaker id s)).1 ∧
  breaker p s' = (if decide (id = p) then (f (breaker p s)).2 else breaker p s) ∧
  sent_to p s' = sent_to p s ∧ s_step s' = s_step s.
Proof.
  unfold on_breakers, breaker. rewrite <-breaker_of_on_breaker.
  pose proof (on_breaker_spec id f (s_breakers s)) as Hs. destruct (on_breaker id f (s_breakers s)) as [a b].
  destruct Hs as (_ & -> & _). by destruct s.
Qed.

Lemma hoare_observe p k : hoare (calm_for p) (observe k) (λ n s, calm_for p s ∧ s_step s = (k + n)%nat ∧
  (steady tick (breaker p s) (sent_to p s) n)).
Proof.
  intros s Hs. destruct s as [r b c d j n l]. cbn. split; [|done].
  unfold calm_for in *. cbn. eapply steady_later; [done| |exact Hs]. cbn. lia.
Qed.

Lemma hoare_available p id :
  hoare (calm_for p) (available tick id) (λ up s, calm_for p s ∧ (up = true → id = p → ready_for p s)).
Proof.
  eapply hoare_bind; [apply hoare_observe with (k := 1%nat)|]. intros n s (Hc & Hn & Hst).
  destruct (on_breaker_view id (Allow (tick n)) s p) as (Hr & Hb & Hl & Hstep).
  unfold IsProviderAvailable. set (s' := (on_breakers _ s).2) in *.
  unfold calm_for, ready_for. rewrite Hr, Hb, Hl, Hstep. destruct (decide (id = p)) as [->|Hne]; [|done].
  destruct (steady_Allow _ tick_mono _ _ _ Hst) as [Hst' Hup]. rewrite Hn.
  split; [done|]. intros Hup' _. destruct (Hup Hup') as [Ho Hrest].
  unfold calm_for. rewrite Hb, Hl, Hstep, Hn. split_and!; [done..|]. eapply rested_later; [done| |exact Hrest]. lia.
Qed.

Lemma hoare_getOrCreateClient (P : RuntimeSelector R → Prop) ep :
  (∀ s c, P s → P (s {{ s_clients := c }})) → hoare P (getOrCreateClient ep) (λ _, P).
Proof.
  intros HP s Hs. unfold getOrCreateClient. destruct (s_clients s !! ep); [done|].
  by destruct s; apply (HP _ _ Hs).
Qed.

Definition reply_ok {A} (r : reply A) : bool := match r with Done _ => true | Fails _ => false end.

Lemma hoare_send {A} p (attempt : RuntimeClient → nat → reply A) inst ep :
  hoare (λ s, calm_for p s ∧ (in_RuntimeID inst = p → ready_for p s)) (send_request attempt inst ep)
    (λ r s, if decide (in_RuntimeID inst = p) then pending_for p (reply_ok r) s else calm_for p s).
Proof.
  eapply hoare_bind; [apply hoare_getOrCreateClient; by intros []|].
  intros client s [Hc Hr]. unfold mbind, ST_bind, mret, ST_ret, observe, modify. cbn [fst snd]. set (n := s_step s). set (r := attempt client n).
  unfold pending_for, calm_for, sent_to, breaker in *. destruct s as [repo b cl d j step l]. cbn in *.
  destruct (decide (in_RuntimeID inst = p)) as [Heq|Hne].
  - destruct (Hr Heq) as (Hst & Ho & Hrest). eexists _, _, step. split_and!; [done|by destruct r|done..|cbn; lia].
  - eapply steady_later; [done| |exact Hc]. lia.
Qed.

Lemma hoare_record_failure p id :
  hoare (λ s, if decide (id = p) then pending_for p false s else calm_for p s) (record_failure tick id)
    (λ _, calm_for p).
Proof.
  intros s Hs. unfold record_failure, mbind, ST_bind, observe, ProviderRecordFailure. cbn [fst snd].
  set (s1 := s {{ s_step ::= _ }}). set (n := s_step s).
  destruct (on_breaker_view id (λ cb, (tt, RecordFailure (tick n) cb)) s1 p) as (_ & Hb & Hl & Hstep).
  assert (breaker p s1 = breaker p s ∧ sent_to p s1 = sent_to p s ∧ s_step s1 = S n) as (E1 & E2 & E3)
    by (by destruct s).
  unfold calm_for. rewrite Hb, Hl, Hstep, E1, E2, E3. cbn [snd]. destruct (decide (id = p)) as [Heq|Hne].
  - destruct Hs as (c & l' & m & -> & Hf & Hst & Ho & Hr & Hm). by eapply steady_failure with (n := m); try lia.
  - eapply steady_later; [done| |exact Hs]. unfold n. lia.
Qed.

Lemma hoare_record_success p id :
  hoare (λ s, if decide (id = p) then pending_for p true s else calm_for p s) (record_success id) (λ _, calm_for p).
Proof.
  intros s Hs. unfold record_success, ProviderRecordSuccess.
  destruct (on_breaker_view id (λ cb, (tt, RecordSuccess cb)) s p) as (_ & Hb & Hl & Hstep).
  unfold calm_for. rewrite Hb, Hl, Hstep. cbn [snd]. destruct (decide (id = p)) as [Heq|Hne]; [|done].
  destruct Hs as (c & l' & m & -> & Hf & Hst & Ho & Hr & Hm). eapply steady_success with (n := m); try done; lia.
Qed.

Lemma hoare_background p job : hoare (calm_for p) (background job) (λ _, calm_for p).
Proof. by intros [] Hs. Qed.
Lemma hoare_persistCBState p id : hoare (calm_for p) (persistCBState id) (λ _, calm_for p).
Proof. intros s Hs. cbv [persistCBState mbind ST_bind get_world]. destruct (s_db s); [by apply hoare_background|done]. Qed.
Lemma hoare_persistCBTrip p id : hoare (calm_for p) (persistCBTrip id) (λ _, calm_for p).
Proof. intros s Hs. cbv [persistCBTrip mbind ST_bind get_world]. destruct (s_db s); [by apply hoare_background|done]. Qed.

Lemma hoare_after_failure p id :
  hoare (λ s, if decide (id = p) then pending_for p false s else calm_for p s) (after_failure tick id) (λ _, calm_for p).
Proof.
  eapply hoare_bind; [apply hoare_record_failure|]. intros [].
  eapply hoare_bind; [apply hoare_available|]. intros up.
  destruct up; (eapply hoare_conseq; [apply hoare_persistCBState || apply hoare_persistCBTrip|by intros s [? _]|done]).
Qed.

Lemma hoare_try_instances {A} p (attempt : RuntimeClient → nat → reply A) instances :
  hoare (calm_for p) (try_instances tick attempt instances) (λ _, calm_for p).
Proof.
  induction instances as [|inst rest IH]; [by apply hoare_ret|]. cbn [try_instances].
  destruct (NormalizeHTTPRuntimeEndpoint _) as [ep|]; [|done].
  eapply hoare_bind; [apply hoare_available|]. intros [].
  2:{ eapply hoare_conseq; [exact IH|by intros s [? _]|done]. }
  eapply hoare_bind; [eapply hoare_conseq; [apply hoare_send| |done]|].
  { intros s [Hc Hr]. split; [exact Hc|by apply Hr]. }
  intros [resp|e]; cbn [reply_ok].
  - eapply hoare_bind; [apply hoare_record_success|]. intros [].
    eapply hoare_bind; [apply hoare_persistCBState|]. intros []. by apply hoare_ret.
  - eapply hoare_bind; [apply hoare_after_failure|]. intros []. exact IH.
Qed.

Lemma hoare_on_repo {A} p (m : ST R A) : hoare (calm_for p) (on_repo m) (λ _, calm_for p).
Proof. intros s Hs. unfold on_repo. destruct (m (s_repo s)). by destruct s. Qed.

Lemma hoare_select_and_send {A} p (attempt : RuntimeClient → nat → reply A) none :
  hoare (calm_for p) (select_and_send tick attempt none) (λ _, calm_for p).
Proof.
  eapply hoare_bind; [apply hoare_on_repo|]. intros [l|e]; [|by apply hoare_ret].
  eapply hoare_bind; [apply hoare_try_instances|]. intros r. by apply hoare_ret.
Qed.

Lemma hoare_poll_instances p l : hoare (calm_for p) (poll_instances http l) (λ _, calm_for p).
Proof.
  induction l as [|inst l IH]; [by apply hoare_ret|]. cbn [poll_instances].
  eapply hoare_bind with (R := λ _, calm_for p).
  - destruct (NormalizeHTTPRuntimeEndpoint _) as [ep|]; [|by apply hoare_ret].
    eapply hoare_bind; [apply hoare_getOrCreateClient; by intros []|]. intros c.
    eapply hoare_bind; [apply hoare_observe|]. intros n. apply hoare_ret. by intros s [? _].
  - intros b. eapply hoare_bind; [apply hoare_on_repo|]. intros u.
    eapply hoare_bind; [exact IH|]. intros failed. by apply hoare_ret.
Qed.

(** What is asked of a selector. *)
Inductive selector_op :=
| OpForward (tenantID : string) (req : InferRequest) (boundsHeader : string)
| OpStream (tenantID : string) (req : InferRequest) (boundsHeader : string)
| OpPoll.

Definition run_selector (s : RuntimeSelector R) (op : selector_op) : RuntimeSelector R :=
  match op with
  | OpForward tenantID req h => (selector_ForwardExecution tick fresh http tenantID req h s).2
  | OpStream tenantID req h => (selector_OpenStreamingExecution tick fresh http tenantID req h s).2
  | OpPoll => (pollHealth http s).2
  end.

Lemma run_selector_calm p s op : calm_for p s → calm_for p (run_selector s op).
Proof.
  destruct op; cbn.
  - apply hoare_select_and_send.
  - apply hoare_select_and_send.
  - revert s. change (hoare (calm_for p) (pollHealth http) (λ _, calm_for p)).
    eapply hoare_bind; [apply hoare_on_repo|]. intros [l|e]; [|by apply hoare_ret].
    eapply hoare_bind; [apply hoare_poll_instances|]. intros r. by apply hoare_ret.
Qed.

Lemma new_selector_calm p repo db : calm_for p ((NewRuntimeSelector repo) {{ s_db := db }}).
Proof.
  unfold calm_for, breaker, breaker_of, sent_to. cbn.
  change (default _ _) with (NewCircuitBreaker (mkBreakerConfig 3 (30 * Second))).
  split; [apply new_ok; by split|done|done|by intros ? ?%elem_of_nil|by intros [] * ?|done..].
Qed.

(** The selector leaves a failing runtime alone: in any history of inference,
    streaming and health-poll calls on a new selector, three requests in a row
    that a runtime failed are followed by no further request to it for thirty
    seconds, whatever the answers of the other runtimes. *)
Theorem selector_pauses repo db ops p newer c f3 f2 f1 older :
  sent_to p (foldl run_selector ((NewRuntimeSelector repo) {{ s_db := db }}) ops) = newer ++ c :: f3 :: f2 :: f1 :: older →
  ct_ok f1 = false → ct_ok f2 = false → ct_ok f3 = false →
  tick (ct_step f3) + 30 * Second ≤ tick (ct_step c).
Proof.
  assert (∀ s, calm_for p s → calm_for p (foldl run_selector s ops)) as Hrun.
  { induction ops as [|op ops IH]; intros s Hs; [done|]. apply IH, run_selector_calm, Hs. }
  intros Hl H1 H2 H3. by apply (st_pauses _ _ _ _ (Hrun _ (new_selector_calm p repo db)) newer c f3 f2 f1 older).
Qed.
End Selecting.

(** ** Edge runtimes first, and the health poll *)

Section Order.
Context `{Ext} {R : Type} `{RuntimeRepositoryI R}.
Context (tick : nat → time) (fresh : nat → string) (http : nat → string → transport).
Implicit Types s : RuntimeSelector R.

(** Why a request went on to another instance. *)
Definition passed_over (inst : RuntimeInstance) (requests : list contact) s : Prop :=
  (∃ e, NormalizeHTTPRuntimeEndpoint (in_Endpoint inst) = Err e) ∨
  cb_state (breaker (in_RuntimeID inst) s) = StateOpen ∨
  ∃ c, c ∈ requests ∧ ct_runtime c = in_RuntimeID inst ∧ ct_ok c = false.

(** Nothing but the breaker of [id], the log, the clients, the jobs and the
    step changes, and the log only grows by requests to [id]. *)
Definition touches (id : string) (new : list contact) s s' : Prop :=
  s_repo s' = s_repo s ∧ s_contacts s' = new ++ s_contacts s ∧ (∀ c, c ∈ new → ct_runtime c = id) ∧
  ∀ p, p ≠ id → breaker p s' = breaker p s.

Lemma touches_refl id s : touches id [] s s.
Proof. split_and!; try done. by intros c ?%elem_of_nil. Qed.
Lemma touches_trans id new new' s1 s2 s3 :
  touches id new s1 s2 → touches id new' s2 s3 → touches id (new' ++ new) s1 s3.
Proof.
  intros (Hr & Hc & Hn & Hb) (Hr' & Hc' & Hn' & Hb'). split_and!; [congruence|by rewrite Hc', Hc, app_assoc| |].
  - intros c [?|?]%elem_of_app; eauto.
  - intros p Hp. by rewrite Hb', Hb.
Qed.

(** An operation that only touches breaker [id]. *)
Definition only {A} (id : string) (m : ST (RuntimeSelector R) A) : Prop := ∀ s, touches id [] s (m s).2.

Lemma only_bind {A B} id (m : ST (RuntimeSelector R) A) (k : A → ST (RuntimeSelector R) B) :
  only id m → (∀ a, only id (k a)) → only id (m ≫= k).
Proof.
  intros Hm Hk s. unfold mbind, ST_bind. specialize (Hm s). destruct (m s) as [a s'].
  exact (touches_trans _ _ _ _ _ _ Hm (Hk a s')).
Qed.
Lemma only_ret {A} id (a : A) : only id (mret a).
Proof. intros s. apply touches_refl. Qed.
Lemma only_observe id k : only id (observe k).
Proof. intros s. destruct s. split_and!; try done. by intros c ?%elem_of_nil. Qed.
Lemma only_on_breaker {A} id (f : CircuitBreaker → A * CircuitBreaker) : only id (on_breakers (on_breaker id f)).
Proof.
  intros s. split_and!; [| |by intros c ?%elem_of_nil|].
  - unfold on_breakers. destruct (on_breaker _ _ _). by destruct s.
  - unfold on_breakers. destruct (on_breaker _ _ _). by destruct s.
  - intros p Hp. destruct (on_breaker_view id f s p) as (_ & Hb & _). rewrite Hb. by destruct (decide (id = p)).
Qed.
Lemma only_available id : only id (available tick id).
Proof. apply only_bind; [apply only_observe|]. intros n. apply only_on_breaker. Qed.
Lemma only_record_failure id : only id (record_failure tick id).
Proof. apply only_bind; [apply only_observe|]. intros n. apply only_on_breaker. Qed.
Lemma only_get id : only id (@get_world (RuntimeSelector R)).
Proof. intros s. apply touches_refl. Qed.
Lemma only_background id job : only id (background job).
Proof. intros s. destruct s. split_and!; try done. by intros c ?%elem_of_nil. Qed.
Lemma only_persistCBState id p : only id (persistCBState p).
Proof. apply only_bind; [apply only_get|]. intros s. destruct (s_db s); [apply only_background|apply only_ret]. Qed.
Lemma only_persistCBTrip id p : only id (persistCBTrip p).
Proof. apply only_bind; [apply only_get|]. intros s. destruct (s_db s); [apply only_background|apply only_ret]. Qed.
Lemma only_after_failure id : only id (after_failure tick id).
Proof.
  apply only_bind; [apply only_record_failure|]. intros _. apply only_bind; [apply only_available|].
  intros []; [apply only_persistCBState|apply only_persistCBTrip].
Qed.
Lemma only_conclude {A} id (a : A) : only id (record_success id ;; persistCBState id ;; mret (Some a)).
Proof.
  apply only_bind; [apply only_on_breaker|]. intros _. apply only_bind; [apply only_persistCBState|]. intros _. apply only_ret.
Qed.

Lemma send_touches {A} (attempt : RuntimeClient → nat → reply A) inst ep s :
  ∃ c, ct_runtime c = in_RuntimeID inst ∧ ct_ok c = reply_ok (send_request attempt inst ep s).1 ∧
    touches (in_RuntimeID inst) [c] s (send_request attempt inst ep s).2.
Proof.
  unfold send_request, mbind, ST_bind, observe, modify, mret, ST_ret, getOrCreateClient.
  destruct (s_clients s !! ep); cbn [fst snd]; destruct s; (eexists; split_and!; [| |split_and!]; cbn; try done);
    try (by destruct (attempt _ _)); intros c' Hc'%list_elem_of_singleton; by subst.
Qed.

(** The state a refused check leaves. *)
Lemma available_refused id s s' : available tick id s = (false, s') → cb_state (breaker id s') = StateOpen.
Proof.
  unfold available, mbind, ST_bind, observe, IsProviderAvailable. intros Heq.
  set (s1 := s {{ s_step ::= _ }}) in Heq. destruct (on_breaker_view id (Allow (tick (s_step s))) s1 id) as (Hr & Hb & _).
  rewrite Heq in Hr, Hb. cbn [fst snd] in Hr, Hb. destruct (decide (id = id)); [|done]. rewrite Hb.
  revert Hr. unfold Allow. destruct (cb_state (breaker id s1)) eqn:Hs; [done| |done]. case_match; [done|]. by intros _.
Qed.

(** How the loop went over the instances. *)
Record walked (l : list RuntimeInstance) (answered : bool) (new : list contact) s s' : Prop := {
  wa_repo : s_repo s' = s_repo s;
  wa_log : s_contacts s' = new ++ s_contacts s;
  wa_listed : ∀ c, c ∈ new → ct_runtime c ∈ in_RuntimeID <$> l;
  wa_others : ∀ p, p ∉ in_RuntimeID <$> l → breaker p s' = breaker p s;
  wa_order : ∀ k i c, l !! k = Some i → c ∈ new → ct_runtime c = in_RuntimeID i →
    ∀ j e, (j < k)%nat → l !! j = Some e → passed_over e new s';
  wa_all : answered = false → ∀ e, e ∈ l → passed_over e new s';
}.

Lemma passed_over_more e new more s : passed_over e new s → passed_over e (new ++ more) s.
Proof. intros [?|[?|(c & ? & ?)]]; [by left|by right; left|]. right. right. exists c. set_solver. Qed.

(** One instance passed over, then the rest. *)
Lemma walked_cons inst l answered mine new s s1 s' :
  NoDup (in_RuntimeID <$> inst :: l) →
  touches (in_RuntimeID inst) mine s s1 → walked l answered new s1 s' →
  (passed_over inst mine s1) → walked (inst :: l) answered (new ++ mine) s s'.
Proof.
  intros [Hni Hnd]%NoDup_cons (Hr & Hlog & Hmine & Hb) [Hr' Hlog' Hin Hoth Hord Hall] Hpass.
  assert (passed_over inst (new ++ mine) s') as Hpass'.
  { destruct Hpass as [?|[Ho|(c & Hc & ?)]]; [by left| |].
    - right. left. by rewrite Hoth.
    - right. right. exists c. set_solver. }
  split.
  - congruence.
  - by rewrite Hlog', Hlog, app_assoc.
  - intros c [Hc|Hc]%elem_of_app; apply elem_of_cons; [right; by apply Hin|left; by apply Hmine].
  - intros p Hp. cbn in Hp. apply not_elem_of_cons in Hp as [Hne Hp]. rewrite Hoth, Hb; done.
  - intros [|k] i c Hi Hc Hid j e Hj He; [lia|]. cbn in Hi.
    assert (c ∈ new) as Hc'.
    { apply elem_of_app in Hc as [?|Hc]; [done|]. exfalso. apply Hni. rewrite <-(Hmine c Hc), Hid.
      apply list_elem_of_fmap_2. by eapply list_elem_of_lookup_2. }
    destruct j as [|j]; cbn in He; [by simplify_eq|]. apply passed_over_more, (Hord k i c Hi Hc' Hid j e); [lia|done].
  - intros Ha e [->|He]%elem_of_cons; [done|]. by apply passed_over_more, Hall.
Qed.

Lemma try_instances_walked {A} (attempt : RuntimeClient → nat → reply A) l : NoDup (in_RuntimeID <$> l) → ∀ s,
  ∃ new, walked l (bool_decide (is_Some (try_instances tick attempt l s).1)) new s (try_instances tick attempt l s).2.
Proof.
  induction l as [|inst l IH]; intros Hnd s.
  { exists []. split; try done; [by intros c ?%elem_of_nil|by intros _ e ?%elem_of_nil]. }
  specialize (IH (proj2 (proj1 (NoDup_cons _ _) Hnd))). cbn [try_instances].
  destruct (NormalizeHTTPRuntimeEndpoint _) as [ep|e] eqn:Hep.
  2:{ destruct (IH s) as [new Hw]. exists (new ++ []).
      eapply walked_cons; [done|apply touches_refl|done|]. left. eauto. }
  pose proof (only_available (in_RuntimeID inst) s) as Hav. rewrite bind_run.
  destruct (available tick (in_RuntimeID inst) s) as [[] s1] eqn:Hs1; cbn [fst snd] in *.
  2:{ destruct (IH s1) as [new Hw]. exists (new ++ []). eapply walked_cons; [done|done|done|].
      right. left. by eapply available_refused. }
  destruct (send_touches attempt inst ep s1) as (c & Hid & Hok & Ht).
  pose proof (touches_trans _ _ _ _ _ _ Hav Ht) as Ht'.
  rewrite bind_run. destruct (send_request attempt inst ep s1) as [[resp|e] s2]; cbn [fst snd reply_ok app] in *.
  - pose proof (only_conclude (in_RuntimeID inst) resp s2) as Hc.
    pose proof (touches_trans _ _ _ _ _ _ Ht' Hc) as (Hr & Hlog & Hmine & Hb). exists [c].
    rewrite !bind_run in *. cbn [app fst snd mret ST_ret] in *. rewrite bool_decide_true by done. split; try done.
    + intros c' Hc'. apply elem_of_cons. left. by apply Hmine.
    + intros p [? _]%not_elem_of_cons. by apply Hb.
    + intros [|k] i c' Hi Hc' Hid' j e Hj He; [lia|]. exfalso. cbn in Hi.
      apply NoDup_cons in Hnd as [Hni _]. apply Hni. rewrite <-(Hmine c' Hc'), Hid'.
      apply list_elem_of_fmap_2. by eapply list_elem_of_lookup_2.
  - pose proof (only_after_failure (in_RuntimeID inst) s2) as Hf. rewrite bind_run.
    destruct (after_failure tick (in_RuntimeID inst) s2) as [[] s3]. cbn [fst snd] in *.
    pose proof (touches_trans _ _ _ _ _ _ Ht' Hf) as Ht3. destruct (IH s3) as [new Hw].
    exists (new ++ [c]). eapply walked_cons; [done|exact Ht3|done|]. right. right. exists c. set_solver.
Qed.

Context `{!RepositoryLaws R}.

(** Inference falls back to a cloud runtime only when it must: a request
    contacts only runtimes the repository lists as healthy; when it contacts one
    that is not an edge runtime, every healthy edge runtime was unroutable, has
    its breaker open, or just failed this request; and it reports failure only
    when that holds of every healthy runtime. *)
Theorem selector_edge_first tenantID req boundsHeader s l :
  (ListHealthy (s_repo s)).1 = Ok l →
  let '(r, s') := selector_ForwardExecution tick fresh http tenantID req boundsHeader s in
  ∃ new, s_contacts s' = new ++ s_contacts s ∧
    (∀ c, c ∈ new → ∃ i, i ∈ l ∧ ct_runtime c = in_RuntimeID i ∧ health (s_repo s) !! in_RuntimeID i = Some true) ∧
    (∀ c i e, c ∈ new → i ∈ l → ct_runtime c = in_RuntimeID i → in_IsEdge i = false → e ∈ l → in_IsEdge e = true →
       passed_over e new s') ∧
    (is_ok r = false → ∀ e, e ∈ l → passed_over e new s').
Proof.
  intros Hl. unfold selector_ForwardExecution, select_and_send. rewrite bind_run. unfold on_repo.
  destruct (listed_healthy (s_repo s)) as [_ Hlaw]. destruct (Hlaw l Hl) as (Hedge & Hnd & Hh).
  destruct (ListHealthy (s_repo s)) as [x repo']. cbn [fst snd] in *. subst x. rewrite bind_run.
  set (s1 := s {{ s_repo := repo' }}).
  destruct (try_instances_walked (forward_attempt tick fresh http tenantID req boundsHeader) l Hnd s1) as [new Hw].
  destruct (try_instances _ _ l s1) as [r s'] eqn:Htry. cbn [fst snd] in Hw. destruct Hw as [_ Hlog Hin _ Hord Hall].
  assert (s_contacts s1 = s_contacts s) as Hc1 by (by destruct s). rewrite Hc1 in Hlog.
  cbn [fst snd mret ST_ret]. exists new. split_and!; [done| | |].
  - intros c Hc. apply Hin in Hc. apply list_elem_of_fmap in Hc as (i & Hid & Hi). exists i. auto.
  - intros c i e Hc Hi Hid Hcloud He Hee. apply list_elem_of_lookup in Hi as [k Hk], He as [j Hj].
    apply (Hord k i c Hk Hc Hid j e); [|done].
    destruct (decide (j < k)%nat) as [?|Hge]; [done|]. exfalso.
    destruct (decide (j = k)) as [->|Hne]; [congruence|].
    assert (in_IsEdge e = true → in_IsEdge i = true) as Hs.
    { eapply (StronglySorted_app_1_elem_of (λ a b, in_IsEdge b = true → in_IsEdge a = true) (take j l) (drop j l)).
      - by rewrite take_drop.
      - apply list_elem_of_lookup. exists k. rewrite lookup_take_lt by lia. done.
      - apply list_elem_of_lookup. exists 0%nat. by rewrite lookup_drop, Nat.add_0_r. }
    rewrite Hs in Hcloud by done. done.
  - intros Hr. apply Hall. destruct r; [done|]. by apply bool_decide_false; intros [? ?].
Qed.

(** What a health check at step [n] finds. *)
Definition probed (inst : RuntimeInstance) (n : nat) : bool :=
  match NormalizeHTTPRuntimeEndpoint (in_Endpoint inst) with
  | Ok endpoint => is_ok (Health (http n) (NewRuntimeClient endpoint))
  | Err _ => false
  end.

(** The cached clients are those [NewRuntimeClient] makes. *)
Definition clients_ok s : Prop := map_Forall (λ endpoint c, c = NewRuntimeClient endpoint) (s_clients s).

Lemma client_ok s ep : clients_ok s →
  let '(c, s') := getOrCreateClient ep s in c = NewRuntimeClient ep ∧ clients_ok s' ∧ s_repo s' = s_repo s ∧ s_step s' = s_step s.
Proof.
  intros Hok. unfold getOrCreateClient. destruct (s_clients s !! ep) as [c|] eqn:Hc.
  - split_and!; try done. by apply Hok.
  - split_and!; try done; destruct s; try done. unfold clients_ok. cbn. by apply map_Forall_insert_2.
Qed.

(** One instance of the poll. *)
Lemma probe_spec inst s : clients_ok s →
  let m := match NormalizeHTTPRuntimeEndpoint (in_Endpoint inst) return ST (RuntimeSelector R) bool with
           | Err _ => mret false
           | Ok endpoint => client ← getOrCreateClient endpoint; n ← observe 1; mret (is_ok (Health (http n) client))
           end in
  (m s).1 = probed inst (s_step s) ∧ clients_ok (m s).2 ∧ s_repo (m s).2 = s_repo s ∧ (s_step s ≤ s_step (m s).2)%nat.
Proof.
  intros Hok. cbv zeta. unfold probed. destruct (NormalizeHTTPRuntimeEndpoint _) as [ep|]; [|done].
  rewrite !bind_run. pose proof (client_ok s ep Hok) as Hc. destruct (getOrCreateClient ep s) as [c s1].
  destruct Hc as (-> & Hok1 & Hr & Hn). cbn [fst snd]. unfold observe, mret, ST_ret. cbn [fst snd]. rewrite Hn.
  split_and!; [done|by destruct s1|by destruct s1|]. destruct s1. cbn in *. lia.
Qed.

Lemma poll_spec l : NoDup (in_RuntimeID <$> l) → ∀ s, clients_ok s →
  let '(failed, s') := poll_instances http l s in
  clients_ok s' ∧ (s_step s ≤ s_step s')%nat ∧
  (∀ id, id ∉ in_RuntimeID <$> l → health (s_repo s') !! id = health (s_repo s) !! id) ∧
  ∀ inst, inst ∈ l → in_RuntimeID inst ∉ failed → is_Some (health (s_repo s) !! in_RuntimeID inst) →
    ∃ n, (s_step s ≤ n)%nat ∧ health (s_repo s') !! in_RuntimeID inst = Some (probed inst n).
Proof.
  induction l as [|x l IH]; intros Hnd s Hok; [split_and!; try done; by intros ? ?%elem_of_nil|].
  apply NoDup_cons in Hnd as [Hx Hnd]. cbn [poll_instances]. rewrite bind_run.
  pose proof (probe_spec x s Hok) as Hp. cbv zeta in Hp.
  match type of Hp with (?m s).1 = _ ∧ _ => destruct (m s) as [b s1] end.
  cbn [fst snd] in *. destruct Hp as (-> & Hok1 & Hr1 & Hn1).
  rewrite bind_run. pose proof (updated_health (in_RuntimeID x) (probed x (s_step s)) (s_repo s1)) as Hu. unfold on_repo.
  destruct (UpdateHealth _ _ (s_repo s1)) as [u repo2]. cbn [fst snd] in *.
  set (s2 := s1 {{ s_repo := repo2 }}). assert (s_repo s2 = repo2 ∧ s_step s2 = s_step s1 ∧ clients_ok s2) as (Hr2 & Hn2 & Hok2)
    by (by destruct s1).
  rewrite bind_run. specialize (IH Hnd s2 Hok2). destruct (poll_instances http l s2) as [failed s3].
  destruct IH as (Hok3 & Hn3 & Hother & Hmine). cbn [fst snd mret ST_ret]. rewrite Hr2, Hr1 in *.
  assert (∀ id, id ≠ in_RuntimeID x → health repo2 !! id = health (s_repo s) !! id) as Hne.
  { intros id Hid. destruct u; [|destruct Hu as [Hu|Hu]]; rewrite Hu; try done; by rewrite lookup_alter_ne. }
  split_and!; [done|lia| |].
  - intros id [Hid Hid']%not_elem_of_cons. by rewrite Hother, Hne.
  - intros inst [->|Hin]%elem_of_cons Hf [h Hh].
    + destruct u as [[]|]; [|by exfalso; apply Hf; left]. exists (s_step s). split; [done|].
      by rewrite Hother, Hu, lookup_alter_eq, Hh.
    + assert (in_RuntimeID inst ≠ in_RuntimeID x) as Hid.
      { intros Heq. apply Hx. rewrite <-Heq. by apply list_elem_of_fmap_2. }
      destruct (Hmine inst Hin) as (n & Hn & Hh'); [|rewrite Hne by done; eauto|exists n; split; [lia|done]].
      destruct (is_ok u); [done|]. by apply not_elem_of_cons in Hf as [_ ?].
Qed.

(** A health poll stores what it saw: after a poll every registered runtime,
    except those whose update was reported as failed, is marked healthy exactly
    when its endpoint is routable and its health check, made during the poll,
    succeeded. *)
Theorem poll_health_exact s failed s' l :
  clients_ok s → pollHealth http s = (Some failed, s') → (ListAll (s_repo s)).1 = Ok l →
  clients_ok s' ∧
  ∀ id, is_Some (health (s_repo s) !! id) → id ∉ failed →
    ∃ inst n, inst ∈ l ∧ in_RuntimeID inst = id ∧ (s_step s ≤ n)%nat ∧ health (s_repo s') !! id = Some (probed inst n).
Proof.
  intros Hok Hp Hl. unfold pollHealth in Hp. rewrite bind_run in Hp. unfold on_repo in Hp.
  destruct (listed_all (s_repo s)) as [Hsame Hlaw]. destruct (Hlaw l Hl) as [Hnd Hall].
  destruct (ListAll (s_repo s)) as [x repo1]. cbn [fst snd] in *. subst x. rewrite bind_run in Hp.
  set (s1 := s {{ s_repo := repo1 }}) in *.
  assert (clients_ok s1 ∧ s_repo s1 = repo1 ∧ s_step s1 = s_step s) as (Hok1 & Hr1 & Hn1) by (by destruct s).
  pose proof (poll_spec l Hnd s1 Hok1) as Hs. destruct (poll_instances http l s1) as [failed' s2].
  unfold mret, ST_ret in Hp. injection Hp as -> ->.
  destruct Hs as (Hok' & _ & _ & Hmine). split; [done|]. intros id Hid Hf. rewrite Hr1, Hn1, Hsame in Hmine.
  pose proof (proj1 (Hall id) Hid) as Hin. apply list_elem_of_fmap in Hin as (inst & -> & Hin).
  destruct (Hmine inst Hin Hf Hid) as (n & Hn & Hh). eauto 10.
Qed.

(** The selector's own error hides what the runtimes answered: a security
    rejection by every runtime is reported as if none were available. *)
Theorem selector_hides_rejections tenantID req boundsHeader s l e :
  (ListHealthy (s_repo s)).1 = Ok l →
  (selector_ForwardExecution tick fresh http tenantID req boundsHeader s).1 = Err e →
  e = Errorf "runtime_selector: no healthy runtime available" ∧ errors_is e ErrRuntimeSecurity = false.
Proof.
  intros Hl. unfold selector_ForwardExecution, select_and_send. rewrite bind_run. unfold on_repo.
  destruct (ListHealthy (s_repo s)) as [x repo']. cbn [fst snd] in *. subst x. rewrite bind_run.
  destruct (try_instances _ _ _ _) as [[resp|] s']; cbn; [done|]. by intros [= <-].
Qed.
End Order.

(** ** A selector at work *)

Module SelectorExample.
#[local] Existing Instance demo_ext.

Definition req : InferRequest :=
  mkInferRequest "gpt-4" [mkMessage "user" "hello" []] false 0 f64_zero f64_zero 0 f64_zero f64_zero [] None false 0 "" ""
    false false None None.

(** The edge runtime never answers, the cloud runtime does. *)
Definition answer : string :=
  obj_text [("task_id", str_text "t-1"); ("status", str_text "completed"); ("final_output", str_text "hi");
            ("execution_envelope", obj_text [("provider", str_text "cloud"); ("signature", str_text "c2ln")])].
Definition http (n : nat) (method : string) (r : request) : option (Z * string) :=
  if HasPrefix (rq_url r) "http://cloud" then Some (200, answer) else None.

Definition row (endpoint : string) (edge : bool) : instance_row :=
  mkInstanceRow endpoint "" "[]" None None edge true 0 0.
Definition repo : RuntimeRepository :=
  mkRepository {[ "rt-cloud" := row "http://cloud" false; "rt-edge" := row "http://edge" true ]} [] 0.

Definition tick (n : nat) : time := Z.of_nat n * Second.
Definition fresh (n : nat) : string := "t".

Lemma tick_mono n m : (n ≤ m)%nat → tick n ≤ tick m.
Proof. unfold tick, Second, Millisecond. lia. Qed.

Definition ops : list selector_op := replicate 10 (OpForward "tenant" req "").
Definition start : RuntimeSelector RuntimeRepository := NewRuntimeSelector repo.
Definition contact_at (n : nat) : contact := mkContact n "rt-edge" "http://edge" false.

(** The fourth request to the edge runtime came after the pause. *)
Lemma selector_pauses_witness :
  sent_to "rt-edge" (foldl (run_selector tick fresh http) start ops) = contact_at <$> [56; 21; 11; 1]%nat ∧
  tick 21 + 30 * Second ≤ tick 56.
Proof.
  assert (Hlog : sent_to "rt-edge" (foldl (run_selector tick fresh http) start ops) = contact_at <$> [56; 21; 11; 1]%nat)
    by (vm_compute; reflexivity).
  split; [exact Hlog|].
  exact (selector_pauses tick fresh http tick_mono repo false ops "rt-edge" [] (contact_at 56) (contact_at 21)
           (contact_at 11) (contact_at 1) [] Hlog eq_refl eq_refl eq_refl).
Defined.

Definition healthy : list RuntimeInstance := scan_instance <$> [("rt-edge", row "http://edge" true); ("rt-cloud", row "http://cloud" false)].

Lemma selector_edge_first_witness :
  let s' := (selector_ForwardExecution tick fresh http "tenant" req "" start).2 in
  ct_runtime <$> s_contacts s' = ["rt-cloud"; "rt-edge"] ∧
  ∃ new, s_contacts s' = new ++ [] ∧ ∀ c, c ∈ new → ct_runtime c = "rt-cloud" → ∀ e, e ∈ healthy → in_IsEdge e = true →
    passed_over e new s'.
Proof.
  cbv zeta. split; [vm_compute; reflexivity|].
  assert (Hl : (ListHealthy (s_repo start)).1 = Ok healthy) by (vm_compute; reflexivity).
  pose proof (selector_edge_first tick fresh http "tenant" req "" start healthy Hl) as Hw.
  destruct (selector_ForwardExecution tick fresh http "tenant" req "" start) as [r s'].
  destruct Hw as (new & Hlog & _ & Hedge & _). exists new. split; [exact Hlog|].
  intros c Hc Hid e He Hee. set (cloud := scan_instance ("rt-cloud", row "http://cloud" false)).
  assert (Hin : cloud ∈ healthy) by (right; left). exact (Hedge c cloud e Hc Hin Hid eq_refl He Hee).
Defined.

Lemma poll_health_exact_witness :
  ∃ inst n, in_RuntimeID inst = "rt-edge" ∧ health (s_repo (pollHealth http start).2) !! "rt-edge" = Some (probed http inst n).
Proof.
  assert (Hf : (pollHealth http start).1 = Some []) by (vm_compute; reflexivity).
  destruct (poll_health_exact http start [] (pollHealth http start).2 healthy) as [_ Hp].
  - apply map_Forall_empty.
  - rewrite <-Hf. apply surjective_pairing.
  - vm_compute. reflexivity.
  - destruct (Hp "rt-edge") as (inst & n & _ & Hid & _ & Hh);
      [eexists; vm_compute; reflexivity|by intros ?%elem_of_nil|].
    exists inst, n. split; [exact Hid|exact Hh].
Defined.
End SelectorExample.
