(* ===== verification/CoordState.v ===== *)
(** * The coordinator's state

    The tables only the coordinator writes (runtimes, effect journal, dispatch
    queue, dead letters, permission audit, encrypted input references), the
    world a handler runs in, and the store operations on those tables.

    A handler is a state transformer over [CWorld]: the store's world, these
    tables, and the goroutines started so far.  Statements draw their outcome
    from the same fault stream as the store's; a statement that touches both
    sets of tables is one step. *)

From S2P Require Import Prelude GoStrings Json Ext WalCodec Checkpoint Types Capability Governance.
From S2P Require Import Store InputRefs.
Open Scope Z_scope.

(** ** Tables *)

Record runtime_row := mkRuntime {
  ri_runtime_id : string;
  ri_tenant_id : string;
  ri_endpoint : option string;
  ri_is_healthy : bool;
  ri_status : string;
  ri_last_heartbeat : option time;
  ri_public_key_ed25519 : option string;
}.

Record journal_row := mkJournal {
  ej_tenant_id : string;
  ej_task_id : uuid;
  ej_node_id : string;
  ej_step_index : Z;
  ej_effect_class : string;
  ej_status : string;
  ej_committed_at : option time;
}.

Record queue_row := mkQueue {
  dq_tenant_id : string;
  dq_task_id : uuid;
  dq_status : string;
  dq_created_at : time;
  dq_dispatched_at : option time;
}.

Record dlq_row := mkDLQ {
  dl_tenant_id : string;
  dl_attempts : Z;
  dl_last_error : string;
  dl_enqueued_at : time;
}.

Record input_ref_row := mkInputRefRow {
  iw_ref : ExecutionInputRef;
  iw_created_at : time;
  iw_expires_at : option time;
  iw_revoked_at : option time;
  iw_last_decrypted_at : option time;
}.

Record ExecutionInputRefAuditEvent := mkInputRefAudit {
  ia_TenantID : string;
  ia_TaskID : uuid;
  ia_InputRefID : uuid;
  ia_Purpose : string;
  ia_KeyVersion : string;
  ia_ActorType : string;
  ia_EventType : string;
  ia_Reason : string;
  ia_Success : bool;
  ia_FailureCode : string;
}.

Record permission_row := mkPermission {
  pa_envelope_id : string;
  pa_task_id : uuid;
  pa_envelope : string;
  pa_envelope_hash : string;
  pa_signature : string;
  pa_issued_at_unix_ms : Z;
  pa_persisted_at : time;
}.

Record decision_row := mkDecisionRow {
  cd_envelope_id : string;
  cd_decision : CapabilityDecision;
  cd_credential_ref_ids : list string;
}.

Record credential_row := mkCredentialRow {
  ca_envelope_id : string;
  ca_task_id : uuid;
  ca_tenant_id : string;
  ca_ref : CredentialReference;
  ca_revoked_at : option time;
  ca_persisted_at : time;
}.

(** Governed robotics: the tenant's policies, the signed decisions, the receipts
    of governed actions. *)
Record robotics_policy_row := mkRoboticsPolicy {
  rp_tenant_id : string;
  rp_policy_version : string;
  rp_status : string;
  rp_permit : bool;
  rp_runtime_permitted : bool;
  rp_robot_mode : string;
  rp_allowed_runtimes : string;
  rp_active : bool;
  rp_expires_at : option time;
  rp_updated_at : time;
}.

Record policy_audit_row := mkPolicyAudit {
  pd_policy_decision_id : string;
  pd_task_id : uuid;
  pd_tenant_id : string;
  pd_runtime_id : option string;
  pd_policy_version : string;
  pd_robot_action : string;
  pd_robot_node_id : string;
  pd_robot_target : option string;
  pd_permit : bool;
  pd_reason : string;
  pd_policy_decision_hash : string;
  pd_policy_signature : string;
  pd_signed_policy_decision : string;
  pd_issued_at_unix_ms : Z;
  pd_expires_at_unix_ms : Z;
  pd_persisted_at : time;
}.

Record robot_receipt_row := mkRobotReceipt {
  rr_task_id : uuid;
  rr_tenant_id : string;
  rr_runtime_id : option string;
  rr_execution_id : string;
  rr_policy_decision_id : string;
  rr_policy_decision_hash : option string;
  rr_governed_action_hash : option string;
  rr_robot_action : string;
  rr_routing_decision : string;
  rr_receipt_hash : option string;
  rr_receipt_signature : option string;
  rr_envelope_signature : option string;
  rr_violation_occurred : bool;
  rr_violation : option string;
  rr_execution_envelope : string;
  rr_execution_receipt : string;
  rr_persisted_at : time;
}.

Record tool_receipt_row := mkToolReceipt {
  tr_task_id : uuid;
  tr_tenant_id : string;
  tr_runtime_id : option string;
  tr_execution_id : string;
  tr_envelope_id : option string;
  tr_capability : option string;
  tr_tool_name : string;
  tr_tool_action_hash : option string;
  tr_routing_decision : string;
  tr_request_hash : option string;
  tr_response_hash : option string;
  tr_receipt_hash : option string;
  tr_receipt_signature : option string;
  tr_envelope_signature : option string;
  tr_violation_occurred : bool;
  tr_violation : option string;
  tr_execution_envelope : string;
  tr_execution_receipt : option string;
  tr_persisted_at : time;
}.

Record context_row := mkContextRow {
  xc_execution_id : string;
  xc_tenant_id : string;
  xc_task_id : option uuid;
  xc_runtime_id : option string;
  xc_runtime_label : option string;
  xc_provider : option string;
  xc_route_decision : option string;
  xc_execution_path : option string;
  xc_fallback_used : bool;
  xc_fallback_reason : option string;
  xc_policy_snapshot : option string;
  xc_capability_snapshot : option string;
  xc_events : string;
  xc_logs : string;
  xc_verification_status : option string;
  xc_receipt_id : option string;
  xc_receipt_hash : option string;
  xc_created_at : time;
  xc_updated_at : time;
}.

(** Accepted runtime callbacks, and what was refused. *)
Record nonce_row := mkNonce {
  nc_tenant_id : string;
  nc_task_id : uuid;
  nc_runtime_id : string;
  nc_callback_type : string;
  nc_nonce : string;
  nc_body_digest : string;
  nc_timestamp_unix_ms : Z;
  nc_accepted_at : time;
}.

Record violation_row := mkViolation {
  bv_tenant_id : string;
  bv_task_id : uuid;
  bv_runtime_id : option string;
  bv_violation_type : string;
  bv_severity : string;
  bv_reason : string;
  bv_evidence_digest : option string;
}.

(** Draft policy rules and their audit trail (migration 065). *)
Record proposal_row := mkProposalRow {
  pr_proposal_id : uuid;
  pr_tenant_id : string;
  pr_name : string;
  pr_description : string;
  pr_status : string;
  pr_policy_mode : string;
  pr_match_criteria_json : string;
  pr_latest_simulation_json : option string;
  pr_created_by : string;
  pr_created_at : time;
  pr_updated_at : time;
  pr_archived_at : option time;
}.

Record proposal_event_row := mkProposalEvent {
  pv_tenant_id : string;
  pv_proposal_id : uuid;
  pv_event_type : string;
  pv_safe_summary : string;
  pv_created_at : time;
}.

Record Tables := mkTables {
  runtime_instances : list runtime_row;
  effect_journal : list journal_row;
  task_dispatch_queue : list queue_row;
  execution_dlq : gmap uuid dlq_row;
  execution_input_refs : gmap uuid input_ref_row;
  execution_input_ref_audit : list ExecutionInputRefAuditEvent;
  ai_task_permission_audit : list permission_row;
  ai_capability_decision_audit : list decision_row;
  ai_credential_ref_audit : list credential_row;
  capability_policies : gmap string string; (* the active policy of a tenant *)
  robotics_policy_settings : list robotics_policy_row;
  robotics_policy_decision_audit : list policy_audit_row;
  robotics_receipt_audit : list robot_receipt_row;
  ai_tool_receipt_audit : list tool_receipt_row;
  execution_context : list context_row;
  runtime_callback_nonces : list nonce_row;
  boundary_violations : list violation_row;
  policy_proposals : list proposal_row;
  policy_proposal_events : list proposal_event_row;
}.

#[export] Instance set_runtime_instances : Setter runtime_instances := _.
#[export] Instance set_effect_journal : Setter effect_journal := _.
#[export] Instance set_task_dispatch_queue : Setter task_dispatch_queue := _.
#[export] Instance set_execution_dlq : Setter execution_dlq := _.
#[export] Instance set_execution_input_refs : Setter execution_input_refs := _.
#[export] Instance set_execution_input_ref_audit : Setter execution_input_ref_audit := _.
#[export] Instance set_ai_task_permission_audit : Setter ai_task_permission_audit := _.
#[export] Instance set_ai_capability_decision_audit : Setter ai_capability_decision_audit := _.
#[export] Instance set_ai_credential_ref_audit : Setter ai_credential_ref_audit := _.
#[export] Instance set_robotics_policy_decision_audit : Setter robotics_policy_decision_audit := _.
#[export] Instance set_robotics_receipt_audit : Setter robotics_receipt_audit := _.
#[export] Instance set_ai_tool_receipt_audit : Setter ai_tool_receipt_audit := _.
#[export] Instance set_execution_context : Setter execution_context := _.
#[export] Instance set_runtime_callback_nonces : Setter runtime_callback_nonces := _.
#[export] Instance set_boundary_violations : Setter boundary_violations := _.
#[export] Instance set_policy_proposals : Setter policy_proposals := _.
#[export] Instance set_policy_proposal_events : Setter policy_proposal_events := _.

(** A goroutine: a dispatch to a runtime, or the recovery of one. *)
Inductive job : Type :=
| JDispatch (task : TaskRecord) (checkpoint : option CheckpointPayload)
| JRecover (runtimeID : string).

Record CWorld := mkCWorld {
  c_world : World;
  c_tables : Tables;
  c_jobs : list job; (* goroutines started, oldest first *)
}.
#[export] Instance set_c_world : Setter c_world := _.
#[export] Instance set_c_tables : Setter c_tables := _.
#[export] Instance set_c_jobs : Setter c_jobs := _.

(** ** Running statements *)

Definition on_store {A} (m : ST World A) : ST CWorld A := λ c,
  let '(a, w) := m (c_world c) in (a, c {{ c_world := w }}).

(** A statement on the coordinator's tables that may read the store's. *)
Definition tstmt (A : Type) : Type := DB → Tables → res A * Tables.

Definition c_exec {A} (q : tstmt A) : ST CWorld (res A) := λ c,
  let '(f, w) := next_fault (c_world c) in
  let c := c {{ c_world := w }} in
  match f with
  | FOk => let '(r, t) := q (w_db w) (c_tables c) in (r, c {{ c_tables := t }})
  | FErr => (Err sql_error, c)
  | FErrApplied => let '(_, t) := q (w_db w) (c_tables c) in (Err sql_error, c {{ c_tables := t }})
  end.

(** A transaction over both sets of tables. *)
Definition ctx_begin : ST CWorld (res (DB * Tables)) := λ c,
  let '(r, w) := tx_begin (c_world c) in
  (match r with Ok db => Ok (db, c_tables c) | Err e => Err e end, c {{ c_world := w }}).

Definition ctx_exec {A} (q : tstmt A) (db : DB) (t : Tables) : ST CWorld (res (A * Tables)) := λ c,
  let '(f, w) := next_fault (c_world c) in
  let c := c {{ c_world := w }} in
  match f with
  | FOk => (let '(r, t') := q db t in match r with Ok a => Ok (a, t') | Err e => Err e end, c)
  | _ => (Err sql_error, c)
  end.

Definition ctx_commit (db : DB) (t : Tables) : ST CWorld (res ()) := λ c,
  let '(f, w) := next_fault (c_world c) in
  match f with
  | FOk => (Ok tt, c {{ c_world := w {{ w_db := db }}; c_tables := t }})
  | FErr => (Err sql_error, c {{ c_world := w }})
  | FErrApplied => (Err sql_error, c {{ c_world := w {{ w_db := db }}; c_tables := t }})
  end.

Definition spawn (j : job) : ST CWorld () := λ c, (tt, c {{ c_jobs ::= λ l, l ++ [j] }}).

(** [_ = op()]: the outcome is dropped. *)
Definition ignore {A} (m : ST CWorld (res A)) : ST CWorld () := m ≫= λ _, mret tt.

Section StoreTables.
Context `{Ext} `{CheckpointCodec} `{UUIDSupply} `{MapRange} `{AEAD}.

Definition c_now : ST CWorld time := on_store time_now.
Definition c_uuid : ST CWorld uuid := on_store new_uuid.

(** ** Permission envelopes *)

Definition CapabilityDecision_text (d : CapabilityDecision) : string :=
  obj_text [("capability", str_text (cd_Capability d)); ("permit", bool_text (cd_Permit d));
            ("reason", str_text (cd_Reason d)); ("policy_version", str_text (cd_PolicyVersion d))].

Definition CredentialReference_text (r : CredentialReference) : string :=
  obj_text ([("reference_id", str_text (ref_ReferenceID r)); ("tenant_id", str_text (ref_TenantID r));
             ("task_id", str_text (ref_TaskID r))]
    ++ omit_empty "tool" (ref_Tool r) ++ omit_empty "capability" (ref_Capability r)
    ++ omit_empty "scope" (ref_Scope r)
    ++ [("expires_at_unix_ms", num_text (ref_ExpiresAtUnixMs r)); ("revocable", bool_text (ref_Revocable r))]).

(** [json.Marshal] of a non-nil envelope (its slices are non-nil when it was
    built by [buildTaskPermissionEnvelope]). *)
Definition TaskPermissionEnvelope_text (e : TaskPermissionEnvelope) : string :=
  obj_text ([("schema_version", str_text (pe_SchemaVersion e)); ("envelope_id", str_text (pe_EnvelopeID e));
             ("tenant_id", str_text (pe_TenantID e)); ("task_id", str_text (pe_TaskID e))]
    ++ opt_member "runtime_id" (str_text <$> pe_RuntimeID e)
    ++ [("agent_identity", AgentIdentity_text (pe_AgentIdentity e));
        ("required_capabilities", string_list_text (pe_RequiredCapabilities e));
        ("decisions", arr_text (CapabilityDecision_text <$> pe_Decisions e))]
    ++ (if bool_decide (length (pe_CredentialRefs e) = 0%nat) then []
        else [("credential_refs", arr_text (CredentialReference_text <$> pe_CredentialRefs e))])
    ++ [("issued_at_unix_ms", num_text (pe_IssuedAtUnixMs e));
        ("expires_at_unix_ms", num_text (pe_ExpiresAtUnixMs e))]
    ++ opt_member "signer_key_version" (str_text <$> pe_SignerKeyVersion e)
    ++ [("signature", str_text (pe_Signature e))]).

Definition CapabilityDecision_zero : CapabilityDecision := mkCapabilityDecision "" false "" "".
Definition CapabilityDecision_fields : list (string * dec CapabilityDecision) :=
  [("capability", field cd_Capability (λ x '(mkCapabilityDecision _ b c d), mkCapabilityDecision x b c d) dec_string);
   ("permit", field cd_Permit (λ x '(mkCapabilityDecision a _ c d), mkCapabilityDecision a x c d) dec_bool);
   ("reason", field cd_Reason (λ x '(mkCapabilityDecision a b _ d), mkCapabilityDecision a b x d) dec_string);
   ("policy_version",
     field cd_PolicyVersion (λ x '(mkCapabilityDecision a b c _), mkCapabilityDecision a b c x) dec_string)].

Definition CredentialReference_zero : CredentialReference := mkCredentialReference "" "" "" "" "" "" 0 false.
#[local] Instance set_ref_ReferenceID : Setter ref_ReferenceID := _.
#[local] Instance set_ref_TenantID : Setter ref_TenantID := _.
#[local] Instance set_ref_TaskID : Setter ref_TaskID := _.
#[local] Instance set_ref_Tool : Setter ref_Tool := _.
#[local] Instance set_ref_Capability : Setter ref_Capability := _.
#[local] Instance set_ref_Scope : Setter ref_Scope := _.
#[local] Instance set_ref_ExpiresAtUnixMs : Setter ref_ExpiresAtUnixMs := _.
#[local] Instance set_ref_Revocable : Setter ref_Revocable := _.
Definition CredentialReference_fields : list (string * dec CredentialReference) :=
  [("reference_id", field ref_ReferenceID (λ x r, r {{ ref_ReferenceID := x }}) dec_string);
   ("tenant_id", field ref_TenantID (λ x r, r {{ ref_TenantID := x }}) dec_string);
   ("task_id", field ref_TaskID (λ x r, r {{ ref_TaskID := x }}) dec_string);
   ("tool", field ref_Tool (λ x r, r {{ ref_Tool := x }}) dec_string);
   ("capability", field ref_Capability (λ x r, r {{ ref_Capability := x }}) dec_string);
   ("scope", field ref_Scope (λ x r, r {{ ref_Scope := x }}) dec_string);
   ("expires_at_unix_ms", field ref_ExpiresAtUnixMs (λ x r, r {{ ref_ExpiresAtUnixMs := x }}) (dec_int 64));
   ("revocable", field ref_Revocable (λ x r, r {{ ref_Revocable := x }}) dec_bool)].

Definition TaskPermissionEnvelope_zero : TaskPermissionEnvelope :=
  mkPermissionEnvelope "" "" "" "" None AgentIdentity_zero [] [] [] 0 0 None "".
#[local] Instance set_pe_SchemaVersion : Setter pe_SchemaVersion := _.
#[local] Instance set_pe_EnvelopeID : Setter pe_EnvelopeID := _.
#[local] Instance set_pe_TenantID : Setter pe_TenantID := _.
#[local] Instance set_pe_TaskID : Setter pe_TaskID := _.
#[local] Instance set_pe_RuntimeID : Setter pe_RuntimeID := _.
#[local] Instance set_pe_AgentIdentity : Setter pe_AgentIdentity := _.
#[local] Instance set_pe_RequiredCapabilities : Setter pe_RequiredCapabilities := _.
#[local] Instance set_pe_Decisions : Setter pe_Decisions := _.
#[local] Instance set_pe_CredentialRefs : Setter pe_CredentialRefs := _.
#[local] Instance set_pe_IssuedAtUnixMs : Setter pe_IssuedAtUnixMs := _.
#[local] Instance set_pe_ExpiresAtUnixMs : Setter pe_ExpiresAtUnixMs := _.
#[local] Instance set_pe_SignerKeyVersion : Setter pe_SignerKeyVersion := _.
#[local] Instance set_pe_Signature : Setter pe_Signature := _.
Definition TaskPermissionEnvelope_fields : list (string * dec TaskPermissionEnvelope) :=
  [("schema_version", field pe_SchemaVersion (λ x r, r {{ pe_SchemaVersion := x }}) dec_string);
   ("envelope_id", field pe_EnvelopeID (λ x r, r {{ pe_EnvelopeID := x }}) dec_string);
   ("tenant_id", field pe_TenantID (λ x r, r {{ pe_TenantID := x }}) dec_string);
   ("task_id", field pe_TaskID (λ x r, r {{ pe_TaskID := x }}) dec_string);
   ("runtime_id", field pe_RuntimeID (λ x r, r {{ pe_RuntimeID := x }}) (dec_ptr "" dec_string));
   ("agent_identity", field pe_AgentIdentity (λ x r, r {{ pe_AgentIdentity := x }}) (dec_struct AgentIdentity_fields));
   ("required_capabilities",
     field pe_RequiredCapabilities (λ x r, r {{ pe_RequiredCapabilities := x }}) (dec_list "" dec_string));
   ("decisions", field pe_Decisions (λ x r, r {{ pe_Decisions := x }})
                   (dec_list CapabilityDecision_zero (dec_struct CapabilityDecision_fields)));
   ("credential_refs", field pe_CredentialRefs (λ x r, r {{ pe_CredentialRefs := x }})
                         (dec_list CredentialReference_zero (dec_struct CredentialReference_fields)));
   ("issued_at_unix_ms", field pe_IssuedAtUnixMs (λ x r, r {{ pe_IssuedAtUnixMs := x }}) (dec_int 64));
   ("expires_at_unix_ms", field pe_ExpiresAtUnixMs (λ x r, r {{ pe_ExpiresAtUnixMs := x }}) (dec_int 64));
   ("signer_key_version", field pe_SignerKeyVersion (λ x r, r {{ pe_SignerKeyVersion := x }}) (dec_ptr "" dec_string));
   ("signature", field pe_Signature (λ x r, r {{ pe_Signature := x }}) dec_string)].

Definition taskPermissionEnvelopeHash (e : TaskPermissionEnvelope) : string :=
  sha256_hex (any_map_text (canonicalTaskPermissionEnvelope e)).

Definition upsert_permission (taskID : uuid) (e : TaskPermissionEnvelope) (now : time) : tstmt () := λ _ t,
  let row := mkPermission (pe_EnvelopeID e) taskID (jsonb_text (TaskPermissionEnvelope_text e))
               (taskPermissionEnvelopeHash e) (pe_Signature e) (pe_IssuedAtUnixMs e) now in
  (Ok tt, t {{ ai_task_permission_audit ::=
                 upsert (λ x, bool_decide (pa_envelope_id x = pe_EnvelopeID e))
                   (λ old new, mkPermission (pa_envelope_id old) (pa_task_id old) (pa_envelope new)
                                 (pa_envelope_hash new) (pa_signature new) (pa_issued_at_unix_ms new)
                                 (pa_persisted_at new)) row }}).

(** The reference ids granted for a capability. *)
Definition refs_for (e : TaskPermissionEnvelope) (capability : string) : list string :=
  ref_ReferenceID <$> filter (λ r, ref_Capability r = capability ∧ ref_Capability r ≠ "" ∧
                                   ref_ReferenceID r ≠ "") (pe_CredentialRefs e).

Definition upsert_decision (e : TaskPermissionEnvelope) (d : CapabilityDecision) : tstmt () := λ _ t,
  (Ok tt, t {{ ai_capability_decision_audit ::=
                 upsert (λ x, bool_decide (cd_envelope_id x = pe_EnvelopeID e) &&
                              bool_decide (cd_Capability (cd_decision x) = cd_Capability d))
                   (λ _ new, new) (mkDecisionRow (pe_EnvelopeID e) d (refs_for e (cd_Capability d))) }}).

Definition upsert_credential (taskID : uuid) (e : TaskPermissionEnvelope) (now : time) (r : CredentialReference)
    : tstmt () := λ _ t,
  (Ok tt, t {{ ai_credential_ref_audit ::=
                 upsert (λ x, bool_decide (ref_ReferenceID (ca_ref x) = ref_ReferenceID r))
                   (λ old new, mkCredentialRow (ca_envelope_id new) (ca_task_id old) (ca_tenant_id old)
                                 (ca_ref new) (ca_revoked_at old) (ca_persisted_at new))
                   (mkCredentialRow (pe_EnvelopeID e) taskID (pe_TenantID e) r None now) }}).

(** Statements of one transaction, one after another. *)
Fixpoint ctx_all (qs : list (tstmt ())) (db : DB) (t : Tables) : ST CWorld (res Tables) :=
  match qs with
  | [] => mret (Ok t)
  | q :: qs => '(_, t) ←? ctx_exec q db t; ctx_all qs db t
  end.

Definition SaveTaskPermissionEnvelope (taskID : uuid) (envelope : option TaskPermissionEnvelope)
    : ST CWorld (res ()) :=
  match envelope with
  | None => mret (Ok tt)
  | Some e =>
    if bool_decide (pe_EnvelopeID e = "") then mret (Ok tt)
    else
      '(db, t) ←? ctx_begin;
      now ← c_now;
      t ←? ctx_all (upsert_permission taskID e now
             :: (upsert_decision e <$> pe_Decisions e)
             ++ (upsert_credential taskID e now <$> filter (λ r, ref_ReferenceID r ≠ "") (pe_CredentialRefs e))) db t;
      ctx_commit db t
  end.

(** [ORDER BY issued_at_unix_ms DESC, persisted_at DESC LIMIT 1]. *)
Definition newer (x y : permission_row) : permission_row :=
  if (pa_issued_at_unix_ms x <? pa_issued_at_unix_ms y) ||
     ((pa_issued_at_unix_ms x =? pa_issued_at_unix_ms y) && (pa_persisted_at x <? pa_persisted_at y))
  then y else x.

Definition latest_permission (taskID : uuid) (t : Tables) : option permission_row :=
  match filter (λ x, pa_task_id x = taskID) (ai_task_permission_audit t) with
  | [] => None
  | x :: l => Some (foldl newer x l)
  end.

Definition LoadLatestTaskPermissionEnvelope (taskID : uuid) : ST CWorld (res TaskPermissionEnvelope) :=
  row ←? c_exec (λ _ t, (match latest_permission taskID t with
                          | Some row => Ok row
                          | None => Err ErrNoRows
                          end, t));
  if bool_decide (pa_envelope row = "") then mret (Err ErrNoRows)
  else
    let '(e, ok) := unmarshal (dec_struct TaskPermissionEnvelope_fields) (pa_envelope row)
                      TaskPermissionEnvelope_zero in
    mret (if ok then Ok e
          else Err (Wrapf "decode task permission envelope: " (Errorf "json: cannot unmarshal") "")).

Definition HydrateTaskPermissionEnvelope (task : TaskRecord) : ST CWorld (res TaskRecord) :=
  match t_PermissionEnvelope task with
  | Some _ => mret (Ok task)
  | None =>
    match loadOvertureSigningKey with
    | None => mret (Ok task)
    | Some _ =>
      if bool_decide (t_RequiredCapabilities task = []) &&
         bool_decide (deriveRequiredCapabilitiesFromTaskDefinition (t_TaskDefinition task) = [])
      then mret (Ok task)
      else
        r ← LoadLatestTaskPermissionEnvelope (t_TaskID task);
        mret match r with
        | Err e => if errors_is e ErrNoRows then Ok task else Err e
        | Ok envelope =>
          let task := task {{ t_PermissionEnvelope := Some envelope }} in
          let task :=
            if bool_decide (t_RequiredCapabilities task = []) &&
               negb (bool_decide (pe_RequiredCapabilities envelope = []))
            then task {{ t_RequiredCapabilities := pe_RequiredCapabilities envelope }} else task in
          Ok (if agentIdentityEmpty (t_AgentIdentity task) &&
                 negb (agentIdentityEmpty (pe_AgentIdentity envelope))
              then task {{ t_AgentIdentity := pe_AgentIdentity envelope }} else task)
        end
    end
  end.

(** The policy query of [evaluateTaskCapabilityPolicy]: the tenant's active
    policy, or the empty object. *)
Definition select_policy (tenantID : string) : tstmt string := λ _ t,
  (Ok (default "{}" (capability_policies t !! tenantID)), t).

(** A computation that draws some of the coming UUIDs. *)
Definition with_uuids {A} (f : (nat → uuid) → A * nat) : ST CWorld A := λ c,
  let n := w_next_uuid (c_world c) in
  let '(a, used) := f (λ i, uuid_supply (n + i)%nat) in
  (a, c {{ c_world ::= λ w, w {{ w_next_uuid := (n + used)%nat }} }}).

(** [tc.buildTaskPermissionEnvelope] with its query and its UUIDs: the envelope
    takes one and each credential reference another. *)
Definition build_envelope (task : TaskRecord) (governance : taskGovernance)
    : ST CWorld (res (option TaskPermissionEnvelope)) :=
  if bool_decide (g_RequiredCapabilities governance = []) then mret (Ok None)
  else match loadOvertureSigningKey with
  | None => mret (Err (capability_denied "missing Overture signing key"))
  | Some _ =>
    raw ← c_exec (select_policy (t_TenantID task));
    now ← c_now;
    with_uuids (λ fresh,
      let r := buildTaskPermissionEnvelope (Some raw) now fresh task governance in
      (r, match r with Ok (Some e) => S (length (pe_CredentialRefs e)) | _ => 0%nat end))
  end.

(** ** Encrypted input references *)

Definition ErrExecutionInputRefNotFound : goerror := Sentinel "execution input ref not found".
Definition ErrExecutionInputRefRevoked : goerror := Sentinel "execution input ref revoked".
Definition ErrExecutionInputRefExpired : goerror := Sentinel "execution input ref expired".
Definition ErrExecutionInputRefScope : goerror := Sentinel "execution input ref scope mismatch".
Definition ErrExecutionInputRefUnavailable : goerror := Sentinel "encrypted input ref unavailable".
Definition ErrExecutionInputProtectionUnavailable : goerror := Sentinel "execution input protection unavailable".

(** A NULL task_id is the nil UUID. *)
Definition insertExecutionInputRef (ref : ExecutionInputRef) (now : time) : tstmt () := λ _ t,
  (Ok tt, match execution_input_refs t !! ir_ID ref with
          | Some _ => t
          | None => t {{ execution_input_refs ::= <[ir_ID ref := mkInputRefRow
              (mkInputRef (ir_ID ref) (ir_TenantID ref) (ir_TaskID ref) (ir_Purpose ref) (ir_Ciphertext ref)
                 (ir_Nonce ref) (jsonb_text (ir_AAD ref)) (ir_DigestSHA256 ref) (ir_PlaintextBytes ref)
                 (ir_ContentType ref) (ir_RedactionPolicyVersion ref) (ir_KeyVersion ref))
              now None None None]> }}
          end).

Definition insertExecutionInputRefAudit (event : ExecutionInputRefAuditEvent) : tstmt () := λ _ t,
  (Ok tt, t {{ execution_input_ref_audit ::= λ l, l ++
     [mkInputRefAudit (ia_TenantID event) (ia_TaskID event) (ia_InputRefID event) (ia_Purpose event)
        (ia_KeyVersion event) (if nonempty (ia_ActorType event) then ia_ActorType event else "system")
        (ia_EventType event) (ia_Reason event) (ia_Success event) (ia_FailureCode event)] }}).

Definition SaveExecutionInputRefAudit (event : ExecutionInputRefAuditEvent) : ST CWorld (res ()) :=
  c_exec (insertExecutionInputRefAudit event).

Definition ref_created (ref : ExecutionInputRef) : ExecutionInputRefAuditEvent :=
  mkInputRefAudit (ir_TenantID ref) (ir_TaskID ref) (ir_ID ref) (ir_Purpose ref) (ir_KeyVersion ref) "system"
    "input_ref_created" "task submission stored encrypted execution input reference" true "".

(** The task, its references, their audit rows and its bound run are created in
    one transaction. *)
Definition CreateTaskWithExecutionInputRefs (task : TaskRecord) (refs : list ExecutionInputRef)
    : ST CWorld (res bool) :=
  if bool_decide (length refs = 0%nat) then on_store (CreateTask task)
  else match marshal_raw (t_TaskDefinition task) with
  | Err e => mret (Err (Wrapf "marshal task definition: " e ""))
  | Ok defBytes =>
    '(db, t) ←? ctx_begin;
    now ← c_now;
    '(rowsAffected, db) ←? on_store (tx_exec (insert_task task defBytes now) db);
    if rowsAffected =? 0 then (ctx_commit db t ;;? mret (Ok false))
    else
      t ←? ctx_all (concat ((λ ref, [insertExecutionInputRef ref now;
                                     insertExecutionInputRefAudit (ref_created ref)]) <$> refs)) db t;
      '(_, db) ←? on_store (insertBoundActionRun task db);
      ctx_commit db t ;;? mret (Ok true)
  end.

Definition ref_selected (tenantID : string) (taskID refID : uuid) (purpose : string) (x : input_ref_row) : bool :=
  bool_decide (ir_ID (iw_ref x) = refID) && bool_decide (ir_TenantID (iw_ref x) = tenantID) &&
  (bool_decide (ir_TaskID (iw_ref x) = taskID) || bool_decide (ir_TaskID (iw_ref x) = uuid_Nil)) &&
  bool_decide (ir_Purpose (iw_ref x) = purpose).

Definition LoadExecutionInputRef (tenantID : string) (taskID refID : uuid) (purpose : string)
    : ST CWorld (res ExecutionInputRef) :=
  r ← c_exec (λ _ t, (match execution_input_refs t !! refID with
                       | Some x => if ref_selected tenantID taskID refID purpose x then Ok x else Err ErrNoRows
                       | None => Err ErrNoRows
                       end, t));
  now ← c_now;
  mret match r with
  | Err e => Err (if bool_decide (e = ErrNoRows) then ErrExecutionInputRefNotFound else e)
  | Ok x =>
    if negb (bool_decide (ir_TaskID (iw_ref x) = uuid_Nil)) && negb (bool_decide (ir_TaskID (iw_ref x) = taskID))
    then Err ErrExecutionInputRefScope
    else if bool_decide (is_Some (iw_revoked_at x)) then Err ErrExecutionInputRefRevoked
    else if default false ((λ e, e <? now) <$> iw_expires_at x) then Err ErrExecutionInputRefExpired
    else Ok (iw_ref x)
  end.

(** Both texts are JSON and encode the same value. *)
Definition jsonValuesEqual (a b : string) : bool :=
  match unmarshal_any a, unmarshal_any b with
  | Some av, Some bv => bool_decide (any_text av = any_text bv)
  | _, _ => false
  end.

Definition safeInputRefFailureCode (e : goerror) : string :=
  if errors_is e ErrExecutionInputRefNotFound then "not_found"
  else if errors_is e ErrExecutionInputRefRevoked then "revoked"
  else if errors_is e ErrExecutionInputRefExpired then "expired"
  else if errors_is e ErrExecutionInputRefScope then "scope_mismatch"
  else if errors_is e ErrExecutionInputRefDecrypt then "auth_failed"
  else if errors_is e ErrExecutionInputRefKeyVersionMissing then "missing_key_version"
  else if errors_is e ErrExecutionInputRefKeyMissing then "key_unavailable"
  else "internal_error".

Definition safeInputRefError (e : goerror) : goerror :=
  Wrapf "" ErrExecutionInputRefUnavailable (": " +:+ safeInputRefFailureCode e).

Definition MarkExecutionInputRefDecrypted (refID : uuid) : ST CWorld (res ()) :=
  if bool_decide (refID = uuid_Nil) then mret (Ok tt)
  else
    now ← c_now;
    c_exec (λ _ t, (Ok tt, t {{ execution_input_refs ::=
      alter (λ x, mkInputRefRow (iw_ref x) (iw_created_at x) (iw_expires_at x) (iw_revoked_at x) (Some now)) refID }})).

(** An [input_ref_decrypt_denied] row, then the error. *)
Definition decrypt_denied (tenantID : string) (taskID refID : uuid) (purpose keyVersion reason code : string)
    (e : goerror) : ST CWorld (res string) :=
  ignore (SaveExecutionInputRefAudit (mkInputRefAudit tenantID taskID refID purpose keyVersion "system"
            "input_ref_decrypt_denied" reason false code)) ;;
  mret (Err e).

Definition DecryptExecutionInputRef (tenantID : string) (taskID refID : uuid) (purpose reason : string)
    : ST CWorld (res string) :=
  l ← LoadExecutionInputRef tenantID taskID refID purpose;
  match l return ST CWorld (res string) with
  | Err e => decrypt_denied tenantID taskID refID purpose "" reason (safeInputRefFailureCode e) e
  | Ok ref =>
    let deny := decrypt_denied tenantID taskID refID purpose (ir_KeyVersion ref) reason in
    match newExecutionInputKeyringFromEnv with
    | Err e => deny "key_unavailable" e
    | Ok keyring =>
      match keyring_forVersion keyring (ir_KeyVersion ref) with
      | Err e => deny "missing_key_version" e
      | Ok cipher =>
        let expectedAAD := executionInputAssociatedData tenantID taskID refID purpose (ir_KeyVersion ref) in
        if negb (jsonValuesEqual expectedAAD (ir_AAD ref))
        then deny "aad_mismatch" ErrExecutionInputRefScope
        else match gcm_Open (ci_key cipher) (ir_Nonce ref) (ir_Ciphertext ref) expectedAAD with
        | None => deny "auth_failed" ErrExecutionInputRefDecrypt
        | Some plaintext =>
          if negb (bool_decide (sha256InputBytes plaintext = ir_DigestSHA256 ref)) ||
             negb (Z.of_nat (slen plaintext) =? ir_PlaintextBytes ref)
          then deny "digest_mismatch" ErrExecutionInputRefDecrypt
          else
            ignore (MarkExecutionInputRefDecrypted refID) ;;
            ignore (SaveExecutionInputRefAudit (mkInputRefAudit tenantID taskID refID purpose
                      (ir_KeyVersion ref) "system" "input_ref_decrypted_for_recovery" reason true "")) ;;
            mret (Ok plaintext)
        end
      end
    end
  end.

Definition revoke_statement (tenantID : string) (taskID refID : uuid) (purpose : string) (now : time)
    : tstmt Z := λ _ t,
  match execution_input_refs t !! refID with
  | Some x =>
    if ref_selected tenantID taskID refID purpose x
    then (Ok 1, t {{ execution_input_refs ::= <[refID := mkInputRefRow (iw_ref x) (iw_created_at x)
                       (iw_expires_at x) (Some (default now (iw_revoked_at x))) (iw_last_decrypted_at x)]> }})
    else (Ok 0, t)
  | None => (Ok 0, t)
  end.

Definition RevokeExecutionInputRef (tenantID : string) (taskID refID : uuid) (purpose reason : string)
    : ST CWorld (res ()) :=
  if bool_decide (refID = uuid_Nil) then mret (Ok tt)
  else
    let audit success code := SaveExecutionInputRefAudit (mkInputRefAudit tenantID taskID refID purpose ""
                                "system" "input_ref_revoked" reason success code) in
    now ← c_now;
    r ← c_exec (revoke_statement tenantID taskID refID purpose now);
    match r return ST CWorld (res ()) with
    | Err e => ignore (audit false "revoke_failed") ;; mret (Err e)
    | Ok n =>
      if n =? 0 then ignore (audit false "not_found") ;; mret (Err ErrExecutionInputRefNotFound)
      else audit true ""
    end.

(** [DELETE FROM execution_input_refs WHERE expires_at < NOW() AND revoked_at IS NULL]. *)
Definition reapExpiredInputRefs : ST CWorld () :=
  now ← c_now;
  ignore (c_exec (λ _ t, (Ok tt, t {{ execution_input_refs ::=
    filter (λ p, negb (default false ((λ e, e <? now) <$> iw_expires_at p.2) &&
                       negb (bool_decide (is_Some (iw_revoked_at p.2)))) = true) }}))).
End StoreTables.
