(* ===== verification/Artifacts.v ===== *)
(** * Execution artifacts in the database

    coordinator/checkpoint_store.go and execution_context.go: what is read off a
    runtime's signed envelope and receipt, the audit rows, the execution context
    and the lineage row written from them, and the replay of the audit rows.

    An anonymous Go struct is decoded into [fieldsJSON]: its fields by their JSON
    name, zero when absent. *)

From S2P Require Import Prelude GoStrings Json Float64 GoTime Ext WalCodec Checkpoint Types.
From S2P Require Import Capability Governance.
From S2P Require Import Store ProofState Receipts InputRefs CoordState.
Open Scope Z_scope.

(** ** Anonymous structs *)

Record fieldsJSON := mkFields {
  fs_str : gmap string string;
  fs_int : gmap string Z;
  fs_bool : gmap string bool;
  fs_obj : gmap string (list (string * jnode)); (* non-nil maps *)
}.
#[export] Instance set_fs_str : Setter fs_str := _.
#[export] Instance set_fs_int : Setter fs_int := _.
#[export] Instance set_fs_bool : Setter fs_bool := _.
#[export] Instance set_fs_obj : Setter fs_obj := _.

Definition fields_zero : fieldsJSON := mkFields ∅ ∅ ∅ ∅.
Definition get_str (f : fieldsJSON) (k : string) : string := default "" (fs_str f !! k).
Definition get_int (f : fieldsJSON) (k : string) : Z := default 0 (fs_int f !! k).
Definition get_bool (f : fieldsJSON) (k : string) : bool := default false (fs_bool f !! k).

Definition str_field (k : string) : string * dec fieldsJSON :=
  (k, field (λ f, get_str f k) (λ x f, f {{ fs_str ::= <[k := x]> }}) dec_string).
(** A [*string] read through: nil is the empty string. *)
Definition ptr_field (k : string) : string * dec fieldsJSON :=
  (k, field (λ f, get_str f k) (λ x f, f {{ fs_str ::= <[k := x]> }})
        (λ n old, match n.2 with JNull => ("", true) | _ => dec_string n old end)).
Definition int_field (k : string) : string * dec fieldsJSON :=
  (k, field (λ f, get_int f k) (λ x f, f {{ fs_int ::= <[k := x]> }}) (dec_int 64)).
Definition bool_field (k : string) : string * dec fieldsJSON :=
  (k, field (λ f, get_bool f k) (λ x f, f {{ fs_bool ::= <[k := x]> }}) dec_bool).
(** A [map[string]any]: decoding adds to the map that is there. *)
Definition obj_field (k : string) : string * dec fieldsJSON :=
  (k, λ n f, match n.2 with
             | JObj l => (f {{ fs_obj ::= <[k := default [] (fs_obj f !! k) ++ l]> }}, numbers_fit (JObj l))
             | JNull => (f {{ fs_obj ::= delete k }}, true)
             | _ => (f, false)
             end).

(** [json.Unmarshal(raw, &s)]; [None] is an error. *)
Definition struct_of (fields : list (string * dec fieldsJSON)) (raw : string) : option fieldsJSON :=
  let '(f, ok) := unmarshal (dec_struct fields) raw fields_zero in if ok then Some f else None.

(** [if x == "" { x = y }]. *)
Definition or_else (x y : string) : string := if nonempty x then x else y.

Definition receipt_fields : list (string * dec fieldsJSON) :=
  [str_field "execution_id"; str_field "receipt_hash"; str_field "hash"; str_field "signature";
   bool_field "violation_occurred"].

Definition receipt_hash_of (receipt : fieldsJSON) : string :=
  or_else (get_str receipt "receipt_hash") (get_str receipt "hash").

(** ** Governed robotics receipts *)

Record roboticsArtifactRefs := mkRoboticsRefs {
  ra_ExecutionID : string;
  ra_TenantID : string;
  ra_PolicyDecisionID : string;
  ra_PolicyDecisionHash : string;
  ra_GovernedActionHash : string;
  ra_RobotAction : string;
  ra_RoutingDecision : string;
  ra_ReceiptHash : string;
  ra_ReceiptSignature : string;
  ra_EnvelopeSignature : string;
  ra_ViolationOccurred : bool;
  ra_Violation : string;
}.

Definition robotActionFromRoutingDecision (routingDecision : string) : string :=
  if HasPrefix routingDecision "ros2:" then TrimSpace (TrimPrefix routingDecision "ros2:") else "".

Definition roboticsRoutingDecisionAuditable (routingDecision : string) : bool :=
  HasPrefix routingDecision "ros2:" || HasPrefix routingDecision "runtime:robotics:".

Definition robotics_envelope_fields : list (string * dec fieldsJSON) :=
  [str_field "execution_id"; ptr_field "tenant_id"; str_field "policy_decision_id";
   str_field "policy_decision_hash"; str_field "governed_action_hash"; str_field "routing_decision";
   str_field "signature"; str_field "violation"].

Definition roboticsAuditRefs (executionEnvelope executionReceipt : string) : option roboticsArtifactRefs :=
  if negb (nonempty executionEnvelope) || negb (nonempty executionReceipt) then None
  else
    envelope ← struct_of robotics_envelope_fields executionEnvelope;
    if negb (nonempty (get_str envelope "policy_decision_id")) || negb (nonempty (get_str envelope "execution_id"))
    then None
    else if negb (roboticsRoutingDecisionAuditable (get_str envelope "routing_decision")) then None
    else
      receipt ← struct_of receipt_fields executionReceipt;
      if nonempty (get_str receipt "execution_id") &&
         negb (bool_decide (get_str receipt "execution_id" = get_str envelope "execution_id")) then None
      else Some (mkRoboticsRefs (get_str envelope "execution_id") (get_str envelope "tenant_id")
        (get_str envelope "policy_decision_id") (get_str envelope "policy_decision_hash")
        (get_str envelope "governed_action_hash")
        (robotActionFromRoutingDecision (get_str envelope "routing_decision"))
        (get_str envelope "routing_decision") (receipt_hash_of receipt) (get_str receipt "signature")
        (get_str envelope "signature")
        (get_bool receipt "violation_occurred" || nonempty (get_str envelope "violation"))
        (get_str envelope "violation")).

(** ** Tool receipts *)

Record aiToolArtifactRefs := mkToolRefs {
  ta_ExecutionID : string;
  ta_TenantID : string;
  ta_EnvelopeID : string;
  ta_Capability : string;
  ta_ToolName : string;
  ta_ToolActionHash : string;
  ta_RoutingDecision : string;
  ta_RequestHash : string;
  ta_ResponseHash : string;
  ta_ReceiptHash : string;
  ta_ReceiptSignature : string;
  ta_EnvelopeSignature : string;
  ta_ViolationOccurred : bool;
  ta_Violation : string;
}.

Definition aiToolRoutingDecisionAuditable (routingDecision : string) : bool :=
  HasPrefix routingDecision "tool:" || HasPrefix routingDecision "runtime:tool:".

Definition aiToolNameFromRoutingDecision (routingDecision : string) : string :=
  if HasPrefix routingDecision "tool:" then TrimSpace (TrimPrefix routingDecision "tool:")
  else if HasPrefix routingDecision "runtime:tool:" then TrimSpace (TrimPrefix routingDecision "runtime:tool:")
  else "".

Definition capabilityFromToolName (toolName : string) : string :=
  let toolName := TrimSpace (ToLower toolName) in
  if negb (nonempty toolName) then ""
  else if HasPrefix toolName "tools." then toolName else "tools." +:+ toolName.

Definition tool_envelope_fields : list (string * dec fieldsJSON) :=
  [str_field "execution_id"; ptr_field "tenant_id"; str_field "model"; str_field "policy_decision_id";
   str_field "policy_decision_hash"; str_field "governed_action_hash"; str_field "routing_decision";
   str_field "request_hash"; str_field "response_hash"; str_field "signature"; str_field "violation"].

Definition aiToolAuditRefs (executionEnvelope executionReceipt : string) : option aiToolArtifactRefs :=
  if negb (nonempty executionEnvelope) then None
  else
    envelope ← struct_of tool_envelope_fields executionEnvelope;
    if negb (nonempty (get_str envelope "execution_id")) ||
       negb (aiToolRoutingDecisionAuditable (get_str envelope "routing_decision")) then None
    else
      receipt ← (if nonempty executionReceipt then struct_of receipt_fields executionReceipt else Some fields_zero);
      if nonempty (get_str receipt "execution_id") &&
         negb (bool_decide (get_str receipt "execution_id" = get_str envelope "execution_id")) then None
      else
        let toolName := or_else (aiToolNameFromRoutingDecision (get_str envelope "routing_decision"))
                          (get_str envelope "model") in
        Some (mkToolRefs (get_str envelope "execution_id") (get_str envelope "tenant_id")
          (get_str envelope "policy_decision_id") (capabilityFromToolName toolName) toolName
          (get_str envelope "governed_action_hash") (get_str envelope "routing_decision")
          (get_str envelope "request_hash") (get_str envelope "response_hash") (receipt_hash_of receipt)
          (get_str receipt "signature") (get_str envelope "signature")
          (get_bool receipt "violation_occurred" || nonempty (get_str envelope "violation"))
          (get_str envelope "violation")).

(** ** Execution context *)

Record ExecutionContextRecord := mkContextRecord {
  ec_ExecutionID : string;
  ec_TenantID : string;
  ec_TaskID : option uuid;
  ec_RuntimeID : string;
  ec_RuntimeLabel : string;
  ec_Provider : string;
  ec_RouteDecision : string;
  ec_ExecutionPath : string;
  ec_FallbackUsed : bool;
  ec_FallbackReason : string;
  ec_PolicySnapshot : string;
  ec_CapabilitySnapshot : string;
  ec_Events : string;
  ec_Logs : string;
  ec_VerificationStatus : string;
  ec_ReceiptID : string;
  ec_ReceiptHash : string;
}.

Record executionContextArtifactRefs := mkContextRefs {
  xr_ExecutionID : string;
  xr_TenantID : string;
  xr_RuntimeID : string;
  xr_Provider : string;
  xr_RouteDecision : string;
  xr_ExecutionPath : string;
  xr_PolicySnapshot : string;
  xr_VerificationStatus : string;
  xr_ReceiptHash : string;
}.

Definition providerFromRouteDecision (routeDecision : string) : string :=
  let normalized := ToLower (TrimSpace routeDecision) in
  if HasPrefix normalized "tool:" || HasPrefix normalized "runtime:tool:" then "tool"
  else if HasPrefix normalized "ros2:" || HasPrefix normalized "runtime:robotics:" then "robotics"
  else if Contains normalized "openai" then "openai"
  else if Contains normalized "anthropic" then "anthropic"
  else if Contains normalized "runtime" then "runtime" else "".

Definition executionPathFromRouteDecision (routeDecision : string) (runtimeBacked : bool) : string :=
  let normalized := ToLower (TrimSpace routeDecision) in
  if HasPrefix normalized "tool:" || HasPrefix normalized "runtime:tool:" then "runtime_tool"
  else if HasPrefix normalized "ros2:" || HasPrefix normalized "runtime:robotics:" then "runtime_robotics"
  else if runtimeBacked || Contains normalized "runtime" then "runtime_task"
  else if nonempty normalized then "direct_provider" else "".

Definition proofStatusFromReceiptHash (receiptHash : string) : string :=
  if nonempty (TrimSpace receiptHash) then "present" else "".

Definition ensureJSONArray (raw : string) : string :=
  if negb (nonempty raw) || bool_decide (raw = "null") then "[]" else raw.

Fixpoint firstNonEmptyJSON (values : list string) : string :=
  match values with
  | [] => ""
  | v :: values =>
    if negb (nonempty v) || bool_decide (v = "null") || bool_decide (v = "{}") then firstNonEmptyJSON values else v
  end.

Definition context_envelope_fields : list (string * dec fieldsJSON) :=
  [str_field "execution_id"; ptr_field "tenant_id"; str_field "runtime_id"; str_field "provider"; str_field "model";
   str_field "routing_decision"; obj_field "bounds_applied"; str_field "policy_decision_id";
   str_field "policy_decision_hash"; str_field "governed_action_hash"; str_field "violation";
   str_field "finish_reason"].
Definition context_receipt_fields : list (string * dec fieldsJSON) :=
  [str_field "execution_id"; str_field "receipt_hash"; str_field "hash"; str_field "runtime_id"].

Definition snapshot_member (envelope : fieldsJSON) (k : string) : list (string * string) :=
  if nonempty (get_str envelope k) then [(k, str_text (get_str envelope k))] else [].

Section Context.
Context `{Ext}.

(** [json.Marshal(policySnapshot)], empty when nothing is recorded. *)
Definition policy_snapshot (envelope : fieldsJSON) : string :=
  let bounds := match fs_obj envelope !! "bounds_applied" with
                | Some ((_ :: _) as l) => [("bounds_applied", any_text (JObj l))]
                | _ => []
                end in
  let members := bounds ++ snapshot_member envelope "policy_decision_id" ++
    snapshot_member envelope "policy_decision_hash" ++ snapshot_member envelope "governed_action_hash" ++
    snapshot_member envelope "violation" in
  if bool_decide (members = []) then "" else any_map_text members.

Definition executionContextRefsFromArtifacts (executionEnvelope executionReceipt : string)
    : option executionContextArtifactRefs :=
  if negb (nonempty executionEnvelope) then None
  else
    envelope ← struct_of context_envelope_fields executionEnvelope;
    if negb (nonempty (get_str envelope "execution_id")) then None
    else
      receipt ← (if nonempty executionReceipt && negb (bool_decide (executionReceipt = "null")) &&
                    negb (bool_decide (executionReceipt = "{}"))
                 then struct_of context_receipt_fields executionReceipt else Some fields_zero);
      let receiptRuntime := TrimSpace (get_str receipt "runtime_id") in
      let envelopeRuntime := TrimSpace (get_str envelope "runtime_id") in
      if nonempty receiptRuntime && nonempty envelopeRuntime && negb (bool_decide (receiptRuntime = envelopeRuntime))
      then None
      else
        let route := get_str envelope "routing_decision" in
        let receiptHash := firstNonEmpty [get_str receipt "receipt_hash"; get_str receipt "hash"] in
        Some (mkContextRefs
          (firstNonEmpty [get_str receipt "execution_id"; get_str envelope "execution_id"])
          (get_str envelope "tenant_id")
          (firstNonEmpty [get_str receipt "runtime_id"; get_str envelope "runtime_id"])
          (firstNonEmpty [get_str envelope "provider"; providerFromRouteDecision route; get_str envelope "model"])
          route (executionPathFromRouteDecision route true) (policy_snapshot envelope)
          (proofStatusFromReceiptHash receiptHash) receiptHash).

(** The row [loadExecutionContextTaskSource] reads, with the task's latest
    permission envelope. *)
Record executionContextTaskSource := mkTaskSource {
  so_row : task_row;
  so_PermissionEnvelope : string;
}.

Definition later_envelope (x y : permission_row) : permission_row :=
  if pa_persisted_at x <? pa_persisted_at y then y else x.

Definition loadExecutionContextTaskSource (taskID : uuid) : tstmt executionContextTaskSource := λ db t,
  (match task_records db !! taskID with
   | None => Err ErrNoRows
   | Some row =>
     Ok (mkTaskSource row
           match filter (λ x, pa_task_id x = taskID) (ai_task_permission_audit t) with
           | [] => "{}"
           | x :: l => pa_envelope (foldl later_envelope x l)
           end)
   end, t).

(** Timestamp, kind and message of an event. *)
Definition event : Type := time * string * string.

Definition context_events (source : executionContextTaskSource) (refs : executionContextArtifactRefs) : list event :=
  let row := so_row source in
  let created := r_created_at row in
  let runtimeID := default "" (r_runtime_id row) in
  let failureReason := default "" (r_failure_reason row) in
  [(created, "task_created", "Task accepted by Overture")]
  ++ match r_dispatched_at row with
     | Some at_ => [(at_, "task_dispatched",
                     if nonempty runtimeID then "Task dispatched to runtime " +:+ runtimeID
                     else "Task dispatched to runtime")]
     | None => []
     end
  ++ (if nonempty (xr_RouteDecision refs)
      then [(default created (r_dispatched_at row), "route_decision",
             "Runtime route decision recorded: " +:+ xr_RouteDecision refs)] else [])
  ++ (if negb (bool_decide (so_PermissionEnvelope source = "{}"))
      then [(created, "capability_envelope", "Capability permission envelope recorded")] else [])
  ++ (if nonempty (xr_ReceiptHash refs)
      then [(default created (r_completed_at row), "receipt_recorded", "Execution receipt recorded")] else [])
  ++ match r_completed_at row with
     | Some at_ => [(at_, "task_completed", "Runtime reported task completion")] | None => [] end
  ++ match r_canceled_at row with Some at_ => [(at_, "task_canceled", "Task was canceled")] | None => [] end
  ++ (if nonempty failureReason
      then [(default created (r_completed_at row), "task_failed", "Task failed: " +:+ failureReason)] else []).

Definition event_text (e : event) : string :=
  let '(at_, kind, message) := e in
  any_map_text [("timestamp", str_text (format_RFC3339 at_)); ("kind", str_text kind); ("message", str_text message)].
Definition event_log (e : event) : string :=
  let '(at_, kind, message) := e in format_RFC3339 at_ +:+ " " +:+ kind +:+ ": " +:+ message.

Definition buildTaskExecutionEventPayloads (source : executionContextTaskSource)
    (refs : executionContextArtifactRefs) : string * string :=
  let events := context_events source refs in
  (ensureJSONArray (arr_text (event_text <$> events)), ensureJSONArray (string_list_text (event_log <$> events))).

(** [json.Marshal] of a slice that is nil when it is empty.  A stored envelope
    always has its capabilities and decisions, and omits an empty list of
    credential references. *)
Definition slice_text (l : list string) : string := if bool_decide (l = []) then "null" else arr_text l.

Definition capabilitySnapshotFromPermissionEnvelope (raw : string) : string :=
  if negb (nonempty raw) || bool_decide (raw = "{}") || bool_decide (raw = "null") then ""
  else
    let '(e, ok) := unmarshal (dec_struct TaskPermissionEnvelope_fields) raw TaskPermissionEnvelope_zero in
    if negb ok then ""
    else
      let permits := Z.of_nat (length (filter (λ d, cd_Permit d = true) (pe_Decisions e))) in
      let denies := Z.of_nat (length (filter (λ d, cd_Permit d = false) (pe_Decisions e))) in
      any_map_text [("envelope_id", str_text (pe_EnvelopeID e));
        ("required_capabilities", string_list_text (pe_RequiredCapabilities e));
        ("decisions", arr_text (CapabilityDecision_text <$> pe_Decisions e));
        ("credential_refs", slice_text (CredentialReference_text <$> pe_CredentialRefs e));
        ("permission_signed", bool_text (nonempty (pe_Signature e)));
        ("issued_at_unix_ms", num_text (pe_IssuedAtUnixMs e));
        ("expires_at_unix_ms", num_text (pe_ExpiresAtUnixMs e));
        ("granted_capability_count", num_text permits);
        ("denied_capability_count", num_text denies)].

Definition build_context (taskID : uuid) (refs : executionContextArtifactRefs)
    (source : executionContextTaskSource) : ExecutionContextRecord :=
  let row := so_row source in
  let runtimeID := firstNonEmpty [xr_RuntimeID refs; default "" (r_runtime_id row)] in
  let '(events, logs) := buildTaskExecutionEventPayloads source refs in
  mkContextRecord (xr_ExecutionID refs) (firstNonEmpty [xr_TenantID refs; r_tenant_id row]) (Some taskID) runtimeID
    (default "" (r_runtime_endpoint row)) (xr_Provider refs) (xr_RouteDecision refs)
    (firstNonEmpty [xr_ExecutionPath refs;
                    executionPathFromRouteDecision (xr_RouteDecision refs) (nonempty runtimeID)])
    false "" (xr_PolicySnapshot refs)
    (firstNonEmptyJSON [""; capabilitySnapshotFromPermissionEnvelope (so_PermissionEnvelope source)])
    events logs (firstNonEmpty [default "" (r_proof_status row); xr_VerificationStatus refs]) "" (xr_ReceiptHash refs).
End Context.

(** ** Writing *)

Definition ErrExecutionLineageMissingTenant : goerror := Sentinel "execution lineage record missing tenant_id".
Definition ErrExecutionContextMissingTenant : goerror := Sentinel "execution context record missing tenant_id".
Definition ErrExecutionContextTenantMismatch : goerror := Sentinel "execution context tenant mismatch".

(** Whether a JSON text is a non-empty array; [None] when it is no array. *)
Definition array_nonempty (text : string) : option bool :=
  match json_parse text with Some (_, JArr l) => Some (negb (bool_decide (length l = 0%nat))) | _ => None end.

Section Writing.
Context `{Ext} `{CheckpointCodec} `{UUIDSupply}.

Definition robot_receipt_row_of (refs : roboticsArtifactRefs) (tr : task_row) (decision : option policy_audit_row)
    (envelope receipt : string) (now : time) : robot_receipt_row :=
  mkRobotReceipt (r_task_id tr) (or_else (ra_TenantID refs) (r_tenant_id tr)) (r_runtime_id tr)
    (ra_ExecutionID refs) (ra_PolicyDecisionID refs) (nullif_empty (ra_PolicyDecisionHash refs))
    (nullif_empty (ra_GovernedActionHash refs))
    (default (default "unknown" (pd_robot_action <$> decision)) (nullif_empty (ra_RobotAction refs)))
    (ra_RoutingDecision refs) (nullif_empty (ra_ReceiptHash refs)) (nullif_empty (ra_ReceiptSignature refs))
    (nullif_empty (ra_EnvelopeSignature refs)) (ra_ViolationOccurred refs) (nullif_empty (ra_Violation refs))
    (jsonb_text envelope) (jsonb_text receipt) now.

Definition robot_receipt_key (x y : robot_receipt_row) : bool :=
  bool_decide (rr_task_id x = rr_task_id y) && bool_decide (rr_execution_id x = rr_execution_id y) &&
  bool_decide (rr_policy_decision_id x = rr_policy_decision_id y).

Definition merge_robot_receipt (old new : robot_receipt_row) : robot_receipt_row :=
  mkRobotReceipt (rr_task_id old) (rr_tenant_id old) (rr_runtime_id old) (rr_execution_id old)
    (rr_policy_decision_id old) (rr_policy_decision_hash old) (rr_governed_action_hash old)
    (rr_robot_action old) (rr_routing_decision old) (rr_receipt_hash new) (rr_receipt_signature new)
    (rr_envelope_signature new) (rr_violation_occurred new) (rr_violation new)
    (rr_execution_envelope new) (rr_execution_receipt new) (rr_persisted_at new).

(** [INSERT ... SELECT FROM task_records tr LEFT JOIN robotics_policy_decision_audit]:
    nothing is inserted for a task that is not there. *)
Definition insert_robot_receipt (taskID : uuid) (refs : roboticsArtifactRefs) (envelope receipt : string) (now : time)
    : tstmt () := λ db t,
  match task_records db !! taskID with
  | Some tr =>
    let decision := head (filter (λ pd, pd_task_id pd = taskID ∧ pd_policy_decision_id pd = ra_PolicyDecisionID refs)
                            (robotics_policy_decision_audit t)) in
    let row := robot_receipt_row_of refs tr decision envelope receipt now in
    (Ok tt, t {{ robotics_receipt_audit ::= upsert (λ x, robot_receipt_key x row) merge_robot_receipt row }})
  | None => (Ok tt, t)
  end.

Definition saveRoboticsReceiptAudit (taskID : uuid) (envelope receipt : string) (now : time) : list (tstmt ()) :=
  match roboticsAuditRefs envelope receipt with
  | None => []
  | Some refs => [insert_robot_receipt taskID refs envelope receipt now]
  end.

(** A revoked credential reference of the envelope for this capability or tool. *)
Definition revoked_reference (refs : aiToolArtifactRefs) (x : credential_row) : bool :=
  bool_decide (ca_envelope_id x = ta_EnvelopeID refs) && bool_decide (is_Some (ca_revoked_at x)) &&
  (negb (nonempty (ta_Capability refs)) || bool_decide (ref_Capability (ca_ref x) = ta_Capability refs) ||
   (bool_decide (ref_Tool (ca_ref x) = ta_ToolName refs) && nonempty (ref_Tool (ca_ref x)))).

Definition later_revoked (x y : credential_row) : credential_row :=
  if default 0 (ca_revoked_at x) <? default 0 (ca_revoked_at y) then y else x.

Definition ensureAIToolCredentialRefsActive (refs : aiToolArtifactRefs) : tstmt () := λ _ t,
  (match filter (λ x, revoked_reference refs x = true) (ai_credential_ref_audit t) with
   | [] => Ok tt
   | x :: l => Err (Wrapf "" ErrCredentialReferenceRevoked (": " +:+ ref_ReferenceID (ca_ref (foldl later_revoked x l))))
   end, t).

Definition tool_receipt_row_of (refs : aiToolArtifactRefs) (tr : task_row) (envelope receipt : string) (now : time)
    : tool_receipt_row :=
  mkToolReceipt (r_task_id tr) (or_else (ta_TenantID refs) (r_tenant_id tr)) (r_runtime_id tr)
    (ta_ExecutionID refs) (nullif_empty (ta_EnvelopeID refs)) (nullif_empty (ta_Capability refs))
    (ta_ToolName refs) (nullif_empty (ta_ToolActionHash refs)) (ta_RoutingDecision refs)
    (nullif_empty (ta_RequestHash refs)) (nullif_empty (ta_ResponseHash refs)) (nullif_empty (ta_ReceiptHash refs))
    (nullif_empty (ta_ReceiptSignature refs)) (nullif_empty (ta_EnvelopeSignature refs))
    (ta_ViolationOccurred refs) (nullif_empty (ta_Violation refs)) (jsonb_text envelope)
    (jsonb_text <$> nullif_empty receipt) now.

Definition merge_tool_receipt (old new : tool_receipt_row) : tool_receipt_row :=
  mkToolReceipt (tr_task_id old) (tr_tenant_id old) (tr_runtime_id old) (tr_execution_id old) (tr_envelope_id old)
    (tr_capability old) (tr_tool_name old) (tr_tool_action_hash old) (tr_routing_decision old)
    (tr_request_hash old) (tr_response_hash old) (tr_receipt_hash new) (tr_receipt_signature new)
    (tr_envelope_signature new) (tr_violation_occurred new) (tr_violation new) (tr_execution_envelope new)
    (tr_execution_receipt new) (tr_persisted_at new).

Definition insert_tool_receipt (taskID : uuid) (refs : aiToolArtifactRefs) (envelope receipt : string) (now : time)
    : tstmt () := λ db t,
  match task_records db !! taskID with
  | Some tr =>
    let row := tool_receipt_row_of refs tr envelope receipt now in
    (Ok tt, t {{ ai_tool_receipt_audit ::=
       upsert (λ x, bool_decide (tr_task_id x = tr_task_id row) && bool_decide (tr_execution_id x = tr_execution_id row))
         merge_tool_receipt row }})
  | None => (Ok tt, t)
  end.

Definition saveAIToolReceiptAudit (taskID : uuid) (envelope receipt : string) (now : time) : list (tstmt ()) :=
  match aiToolAuditRefs envelope receipt with
  | None => []
  | Some refs =>
    (if nonempty (ta_EnvelopeID refs) then [ensureAIToolCredentialRefsActive refs] else [])
    ++ [insert_tool_receipt taskID refs envelope receipt now]
  end.

Definition merge_context (old new : context_row) (events logs : bool) : context_row :=
  mkContextRow (xc_execution_id old) (xc_tenant_id new) (coalesce (xc_task_id new) (xc_task_id old))
    (coalesce (xc_runtime_id new) (xc_runtime_id old)) (coalesce (xc_runtime_label new) (xc_runtime_label old))
    (coalesce (xc_provider new) (xc_provider old)) (coalesce (xc_route_decision new) (xc_route_decision old))
    (coalesce (xc_execution_path new) (xc_execution_path old)) (xc_fallback_used old || xc_fallback_used new)
    (coalesce (xc_fallback_reason new) (xc_fallback_reason old))
    (coalesce (xc_policy_snapshot new) (xc_policy_snapshot old))
    (coalesce (xc_capability_snapshot new) (xc_capability_snapshot old))
    (if events then xc_events new else xc_events old) (if logs then xc_logs new else xc_logs old)
    (coalesce (xc_verification_status new) (xc_verification_status old))
    (coalesce (xc_receipt_id new) (xc_receipt_id old)) (coalesce (xc_receipt_hash new) (xc_receipt_hash old))
    (xc_created_at old) (xc_updated_at new).

Definition context_row_of (record : ExecutionContextRecord) (now : time) : context_row :=
  mkContextRow (ec_ExecutionID record) (TrimSpace (ec_TenantID record)) (ec_TaskID record)
    (nullif_empty (ec_RuntimeID record)) (nullif_empty (ec_RuntimeLabel record)) (nullif_empty (ec_Provider record))
    (nullif_empty (ec_RouteDecision record)) (nullif_empty (ec_ExecutionPath record)) (ec_FallbackUsed record)
    (nullif_empty (ec_FallbackReason record)) (jsonb_text <$> nullif_empty (ec_PolicySnapshot record))
    (jsonb_text <$> nullif_empty (ec_CapabilitySnapshot record)) (jsonb_text (ensureJSONArray (ec_Events record)))
    (jsonb_text (ensureJSONArray (ec_Logs record))) (nullif_empty (ec_VerificationStatus record))
    (nullif_empty (ec_ReceiptID record)) (nullif_empty (ec_ReceiptHash record)) now now.

(** Rows affected: none when the row in conflict belongs to another tenant. *)
Definition upsert_context (row : context_row) : tstmt Z := λ _ t,
  match head (filter (λ x, xc_execution_id x = xc_execution_id row) (execution_context t)) with
  | None => (Ok 1, t {{ execution_context ::= λ l, l ++ [row] }})
  | Some old =>
    if negb (bool_decide (xc_tenant_id old = xc_tenant_id row)) then (Ok 0, t)
    else match array_nonempty (xc_events row), array_nonempty (xc_logs row) with
    | Some events, Some logs =>
      (Ok 1, t {{ execution_context ::= upsert (λ x, bool_decide (xc_execution_id x = xc_execution_id row))
                    (λ old new, merge_context old new events logs) row }})
    | _, _ => (Err (Errorf "pq: cannot get array length of a non-array"), t)
    end
  end.

(** [saveExecutionContext] on either handle: [run] executes a statement. *)
Definition saveExecutionContext {A} (record : option ExecutionContextRecord) (now : time)
    (run : tstmt Z → ST CWorld (res (Z * A))) (unchanged : A) : ST CWorld (res A) :=
  match record with
  | None => mret (Ok unchanged)
  | Some record =>
    if negb (nonempty (TrimSpace (ec_ExecutionID record))) then mret (Ok unchanged)
    else if negb (nonempty (TrimSpace (ec_TenantID record))) then mret (Err ErrExecutionContextMissingTenant)
    else
      '(rowsAffected, a) ←? run (upsert_context (context_row_of record now));
      if rowsAffected =? 0 then mret (Err ErrExecutionContextTenantMismatch) else mret (Ok a)
  end.

Definition SaveExecutionContext (record : option ExecutionContextRecord) : ST CWorld (res ()) :=
  now ← c_now;
  saveExecutionContext record now (λ q, r ← c_exec q; mret (match r with Ok n => Ok (n, tt) | Err e => Err e end)) tt.

(** The artifact columns, the audit rows and the execution context, in one
    transaction. *)
Definition SaveExecutionArtifacts (taskID : uuid) (envelope receipt : string) : ST CWorld (res ()) :=
  '(db, t) ←? ctx_begin;
  now ← c_now;
  '(_, db) ←? on_store (tx_exec (save_artifacts taskID envelope receipt) db);
  t ←? ctx_all (saveRoboticsReceiptAudit taskID envelope receipt now ++
                saveAIToolReceiptAudit taskID envelope receipt now) db t;
  record ←? match executionContextRefsFromArtifacts envelope receipt return ST CWorld (res (option ExecutionContextRecord)) with
            | None => mret (Ok None)
            | Some refs =>
              '(source, _) ←? ctx_exec (loadExecutionContextTaskSource taskID) db t;
              mret (Ok (Some (build_context taskID refs source)))
            end;
  t ←? saveExecutionContext record now (λ q, ctx_exec q db t) t;
  ctx_commit db t.
End Writing.

(** ** Lineage *)

Definition lineage_receipt_fields : list (string * dec fieldsJSON) :=
  [str_field "execution_id"; str_field "transaction_id"; str_field "transaction_hash"; str_field "agent_id";
   str_field "runtime_id"; int_field "cpu_time_ms"; int_field "wall_time_ms"; int_field "memory_peak_mb";
   int_field "fs_bytes_written"; int_field "tool_calls"; bool_field "violation_occurred"; str_field "receipt_hash";
   str_field "hash"; str_field "previous_hash"; str_field "signature"; str_field "timestamp_utc"; str_field "violation"].

(** The fields of an [ExecutionLineageRecord], in its order. *)
Record ExecutionLineageRecord := mkLineageRecord {
  el_ExecutionID : string;
  el_TransactionID : string;
  el_TransactionHash : string;
  el_AgentID : string;
  el_CPUTimeMs : Z;
  el_WallTimeMs : Z;
  el_MemoryPeakMB : Z;
  el_FSBytesWritten : Z;
  el_ToolCalls : Z;
  el_ViolationOccurred : bool;
  el_ReceiptHash : string;
  el_PreviousHash : string;
  el_Signature : string;
  el_RuntimeID : string;
  el_TenantID : string;
  el_TimestampUTC : time;
  el_Status : string;
  el_PromptPreview : string;
  el_ViolationDetails : string;
}.

(** [strings.ToUpper]; letters beyond ASCII, which only reach the status column,
    are left alone. *)
Definition to_upper_ascii (a : ascii) : ascii := if in_range 97 122 (zb a) then bz (zb a - 32) else a.
Fixpoint ToUpper (s : string) : string :=
  match s with "" => "" | String a s => String (to_upper_ascii a) (ToUpper s) end.

Definition normalizeExecutionLineageStatus (status : string) (violationOccurred : bool) : string :=
  let normalized := ToUpper (TrimSpace status) in
  if violationOccurred && bool_decide (normalized = "COMPLETED") then "VIOLATION"
  else if nonempty normalized then normalized
  else if violationOccurred then "VIOLATION" else "COMPLETED".

Section Lineage.
Context `{Ext} `{CheckpointCodec} `{UUIDSupply}.

Definition BuildExecutionLineageRecordFromReceipt (executionReceipt tenantID runtimeID status promptPreview : string)
    (now : time) : res (option ExecutionLineageRecord) :=
  if negb (nonempty executionReceipt) || bool_decide (executionReceipt = "null") ||
     bool_decide (executionReceipt = "{}") then Ok None
  else match struct_of lineage_receipt_fields executionReceipt with
  | None => Err (Errorf "json: cannot unmarshal")
  | Some receipt =>
    let receiptHash := firstNonEmpty [get_str receipt "receipt_hash"; get_str receipt "hash"] in
    if negb (nonempty (get_str receipt "execution_id")) then Ok None
    else if negb (nonempty receiptHash) then Ok None
    else
      let stamp := get_str receipt "timestamp_utc" in
      let timestamp := if nonempty (TrimSpace stamp) then default now (parse_RFC3339 stamp) else now in
      let violated := get_bool receipt "violation_occurred" in
      let violation := get_str receipt "violation" in
      Ok (Some (mkLineageRecord (get_str receipt "execution_id") (get_str receipt "transaction_id")
        (get_str receipt "transaction_hash") (firstNonEmpty [get_str receipt "agent_id"; tenantID])
        (get_int receipt "cpu_time_ms") (get_int receipt "wall_time_ms") (get_int receipt "memory_peak_mb")
        (get_int receipt "fs_bytes_written") (get_int receipt "tool_calls") violated receiptHash
        (get_str receipt "previous_hash") (get_str receipt "signature")
        (firstNonEmpty [get_str receipt "runtime_id"; runtimeID]) tenantID timestamp
        (normalizeExecutionLineageStatus status violated) promptPreview
        (if violated || nonempty (TrimSpace violation)
         then any_map_text [("violation_type", str_text (firstNonEmpty [violation; "violation_recorded"]))] else "")))
  end.

Definition lineage_row_of (record : ExecutionLineageRecord) (timestamp : time) : lineage_row :=
  mkLineage (nullif_empty (el_TenantID record)) (el_ExecutionID record) (Some (el_ReceiptHash record))
    (Some (el_Signature record)) (el_PreviousHash record) (el_TransactionID record) (el_TransactionHash record)
    (el_AgentID record) (el_CPUTimeMs record) (el_WallTimeMs record) (el_MemoryPeakMB record)
    (el_FSBytesWritten record) (el_ToolCalls record) (el_ViolationOccurred record)
    (nullif_empty (el_RuntimeID record)) timestamp (nullif_empty (el_Status record))
    (nullif_empty (el_PromptPreview record)) (jsonb_text <$> nullif_empty (el_ViolationDetails record)).

Definition SaveExecutionLineage (record : ExecutionLineageRecord) : ST World (res ()) :=
  if negb (nonempty (TrimSpace (el_ExecutionID record))) || negb (nonempty (TrimSpace (el_ReceiptHash record)))
  then mret (Ok tt)
  else if negb (nonempty (TrimSpace (el_TenantID record))) then mret (Err ErrExecutionLineageMissingTenant)
  else
    now ← time_now;
    let timestamp := if el_TimestampUTC record =? zero_time then now else el_TimestampUTC record in
    exec (upsert_lineage (lineage_row_of record timestamp) now).

Definition HasTaskProofSyncTrigger : ST World (res bool) := exec (λ db, (Ok (lineage_trigger db), db)).

(** ** Revoking credential references *)

Definition credential_selected (tenantID referenceID : string) (x : credential_row) : bool :=
  bool_decide (ca_tenant_id x = tenantID) && bool_decide (ref_ReferenceID (ca_ref x) = referenceID) &&
  ref_Revocable (ca_ref x).

Definition revoke_credential (now : time) (x : credential_row) : credential_row :=
  mkCredentialRow (ca_envelope_id x) (ca_task_id x) (ca_tenant_id x) (ca_ref x) (Some now) (ca_persisted_at x).

(** [UPDATE ... SET revoked_at = NOW() WHERE ... AND revoked_at IS NULL RETURNING]. *)
Definition revoke_credential_statement (tenantID referenceID : string) (now : time) : tstmt credential_row := λ _ t,
  let live x := credential_selected tenantID referenceID x && bool_decide (ca_revoked_at x = None) in
  match head (filter (λ x, live x = true) (ai_credential_ref_audit t)) with
  | None => (Err ErrNoRows, t)
  | Some x => (Ok (revoke_credential now x),
               t {{ ai_credential_ref_audit ::= fmap (λ x, if live x then revoke_credential now x else x) }})
  end.

Definition RevokeAICredentialReference (tenantID referenceID : string) : ST CWorld (res credential_row) :=
  now ← c_now;
  r ← c_exec (revoke_credential_statement tenantID referenceID now);
  match r return ST CWorld (res credential_row) with
  | Ok ref => mret (Ok ref)
  | Err e =>
    if negb (bool_decide (e = ErrNoRows)) then mret (Err e)
    else
      q ← c_exec (λ _ t, (match head (filter (λ x, credential_selected tenantID referenceID x = true)
                                   (ai_credential_ref_audit t)) with
                          | Some x => Ok (ca_revoked_at x)
                          | None => Err ErrNoRows
                          end, t));
      mret match q with
      | Ok (Some _) => Err (Wrapf "" ErrCredentialReferenceRevoked (": " +:+ referenceID))
      | Ok None => Err ErrNoRows
      | Err e => Err e
      end
  end.
End Lineage.

(** ** Replaying the tool audit *)

(** What replay computes of an audit row. *)
Record audit_replay := mkReplay {
  ar_RuntimeSignature : string;
  ar_RuntimeSignaturePresent : bool;
  ar_RuntimeSignatureVerified : bool;
  ar_KeySource : string;
  ar_ValidationErrors : list string;
}.
Definition ar_Valid (r : audit_replay) : bool := bool_decide (ar_ValidationErrors r = []).

(** [if cond { errors = append(errors, name) }]. *)
Definition check (cond : bool) (name : string) : list string := if cond then [name] else [].
Definition differs (x y : string) : bool := negb (bool_decide (x = y)).
(** A non-empty value that is not the recorded one. *)
Definition contradicts (x y : string) : bool := nonempty x && differs x y.

Definition replay_envelope_fields : list (string * dec fieldsJSON) :=
  [str_field "execution_id"; str_field "tenant_id"; str_field "policy_decision_id"; str_field "policy_decision_hash";
   str_field "governed_action_hash"; str_field "routing_decision"; str_field "signature"].
Definition tool_replay_envelope_fields : list (string * dec fieldsJSON) :=
  [str_field "execution_id"; str_field "tenant_id"; str_field "policy_decision_id"; str_field "governed_action_hash";
   str_field "routing_decision"; str_field "request_hash"; str_field "response_hash"; str_field "signature"].

Definition or_empty (x : option string) : string := default "" x.

(** The receipt half, common to both replays. *)
Definition replay_receipt_errors (receiptRaw executionID receiptHash : string) (violated : bool) : list string :=
  match struct_of receipt_fields receiptRaw with
  | None => ["execution_receipt_invalid_json"]
  | Some receipt =>
    check (contradicts (get_str receipt "execution_id") executionID) "receipt_execution_id_mismatch"
    ++ check (contradicts (receipt_hash_of receipt) receiptHash) "receipt_hash_mismatch"
    ++ check (negb (nonempty (get_str receipt "signature"))) "runtime_receipt_signature_missing"
    ++ check (negb (Bool.eqb (get_bool receipt "violation_occurred") violated)) "violation_flag_mismatch"
  end.

Section Replay.
Context `{Ext} `{SortSlice}.

(** Which key the signatures are checked with, and the outcome. *)
Definition replay_key_source (publicKey : string) : string :=
  if nonempty (TrimSpace publicKey) then "runtime_registry"
  else if nonempty (TrimSpace (EnvOrLegacy "OVERTURE_RUNTIME_PUBLIC_KEY" "IGRIS_RUNTIME_PUBLIC_KEY"))
  then "env_fallback" else "".

Definition replay_verify (publicKey envelopeRaw receiptRaw : string) : res () :=
  if bool_decide (replay_key_source publicKey = "runtime_registry")
  then VerifyExecutionArtifactsRawWithPublicKey envelopeRaw receiptRaw publicKey
  else VerifyExecutionArtifactsRaw envelopeRaw receiptRaw.

Definition signature_errors (r : res ()) : list string :=
  match r with Ok _ => [] | Err e => ["runtime_signature_invalid: " +:+ error_text e] end.

Definition validateAIToolAuditReplay (row : tool_receipt_row) (publicKey : string) : audit_replay :=
  let receiptRaw := default "{}" (tr_execution_receipt row) in
  let envelope := struct_of tool_replay_envelope_fields (tr_execution_envelope row) in
  let envelopeErrors :=
    match envelope with
    | None => ["execution_envelope_invalid_json"]
    | Some e =>
      check (differs (get_str e "execution_id") (tr_execution_id row)) "execution_id_mismatch"
      ++ check (contradicts (get_str e "tenant_id") (tr_tenant_id row)) "tenant_id_mismatch"
      ++ check (contradicts (get_str e "policy_decision_id") (or_empty (tr_envelope_id row)))
           "permission_envelope_id_mismatch"
      ++ check (contradicts (get_str e "governed_action_hash") (or_empty (tr_tool_action_hash row)))
           "tool_action_hash_mismatch"
      ++ check (differs (get_str e "routing_decision") (tr_routing_decision row)) "routing_decision_mismatch"
      ++ check (contradicts (get_str e "request_hash") (or_empty (tr_request_hash row))) "request_hash_mismatch"
      ++ check (contradicts (get_str e "response_hash") (or_empty (tr_response_hash row))) "response_hash_mismatch"
      ++ check (negb (nonempty (get_str e "signature"))) "runtime_envelope_signature_missing"
    end in
  let signature := match envelope with Some e => get_str e "signature" | None => "" end in
  let receiptErrors :=
    if nonempty receiptRaw && negb (bool_decide (receiptRaw = "{}"))
    then replay_receipt_errors receiptRaw (tr_execution_id row) (or_empty (tr_receipt_hash row)) (tr_violation_occurred row)
    else [] in
  let present := nonempty signature && nonempty (or_empty (tr_receipt_signature row)) in
  let source := replay_key_source publicKey in
  let verify := replay_verify publicKey (tr_execution_envelope row) receiptRaw in
  mkReplay signature present (is_ok verify && present && nonempty source) source
    (envelopeErrors ++ receiptErrors ++ signature_errors verify).

Record AIToolAuditReceiptFilter := mkToolFilter {
  tf_TaskID : option uuid;
  tf_EnvelopeID : string;
  tf_Capability : string;
  tf_ToolName : string;
  tf_Limit : Z;
}.

Definition audit_limit (limit : Z) : nat := Z.to_nat (if (limit <=? 0) || (500 <? limit) then 100 else limit).

Definition tool_selected (tenantID : string) (f : AIToolAuditReceiptFilter) (x : tool_receipt_row) : bool :=
  bool_decide (tr_tenant_id x = tenantID) &&
  match tf_TaskID f with Some id => bool_decide (tr_task_id x = id) | None => true end &&
  (negb (nonempty (tf_EnvelopeID f)) || bool_decide (tr_envelope_id x = Some (tf_EnvelopeID f))) &&
  (negb (nonempty (tf_Capability f)) || bool_decide (tr_capability x = Some (tf_Capability f))) &&
  (negb (nonempty (tf_ToolName f)) || bool_decide (tr_tool_name x = tf_ToolName f)).

(** The public key registered for the row's runtime. *)
Definition registered_key (t : Tables) (runtimeID : option string) : string :=
  match runtimeID with
  | None => ""
  | Some id => match head (filter (λ ri, ri_runtime_id ri = id) (runtime_instances t)) with
               | Some ri => or_empty (ri_public_key_ed25519 ri)
               | None => ""
               end
  end.

Definition GetAIToolAuditReceipts (tenantID : string) (f : AIToolAuditReceiptFilter)
    : ST CWorld (res (list tool_receipt_row)) :=
  c_exec (λ _ t, (Ok (take (audit_limit (tf_Limit f)) (reverse (sort_slice tr_persisted_at
    (filter (λ x, tool_selected tenantID f x = true) (ai_tool_receipt_audit t))))), t)).

Definition ReplayAIToolAudit (tenantID : string) (f : AIToolAuditReceiptFilter)
    : ST CWorld (res (list (tool_receipt_row * audit_replay))) :=
  c_exec (λ _ t, (Ok ((λ x, (x, validateAIToolAuditReplay x (registered_key t (tr_runtime_id x)))) <$>
    take (audit_limit (tf_Limit f)) (reverse (sort_slice tr_persisted_at
      (filter (λ x, tool_selected tenantID f x = true) (ai_tool_receipt_audit t))))), t)).
End Replay.
