(* ===== verification/Robotics.v ===== *)
(** * Governed robotics actions

    coordinator/task_coordinator.go: every robotics action of a task definition
    gets a policy decision, signed with the control plane's key, before the task
    is dispatched; the tenant's policy permits nothing by default.  The decisions
    and the receipts of the actions are audited (checkpoint_store.go) and can be
    replayed. *)

From S2P Require Import Prelude GoStrings Json Float64 Ext WalCodec Checkpoint Types Capability.
From S2P Require Import Governance.
From S2P Require Import Store ProofState Receipts InputRefs CoordState Artifacts.
Open Scope Z_scope.

Record governedAction := mkAction {
  ga_SchemaVersion : string;
  ga_Domain : string;
  ga_ActionType : string;
  ga_ActionName : string;
  ga_NodeID : string;
  ga_StepIndex : Z;
  ga_Target : option string;
  ga_RequiresPolicy : bool;
  ga_SafetyModeRequired : bool;
}.

Record signedGovernedPolicyDecision := mkSigned {
  sg_SchemaVersion : string;
  sg_DecisionID : string;
  sg_TenantID : string;
  sg_TaskID : string;
  sg_RuntimeID : option string;
  sg_Action : governedAction;
  sg_Permit : bool;
  sg_Reason : string;
  sg_PolicyVersion : string;
  sg_RuntimePermitted : bool;
  sg_TenantPermitted : bool;
  sg_PolicyPermitted : bool;
  sg_RobotModePermitted : bool;
  sg_IssuedAtUnixMs : Z;
  sg_ExpiresAtUnixMs : Z;
  sg_SignerKeyVersion : option string;
  sg_Signature : string;
}.
#[export] Instance set_sg_Signature : Setter sg_Signature := _.

Record roboticsPolicyEvaluation := mkRoboticsEvaluation {
  re_PolicyVersion : string;
  re_Permit : bool;
  re_Reason : string;
  re_RuntimePermitted : bool;
  re_TenantPermitted : bool;
  re_PolicyPermitted : bool;
  re_RobotModePermitted : bool;
  re_ExpiresAt : option time;
}.

(** ** The tenant's policy *)

Definition ExpiresAtUnixMs (p : roboticsPolicyEvaluation) (now : Z) : Z :=
  match re_ExpiresAt p with Some t => UnixMilli t | None => wrap_int64 (now + 30000) end.

Definition runtimeListed (runtimeID : option string) (raw : string) : bool :=
  match runtimeID with
  | None => false
  | Some id =>
    if negb (nonempty (TrimSpace id)) then false
    else
      let trimmed := TrimSpace raw in
      if negb (nonempty trimmed) || bool_decide (trimmed = "[]") || bool_decide (trimmed = "null") then false
      else
        let '(runtimes, ok) := unmarshal (dec_list "" dec_string) trimmed [] in
        ok && existsb (λ candidate, bool_decide (candidate = "*") || bool_decide (candidate = id)) runtimes
  end.

Definition denied_evaluation : roboticsPolicyEvaluation :=
  mkRoboticsEvaluation "robotics-policy.missing" false "default deny: no active robotics policy"
    false false false false None.

Definition evaluate_row (task : TaskRecord) (row : robotics_policy_row) : roboticsPolicyEvaluation :=
  let runtimeAllowed := rp_runtime_permitted row && runtimeListed (t_RuntimeID task) (rp_allowed_runtimes row) in
  let tenantPermitted := nonempty (t_TenantID task) in
  let policyPermitted := rp_permit row in
  let mode := ToLower (TrimSpace (rp_robot_mode row)) in
  let robotModePermitted := bool_decide (mode = "supervised") || bool_decide (mode = "active") in
  let finalPermit := runtimeAllowed && tenantPermitted && policyPermitted && robotModePermitted in
  mkRoboticsEvaluation (if nonempty (rp_policy_version row) then rp_policy_version row else "robotics-policy.db")
    finalPermit (if finalPermit then "permitted" else "default deny: robotics policy prerequisites are incomplete")
    runtimeAllowed tenantPermitted policyPermitted robotModePermitted (rp_expires_at row).

Definition policy_applies (tenantID : string) (now : time) (row : robotics_policy_row) : bool :=
  bool_decide (rp_tenant_id row = tenantID) && rp_active row && bool_decide (rp_status row = "active") &&
  match rp_expires_at row with None => true | Some e => now <? e end.

Definition newer_policy (x y : robotics_policy_row) : robotics_policy_row :=
  if rp_updated_at x <? rp_updated_at y then y else x.

(** [ORDER BY updated_at DESC LIMIT 1]. *)
Definition select_robotics_policy (tenantID : string) (now : time) : tstmt robotics_policy_row := λ _ t,
  (match filter (λ row, policy_applies tenantID now row = true) (robotics_policy_settings t) with
   | [] => Err ErrNoRows
   | row :: rows => Ok (foldl newer_policy row rows)
   end, t).

(** ** Actions *)

Section Actions.
Context `{Ext}.

Record velocity := mkVelocity { ve_LinearX : string; ve_AngularZ : string }.
Record goal := mkGoal { go_X : string; go_Y : string; go_FrameID : string }.

(** Go sees a [float64] as the literal it was read from; its zero value prints "0". *)
Definition velocity_fields : list (string * dec velocity) :=
  [("linear_x", field ve_LinearX (λ x '(mkVelocity _ b), mkVelocity x b) dec_float);
   ("angular_z", field ve_AngularZ (λ x '(mkVelocity a _), mkVelocity a x) dec_float)].
Definition goal_fields : list (string * dec goal) :=
  [("x", field go_X (λ x '(mkGoal _ b c), mkGoal x b c) dec_float);
   ("y", field go_Y (λ x '(mkGoal a _ c), mkGoal a x c) dec_float);
   ("frame_id", field go_FrameID (λ x '(mkGoal a b _), mkGoal a b x) dec_string)].

Definition rawStringField (raw : option (gmap string string)) (key : string) : string :=
  (unmarshal_string (raw_index raw key)).1.

Definition mustRaw (raw fallback : string) : string := if nonempty raw then raw else fallback.

Definition mustRawMap (raw : option (gmap string string)) : string :=
  match raw with Some m => map_text (compact <$> m) | None => "null" end.

Definition truncateRunes (value : string) (max : nat) : string :=
  let rs := runes value in
  if (length rs <=? max)%nat then value else concat_strings ((λ p, encode_rune p.1) <$> take max rs).

Definition roboticsActionTargetFromRaw (actionName : string) (raw : option (gmap string string)) : option string :=
  if bool_decide (actionName = "navigate_to_pose") then
    let '(g, ok) := unmarshal (dec_struct goal_fields) (mustRaw (raw_index raw "goal") "{}") (mkGoal "0" "0" "") in
    if ok then Some (format_v (float64_of (go_X g)) +:+ "," +:+ format_v (float64_of (go_Y g)) +:+ "," +:+
                     (if nonempty (go_FrameID g) then go_FrameID g else "map"))
    else None
  else if bool_decide (actionName = "publish_prompt") then Some (truncateRunes (rawStringField raw "prompt") 120)
  else if bool_decide (actionName = "publish_velocity") then
    let v := (unmarshal (dec_struct velocity_fields) (mustRawMap raw) (mkVelocity "0" "0")).1 in
    Some (format_f3 (float64_of (ve_LinearX v)) +:+ "," +:+ format_f3 (float64_of (ve_AngularZ v)))
  else None.

(** [fallbackStepIndex] is [uint32(idx)]. *)
Definition governedActionFromRawStep (step : option (gmap string string)) (fallbackStepIndex : Z) : governedAction :=
  let stepIndex := match raw_get step "step_index" with
                   | Some raw => let '(parsed, ok) := unmarshal (dec_uint 32) raw 0 in
                                 if ok then parsed else fallbackStepIndex
                   | None => fallbackStepIndex
                   end in
  let nodeID := match raw_get step "node_id" with
                | Some raw => let '(parsed, ok) := unmarshal_string raw in
                              if ok && nonempty parsed then parsed else "robotics-step-" +:+ itoa stepIndex
                | None => "robotics-step-" +:+ itoa stepIndex
                end in
  let actionName := rawStringField step "action" in
  mkAction "governed_action.v1" "robotics" "ros2_action" actionName nodeID stepIndex
    (roboticsActionTargetFromRaw actionName step) true true.

Definition uint32_index (idx : nat) : Z := Z.of_nat idx mod 2 ^ 32.

Definition extractGovernedRoboticsSteps (raw : string) : list governedAction :=
  let '(steps, ok) := unmarshal dec_rawmaps raw [] in
  if ok then imap (λ idx step, governedActionFromRawStep step (uint32_index idx)) steps else [].

Definition robotics_node (idx : nat) (raw : string) : option governedAction :=
  match unmarshal_rawmap raw with
  | None => None
  | Some node =>
    if bool_decide (rawStringField node "kind" = "robotics")
    then Some (governedActionFromRawStep node (uint32_index idx)) else None
  end.

Definition extractGovernedRoboticsNodes (nodes : list string) : list governedAction :=
  omap id (imap robotics_node nodes).

Definition extractGovernedRoboticsActions (taskTypeBytes : string) : list governedAction :=
  match unmarshal_rawmap taskTypeBytes with
  | None => []
  | Some taskType =>
    let kind := rawStringField taskType "type" in
    if bool_decide (kind = "robotics_workflow") then extractGovernedRoboticsSteps (raw_index taskType "steps")
    else if bool_decide (kind = "execution_graph") then
      let '(nodes, ok) := unmarshal (dec_struct [("nodes", dec_list "" dec_raw)]) (raw_index taskType "graph") [] in
      if ok then extractGovernedRoboticsNodes nodes else []
    else []
  end.

(** ** Signed decisions *)

Definition canonicalGovernedAction (a : governedAction) : list (string * string) :=
  [("action_name", str_text (ga_ActionName a)); ("action_type", str_text (ga_ActionType a));
   ("domain", str_text (ga_Domain a)); ("node_id", str_text (ga_NodeID a));
   ("requires_policy", bool_text (ga_RequiresPolicy a)); ("safety_mode_required", bool_text (ga_SafetyModeRequired a));
   ("schema_version", str_text (ga_SchemaVersion a)); ("step_index", num_text (ga_StepIndex a))]
  ++ opt_member "target" (str_text <$> ga_Target a).

Definition canonicalGovernedPolicyDecision (d : signedGovernedPolicyDecision) : list (string * string) :=
  [("action", any_map_text (canonicalGovernedAction (sg_Action d))); ("decision_id", str_text (sg_DecisionID d));
   ("expires_at_unix_ms", num_text (sg_ExpiresAtUnixMs d)); ("issued_at_unix_ms", num_text (sg_IssuedAtUnixMs d));
   ("permit", bool_text (sg_Permit d)); ("policy_permitted", bool_text (sg_PolicyPermitted d));
   ("policy_version", str_text (sg_PolicyVersion d)); ("reason", str_text (sg_Reason d));
   ("robot_mode_permitted", bool_text (sg_RobotModePermitted d)); ("runtime_permitted", bool_text (sg_RuntimePermitted d));
   ("schema_version", str_text (sg_SchemaVersion d)); ("task_id", str_text (sg_TaskID d));
   ("tenant_id", str_text (sg_TenantID d)); ("tenant_permitted", bool_text (sg_TenantPermitted d))]
  ++ opt_member "runtime_id" (str_text <$> sg_RuntimeID d)
  ++ opt_member "signer_key_version" (str_text <$> sg_SignerKeyVersion d).

Definition decision_digest (d : signedGovernedPolicyDecision) : string :=
  sha256 (any_map_text (canonicalGovernedPolicyDecision d)).

Definition signGovernedPolicyDecision (d : signedGovernedPolicyDecision) (signingKey : string) : string :=
  b64_encode (ed25519_Sign signingKey (decision_digest d)).

Definition governedPolicyDecisionHash (d : signedGovernedPolicyDecision) : string := hex_encode (decision_digest d).

Definition signed_decision (task : TaskRecord) (policy : roboticsPolicyEvaluation) (now : Z) (signingKey : string)
    (id : uuid) (action : governedAction) : signedGovernedPolicyDecision :=
  let keyVersion := TrimSpace (EnvOrLegacy "OVERTURE_SIGNING_KEY_VERSION" "IGRIS_OVERTURE_SIGNING_KEY_VERSION") in
  let d := mkSigned "governed_policy_decision.v1" (uuid_String id) (t_TenantID task) (uuid_String (t_TaskID task))
    (t_RuntimeID task) action (re_Permit policy) (re_Reason policy) (re_PolicyVersion policy)
    (re_RuntimePermitted policy) (re_TenantPermitted policy) (re_PolicyPermitted policy)
    (re_RobotModePermitted policy) now (ExpiresAtUnixMs policy now)
    (if nonempty keyVersion then Some keyVersion else None) "" in
  d {{ sg_Signature := signGovernedPolicyDecision d signingKey }}.

Context `{CheckpointCodec} `{UUIDSupply} `{SortSlice}.

Definition evaluateRoboticsPolicy (task : TaskRecord) : ST CWorld roboticsPolicyEvaluation :=
  now ← c_now;
  r ← c_exec (select_robotics_policy (t_TenantID task) now);
  mret match r with Ok row => evaluate_row task row | Err _ => denied_evaluation end.

Definition buildSignedGovernedPolicyDecisions (task : TaskRecord) (taskTypeBytes : string)
    : ST CWorld (list signedGovernedPolicyDecision) :=
  match loadOvertureSigningKey with
  | None => mret []
  | Some signingKey =>
    match extractGovernedRoboticsActions taskTypeBytes with
    | [] => mret []
    | actions =>
      now ← c_now;
      policy ← evaluateRoboticsPolicy task;
      with_uuids (λ fresh,
        (imap (λ i action, signed_decision task policy (UnixMilli now) signingKey (fresh i) action) actions,
         length actions))
    end
  end.

(** [json.Marshal] of a decision. *)
Definition governedAction_text (a : governedAction) : string :=
  obj_text ([("schema_version", str_text (ga_SchemaVersion a)); ("domain", str_text (ga_Domain a));
             ("action_type", str_text (ga_ActionType a)); ("action_name", str_text (ga_ActionName a));
             ("node_id", str_text (ga_NodeID a)); ("step_index", num_text (ga_StepIndex a))]
    ++ opt_member "target" (str_text <$> ga_Target a)
    ++ [("requires_policy", bool_text (ga_RequiresPolicy a));
        ("safety_mode_required", bool_text (ga_SafetyModeRequired a))]).

Definition decision_text (d : signedGovernedPolicyDecision) : string :=
  obj_text ([("schema_version", str_text (sg_SchemaVersion d)); ("decision_id", str_text (sg_DecisionID d));
             ("tenant_id", str_text (sg_TenantID d)); ("task_id", str_text (sg_TaskID d))]
    ++ opt_member "runtime_id" (str_text <$> sg_RuntimeID d)
    ++ [("action", governedAction_text (sg_Action d)); ("permit", bool_text (sg_Permit d));
        ("reason", str_text (sg_Reason d)); ("policy_version", str_text (sg_PolicyVersion d));
        ("runtime_permitted", bool_text (sg_RuntimePermitted d)); ("tenant_permitted", bool_text (sg_TenantPermitted d));
        ("policy_permitted", bool_text (sg_PolicyPermitted d));
        ("robot_mode_permitted", bool_text (sg_RobotModePermitted d));
        ("issued_at_unix_ms", num_text (sg_IssuedAtUnixMs d)); ("expires_at_unix_ms", num_text (sg_ExpiresAtUnixMs d))]
    ++ opt_member "signer_key_version" (str_text <$> sg_SignerKeyVersion d)
    ++ [("signature", str_text (sg_Signature d))]).

Definition policy_audit_row_of (taskID : uuid) (d : signedGovernedPolicyDecision) (now : time) : policy_audit_row :=
  mkPolicyAudit (sg_DecisionID d) taskID (sg_TenantID d) (nullif_empty (default "" (sg_RuntimeID d)))
    (sg_PolicyVersion d) (ga_ActionName (sg_Action d)) (ga_NodeID (sg_Action d))
    (nullif_empty (default "" (ga_Target (sg_Action d)))) (sg_Permit d) (sg_Reason d)
    (governedPolicyDecisionHash d) (sg_Signature d) (jsonb_text (decision_text d)) (sg_IssuedAtUnixMs d)
    (sg_ExpiresAtUnixMs d) now.

Definition merge_policy_audit (old new : policy_audit_row) : policy_audit_row :=
  mkPolicyAudit (pd_policy_decision_id old) (pd_task_id old) (pd_tenant_id old) (pd_runtime_id new)
    (pd_policy_version new) (pd_robot_action new) (pd_robot_node_id new) (pd_robot_target new) (pd_permit new)
    (pd_reason new) (pd_policy_decision_hash new) (pd_policy_signature new) (pd_signed_policy_decision new)
    (pd_issued_at_unix_ms new) (pd_expires_at_unix_ms new) (pd_persisted_at new).

Definition upsert_policy_audit (taskID : uuid) (now : time) (d : signedGovernedPolicyDecision) : tstmt () := λ _ t,
  (Ok tt, t {{ robotics_policy_decision_audit ::=
     upsert (λ x, bool_decide (pd_policy_decision_id x = sg_DecisionID d)) merge_policy_audit
       (policy_audit_row_of taskID d now) }}).

Definition audited (d : signedGovernedPolicyDecision) : bool :=
  nonempty (sg_DecisionID d) && nonempty (ga_ActionName (sg_Action d)).

Definition SaveRoboticsPolicyDecisions (taskID : uuid) (decisions : list signedGovernedPolicyDecision)
    : ST CWorld (res ()) :=
  if bool_decide (length decisions = 0%nat) then mret (Ok tt)
  else
    '(db, t) ←? ctx_begin;
    now ← c_now;
    t ←? ctx_all (upsert_policy_audit taskID now <$> filter (λ d, audited d = true) decisions) db t;
    ctx_commit db t.
End Actions.
