(* ===== verification/Coordinator.v ===== *)
(** * The task coordinator

    coordinator/task_coordinator.go and task_approval.go: submission, human
    approval, the runtime callbacks, recovery of failed runtimes, the deadline
    reaper, runtime selection, the effect journal, the dispatch queue and the
    dead-letter queue.  Each handler is the whole Go function, with every store
    call in its order and every early return; [_ = op()] is [ignore].

    Handlers end by starting a goroutine ([spawn]); its body is
    [dispatchToRuntime].  The dispatch semaphore bounds nothing (a saturated
    one only changes the log line), so [dispatchAsync] is [spawn]. *)

From S2P Require Import Prelude GoStrings Json Ext WalCodec Checkpoint Types Capability Governance.
From S2P Require Import TaskDef Store ProofState InputRefs CoordState.
Open Scope Z_scope.

#[export] Instance set_t_AttemptCount : Setter t_AttemptCount := _.
#[export] Instance set_t_HasIrreversibleEffect : Setter t_HasIrreversibleEffect := _.

(** ** Configuration *)

Record ExecutionConfig := mkConfig {
  HeartbeatTimeout : Z;
  RecoveryInterval : Z;
  CheckpointInterval : Z;
  DispatchConcurrency : Z;
  MaxRecoveryAttempts : Z;
  DeadlineReaperInterval : Z;
  InputRefTTL : Z;
}.

Definition defaultHeartbeatTimeout : Z := 90 * Second.
Definition defaultRecoveryInterval : Z := 15 * Second.
Definition defaultCheckpointInterval : Z := 5.
Definition defaultDispatchConcurrency : Z := 32.
Definition defaultMaxRecoveryAttempts : Z := 10.

Definition defaultExecutionConfig : ExecutionConfig :=
  mkConfig defaultHeartbeatTimeout defaultRecoveryInterval defaultCheckpointInterval
    defaultDispatchConcurrency defaultMaxRecoveryAttempts (30 * Second) (24 * Hour).

Definition or_default (value default_ : Z) : Z := if 0 <? value then value else default_.

Definition heartbeatTimeoutOrDefault (c : ExecutionConfig) : Z :=
  or_default (HeartbeatTimeout c) defaultHeartbeatTimeout.
Definition recoveryIntervalOrDefault (c : ExecutionConfig) : Z :=
  or_default (RecoveryInterval c) defaultRecoveryInterval.
Definition checkpointIntervalOrDefault (c : ExecutionConfig) : Z :=
  or_default (CheckpointInterval c) defaultCheckpointInterval.
Definition dispatchConcurrencyOrDefault (c : ExecutionConfig) : Z :=
  or_default (DispatchConcurrency c) defaultDispatchConcurrency.
Definition maxRecoveryAttemptsOrDefault (c : ExecutionConfig) : Z :=
  or_default (MaxRecoveryAttempts c) defaultMaxRecoveryAttempts.

(** The whole seconds of the heartbeat timeout, 90 when there are none. *)
Definition heartbeat_seconds (c : ExecutionConfig) : Z :=
  let hbSec := Z.quot (heartbeatTimeoutOrDefault c) Second in if hbSec <=? 0 then 90 else hbSec.

(** ** Small helpers *)

Definition ErrTaskIdempotencyConflict : goerror := Sentinel "idempotency key reused with a different request".
Definition ErrTaskNotAwaitingApproval : goerror := Sentinel "task is not awaiting approval".
Definition ErrNoRuntimeForApproval : goerror := Sentinel "no runtime available to dispatch approved task".
Definition TaskFailureReasonApprovalRejected : string := "action run rejected by approver".

Definition overtureTaskFailureDetails (operation rejectionType message : string) : option TaskFailureDetails :=
  Some (TaskFailureDetails_zero {{ fd_Source := "overture"; fd_Operation := operation;
          fd_RejectionType := rejectionType; fd_Message := message }}).

Definition checkpointDigest (cp : option CheckpointPayload) : string :=
  match cp with None => "" | Some c => CheckpointDigest (cp_ResumeToken c) end.

Definition checkpointLastCommittedStep (cp : option CheckpointPayload) : option Z :=
  LastStep <$> cp.

Definition mapBoolDecision (allowed : bool) : string := if allowed then "allowed" else "denied".

Definition taskRuntimeID (task : option TaskRecord) : string := default "" (task ≫= t_RuntimeID).

Definition taskActionName (task : option TaskRecord) : string :=
  match task with
  | None => "unknown"
  | Some t =>
    if bool_decide (t_TaskDefinition t = "") then "unknown"
    else match unmarshal_rawmap (t_TaskDefinition t) with
    | None => "unknown"
    | Some def =>
      let ty := (unmarshal_string (raw_index def "type")).1 in if nonempty ty then ty else "unknown"
    end
  end.

Record TaskSubmitRequest := mkSubmitRequest {
  sr_TaskID : uuid;
  sr_TenantID : string;
  sr_TaskType : string;
  sr_TaskDefinition : string;
  sr_AgentIdentity : option AgentIdentity;
  sr_RequiredCapabilities : list string;
  sr_CredentialRequests : list CredentialRequest;
  sr_IdempotencyKey : string;
  sr_DeadlineAt : option time;
  sr_PreferredRuntimeID : string;
  sr_RegisteredAgentID : option uuid;
  sr_RegisteredAgentName : string;
  sr_BoundAction : option BoundActionRunIdentity;
}.

Record runtimeInfo := mkRuntimeInfo {
  rt_RuntimeID : string;
  rt_Endpoint : string;
}.

Record effectNodeInfo := mkEffectNode {
  en_NodeID : string;
  en_EffectClass : string;
}.

(** The effect nodes of a definition's graph, those without an id or an effect
    left out. *)
Definition effect_node (raw : string) : option effectNodeInfo :=
  node ← unmarshal_rawmap raw;
  rawID ← raw_get node "node_id";
  let nodeID := (unmarshal_string rawID).1 in
  if negb (nonempty nodeID) then None
  else
    let ec := nodeEffectClass raw in
    if nonempty ec then Some (mkEffectNode nodeID ec)
    else if containsIrreversibleActionToken (ToLower raw) then Some (mkEffectNode nodeID "irreversible")
    else None.

Definition extractEffectNodes (definition : string) : list effectNodeInfo :=
  let '(nodes, ok) := raw_nodes definition in if ok then omap effect_node nodes else [].

(** [BTRIM(s) <> '']: something other than blanks. *)
Fixpoint btrim_nonempty (s : string) : bool :=
  match s with
  | "" => false
  | String a s' => negb (bool_decide (a = " "%char)) || btrim_nonempty s'
  end.

Section Coordinator.
Context `{Ext} `{CheckpointCodec} `{UUIDSupply} `{MapRange} `{AEAD} `{SortSlice}.
Context (execCfg : ExecutionConfig).

(** ** Selecting a runtime *)

(** [COUNT( * )] of the tasks the runtime has in flight. *)
Definition active_count (runtimeID : string) (db : DB) : Z :=
  Z.of_nat (length (filter (λ r, r_runtime_id r = Some runtimeID ∧
                                 status_in [TaskStatusDispatched; TaskStatusCheckpointed] r = true)
                      ((map_to_list (task_records db)).*2))).

Definition runtime_eligible (tenantID preferredRuntimeID : string) (now hbSec : Z) (ri : runtime_row) : bool :=
  bool_decide (ri_tenant_id ri = tenantID) && ri_is_healthy ri && bool_decide (ri_status ri = "active") &&
  default false (btrim_nonempty <$> ri_endpoint ri) &&
  default false ((λ hb, now - hbSec * Second <? hb) <$> ri_last_heartbeat ri) &&
  (negb (nonempty preferredRuntimeID) || bool_decide (ri_runtime_id ri = preferredRuntimeID)).

(** Eligible runtimes, least busy first, ten at most. *)
Definition candidate_runtimes (tenantID preferredRuntimeID : string) (now : time) : tstmt (list runtime_row) :=
  λ db t, (Ok (take 10 (sort_slice (λ ri, active_count (ri_runtime_id ri) db)
             (filter (λ ri, runtime_eligible tenantID preferredRuntimeID now (heartbeat_seconds execCfg) ri = true)
                (runtime_instances t)))), t).

(** The first runtime with a routable endpoint. *)
Fixpoint first_routable (rows : list runtime_row) : option runtimeInfo :=
  match rows with
  | [] => None
  | ri :: rows =>
    match NormalizeHTTPRuntimeEndpoint (default "" (ri_endpoint ri)) with
    | Ok endpoint => Some (mkRuntimeInfo (ri_runtime_id ri) endpoint)
    | Err _ => first_routable rows
    end
  end.

Definition selectRuntime (tenantID preferredRuntimeID : string) : ST CWorld (res runtimeInfo) :=
  let preferredRuntimeID := TrimSpace preferredRuntimeID in
  now ← c_now;
  rows ←? c_exec (candidate_runtimes tenantID preferredRuntimeID now);
  mret match first_routable rows with
  | Some r => Ok r
  | None =>
    Err (Errorf (if nonempty preferredRuntimeID
                 then "no routable runtime " +:+ preferredRuntimeID +:+ " for tenant " +:+ tenantID
                 else "no routable runtime for tenant " +:+ tenantID))
  end.

Definition normalizeTaskRuntimeEndpoint (task : option TaskRecord) : res string :=
  match task ≫= t_RuntimeEndpoint with
  | None => Err ErrInvalidRuntimeEndpoint
  | Some endpoint => NormalizeHTTPRuntimeEndpoint endpoint
  end.

(** ** Journal, queues *)

(** [INSERT ... ON CONFLICT (tenant_id, task_id) DO NOTHING]. *)
Definition enqueueDispatchQueue (tenantID : string) (taskID : uuid) : ST CWorld (res ()) :=
  now ← c_now;
  c_exec (λ db t,
    if existsb (λ q, bool_decide (dq_tenant_id q = tenantID) && bool_decide (dq_task_id q = taskID))
         (task_dispatch_queue t) then (Ok tt, t)
    else if bool_decide (is_Some (task_records db !! taskID))
    then (Ok tt, t {{ task_dispatch_queue ::= λ l, l ++ [mkQueue tenantID taskID "queued" now None] }})
    else (Err constraint_error, t)).

(** The oldest queued task of the tenant, then marked dispatched. *)
Definition dequeueDispatchQueue (tenantID : string) : ST CWorld (option uuid) :=
  r ← c_exec (λ _ t,
        (match head (sort_slice dq_created_at (filter (λ q, dq_tenant_id q = tenantID ∧ dq_status q = "queued")
                       (task_dispatch_queue t))) with
         | Some q => Ok (dq_task_id q)
         | None => Err ErrNoRows
         end, t));
  match r return ST CWorld (option uuid) with
  | Err _ => mret None
  | Ok taskID =>
    now ← c_now;
    ignore (c_exec (λ _ t, (Ok tt, t {{ task_dispatch_queue ::= fmap (λ q,
      if bool_decide (dq_tenant_id q = tenantID) && bool_decide (dq_task_id q = taskID)
      then mkQueue tenantID taskID "dispatched" (dq_created_at q) (Some now) else q) }}))) ;;
    mret (Some taskID)
  end.

Definition journal_key (tenantID : string) (taskID : uuid) (nodeID : string) (j : journal_row) : bool :=
  bool_decide (ej_tenant_id j = tenantID) && bool_decide (ej_task_id j = taskID) &&
  bool_decide (ej_node_id j = nodeID).

Definition journal_pending (task : TaskRecord) (idx : nat) (n : effectNodeInfo) : tstmt () := λ db t,
  if existsb (journal_key (t_TenantID task) (t_TaskID task) (en_NodeID n)) (effect_journal t) then (Ok tt, t)
  else if bool_decide (is_Some (task_records db !! t_TaskID task))
  then (Ok tt, t {{ effect_journal ::= λ l, l ++
          [mkJournal (t_TenantID task) (t_TaskID task) (en_NodeID n) (Z.of_nat idx) (en_EffectClass n)
             "pending" None] }})
  else (Err constraint_error, t).

Fixpoint journal_nodes (task : TaskRecord) (idx : nat) (nodes : list effectNodeInfo) : ST CWorld () :=
  match nodes with
  | [] => mret tt
  | n :: nodes =>
    (if bool_decide (en_EffectClass n = "irreversible")
     then ignore (c_exec (journal_pending task idx n)) else mret tt) ;;
    journal_nodes task (S idx) nodes
  end.

Definition writeEffectJournalPending (task : TaskRecord) : ST CWorld () :=
  journal_nodes task 0 (extractEffectNodes (t_TaskDefinition task)).

Definition journal_of (task : TaskRecord) (status : string) (j : journal_row) : bool :=
  bool_decide (ej_tenant_id j = t_TenantID task) && bool_decide (ej_task_id j = t_TaskID task) &&
  bool_decide (ej_effect_class j = "irreversible") && bool_decide (ej_status j = status).

Definition markEffectJournalCommitted (task : TaskRecord) : ST CWorld () :=
  now ← c_now;
  ignore (c_exec (λ _ t, (Ok tt, t {{ effect_journal ::= fmap (λ j,
    if journal_of task "pending" j
    then mkJournal (ej_tenant_id j) (ej_task_id j) (ej_node_id j) (ej_step_index j) (ej_effect_class j)
           "committed" (Some now) else j) }}))).

Definition hasCommittedIrreversibleInJournal (task : TaskRecord) : ST CWorld bool :=
  r ← c_exec (λ _ t, (Ok (existsb (journal_of task "committed") (effect_journal t)), t));
  mret match r with Ok exists_ => exists_ | Err _ => false end.

(** [UPDATE ... SET attempt_count = COALESCE(attempt_count,0)+1 ... RETURNING]. *)
Definition bump_attempts (taskID : uuid) : stmt Z := λ db,
  match task_records db !! taskID with
  | None => (Err ErrNoRows, db)
  | Some r =>
    let n := default 0 (r_attempt_count r) + 1 in
    if int32_max <? n then (Err (Errorf "pq: integer out of range"), db)
    else (Ok n, db {{ task_records ::= <[taskID := r {{ r_attempt_count := Some n }}]> }})
  end.

(** The verdict and the task with its new attempt count. *)
Definition shouldEnqueueDLQ (task : TaskRecord) : ST CWorld (bool * TaskRecord) :=
  r ← on_store (exec (bump_attempts (t_TaskID task)));
  mret match r with
  | Err _ => (false, task)
  | Ok n => (maxRecoveryAttemptsOrDefault execCfg <? n, task {{ t_AttemptCount := n }})
  end.

Definition enqueueDLQ (task : TaskRecord) (reason : string) : ST CWorld (res ()) :=
  now ← c_now;
  c_exec (λ db t,
    if bool_decide (is_Some (task_records db !! t_TaskID task))
    then (Ok tt, t {{ execution_dlq ::=
            <[t_TaskID task := mkDLQ (default (t_TenantID task) (dl_tenant_id <$> execution_dlq t !! t_TaskID task))
                                 (t_AttemptCount task) reason now]> }})
    else (Err constraint_error, t)).

(** ** Submission *)

Definition evaluate_policy (input : actionPolicyInput) : ST CWorld ActionPolicyDecision :=
  id ← c_uuid; now ← c_now; mret (evaluateActionPolicy id now input).

Definition fail_task (taskID : uuid) (reason : string) (details : option TaskFailureDetails) : ST CWorld () :=
  ignore (on_store (MarkFailedWithDetails taskID reason details)).

(** What submission computes before it touches the database. *)
Record prepared := mkPrepared {
  p_definition : string; (* normalized, with the governance members, in clear *)
  p_governance : taskGovernance;
  p_task : TaskRecord; (* holds the protected definition *)
  p_refs : list ExecutionInputRef;
}.

(** [protectTaskDefinitionInputs], drawing from the stream of UUIDs. *)
Definition protect_inputs (definition tenantID : string) (taskID : uuid)
    : ST CWorld (option (res (string * list ExecutionInputRef))) := λ c,
  let n := w_next_uuid (c_world c) in
  match protectTaskDefinitionInputs definition tenantID taskID n with
  | None => (None, c)
  | Some (r, n') => (Some r, c {{ c_world ::= λ w, w {{ w_next_uuid := n' }} }})
  end.

Definition submit_governance (req : TaskSubmitRequest) (definition : string) : taskGovernance :=
  let g := normalizeTaskGovernance (sr_TenantID req) (sr_AgentIdentity req) (sr_RequiredCapabilities req)
             (sr_CredentialRequests req) in
  mkGovernance (g_AgentIdentity g)
    (normalizeCapabilityList (g_RequiredCapabilities g ++ deriveRequiredCapabilitiesFromTaskDefinition definition))
    (g_CredentialRequests g).

(** The common head of [Submit] and [SubmitDemoSimulatedFailure]; [None] is a panic. *)
Definition prepare (req : TaskSubmitRequest) : ST CWorld (option (res prepared)) :=
  match normalizePublicTaskDefinition (sr_TaskType req) (sr_TaskDefinition req) with
  | None => mret None
  | Some (Err e) => mret (Some (Err e))
  | Some (Ok definition) =>
    let governance := submit_governance req definition in
    match attachTaskGovernanceToDefinition definition governance with
    | None => mret None
    | Some definition =>
      fresh ← c_uuid;
      let taskID := if bool_decide (sr_TaskID req = uuid_Nil) then fresh else sr_TaskID req in
      let key := if nonempty (sr_IdempotencyKey req) then sr_IdempotencyKey req else uuid_String taskID in
      r ← protect_inputs definition (sr_TenantID req) taskID;
      match r return ST CWorld (option (res prepared)) with
      | None => mret None
      | Some (Err e) =>
        mret (Some (Err (Wrapf "" ErrExecutionInputProtectionUnavailable (": " +:+ error_text e))))
      | Some (Ok (stored, refs)) =>
        now ← c_now;
        mret (Some (Ok (mkPrepared definition governance
          (mkTask taskID (sr_TenantID req) TaskStatusPending None None stored None "" "" None
             (g_AgentIdentity governance) (g_RequiredCapabilities governance)
             (g_CredentialRequests governance) None key None None (sr_DeadlineAt req) None None None now 0
             false None None (sr_RegisteredAgentID req) (sr_RegisteredAgentName req) (sr_BoundAction req))
          refs)))
      end
    end
  end.

(** The task that already holds the idempotency key. *)
Definition existing_task (tenantID key : string) : ST CWorld (res TaskRecord) :=
  r ← on_store (GetTaskByIdempotencyKey tenantID key);
  mret match r with
  | Ok t => Ok t
  | Err e => if bool_decide (e = ErrNoRows) then Err (Errorf "idempotency key is already in use")
             else Err (Wrapf "lookup idempotent task: " e "")
  end.

(** Contract-bound requests also have to repeat the request they repeat. *)
Definition bound_conflict (req : TaskSubmitRequest) (key : string) : ST CWorld (res ()) :=
  match sr_BoundAction req with
  | None => mret (Ok tt)
  | Some bound =>
    r ← on_store (GetBoundActionRunByIdempotency (sr_TenantID req) key);
    mret match r with
    | Err e => if bool_decide (e = ErrNoRows) then Err ErrTaskIdempotencyConflict
               else Err (Wrapf "lookup contract-bound idempotency: " e "")
    | Ok existing =>
      if bool_decide (ba_RequestFingerprint existing = ba_RequestFingerprint bound) then Ok tt
      else Err ErrTaskIdempotencyConflict
    end
  end.

(** The part of [Submit] after the dispatch transition. *)
Definition submit_dispatched (p : prepared) (runtime : runtimeInfo) : ST CWorld (res TaskRecord) :=
  let taskID := t_TaskID (p_task p) in
  let task := (p_task p) {{ t_Status := TaskStatusDispatched; t_RuntimeID := Some (rt_RuntimeID runtime);
                          t_RuntimeEndpoint := Some (rt_Endpoint runtime) }} in
  ignore (enqueueDispatchQueue (t_TenantID task) taskID) ;;
  let irreversible := taskHasIrreversibleAction (p_definition p) in
  (if irreversible
   then ignore (on_store (exec (update_task taskID (λ _, true) (λ r, r {{ r_has_irreversible_effect := Some true }}))))
   else mret tt) ;;
  let task := if irreversible then task {{ t_HasIrreversibleEffect := true }} else task in
  let runtimeTask := task {{ t_TaskDefinition := p_definition p }} in
  e ← build_envelope task (p_governance p);
  match e return ST CWorld (res TaskRecord) with
  | Err e =>
    fail_task taskID "task capability policy denied"
      (overtureTaskFailureDetails "submit" "capability_policy_denied" (error_text e)) ;;
    mret (Err e)
  | Ok envelope =>
    let task := task {{ t_PermissionEnvelope := envelope }} in
    let runtimeTask := runtimeTask {{ t_PermissionEnvelope := envelope }} in
    s ← SaveTaskPermissionEnvelope taskID envelope;
    match s return ST CWorld (res TaskRecord) with
    | Err e =>
      fail_task taskID "task permission audit persistence failed"
        (overtureTaskFailureDetails "submit" "permission_audit_persistence_failed" (error_text e)) ;;
      mret (Err (Wrapf "persist task permission envelope: " e ""))
    | Ok _ => spawn (JDispatch runtimeTask None) ;; mret (Ok task)
    end
  end.

(** The part of [Submit] after the insertion. *)
Definition submit_inserted (req : TaskSubmitRequest) (p : prepared) : ST CWorld (res TaskRecord) :=
  let task := p_task p in
  let taskID := t_TaskID task in
  s ← selectRuntime (sr_TenantID req) (sr_PreferredRuntimeID req);
  match s return ST CWorld (res TaskRecord) with
  | Err e =>
    fail_task taskID "no healthy runtime available"
      (overtureTaskFailureDetails "submit" "no_runtime_available" "no healthy runtime available") ;;
    mret (Err (Wrapf "no healthy runtime: " e ""))
  | Ok runtime =>
    decision ← evaluate_policy (mkPolicyInput (t_TenantID task) taskID (rt_RuntimeID runtime)
                 (t_TaskDefinition task) (t_AgentIdentity task) (t_RequiredCapabilities task) None false);
    d ← on_store (SaveActionPolicyDecision decision);
    match d return ST CWorld (res TaskRecord) with
    | Err e =>
      fail_task taskID "action policy decision persistence failed"
        (overtureTaskFailureDetails "submit" "policy_decision_persistence_failed" (error_text e)) ;;
      mret (Err (Wrapf "persist action policy decision: " e ""))
    | Ok _ =>
      ignore (on_store (SetLatestPolicyDecision taskID decision)) ;;
      ignore (on_store (SaveExecutionBoundary decision (t_TaskDefinition task) (t_RequiredCapabilities task))) ;;
      if bool_decide (d_Decision decision = ActionDecisionDenied) then
        fail_task taskID (d_PolicyReason decision)
          (overtureTaskFailureDetails "submit" "action_policy_denied" (d_PolicyReason decision)) ;;
        mret (Err (Wrapf "" ErrTaskCapabilityDenied (": " +:+ d_PolicyReason decision)))
      else if bool_decide (d_Decision decision = ActionDecisionApprovalRequired) then
        ignore (on_store (SaveApprovalRequest decision)) ;;
        r ← on_store (MarkApprovalRequired taskID (d_PolicyReason decision));
        mret match r with
        | Err e => Err (Wrapf "mark approval required: " e "")
        | Ok _ => Ok (task {{ t_Status := TaskStatusApprovalRequired;
                              t_RuntimeID := Some (rt_RuntimeID runtime) }})
        end
      else
        r ← on_store (MarkDispatched taskID (rt_RuntimeID runtime) (rt_Endpoint runtime));
        match r return ST CWorld (res TaskRecord) with
        | Err e => mret (Err (Wrapf "mark dispatched: " e ""))
        | Ok _ => submit_dispatched p runtime
        end
    end
  end.

Definition submit_prepared (req : TaskSubmitRequest) (p : prepared) : ST CWorld (res TaskRecord) :=
  r ← CreateTaskWithExecutionInputRefs (p_task p) (p_refs p);
  match r return ST CWorld (res TaskRecord) with
  | Err e => mret (Err (Wrapf "create task record: " e ""))
  | Ok false =>
    bound_conflict req (t_IdempotencyKey (p_task p)) ;;?
    existing_task (sr_TenantID req) (t_IdempotencyKey (p_task p))
  | Ok true => submit_inserted req p
  end.

(** [None] is a panic. *)
Definition Submit (req : TaskSubmitRequest) : ST CWorld (option (res TaskRecord)) :=
  r ← prepare req;
  match r return ST CWorld (option (res TaskRecord)) with
  | None => mret None
  | Some (Err e) => mret (Some (Err e))
  | Some (Ok p) => r ← submit_prepared req p; mret (Some r)
  end.

Definition demo_prepared (req : TaskSubmitRequest) (failureReason : string) (p : prepared)
    : ST CWorld (res TaskRecord) :=
  r ← CreateTaskWithExecutionInputRefs (p_task p) (p_refs p);
  match r return ST CWorld (res TaskRecord) with
  | Err e => mret (Err (Wrapf "create task record: " e ""))
  | Ok false => existing_task (sr_TenantID req) (t_IdempotencyKey (p_task p))
  | Ok true =>
    let trimmed := TrimSpace failureReason in
    let reason := if nonempty trimmed then trimmed else "demo simulated failure" in
    f ← on_store (MarkFailedWithDetails (t_TaskID (p_task p)) reason
          (overtureTaskFailureDetails "submit" "demo_simulated_failure" reason));
    mret match f with
    | Err e => Err (Wrapf "mark demo failure: " e "")
    | Ok _ => Ok ((p_task p) {{ t_Status := TaskStatusFailed; t_FailureReason := Some reason }})
    end
  end.

Definition SubmitDemoSimulatedFailure (req : TaskSubmitRequest) (failureReason : string)
    : ST CWorld (option (res TaskRecord)) :=
  r ← prepare req;
  match r return ST CWorld (option (res TaskRecord)) with
  | None => mret None
  | Some (Err e) => mret (Some (Err e))
  | Some (Ok p) => r ← demo_prepared req failureReason p; mret (Some r)
  end.

(** ** Runtime callbacks *)

Definition HandleCheckpoint (cp : option CheckpointPayload) : ST CWorld (res ()) := on_store (SaveCheckpoint cp).
Definition HandleComplete (taskID : uuid) : ST CWorld (res ()) := on_store (MarkCompleted taskID).
Definition HandleFailed (taskID : uuid) (reason : string) : ST CWorld (res ()) := on_store (MarkFailed taskID reason).
Definition HandleFailedWithDetails (taskID : uuid) (reason : string) (details : option TaskFailureDetails)
    : ST CWorld (res ()) := on_store (MarkFailedWithDetails taskID reason details).
Definition HandleCancel (taskID : uuid) : ST CWorld (res ()) := on_store (MarkCanceled taskID).

(** The decision, the runtime, the verdict and its reason; [None] when nothing
    has to be recorded. *)
Definition runtimeFailedRecoveryDecision (task : TaskRecord) (callbackRuntimeID : string)
    : ST CWorld (option (ActionPolicyDecision * string * bool * string)) :=
  let trimmed := TrimSpace callbackRuntimeID in
  let runtimeID := if nonempty trimmed then trimmed else default "" (t_RuntimeID task) in
  decision ← evaluate_policy (mkPolicyInput (t_TenantID task) (t_TaskID task) runtimeID
    (t_TaskDefinition task) (t_AgentIdentity task) (t_RequiredCapabilities task) (t_LastCheckpoint task) true);
  mret (if negb (d_Irreversible decision) && negb (bool_decide (d_ReplayClass decision = ReplayClassNonRetryable))
        then None
        else
          let '(allowed, reason) := RecoveryHandoffAllowed (Some task) (t_LastCheckpoint task) runtimeID decision in
          Some (decision, runtimeID, allowed, reason)).

Definition RecordRuntimeFailedRecoveryDecision (task : TaskRecord) (callbackRuntimeID : string)
    : ST CWorld (res ()) :=
  r ← runtimeFailedRecoveryDecision task callbackRuntimeID;
  match r return ST CWorld (res ()) with
  | None => mret (Ok tt)
  | Some (decision, runtimeID, allowed, reason) =>
    on_store (SaveActionPolicyDecision decision) ;;?
    (ignore (on_store (SetLatestPolicyDecision (t_TaskID task) decision)) ;;
     if allowed : bool then mret (Ok tt)
     else
       ignore (on_store (SaveRuntimeHandoffEvent (mkHandoffEvent uuid_Nil (t_TenantID task) (t_TaskID task)
         runtimeID runtimeID (checkpointDigest (t_LastCheckpoint task)) (d_CheckpointPortability decision)
         (mapBoolDecision false) reason))) ;;
       on_store (SaveRecoveryEvent (mkRecoveryEvent uuid_Nil (t_TenantID task) (t_TaskID task)
         "automatic_replay_blocked" runtimeID runtimeID (checkpointDigest (t_LastCheckpoint task))
         (checkpointLastCommittedStep (t_LastCheckpoint task)) (Some false) reason)))
  end.

(** ** Human approval *)

Definition ApproveTask (taskID : uuid) (tenantID approvedBy : string) : ST CWorld (res TaskRecord) :=
  task ←? on_store (GetTask taskID tenantID);
  if negb (TaskAwaitingApproval (t_Status task)) then mret (Err ErrTaskNotAwaitingApproval)
  else
    s ← selectRuntime tenantID "";
    match s return ST CWorld (res TaskRecord) with
    | Err _ => mret (Err ErrNoRuntimeForApproval)
    | Ok runtime =>
      m ← on_store (MarkApprovedDispatched taskID tenantID (rt_RuntimeID runtime) (rt_Endpoint runtime) approvedBy);
      match m return ST CWorld (res TaskRecord) with
      | Err e => mret (Err (if errors_is e ErrTaskTransitionRejected then ErrTaskNotAwaitingApproval else e))
      | Ok _ =>
        ignore (on_store (ResolveApprovalRequest taskID tenantID "approved" approvedBy "")) ;;
        let task := task {{ t_Status := TaskStatusDispatched; t_RuntimeID := Some (rt_RuntimeID runtime);
                            t_RuntimeEndpoint := Some (rt_Endpoint runtime); t_PermissionEnvelope := None }} in
        d ← rehydrateTaskDefinitionInputRefs (λ refID purpose,
              DecryptExecutionInputRef (t_TenantID task) (t_TaskID task) refID purpose "approved action dispatch")
              (t_TaskDefinition task);
        match d return ST CWorld (res TaskRecord) with
        | Err e =>
          let safeErr := safeInputRefError e in
          fail_task taskID "encrypted input unavailable for approved dispatch"
            (overtureTaskFailureDetails "approval" "encrypted_input_unavailable" (error_text safeErr)) ;;
          mret (Err safeErr)
        | Ok rehydrated =>
          spawn (JDispatch (task {{ t_TaskDefinition := rehydrated }}) None) ;; mret (Ok task)
        end
      end
    end.

Definition RejectTask (taskID : uuid) (tenantID rejectedBy reason : string) : ST CWorld (res TaskRecord) :=
  task ←? on_store (GetTask taskID tenantID);
  if negb (TaskAwaitingApproval (t_Status task)) then mret (Err ErrTaskNotAwaitingApproval)
  else
    let trimmed := TrimSpace reason in
    let failureReason := if nonempty trimmed then TaskFailureReasonApprovalRejected +:+ ": " +:+ trimmed
                         else TaskFailureReasonApprovalRejected in
    m ← on_store (MarkApprovalRejected taskID tenantID failureReason
          (overtureTaskFailureDetails "approval" "approval_rejected" failureReason));
    match m return ST CWorld (res TaskRecord) with
    | Err e => mret (Err (if errors_is e ErrTaskTransitionRejected then ErrTaskNotAwaitingApproval else e))
    | Ok _ =>
      ignore (on_store (ResolveApprovalRequest taskID tenantID "rejected" rejectedBy trimmed)) ;;
      mret (Ok (task {{ t_Status := TaskStatusFailed; t_FailureReason := Some failureReason }}))
    end.

(** ** Recovery *)

Definition invalid_checkpoint_failure (taskID : uuid) : ST CWorld () :=
  fail_task taskID TaskFailureReasonInvalidRecoveryCheckpoint
    (overtureTaskFailureDetails "recovery" "invalid_recovery_checkpoint" TaskFailureReasonInvalidRecoveryCheckpoint).

Definition handleRecoverySkip (taskID : uuid) (task : TaskRecord) (skipReason : string) : ST CWorld () :=
  if bool_decide (skipReason = "streaming_resume_unsupported") && bool_decide (t_Status task = TaskStatusRecovering)
  then fail_task taskID TaskFailureReasonStreamingResumeUnsupported
         (overtureTaskFailureDetails "recovery" "streaming_resume_unsupported"
            TaskFailureReasonStreamingResumeUnsupported)
  else mret tt.

Definition recovery_event (task : TaskRecord) (taskID : uuid) (eventType source target : string)
    (cp : option CheckpointPayload) (allowed : option bool) (reason : string) : ST CWorld () :=
  ignore (on_store (SaveRecoveryEvent (mkRecoveryEvent uuid_Nil (t_TenantID task) taskID eventType source target
    (checkpointDigest cp) (checkpointLastCommittedStep cp) allowed reason))).

(** After the redispatch transition: reload, rehydrate, start the dispatch. *)
Definition recover_redispatch (runtimeID : string) (taskID : uuid) (tenantID : string)
    (newRuntime : runtimeInfo) (decision : ActionPolicyDecision) (cp : option CheckpointPayload) : ST CWorld () :=
  g ← on_store (GetTask taskID tenantID);
  match g return ST CWorld () with
  | Err _ => mret tt
  | Ok task =>
    h ← HydrateTaskPermissionEnvelope task;
    match h return ST CWorld () with
    | Err _ => mret tt
    | Ok task =>
      let task := task {{ t_RuntimeEndpoint := Some (rt_Endpoint newRuntime); t_PermissionEnvelope := None }} in
      d ← rehydrateTaskDefinitionInputRefs (λ refID purpose,
            DecryptExecutionInputRef (t_TenantID task) (t_TaskID task) refID purpose "runtime recovery redispatch")
            (t_TaskDefinition task);
      match d return ST CWorld () with
      | Err e =>
        fail_task taskID "encrypted input unavailable for recovery"
          (overtureTaskFailureDetails "recovery" "encrypted_input_unavailable" (error_text (safeInputRefError e)))
      | Ok rehydrated =>
        ignore (on_store (SaveExecutionBoundary decision (t_TaskDefinition task) (t_RequiredCapabilities task))) ;;
        recovery_event task taskID "redispatched" runtimeID (rt_RuntimeID newRuntime) cp (Some true)
          "recovery redispatch accepted" ;;
        spawn (JDispatch (task {{ t_TaskDefinition := rehydrated }}) cp)
      end
    end
  end.

(** With a checkpoint that may be resumed from: select, decide, redispatch. *)
Definition recover_decide (runtimeID : string) (taskID : uuid) (tenantID : string) (task : TaskRecord)
    (cp : option CheckpointPayload) : ST CWorld () :=
  s ← selectRuntime tenantID "";
  match s return ST CWorld () with
  | Err _ =>
    fail_task taskID "no runtime available for recovery"
      (overtureTaskFailureDetails "recovery" "no_runtime_available" "no runtime available for recovery")
  | Ok newRuntime =>
    decision ← evaluate_policy (mkPolicyInput (t_TenantID task) (t_TaskID task) (rt_RuntimeID newRuntime)
                 (t_TaskDefinition task) (t_AgentIdentity task) (t_RequiredCapabilities task) cp true);
    d ← on_store (SaveActionPolicyDecision decision);
    match d return ST CWorld () with
    | Err e =>
      fail_task taskID "recovery action policy decision persistence failed"
        (overtureTaskFailureDetails "recovery" "policy_decision_persistence_failed" (error_text e))
    | Ok _ =>
      ignore (on_store (SetLatestPolicyDecision taskID decision)) ;;
      let '(allowed, handoffReason) := RecoveryHandoffAllowed (Some task) cp (rt_RuntimeID newRuntime) decision in
      ignore (on_store (SaveRuntimeHandoffEvent (mkHandoffEvent uuid_Nil (t_TenantID task) taskID runtimeID
        (rt_RuntimeID newRuntime) (checkpointDigest cp) (d_CheckpointPortability decision)
        (mapBoolDecision allowed) handoffReason))) ;;
      recovery_event task taskID ("handoff_" +:+ mapBoolDecision allowed) runtimeID (rt_RuntimeID newRuntime) cp
        (Some allowed) handoffReason ;;
      if negb allowed then
        fail_task taskID handoffReason
          (overtureTaskFailureDetails "recovery" "runtime_handoff_denied" handoffReason)
      else
        m ← on_store (MarkDispatched taskID (rt_RuntimeID newRuntime) (rt_Endpoint newRuntime));
        match m return ST CWorld () with
        | Err _ => mret tt
        | Ok _ => recover_redispatch runtimeID taskID tenantID newRuntime decision cp
        end
    end
  end.

(** The checkpoint to resume from: the cumulative one, joined with the task's
    own when that is further. *)
Definition recover_checkpoint (runtimeID : string) (taskID : uuid) (tenantID : string) (task : TaskRecord)
    (stored : res (option CheckpointPayload)) : ST CWorld () :=
  match stored with
  | Err e =>
    if errors_is e ErrInvalidCumulativeCheckpoint then invalid_checkpoint_failure taskID else mret tt
  | Ok cp =>
    let merged :=
      if bool_decide (is_Some (t_LastCheckpoint task)) && TaskCheckpointAdvances cp (t_LastCheckpoint task)
      then BuildCumulativeRecoveryCheckpoint taskID [cp; t_LastCheckpoint task] else Ok cp in
    match merged with
    | Err _ => invalid_checkpoint_failure taskID
    | Ok cp =>
      if bool_decide (is_Some cp) && negb (TaskRecoveryCheckpointUsable taskID cp)
      then invalid_checkpoint_failure taskID
      else recover_decide runtimeID taskID tenantID task cp
    end
  end.

(** One task of the failed runtime. *)
Definition recover_task (runtimeID : string) (taskID : uuid) : ST CWorld () :=
  stored ← on_store (GetCumulativeRecoveryCheckpoint taskID);
  q ← on_store (exec (select_task taskID (λ _, true)));
  let tenantID := match q with Ok row => r_tenant_id row | Err _ => "" end in
  g ← on_store (GetTask taskID tenantID);
  match g return ST CWorld () with
  | Err _ => mret tt
  | Ok task =>
    recovery_event task taskID "runtime_failed" runtimeID ""
      (match stored with Ok cp => cp | Err _ => None end) None "runtime heartbeat became stale" ;;
    h ← HydrateTaskPermissionEnvelope task;
    match h return ST CWorld () with
    | Err _ => mret tt
    | Ok task =>
      let skipReason := TaskRecoverySkipReason (Some task) in
      if nonempty skipReason then handleRecoverySkip taskID task skipReason
      else
        '(exceeded, task) ← shouldEnqueueDLQ task;
        if exceeded : bool then
          ignore (enqueueDLQ task "max_recovery_attempts_exceeded") ;;
          fail_task taskID "max recovery attempts exceeded"
            (overtureTaskFailureDetails "recovery" "dlq_max_attempts" "max recovery attempts exceeded")
        else
          committed ← hasCommittedIrreversibleInJournal task;
          if committed : bool then
            fail_task taskID "irreversible effect already committed"
              (overtureTaskFailureDetails "recovery" "effect_journal_committed"
                 "irreversible effect already committed — journal blocks replay")
          else recover_checkpoint runtimeID taskID tenantID task stored
    end
  end.

Fixpoint for_each {A} (f : A → ST CWorld ()) (l : list A) : ST CWorld () :=
  match l with
  | [] => mret tt
  | a :: l => f a ;; for_each f l
  end.

Definition mark_runtime_failed (runtimeID : string) : tstmt () := λ _ t,
  (Ok tt, t {{ runtime_instances ::= fmap (λ ri,
     if bool_decide (ri_runtime_id ri = runtimeID)
     then mkRuntime (ri_runtime_id ri) (ri_tenant_id ri) (ri_endpoint ri) false "failed"
            (ri_last_heartbeat ri) (ri_public_key_ed25519 ri) else ri) }}).

Definition recoverRuntime (runtimeID : string) : ST CWorld () :=
  ignore (c_exec (mark_runtime_failed runtimeID)) ;;
  r ← on_store (MarkRecovering runtimeID);
  match r return ST CWorld () with
  | Err _ => mret tt
  | Ok taskIDs => for_each (recover_task runtimeID) taskIDs
  end.

(** Runtimes whose heartbeat is stale; runtime_id is unique. *)
Definition stale_runtimes (now : time) : tstmt (list string) := λ _ t,
  (Ok (ri_runtime_id <$> filter (λ ri, ri_is_healthy ri = true ∧ ri_status ri = "active" ∧
         default false ((λ hb, hb <? now - heartbeat_seconds execCfg * Second) <$> ri_last_heartbeat ri) = true)
       (runtime_instances t)), t).

Definition recoverFailedRuntimes : ST CWorld () :=
  now ← c_now;
  r ← c_exec (stale_runtimes now);
  match r return ST CWorld () with
  | Err _ => mret tt
  | Ok ids => for_each recoverRuntime ids
  end.

Definition markAndRecover (taskID : uuid) (runtimeID : string) : ST CWorld () := spawn (JRecover runtimeID).

Definition handleDispatchFailure (task : TaskRecord) : ST CWorld () :=
  match t_RuntimeID task with
  | None => mret tt
  | Some runtimeID => markAndRecover (t_TaskID task) runtimeID
  end.

(** ** Deadlines

    The statement of the reaper assigns [updated_at], a column task_records
    does not have (no migration adds it), so it is refused. *)
Definition expired (now : time) (r : task_row) : bool :=
  status_in [TaskStatusPending; TaskStatusDispatched; TaskStatusCheckpointed; TaskStatusRecovering] r &&
  default false ((λ d, d <? now) <$> r_deadline_at r).

Definition reap_statement (taskID : uuid) : stmt Z := λ db,
  (Err (Errorf "pq: column updated_at of relation task_records does not exist"), db).

(** The statements of the loop, in the transaction; a failed one aborts it, so
    the later ones fail as well and the commit rolls back. *)
Fixpoint reap_rows (ids : list uuid) (db : DB) (aborted : bool) : ST World (DB * bool) :=
  match ids with
  | [] => mret (db, aborted)
  | taskID :: ids =>
    r ← tx_exec (if aborted then λ db, (Err (Errorf "pq: current transaction is aborted"), db)
                 else reap_statement taskID) db;
    match r return ST World (DB * bool) with
    | Ok (_, db) => reap_rows ids db aborted
    | Err _ => reap_rows ids db true
    end
  end.

Definition select_expired (now : time) : stmt (list uuid) := λ db,
  (Ok (r_task_id <$> take 100 (sort_slice (λ r, default 0 (r_deadline_at r))
         (filter (λ r, expired now r = true) ((map_to_list (task_records db)).*2)))), db).

Definition reapExpiredDeadlines : ST CWorld () :=
  on_store (
    b ← tx_begin;
    match b return ST World () with
    | Err _ => mret tt
    | Ok db =>
      now ← time_now;
      q ← tx_exec (select_expired now) db;
      match q return ST World () with
      | Err _ => mret tt
      | Ok (ids, db) =>
        '(db, aborted) ← reap_rows ids db false;
        if aborted : bool then mret tt
        else tx_commit db ≫= λ _, mret tt
      end
    end).
End Coordinator.
