(* ===== verification/Dispatch.v ===== *)
(** * Dispatching a task to its runtime

    coordinator/task_coordinator.go, [dispatchToRuntime] and what it calls: the
    payload and its headers, the reply, the verification of the artifacts the
    reply carries, and the transitions it causes.  The body of the goroutines
    the other handlers start.

    The HTTP client is an argument: a request gets no answer, or a status and a
    body. *)

From S2P Require Import Prelude GoStrings Json Float64 Ext WalCodec Checkpoint Types Capability.
From S2P Require Import Governance.
From S2P Require Import TaskDef Store ProofState InputRefs Receipts CoordState Artifacts Robotics.
From S2P Require Import Coordinator.
Open Scope Z_scope.

(** ** Deadlines and idempotency *)

Definition minRuntimeDeadlineBudgetMs : Z := 1.

Definition runtimeDeadlineBudgetMs (deadlineAt : option time) (checkpoint : option CheckpointPayload) (now : time)
    : option Z :=
  match deadlineAt with
  | None => None
  | Some deadline =>
    let remainingMs := Z.quot (time_Sub deadline now) Millisecond in
    if bool_decide (is_Some checkpoint) && (remainingMs <=? 0) then None
    else Some (if remainingMs <? minRuntimeDeadlineBudgetMs then minRuntimeDeadlineBudgetMs else remainingMs)
  end.

Definition runtimeDispatchIdempotencyKey (task : TaskRecord) (checkpoint : option CheckpointPayload) : string :=
  match checkpoint with
  | None => t_IdempotencyKey task
  | Some cp =>
    t_IdempotencyKey task +:+ ":resume:" +:+ itoa (LastCommittedStep (cp_ResumeToken cp)) +:+ ":" +:+
    take_str 16 (TrimSpace (CheckpointDigest (cp_ResumeToken cp)))
  end.

(** ** A rejection *)

(** [json.Compact]: white space outside strings is dropped. *)
Fixpoint compact_plain (in_str esc : bool) (s : string) : string :=
  match s with
  | "" => ""
  | String a s' =>
    if negb in_str && is_ws a then compact_plain in_str esc s'
    else if in_str && negb esc && bool_decide (a = bsl) then String a (compact_plain true true s')
    else if bool_decide (a = dq) && negb esc then String a (compact_plain (negb in_str) false s')
    else String a (compact_plain in_str false s')
  end.

Definition normalizeRuntimeCheckpointDigest (raw : string) : string :=
  if negb (nonempty raw) || bool_decide (raw = "null") then ""
  else
    let '(digest, ok) := unmarshal_string raw in
    if ok then digest
    else
      let '(digestBytes, ok) := unmarshal (dec_list 0 (dec_uint 8)) raw [] in
      if ok then hex_encode (byte_list digestBytes)
      else if json_valid raw then compact_plain false false raw else raw.

Record runtimeErrorEnvelope := mkRuntimeError {
  er_Message : string;
  er_Type : string;
  er_ResumeCheckpointProvided : option bool;
  er_RequestedResumeFrom : option (option Z * string);
  er_LocalLastCommittedStep : option Z;
  er_LocalCheckpointDigest : string;
}.
#[local] Instance set_er_Message : Setter er_Message := _.
#[local] Instance set_er_Type : Setter er_Type := _.
#[local] Instance set_er_ResumeCheckpointProvided : Setter er_ResumeCheckpointProvided := _.
#[local] Instance set_er_RequestedResumeFrom : Setter er_RequestedResumeFrom := _.
#[local] Instance set_er_LocalLastCommittedStep : Setter er_LocalLastCommittedStep := _.
#[local] Instance set_er_LocalCheckpointDigest : Setter er_LocalCheckpointDigest := _.

Definition runtimeErrorEnvelope_fields : list (string * dec runtimeErrorEnvelope) :=
  [("error", dec_struct
     [("message", field er_Message (λ x e, e {{ er_Message := x }}) dec_string);
      ("type", field er_Type (λ x e, e {{ er_Type := x }}) dec_string)]);
   ("resume", dec_struct
     [("resume_checkpoint_provided", field er_ResumeCheckpointProvided
         (λ x e, e {{ er_ResumeCheckpointProvided := x }}) (dec_ptr false dec_bool));
      ("requested_resume_from", field er_RequestedResumeFrom (λ x e, e {{ er_RequestedResumeFrom := x }})
         (dec_ptr (None, "") (dec_struct
            [("last_committed_step", field fst (λ x p, (x, p.2)) (dec_ptr 0 (dec_uint 32)));
             ("checkpoint_digest", field snd (λ x p, (p.1, x)) dec_raw)])));
      ("local_last_committed_step", field er_LocalLastCommittedStep
         (λ x e, e {{ er_LocalLastCommittedStep := x }}) (dec_ptr 0 (dec_uint 32)));
      ("local_checkpoint_digest", field er_LocalCheckpointDigest
         (λ x e, e {{ er_LocalCheckpointDigest := x }}) dec_string)])].

Definition runtimeTaskDispatchFailure (statusCode : Z) (raw : string) (resumed : bool)
    : string * option TaskFailureDetails :=
  let operation := if resumed then "resume" else "submit" in
  let details := TaskFailureDetails_zero {{ fd_Source := "runtime"; fd_Operation := operation;
                                            fd_StatusCode := statusCode }} in
  let '(p, ok) := unmarshal (dec_struct runtimeErrorEnvelope_fields) raw (mkRuntimeError "" "" None None None "") in
  let requested := default (None, "") (er_RequestedResumeFrom p) in
  let details :=
    if ok then
      details {{ fd_RejectionType := er_Type p; fd_Message := er_Message p;
                 fd_ResumeCheckpointProvided := er_ResumeCheckpointProvided p;
                 fd_LocalCheckpointDigest := er_LocalCheckpointDigest p;
                 fd_LocalLastStep := er_LocalLastCommittedStep p;
                 fd_RequestedLastStep := requested.1;
                 fd_RequestedCheckpointDigest := normalizeRuntimeCheckpointDigest requested.2 }}
    else details in
  let rejected := "runtime " +:+ operation +:+ " rejected" in
  let body := TrimSpace raw in
  if ok && nonempty (er_Type p) && nonempty (er_Message p)
  then (rejected +:+ " (" +:+ er_Type p +:+ "): " +:+ er_Message p, Some details)
  else if ok && nonempty (er_Message p) then (rejected +:+ ": " +:+ er_Message p, Some details)
  else if ok && nonempty (er_Type p) then (rejected +:+ " (" +:+ er_Type p +:+ ")", Some details)
  else if nonempty body
  then (rejected +:+ " with status " +:+ itoa statusCode +:+ ": " +:+ body, Some (details {{ fd_Message := body }}))
  else (rejected +:+ " with status " +:+ itoa statusCode, Some details).

(** ** The reply *)

Record taskSubmitResultStatus := mkSubmitStatus {
  st_Name : string;
  st_Reason : string;
  st_ResumeToken : option ResumeToken;
}.
Definition SubmitStatus_zero : taskSubmitResultStatus := mkSubmitStatus "" "" None.

Definition ResumeToken_fields : list (string * dec ResumeToken) :=
  [("last_committed_step", field LastCommittedStep (λ x '(mkToken _ b c), mkToken x b c) (dec_uint 32));
   ("checkpoint_digest", field CheckpointDigest (λ x '(mkToken a _ c), mkToken a x c) dec_string);
   ("runtime_id", field WalCodec.rt_RuntimeID (λ x '(mkToken a b _), mkToken a b x) dec_string)].

Definition SubmitStatus_fields : list (string * dec taskSubmitResultStatus) :=
  [("status", field st_Name (λ x '(mkSubmitStatus _ b c), mkSubmitStatus x b c) dec_string);
   ("reason", field st_Reason (λ x '(mkSubmitStatus a _ c), mkSubmitStatus a x c) dec_string);
   ("resume_token", field st_ResumeToken (λ x '(mkSubmitStatus a b _), mkSubmitStatus a b x)
                      (dec_ptr (mkToken 0 "" "") (dec_struct ResumeToken_fields)))].

(** [UnmarshalJSON]: a bare name, or an object; [null] is the zero status. *)
Definition dec_status : dec taskSubmitResultStatus := λ n old,
  match n.2 with
  | JNull => (SubmitStatus_zero, true)
  | JStr name => (mkSubmitStatus name "" None, true)
  | _ => let '(s, ok) := dec_struct SubmitStatus_fields n SubmitStatus_zero in
         if ok then (s, true) else (old, false)
  end.

Record taskSubmitResult := mkSubmitResult {
  su_TaskID : uuid;
  su_Status : taskSubmitResultStatus;
  su_Checkpoint : option CheckpointPayload;
  su_FailureReason : string;
  su_FailureDetails : option TaskFailureDetails;
  su_ExecutionEnvelope : string;
  su_ExecutionReceipt : string;
  su_StepReceipts : list string;
}.
#[local] Instance set_su_TaskID : Setter su_TaskID := _.
#[local] Instance set_su_Status : Setter su_Status := _.
#[local] Instance set_su_Checkpoint : Setter su_Checkpoint := _.
#[local] Instance set_su_FailureReason : Setter su_FailureReason := _.
#[local] Instance set_su_FailureDetails : Setter su_FailureDetails := _.
#[local] Instance set_su_ExecutionEnvelope : Setter su_ExecutionEnvelope := _.
#[local] Instance set_su_ExecutionReceipt : Setter su_ExecutionReceipt := _.
#[local] Instance set_su_StepReceipts : Setter su_StepReceipts := _.
Definition SubmitResult_zero : taskSubmitResult := mkSubmitResult uuid_Nil SubmitStatus_zero None "" None "" "" [].

Section Dispatch.
Context `{Ext} `{CheckpointCodec} `{UUIDSupply} `{MapRange} `{AEAD} `{SortSlice}.
Context (execCfg : ExecutionConfig).

Definition dec_checkpoint : dec (option CheckpointPayload) := λ n old,
  match n.2 with
  | JNull => (None, true)
  | _ => match unmarshalCheckpoint n.1 with Some cp => (Some cp, true) | None => (old, false) end
  end.

Definition SubmitResult_fields : list (string * dec taskSubmitResult) :=
  [("task_id", field su_TaskID (λ x r, r {{ su_TaskID := x }}) dec_uuid);
   ("status", field su_Status (λ x r, r {{ su_Status := x }}) dec_status);
   ("checkpoint", field su_Checkpoint (λ x r, r {{ su_Checkpoint := x }}) dec_checkpoint);
   ("reason", field su_FailureReason (λ x r, r {{ su_FailureReason := x }}) dec_string);
   ("failure_details", field su_FailureDetails (λ x r, r {{ su_FailureDetails := x }})
                         (dec_ptr TaskFailureDetails_zero (dec_struct TaskFailureDetails_fields)));
   ("execution_envelope", field su_ExecutionEnvelope (λ x r, r {{ su_ExecutionEnvelope := x }}) dec_raw);
   ("execution_receipt", field su_ExecutionReceipt (λ x r, r {{ su_ExecutionReceipt := x }}) dec_raw);
   ("step_receipts", field su_StepReceipts (λ x r, r {{ su_StepReceipts := x }}) (dec_list "" dec_raw))].

Definition decode_reply (body : string) : option taskSubmitResult :=
  let '(r, ok) := decode_first (dec_struct SubmitResult_fields) body SubmitResult_zero in
  if ok then Some r else None.

(** ** The request *)

(** internal/runtime_client.go: no-op without a key of the right size. *)
Definition SetDecisionSigHeader (body : string) : list (string * string) :=
  let hexKey := EnvOrLegacy "OVERTURE_OVERTURE_SIGNING_KEY" "IGRIS_OVERTURE_SIGNING_KEY" in
  match hex_decode hexKey with
  | Some decoded =>
    if nonempty hexKey && bool_decide (slen decoded = PrivateKeySize)
    then [("X-Igris-Decision-Sig", b64_encode (ed25519_Sign decoded (sha256 body)))] else []
  | None => []
  end.

Definition ResumeToken_text (r : ResumeToken) : string :=
  obj_text [("last_committed_step", num_text (LastCommittedStep r));
            ("checkpoint_digest", str_text (CheckpointDigest r));
            ("runtime_id", str_text (WalCodec.rt_RuntimeID r))].

Definition callback_members : list (string * string) :=
  let base := TrimSpace (EnvOrLegacy "OVERTURE_RUNTIME_CALLBACK_BASE_URL" "IGRIS_RUNTIME_CALLBACK_BASE_URL") in
  let name := TrimSpace (EnvOrLegacy "OVERTURE_RUNTIME_CALLBACK_AUTH_HEADER_NAME"
                           "IGRIS_RUNTIME_CALLBACK_AUTH_HEADER_NAME") in
  let value := TrimSpace (EnvOrLegacy "OVERTURE_RUNTIME_CALLBACK_AUTH_HEADER_VALUE"
                            "IGRIS_RUNTIME_CALLBACK_AUTH_HEADER_VALUE") in
  if nonempty base then
    ("callback_base_url", str_text base) ::
    (if nonempty name && nonempty value
     then [("callback_auth", any_map_text [("header_name", str_text name); ("header_value", str_text value)])]
     else [])
  else [].

(** The members that depend on the task, the checkpoint and the clock only. *)
Definition base_payload (task : TaskRecord) (checkpoint : option CheckpointPayload) (now : time)
    (governance : taskGovernance) : list (string * string) :=
  [("task_type", t_TaskDefinition task); ("task_id", str_text (uuid_String (t_TaskID task)));
   ("tenant_id", str_text (t_TenantID task));
   ("idempotency_key", str_text (runtimeDispatchIdempotencyKey task checkpoint))]
  ++ callback_members
  ++ match checkpoint with
     | Some cp => [("resume_from", ResumeToken_text (cp_ResumeToken cp));
                   ("resume_checkpoint", default "null" (res_to_option (marshalCheckpoint cp)))]
     | None => []
     end
  ++ opt_member "deadline_ms" (num_text <$> runtimeDeadlineBudgetMs (t_DeadlineAt task) checkpoint now)
  ++ (if agentIdentityEmpty (g_AgentIdentity governance) then []
      else [("agent_identity", AgentIdentity_text (g_AgentIdentity governance))]).

Definition envelope_members (governance : taskGovernance) (envelope : TaskPermissionEnvelope) : list (string * string) :=
  [("required_capabilities", string_list_text (g_RequiredCapabilities governance));
   ("permission_envelope", TaskPermissionEnvelope_text envelope)]
  ++ (if bool_decide (length (pe_CredentialRefs envelope) = 0%nat) then []
      else [("credential_refs", arr_text (CredentialReference_text <$> pe_CredentialRefs envelope))]).

Definition decision_members (decisions : list signedGovernedPolicyDecision) : list (string * string) :=
  [("signed_policy_decisions", arr_text (decision_text <$> decisions));
   ("containment", obj_text [("max_tick_ms", num_text 30000)])].

(** [json.Marshal] of a [map[string]json.RawMessage]. *)
Definition payload_text (members : list (string * string)) : string :=
  map_text (compact <$> (list_to_map members : gmap string string)).

Definition dispatch_headers (task : TaskRecord) (body : string) : list (string * string) :=
  let secret := TrimSpace (EnvOrLegacy "OVERTURE_RUNTIME_SECRET" "IGRIS_RUNTIME_SECRET") in
  [("Content-Type", "application/json"); ("X-Overture-Tenant", t_TenantID task); ("X-Igris-Tenant", t_TenantID task)]
  ++ (if nonempty secret then [("Authorization", "Bearer " +:+ secret)] else [])
  ++ SetDecisionSigHeader body.

(** ** The artifacts of a reply *)

Definition key_missing (runtimeID : string) : goerror :=
  Errorf ("runtime public key missing for runtime " +:+ runtimeID).

Definition runtimePublicKeyForTask (task : TaskRecord) : ST CWorld (res string) :=
  let runtimeID := default "" (t_RuntimeID task) in
  if negb (nonempty (TrimSpace runtimeID))
  then mret (Err (Errorf "runtime identity missing for execution artifact verification"))
  else
    r ← c_exec (λ _ t, (match head (filter (λ ri, ri_runtime_id ri = runtimeID) (runtime_instances t)) with
                        | Some ri => Ok (default "" (ri_public_key_ed25519 ri))
                        | None => Err ErrNoRows
                        end, t));
    mret match r with
    | Err e => if errors_is e ErrNoRows then Err (key_missing runtimeID)
               else Err (Wrapf "load runtime public key: " e "")
    | Ok publicKeyHex => if nonempty (TrimSpace publicKeyHex) then Ok publicKeyHex else Err (key_missing runtimeID)
    end.

Definition lift_res {A} (r : res A) : ST CWorld (res A) := mret r.

Definition verifyExecutionArtifactsForTask (task : TaskRecord) (envelopeRaw receiptRaw : string) : ST CWorld (res ()) :=
  publicKeyHex ←? runtimePublicKeyForTask task;
  lift_res (VerifyExecutionArtifactsRawWithPublicKey envelopeRaw receiptRaw publicKeyHex).

Definition verifyStepReceiptsForTask (task : TaskRecord) (stepReceipts : list string) : ST CWorld (res ()) :=
  if bool_decide (length stepReceipts = 0%nat) then mret (Ok tt)
  else
    publicKeyHex ←? runtimePublicKeyForTask task;
    lift_res (verify_step_receipts publicKeyHex stepReceipts).

(** One receipt into [execution_lineage]; failures are logged. *)
Definition persist_lineage (task : TaskRecord) (status rawReceipt : string) : ST CWorld () :=
  now ← c_now;
  match BuildExecutionLineageRecordFromReceipt rawReceipt (t_TenantID task) (taskRuntimeID (Some task)) status "" now
    return ST CWorld () with
  | Ok (Some lineage) => ignore (on_store (SaveExecutionLineage lineage))
  | _ => mret tt
  end.

Definition sync_proof (task : TaskRecord) : ST CWorld () :=
  triggerAvailable ← on_store HasTaskProofSyncTrigger;
  match triggerAvailable return ST CWorld () with
  | Ok true => mret tt
  | _ => ignore (on_store (SyncTaskProofState (t_TaskID task) (t_TenantID task)))
  end.

(** After verification: the artifacts, the lineage, the journal, the proof. *)
Definition persist_artifacts (task : TaskRecord) (result : taskSubmitResult) : ST CWorld () :=
  s ← SaveExecutionArtifacts (t_TaskID task) (su_ExecutionEnvelope result) (su_ExecutionReceipt result);
  match s return ST CWorld () with
  | Err _ => mret tt
  | Ok _ =>
    let receipts := if bool_decide (length (su_StepReceipts result) = 0%nat)
                    then [su_ExecutionReceipt result] else su_StepReceipts result in
    for_each (persist_lineage task (st_Name (su_Status result))) receipts ;;
    markEffectJournalCommitted task ;;
    sync_proof task
  end.

(** Whether the reply goes on: its artifacts verified and stored, or it had none. *)
Definition handle_artifacts (task : TaskRecord) (result : taskSubmitResult) : ST CWorld bool :=
  if negb (nonempty (su_ExecutionEnvelope result)) && negb (nonempty (su_ExecutionReceipt result)) then mret true
  else
    v ← verifyExecutionArtifactsForTask task (su_ExecutionEnvelope result) (su_ExecutionReceipt result);
    match v return ST CWorld bool with
    | Err e =>
      fail_task (t_TaskID task) ("runtime artifact verification failed: " +:+ error_text e)
        (overtureTaskFailureDetails "dispatch" "runtime_artifact_verification_failed" (error_text e)) ;;
      mret false
    | Ok _ =>
      v ← verifyStepReceiptsForTask task (su_StepReceipts result);
      match v return ST CWorld bool with
      | Err e =>
        fail_task (t_TaskID task) ("runtime step receipt verification failed: " +:+ error_text e)
          (overtureTaskFailureDetails "dispatch" "runtime_step_receipt_verification_failed" (error_text e)) ;;
        mret false
      | Ok _ => persist_artifacts task result ;; mret true
      end
    end.

Definition conclude (task : TaskRecord) (result : taskSubmitResult) : ST CWorld () :=
  let failureReason := or_else (su_FailureReason result) (st_Reason (su_Status result)) in
  let name := st_Name (su_Status result) in
  if bool_decide (name = "completed") then ignore (on_store (MarkCompleted (t_TaskID task)))
  else if bool_decide (name = "failed") then fail_task (t_TaskID task) failureReason (su_FailureDetails result)
  else mret tt.

Definition handle_reply (task : TaskRecord) (checkpoint : option CheckpointPayload) (reply : option (Z * string))
    : ST CWorld () :=
  match reply with
  | None => handleDispatchFailure task
  | Some (status, body) =>
    if 500 <=? status then handleDispatchFailure task
    else if 400 <=? status then
      let '(reason, details) := runtimeTaskDispatchFailure status (take_str 4096 body)
                                  (bool_decide (is_Some checkpoint)) in
      fail_task (t_TaskID task) reason details
    else match decode_reply body return ST CWorld () with
    | None => mret tt
    | Some result =>
      (match su_Checkpoint result return ST CWorld () with
       | Some cp => ignore (on_store (SaveCheckpoint (Some cp)))
       | None => mret tt
       end) ;;
      go_on ← handle_artifacts task result;
      if go_on : bool then conclude task result else mret tt
    end
  end.

(** Sends the payload and handles the answer. *)
Definition send (tr : transport) (task : TaskRecord) (checkpoint : option CheckpointPayload) (endpoint : string)
    (members : list (string * string)) : ST CWorld () :=
  let url := endpoint +:+ "/v1/runtime/task/submit" in
  let body := payload_text members in
  match url_Parse url return ST CWorld () with
  | None =>
    let err := "parse " +:+ strconv_Quote url in
    fail_task (t_TaskID task) err (overtureTaskFailureDetails "dispatch" "request_build_failed" err)
  | Some _ =>
    writeEffectJournalPending task ;;
    handle_reply task checkpoint (tr (mkRequest url (dispatch_headers task body) body))
  end.

(** The signed decisions of governed actions, if there are any. *)
Definition with_decisions (tr : transport) (task : TaskRecord) (checkpoint : option CheckpointPayload)
    (endpoint : string) (members : list (string * string)) : ST CWorld () :=
  decisions ← buildSignedGovernedPolicyDecisions task (t_TaskDefinition task);
  if bool_decide (length decisions = 0%nat) then send tr task checkpoint endpoint members
  else
    s ← SaveRoboticsPolicyDecisions (t_TaskID task) decisions;
    match s return ST CWorld () with
    | Err e =>
      fail_task (t_TaskID task) "robotics policy audit persistence failed"
        (overtureTaskFailureDetails "dispatch" "policy_audit_persistence_failed" (error_text e))
    | Ok _ => send tr task checkpoint endpoint (members ++ decision_members decisions)
    end.

Definition with_envelope (tr : transport) (task : TaskRecord) (checkpoint : option CheckpointPayload)
    (endpoint : string) (governance : taskGovernance) (members : list (string * string)) : ST CWorld () :=
  e ← match t_PermissionEnvelope task return ST CWorld (res (option TaskPermissionEnvelope)) with
      | Some e => mret (Ok (Some e))
      | None => build_envelope task governance
      end;
  match e return ST CWorld () with
  | Err e =>
    fail_task (t_TaskID task) "task capability policy denied"
      (overtureTaskFailureDetails "dispatch" "capability_policy_denied" (error_text e))
  | Ok None => mret tt (* only without required capabilities *)
  | Ok (Some envelope) =>
    s ← SaveTaskPermissionEnvelope (t_TaskID task) (Some envelope);
    match s return ST CWorld () with
    | Err e =>
      fail_task (t_TaskID task) "task permission audit persistence failed"
        (overtureTaskFailureDetails "dispatch" "permission_audit_persistence_failed" (error_text e))
    | Ok _ => with_decisions tr task checkpoint endpoint (members ++ envelope_members governance envelope)
    end
  end.

Definition dispatchToRuntime (tr : transport) (task : TaskRecord) (checkpoint : option CheckpointPayload) : ST CWorld () :=
  match normalizeTaskRuntimeEndpoint (Some task) return ST CWorld () with
  | Err _ =>
    fail_task (t_TaskID task) "invalid runtime endpoint"
      (overtureTaskFailureDetails "dispatch" "invalid_runtime_endpoint" "invalid runtime endpoint")
  | Ok endpoint =>
    match unmarshal_rawmap (t_TaskDefinition task) return ST CWorld () with
    | None =>
      fail_task (t_TaskID task) "invalid task definition"
        (overtureTaskFailureDetails "dispatch" "invalid_task_definition" "invalid task definition")
    | Some _ =>
      now ← c_now;
      let governance := taskGovernanceForRecord task in
      let members := base_payload task checkpoint now governance in
      if bool_decide (g_RequiredCapabilities governance = [])
      then with_decisions tr task checkpoint endpoint members
      else with_envelope tr task checkpoint endpoint governance members
    end
  end.
End Dispatch.
