(* ===== verification/Callbacks.v ===== *)
(** * Runtime callbacks

    api/runtime_callback_signature.go and the handlers of api/routes_tasks.go a
    runtime calls while it runs a task (checkpoint, complete, failed), and the
    cancellation by its tenant.  A callback carries a signed envelope; accepted
    nonces are kept in a table of their own.  A handler's answer is its status
    and what it renders, as [reply]; the JSON rendering itself is left out. *)

From S2P Require Import Prelude GoStrings Json Ext WalCodec Checkpoint Types Capability Governance.
From S2P Require Import Store InputRefs Receipts RuntimeClient CoordState Coordinator.
Open Scope Z_scope.

Definition runtimeCallbackVersion : string := "runtime_callback.v1".
Definition runtimeCallbackAlgorithm : string := "ed25519-sha256-canonical-json".
Definition runtimeCallbackFreshness : Z := 5 * Minute.
Definition runtimeCallbackNonceRetention : Z := 24 * Hour.

Record runtimeCallbackEnvelope := mkCallbackEnvelope {
  ce_Version : string;
  ce_TenantID : string;
  ce_TaskID : string;
  ce_RuntimeID : string;
  ce_CallbackType : string;
  ce_BodyDigest : string;
  ce_TimestampUnixMs : Z;
  ce_Nonce : string;
  ce_Algorithm : string;
  ce_Signature : string;
}.
Definition CallbackEnvelope_zero : runtimeCallbackEnvelope := mkCallbackEnvelope "" "" "" "" "" "" 0 "" "" "".

#[export] Instance set_ce_Version : Setter ce_Version := _.
#[export] Instance set_ce_TenantID : Setter ce_TenantID := _.
#[export] Instance set_ce_TaskID : Setter ce_TaskID := _.
#[export] Instance set_ce_RuntimeID : Setter ce_RuntimeID := _.
#[export] Instance set_ce_CallbackType : Setter ce_CallbackType := _.
#[export] Instance set_ce_BodyDigest : Setter ce_BodyDigest := _.
#[export] Instance set_ce_TimestampUnixMs : Setter ce_TimestampUnixMs := _.
#[export] Instance set_ce_Nonce : Setter ce_Nonce := _.
#[export] Instance set_ce_Algorithm : Setter ce_Algorithm := _.
#[export] Instance set_ce_Signature : Setter ce_Signature := _.

#[export] Instance set_cp_TaskID : Setter cp_TaskID := _.

Definition CallbackEnvelope_fields : list (string * dec runtimeCallbackEnvelope) :=
  [("version", field ce_Version (λ x e, e {{ ce_Version := x }}) dec_string);
   ("tenant_id", field ce_TenantID (λ x e, e {{ ce_TenantID := x }}) dec_string);
   ("task_id", field ce_TaskID (λ x e, e {{ ce_TaskID := x }}) dec_string);
   ("runtime_id", field ce_RuntimeID (λ x e, e {{ ce_RuntimeID := x }}) dec_string);
   ("callback_type", field ce_CallbackType (λ x e, e {{ ce_CallbackType := x }}) dec_string);
   ("body_digest", field ce_BodyDigest (λ x e, e {{ ce_BodyDigest := x }}) dec_string);
   ("timestamp_unix_ms", field ce_TimestampUnixMs (λ x e, e {{ ce_TimestampUnixMs := x }}) (dec_int 64));
   ("nonce", field ce_Nonce (λ x e, e {{ ce_Nonce := x }}) dec_string);
   ("algorithm", field ce_Algorithm (λ x e, e {{ ce_Algorithm := x }}) dec_string);
   ("signature", field ce_Signature (λ x e, e {{ ce_Signature := x }}) dec_string)].

Record runtimeCallbackValidation := mkValidation {
  cv_envelope : option runtimeCallbackEnvelope;
  cv_bodyDigest : string;
  cv_reason : string;
  cv_status : Z;
}.

(** What the handlers read of a request. *)
Record callback_request := mkCallback {
  cr_id : string; (* the path parameter *)
  cr_tenant : string; (* the authenticated user, the tenant *)
  cr_envelope_header : string; (* X-Igris-Callback-Envelope *)
  cr_runtime_header : string; (* X-Igris-Runtime-ID *)
  cr_body : string;
}.

(** The three callbacks, with the names the envelope and the table use. *)
Inductive callback_kind : Type := CbCheckpoint | CbComplete | CbFailed.
Definition kind_name (k : callback_kind) : string :=
  match k with CbCheckpoint => "checkpoint" | CbComplete => "complete" | CbFailed => "failed" end.

Definition runtimeCallbackMatchesTask (task : TaskRecord) (runtimeIDs : list string) : bool :=
  match t_RuntimeID task with
  | None => true
  | Some id =>
    let want := TrimSpace id in
    if bool_decide (want = "") then true
    else forallb (λ runtimeID, bool_decide (TrimSpace runtimeID = "") || bool_decide (TrimSpace runtimeID = want)) runtimeIDs
  end.

Definition checkpointRuntimeID (cp : CheckpointPayload) : string :=
  let id := WalCodec.rt_RuntimeID (cp_ResumeToken cp) in
  if nonempty id then TrimSpace id
  else match head (filter (λ e, nonempty (TrimSpace (we_RuntimeID e)) = true) (WalEntries cp)) with
  | Some entry => TrimSpace (we_RuntimeID entry)
  | None => ""
  end.

Definition validateRuntimeCallbackTimestamp (timestampUnixMs : Z) (now : time) : option string :=
  if timestampUnixMs =? 0 then Some "runtime callback timestamp missing"
  else
    let ts := timestampUnixMs * Millisecond in
    if (ts <? now - runtimeCallbackFreshness) || (now + runtimeCallbackFreshness <? ts)
    then Some "runtime callback timestamp outside freshness window"
    else None.

Definition callbackRuntimeID (validation : runtimeCallbackValidation) (header : string) : string :=
  match cv_envelope validation with
  | Some e => if nonempty (ce_RuntimeID e) then ce_RuntimeID e else header
  | None => header
  end.

(** What a handler answers. *)
Inductive reply : Type :=
| RError (status : Z) (error : string)
| RTransitionRejected (task : option TaskRecord) (* 409 *)
| RCallbackRejected (status : Z) (reason : string)
| RTask (task : TaskRecord) (step : option Z) (* 200 *)
| RCanceled (task : TaskRecord) (attempted signaled : bool). (* 200 *)

Section Callbacks.
Context `{Ext} `{CheckpointCodec} `{UUIDSupply} `{MapRange} `{AEAD}.

Definition allowUnsignedRuntimeCallbacks : bool :=
  let value := ToLower (TrimSpace (EnvOrLegacy "OVERTURE_ALLOW_UNSIGNED_RUNTIME_CALLBACKS"
                                     "IGRIS_ALLOW_UNSIGNED_RUNTIME_CALLBACKS")) in
  bool_decide (value = "true") || bool_decide (value = "1") || bool_decide (value = "yes").

Definition sha256Hex (body : string) : string := sha256_hex body.

Definition parseRuntimeCallbackEnvelope (raw : string) : option runtimeCallbackEnvelope :=
  let data :=
    if HasPrefix raw "{" then Some raw
    else match b64_decode false true raw with
    | Some d => Some d
    | None => match b64_decode false false raw with
              | Some d => Some d
              | None => b64_decode true false raw
              end
    end in
  match data with
  | None => None
  | Some data =>
    let '(e, ok) := unmarshal (dec_struct CallbackEnvelope_fields) data CallbackEnvelope_zero in
    if ok then Some e else None
  end.

Definition canonicalRuntimeCallbackEnvelope (e : runtimeCallbackEnvelope) : string :=
  any_map_text
    [("algorithm", str_text (ce_Algorithm e)); ("body_digest", str_text (ce_BodyDigest e));
     ("callback_type", str_text (ce_CallbackType e)); ("nonce", str_text (ce_Nonce e));
     ("runtime_id", str_text (ce_RuntimeID e)); ("task_id", str_text (ce_TaskID e));
     ("tenant_id", str_text (ce_TenantID e)); ("timestamp_unix_ms", num_text (ce_TimestampUnixMs e));
     ("version", str_text (ce_Version e))].

(** [None] when the signature verifies, else the reason. *)
Definition verifyRuntimeCallbackSignature (e : runtimeCallbackEnvelope) (publicKeyHex : string) : option string :=
  match decode_public_key (TrimSpace publicKeyHex) with
  | None => Some "runtime callback public key invalid"
  | Some keyBytes =>
    match b64_decode false true (TrimSpace (ce_Signature e)) with
    | None => Some "runtime callback signature invalid"
    | Some signature =>
      if negb (bool_decide (slen signature = 64%nat)) then Some "runtime callback signature invalid"
      else if bool_decide (TrimSpace (ce_Signature e) = "") then Some "runtime callback signature missing"
      else if ed25519_Verify keyBytes (sha256 (canonicalRuntimeCallbackEnvelope e)) signature then None
      else Some "runtime callback signature verification failed"
    end
  end.

Definition select_callback_key (tenantID runtimeID : string) (t : Tables) : res string :=
  match head (filter (λ ri, ri_tenant_id ri = tenantID ∧ ri_runtime_id ri = runtimeID) (runtime_instances t)) with
  | Some ri => Ok (default "" (ri_public_key_ed25519 ri))
  | None => Err ErrNoRows
  end.

Definition runtimeCallbackPublicKey (tenantID runtimeID : string) : ST CWorld (res string) :=
  publicKeyHex ←? c_exec (λ _ t, (select_callback_key tenantID runtimeID t, t));
  mret (if bool_decide (TrimSpace publicKeyHex = "") then Err ErrNoRows else Ok publicKeyHex).

(** The unique index over tenant, runtime and nonce. *)
Definition same_nonce (tenantID runtimeID nonce : string) (x : nonce_row) : bool :=
  bool_decide (nc_tenant_id x = tenantID) && bool_decide (nc_runtime_id x = runtimeID) && bool_decide (nc_nonce x = nonce).

Definition nonce_of (e : runtimeCallbackEnvelope) (taskID : uuid) (now : time) : nonce_row :=
  mkNonce (ce_TenantID e) taskID (ce_RuntimeID e) (ce_CallbackType e) (ce_Nonce e) (ce_BodyDigest e)
    (ce_TimestampUnixMs e) now.

(** Rows affected: [ON CONFLICT DO NOTHING]. *)
Definition insert_nonce (row : nonce_row) : tstmt Z := λ _ t,
  if existsb (same_nonce (nc_tenant_id row) (nc_runtime_id row) (nc_nonce row)) (runtime_callback_nonces t)
  then (Ok 0, t)
  else (Ok 1, t {{ runtime_callback_nonces ::= λ l, l ++ [row] }}).

Definition reserveRuntimeCallbackNonce (e : runtimeCallbackEnvelope) : ST CWorld (option string) :=
  match uuid_Parse (ce_TaskID e) return ST CWorld (option string) with
  | None => mret (Some "runtime callback task id invalid")
  | Some taskID =>
    now ← c_now;
    r ← c_exec (insert_nonce (nonce_of e taskID now));
    mret match r with
    | Err err => Some ("runtime callback replay store failed: " +:+ error_text err)
    | Ok rows => if rows =? 0 then Some "runtime callback replay detected" else None
    end
  end.

(** The checks on an envelope that need no table, in order; [None] passes. *)
Definition envelope_refusal (e : runtimeCallbackEnvelope) (task : TaskRecord) (tenantID callbackType bodyDigest : string)
    (now : time) : option string :=
  if negb (bool_decide (ce_Version e = runtimeCallbackVersion)) then Some "unsupported runtime callback envelope version"
  else if negb (bool_decide (ce_Algorithm e = runtimeCallbackAlgorithm))
  then Some "unsupported runtime callback signature algorithm"
  else if negb (bool_decide (ce_TenantID e = tenantID)) then Some "runtime callback tenant mismatch"
  else if negb (bool_decide (ce_TaskID e = uuid_String (t_TaskID task))) then Some "runtime callback task mismatch"
  else if negb (bool_decide (ce_CallbackType e = callbackType)) then Some "runtime callback type mismatch"
  else if negb (bool_decide (ce_BodyDigest e = bodyDigest)) then Some "runtime callback body digest mismatch"
  else if bool_decide (TrimSpace (ce_Nonce e) = "") then Some "runtime callback nonce missing"
  else if bool_decide (TrimSpace (ce_RuntimeID e) = "") then Some "runtime callback runtime missing"
  else if negb (runtimeCallbackMatchesTask task [ce_RuntimeID e])
  then Some "runtime callback identity does not match assigned task runtime"
  else validateRuntimeCallbackTimestamp (ce_TimestampUnixMs e) now.

Definition validateRuntimeCallback (c : callback_request) (task : TaskRecord) (tenantID callbackType : string)
    : ST CWorld runtimeCallbackValidation :=
  let bodyDigest := sha256Hex (cr_body c) in
  let rawEnvelope := TrimSpace (cr_envelope_header c) in
  if bool_decide (rawEnvelope = "") then
    mret (if allowUnsignedRuntimeCallbacks then mkValidation None bodyDigest "" 0
          else mkValidation None bodyDigest "missing runtime callback envelope" 403)
  else match parseRuntimeCallbackEnvelope rawEnvelope return ST CWorld runtimeCallbackValidation with
  | None => mret (mkValidation None bodyDigest "malformed runtime callback envelope" 400)
  | Some e =>
    let refused reason := mkValidation (Some e) bodyDigest reason 403 in
    now ← c_now;
    match envelope_refusal e task tenantID callbackType bodyDigest now return ST CWorld runtimeCallbackValidation with
    | Some reason => mret (refused reason)
    | None =>
      k ← runtimeCallbackPublicKey tenantID (ce_RuntimeID e);
      match k return ST CWorld runtimeCallbackValidation with
      | Err _ => mret (refused "runtime callback public key unavailable")
      | Ok publicKeyHex =>
        match verifyRuntimeCallbackSignature e publicKeyHex return ST CWorld runtimeCallbackValidation with
        | Some reason => mret (refused reason)
        | None =>
          n ← reserveRuntimeCallbackNonce e;
          mret match n with
          | Some reason => refused reason
          | None => mkValidation (Some e) bodyDigest "" 0
          end
        end
      end
    end
  end.

Definition CleanupExpiredRuntimeCallbackNonces (retention : Z) : ST CWorld (res Z) :=
  let retention := if retention <=? 0 then runtimeCallbackNonceRetention else retention in
  let retention := if retention <? runtimeCallbackFreshness then runtimeCallbackFreshness else retention in
  now ← c_now;
  let cutoff := now - retention in
  c_exec (λ _ t,
    (Ok (Z.of_nat (length (filter (λ x, nc_accepted_at x < cutoff) (runtime_callback_nonces t)))),
     t {{ runtime_callback_nonces ::= filter (λ x, ¬ nc_accepted_at x < cutoff) }})).

(** Best effort: the outcome is dropped. *)
Definition persistRejectedRuntimeCallback (tenantID : string) (taskID : uuid) (runtimeID callbackType reason bodyDigest : string)
    : ST CWorld () :=
  if bool_decide (tenantID = "") || bool_decide (taskID = uuid_Nil) then mret tt
  else ignore (c_exec (λ _ t, (Ok tt, t {{ boundary_violations ::= λ l, l ++
    [mkViolation tenantID taskID (nullif_empty (TrimSpace runtimeID)) ("runtime_callback_rejected_" +:+ callbackType)
       "critical" reason (nullif_empty bodyDigest)] }}))).

Definition runtimeCallbackRejection (c : callback_request) (task : TaskRecord) (tenantID callbackType : string)
    (validation : runtimeCallbackValidation) : ST CWorld reply :=
  let runtimeID := callbackRuntimeID validation (cr_runtime_header c) in
  let status := if cv_status validation =? 0 then 403 else cv_status validation in
  let reason := if nonempty (cv_reason validation) then cv_reason validation else "runtime callback rejected" in
  persistRejectedRuntimeCallback tenantID (t_TaskID task) runtimeID callbackType reason (cv_bodyDigest validation) ;;
  mret (RCallbackRejected status reason).

(** ** The handlers *)

Definition taskTransitionRejectedPayload (taskID : uuid) (tenantID : string) : ST CWorld reply :=
  t ← on_store (GetTask taskID tenantID);
  mret (RTransitionRejected match t with Ok task => Some task | Err _ => None end).

Record taskFailedCallbackBody := mkFailedBody { fb_Reason : string; fb_FailureDetails : option TaskFailureDetails }.
Definition FailedBody_fields : list (string * dec taskFailedCallbackBody) :=
  [("reason", field fb_Reason (λ x '(mkFailedBody _ b), mkFailedBody x b) dec_string);
   ("failure_details", field fb_FailureDetails (λ x '(mkFailedBody a _), mkFailedBody a x)
     (dec_ptr TaskFailureDetails_zero (dec_struct TaskFailureDetails_fields)))].

Definition refused_identity (v : runtimeCallbackValidation) (reason : string) : runtimeCallbackValidation :=
  mkValidation (cv_envelope v) (cv_bodyDigest v) reason 403.

(** What the three handlers do before they differ: the task of the tenant, a
    status that allows it, and a callback that is accepted. *)
Definition with_accepted (k : callback_kind) (c : callback_request)
    (accepted : uuid → TaskRecord → runtimeCallbackValidation → ST CWorld reply) : ST CWorld reply :=
  match uuid_Parse (cr_id c) return ST CWorld reply with
  | None => mret (RError 400 "invalid task_id")
  | Some taskID =>
    let tenantID := cr_tenant c in
    if bool_decide (tenantID = "") then mret (RError 401 "unauthenticated")
    else
      t ← on_store (GetTask taskID tenantID);
      match t return ST CWorld reply with
      | Err e => mret (if bool_decide (e = ErrNoRows) then RError 404 "task not found" else RError 500 "db_error")
      | Ok task =>
        if negb (TaskAllowsRuntimeMutation (t_Status task)) then
          v ← (if nonempty (TrimSpace (cr_envelope_header c)) then validateRuntimeCallback c task tenantID (kind_name k)
               else mret (mkValidation None (sha256Hex (cr_body c)) "" 0));
          persistRejectedRuntimeCallback tenantID taskID (callbackRuntimeID v (cr_runtime_header c)) (kind_name k)
            ("terminal task does not allow runtime " +:+ kind_name k +:+ " mutation") (cv_bodyDigest v) ;;
          mret (RTransitionRejected (Some task))
        else
          v ← validateRuntimeCallback c task tenantID (kind_name k);
          if nonempty (cv_reason v) then runtimeCallbackRejection c task tenantID (kind_name k) v
          else accepted taskID task v
      end
  end.

(** The error of the operation itself. *)
Definition mutation_failed (e : goerror) (taskID : uuid) (tenantID error : string) : ST CWorld reply :=
  if errors_is e ErrTaskTransitionRejected then taskTransitionRejectedPayload taskID tenantID
  else mret (RError 500 error).

Definition header_mismatch : string := "runtime callback header identity does not match assigned task runtime".

(** What each does with an accepted callback. *)
Definition checkpoint_accepted (c : callback_request) (taskID : uuid) (task : TaskRecord) (v : runtimeCallbackValidation)
    : ST CWorld reply :=
    match unmarshalCheckpoint (cr_body c) return ST CWorld reply with
    | None => mret (RError 400 "invalid_body")
    | Some cp =>
      let cp := cp {{ cp_TaskID := taskID }} in
      if negb (runtimeCallbackMatchesTask task [checkpointRuntimeID cp; cr_runtime_header c]) then
        runtimeCallbackRejection c task (cr_tenant c) "checkpoint"
          (refused_identity v "checkpoint runtime identity does not match assigned task runtime")
      else
        r ← HandleCheckpoint (Some cp);
        match r return ST CWorld reply with
        | Err e => mutation_failed e taskID (cr_tenant c) "checkpoint_failed"
        | Ok _ =>
          u ← on_store (GetTask taskID (cr_tenant c));
          mret (RTask match u with
                | Ok updated => updated
                | Err _ => task {{ t_Status := TaskStatusCheckpointed; t_LastCheckpoint := Some cp }}
                end (Some (LastStep cp)))
        end
    end.

Definition complete_accepted (c : callback_request) (taskID : uuid) (task : TaskRecord) (v : runtimeCallbackValidation)
    : ST CWorld reply :=
    if negb (runtimeCallbackMatchesTask task [""; cr_runtime_header c]) then
      runtimeCallbackRejection c task (cr_tenant c) "complete" (refused_identity v header_mismatch)
    else
      r ← HandleComplete taskID;
      match r return ST CWorld reply with
      | Err e => mutation_failed e taskID (cr_tenant c) "db_error"
      | Ok _ =>
        u ← on_store (GetTask taskID (cr_tenant c));
        now ← c_now;
        mret (RTask match u with
              | Ok updated => updated
              | Err _ => task {{ t_Status := TaskStatusCompleted; t_CompletedAt := Some now }}
              end None)
      end.

Definition failed_accepted (c : callback_request) (taskID : uuid) (task : TaskRecord) (v : runtimeCallbackValidation)
    : ST CWorld reply :=
    if negb (runtimeCallbackMatchesTask task [""; cr_runtime_header c]) then
      runtimeCallbackRejection c task (cr_tenant c) "failed" (refused_identity v header_mismatch)
    else
      let failedBody := (unmarshal (dec_struct FailedBody_fields) (cr_body c) (mkFailedBody "" None)).1 in
      r ← HandleFailedWithDetails taskID (fb_Reason failedBody) (fb_FailureDetails failedBody);
      match r return ST CWorld reply with
      | Err e => mutation_failed e taskID (cr_tenant c) "db_error"
      | Ok _ =>
        ignore (RecordRuntimeFailedRecoveryDecision task (callbackRuntimeID v (cr_runtime_header c))) ;;
        u ← on_store (GetTask taskID (cr_tenant c));
        mret (RTask match u with
              | Ok updated => updated
              | Err _ =>
                let failed := task {{ t_Status := TaskStatusFailed }} in
                if nonempty (fb_Reason failedBody) then failed {{ t_FailureReason := Some (fb_Reason failedBody) }} else failed
              end None)
      end.

Definition handleTaskCheckpoint (c : callback_request) : ST CWorld reply := with_accepted CbCheckpoint c (checkpoint_accepted c).
Definition handleTaskComplete (c : callback_request) : ST CWorld reply := with_accepted CbComplete c (complete_accepted c).
Definition handleTaskFailed (c : callback_request) : ST CWorld reply := with_accepted CbFailed c (failed_accepted c).

(** Cancellation: the record first, then the runtime, whose answer changes
    nothing.  [cancel] is the runtime client's [CancelTask] at an endpoint. *)
Definition handleTaskCancel (cancel : string → uuid → string → res bool) (idParam tenantID : string) : ST CWorld reply :=
  if bool_decide (tenantID = "") then mret (RError 401 "unauthenticated")
  else match uuid_Parse idParam return ST CWorld reply with
  | None => mret (RError 400 "invalid task_id")
  | Some taskID =>
    t ← on_store (GetTask taskID tenantID);
    match t return ST CWorld reply with
    | Err e => mret (if bool_decide (e = ErrNoRows) then RError 404 "task not found" else RError 500 "db_error")
    | Ok task =>
      if negb (TaskAllowsCancellation (t_Status task)) then mret (RTransitionRejected (Some task))
      else
        r ← HandleCancel taskID;
        match r return ST CWorld reply with
        | Err e => mutation_failed e taskID tenantID "db_error"
        | Ok _ =>
          let '(attempted, signaled) :=
            match t_RuntimeEndpoint task with
            | Some endpoint =>
              if nonempty endpoint
              then (true, match cancel endpoint taskID tenantID with Ok s => s | Err _ => false end)
              else (false, false)
            | None => (false, false)
            end in
          u ← on_store (GetTask taskID tenantID);
          mret (RCanceled match u with
                | Ok updated => updated
                | Err _ => task {{ t_Status := TaskStatusCanceled }}
                end attempted signaled)
        end
    end
  end.
End Callbacks.
