(* ===== verification/Submission.v ===== *)
(** * Task submission

    api/routes_tasks.go from [buildTaskSubmitRequest] to [defaultGraphWriteSlot]:
    the public forms of a task (agent tasks, robotics missions, action tasks) and
    the task definitions they are compiled to, and [handleTaskSubmit].  A
    [map[string]interface{}] under construction is the map of its members' texts,
    which [json.Marshal] prints in key order. *)

From S2P Require Import Prelude GoStrings Json GoTime Float64 Ext WalCodec Checkpoint Types.
From S2P Require Import Capability Governance.
From S2P Require Import TaskDef Store InputRefs CoordState Coordinator.
Open Scope Z_scope.

(** ** Decoding *)

Definition float32_zero : f64 := mkF64 false 0 0.

(** [strconv.ParseFloat(lit, 32)]: the nearest [float32] of the decimal. *)
Definition parse_float32 (lit : string) : option f64 :=
  if negb (float64_fits lit) then None
  else
    let '(i, f, e) := float_parts lit in
    let d := default 0 (digits_value 0 (i +:+ f)) in
    let e := e - Z.of_nat (slen f) in
    let neg := HasPrefix lit "-" in
    if Z.of_nat (slen (drop_zeros (i +:+ f))) + e <? -330 then Some (mkF64 neg 0 0)
    else
      let '(num, den) := ratio10 d e in
      let '(m, k) := nearest32 num den in
      let '(a, b) := magnitude (mkF64 neg m k) in
      if a <? 2 ^ 128 * b then Some (mkF64 neg m k) else None.

Definition dec_float32 : dec f64 :=
  λ n old, match n.2 with
           | JNum l => match parse_float32 l with Some x => (x, true) | None => (old, false) end
           | JNull => (old, true)
           | _ => (old, false)
           end.

Definition byte_at (i : nat) (s : string) : string := take_str 1 (drop_str i s).

(** [time.Time.UnmarshalJSON]: the text between the quotes, as it stands, in
    strict RFC 3339. *)
Definition strict_RFC3339 (s : string) : option time :=
  t ← parse_RFC3339 s;
  let num2 i := default 0 (digits_value 0 (take_str 2 (drop_str i s))) in
  if bool_decide (byte_at 12 s = ":") || bool_decide (byte_at 19 s = ",") then None
  else if negb (HasSuffix s "Z") && ((24 <=? num2 (slen s - 5)%nat) || (60 <=? num2 (slen s - 2)%nat)) then None
  else Some t.
Definition dec_time : dec time :=
  λ n old, match n.2 with
           | JStr _ => match strict_RFC3339 (take_str (slen n.1 - 2) (drop_str 1 n.1)) with
                       | Some t => (t, true)
                       | None => (old, false)
                       end
           | JNull => (old, true)
           | _ => (old, false)
           end.

(** ** The public forms *)

Record publicActionStep := mkActionStep {
  as_Action : string;
  as_Path : string;
  as_Method : string;
  as_URL : string;
  as_Body : string;
  as_Headers : option (gmap string string);
  as_Table : string;
  as_Record : option (gmap string (option jv));
}.
Definition publicActionStep_zero : publicActionStep := mkActionStep "" "" "" "" "" None "" None.
#[export] Instance set_as_Action : Setter as_Action := _.
#[export] Instance set_as_Path : Setter as_Path := _.
#[export] Instance set_as_Method : Setter as_Method := _.
#[export] Instance set_as_URL : Setter as_URL := _.
#[export] Instance set_as_Body : Setter as_Body := _.
#[export] Instance set_as_Headers : Setter as_Headers := _.
#[export] Instance set_as_Table : Setter as_Table := _.
#[export] Instance set_as_Record : Setter as_Record := _.
Definition publicActionStep_fields : list (string * dec publicActionStep) :=
  [("action", field as_Action (λ x r, r {{ as_Action := x }}) dec_string);
   ("path", field as_Path (λ x r, r {{ as_Path := x }}) dec_string);
   ("method", field as_Method (λ x r, r {{ as_Method := x }}) dec_string);
   ("url", field as_URL (λ x r, r {{ as_URL := x }}) dec_string);
   ("body", field as_Body (λ x r, r {{ as_Body := x }}) dec_string);
   ("headers", field as_Headers (λ x r, r {{ as_Headers := x }}) (dec_map "" dec_string));
   ("table", field as_Table (λ x r, r {{ as_Table := x }}) dec_string);
   ("record", field as_Record (λ x r, r {{ as_Record := x }}) (dec_map None dec_any))].

Record publicActionTask := mkActionTask {
  act_Name : string;
  act_Steps : list publicActionStep;
  act_CheckpointAfterSteps : option Z;
}.
Definition publicActionTask_zero : publicActionTask := mkActionTask "" [] None.
#[export] Instance set_act_Name : Setter act_Name := _.
#[export] Instance set_act_Steps : Setter act_Steps := _.
#[export] Instance set_act_CheckpointAfterSteps : Setter act_CheckpointAfterSteps := _.
Definition publicActionTask_fields : list (string * dec publicActionTask) :=
  [("name", field act_Name (λ x r, r {{ act_Name := x }}) dec_string);
   ("steps", field act_Steps (λ x r, r {{ act_Steps := x }}) (dec_list publicActionStep_zero (dec_struct publicActionStep_fields)));
   ("checkpoint_after_steps", field act_CheckpointAfterSteps (λ x r, r {{ act_CheckpointAfterSteps := x }}) (dec_ptr 0 (dec_uint 32)))].

Record publicAgentMessage := mkAgentMessage {
  am_Role : string;
  am_Content : string;
}.
Definition publicAgentMessage_zero : publicAgentMessage := mkAgentMessage "" "".
#[export] Instance set_am_Role : Setter am_Role := _.
#[export] Instance set_am_Content : Setter am_Content := _.
Definition publicAgentMessage_fields : list (string * dec publicAgentMessage) :=
  [("role", field am_Role (λ x r, r {{ am_Role := x }}) dec_string);
   ("content", field am_Content (λ x r, r {{ am_Content := x }}) dec_string)].

Record publicAgentMemory := mkAgentMemory {
  mem_RecallQuery : string;
  mem_RecallTopK : option Z;
  mem_StoreKey : string;
  mem_StoreOutput : bool;
}.
Definition publicAgentMemory_zero : publicAgentMemory := mkAgentMemory "" None "" false.
#[export] Instance set_mem_RecallQuery : Setter mem_RecallQuery := _.
#[export] Instance set_mem_RecallTopK : Setter mem_RecallTopK := _.
#[export] Instance set_mem_StoreKey : Setter mem_StoreKey := _.
#[export] Instance set_mem_StoreOutput : Setter mem_StoreOutput := _.
Definition publicAgentMemory_fields : list (string * dec publicAgentMemory) :=
  [("recall_query", field mem_RecallQuery (λ x r, r {{ mem_RecallQuery := x }}) dec_string);
   ("recall_top_k", field mem_RecallTopK (λ x r, r {{ mem_RecallTopK := x }}) (dec_ptr 0 (dec_uint 32)));
   ("store_key", field mem_StoreKey (λ x r, r {{ mem_StoreKey := x }}) dec_string);
   ("store_output", field mem_StoreOutput (λ x r, r {{ mem_StoreOutput := x }}) dec_bool)].

Record publicApproval := mkPublicApproval {
  pa_Required : bool;
  pa_Task : string;
  pa_Confidence : option f64;
  pa_Context : option (gmap string (option jv));
}.
Definition publicApproval_zero : publicApproval := mkPublicApproval false "" None None.
#[export] Instance set_pa_Required : Setter pa_Required := _.
#[export] Instance set_pa_Task : Setter pa_Task := _.
#[export] Instance set_pa_Confidence : Setter pa_Confidence := _.
#[export] Instance set_pa_Context : Setter pa_Context := _.
Definition publicApproval_fields : list (string * dec publicApproval) :=
  [("required", field pa_Required (λ x r, r {{ pa_Required := x }}) dec_bool);
   ("task", field pa_Task (λ x r, r {{ pa_Task := x }}) dec_string);
   ("confidence", field pa_Confidence (λ x r, r {{ pa_Confidence := x }}) (dec_ptr float32_zero dec_float32));
   ("context", field pa_Context (λ x r, r {{ pa_Context := x }}) (dec_map None dec_any))].

Record publicAgentStep := mkAgentStep {
  st_Model : string;
  st_Messages : list publicAgentMessage;
  st_MaxTokens : option Z;
  st_Temperature : option f64;
  st_Mode : string;
  st_Memory : option publicAgentMemory;
  st_Approval : option publicApproval;
}.
Definition publicAgentStep_zero : publicAgentStep := mkAgentStep "" [] None None "" None None.
#[export] Instance set_st_Model : Setter st_Model := _.
#[export] Instance set_st_Messages : Setter st_Messages := _.
#[export] Instance set_st_MaxTokens : Setter st_MaxTokens := _.
#[export] Instance set_st_Temperature : Setter st_Temperature := _.
#[export] Instance set_st_Mode : Setter st_Mode := _.
#[export] Instance set_st_Memory : Setter st_Memory := _.
#[export] Instance set_st_Approval : Setter st_Approval := _.
Definition publicAgentStep_fields : list (string * dec publicAgentStep) :=
  [("model", field st_Model (λ x r, r {{ st_Model := x }}) dec_string);
   ("messages", field st_Messages (λ x r, r {{ st_Messages := x }}) (dec_list publicAgentMessage_zero (dec_struct publicAgentMessage_fields)));
   ("max_tokens", field st_MaxTokens (λ x r, r {{ st_MaxTokens := x }}) (dec_ptr 0 (dec_uint 32)));
   ("temperature", field st_Temperature (λ x r, r {{ st_Temperature := x }}) (dec_ptr float32_zero dec_float32));
   ("mode", field st_Mode (λ x r, r {{ st_Mode := x }}) dec_string);
   ("memory", field st_Memory (λ x r, r {{ st_Memory := x }}) (dec_ptr publicAgentMemory_zero (dec_struct publicAgentMemory_fields)));
   ("approval", field st_Approval (λ x r, r {{ st_Approval := x }}) (dec_ptr publicApproval_zero (dec_struct publicApproval_fields)))].

Record publicAgentTask := mkAgentTask {
  ag_Name : string;
  ag_Model : string;
  ag_Messages : list publicAgentMessage;
  ag_MaxTokens : option Z;
  ag_Temperature : option f64;
  ag_Mode : string;
  ag_Memory : option publicAgentMemory;
  ag_Approval : option publicApproval;
  ag_Steps : list publicAgentStep;
  ag_CheckpointAfterSteps : option Z;
}.
Definition publicAgentTask_zero : publicAgentTask := mkAgentTask "" "" [] None None "" None None [] None.
#[export] Instance set_ag_Name : Setter ag_Name := _.
#[export] Instance set_ag_Model : Setter ag_Model := _.
#[export] Instance set_ag_Messages : Setter ag_Messages := _.
#[export] Instance set_ag_MaxTokens : Setter ag_MaxTokens := _.
#[export] Instance set_ag_Temperature : Setter ag_Temperature := _.
#[export] Instance set_ag_Mode : Setter ag_Mode := _.
#[export] Instance set_ag_Memory : Setter ag_Memory := _.
#[export] Instance set_ag_Approval : Setter ag_Approval := _.
#[export] Instance set_ag_Steps : Setter ag_Steps := _.
#[export] Instance set_ag_CheckpointAfterSteps : Setter ag_CheckpointAfterSteps := _.
Definition publicAgentTask_fields : list (string * dec publicAgentTask) :=
  [("name", field ag_Name (λ x r, r {{ ag_Name := x }}) dec_string);
   ("model", field ag_Model (λ x r, r {{ ag_Model := x }}) dec_string);
   ("messages", field ag_Messages (λ x r, r {{ ag_Messages := x }}) (dec_list publicAgentMessage_zero (dec_struct publicAgentMessage_fields)));
   ("max_tokens", field ag_MaxTokens (λ x r, r {{ ag_MaxTokens := x }}) (dec_ptr 0 (dec_uint 32)));
   ("temperature", field ag_Temperature (λ x r, r {{ ag_Temperature := x }}) (dec_ptr float32_zero dec_float32));
   ("mode", field ag_Mode (λ x r, r {{ ag_Mode := x }}) dec_string);
   ("memory", field ag_Memory (λ x r, r {{ ag_Memory := x }}) (dec_ptr publicAgentMemory_zero (dec_struct publicAgentMemory_fields)));
   ("approval", field ag_Approval (λ x r, r {{ ag_Approval := x }}) (dec_ptr publicApproval_zero (dec_struct publicApproval_fields)));
   ("steps", field ag_Steps (λ x r, r {{ ag_Steps := x }}) (dec_list publicAgentStep_zero (dec_struct publicAgentStep_fields)));
   ("checkpoint_after_steps", field ag_CheckpointAfterSteps (λ x r, r {{ ag_CheckpointAfterSteps := x }}) (dec_ptr 0 (dec_uint 32)))].

Record publicMissionGoal := mkMissionGoal {
  mg_X : string;
  mg_Y : string;
  mg_Z : string;
  mg_OrientationW : string;
  mg_FrameID : string;
}.
Definition publicMissionGoal_zero : publicMissionGoal := mkMissionGoal "0" "0" "0" "0" "".
#[export] Instance set_mg_X : Setter mg_X := _.
#[export] Instance set_mg_Y : Setter mg_Y := _.
#[export] Instance set_mg_Z : Setter mg_Z := _.
#[export] Instance set_mg_OrientationW : Setter mg_OrientationW := _.
#[export] Instance set_mg_FrameID : Setter mg_FrameID := _.
Definition publicMissionGoal_fields : list (string * dec publicMissionGoal) :=
  [("x", field mg_X (λ x r, r {{ mg_X := x }}) dec_float);
   ("y", field mg_Y (λ x r, r {{ mg_Y := x }}) dec_float);
   ("z", field mg_Z (λ x r, r {{ mg_Z := x }}) dec_float);
   ("orientation_w", field mg_OrientationW (λ x r, r {{ mg_OrientationW := x }}) dec_float);
   ("frame_id", field mg_FrameID (λ x r, r {{ mg_FrameID := x }}) dec_string)].

Record publicVelocityStep := mkVelocityStep {
  vs_LinearX : string;
  vs_AngularZ : string;
}.
Definition publicVelocityStep_zero : publicVelocityStep := mkVelocityStep "0" "0".
#[export] Instance set_vs_LinearX : Setter vs_LinearX := _.
#[export] Instance set_vs_AngularZ : Setter vs_AngularZ := _.
Definition publicVelocityStep_fields : list (string * dec publicVelocityStep) :=
  [("linear_x", field vs_LinearX (λ x r, r {{ vs_LinearX := x }}) dec_float);
   ("angular_z", field vs_AngularZ (λ x r, r {{ vs_AngularZ := x }}) dec_float)].

Record publicRoboticsMission := mkMission {
  rm_Name : string;
  rm_Waypoints : list publicMissionGoal;
  rm_Prompt : string;
  rm_PublishVelocity : option publicVelocityStep;
  rm_EmitZeroVelocityOnFinish : bool;
  rm_Approval : option publicApproval;
  rm_WaitTimeoutMs : option Z;
}.
Definition publicRoboticsMission_zero : publicRoboticsMission := mkMission "" [] "" None false None None.
#[export] Instance set_rm_Name : Setter rm_Name := _.
#[export] Instance set_rm_Waypoints : Setter rm_Waypoints := _.
#[export] Instance set_rm_Prompt : Setter rm_Prompt := _.
#[export] Instance set_rm_PublishVelocity : Setter rm_PublishVelocity := _.
#[export] Instance set_rm_EmitZeroVelocityOnFinish : Setter rm_EmitZeroVelocityOnFinish := _.
#[export] Instance set_rm_Approval : Setter rm_Approval := _.
#[export] Instance set_rm_WaitTimeoutMs : Setter rm_WaitTimeoutMs := _.
Definition publicRoboticsMission_fields : list (string * dec publicRoboticsMission) :=
  [("name", field rm_Name (λ x r, r {{ rm_Name := x }}) dec_string);
   ("waypoints", field rm_Waypoints (λ x r, r {{ rm_Waypoints := x }}) (dec_list publicMissionGoal_zero (dec_struct publicMissionGoal_fields)));
   ("prompt", field rm_Prompt (λ x r, r {{ rm_Prompt := x }}) dec_string);
   ("publish_velocity", field rm_PublishVelocity (λ x r, r {{ rm_PublishVelocity := x }}) (dec_ptr publicVelocityStep_zero (dec_struct publicVelocityStep_fields)));
   ("emit_zero_velocity_on_finish", field rm_EmitZeroVelocityOnFinish (λ x r, r {{ rm_EmitZeroVelocityOnFinish := x }}) dec_bool);
   ("approval", field rm_Approval (λ x r, r {{ rm_Approval := x }}) (dec_ptr publicApproval_zero (dec_struct publicApproval_fields)));
   ("wait_timeout_ms", field rm_WaitTimeoutMs (λ x r, r {{ rm_WaitTimeoutMs := x }}) (dec_ptr 0 (dec_uint 64)))].

Record publicTaskSubmitRequest := mkPublicRequest {
  sub_TaskID : uuid;
  sub_TaskType : string;
  sub_TaskDefinition : string;
  sub_AgentTask : option publicAgentTask;
  sub_RoboticsMission : option publicRoboticsMission;
  sub_ActionTask : option publicActionTask;
  sub_AgentIdentity : option AgentIdentity;
  sub_RequiredCapabilities : list string;
  sub_CredentialRequests : list CredentialRequest;
  sub_IdempotencyKey : string;
  sub_DeadlineAt : option time;
}.
Definition publicTaskSubmitRequest_zero : publicTaskSubmitRequest := mkPublicRequest uuid_Nil "" "" None None None None [] [] "" None.
#[export] Instance set_sub_TaskID : Setter sub_TaskID := _.
#[export] Instance set_sub_TaskType : Setter sub_TaskType := _.
#[export] Instance set_sub_TaskDefinition : Setter sub_TaskDefinition := _.
#[export] Instance set_sub_AgentTask : Setter sub_AgentTask := _.
#[export] Instance set_sub_RoboticsMission : Setter sub_RoboticsMission := _.
#[export] Instance set_sub_ActionTask : Setter sub_ActionTask := _.
#[export] Instance set_sub_AgentIdentity : Setter sub_AgentIdentity := _.
#[export] Instance set_sub_RequiredCapabilities : Setter sub_RequiredCapabilities := _.
#[export] Instance set_sub_CredentialRequests : Setter sub_CredentialRequests := _.
#[export] Instance set_sub_IdempotencyKey : Setter sub_IdempotencyKey := _.
#[export] Instance set_sub_DeadlineAt : Setter sub_DeadlineAt := _.
Definition publicTaskSubmitRequest_fields `{Ext} : list (string * dec publicTaskSubmitRequest) :=
  [("task_id", field sub_TaskID (λ x r, r {{ sub_TaskID := x }}) dec_uuid);
   ("task_type", field sub_TaskType (λ x r, r {{ sub_TaskType := x }}) dec_string);
   ("task_definition", field sub_TaskDefinition (λ x r, r {{ sub_TaskDefinition := x }}) dec_raw);
   ("agent_task", field sub_AgentTask (λ x r, r {{ sub_AgentTask := x }}) (dec_ptr publicAgentTask_zero (dec_struct publicAgentTask_fields)));
   ("robotics_mission", field sub_RoboticsMission (λ x r, r {{ sub_RoboticsMission := x }}) (dec_ptr publicRoboticsMission_zero (dec_struct publicRoboticsMission_fields)));
   ("action_task", field sub_ActionTask (λ x r, r {{ sub_ActionTask := x }}) (dec_ptr publicActionTask_zero (dec_struct publicActionTask_fields)));
   ("agent_identity", field sub_AgentIdentity (λ x r, r {{ sub_AgentIdentity := x }}) (dec_ptr AgentIdentity_zero (dec_struct AgentIdentity_fields)));
   ("required_capabilities", field sub_RequiredCapabilities (λ x r, r {{ sub_RequiredCapabilities := x }}) (dec_list "" dec_string));
   ("credential_requests", field sub_CredentialRequests (λ x r, r {{ sub_CredentialRequests := x }}) (dec_list CredentialRequest_zero (dec_struct CredentialRequest_fields)));
   ("idempotency_key", field sub_IdempotencyKey (λ x r, r {{ sub_IdempotencyKey := x }}) dec_string);
   ("deadline_at", field sub_DeadlineAt (λ x r, r {{ sub_DeadlineAt := x }}) (dec_ptr 0 dec_time))].

(** ** Members of the definitions *)

Abbreviation members := (gmap string string).

Definition insert_some (k : string) (v : option string) (m : members) : members :=
  match v with Some v => <[k := v]> m | None => m end.

(** A nil map prints [null]. *)
Definition opt_map_text (m : option members) : string :=
  match m with Some m => map_text m | None => "null" end.

Definition optionalUint32 (value : option Z) : string := match value with Some z => num_text z | None => "null" end.
Definition optionalFloat32 (value : option f64) : string := match value with Some x => json_float32 x | None => "null" end.
Definition optionalString (value : string) : string := if nonempty value then str_text value else "null".

Definition defaultTaskName (name fallback : string) : string := if nonempty name then name else fallback.

(** [strings.ReplaceAll(s, "-", "_")]. *)
Fixpoint dashes_to_underscores (s : string) : string :=
  match s with
  | "" => ""
  | String a s => String (if bool_decide (a = "-"%char) then "_"%char else a) (dashes_to_underscores s)
  end.

Definition defaultGraphWriteSlot (domain : string) (stepIndex : Z) (nodeID : string) : string :=
  let base := dashes_to_underscores nodeID in
  if nonempty base then domain +:+ "." +:+ base else domain +:+ ".step_" +:+ itoa stepIndex.

Definition unwrapTaskDefinitionError (e : goerror) : string :=
  TrimPrefix (error_text e) (error_text ErrInvalidTaskDefinition +:+ ": ").

Section Submission.
Context `{Ext}.

Definition any_map_text (m : gmap string (option jv)) : string := map_text (opt_any_text <$> m).

Definition approval_task (config : publicApproval) (taskName action : string) : string :=
  if nonempty (pa_Task config) then pa_Task config
  else if nonempty taskName then taskName +:+ ":" +:+ action else action.

Definition buildTaskApproval (approvalConfig : option publicApproval) (taskName action : string) (waypointIndex : Z)
    : option members :=
  config ← approvalConfig;
  let approval := {["required" := bool_text (pa_Required config)]} in
  let approval := insert_some "confidence" (json_float32 <$> pa_Confidence config) approval in
  let approval :=
    match pa_Context config with
    | Some ctx =>
      if (size ctx =? 0)%nat then approval
      else
        let context := opt_any_text <$> ctx in
        let context := if nonempty taskName then <["task_name" := str_text taskName]> context else context in
        let context := <["action" := str_text action]> context in
        let context := if 0 <? waypointIndex then <["waypoint_index" := num_text waypointIndex]> context else context in
        <["context" := map_text context]> approval
    | None => approval
    end in
  Some (<["task" := str_text (approval_task config taskName action)]> approval).

(** ** Agent tasks *)

Definition requirePublicAgentMessages (model : string) (messages : list publicAgentMessage) : res () :=
  if bool_decide (model = "") then Err (invalidTaskDefinition "model is required")
  else if bool_decide (length messages = 0%nat)
  then Err (invalidTaskDefinition "messages must contain at least one message")
  else res_forMi (λ idx message,
    if bool_decide (am_Role message = "") then Err (invalidTaskDefinition (indexed "messages" idx +:+ ".role is required"))
    else guard_err (bool_decide (am_Content message = ""))
           (invalidTaskDefinition (indexed "messages" idx +:+ ".content is required"))) 0 messages.

Definition message_text (message : publicAgentMessage) : string :=
  map_text {["role" := str_text (am_Role message); "content" := str_text (am_Content message)]}.
Definition buildAgentMessages (messages : list publicAgentMessage) : string := arr_text (message_text <$> messages).

Definition buildAgentMemory (memory : option publicAgentMemory) : option members :=
  memory ← memory;
  let payload := ∅ in
  let payload := if nonempty (mem_RecallQuery memory) then <["recall_query" := str_text (mem_RecallQuery memory)]> payload
                 else payload in
  let payload := insert_some "recall_top_k" (num_text <$> mem_RecallTopK memory) payload in
  let payload := if nonempty (mem_StoreKey memory) then <["store_key" := str_text (mem_StoreKey memory)]> payload
                 else payload in
  let payload := if mem_StoreOutput memory then <["store_output" := bool_text true]> payload else payload in
  if (size payload =? 0)%nat then None else Some payload.

(** The members that are there when set. *)
Definition agent_options (taskName action : string) (stepIndex : Z) (step : publicAgentStep) (m : members) : members :=
  let m := insert_some "max_tokens" (num_text <$> st_MaxTokens step) m in
  let m := insert_some "temperature" (json_float32 <$> st_Temperature step) m in
  let m := if nonempty (st_Mode step) then <["mode" := str_text (st_Mode step)]> m else m in
  let m := insert_some "memory" (map_text <$> buildAgentMemory (st_Memory step)) m in
  insert_some "approval" (map_text <$> buildTaskApproval (st_Approval step) taskName action stepIndex) m.

Definition buildAgentStepDefinition (stepIndex : Z) (taskName : string) (step : publicAgentStep) : members :=
  agent_options taskName "agent_step" stepIndex step
    (<["step_index" := num_text stepIndex]> (<["model" := str_text (st_Model step)]>
      {["messages" := buildAgentMessages (st_Messages step)]})).

Definition node_name (taskName fallback : string) (idx : Z) : string := defaultTaskName taskName fallback +:+ "-" +:+ itoa idx.
Definition checkpoint_name (taskName fallback : string) (idx : Z) : string :=
  defaultTaskName taskName fallback +:+ "-checkpoint-" +:+ itoa idx.

Definition buildAgentReasonNode (stepIndex : Z) (taskName : string) (step : publicAgentStep) : members :=
  let nodeID := node_name taskName "reason" stepIndex in
  let node := <["kind" := str_text "reason"]> (<["node_id" := str_text nodeID]>
    (<["step_index" := num_text stepIndex]> (<["write_slot" := str_text (defaultGraphWriteSlot "reason" stepIndex nodeID)]>
    (<["model" := str_text (st_Model step)]> {["messages" := buildAgentMessages (st_Messages step)]})))) in
  <["checkpoint_key" := str_text (checkpoint_name taskName "reason" stepIndex)]>
    (agent_options taskName "reason" stepIndex step node).

(** A task without steps is one step. *)
Definition task_as_step (task : publicAgentTask) : publicAgentStep :=
  mkAgentStep (ag_Model task) (ag_Messages task) (ag_MaxTokens task) (ag_Temperature task) (ag_Mode task) (ag_Memory task)
    (ag_Approval task).

(** The steps of a task, each checked, from index [first]. *)
Fixpoint build_steps (build : Z → publicAgentStep → members) (idx : nat) (first : Z) (steps : list publicAgentStep)
    : res (list members) :=
  match steps with
  | [] => Ok []
  | step :: steps =>
    match requirePublicAgentMessages (st_Model step) (st_Messages step) with
    | Err e => Err (invalidTaskDefinition (indexed "agent_task.steps" idx +:+ ": " +:+ unwrapTaskDefinitionError e))
    | Ok _ => rest ← build_steps build (S idx) first steps; Ok (build (first + Z.of_nat idx) step :: rest)
    end
  end.

Definition agent_steps (build : Z → publicAgentStep → members) (first : Z) (task : publicAgentTask) : res (list members) :=
  match ag_Steps task with
  | [] => _ ← requirePublicAgentMessages (ag_Model task) (ag_Messages task); Ok [build first (task_as_step task)]
  | steps => build_steps build 0 first steps
  end.

Definition buildAgentWorkflowSteps (task : publicAgentTask) : res (list members) :=
  agent_steps (λ i step, buildAgentStepDefinition i (ag_Name task) step) 1 task.

Definition buildExecutionGraphDefinition (name : string) (nodes : list members) (checkpointAfterSteps : option Z) : string :=
  let graph := {["nodes" := arr_text (map_text <$> nodes)]} in
  let graph := if nonempty name then <["graph_id" := str_text name]> graph else graph in
  map_text (insert_some "checkpoint_after_steps" (num_text <$> checkpointAfterSteps) {["graph" := map_text graph]}).

Definition buildAgentExecutionGraphDefinition (task : publicAgentTask) : res string :=
  nodes ← agent_steps (λ i step, buildAgentReasonNode i (ag_Name task) step) 0 task;
  Ok (buildExecutionGraphDefinition (ag_Name task) nodes None).

Definition buildAgentTaskDefinition (taskType : string) (task : publicAgentTask) : res string :=
  if bool_decide (taskType = "execution_graph") then buildAgentExecutionGraphDefinition task
  else if bool_decide (taskType = "single_inference") then
    if (0 <? length (ag_Steps task))%nat
    then Err (invalidTaskDefinition "agent_task.steps is only valid with task_type=agent_workflow")
    else
      _ ← requirePublicAgentMessages (ag_Model task) (ag_Messages task);
      Ok (map_text (<["model" := str_text (ag_Model task)]> (<["messages" := buildAgentMessages (ag_Messages task)]>
        (<["max_tokens" := optionalUint32 (ag_MaxTokens task)]> (<["temperature" := optionalFloat32 (ag_Temperature task)]>
        (<["mode" := optionalString (ag_Mode task)]> (<["memory" := opt_map_text (buildAgentMemory (ag_Memory task))]>
        {["approval" := opt_map_text (buildTaskApproval (ag_Approval task) (ag_Name task) "single_inference" 0)]})))))))
  else if bool_decide (taskType = "agent_workflow") then
    steps ← buildAgentWorkflowSteps task;
    Ok (map_text (insert_some "checkpoint_after_steps" (num_text <$> ag_CheckpointAfterSteps task)
          {["steps" := arr_text (map_text <$> steps)]}))
  else Err (invalidTaskDefinition "agent_task is only valid with task_type=single_inference, task_type=agent_workflow, or task_type=execution_graph").

(** ** Robotics missions *)

Definition float_zero (lit : string) : bool := f_man (float64_of lit) =? 0.

Definition goal_text (waypoint : publicMissionGoal) : string :=
  let goal := <["x" := json_float (mg_X waypoint)]> {["y" := json_float (mg_Y waypoint)]} in
  let goal := if float_zero (mg_Z waypoint) then goal else <["z" := json_float (mg_Z waypoint)]> goal in
  let goal := if float_zero (mg_OrientationW waypoint) then goal
              else <["orientation_w" := json_float (mg_OrientationW waypoint)]> goal in
  map_text (if nonempty (mg_FrameID waypoint) then <["frame_id" := str_text (mg_FrameID waypoint)]> goal else goal).

(** An action of a mission, without the members that depend on its position. *)
Definition mission_action (mission : publicRoboticsMission) (action : string) (waypointIndex : Z) (m : members) : members :=
  insert_some "approval" (map_text <$> buildTaskApproval (rm_Approval mission) (rm_Name mission) action waypointIndex)
    (<["action" := str_text action]> m).

Definition mission_actions (mission : publicRoboticsMission) : list members :=
  imap (λ idx waypoint, mission_action mission "navigate_to_pose" (Z.of_nat idx + 1)
          (insert_some "wait_timeout_ms" (num_text <$> rm_WaitTimeoutMs mission) {["goal" := goal_text waypoint]}))
    (rm_Waypoints mission)
  ++ (if nonempty (rm_Prompt mission)
      then [mission_action mission "publish_prompt" 0 {["prompt" := str_text (rm_Prompt mission)]}] else [])
  ++ match rm_PublishVelocity mission with
     | Some v => [mission_action mission "publish_velocity" 0
                    (<["linear_x" := json_float (vs_LinearX v)]> {["angular_z" := json_float (vs_AngularZ v)]})]
     | None => []
     end
  ++ (if rm_EmitZeroVelocityOnFinish mission then [mission_action mission "publish_zero_velocity" 0 ∅] else []).

Definition empty_mission : goerror :=
  invalidTaskDefinition "robotics_mission must include at least one waypoint, prompt, or velocity action".

Definition robotics_step (idx : nat) (action : members) : members := <["step_index" := num_text (Z.of_nat idx + 1)]> action.

Definition robotics_node (mission : publicRoboticsMission) (idx : nat) (action : members) : members :=
  let i := Z.of_nat idx in
  let nodeID := node_name (rm_Name mission) "robotics" i in
  <["kind" := str_text "robotics"]> (<["node_id" := str_text nodeID]> (<["step_index" := num_text i]>
    (<["checkpoint_key" := str_text (checkpoint_name (rm_Name mission) "robotics" i)]>
    (<["write_slot" := str_text (defaultGraphWriteSlot "robotics" i nodeID)]> action)))).

Definition buildRoboticsExecutionGraphDefinition (mission : publicRoboticsMission) : res string :=
  let nodes := imap (robotics_node mission) (mission_actions mission) in
  if bool_decide (length nodes = 0%nat) then Err empty_mission
  else Ok (buildExecutionGraphDefinition (rm_Name mission) nodes None).

Definition buildRoboticsMissionTaskDefinition (mission : publicRoboticsMission) (taskType : string) : res string :=
  let targetTaskType := if nonempty taskType then taskType else "robotics_workflow" in
  if negb (bool_decide (targetTaskType = "robotics_workflow")) && negb (bool_decide (targetTaskType = "execution_graph"))
  then Err (invalidTaskDefinition "robotics_mission is only valid with task_type=robotics_workflow or task_type=execution_graph")
  else if bool_decide (targetTaskType = "execution_graph") then buildRoboticsExecutionGraphDefinition mission
  else
    let steps := imap robotics_step (mission_actions mission) in
    if bool_decide (length steps = 0%nat) then Err empty_mission
    else Ok (map_text {["steps" := arr_text (map_text <$> steps)]}).

(** ** Action tasks *)

Definition action_required (idx : nat) (fld suffix : string) : goerror :=
  invalidTaskDefinition (indexed "action_task.steps" idx +:+ "." +:+ fld +:+ " is required" +:+ suffix).

(** The tool an action runs, and its arguments. *)
Definition action_tool (idx : nat) (action : string) (step : publicActionStep) : res (string * members) :=
  if bool_decide (action = "read_file") then
    if bool_decide (TrimSpace (as_Path step) = "") then Err (action_required idx "path" " for read_file")
    else Ok ("filesystem", <["operation" := str_text "read"]> {["path" := str_text (as_Path step)]})
  else if bool_decide (action = "http_call") then
    if bool_decide (TrimSpace (as_URL step) = "") then Err (action_required idx "url" " for http_call")
    else
      let method := ToUpper (TrimSpace (as_Method step)) in
      let method := if nonempty method then method else "GET" in
      let args := <["method" := str_text method]> {["url" := str_text (as_URL step)]} in
      let args := if nonempty (as_Body step) then <["body" := str_text (as_Body step)]> args else args in
      let headers := default ∅ (as_Headers step) in
      let args := if (0 <? size headers)%nat then <["headers" := map_text (str_text <$> headers)]> args else args in
      Ok ("http_request", args)
  else if bool_decide (action = "db_write") then
    if bool_decide (TrimSpace (as_Table step) = "") then Err (action_required idx "table" " for db_write")
    else Ok ("database_write", <["table" := str_text (as_Table step)]>
               {["record" := any_map_text (default ∅ (as_Record step))]})
  else Err (invalidTaskDefinition (indexed "action_task.steps" idx +:+ ".action " +:+ strconv_Quote (as_Action step) +:+
              " is not supported (use read_file, http_call, or db_write)")).

Definition action_node (name : string) (idx : nat) (step : publicActionStep) : res members :=
  let action := ToLower (TrimSpace (as_Action step)) in
  if bool_decide (action = "") then Err (action_required idx "action" "")
  else
    '(tool, args) ← action_tool idx action step;
    let i := Z.of_nat idx in
    let nodeID := action +:+ "-" +:+ itoa i in
    Ok (<["kind" := str_text "tool"]> (<["node_id" := str_text nodeID]>
         (<["checkpoint_key" := str_text (name +:+ "-checkpoint-" +:+ itoa i)]>
         (<["write_slot" := str_text (defaultGraphWriteSlot "action" i nodeID)]>
         (<["tool_name" := str_text tool]> {["args" := map_text args]}))))).

Fixpoint action_nodes (name : string) (idx : nat) (steps : list publicActionStep) : res (list members) :=
  match steps with
  | [] => Ok []
  | step :: steps => node ← action_node name idx step; rest ← action_nodes name (S idx) steps; Ok (node :: rest)
  end.

Definition buildActionWorkflowDefinition (task : publicActionTask) : res string :=
  if bool_decide (length (act_Steps task) = 0%nat)
  then Err (invalidTaskDefinition "action_task.steps must contain at least one step")
  else
    let name := defaultTaskName (act_Name task) "action" in
    nodes ← action_nodes name 0 (act_Steps task);
    Ok (buildExecutionGraphDefinition name nodes (act_CheckpointAfterSteps task)).

(** ** Requests *)

Definition conflictingTaskInputCount (raw : publicTaskSubmitRequest) : nat :=
  (if nonempty (sub_TaskDefinition raw) then 1 else 0) + (if bool_decide (is_Some (sub_AgentTask raw)) then 1 else 0) +
  (if bool_decide (is_Some (sub_RoboticsMission raw)) then 1 else 0) + (if bool_decide (is_Some (sub_ActionTask raw)) then 1 else 0).

(** The definition and the type it is submitted under. *)
Definition compile_form (raw : publicTaskSubmitRequest) : res (string * string) :=
  if nonempty (sub_TaskDefinition raw) then Ok (sub_TaskDefinition raw, sub_TaskType raw)
  else match sub_AgentTask raw, sub_RoboticsMission raw, sub_ActionTask raw with
  | Some task, _, _ => d ← buildAgentTaskDefinition (sub_TaskType raw) task; Ok (d, sub_TaskType raw)
  | None, Some mission, _ => d ← buildRoboticsMissionTaskDefinition mission (sub_TaskType raw); Ok (d, sub_TaskType raw)
  | None, None, Some task =>
    if nonempty (sub_TaskType raw) && negb (bool_decide (sub_TaskType raw = "action_workflow"))
    then Err (invalidTaskDefinition "action_task is only valid with task_type=action_workflow")
    else d ← buildActionWorkflowDefinition task; Ok (d, "execution_graph")
  | None, None, None => Ok ("", sub_TaskType raw)
  end.

Definition buildTaskSubmitRequest (body tenantID : string) : res TaskSubmitRequest :=
  let '(raw, ok) := unmarshal (dec_struct publicTaskSubmitRequest_fields) body publicTaskSubmitRequest_zero in
  if negb ok then Err (Errorf "json: cannot unmarshal")
  else if (1 <? conflictingTaskInputCount raw)%nat
  then Err (invalidTaskDefinition "provide only one of task_definition, agent_task, robotics_mission, or action_task")
  else
    '(taskDefinition, taskType) ← compile_form raw;
    Ok (mkSubmitRequest (sub_TaskID raw) tenantID taskType taskDefinition (sub_AgentIdentity raw)
          (sub_RequiredCapabilities raw) (sub_CredentialRequests raw) (sub_IdempotencyKey raw) (sub_DeadlineAt raw)
          "" None "" None).
End Submission.

(** ** The handler *)

(** A reply without a [message] member has the empty one here. *)
Inductive submit_reply : Type :=
| SubmitRefused (status : Z) (error message : string)
| SubmitAccepted (task : TaskRecord). (* 202 *)

Section Handler.
Context `{Ext} `{CheckpointCodec} `{UUIDSupply} `{MapRange} `{AEAD} `{SortSlice} (cfg : ExecutionConfig).

Definition submit_error (e : goerror) : submit_reply :=
  if errors_is e ErrInvalidTaskDefinition then SubmitRefused 400 "invalid_task_definition" (error_text e)
  else if errors_is e ErrTaskCapabilityDenied then SubmitRefused 403 "capability_policy_denied" (error_text e)
  else if errors_is e ErrExecutionInputProtectionUnavailable then
    SubmitRefused 503 "input_protection_unavailable"
      "this task's input requires encrypted input protection, but the input-ref keyring is not configured or failed; set IGRIS_EXECUTION_INPUT_REF_KEYS and IGRIS_EXECUTION_INPUT_REF_ACTIVE_KEY_VERSION"
  else SubmitRefused 503 "dispatch_failed" (error_text e).

(** [None] is a panic of the coordinator. *)
Definition handleTaskSubmit (body tenantID : string) : ST CWorld (option submit_reply) :=
  if bool_decide (tenantID = "") then mret (Some (SubmitRefused 401 "unauthenticated" ""))
  else match buildTaskSubmitRequest body tenantID return ST CWorld (option submit_reply) with
  | Err e =>
    mret (Some (if errors_is e ErrInvalidTaskDefinition then SubmitRefused 400 "invalid_task_definition" (error_text e)
                else SubmitRefused 400 "invalid_body" ""))
  | Ok req =>
    if bool_decide (sr_TaskDefinition req = "") then mret (Some (SubmitRefused 400 "task_definition required" ""))
    else if bool_decide (sr_TaskType req = "") then mret (Some (SubmitRefused 400 "task_type required" ""))
    else
      r ← Submit cfg req;
      mret match r with
      | None => None
      | Some (Err e) => Some (submit_error e)
      | Some (Ok task) => Some (SubmitAccepted task)
      end
  end.
End Handler.
