(* ===== verification/PolicyProposals.v ===== *)
(** * Policy proposals

    policyproposals/proposal.go and store.go over the tables of migration 065:
    draft policy rules, their review and approval, and their audit trail.  The
    store's methods run as transactions over the tables; [Update] reads the
    proposal first and writes what it read, so its two halves are definitions of
    their own. *)

From S2P Require Import Prelude GoStrings Json Ext WalCodec Checkpoint Types Capability Governance.
From S2P Require Import Store InputRefs CoordState.
Open Scope Z_scope.

Definition ErrNotFound : goerror := Sentinel "policy proposal not found".
Definition ErrInvalidTransition : goerror := Sentinel "invalid policy proposal status transition".
Definition ErrNotSimulated : goerror := Sentinel "policy proposal has not been simulated yet".

Definition StatusDraft : string := "draft".
Definition StatusReviewReady : string := "review_ready".
Definition StatusApproved : string := "approved".
Definition StatusArchived : string := "archived".
Definition PolicyModeRequireApproval : string := "require_approval".
Definition PolicyModeBlock : string := "block".

Definition maxNameLen : nat := 120.
Definition maxDescriptionLen : nat := 512.
Definition maxMatchValueLen : nat := 256.

Definition allowedPolicyModes : list string := [PolicyModeRequireApproval; PolicyModeBlock].
Definition allowedRanges : list string := ["24h"; "7d"; "30d"].
Definition allowedResultStatuses : list string :=
  ["completed"; "failed"; "canceled"; "approval_required"; "dispatched"; "in_flight"; "running"; "pending"].

Record MatchCriteria := mkCriteria {
  mc_Range : string;
  mc_MatchActionName : string;
  mc_MatchActionPrefix : string;
  mc_MatchAgentID : string;
  mc_MatchAgentType : string;
  mc_MatchResultStatus : string;
  mc_RequireProofMissing : bool;
  mc_RequireRecoveryOccurred : bool;
  mc_RequireEvalFailed : bool;
}.
Definition MatchCriteria_zero : MatchCriteria := mkCriteria "" "" "" "" "" "" false false false.

Definition omit_false (k : string) (b : bool) : list (string * string) := if b then [(k, bool_text true)] else [].

(** [json.Marshal(criteria)]. *)
Definition MatchCriteria_text (m : MatchCriteria) : string :=
  obj_text ([("range", str_text (mc_Range m))]
    ++ omit_empty "match_action_name" (mc_MatchActionName m) ++ omit_empty "match_action_prefix" (mc_MatchActionPrefix m)
    ++ omit_empty "match_agent_id" (mc_MatchAgentID m) ++ omit_empty "match_agent_type" (mc_MatchAgentType m)
    ++ omit_empty "match_result_status" (mc_MatchResultStatus m)
    ++ omit_false "require_proof_missing" (mc_RequireProofMissing m)
    ++ omit_false "require_recovery_occurred" (mc_RequireRecoveryOccurred m)
    ++ omit_false "require_eval_failed" (mc_RequireEvalFailed m)).

#[export] Instance set_mc_Range : Setter mc_Range := _.
#[export] Instance set_mc_MatchActionName : Setter mc_MatchActionName := _.
#[export] Instance set_mc_MatchActionPrefix : Setter mc_MatchActionPrefix := _.
#[export] Instance set_mc_MatchAgentID : Setter mc_MatchAgentID := _.
#[export] Instance set_mc_MatchAgentType : Setter mc_MatchAgentType := _.
#[export] Instance set_mc_MatchResultStatus : Setter mc_MatchResultStatus := _.
#[export] Instance set_mc_RequireProofMissing : Setter mc_RequireProofMissing := _.
#[export] Instance set_mc_RequireRecoveryOccurred : Setter mc_RequireRecoveryOccurred := _.
#[export] Instance set_mc_RequireEvalFailed : Setter mc_RequireEvalFailed := _.

Definition MatchCriteria_fields : list (string * dec MatchCriteria) :=
  [("range", field mc_Range (λ x m, m {{ mc_Range := x }}) dec_string);
   ("match_action_name", field mc_MatchActionName (λ x m, m {{ mc_MatchActionName := x }}) dec_string);
   ("match_action_prefix", field mc_MatchActionPrefix (λ x m, m {{ mc_MatchActionPrefix := x }}) dec_string);
   ("match_agent_id", field mc_MatchAgentID (λ x m, m {{ mc_MatchAgentID := x }}) dec_string);
   ("match_agent_type", field mc_MatchAgentType (λ x m, m {{ mc_MatchAgentType := x }}) dec_string);
   ("match_result_status", field mc_MatchResultStatus (λ x m, m {{ mc_MatchResultStatus := x }}) dec_string);
   ("require_proof_missing", field mc_RequireProofMissing (λ x m, m {{ mc_RequireProofMissing := x }}) dec_bool);
   ("require_recovery_occurred", field mc_RequireRecoveryOccurred (λ x m, m {{ mc_RequireRecoveryOccurred := x }}) dec_bool);
   ("require_eval_failed", field mc_RequireEvalFailed (λ x m, m {{ mc_RequireEvalFailed := x }}) dec_bool)].

Record Proposal := mkProposal {
  pp_ProposalID : uuid;
  pp_TenantID : string;
  pp_Name : string;
  pp_Description : string;
  pp_Status : string;
  pp_PolicyMode : string;
  pp_MatchCriteria : MatchCriteria;
  pp_LatestSimulation : string;
  pp_CreatedBy : string;
  pp_CreatedAt : time;
  pp_UpdatedAt : time;
  pp_ArchivedAt : option time;
}.

Record CreateInput := mkCreateInput {
  ci_Name : string;
  ci_Description : string;
  ci_PolicyMode : string;
  ci_MatchCriteria : MatchCriteria;
}.

Record UpdateInput := mkUpdateInput {
  ui_Name : option string;
  ui_Description : option string;
  ui_PolicyMode : option string;
  ui_MatchCriteria : option MatchCriteria;
  ui_Status : option string;
}.

(** ** Validation *)

Definition proposal_markers : list string :=
  ["prompt"; "chain of thought"; "chain-of-thought"; "chain_of_thought"; "hidden reasoning"; "raw_body"; "request_body";
   "response_body"; "ciphertext"; "nonce"; "api key"; "api_key"; "apikey"; "authorization:"; "bearer "; "cookie";
   "private key"; "private_key"; "password"; "-----begin"].

Definition looksUnsafe (value : string) : bool :=
  let lower := ToLower (TrimSpace value) in
  if bool_decide (lower = "") then false
  else existsb (Contains lower) proposal_markers || HasPrefix lower "sk-" || HasPrefix lower "igris_".

Definition ValidateMatchCriteria (m : MatchCriteria) : res MatchCriteria :=
  let out := mkCriteria (TrimSpace (mc_Range m)) (TrimSpace (mc_MatchActionName m)) (TrimSpace (mc_MatchActionPrefix m))
    (TrimSpace (mc_MatchAgentID m)) (TrimSpace (mc_MatchAgentType m)) (TrimSpace (mc_MatchResultStatus m))
    (mc_RequireProofMissing m) (mc_RequireRecoveryOccurred m) (mc_RequireEvalFailed m) in
  let values := [mc_MatchActionName out; mc_MatchActionPrefix out; mc_MatchAgentID out; mc_MatchAgentType out] in
  if negb (bool_decide (mc_Range out ∈ allowedRanges)) then Err (Errorf "range must be one of 24h, 7d, 30d")
  else if existsb (λ v, (maxMatchValueLen <? slen v)%nat) values
  then Err (Errorf "match value must be at most 256 characters")
  else if nonempty (mc_MatchResultStatus out) && negb (bool_decide (mc_MatchResultStatus out ∈ allowedResultStatuses))
  then Err (Errorf "match_result_status is not a known execution status")
  else if existsb looksUnsafe values
  then Err (Errorf "match criteria must not contain prompts, raw bodies, or secrets")
  else Ok out.

Definition ValidateCreateInput (input : CreateInput) : res CreateInput :=
  let name := TrimSpace (ci_Name input) in
  let description := TrimSpace (ci_Description input) in
  if bool_decide (name = "") then Err (Errorf "name is required")
  else if (maxNameLen <? slen name)%nat then Err (Errorf "name must be at most 120 characters")
  else if (maxDescriptionLen <? slen description)%nat then Err (Errorf "description must be at most 512 characters")
  else if looksUnsafe name || looksUnsafe description
  then Err (Errorf "proposal metadata must not contain prompts, raw bodies, or secrets")
  else
    let mode := TrimSpace (ci_PolicyMode input) in
    if negb (bool_decide (mode ∈ allowedPolicyModes)) then Err (Errorf "policy_mode must be require_approval or block")
    else criteria ← ValidateMatchCriteria (ci_MatchCriteria input); Ok (mkCreateInput name description mode criteria).

(** An optional field: absent, or validated. *)
Definition validate_field {A} (x : option A) (check : A → res A) : res (option A) :=
  match x with
  | None => Ok None
  | Some v => v' ← check v; Ok (Some v')
  end.

Definition ValidateUpdateInput (input : UpdateInput) : res UpdateInput :=
  name ← validate_field (ui_Name input) (λ v,
    let v := TrimSpace v in
    if bool_decide (v = "") then Err (Errorf "name must not be empty")
    else if (maxNameLen <? slen v)%nat || looksUnsafe v then Err (Errorf "name is invalid") else Ok v);
  description ← validate_field (ui_Description input) (λ v,
    let v := TrimSpace v in
    if (maxDescriptionLen <? slen v)%nat || looksUnsafe v then Err (Errorf "description is invalid") else Ok v);
  mode ← validate_field (ui_PolicyMode input) (λ v,
    let v := TrimSpace v in
    if negb (bool_decide (v ∈ allowedPolicyModes)) then Err (Errorf "policy_mode must be require_approval or block") else Ok v);
  criteria ← validate_field (ui_MatchCriteria input) ValidateMatchCriteria;
  status ← validate_field (ui_Status input) (λ v,
    let v := TrimSpace v in
    if negb (bool_decide (v = StatusDraft)) && negb (bool_decide (v = StatusReviewReady))
    then Err (Errorf "status may only be set to draft or review_ready") else Ok v);
  Ok (mkUpdateInput name description mode criteria status).

Definition hasContentEdit (u : UpdateInput) : bool :=
  bool_decide (is_Some (ui_Name u)) || bool_decide (is_Some (ui_Description u)) ||
  bool_decide (is_Some (ui_PolicyMode u)) || bool_decide (is_Some (ui_MatchCriteria u)).

Definition canEditContent (status : string) : bool := bool_decide (status = StatusDraft).

Definition canToggleReadiness (from to : string) : bool :=
  if bool_decide (from = StatusDraft) && bool_decide (to = StatusReviewReady) then true
  else if bool_decide (from = StatusReviewReady) && bool_decide (to = StatusDraft) then true
  else bool_decide (from = to).

(** ** The tables *)

#[export] Instance set_pr_name : Setter pr_name := _.
#[export] Instance set_pr_description : Setter pr_description := _.
#[export] Instance set_pr_status : Setter pr_status := _.
#[export] Instance set_pr_policy_mode : Setter pr_policy_mode := _.
#[export] Instance set_pr_match_criteria_json : Setter pr_match_criteria_json := _.
#[export] Instance set_pr_latest_simulation_json : Setter pr_latest_simulation_json := _.
#[export] Instance set_pr_updated_at : Setter pr_updated_at := _.
#[export] Instance set_pr_archived_at : Setter pr_archived_at := _.

(** A JSONB value that is an object. *)
Definition is_json_object (s : string) : bool :=
  match json_parse s with Some (_, JObj _) => true | _ => false end.

(** The checks of the table. *)
Definition proposal_admissible (x : proposal_row) : bool :=
  bool_decide (pr_status x ∈ [StatusDraft; StatusReviewReady; StatusApproved; StatusArchived]) &&
  bool_decide (pr_policy_mode x ∈ allowedPolicyModes) && is_json_object (pr_match_criteria_json x) &&
  match pr_latest_simulation_json x with Some s => is_json_object s | None => true end.

(** [tenant_id = $1 AND proposal_id = $2 AND archived_at IS NULL]. *)
Definition active_proposal (tenantID : string) (id : uuid) (x : proposal_row) : bool :=
  bool_decide (pr_tenant_id x = tenantID) && bool_decide (pr_proposal_id x = id) && bool_decide (pr_archived_at x = None).

(** [UPDATE ... WHERE P RETURNING ...] of a table with a primary key. *)
Definition update_proposal (P : proposal_row → bool) (f : proposal_row → proposal_row) : tstmt proposal_row := λ _ t,
  match head (filter (λ x, P x = true) (policy_proposals t)) with
  | None => (Err ErrNoRows, t)
  | Some x =>
    if proposal_admissible (f x)
    then (Ok (f x), t {{ policy_proposals ::= List.map (λ y, if P y then f y else y) }})
    else (Err constraint_error, t)
  end.

Definition insert_proposal (x : proposal_row) : tstmt proposal_row := λ _ t,
  if existsb (λ y, bool_decide (pr_proposal_id y = pr_proposal_id x)) (policy_proposals t) || negb (proposal_admissible x)
  then (Err constraint_error, t)
  else (Ok x, t {{ policy_proposals ::= λ l, l ++ [x] }}).

(** [ORDER BY f DESC]. *)
Definition newest_first {A} (f : A → time) (x y : A) : Prop := f y ≤ f x.
#[export] Instance newest_first_dec {A} (f : A → time) x y : Decision (newest_first f x y).
Proof. unfold newest_first. apply _. Defined.

Section Proposals.
Context `{Ext} `{UUIDSupply}.

Definition scanProposal (row : res proposal_row) : res Proposal :=
  match row with
  | Err e => if errors_is e ErrNoRows then Err ErrNotFound else Err e
  | Ok x =>
    let '(criteria, ok) :=
      if bool_decide (pr_match_criteria_json x = "") then (MatchCriteria_zero, true)
      else unmarshal (dec_struct MatchCriteria_fields) (pr_match_criteria_json x) MatchCriteria_zero in
    if negb ok then Err (Wrapf "decode match_criteria_json: " (Errorf "json: cannot unmarshal") "")
    else
      let simulation := default "" (pr_latest_simulation_json x) in
      Ok (mkProposal (pr_proposal_id x) (pr_tenant_id x) (pr_name x) (pr_description x) (pr_status x) (pr_policy_mode x)
            criteria (if bool_decide (simulation = "null") then "" else simulation) (pr_created_by x) (pr_created_at x)
            (pr_updated_at x) (pr_archived_at x))
  end.

(** A row read or written inside a transaction, with the tables it leaves. *)
Definition tx_proposal (q : tstmt proposal_row) (db : DB) (t : Tables) : ST CWorld (res (Proposal * Tables)) :=
  r ← ctx_exec q db t;
  mret match r with
  | Err e => match scanProposal (Err e) with Ok p => Ok (p, t) | Err e => Err e end
  | Ok (x, t) => match scanProposal (Ok x) with Ok p => Ok (p, t) | Err e => Err e end
  end.

Definition insertEvent (tenantID : string) (proposalID : uuid) (eventType summary : string) (now : time) : tstmt () := λ _ t,
  (Ok tt, t {{ policy_proposal_events ::= λ l, l ++ [mkProposalEvent tenantID proposalID eventType summary now] }}).

(** ** The operations *)

Definition proposal_List (tenantID : string) : ST CWorld (res (list Proposal)) :=
  rows ←? c_exec (λ _ t, (Ok (merge_sort (newest_first pr_updated_at)
    (filter (λ x, pr_tenant_id x = tenantID ∧ pr_archived_at x = None) (policy_proposals t))), t));
  mret (foldr (λ x acc, p ← scanProposal (Ok x); l ← acc; Ok (p :: l)) (Ok []) rows).

Definition proposal_Get (tenantID id : string) : ST CWorld (res Proposal) :=
  match uuid_Parse (TrimSpace id) return ST CWorld (res Proposal) with
  | None => mret (Err ErrNotFound)
  | Some proposalID =>
    r ← c_exec (λ _ t, (match head (filter (λ x, active_proposal tenantID proposalID x = true) (policy_proposals t)) with
                        | Some x => Ok x | None => Err ErrNoRows end, t));
    mret (scanProposal r)
  end.

Definition proposal_Create (tenantID createdBy : string) (input : CreateInput) : ST CWorld (res Proposal) :=
  match ValidateCreateInput input return ST CWorld (res Proposal) with
  | Err e => mret (Err e)
  | Ok normalized =>
    '(db, t) ←? ctx_begin;
    id ← c_uuid;
    now ← c_now;
    '(proposal, t) ←? tx_proposal (insert_proposal (mkProposalRow id tenantID (ci_Name normalized) (ci_Description normalized)
        StatusDraft (ci_PolicyMode normalized) (jsonb_text (MatchCriteria_text (ci_MatchCriteria normalized))) None createdBy
        now now None)) db t;
    '(_, t) ←? ctx_exec (insertEvent tenantID (pp_ProposalID proposal) "created" "Draft proposal created" now) db t;
    ctx_commit db t ;;? mret (Ok proposal)
  end.

(** The checks of an update against the proposal as it was read, and what is to
    be written: the merged proposal and whether its status changes. *)
Definition update_plan (current : Proposal) (u : UpdateInput) : res (Proposal * bool) :=
  if hasContentEdit u && negb (canEditContent (pp_Status current)) then Err ErrInvalidTransition
  else
    let status := default (pp_Status current) (ui_Status u) in
    let statusChanged := negb (bool_decide (status = pp_Status current)) in
    if statusChanged && negb (canToggleReadiness (pp_Status current) status) then Err ErrInvalidTransition
    else Ok (mkProposal (pp_ProposalID current) (pp_TenantID current) (default (pp_Name current) (ui_Name u))
               (default (pp_Description current) (ui_Description u)) status (default (pp_PolicyMode current) (ui_PolicyMode u))
               (default (pp_MatchCriteria current) (ui_MatchCriteria u)) (pp_LatestSimulation current) (pp_CreatedBy current)
               (pp_CreatedAt current) (pp_UpdatedAt current) (pp_ArchivedAt current), statusChanged).

Definition written (p : Proposal) (now : time) (x : proposal_row) : proposal_row :=
  x {{ pr_name := pp_Name p; pr_description := pp_Description p; pr_policy_mode := pp_PolicyMode p;
       pr_match_criteria_json := jsonb_text (MatchCriteria_text (pp_MatchCriteria p)); pr_status := pp_Status p;
       pr_updated_at := now }}.

(** The transaction of an update; its condition does not look at the status. *)
Definition update_write (tenantID : string) (u : UpdateInput) (next : Proposal) (statusChanged : bool) : ST CWorld (res Proposal) :=
  '(db, t) ←? ctx_begin;
  now ← c_now;
  '(updated, t) ←? tx_proposal (update_proposal (active_proposal tenantID (pp_ProposalID next)) (written next now)) db t;
  '(_, t) ←? (if hasContentEdit u
              then ctx_exec (insertEvent tenantID (pp_ProposalID updated) "updated" "Proposal details updated" now) db t
              else mret (Ok (tt, t)));
  '(_, t) ←? (if statusChanged
              then ctx_exec (insertEvent tenantID (pp_ProposalID updated) "status_changed"
                     (if bool_decide (pp_Status updated = StatusDraft) then "Moved back to draft"
                      else "Marked ready for review") now) db t
              else mret (Ok (tt, t)));
  ctx_commit db t ;;? mret (Ok updated).

Definition proposal_Update (tenantID id : string) (input : UpdateInput) : ST CWorld (res Proposal) :=
  match ValidateUpdateInput input return ST CWorld (res Proposal) with
  | Err e => mret (Err e)
  | Ok normalized =>
    current ←? proposal_Get tenantID id;
    match update_plan current normalized return ST CWorld (res Proposal) with
    | Err e => mret (Err e)
    | Ok (next, statusChanged) => update_write tenantID normalized next statusChanged
    end
  end.

Definition proposal_SaveSimulation (tenantID id summaryJSON : string) (affected total : Z) : ST CWorld (res Proposal) :=
  match uuid_Parse (TrimSpace id) return ST CWorld (res Proposal) with
  | None => mret (Err ErrNotFound)
  | Some proposalID =>
    '(db, t) ←? ctx_begin;
    now ← c_now;
    '(updated, t) ←? tx_proposal (update_proposal (active_proposal tenantID proposalID)
        (λ x, x {{ pr_latest_simulation_json := Some (jsonb_text summaryJSON); pr_updated_at := now }})) db t;
    '(_, t) ←? ctx_exec (insertEvent tenantID (pp_ProposalID updated) "simulated"
        ("Re-simulated: " +:+ itoa affected +:+ " of " +:+ itoa total +:+ " runs affected") now) db t;
    ctx_commit db t ;;? mret (Ok updated)
  end.

Definition proposal_Approve (tenantID id : string) : ST CWorld (res Proposal) :=
  current ←? proposal_Get tenantID id;
  if negb (bool_decide (pp_Status current = StatusReviewReady)) then mret (Err ErrInvalidTransition)
  else if bool_decide (pp_LatestSimulation current = "") then mret (Err ErrNotSimulated)
  else
    '(db, t) ←? ctx_begin;
    now ← c_now;
    r ← tx_proposal (update_proposal
          (λ x, active_proposal tenantID (pp_ProposalID current) x && bool_decide (pr_status x = StatusReviewReady))
          (λ x, x {{ pr_status := StatusApproved; pr_updated_at := now }})) db t;
    match r return ST CWorld (res Proposal) with
    | Err e => mret (Err (if errors_is e ErrNoRows then ErrInvalidTransition else e))
    | Ok (updated, t) =>
      '(_, t) ←? ctx_exec (insertEvent tenantID (pp_ProposalID updated) "approved" "Proposal approved for promotion" now) db t;
      ctx_commit db t ;;? mret (Ok updated)
    end.

(** Rows affected. *)
Definition archive_rows (tenantID : string) (proposalID : uuid) (now : time) : tstmt Z := λ _ t,
  (Ok (Z.of_nat (length (filter (λ x, active_proposal tenantID proposalID x = true) (policy_proposals t)))),
   t {{ policy_proposals ::= List.map (λ x, if active_proposal tenantID proposalID x
          then x {{ pr_archived_at := Some now; pr_status := StatusArchived; pr_updated_at := now }} else x) }}).

Definition proposal_Archive (tenantID id : string) : ST CWorld (res ()) :=
  match uuid_Parse (TrimSpace id) return ST CWorld (res ()) with
  | None => mret (Err ErrNotFound)
  | Some proposalID =>
    '(db, t) ←? ctx_begin;
    now ← c_now;
    '(affected, t) ←? ctx_exec (archive_rows tenantID proposalID now) db t;
    if affected =? 0 then mret (Err ErrNotFound)
    else
      '(_, t) ←? ctx_exec (insertEvent tenantID proposalID "archived" "Proposal archived" now) db t;
      ctx_commit db t
  end.

Definition proposal_ListEvents (tenantID id : string) (limit : Z) : ST CWorld (res (list proposal_event_row)) :=
  match uuid_Parse (TrimSpace id) return ST CWorld (res (list proposal_event_row)) with
  | None => mret (Err ErrNotFound)
  | Some proposalID =>
    let limit := if limit <=? 0 then 20 else limit in
    let limit := if 100 <? limit then 100 else limit in
    c_exec (λ _ t, (Ok (take (Z.to_nat limit) (merge_sort (newest_first pv_created_at)
      (filter (λ x, pv_tenant_id x = tenantID ∧ pv_proposal_id x = proposalID) (policy_proposal_events t)))), t))
  end.
End Proposals.
