(* ===== verification/CoordLogic.v ===== *)
(** * Reasoning about coordinator handlers

    What a handler may do, as a trace: a sequence of store moves, each a step of
    the store's contract, and of goroutines started, each justified by the
    tables at the moment it starts ([justified] is the client's choice).
    [quiet] handlers start nothing and keep every task's outcome columns. *)

From S2P Require Import Prelude GoStrings Json JsonFacts Ext WalCodec Checkpoint Types Capability.
From S2P Require Import Governance.
From S2P Require Import TaskDef Store ProofState StoreLogic StoreSpec StoreTheorems InputRefs.
From S2P Require Import InputRefsFacts CoordState Coordinator.
Open Scope Z_scope.

Definition c_db (c : CWorld) : DB := w_db (c_world c).

Lemma within_ignore (R : relation CWorld) `{!PreOrder R} {A} (m : ST CWorld (res A)) :
  within R m → within R (ignore m).
Proof. intros Hm. apply within_bind; [done|done|]. intros _. by apply within_ret. Qed.

(** Goes through a handler's binds and branches down to its leaves. *)
Ltac walk leaf :=
  repeat first
    [ apply within_ret; apply _
    | solve [leaf]
    | apply within_bind; [apply _| |let x := fresh "x" in intros x]
    | apply within_bind_err; [apply _| |let x := fresh "x" in intros x]
    | apply within_ignore; [apply _|]
    | case_match ].

Section Logic.
Context `{Ext} `{CheckpointCodec} `{UUIDSupply} `{MapRange} `{AEAD} `{SortSlice} `{!CheckpointCodecLaws}.

(** One atomic move of the store, integrity included. *)
Definition db_move (db db' : DB) : Prop := db_step db db' ∧ (db_ok db → db_ok db').

Lemma db_move_refl db : db_move db db.
Proof. split; [apply db_step_refl|done]. Qed.

Section Traces.
Context (justified : DB → job → Prop).

Inductive cstep (c c' : CWorld) : Prop :=
| cs_move : db_move (c_db c) (c_db c') → c_jobs c' = c_jobs c → cstep c c'
| cs_start j : c_db c' = c_db c → c_jobs c' = c_jobs c ++ [j] → justified (c_db c) j → cstep c c'.

Definition trace : relation CWorld := rtc cstep.

#[global] Instance trace_preorder : PreOrder trace.
Proof. apply _. Qed.

(** The outcome and identity columns of every task are kept. *)
Definition keeps_rows (db db' : DB) : Prop :=
  ∀ id r, task_records db !! id = Some r →
    ∃ r', task_records db' !! id = Some r' ∧ outcome_columns r' = outcome_columns r ∧
          identity_columns r' = identity_columns r.

Definition quiet (c c' : CWorld) : Prop :=
  trace c c' ∧ c_jobs c' = c_jobs c ∧ keeps_rows (c_db c) (c_db c').

#[global] Instance quiet_preorder : PreOrder quiet.
Proof.
  split.
  - intros c. split_and!; [apply rtc_refl|done|]. intros id r Hr. by exists r.
  - intros c1 c2 c3 (Ht1 & Hj1 & Hk1) (Ht2 & Hj2 & Hk2). split_and!; [by etrans|congruence|].
    intros id r Hr. destruct (Hk1 _ _ Hr) as (r2 & Hr2 & ? & ?).
    destruct (Hk2 _ _ Hr2) as (r3 & Hr3 & ? & ?). exists r3. split_and!; congruence.
Qed.

Lemma keeps_rows_refl db : keeps_rows db db.
Proof. intros id r Hr. by exists r. Qed.

(** Only the clock, the faults, the identifiers or the coordinator's own tables
    changed. *)
Definition still (c c' : CWorld) : Prop := c_db c' = c_db c ∧ c_jobs c' = c_jobs c.

#[global] Instance still_preorder : PreOrder still.
Proof. split; [by intros c|]. intros c1 c2 c3 [] []. split; congruence. Qed.

Lemma still_quiet c c' : still c c' → quiet c c'.
Proof.
  intros [Hdb Hj]. split_and!; [|done|].
  - apply rtc_once, cs_move; [|done]. rewrite Hdb. apply db_move_refl.
  - rewrite Hdb. apply keeps_rows_refl.
Qed.

Lemma within_still_quiet {A} (m : ST CWorld A) : within still m → within quiet m.
Proof. intros Hm c. apply still_quiet, Hm. Qed.

Lemma quiet_trace {A} (m : ST CWorld A) : within quiet m → within trace m.
Proof. intros Hm c. apply Hm. Qed.

(** ** Statements *)

Lemma on_store_result {A} (m : ST World A) c :
  (on_store m c).1 = (m (c_world c)).1 ∧ c_db (on_store m c).2 = w_db (m (c_world c)).2 ∧
  c_jobs (on_store m c).2 = c_jobs c ∧ c_tables (on_store m c).2 = c_tables c.
Proof. unfold on_store. by destruct (m (c_world c)). Qed.

Lemma trace_store {A} (m : ST World A) : op_sound m → within trace (on_store m).
Proof.
  intros Hm c. destruct (on_store_result m c) as (_ & Hdb & Hj & _).
  apply rtc_once, cs_move; [|done]. rewrite Hdb. by apply (Hm (c_db c)).
Qed.

Lemma quiet_store {A} (m : ST World A) :
  op_sound m → relates keeps_rows m → within quiet (on_store m).
Proof.
  intros Hm Hk c. pose proof (trace_store m Hm c) as Ht.
  destruct (on_store_result m c) as (_ & Hdb & Hj & _). split_and!; [done..|].
  rewrite Hdb. by apply (Hk (c_db c)).
Qed.

(** A store operation that does not write. *)
Lemma still_store {A} (m : ST World A) :
  (∀ db, hoare (db_is db) m (λ _, db_is db)) → within still (on_store m).
Proof.
  intros Hm c. destruct (on_store_result m c) as (_ & Hdb & Hj & _). split; [|done].
  rewrite Hdb. by apply (Hm (c_db c)).
Qed.

Lemma still_c_exec {A} (q : tstmt A) : within still (c_exec q).
Proof.
  intros c. unfold c_exec, still, c_db. pose proof (next_fault_db (c_world c)) as Hf.
  destruct (next_fault (c_world c)) as [f w]. destruct f; repeat case_match; done.
Qed.

(** A statement that succeeds ran on the current tables. *)
Lemma c_exec_done {A} (q : tstmt A) c a c' : c_exec q c = (Ok a, c') → ∃ db, q db (c_tables c) = (Ok a, c_tables c').
Proof.
  unfold c_exec. destruct (next_fault (c_world c)) as [f w].
  change (c_tables (c {{ c_world := w }})) with (c_tables c).
  destruct f; [|done|by destruct (q _ _)]. destruct (q (w_db w) (c_tables c)) as [r t] eqn:Hq.
  intros [= -> <-]. by exists (w_db w).
Qed.

Lemma c_exec_ok {A} (q : tstmt A) c a : (c_exec q c).1 = Ok a → ∃ db, (q db (c_tables c)).1 = Ok a.
Proof.
  unfold c_exec. destruct (next_fault (c_world c)) as [f w].
  change (c_tables (c {{ c_world := w }})) with (c_tables c).
  destruct f; [|done|by destruct (q _ _)]. intros Hq. exists (w_db w). by destruct (q _ _).
Qed.

Lemma still_c_now : within still c_now.
Proof. by intros c. Qed.

Lemma still_c_uuid : within still c_uuid.
Proof. by intros c. Qed.

Lemma still_with_uuids {A} (f : (nat → uuid) → A * nat) : within still (with_uuids f).
Proof. intros c. unfold with_uuids. by destruct (f _). Qed.

Lemma still_ctx_begin : within still ctx_begin.
Proof.
  intros c. unfold ctx_begin, still, c_db.
  destruct (hoare_tx_begin (w_db (c_world c)) (c_world c) eq_refl) as [Hdb _].
  by destruct (tx_begin (c_world c)).
Qed.

Lemma still_ctx_exec {A} (q : tstmt A) db t : within still (ctx_exec q db t).
Proof.
  intros c. unfold ctx_exec, still, c_db. pose proof (next_fault_db (c_world c)) as Hf.
  destruct (next_fault (c_world c)) as [f w]. by destruct f.
Qed.

(** Leaves of a handler that only computes or touches the coordinator's tables. *)
Create HintDb still.
Hint Resolve still_c_exec still_c_now still_c_uuid still_with_uuids still_ctx_begin still_ctx_exec : still.

Lemma still_ctx_all qs db t : within still (ctx_all qs db t).
Proof.
  revert t. induction qs as [|q qs IH]; intros t; cbn [ctx_all]; [apply within_ret; apply _|].
  apply within_bind_err; [apply _|auto with still|]. intros [_ t']. apply IH.
Qed.

(** ** Triples over traces *)

(** From [P], every run is a trace that ends in [Q]. *)
Definition runs {A} (P : CWorld → Prop) (m : ST CWorld A) (Q : A → CWorld → Prop) : Prop :=
  ∀ c, P c → trace c (m c).2 ∧ Q (m c).1 (m c).2.

Lemma runs_ret {A} (P : CWorld → Prop) (a : A) (Q : A → CWorld → Prop) :
  (∀ c, P c → Q a c) → runs P (mret a) Q.
Proof. intros HQ c HP. split; [apply rtc_refl|]. by apply HQ. Qed.

Lemma runs_bind {A B} P (m : ST CWorld A) (k : A → ST CWorld B) R Q :
  runs P m R → (∀ a, runs (R a) (k a) Q) → runs P (m ≫= k) Q.
Proof.
  intros Hm Hk c HP. destruct (Hm c HP) as [Ht Hr]. unfold mbind, ST_bind.
  destruct (m c) as [a c']. cbn in *. destruct (Hk a c' Hr) as [Ht' HQ]. split; [by etrans|done].
Qed.

Lemma runs_bind_err {A B} P (m : ST CWorld (res A)) (k : A → ST CWorld (res B)) R Q :
  runs P m R → (∀ a, runs (R (Ok a)) (k a) Q) → (∀ e c, R (Err e) c → Q (Err e) c) →
  runs P (bind_err m k) Q.
Proof.
  intros Hm Hk He. apply (runs_bind _ _ _ R); [done|]. intros [a|e]; [apply Hk|].
  apply runs_ret. apply He.
Qed.

Lemma runs_conseq {A} (P P' : CWorld → Prop) (m : ST CWorld A) (Q Q' : A → CWorld → Prop) :
  runs P' m Q' → (∀ c, P c → P' c) → (∀ a c, Q' a c → Q a c) → runs P m Q.
Proof. intros Hm HP HQ c Hc. destruct (Hm c (HP c Hc)). split; auto. Qed.

(** A handler that stays in the trace relation whatever it starts from. *)
Lemma runs_any {A} (P : CWorld → Prop) (m : ST CWorld A) :
  within trace m → runs P m (λ _ _, True).
Proof. intros Hm c _. split; [apply Hm|done]. Qed.

(** A quiet handler keeps what quiet handlers keep. *)
Lemma runs_quiet {A} (P : CWorld → Prop) (m : ST CWorld A) :
  within quiet m → (∀ c c', quiet c c' → P c → P c') → runs P m (λ _, P).
Proof. intros Hm Hs c HP. pose proof (Hm c) as Hq. split; [apply Hq|]. by eapply Hs. Qed.

Lemma runs_spawn (P : CWorld → Prop) j :
  (∀ c, P c → justified (c_db c) j) → runs P (spawn j) (λ _ _, True).
Proof. intros Hj c HP. split; [|done]. by apply rtc_once, (cs_start _ _ j); [..|apply Hj]. Qed.

Lemma within_runs {A} (m : ST CWorld A) : runs (λ _, True) m (λ _ _, True) → within trace m.
Proof. intros Hm c. by apply Hm. Qed.

Lemma still_evaluate_policy input : within still (evaluate_policy input).
Proof. unfold evaluate_policy. walk ltac:(auto with still). Qed.

Lemma still_build_envelope task governance : within still (build_envelope task governance).
Proof. unfold build_envelope. walk ltac:(auto with still). Qed.

Lemma still_LoadLatest taskID : within still (LoadLatestTaskPermissionEnvelope taskID).
Proof. unfold LoadLatestTaskPermissionEnvelope. walk ltac:(auto with still). Qed.
Hint Resolve still_evaluate_policy still_build_envelope still_LoadLatest : still.

Lemma still_Hydrate task : within still (HydrateTaskPermissionEnvelope task).
Proof. unfold HydrateTaskPermissionEnvelope. walk ltac:(auto with still). Qed.

Lemma still_Decrypt tenantID taskID refID purpose reason :
  within still (DecryptExecutionInputRef tenantID taskID refID purpose reason).
Proof.
  unfold DecryptExecutionInputRef, LoadExecutionInputRef, decrypt_denied, SaveExecutionInputRefAudit,
    MarkExecutionInputRefDecrypted. walk ltac:(auto with still).
Qed.
Hint Resolve still_Hydrate still_Decrypt : still.

Lemma still_selectRuntime cfg tenantID preferred : within still (selectRuntime cfg tenantID preferred).
Proof. unfold selectRuntime. walk ltac:(auto with still). Qed.

Lemma still_enqueueDispatchQueue tenantID taskID : within still (enqueueDispatchQueue tenantID taskID).
Proof. unfold enqueueDispatchQueue. walk ltac:(auto with still). Qed.

Lemma still_hasCommitted task : within still (hasCommittedIrreversibleInJournal task).
Proof. unfold hasCommittedIrreversibleInJournal. walk ltac:(auto with still). Qed.

Lemma still_enqueueDLQ task reason : within still (enqueueDLQ task reason).
Proof. unfold enqueueDLQ. walk ltac:(auto with still). Qed.

(** The tables and the goroutines are exactly these. *)
Definition at_ (db : DB) (js : list job) (c : CWorld) : Prop := c_db c = db ∧ c_jobs c = js.

Lemma still_hoare {A} (m : ST CWorld A) db js : within still m → hoare (at_ db js) m (λ _, at_ db js).
Proof. intros Hm c [<- <-]. apply Hm. Qed.

Lemma hoare_still {A} (m : ST CWorld A) :
  (∀ db js, hoare (at_ db js) m (λ _, at_ db js)) → within still m.
Proof. intros Hm c. by apply (Hm (c_db c) (c_jobs c) c). Qed.

Lemma hoare_ctx_begin db js :
  hoare (at_ db js) ctx_begin (λ r c, at_ db js c ∧ ∀ db' t, r = Ok (db', t) → db' = db).
Proof.
  intros c Hc. split; [by apply (still_hoare _ _ _ still_ctx_begin)|].
  destruct Hc as [Hdb _]. unfold ctx_begin.
  destruct (hoare_tx_begin db (c_world c) Hdb) as [_ Hb].
  destruct (tx_begin (c_world c)) as [[db1|e] w]; cbn in *; intros db' t; [|done].
  intros [= <- _]. by apply Hb.
Qed.

Lemma hoare_ctx_commit db0 js db t :
  hoare (at_ db0 js) (ctx_commit db t)
    (λ r c, c_jobs c = js ∧ commit_outcome db0 db r (c_db c)).
Proof.
  intros c [Hdb Hj]. unfold ctx_commit. pose proof (next_fault_db (c_world c)) as Hf.
  destruct (next_fault (c_world c)) as [f w]. unfold c_db in *. cbn in Hf. rewrite Hdb in Hf.
  rewrite <-Hf. destruct f; cbn; (split; [done|]); constructor.
Qed.

Lemma still_SaveEnvelope taskID envelope : within still (SaveTaskPermissionEnvelope taskID envelope).
Proof.
  destruct envelope as [e|]; cbn [SaveTaskPermissionEnvelope]; [|apply within_ret, _].
  case_bool_decide; [apply within_ret, _|]. apply hoare_still. intros db js.
  eapply hoare_bind_err; [apply hoare_ctx_begin| |by intros ? ? [? _]].
  intros [db' t] c [Hc Hdb]. rewrite (Hdb _ _ eq_refl). revert c Hc. clear.
  change (hoare (at_ db js) (now ← c_now; ctx_all (upsert_permission taskID e now
     :: (upsert_decision e <$> pe_Decisions e)
     ++ (upsert_credential taskID e now <$> filter (λ r, ref_ReferenceID r ≠ "") (pe_CredentialRefs e))) db t
     ≫= λ r, match r with Ok t => ctx_commit db t | Err e => mret (Err e) end) (λ _, at_ db js)).
  eapply hoare_bind; [apply still_hoare, still_c_now|]. intros now.
  eapply hoare_bind; [apply still_hoare, still_ctx_all|]. intros [t'|err]; [|by apply hoare_ret].
  eapply hoare_conseq; [apply hoare_ctx_commit|done|].
  intros r c [Hj Ho]. split; [|done]. by inversion Ho.
Qed.

(** ** Store operations that keep every outcome *)

Lemma op_sound_undiscard {A} (m : ST World (res A)) : op_sound (discard m) → op_sound m.
Proof.
  intros Hm db w Hw. specialize (Hm db w Hw). unfold discard, mbind, ST_bind in Hm.
  by destruct (m w).
Qed.

Lemma keeps_exec {A} (q : stmt A) : (∀ db, keeps_rows db (q db).2) → relates keeps_rows (exec q).
Proof. apply relates_exec, keeps_rows_refl. Qed.

Lemma keeps_tables db db' : task_records db' = task_records db → keeps_rows db db'.
Proof. intros Ht id r Hr. exists r. by rewrite Ht. Qed.

Lemma keeps_update id P f db :
  (∀ r, outcome_columns (f r) = outcome_columns r ∧ identity_columns (f r) = identity_columns r) →
  keeps_rows db (update_task id P f db).2.
Proof.
  intros Hf. destruct (update_task_spec id P f db) as [(r & Hr & HP & Hq)|[_ Hq]]; rewrite Hq; cbn [snd];
    [|apply keeps_rows_refl].
  intros i x Hx. rewrite tasks_update. destruct (decide (i = id)) as [->|Hne].
  - assert (x = r) as -> by congruence. rewrite lookup_insert_eq. exists (f r). split; [done|]. apply Hf.
  - rewrite lookup_insert_ne by done. by exists x.
Qed.

Ltac keeps_tables_tac := apply keeps_exec; intros; apply keeps_tables; cbn [snd]; repeat case_match; reflexivity.

Lemma quiet_SaveActionPolicyDecision d : within quiet (on_store (SaveActionPolicyDecision d)).
Proof.
  apply quiet_store; [apply op_sound_undiscard, (run_op_sound (OpSaveActionPolicyDecision d))|].
  unfold SaveActionPolicyDecision. case_bool_decide; [apply relates_ret, keeps_rows_refl|keeps_tables_tac].
Qed.

Lemma quiet_SaveApprovalRequest d : within quiet (on_store (SaveApprovalRequest d)).
Proof.
  apply quiet_store; [apply op_sound_undiscard, (run_op_sound (OpSaveApprovalRequest d))|].
  unfold SaveApprovalRequest. case_match; [apply relates_ret, keeps_rows_refl|keeps_tables_tac].
Qed.

Lemma quiet_ResolveApprovalRequest id tenant status decider reason :
  within quiet (on_store (ResolveApprovalRequest id tenant status decider reason)).
Proof.
  apply quiet_store;
    [apply op_sound_undiscard, (run_op_sound (OpResolveApprovalRequest id tenant status decider reason))|].
  apply relates_after; [apply hoare_time_now|]. intros now. keeps_tables_tac.
Qed.

Lemma quiet_SetLatestPolicyDecision id d : within quiet (on_store (SetLatestPolicyDecision id d)).
Proof.
  apply quiet_store; [apply op_sound_undiscard, (run_op_sound (OpSetLatestPolicyDecision id d))|].
  unfold SetLatestPolicyDecision. case_bool_decide; [apply relates_ret, keeps_rows_refl|].
  apply relates_then, keeps_exec. intros db. by apply keeps_update.
Qed.

Lemma quiet_SaveExecutionBoundary d definition caps :
  within quiet (on_store (SaveExecutionBoundary d definition caps)).
Proof.
  apply quiet_store; [apply op_sound_undiscard, (run_op_sound (OpSaveExecutionBoundary d definition caps))|].
  keeps_tables_tac.
Qed.

Lemma quiet_SaveRecoveryEvent e : within quiet (on_store (SaveRecoveryEvent e)).
Proof.
  apply quiet_store; [apply op_sound_undiscard, (run_op_sound (OpSaveRecoveryEvent e))|].
  unfold SaveRecoveryEvent. case_bool_decide; [apply relates_ret, keeps_rows_refl|].
  apply relates_after; [apply hoare_maybe_uuid|]. intros id. keeps_tables_tac.
Qed.

Lemma quiet_SaveRuntimeHandoffEvent e : within quiet (on_store (SaveRuntimeHandoffEvent e)).
Proof.
  apply quiet_store; [apply op_sound_undiscard, (run_op_sound (OpSaveRuntimeHandoffEvent e))|].
  unfold SaveRuntimeHandoffEvent. case_bool_decide; [apply relates_ret, keeps_rows_refl|].
  apply relates_after; [apply hoare_maybe_uuid|]. intros id. keeps_tables_tac.
Qed.

(** The two updates the coordinator issues itself. *)
Lemma quiet_mark_irreversible id :
  within quiet (on_store (exec (update_task id (λ _, true) (λ r, r {{ r_has_irreversible_effect := Some true }})))).
Proof.
  apply quiet_store; [apply op_sound_exec|apply keeps_exec]; intros db;
    [by apply rows_only_update|by apply keeps_update].
Qed.

Lemma bump_attempts_update id db :
  (bump_attempts id db).2 = db ∨
  ∃ n, (bump_attempts id db).2 = (update_task id (λ _, true) (λ r, r {{ r_attempt_count := Some n }}) db).2.
Proof.
  unfold bump_attempts, update_task. destruct (task_records db !! id) as [r|]; [|by left].
  case_match; [by left|]. right. eexists. reflexivity.
Qed.

Lemma quiet_bump_attempts id : within quiet (on_store (exec (bump_attempts id))).
Proof.
  apply quiet_store; [apply op_sound_exec|apply keeps_exec]; intros db;
    destruct (bump_attempts_update id db) as [->|[n ->]];
    [apply rows_only_refl|by apply rows_only_update|apply keeps_rows_refl|by apply keeps_update].
Qed.
Hint Resolve still_selectRuntime still_enqueueDispatchQueue still_hasCommitted still_enqueueDLQ
  still_SaveEnvelope : still.

(** ** Rehydration *)

Lemma within_st_range (R : relation CWorld) `{!PreOrder R} keys
    (members : list (string * ST CWorld (res jv))) out :
  Forall (λ m, within R m.2) members → within R (st_range keys members out).
Proof.
  intros HF. revert out. induction keys as [|k keys IH]; intros out; cbn [st_range]; [by apply within_ret|].
  destruct (assoc k members) as [m|] eqn:Hm; [|apply IH]. apply assoc_Some_elem in Hm.
  rewrite Forall_forall in HF. apply within_bind_err; [done|exact (HF _ Hm)|]. intros v. apply IH.
Qed.

Lemma within_st_map (R : relation CWorld) `{!PreOrder R} {A B} (f : A → ST CWorld (res B)) l :
  Forall (λ a, within R (f a)) l → within R (st_map f l).
Proof.
  induction 1 as [|a l Ha _ IH]; cbn [st_map]; [by apply within_ret|].
  apply within_bind_err; [done..|]. intros b. apply within_bind_err; [done..|]. intros bs. by apply within_ret.
Qed.

Lemma still_rehydrate_value resolver v :
  (∀ refID purpose, within still (resolver refID purpose)) →
  within still (rehydrateInputRefValue resolver v).
Proof.
  intros Hr. induction v as [| | | |l IH|l IH] using jv_induction; cbn [rehydrateInputRefValue];
    try (apply within_ret; apply _).
  - apply within_bind_err; [apply _|by apply within_st_map; [apply _|]|].
    intros vs. apply within_ret, _.
  - destruct (inputRefMetadata l) as [[refID purpose]|].
    + apply within_bind_err; [apply _|apply Hr|]. intros p. apply within_ret, _.
    + apply within_bind_err; [apply _| |intros out; apply within_ret, _].
      apply within_st_range; [apply _|]. by apply Forall_fmap.
Qed.

Lemma still_rehydrate resolver raw :
  (∀ refID purpose, within still (resolver refID purpose)) →
  within still (rehydrateTaskDefinitionInputRefs resolver raw).
Proof.
  intros Hr. unfold rehydrateTaskDefinitionInputRefs. case_match; [apply within_ret, _|].
  case_match; [|apply within_ret, _]. apply within_bind_err; [apply _|by apply still_rehydrate_value|].
  intros v. apply within_ret, _.
Qed.

(** ** Task creation with its references *)

Lemma hoare_pure {A} (P : CWorld → Prop) (φ : Prop) (m : ST CWorld A) Q :
  (φ → hoare P m Q) → hoare (λ c, P c ∧ φ) m Q.
Proof. intros Hm c [HP Hφ]. by apply Hm. Qed.

(** A statement of the store's inside the transaction. *)
Lemma hoare_ctx_tx_exec {A} (q : stmt A) db0 js db :
  hoare (at_ db0 js) (on_store (tx_exec q db))
    (λ r c, at_ db0 js c ∧ ∀ a db', r = Ok (a, db') → q db = (Ok a, db')).
Proof.
  intros c [Hdb Hj]. destruct (on_store_result (tx_exec q db) c) as (Hr & Hd & Hjobs & _).
  destruct (hoare_tx_exec q db0 db (c_world c) Hdb) as [Hd' Hq]. unfold at_. by rewrite Hr, Hd, Hjobs.
Qed.

(** The bound run completes the creation. *)
Lemma hoare_insertBoundActionRun task definition now db js :
  find_by_key (t_TenantID task) (t_IdempotencyKey task) db = None → task_records db !! t_TaskID task = None →
  hoare (at_ db js)
    (on_store (insertBoundActionRun task
       (db {{ task_records ::= <[t_TaskID task := new_row task definition now]> }})))
    (λ r c, at_ db js c ∧ ∀ u db', r = Ok (u, db') → created task definition now db db').
Proof.
  intros Hnone Hfree. unfold insertBoundActionRun, created.
  set (db1 := db {{ task_records ::= _ }}). destruct (t_BoundAction task) as [bound|].
  2:{ intros c [<- <-]. split; [done|]. by intros u db' [= _ <-]. }
  destruct (bound_incomplete bound); [by intros c [<- <-]|].
  eapply hoare_conseq; [apply hoare_ctx_tx_exec|done|]. intros r c [Hc Hq]. split; [done|].
  intros u db' Heq. apply Hq in Heq. unfold insert_bound_run in Heq.
  destruct (bound_run_admissible _ _) eqn:Hadm; [|done]. by injection Heq as _ <-.
Qed.

Definition creation_result (task : TaskRecord) (db : DB) (js : list job) (r : res bool) (c : CWorld) : Prop :=
  c_jobs c = js ∧
  (c_db c = db ∨ ∃ definition now, created task definition now db (c_db c)) ∧
  match r with
  | Ok true => ∃ definition now, created task definition now db (c_db c)
  | Ok false => c_db c = db ∧ is_Some (find_by_key (t_TenantID task) (t_IdempotencyKey task) db)
  | Err _ => True
  end.

Lemma creation_idle task db js e c : at_ db js c → creation_result task db js (Err e) c.
Proof. intros [<- <-]. unfold creation_result. auto. Qed.

Lemma hoare_CreateTaskWithExecutionInputRefs task refs db js :
  hoare (at_ db js) (CreateTaskWithExecutionInputRefs task refs) (creation_result task db js).
Proof.
  unfold CreateTaskWithExecutionInputRefs. case_bool_decide as Hrefs.
  { intros c [Hdb Hj]. destruct (on_store_result (CreateTask task) c) as (Hr & Hd & Hjobs & _).
    destruct (hoare_CreateTask task db (c_world c) Hdb) as [Htab Hres]. unfold creation_result.
    rewrite Hr, Hd, Hjobs. split_and!; [done| |done].
    destruct Htab as [->|(definition & now & _ & Hc)]; eauto. }
  destruct (marshal_raw _) as [definition|e]; [|apply hoare_ret; intros c; apply creation_idle].
  eapply hoare_bind_err; [apply hoare_ctx_begin| |intros e c [Hc _]; by apply creation_idle].
  intros [db0 t]. apply hoare_pure. intros Hdb. rewrite (Hdb _ _ eq_refl). clear Hdb.
  eapply hoare_bind; [apply still_hoare, still_c_now|]. intros now.
  eapply hoare_bind_err; [apply hoare_ctx_tx_exec| |intros e c [Hc _]; by apply creation_idle].
  intros [n db1]. apply hoare_pure. intros Hins. specialize (Hins _ _ eq_refl).
  destruct (insert_task_spec task definition now db) as [(r & Hr & Hq)|(Hnone & [[_ Hq]|[Hfree Hq]])];
    rewrite Hq in Hins; [|done|]; injection Hins as <- <-; cbn [Z.eqb].
  - eapply hoare_bind_err; [apply hoare_ctx_commit| |].
    + intros []. apply hoare_ret. intros c [<- Ho]. unfold creation_result. rewrite Hr. inversion Ho. eauto 10.
    + intros e c [<- Ho]. unfold creation_result. inversion Ho; auto.
  - eapply hoare_bind_err; [apply still_hoare, still_ctx_all| |intros e c; apply creation_idle].
    intros t'.
    eapply hoare_bind_err; [by apply hoare_insertBoundActionRun| |intros e c [Hc _]; by apply creation_idle].
    intros [u db2]. apply hoare_pure. intros Hcr. specialize (Hcr _ _ eq_refl).
    eapply hoare_bind_err; [apply hoare_ctx_commit| |].
    + intros []. apply hoare_ret. intros c [<- Ho]. unfold creation_result. inversion Ho; subst; eauto 10.
    + intros e c [<- Ho]. unfold creation_result. inversion Ho; subst; eauto 10.
Qed.
End Traces.
End Logic.
