(* ===== verification/RoboticsFacts.v ===== *)
(** * Theorems on governed robotics actions *)

From S2P Require Import Prelude GoStrings Json Float64 Ext WalCodec Checkpoint Types Capability.
From S2P Require Import Governance.
From S2P Require Import Store ProofState Receipts InputRefs StoreLogic StoreSpec StoreTheorems.
From S2P Require Import InputRefsFacts.
From S2P Require Import CoordState Artifacts Robotics Coordinator CoordLogic.
Open Scope Z_scope.

Section Facts.
Context `{Ext} `{CheckpointCodec} `{UUIDSupply} `{SortSlice} `{!ExtLaws}.

(** The newest applicable row of the tenant's policy. *)
Definition governing (tenantID : string) (now : time) (rows : list robotics_policy_row) (row : robotics_policy_row) : Prop :=
  row ∈ rows ∧ policy_applies tenantID now row = true ∧
  ∀ row', row' ∈ rows → policy_applies tenantID now row' = true → rp_updated_at row' ≤ rp_updated_at row.

(** What a policy row must say for a task's actions to be permitted. *)
Definition permits (task : TaskRecord) (row : robotics_policy_row) : Prop :=
  rp_permit row = true ∧ rp_runtime_permitted row = true ∧
  runtimeListed (t_RuntimeID task) (rp_allowed_runtimes row) = true ∧ t_TenantID task ≠ "" ∧
  ToLower (TrimSpace (rp_robot_mode row)) ∈ ["supervised"; "active"].

Lemma newest_policy row rows :
  foldl newer_policy row rows ∈ row :: rows ∧
  ∀ x, x ∈ row :: rows → rp_updated_at x ≤ rp_updated_at (foldl newer_policy row rows).
Proof.
  revert row. induction rows as [|y rows IH]; intros row; cbn [foldl].
  { split; [set_solver|]. intros x. rewrite list_elem_of_singleton. by intros ->. }
  destruct (IH (newer_policy row y)) as [Hin Hmax].
  assert (rp_updated_at row ≤ rp_updated_at (newer_policy row y) ∧ rp_updated_at y ≤ rp_updated_at (newer_policy row y) ∧
    (newer_policy row y = row ∨ newer_policy row y = y)) as (Hr & Hy & Hor).
  { unfold newer_policy. destruct (Z.ltb_spec (rp_updated_at row) (rp_updated_at y)); split_and!; auto; lia. }
  split; [destruct Hor as [E|E]; rewrite E in Hin |- *; set_solver|].
  specialize (Hmax (newer_policy row y) (list_elem_of_here _ _)) as Hn.
  intros x [->|[->|Hx]%elem_of_cons]%elem_of_cons; [lia..|]. apply Hmax. set_solver.
Qed.

Lemma select_governing tenantID now db t row :
  (select_robotics_policy tenantID now db t).1 = Ok row → governing tenantID now (robotics_policy_settings t) row.
Proof.
  unfold select_robotics_policy, governing. cbn [fst]. destruct (filter _ _) as [|x l] eqn:Hf; [done|].
  intros [= <-]. destruct (newest_policy x l) as [Hin Hmax]. rewrite <-Hf in Hin.
  apply list_elem_of_filter in Hin as [? ?]. split_and!; [done..|]. intros row' Hr' Hp. apply Hmax.
  rewrite <-Hf. by apply list_elem_of_filter.
Qed.

Lemma evaluate_row_permit task row : re_Permit (evaluate_row task row) = true ↔ permits task row.
Proof.
  unfold evaluate_row, permits. cbn [re_Permit]. rewrite !andb_true_iff, orb_true_iff, !bool_decide_eq_true.
  assert (nonempty (t_TenantID task) = true ↔ t_TenantID task ≠ "") as -> by (by destruct (t_TenantID task)).
  set_unfold. tauto.
Qed.

(** A decision as it is issued: signed with the control plane's key, valid from
    now, and a permit only under the governing policy. *)
Definition decision_ok (task : TaskRecord) (signingKey : string) (now : time) (rows : list robotics_policy_row)
    (d : signedGovernedPolicyDecision) : Prop :=
  sg_TenantID d = t_TenantID task ∧ sg_TaskID d = uuid_String (t_TaskID task) ∧ sg_RuntimeID d = t_RuntimeID task ∧
  sg_IssuedAtUnixMs d = UnixMilli now ∧
  (∃ sig, b64_decode false true (sg_Signature d) = Some sig ∧
          ed25519_Verify (ed25519_Public signingKey) (decision_digest d) sig = true) ∧
  (if sg_Permit d then ∃ row, governing (t_TenantID task) now rows row ∧ permits task row
   else sg_Reason d ≠ "permitted").

Lemma evaluateRoboticsPolicy_spec task c :
  let p := (evaluateRoboticsPolicy task c).1 in
  if re_Permit p
  then ∃ row, governing (t_TenantID task) (w_now (c_world c)) (robotics_policy_settings (c_tables c)) row ∧ permits task row
  else re_Reason p ≠ "permitted".
Proof.
  cbv zeta. destruct (evaluateRoboticsPolicy task c) as [p c2] eqn:He. cbn [fst]. revert He.
  unfold evaluateRoboticsPolicy, mbind, ST_bind.
  destruct (c_now c) as [now c'] eqn:Hnow. assert (now = w_now (c_world c) ∧ c_tables c' = c_tables c) as [-> Ht]
    by (by injection Hnow as <- <-).
  set (q := select_robotics_policy _ _). pose proof (c_exec_ok q c') as Hq.
  destruct (c_exec q c') as [[row|e] c'']; cbn [fst mret ST_ret] in *; intros [= <- _]; [|done].
  destruct (Hq row eq_refl) as [db Hrow]. rewrite Ht in Hrow. apply select_governing in Hrow.
  destruct (re_Permit (evaluate_row task row)) eqn:Hp; [exists row; split; [done|by apply evaluate_row_permit]|].
  unfold evaluate_row in *. cbn [re_Permit re_Reason] in *. by rewrite Hp.
Qed.

End Facts.
