(* ===== verification/ArtifactFacts.v ===== *)
(** * Theorems on execution artifacts and credentials

    Revoked credential references keep artifacts that used them out of the
    audit, and stay revoked; an execution context is only ever written by its
    own tenant. *)

From S2P Require Import Prelude GoStrings Json Float64 Ext WalCodec Checkpoint Types Capability.
From S2P Require Import Governance.
From S2P Require Import Store ProofState StoreLogic StoreSpec StoreTheorems InputRefs Receipts.
From S2P Require Import InputRefsFacts.
From S2P Require Import CoordState Artifacts Coordinator CoordLogic.
Open Scope Z_scope.

Section Facts.
Context `{Ext} `{CheckpointCodec} `{UUIDSupply} `{MapRange} `{AEAD} `{SortSlice} `{!CheckpointCodecLaws}.

(** ** Transactions and the tables they leave *)

(** The store and the coordinator's tables are these. *)
Definition holds (db : DB) (t : Tables) (c : CWorld) : Prop := c_db c = db ∧ c_tables c = t.

Lemma hoare_holds_begin db t :
  hoare (holds db t) ctx_begin (λ r c, holds db t c ∧ ∀ p, r = Ok p → p = (db, t)).
Proof.
  intros c [Hdb Ht]. destruct (hoare_ctx_begin db (c_jobs c) c) as [[Hdb' _] Hb]; [done|].
  unfold ctx_begin, holds in *. destruct (tx_begin (c_world c)) as [[db0|e] w]; cbn in *; (split; [done|]); [|done].
  intros p [= <-]. f_equal; [|done]. by eapply Hb.
Qed.

Lemma hoare_holds_tx {A} (q : stmt A) db t d :
  hoare (holds db t) (on_store (tx_exec q d)) (λ r c, holds db t c).
Proof.
  intros c [Hdb Ht]. destruct (hoare_ctx_tx_exec q db (c_jobs c) d c) as [[Hdb' _] _]; [done|].
  destruct (on_store_result (tx_exec q d) c) as (_ & _ & _ & Ht'). split; [done|]. by rewrite Ht'.
Qed.

Lemma hoare_holds_now db t : hoare (holds db t) c_now (λ _, holds db t).
Proof. by intros c [? ?]. Qed.

Lemma hoare_holds_exec {A} (q : tstmt A) db t d t' :
  hoare (holds db t) (ctx_exec q d t') (λ r c, holds db t c ∧ ∀ a t1, r = Ok (a, t1) → q d t' = (Ok a, t1)).
Proof.
  intros c [Hdb Ht]. destruct (still_ctx_exec q d t' c) as [Hdb' _]. unfold holds, ctx_exec in *.
  destruct (next_fault (c_world c)) as [f w]. destruct f; cbn [fst snd] in *;
    (split; [split; [by rewrite Hdb'|exact Ht]|]); intros a t1 Heq; [|done..].
  destruct (q d t') as [[x|e] t2]; [|done]. by injection Heq as -> ->.
Qed.

(** A property of the tables that every statement keeps. *)
Lemma hoare_holds_all (I : Tables → Prop) qs db t d t' :
  (∀ q t1, q ∈ qs → I t1 → I (q d t1).2) → I t' →
  hoare (holds db t) (ctx_all qs d t') (λ r c, holds db t c ∧ ∀ t1, r = Ok t1 → I t1).
Proof.
  revert t'. induction qs as [|q qs IH]; intros t' Hqs HI; cbn [ctx_all].
  { apply hoare_ret. intros c Hc. split; [done|]. by intros t1 [= <-]. }
  eapply hoare_bind_err; [apply hoare_holds_exec| |by intros e c [? _]].
  intros [[] t1]. apply hoare_pure. intros Hq. specialize (Hq _ _ eq_refl). apply IH.
  - intros q' t2 Hq'. apply Hqs. by apply list_elem_of_further.
  - specialize (Hqs q t' (list_elem_of_here _ _) HI). by rewrite Hq in Hqs.
Qed.

(** A statement that fails whatever ran before it fails the list. *)
Lemma hoare_holds_fails (I : Tables → Prop) pre q post db t d t' :
  (∀ q' t1, q' ∈ pre → I t1 → I (q' d t1).2) → I t' → (∀ t1, I t1 → is_ok (q d t1).1 = false) →
  hoare (holds db t) (ctx_all (pre ++ q :: post) d t') (λ r c, holds db t c ∧ is_ok r = false).
Proof.
  revert t'. induction pre as [|p pre IH]; intros t' Hpre HI Hq; cbn [app ctx_all];
    (eapply hoare_bind_err; [apply hoare_holds_exec| |by intros e c [? _]]);
    intros [[] t1]; apply hoare_pure; intros Heq; specialize (Heq _ _ eq_refl).
  - specialize (Hq t' HI). by rewrite Heq in Hq.
  - apply IH; [|specialize (Hpre p t' (list_elem_of_here _ _) HI); by rewrite Heq in Hpre|done].
    intros q' t2 Hq'. apply Hpre. by apply list_elem_of_further.
Qed.

Lemma ctx_commit_tables db t c :
  let c' := (ctx_commit db t c).2 in c_tables c' = t ∨ c_tables c' = c_tables c.
Proof. unfold ctx_commit. destruct (next_fault (c_world c)) as [f w]. destruct f; auto. Qed.

(** ** Credential references *)

Definition credentials (c : CWorld) : list credential_row := ai_credential_ref_audit (c_tables c).

Lemma revoke_statement_effect tenantID referenceID now db t x t' :
  revoke_credential_statement tenantID referenceID now db t = (Ok x, t') →
  x ∈ ai_credential_ref_audit t' ∧ ca_tenant_id x = tenantID ∧ ref_ReferenceID (ca_ref x) = referenceID ∧
  is_Some (ca_revoked_at x).
Proof.
  unfold revoke_credential_statement. set (live := λ x, bool_decide (ca_revoked_at x = None)).
  destruct (filter _ _) as [|y l] eqn:Hf; cbn [head]; [done|]. intros [= <- <-].
  assert (y ∈ y :: l) as Hy by apply list_elem_of_here. rewrite <-Hf in Hy.
  apply list_elem_of_filter in Hy as [Hl Hy]. split.
  - apply list_elem_of_fmap. exists y. by rewrite Hl.
  - unfold credential_selected in Hl. rewrite !andb_true_iff, !bool_decide_eq_true in Hl.
    cbn. destruct Hl as [[[-> ->] _] _]. split_and!; done.
Qed.

Lemma revoke_effect tenantID referenceID c x c1 :
  RevokeAICredentialReference tenantID referenceID c = (Ok x, c1) →
  x ∈ credentials c1 ∧ ca_tenant_id x = tenantID ∧ ref_ReferenceID (ca_ref x) = referenceID ∧
  is_Some (ca_revoked_at x).
Proof.
  unfold RevokeAICredentialReference, mbind, ST_bind. destruct (c_now c) as [now c0].
  destruct (c_exec (revoke_credential_statement _ _ _) c0) as [[y|e] c2] eqn:He.
  - intros [= <- <-]. apply c_exec_done in He as [db He]. by eapply revoke_statement_effect.
  - case_bool_decide; cbn [negb]; [|done]. destruct (c_exec _ c2) as [[[]|] ?]; done.
Qed.

(** Artifacts that used a revoked reference are refused, with everything the
    transaction wrote. *)
Lemma revoked_refused taskID envelope receipt refs x db t :
  aiToolAuditRefs envelope receipt = Some refs → ta_EnvelopeID refs ≠ "" → revoked_reference refs x = true →
  x ∈ ai_credential_ref_audit t →
  hoare (holds db t) (SaveExecutionArtifacts taskID envelope receipt) (λ r c, holds db t c ∧ is_ok r = false).
Proof.
  intros Hrefs Hid Hrev Hx.
  eapply hoare_bind_err; [apply hoare_holds_begin| |by intros e c [? _]].
  intros [db0 t0]. apply hoare_pure. intros Hp. injection (Hp _ eq_refl) as -> ->.
  eapply hoare_bind; [apply hoare_holds_now|]. intros now.
  eapply hoare_bind_err; [apply hoare_holds_tx| |done]. intros [n db1]. cbv beta iota.
  eapply (hoare_bind_err _ _ _ (λ r c, holds db t c ∧ is_ok r = false)); [|by intros t1 c [_ ?]|done].
  unfold saveAIToolReceiptAudit. rewrite Hrefs. destruct (ta_EnvelopeID refs) as [|a s] eqn:Hs; [done|].
  cbn [nonempty app]. apply (hoare_holds_fails (λ t1, x ∈ ai_credential_ref_audit t1)); [|done|].
  - intros q t1. unfold saveRoboticsReceiptAudit. case_match; [|set_solver].
    intros ->%list_elem_of_singleton. unfold insert_robot_receipt. by case_match.
  - intros t1 Hx1. unfold ensureAIToolCredentialRefsActive.
    destruct (filter _ _) as [|y l] eqn:Hf; [|done]. exfalso.
    assert (x ∈ filter (λ x, revoked_reference refs x = true) (ai_credential_ref_audit t1)) as Hin
      by (by apply list_elem_of_filter). rewrite Hf in Hin. set_solver.
Qed.

(** Revoking a credential reference takes effect on the artifacts that used
    it: once the revocation has succeeded, saving artifacts whose permission
    envelope and capability or tool are the reference's is refused whatever else
    happens, and leaves the task record, the receipt audits and the execution
    context as they were. *)
Theorem revoked_credential_blocks tenantID referenceID c x c1 taskID envelope receipt refs w :
  RevokeAICredentialReference tenantID referenceID c = (Ok x, c1) →
  aiToolAuditRefs envelope receipt = Some refs → ca_envelope_id x = ta_EnvelopeID refs → ta_EnvelopeID refs ≠ "" →
  ref_Capability (ca_ref x) = ta_Capability refs ∨ ta_ToolName refs ≠ "" ∧ ref_Tool (ca_ref x) = ta_ToolName refs →
  let '(r, c2) := SaveExecutionArtifacts taskID envelope receipt (c1 {{ c_world := w }}) in
  is_ok r = false ∧ c_db c2 = w_db w ∧ c_tables c2 = c_tables c1.
Proof.
  intros (Hx & _ & _ & Hrev)%revoke_effect Hrefs Hid Hne Huse.
  assert (revoked_reference refs x = true) as Hr.
  { unfold revoked_reference. rewrite !bool_decide_true by done. cbn [andb].
    destruct Huse as [->|[Ht ->]]; [rewrite bool_decide_true by done|rewrite (bool_decide_true (_ = ta_ToolName refs)) by done];
      [by rewrite orb_true_r|]. destruct (ta_ToolName refs); [done|]. by rewrite orb_true_r. }
  destruct (revoked_refused taskID envelope receipt refs x (w_db w) (c_tables c1) Hrefs Hne Hr Hx
    (c1 {{ c_world := w }})) as [[Hdb Ht] Hok]; [done|].
  by destruct (SaveExecutionArtifacts _ _ _ _).
Qed.

(** The revocations recorded so far are still recorded. *)
Definition still_revoked (t t' : Tables) : Prop :=
  ∀ x, x ∈ ai_credential_ref_audit t → is_Some (ca_revoked_at x) →
  ∃ y, y ∈ ai_credential_ref_audit t' ∧ ref_ReferenceID (ca_ref y) = ref_ReferenceID (ca_ref x) ∧
       ca_tenant_id y = ca_tenant_id x ∧ ca_revoked_at y = ca_revoked_at x.

Lemma upsert_spec {A} same merge (new : A) l x :
  x ∈ l → x ∈ upsert same merge new l ∨ same x = true ∧ merge x new ∈ upsert same merge new l.
Proof.
  induction l as [|a l IH]; [set_solver|]. cbn [upsert]. intros [->|Hx]%elem_of_cons.
  - destruct (same a) eqn:Hs; [right|left]; set_solver.
  - destruct (same a); [left; set_solver|]. destruct (IH Hx) as [?|[? ?]]; [left|right]; set_solver.
Qed.

Lemma still_revoked_credential taskID e now r d t t1 :
  still_revoked t t1 → still_revoked t (upsert_credential taskID e now r d t1).2.
Proof.
  intros Hs x Hx Hrev. destruct (Hs x Hx Hrev) as (y & Hy & Hid & Htn & Hat). unfold upsert_credential. cbn [snd].
  set (same := λ z, bool_decide _). set (merge := λ old new, mkCredentialRow _ _ _ _ _ _).
  destruct (upsert_spec same merge (mkCredentialRow (pe_EnvelopeID e) taskID (pe_TenantID e) r None now) _ _ Hy)
    as [Hin|[Hsame Hin]]; eexists; (split; [exact Hin|]); [done|].
  apply bool_decide_eq_true in Hsame. cbn. split_and!; congruence.
Qed.

(** A revocation is permanent: issuing and storing further permission
    envelopes, even under the same reference, with any statement failing, leaves
    every revoked reference revoked at its time and its tenant's. *)
Theorem revocation_permanent taskID envelope c :
  still_revoked (c_tables c) (c_tables (SaveTaskPermissionEnvelope taskID envelope c).2).
Proof.
  assert (∀ t, still_revoked t t) as Hrefl by (intros t x Hx _; by exists x).
  destruct envelope as [e|]; cbn [SaveTaskPermissionEnvelope]; [|apply Hrefl].
  case_bool_decide; [apply Hrefl|].
  apply (hoare_bind_err (holds (c_db c) (c_tables c)) _ _ _ (λ _ c', still_revoked (c_tables c) (c_tables c'))
    (hoare_holds_begin (c_db c) (c_tables c))); [| |done].
  2:{ intros err c' [[_ Ht] _]. rewrite Ht. apply Hrefl. }
  intros [db t]. apply hoare_pure. intros Hp. injection (Hp _ eq_refl) as -> ->.
  eapply hoare_bind; [apply hoare_holds_now|]. intros now.
  eapply hoare_bind_err; [apply (hoare_holds_all (still_revoked (c_tables c))); [|apply Hrefl]| |].
  - intros q t1 Hq Hs. rewrite !elem_of_cons, elem_of_app, !list_elem_of_fmap in Hq.
    destruct Hq as [->|[(d & -> & _)|(r & -> & _)]]; [exact Hs..|]. by apply still_revoked_credential.
  - intros t1 c' [[_ Ht] Hs]. specialize (Hs _ eq_refl).
    destruct (ctx_commit_tables (c_db c) t1 c') as [Hc|Hc]; rewrite Hc; [done|]. rewrite Ht. apply Hrefl.
  - intros err c' [[_ Ht] _]. rewrite Ht. apply Hrefl.
Qed.

(** ** Execution contexts *)

Definition contexts (c : CWorld) : list context_row := execution_context (c_tables c).
Definition of_others (tenantID : string) (l : list context_row) : list context_row :=
  filter (λ x, xc_tenant_id x ≠ tenantID) l.

(** What saving a context for [tenantID] and [executionID] may leave. *)
Definition context_saved (tenantID executionID : string) (l : list context_row) (r : res ()) (l' : list context_row) : Prop :=
  of_others tenantID l' = of_others tenantID l ∧
  match r with
  | Ok _ => TrimSpace executionID = "" ∧ l' = l ∨
            tenantID ≠ "" ∧ ∃ x, x ∈ l' ∧ xc_execution_id x = executionID ∧ xc_tenant_id x = tenantID
  | Err _ => True
  end ∧
  (∀ x, head (filter (λ x, xc_execution_id x = executionID) l) = Some x → xc_tenant_id x ≠ tenantID →
        l' = l ∧ (TrimSpace executionID ≠ "" → is_ok r = false)).

Lemma others_upsert tenantID (same : context_row → bool) merge new l old :
  head (filter (λ x, same x = true) l) = Some old → xc_tenant_id old = tenantID →
  xc_tenant_id (merge old new) = tenantID →
  of_others tenantID (upsert same merge new l) = of_others tenantID l ∧ merge old new ∈ upsert same merge new l.
Proof.
  intros Hh Hold Hnew. unfold of_others. induction l as [|x l IH]; [done|]. cbn [upsert].
  rewrite filter_cons in Hh. destruct (same x) eqn:Hs.
  - rewrite decide_True in Hh by done. injection Hh as ->. rewrite !filter_cons_False by (by rewrite ?Hold, ?Hnew; auto).
    split; [done|]. set_solver.
  - rewrite decide_False in Hh by done. destruct (IH Hh) as [Heq Hin]. rewrite !filter_cons, Heq.
    split; [done|]. set_solver.
Qed.

Lemma filter_bool_Prop {A} (P : A → Prop) `{∀ x, Decision (P x)} (l : list A) :
  filter (λ x, bool_decide (P x) = true) l = filter P l.
Proof. apply list_filter_iff. intros x. apply bool_decide_eq_true. Qed.

(** One statement: the row is the tenant's own, or nothing happens. *)
Lemma upsert_context_saved row db t :
  let '(r, t') := upsert_context row db t in
  of_others (xc_tenant_id row) (execution_context t') = of_others (xc_tenant_id row) (execution_context t) ∧
  (∀ n, r = Ok n → n ≠ 0 → ∃ x, x ∈ execution_context t' ∧ xc_execution_id x = xc_execution_id row ∧
                                 xc_tenant_id x = xc_tenant_id row) ∧
  (∀ x, head (filter (λ x, xc_execution_id x = xc_execution_id row) (execution_context t)) = Some x →
        xc_tenant_id x ≠ xc_tenant_id row → t' = t ∧ (r = Ok 0)).
Proof.
  unfold upsert_context. destruct (head _) as [old|] eqn:Hh.
  - case_bool_decide as Hten; cbn [negb].
    2:{ split_and!; [done| |done]. by intros n [= <-]. }
    destruct (array_nonempty (xc_events row)) as [events|], (array_nonempty (xc_logs row)) as [logs|];
      try (split_and!; [done|done|intros x [= <-]; done]).
    set (merge := λ old new, merge_context old new events logs).
    destruct (others_upsert (xc_tenant_id row) (λ x, bool_decide (xc_execution_id x = xc_execution_id row)) merge row
      (execution_context t) old) as [Heq Hin]; [by rewrite filter_bool_Prop|done..|].
    split_and!; [exact Heq| |intros x [= <-]; done]. intros n _ _. eexists. split; [exact Hin|].
    cbn. split; [|done]. assert (old ∈ filter (λ x, xc_execution_id x = xc_execution_id row) (execution_context t)) as Ho.
    { destruct (filter _ _); [done|]. injection Hh as ->. set_solver. }
    by apply list_elem_of_filter in Ho as [? _].
  - split_and!; [| |done].
    + unfold of_others. cbn. rewrite filter_app, filter_cons_False by auto. by rewrite filter_nil, app_nil_r.
    + intros n _ _. exists row. split; [|done]. cbn. set_solver.
Qed.

(** The execution context of a tenant is written by nobody else: saving a
    context keeps the rows of every other tenant exactly as they were, whatever
    statement fails; it succeeds only if there was no execution to record or a
    row of the execution under the record's tenant is there afterwards; and when
    the execution already belongs to another tenant, nothing is stored and the
    save is refused. *)
Theorem context_tenant_isolated record c :
  let '(r, c') := SaveExecutionContext (Some record) c in
  context_saved (TrimSpace (ec_TenantID record)) (ec_ExecutionID record) (contexts c) r (contexts c').
Proof.
  unfold SaveExecutionContext, saveExecutionContext. unfold mbind at 1, ST_bind at 1.
  destruct (c_now c) as [now c0] eqn:Hnow. assert (contexts c0 = contexts c) as <- by (by injection Hnow as _ <-).
  clear c Hnow. unfold context_saved.
  destruct (TrimSpace (ec_ExecutionID record)) as [|a s] eqn:He.
  { split_and!; [done|by left|done]. }
  destruct (TrimSpace (ec_TenantID record)) as [|b u] eqn:Ht; [done|].
  change (negb (nonempty (String a s))) with false. change (negb (nonempty (String b u))) with false.
  cbv iota. rewrite <-Ht.
  set (row := context_row_of record now).
  change (ec_ExecutionID record) with (xc_execution_id row). change (TrimSpace (ec_TenantID record)) with (xc_tenant_id row).
  unfold bind_err, mbind, ST_bind, c_exec. cbv beta. destruct (next_fault (c_world c0)) as [f w].
  pose proof (upsert_context_saved row (w_db w) (c_tables c0)) as Hq.
  change (c_tables (c0 {{ c_world := w }})) with (c_tables c0). change (execution_context (c_tables c0)) with (contexts c0) in Hq.
  destruct f; [|done|]; destruct (upsert_context row (w_db w) (c_tables c0)) as [[n|e] t'];
    destruct Hq as (Hoth & Hrow & Hforeign); cbn [mret ST_ret fst snd].
  - destruct (n =? 0) eqn:Hn; cbn.
    + split_and!; [done..|]. intros x Hx Hne. by destruct (Hforeign x Hx Hne) as [-> _].
    + split_and!; [done| |intros x Hx Hne; destruct (Hforeign x Hx Hne) as [_ [= ->]]; done].
      right. split; [change (TrimSpace (ec_TenantID record) ≠ ""); by rewrite Ht|]. apply (Hrow n); [done|lia].
  - cbn. split_and!; [done..|]. intros x Hx Hne. by destruct (Hforeign x Hx Hne) as [-> _].
  - cbn. split_and!; [done..|]. intros x Hx Hne. by destruct (Hforeign x Hx Hne) as [-> _].
  - cbn. split_and!; [done..|]. intros x Hx Hne. by destruct (Hforeign x Hx Hne) as [-> _].
Qed.
End Facts.

(** ** Lineage *)

(** An execution that another tenant recorded is taken over: the row in conflict
    becomes the new tenant's, and the tenant that recorded it no longer finds
    it. *)
Theorem lineage_taken_over `{Ext} x now db old tenant :
  NoDup (li_execution_id <$> execution_lineage db) →
  head (filter (λ y, same_execution (li_execution_id x) y = true) (execution_lineage db)) = Some old →
  - 2 ^ 31 ≤ li_tool_calls x ≤ int32_max → li_tenant_id old = Some tenant →
  is_Some (li_tenant_id x) → li_tenant_id x ≠ Some tenant →
  let db' := (upsert_lineage x now db).2 in
  length (execution_lineage db') = length (execution_lineage db) ∧
  merge_lineage old x ∈ execution_lineage db' ∧ li_tenant_id (merge_lineage old x) = li_tenant_id x ∧
  (select_lineage (li_execution_id x) tenant db').1 = Err ErrNoRows.
Proof.
  intros Hnd Hh Hcalls Hold [t Hx] Hne. cbv zeta. unfold upsert_lineage.
  rewrite (proj2 (orb_false_iff _ _)) by (split; apply Z.ltb_ge; lia).
  set (db1 := db {{ execution_lineage ::= _ }}).
  assert (execution_lineage (if lineage_trigger db1 then sync_from_lineage (resulting_lineage x db) now db1 else (Ok tt, db1)).2
          = upsert (same_execution (li_execution_id x)) merge_lineage x (execution_lineage db)) as Hl.
  { destruct (lineage_trigger db1); [|done]. unfold sync_from_lineage. repeat (case_match; try done). }
  unfold select_lineage. cbv zeta. cbn [fst]. rewrite Hl. clear Hl db1. assert (Hten : li_tenant_id (merge_lineage old x) = li_tenant_id x).
  { cbn. by rewrite Hx. }
  assert (li_execution_id old = li_execution_id x) as Hid.
  { assert (old ∈ filter (λ y, same_execution (li_execution_id x) y = true) (execution_lineage db)) as Ho.
    { destruct (filter _ _); [done|]. injection Hh as ->. set_solver. }
    apply list_elem_of_filter in Ho as [Ho _]. by apply bool_decide_eq_true in Ho. }
  induction (execution_lineage db) as [|y l IH]; [done|]. rewrite fmap_cons, NoDup_cons in Hnd. cbn [upsert].
  rewrite filter_cons in Hh. destruct (same_execution (li_execution_id x) y) eqn:Hs.
  - rewrite decide_True in Hh by done. injection Hh as ->. split_and!; [done|set_solver|done|].
    clear IH. rewrite filter_cons_False by (intros [_ ?]; congruence).
    destruct (filter _ l) as [|z l'] eqn:Hf; [done|]. exfalso. apply (proj1 Hnd).
    assert (z ∈ z :: l') as Hz by set_solver. rewrite <-Hf in Hz. apply list_elem_of_filter in Hz as [[Hz _] Hin].
    rewrite Hid, <-Hz. apply list_elem_of_fmap. by exists z.
  - rewrite decide_False in Hh by done. destruct (IH (proj2 Hnd) Hh) as (Hlen & Hin & _ & Hsel).
    split_and!; [cbn; by rewrite Hlen|set_solver|done|]. rewrite filter_cons_False; [done|].
    intros [Hy _]. unfold same_execution in Hs. by rewrite bool_decide_true in Hs.
Qed.

Module ArtifactExample.
#[local] Instance ext : Ext := demo_ext.
#[local] Existing Instance stable_sort.

(** A tool call audited under envelope "env-1". *)
Definition envelope_text (violation : string) : string :=
  obj_text ([("execution_id", str_text "e-1"); ("policy_decision_id", str_text "env-1");
             ("routing_decision", str_text "tool:http"); ("signature", str_text "c2ln")]
    ++ omit_empty "violation" violation).
Definition receipt_text : string :=
  obj_text [("execution_id", str_text "e-1"); ("hash", str_text "h"); ("signature", str_text "c2ln");
            ("violation_occurred", "false")].

(** The flag of the audit row is not the flag replay compares it with. *)
Example violation_flag_diverges :
  ∃ refs, aiToolAuditRefs (envelope_text "memory_limit") receipt_text = Some refs ∧
    let row := tool_receipt_row_of refs (new_row TaskRecord_zero "{}" 0) (envelope_text "memory_limit") receipt_text 0 in
    tr_violation_occurred row = true ∧
    "violation_flag_mismatch" ∈ ar_ValidationErrors (validateAIToolAuditReplay row "").
Proof.
  eexists. split; [vm_compute; reflexivity|]. cbv zeta. split; [reflexivity|].
  apply (bool_decide_unpack _). vm_compute. reflexivity.
Qed.
End ArtifactExample.
