(* ===== verification/CoordHandlers.v ===== *)
(** * What the coordinator's handlers do

    Each handler as a trace: the assertions store moves keep, the triples of the
    transitions and reads, and one lemma per handler. *)

From S2P Require Import Prelude GoStrings Json Ext WalCodec Checkpoint Types Capability Governance.
From S2P Require Import TaskDef Store ProofState StoreLogic StoreSpec StoreTheorems InputRefs.
From S2P Require Import InputRefsFacts CoordState Coordinator CoordLogic.
Open Scope Z_scope.

Section Handlers.
Context `{Ext} `{CheckpointCodec} `{UUIDSupply} `{MapRange} `{AEAD} `{SortSlice} `{!CheckpointCodecLaws}.
Context (execCfg : ExecutionConfig).

(** ** What the traces keep *)

(** The row of [id] is dispatched to this runtime. *)
Definition dispatched_to (id : uuid) (rt ep : string) (db : DB) : Prop :=
  ∃ r, task_records db !! id = Some r ∧ r_status r = TaskStatusDispatched ∧
       r_runtime_id r = Some rt ∧ r_runtime_endpoint r = Some ep.

(** The row [id] exists and carries the task's identity. *)
Definition of_row (id : uuid) (task : TaskRecord) (db : DB) : Prop :=
  ∃ r, task_records db !! id = Some r ∧ r_task_id r = id ∧ t_TaskID task = id ∧
       t_TenantID task = r_tenant_id r.

(** A dispatch that is about to start calls the runtime the row names. *)
Definition backed (db : DB) (j : job) : Prop :=
  match j with
  | JRecover _ => True
  | JDispatch t _ => ∃ rt ep, t_RuntimeID t = Some rt ∧ t_RuntimeEndpoint t = Some ep ∧
      dispatched_to (t_TaskID t) rt ep db ∧ of_row (t_TaskID t) t db
  end.

(** What makes a checkpoint safe to resume the task of row [id] from. *)
Definition resumable (id : uuid) (cp : option CheckpointPayload) (db : DB) : Prop :=
  ∃ r c, task_records db !! id = Some r ∧ cp = Some c ∧
    TaskRecoveryCheckpointUsable id (Some c) = true ∧
    human_gated (r_task_definition r) = false ∧
    (taskHasIrreversibleAction (r_task_definition r) = true →
     irreversibleStepIndexes (r_task_definition r) ≠ [] ∧
     ∀ idx, idx ∈ irreversibleStepIndexes (r_task_definition r) → LastStep c < idx).

Definition recovered (db : DB) (j : job) : Prop :=
  match j with
  | JRecover _ => False
  | JDispatch t cp => backed db j ∧ resumable (t_TaskID t) cp db
  end.

Section Stability.
Context (justified : DB → job → Prop).
Local Abbreviation trace := (trace justified).
Local Abbreviation quiet := (quiet justified).
Local Abbreviation runs := (runs justified).

(** Predicates on the tables that every store move keeps. *)
Definition stable (P : DB → Prop) : Prop := ∀ db db', db_move db db' → P db → P db'.

Lemma stable_trace P c c' : stable P → trace c c' → P (c_db c) → P (c_db c').
Proof.
  intros HP. induction 1 as [c|c1 c2 c3 Hs _ IH]; [done|]. intros Hc. apply IH.
  destruct Hs as [Hm _|j Hdb _ _]; [by eapply HP|by rewrite Hdb].
Qed.

Lemma stable_and P Q : stable P → stable Q → stable (λ db, P db ∧ Q db).
Proof. intros HP HQ db db' Hm []. split; [by eapply HP|by eapply HQ]. Qed.

Lemma stable_ok : stable db_ok.
Proof. by intros db db' [_ ?]. Qed.

Lemma move_row db db' id r :
  db_move db db' → task_records db !! id = Some r →
  ∃ r', task_records db' !! id = Some r' ∧ identity_columns r' = identity_columns r.
Proof. intros [(Hf & _) _] Hr. destruct (Hf _ _ Hr) as (r' & ? & ? & _). eauto. Qed.

Lemma stable_of_row id task : stable (of_row id task).
Proof.
  intros db db' Hm (r & Hr & Hid & ? & ?). destruct (move_row _ _ _ _ Hm Hr) as (r' & Hr' & Heq).
  unfold identity_columns in Heq. exists r'. split_and!; try done; congruence.
Qed.

Lemma stable_resumable id cp : stable (resumable id cp).
Proof.
  intros db db' Hm (r & c & Hr & Hrest). destruct (move_row _ _ _ _ Hm Hr) as (r' & Hr' & Heq).
  exists r', c. assert (r_task_definition r' = r_task_definition r) as ->
    by (unfold identity_columns in Heq; congruence). done.
Qed.

(** Quiet handlers also keep where a task is dispatched to. *)
Definition quiet_stable (P : DB → Prop) : Prop := ∀ db db', keeps_rows db db' → P db → P db'.

Lemma quiet_stable_dispatched id rt ep : quiet_stable (dispatched_to id rt ep).
Proof.
  intros db db' Hk (r & Hr & ? & ? & ?). destruct (Hk _ _ Hr) as (r' & Hr' & Ho & _).
  unfold outcome_columns in Ho. exists r'. split_and!; congruence.
Qed.

(** A handler inside the traces, with a stable assertion. *)
Lemma runs_stable {A} (P : DB → Prop) (m : ST CWorld A) :
  stable P → within trace m → runs (λ c, P (c_db c)) m (λ _ c, P (c_db c)).
Proof. intros HP Hm c Hc. split; [apply Hm|]. exact (stable_trace P _ _ HP (Hm c) Hc). Qed.

(** A quiet one also keeps a quiet-stable assertion. *)
Lemma runs_quiet_stable {A} (P Q : DB → Prop) (m : ST CWorld A) :
  stable P → quiet_stable Q → within quiet m →
  runs (λ c, P (c_db c) ∧ Q (c_db c)) m (λ _ c, P (c_db c) ∧ Q (c_db c)).
Proof.
  intros HP HQ Hm c [Hp Hq]. destruct (Hm c) as (Ht & _ & Hk). split; [done|].
  split; [exact (stable_trace P _ _ HP Ht Hp)|by eapply HQ].
Qed.

Lemma runs_pure {A} (P : CWorld → Prop) (φ : Prop) (m : ST CWorld A) Q :
  (φ → runs P m Q) → runs (λ c, P c ∧ φ) m Q.
Proof. intros Hm c [HP Hφ]. by apply Hm. Qed.

Lemma runs_done {A} (P : CWorld → Prop) (a : A) : runs P (mret a) (λ _ _, True).
Proof. by apply runs_ret. Qed.

(** ** Transitions *)

Lemma trace_MarkFailed id reason details : within trace (on_store (MarkFailedWithDetails id reason details)).
Proof. apply trace_store, op_sound_undiscard, (run_op_sound (OpMarkFailed id reason details)). Qed.

Lemma trace_fail_task id reason details : within trace (fail_task id reason details).
Proof. unfold fail_task. apply within_ignore; [apply _|apply trace_MarkFailed]. Qed.

Lemma runs_fail_task (P : CWorld → Prop) id reason details : runs P (fail_task id reason details) (λ _ _, True).
Proof. apply runs_any, trace_fail_task. Qed.

Lemma on_store_done {A} (m : ST World A) (R : A → DB → DB → Prop) :
  (∀ db, hoare (db_is db) m (λ a w, R a db (w_db w))) →
  ∀ c, R (on_store m c).1 (c_db c) (c_db (on_store m c).2).
Proof.
  intros Hm c. destruct (on_store_result m c) as (-> & -> & _). by apply (Hm (c_db c)).
Qed.

Lemma runs_MarkDispatched (P : DB → Prop) id rt ep :
  stable P →
  runs (λ c, P (c_db c)) (on_store (MarkDispatched id rt ep))
    (λ r c, P (c_db c) ∧ (r = Ok tt → dispatched_to id rt ep (c_db c))).
Proof.
  intros HP c Hc.
  assert (within trace (on_store (MarkDispatched id rt ep))) as Ht
    by (apply trace_store, op_sound_undiscard, (run_op_sound (OpMarkDispatched id rt ep))).
  split; [apply Ht|]. split; [exact (stable_trace P _ _ HP (Ht c) Hc)|].
  apply (on_store_done (MarkDispatched id rt ep) (λ r _ db', r = Ok tt → dispatched_to id rt ep db')).
  clear. intros db. eapply (hoare_bind_db _ _ _ (λ _ db', db' = db)); [apply hoare_time_now|].
  intros now db' ->. eapply hoare_conseq; [apply hoare_exec_transition|done|].
  intros r w Ho ->. inversion Ho as [db' (row & Hrow & HP & Heq)| | |]; subst.
  rewrite Heq. unfold dispatched_to. rewrite tasks_update, lookup_insert_eq. eauto 10.
Qed.

Lemma runs_MarkApprovedDispatched (P : DB → Prop) id tenant rt ep approver :
  stable P →
  runs (λ c, P (c_db c)) (on_store (MarkApprovedDispatched id tenant rt ep approver))
    (λ r c, P (c_db c) ∧ (r = Ok tt → dispatched_to id rt ep (c_db c))).
Proof.
  intros HP c Hc.
  assert (within trace (on_store (MarkApprovedDispatched id tenant rt ep approver))) as Ht
    by (apply trace_store, op_sound_undiscard, (run_op_sound (OpMarkApprovedDispatched id tenant rt ep approver))).
  split; [apply Ht|]. split; [exact (stable_trace P _ _ HP (Ht c) Hc)|].
  apply (on_store_done (MarkApprovedDispatched id tenant rt ep approver)
           (λ r _ db', r = Ok tt → dispatched_to id rt ep db')).
  clear. intros db. eapply (hoare_bind_db _ _ _ (λ _ db', db' = db)); [apply hoare_time_now|].
  intros now db' ->. eapply hoare_conseq; [apply hoare_exec_transition|done|].
  intros r w Ho ->. inversion Ho as [db' (row & Hrow & HP & Heq)| | |]; subst.
  rewrite Heq. unfold dispatched_to. rewrite tasks_update, lookup_insert_eq. eauto 10.
Qed.

(** ** Reads *)

Lemma runs_still {A} (P : DB → Prop) (m : ST CWorld A) :
  within still m → runs (λ c, P (c_db c)) m (λ _ c, P (c_db c)).
Proof.
  intros Hm c Hc. split; [apply quiet_trace, within_still_quiet, Hm|].
  by destruct (Hm c) as [-> _].
Qed.

Lemma runs_read {A} (P : DB → Prop) (m : ST World A) (R : A → DB → Prop) :
  (∀ db, hoare (db_is db) m (λ a w, w_db w = db ∧ R a db)) →
  runs (λ c, P (c_db c)) (on_store m) (λ a c, P (c_db c) ∧ R a (c_db c)).
Proof.
  intros Hm c Hc. assert (within still (on_store m)) as Hs.
  { apply still_store. intros db. eapply hoare_conseq; [apply Hm|done|]. by intros a w [? _]. }
  split; [apply quiet_trace, within_still_quiet, Hs|].
  destruct (Hs c) as [-> _]. split; [done|].
  destruct (on_store_result m c) as (-> & _). by apply (Hm (c_db c) (c_world c) eq_refl).
Qed.

(** A fact the assertion implies. *)
Lemma runs_learn {A} (φ : Prop) (P : CWorld → Prop) (m : ST CWorld A) Q :
  (∀ c, P c → φ) → (φ → runs P m Q) → runs P m Q.
Proof. intros Hφ Hm c HP. by apply Hm; [eapply Hφ|]. Qed.

Definition task_of (id : uuid) (tenant : string) (r : res TaskRecord) (db : DB) : Prop :=
  ∀ t, r = Ok t → ∃ row, task_records db !! id = Some row ∧ r_tenant_id row = tenant ∧ t = row_task row.

Lemma hoare_GetTask id tenant db :
  hoare (db_is db) (GetTask id tenant) (λ r w, w_db w = db ∧ task_of id tenant r db).
Proof.
  unfold GetTask. eapply (hoare_bind_err_db _ _ _ (λ r db', db' = db ∧
    ∀ row, r = Ok row → task_records db !! id = Some row ∧ r_tenant_id row = tenant)).
  - eapply hoare_conseq; [apply hoare_exec|done|]. intros r w Ho. unfold select_task in Ho.
    inversion Ho as [r' db' Hd| |]; subst; [|split; [done|by intros]..]. split; [congruence|].
    intros row ->. destruct (task_records db !! id) as [x|]; [|done].
    unfold tenant_is in Hd. case_bool_decide; [|done]. by injection Hd as ->.
  - intros row db' [-> Hrow]. destruct (Hrow row eq_refl) as [Hr Ht]. apply hoare_ret_db. intros w ->.
    split; [done|]. intros t [= <-]. eauto.
  - intros e w [-> _]. split; [done|]. by intros t.
Qed.

Lemma runs_GetTask (P : DB → Prop) id tenant :
  runs (λ c, P (c_db c)) (on_store (GetTask id tenant))
    (λ r c, P (c_db c) ∧ task_of id tenant r (c_db c)).
Proof. apply runs_read. apply hoare_GetTask. Qed.
End Stability.

(** Hydration keeps a task's identity, definition, status, runtime and checkpoint. *)
Definition same_task (t t' : TaskRecord) : Prop :=
  t_TaskID t' = t_TaskID t ∧ t_TenantID t' = t_TenantID t ∧ t_TaskDefinition t' = t_TaskDefinition t ∧
  t_Status t' = t_Status t ∧ t_RuntimeID t' = t_RuntimeID t ∧ t_RuntimeEndpoint t' = t_RuntimeEndpoint t ∧
  t_LastCheckpoint t' = t_LastCheckpoint t.

Lemma Ok_inj {A} (a b : A) : Ok a = Ok b → a = b.
Proof. by intros [= ->]. Qed.

Lemma Hydrate_same task c t : (HydrateTaskPermissionEnvelope task c).1 = Ok t → same_task task t.
Proof.
  unfold HydrateTaskPermissionEnvelope.
  destruct (t_PermissionEnvelope task); [by intros [= <-]|].
  destruct loadOvertureSigningKey; [|by intros [= <-]].
  case_match; [by intros [= <-]|]. unfold mbind, ST_bind.
  destruct (LoadLatestTaskPermissionEnvelope (t_TaskID task) c) as [[e|err] c'].
  - cbn [fst]. intros <-%Ok_inj. repeat case_match; done.
  - cbn. case_match; [by intros [= <-]|done].
Qed.

Lemma runs_Hydrate justified (P : DB → Prop) task :
  runs justified (λ c, P (c_db c)) (HydrateTaskPermissionEnvelope task)
    (λ r c, P (c_db c) ∧ ∀ t, r = Ok t → same_task task t).
Proof.
  intros c Hc. destruct (runs_still justified P _ (still_Hydrate task) c Hc) as [Ht HP].
  split_and!; [done..|]. intros t. apply Hydrate_same.
Qed.

(** ** Recovery *)

Local Abbreviation rruns := (runs recovered).

Lemma still_rehydrate_for tenantID taskID reason raw :
  within still (rehydrateTaskDefinitionInputRefs (λ refID purpose,
    DecryptExecutionInputRef tenantID taskID refID purpose reason) raw).
Proof. apply still_rehydrate. intros. apply still_Decrypt. Qed.

Lemma runs_recovery_event justified (P Q : DB → Prop) task taskID ev src tgt cp allowed reason :
  stable P → quiet_stable Q →
  runs justified (λ c, P (c_db c) ∧ Q (c_db c)) (recovery_event task taskID ev src tgt cp allowed reason)
    (λ _ c, P (c_db c) ∧ Q (c_db c)).
Proof.
  intros HP HQ. apply runs_quiet_stable; [done..|]. unfold recovery_event.
  apply within_ignore; [apply _|]. apply quiet_SaveRecoveryEvent.
Qed.

(** The redispatched task is the row's, on the runtime the row now names. *)
Lemma recover_redispatch_runs runtimeID taskID tenantID newRuntime decision cp :
  rruns (λ c, (db_ok (c_db c) ∧ resumable taskID cp (c_db c)) ∧
              dispatched_to taskID (rt_RuntimeID newRuntime) (rt_Endpoint newRuntime) (c_db c))
    (recover_redispatch runtimeID taskID tenantID newRuntime decision cp) (λ _ _, True).
Proof.
  unfold recover_redispatch.
  set (P := λ db, db_ok db ∧ resumable taskID cp db).
  set (Q := dispatched_to taskID (rt_RuntimeID newRuntime) (rt_Endpoint newRuntime)).
  assert (HP : stable P) by (apply stable_and; [apply stable_ok|apply stable_resumable]).
  assert (HQ : quiet_stable Q) by apply quiet_stable_dispatched.
  eapply runs_bind; [apply (runs_GetTask _ (λ db, P db ∧ Q db))|].
  intros [task|e]; [|apply runs_done]. cbv beta iota.
  eapply runs_bind;
    [apply (runs_Hydrate _ (λ db, (P db ∧ Q db) ∧ task_of taskID tenantID (Ok task) db))|].
  intros [task'|e]; [|apply runs_done]. cbv beta iota. apply runs_pure. intros Hsame.
  specialize (Hsame _ eq_refl) as (Hid & Hten & _ & _ & Hrt & _).
  set (task1 := task' {{ t_RuntimeEndpoint := _; t_PermissionEnvelope := _ }}).
  apply (runs_learn _ (t_RuntimeID task1 = Some (rt_RuntimeID newRuntime) ∧ t_TaskID task1 = taskID)).
  { intros c [[[Hok _] (row' & Hr' & _ & Hrt' & _)] Hrow]. destruct (Hrow _ eq_refl) as (row & Hr & _ & ->).
    change (t_RuntimeID task1) with (t_RuntimeID task'). change (t_TaskID task1) with (t_TaskID task').
    rewrite Hid, Hrt. cbn. pose proof (ok_ids _ Hok _ _ Hr). split; congruence. }
  intros [Hrt1 Hid1]. apply (runs_conseq _ _ (λ c, (P (c_db c) ∧ of_row taskID task1 (c_db c)) ∧ Q (c_db c))
    _ (λ _ _, True) (λ _ _, True)); [| |done].
  2:{ intros c [[Hp Hq] Hrow]. destruct (Hrow _ eq_refl) as (row & Hr & _ & ->).
      split_and!; [done| |done]. exists row. split_and!; [done|by eapply ok_ids; [apply Hp|]|done|exact Hten]. }
  set (P' := λ db, P db ∧ of_row taskID task1 db).
  assert (HP' : stable P') by (apply stable_and; [done|apply stable_of_row]).
  eapply runs_bind; [apply (runs_still _ (λ db, P' db ∧ Q db)), still_rehydrate_for|].
  intros [rehydrated|e]; [|apply runs_fail_task]. cbv beta iota.
  eapply runs_bind; [apply runs_quiet_stable; [done..|];
    apply within_ignore; [apply _|apply quiet_SaveExecutionBoundary]|]. intros [].
  eapply runs_bind; [by apply runs_recovery_event|]. intros [].
  apply runs_spawn. intros c [[[_ Hres] Hof] Hq]. cbn [recovered backed t_TaskID]. split.
  - exists (rt_RuntimeID newRuntime), (rt_Endpoint newRuntime).
    unfold Q in Hq. change (t_TaskID (task1 {{ t_TaskDefinition := rehydrated }})) with (t_TaskID task1).
    rewrite Hid1. done.
  - change (resumable (t_TaskID task1) cp (c_db c)). by rewrite Hid1.
Qed.

(** The row carries the task's definition. *)
Definition defined (id : uuid) (task : TaskRecord) (db : DB) : Prop :=
  ∃ r, task_records db !! id = Some r ∧ t_TaskID task = id ∧ t_TaskDefinition task = r_task_definition r.

Lemma stable_defined id task : stable (defined id task).
Proof.
  intros db db' Hm (r & Hr & Hid & Hdef). destruct (move_row _ _ _ _ Hm Hr) as (r' & Hr' & Heq).
  exists r'. split_and!; [done..|]. unfold identity_columns in Heq. congruence.
Qed.

Lemma runs_evaluate_policy justified (P : DB → Prop) input :
  runs justified (λ c, P (c_db c)) (evaluate_policy input)
    (λ d c, P (c_db c) ∧ ∃ id now, d = evaluateActionPolicy id now input).
Proof.
  intros c Hc. destruct (runs_still justified P _ (still_evaluate_policy input) c Hc) as [Ht HP].
  split_and!; [done..|]. eexists _, _. reflexivity.
Qed.

Lemma handoff_resumable task taskID cp rt identity caps id now reason db :
  defined taskID task db →
  RecoveryHandoffAllowed (Some task) cp rt (evaluateActionPolicy id now
    (mkPolicyInput (t_TenantID task) (t_TaskID task) rt (t_TaskDefinition task) identity caps cp true)) =
    (true, reason) →
  resumable taskID cp db.
Proof.
  intros (r & Hr & Hid & Hdef) Hallow.
  destruct (handoff_allowed_safe id now (mkPolicyInput (t_TenantID task) (t_TaskID task) rt
    (t_TaskDefinition task) identity caps cp true) task rt eq_refl eq_refl eq_refl) as (Hg & c & Hc & Hu & Hsafe).
  { cbn [in_Checkpoint]. by rewrite Hallow. }
  exists r, c. rewrite Hid in Hu. rewrite <-Hdef. done.
Qed.

Lemma recover_decide_runs runtimeID taskID tenantID task cp :
  rruns (λ c, db_ok (c_db c) ∧ defined taskID task (c_db c))
    (recover_decide execCfg runtimeID taskID tenantID task cp) (λ _ _, True).
Proof.
  unfold recover_decide. set (P := λ db, db_ok db ∧ defined taskID task db).
  assert (HP : stable P) by (apply stable_and; [apply stable_ok|apply stable_defined]).
  eapply runs_bind; [apply (runs_still _ P), still_selectRuntime|].
  intros [newRuntime|e]; [|apply runs_fail_task]. cbv beta iota.
  eapply runs_bind; [apply (runs_evaluate_policy _ P)|]. intros decision. apply runs_pure.
  intros (id & now & Hdec).
  assert (∀ (m : ST CWorld (res ())), within (quiet recovered) m →
    rruns (λ c, P (c_db c)) m (λ _ c, P (c_db c))) as Hquiet
    by (intros m Hm; apply runs_stable; [done|by apply quiet_trace]).
  assert (∀ (m : ST CWorld (res ())), within (quiet recovered) m →
    rruns (λ c, P (c_db c)) (ignore m) (λ _ c, P (c_db c))) as Hignore.
  { intros m Hm. apply runs_stable; [done|]. apply within_ignore; [apply _|by apply quiet_trace]. }
  eapply runs_bind; [apply Hquiet, quiet_SaveActionPolicyDecision|].
  intros [[]|e]; [|apply runs_fail_task]. cbv beta iota.
  eapply runs_bind; [apply Hignore, quiet_SetLatestPolicyDecision|]. intros [].
  destruct (RecoveryHandoffAllowed _ _ _ _) as [allowed handoffReason] eqn:Hallow.
  eapply runs_bind; [apply Hignore, quiet_SaveRuntimeHandoffEvent|]. intros [].
  eapply runs_bind; [apply Hignore, quiet_SaveRecoveryEvent|]. intros [].
  destruct allowed; cbn [negb]; [|apply runs_fail_task]. rewrite Hdec in Hallow.
  eapply runs_bind; [by apply (runs_MarkDispatched _ P)|].
  intros [[]|e]; [|apply runs_done]. cbv beta iota.
  eapply runs_conseq; [apply recover_redispatch_runs| |done].
  intros c [[Hok Hdef] Hdisp]. split_and!; [done| |by apply Hdisp].
  by eapply handoff_resumable.
Qed.

Lemma recover_checkpoint_runs runtimeID taskID tenantID task stored :
  rruns (λ c, db_ok (c_db c) ∧ defined taskID task (c_db c))
    (recover_checkpoint execCfg runtimeID taskID tenantID task stored) (λ _ _, True).
Proof.
  unfold recover_checkpoint, invalid_checkpoint_failure.
  destruct stored as [cp|e]; [|case_match; [apply runs_fail_task|apply runs_done]].
  cbv zeta. destruct (if _ : bool then _ else _) as [cp'|e]; [|apply runs_fail_task].
  destruct (_ && _); [apply runs_fail_task|apply recover_decide_runs].
Qed.

Lemma still_GetCumulative id : within still (on_store (GetCumulativeRecoveryCheckpoint id)).
Proof.
  apply still_store. intros db. unfold GetCumulativeRecoveryCheckpoint, GetAllCheckpoints.
  eapply (hoare_bind_err_db _ _ _ (λ _ db', db' = db)); [|by intros a db' ->; apply hoare_ret_db|done].
  eapply (hoare_bind_err_db _ _ _ (λ _ db', db' = db)); [by apply hoare_read| |done].
  intros a db' ->. by apply hoare_ret_db.
Qed.

Lemma still_select_task id P : within still (on_store (exec (select_task id P))).
Proof. apply still_store. intros db. by apply hoare_read. Qed.

Lemma shouldEnqueueDLQ_same task c : same_task task (shouldEnqueueDLQ execCfg task c).1.2.
Proof. unfold shouldEnqueueDLQ, mbind, ST_bind. destruct (on_store _ c) as [[n|e] c']; done. Qed.

Lemma quiet_shouldEnqueueDLQ justified task : within (quiet justified) (shouldEnqueueDLQ execCfg task).
Proof.
  unfold shouldEnqueueDLQ. apply within_bind; [apply _|apply quiet_bump_attempts|]. intros r. apply within_ret, _.
Qed.

Lemma same_defined id t t' db : same_task t t' → defined id t db → defined id t' db.
Proof. intros (Hid & _ & Hdef & _) (r & ? & ? & ?). exists r. split_and!; [done|congruence..]. Qed.

Lemma recover_task_runs runtimeID taskID :
  rruns (λ c, db_ok (c_db c)) (recover_task execCfg runtimeID taskID) (λ _ _, True).
Proof.
  unfold recover_task.
  eapply runs_bind; [apply (runs_still _ db_ok), still_GetCumulative|]. intros stored.
  eapply runs_bind; [apply (runs_still _ db_ok), still_select_task|]. intros q. cbv zeta.
  eapply runs_bind; [apply (runs_GetTask _ db_ok)|]. intros [task|e]; [|apply runs_done]. cbv beta iota.
  set (P t := λ db, db_ok db ∧ defined taskID t db).
  assert (HP : ∀ t, stable (P t)) by (intros t; apply stable_and; [apply stable_ok|apply stable_defined]).
  apply (runs_conseq _ _ (λ c, P task (c_db c)) _ (λ _ _, True) (λ _ _, True)); [| |done].
  2:{ intros c [Hok Hrow]. destruct (Hrow _ eq_refl) as (row & Hr & _ & ->). split; [done|].
      exists row. split_and!; [done|by eapply ok_ids|done]. }
  eapply runs_bind; [apply (runs_stable _ (P task)); [done|];
    apply within_ignore; [apply _|apply quiet_trace, quiet_SaveRecoveryEvent]|]. intros [].
  eapply runs_bind; [apply (runs_Hydrate _ (P task))|]. intros [task'|e]; [|apply runs_done].
  cbv beta iota zeta. apply runs_pure. intros Hsame. specialize (Hsame _ eq_refl).
  case_match.
  { unfold handleRecoverySkip. case_match; [apply runs_fail_task|apply runs_done]. }
  eapply (runs_bind _ _ _ _ (λ p c, P p.2 (c_db c))).
  { intros c [Hok Hdef]. pose proof (quiet_shouldEnqueueDLQ recovered task' c) as (Ht & _).
    split; [done|]. assert (P task (c_db c)) as HPc by done.
    apply (stable_trace _ _ _ _ (HP task) Ht) in HPc as [Hok' Hdef'].
    split; [done|]. eapply same_defined; [apply shouldEnqueueDLQ_same|]. by eapply same_defined. }
  intros [exceeded task2]. cbn [snd]. destruct exceeded.
  { eapply runs_bind; [|intros []; apply runs_fail_task]. apply (runs_still _ (P task2)).
    apply within_ignore; [apply _|apply still_enqueueDLQ]. }
  eapply runs_bind; [apply (runs_still _ (P task2)), still_hasCommitted|].
  intros []; [apply runs_fail_task|apply recover_checkpoint_runs].
Qed.

Lemma trace_ok justified c c' : trace justified c c' → db_ok (c_db c) → db_ok (c_db c').
Proof. intros Ht. apply (stable_trace _ _ _ _ stable_ok Ht). Qed.

Lemma runs_ok {A} justified (m : ST CWorld A) :
  runs justified (λ c, db_ok (c_db c)) m (λ _ _, True) →
  runs justified (λ c, db_ok (c_db c)) m (λ _ c, db_ok (c_db c)).
Proof. intros Hm c Hc. destruct (Hm c Hc) as [Ht _]. split; [done|]. by eapply trace_ok. Qed.

Lemma runs_for_each {A} justified (f : A → ST CWorld ()) l :
  (∀ a, runs justified (λ c, db_ok (c_db c)) (f a) (λ _ _, True)) →
  runs justified (λ c, db_ok (c_db c)) (for_each f l) (λ _ _, True).
Proof.
  intros Hf. induction l as [|a l IH]; cbn [for_each]; [apply runs_done|].
  eapply runs_bind; [apply runs_ok, Hf|]. intros []. apply IH.
Qed.

Lemma recoverRuntime_runs runtimeID :
  rruns (λ c, db_ok (c_db c)) (recoverRuntime execCfg runtimeID) (λ _ _, True).
Proof.
  unfold recoverRuntime.
  eapply runs_bind; [apply (runs_still _ db_ok); apply within_ignore; [apply _|apply still_c_exec]|]. intros [].
  eapply runs_bind; [apply (runs_stable _ db_ok); [apply stable_ok|];
    apply trace_store, op_sound_undiscard, (run_op_sound (OpMarkRecovering runtimeID))|].
  intros [ids|e]; [|apply runs_done]. apply runs_for_each. intros id. apply recover_task_runs.
Qed.

Lemma recoverFailedRuntimes_runs :
  rruns (λ c, db_ok (c_db c)) (recoverFailedRuntimes execCfg) (λ _ _, True).
Proof.
  unfold recoverFailedRuntimes.
  eapply runs_bind; [apply (runs_still _ db_ok), still_c_now|]. intros now.
  eapply runs_bind; [apply (runs_still _ db_ok), still_c_exec|].
  intros [ids|e]; [|apply runs_done]. apply runs_for_each. intros id. apply recoverRuntime_runs.
Qed.

(** ** Submission *)

Local Abbreviation bruns := (runs backed).

Lemma still_protect_inputs definition tenantID taskID : within still (protect_inputs definition tenantID taskID).
Proof. intros c. unfold protect_inputs. by destruct (protectTaskDefinitionInputs _ _ _ _) as [[]|]. Qed.

Lemma still_prepare req : within still (prepare req).
Proof.
  unfold prepare. walk ltac:(first [apply still_c_uuid | apply still_c_now | apply still_protect_inputs]).
Qed.

Lemma runs_Create task refs :
  bruns (λ _, True) (CreateTaskWithExecutionInputRefs task refs)
    (λ r c, r = Ok true → of_row (t_TaskID task) task (c_db c)).
Proof.
  intros c _. destruct (hoare_CreateTaskWithExecutionInputRefs task refs (c_db c) (c_jobs c) c) as (Hj & Hdb & Hres);
    [done|]. split.
  - apply rtc_once, cs_move; [|done].
    destruct Hdb as [->|(definition & now & Hc)]; [apply db_move_refl|].
    split; [by eapply created_step|by eapply created_ok].
  - intros Hr. rewrite Hr in Hres. destruct Hres as (definition & now & Hc).
    apply created_row in Hc. eexists. split; [exact Hc|]. done.
Qed.

Lemma submit_dispatched_runs p runtime :
  bruns (λ c, of_row (t_TaskID (p_task p)) (p_task p) (c_db c) ∧
              dispatched_to (t_TaskID (p_task p)) (rt_RuntimeID runtime) (rt_Endpoint runtime) (c_db c))
    (submit_dispatched p runtime) (λ _ _, True).
Proof.
  unfold submit_dispatched. cbv zeta.
  set (P := of_row (t_TaskID (p_task p)) (p_task p)).
  set (Q := dispatched_to (t_TaskID (p_task p)) (rt_RuntimeID runtime) (rt_Endpoint runtime)).
  assert (HP : stable P) by apply stable_of_row. assert (HQ : quiet_stable Q) by apply quiet_stable_dispatched.
  set (PQ := λ db, P db ∧ Q db).
  eapply runs_bind; [apply (runs_still _ PQ); apply within_ignore; [apply _|apply still_enqueueDispatchQueue]|].
  intros []. eapply runs_bind.
  { apply (runs_quiet_stable _ P Q); [done..|]. destruct (taskHasIrreversibleAction _).
    - apply within_ignore; [apply _|apply quiet_mark_irreversible].
    - apply within_ret, _. }
  intros []. eapply runs_bind; [apply (runs_still _ PQ), still_build_envelope|].
  intros [envelope|e]; cbv beta iota.
  2:{ eapply runs_bind; [apply runs_fail_task|]. intros []. apply runs_done. }
  eapply runs_bind; [apply (runs_still _ PQ), still_SaveEnvelope|].
  intros [[]|e]; cbv beta iota.
  2:{ eapply runs_bind; [apply runs_fail_task|]. intros []. apply runs_done. }
  eapply runs_bind; [|intros []; apply runs_done]. apply runs_spawn.
  intros c [Hof Hdisp]. exists (rt_RuntimeID runtime), (rt_Endpoint runtime).
  destruct (taskHasIrreversibleAction _); done.
Qed.

Lemma submit_inserted_runs req p :
  bruns (λ c, of_row (t_TaskID (p_task p)) (p_task p) (c_db c)) (submit_inserted execCfg req p) (λ _ _, True).
Proof.
  unfold submit_inserted. cbv zeta. set (P := of_row (t_TaskID (p_task p)) (p_task p)).
  assert (HP : stable P) by apply stable_of_row.
  assert (∀ {A} reason details (a : A),
    bruns (λ c, P (c_db c)) (fail_task (t_TaskID (p_task p)) reason details ;; mret a) (λ _ _, True)) as Hfail.
  { intros A reason details a. eapply runs_bind; [apply runs_fail_task|]. intros []. apply runs_done. }
  assert (∀ (m : ST CWorld (res ())), within (quiet backed) m →
    bruns (λ c, P (c_db c)) (ignore m) (λ _ c, P (c_db c))) as Hignore.
  { intros m Hm. apply runs_stable; [done|]. apply within_ignore; [apply _|by apply quiet_trace]. }
  eapply runs_bind; [apply (runs_still _ P), still_selectRuntime|].
  intros [runtime|e]; [|apply runs_conseq with (P' := λ c, P (c_db c)) (Q' := λ _ _, True); [apply Hfail|done..]].
  cbv beta iota.
  eapply runs_bind; [apply (runs_still _ P), still_evaluate_policy|]. intros decision.
  eapply runs_bind; [apply (runs_stable _ P); [done|apply quiet_trace, quiet_SaveActionPolicyDecision]|].
  intros [[]|e]; [|apply Hfail]. cbv beta iota.
  eapply runs_bind; [apply Hignore, quiet_SetLatestPolicyDecision|]. intros [].
  eapply runs_bind; [apply Hignore, quiet_SaveExecutionBoundary|]. intros [].
  case_bool_decide; [apply Hfail|]. case_bool_decide.
  - eapply runs_bind; [apply Hignore, quiet_SaveApprovalRequest|]. intros [].
    eapply runs_bind; [apply (runs_stable _ P); [done|]; apply trace_store, op_sound_undiscard,
      (run_op_sound (OpMarkApprovalRequired (t_TaskID (p_task p)) (d_PolicyReason decision)))|].
    intros r. apply runs_done.
  - eapply runs_bind; [by apply (runs_MarkDispatched _ P)|]. intros [[]|e]; [|apply runs_done].
    eapply runs_conseq; [apply submit_dispatched_runs| |done]. intros c [Hp Hd]. split; [done|by apply Hd].
Qed.

Lemma still_existing_task tenantID key : within still (existing_task tenantID key).
Proof.
  unfold existing_task. apply within_bind; [apply _| |intros r; apply within_ret, _].
  apply still_store. intros db. unfold GetTaskByIdempotencyKey.
  eapply (hoare_bind_err_db _ _ _ (λ _ db', db' = db)); [by apply hoare_read| |done].
  intros a db' ->. by apply hoare_ret_db.
Qed.

Lemma still_bound_conflict req key : within still (bound_conflict req key).
Proof.
  unfold bound_conflict. destruct (sr_BoundAction req); [|apply within_ret, _].
  apply within_bind; [apply _| |intros r; apply within_ret, _].
  apply still_store. intros db. by apply hoare_read.
Qed.

Lemma submit_prepared_runs req p : bruns (λ _, True) (submit_prepared execCfg req p) (λ _ _, True).
Proof.
  unfold submit_prepared. eapply runs_bind; [apply runs_Create|]. intros [[]|e]; [| |apply runs_done].
  - eapply runs_conseq; [apply submit_inserted_runs| |done]. intros c Hc. by apply Hc.
  - apply runs_any, quiet_trace, within_still_quiet.
    apply within_bind_err; [apply _|apply still_bound_conflict|]. intros _. apply still_existing_task.
Qed.

Lemma Submit_runs req : bruns (λ _, True) (Submit execCfg req) (λ _ _, True).
Proof.
  unfold Submit. eapply (runs_bind _ _ _ _ (λ _ _, True)).
  { apply runs_any, quiet_trace, within_still_quiet, still_prepare. }
  intros [[p|e]|]; [|apply runs_done..]. eapply runs_bind; [apply submit_prepared_runs|].
  intros r. apply runs_done.
Qed.

Lemma Demo_runs req reason : bruns (λ _, True) (SubmitDemoSimulatedFailure req reason) (λ _ _, True).
Proof.
  unfold SubmitDemoSimulatedFailure. eapply (runs_bind _ _ _ _ (λ _ _, True)).
  { apply runs_any, quiet_trace, within_still_quiet, still_prepare. }
  intros [[p|e]|]; [|apply runs_done..]. eapply (runs_bind _ _ _ _ (λ _ _, True)); [|intros r; apply runs_done].
  unfold demo_prepared. eapply runs_bind; [apply runs_Create|]. intros [[]|e]; [| |apply runs_done].
  - eapply runs_bind; [apply runs_any, trace_MarkFailed|]. intros r. apply runs_done.
  - apply runs_any, quiet_trace, within_still_quiet, still_existing_task.
Qed.

(** ** Approval and the remaining handlers *)

Lemma ApproveTask_runs taskID tenantID approvedBy :
  bruns (λ c, db_ok (c_db c)) (ApproveTask execCfg taskID tenantID approvedBy) (λ _ _, True).
Proof.
  unfold ApproveTask.
  eapply runs_bind_err; [apply (runs_GetTask _ db_ok)| |done]. intros task.
  destruct (TaskAwaitingApproval (t_Status task)); cbn [negb]; [|apply runs_done].
  set (P := of_row taskID task). assert (HP : stable P) by apply stable_of_row.
  apply (runs_conseq _ _ (λ c, P (c_db c)) _ (λ _ _, True) (λ _ _, True)); [| |done].
  2:{ intros c [Hok Hrow]. destruct (Hrow _ eq_refl) as (row & Hr & _ & ->).
      pose proof (ok_ids _ Hok _ _ Hr). by exists row. }
  eapply runs_bind; [apply (runs_still _ P), still_selectRuntime|].
  intros [runtime|e]; [|apply runs_done]. cbv beta iota.
  eapply runs_bind; [by apply (runs_MarkApprovedDispatched _ P)|].
  intros [[]|e]; [|apply runs_done]. cbv beta iota.
  set (Q := dispatched_to taskID (rt_RuntimeID runtime) (rt_Endpoint runtime)).
  assert (HQ : quiet_stable Q) by apply quiet_stable_dispatched.
  apply (runs_conseq _ _ (λ c, P (c_db c) ∧ Q (c_db c)) _ (λ _ _, True) (λ _ _, True));
    [|by intros c [? Hd]; split; [|apply Hd]|done].
  eapply runs_bind; [apply (runs_quiet_stable _ P Q); [done..|];
    apply within_ignore; [apply _|apply quiet_ResolveApprovalRequest]|]. intros []. cbv zeta.
  eapply runs_bind; [apply (runs_still _ (λ db, P db ∧ Q db)), still_rehydrate_for|].
  intros [rehydrated|e]; cbv beta iota.
  2:{ eapply runs_bind; [apply runs_fail_task|]. intros []. apply runs_done. }
  eapply runs_bind; [|intros []; apply runs_done]. apply runs_spawn.
  intros c [Hof Hdisp]. exists (rt_RuntimeID runtime), (rt_Endpoint runtime).
  destruct Hof as (row & Hr & Hid & Htid & Hten).
  split_and!; [done..| |].
  - change (dispatched_to (t_TaskID task) (rt_RuntimeID runtime) (rt_Endpoint runtime) (c_db c)).
    by rewrite Htid.
  - exists row. change (task_records (c_db c) !! t_TaskID task = Some row ∧ r_task_id row = t_TaskID task ∧
      t_TaskID task = t_TaskID task ∧ t_TenantID task = r_tenant_id row). by rewrite Htid.
Qed.

Section Traced.
Context (justified : DB → job → Prop).

Lemma still_GetTask id tenant : within still (on_store (GetTask id tenant)).
Proof.
  apply still_store. intros db. eapply hoare_conseq; [apply hoare_GetTask|done|]. by intros r w [? _].
Qed.

Lemma RejectTask_trace taskID tenantID rejectedBy reason :
  within (trace justified) (RejectTask taskID tenantID rejectedBy reason).
Proof.
  unfold RejectTask. apply within_bind_err; [apply _|apply quiet_trace, within_still_quiet, still_GetTask|].
  intros task. case_match; [apply within_ret, _|]. cbv zeta. apply within_bind; [apply _| |].
  - apply trace_store, op_sound_undiscard, (run_op_sound (OpMarkApprovalRejected _ _ _ _)).
  - intros [[]|e]; [|apply within_ret, _]. apply within_bind; [apply _| |intros _; apply within_ret, _].
    apply within_ignore; [apply _|apply quiet_trace, quiet_ResolveApprovalRequest].
Qed.

Lemma RecordRuntimeFailed_trace task rt :
  within (trace justified) (RecordRuntimeFailedRecoveryDecision task rt).
Proof.
  unfold RecordRuntimeFailedRecoveryDecision, runtimeFailedRecoveryDecision.
  apply within_bind; [apply _| |].
  { apply within_bind; [apply _|apply quiet_trace, within_still_quiet, still_evaluate_policy|].
    intros d. apply within_ret, _. }
  intros [[[[decision runtimeID] allowed] reason]|]; [|apply within_ret, _].
  apply within_bind_err; [apply _|apply quiet_trace, quiet_SaveActionPolicyDecision|]. intros _.
  apply within_bind; [apply _|apply within_ignore; [apply _|apply quiet_trace, quiet_SetLatestPolicyDecision]|].
  intros _. destruct allowed; [apply within_ret, _|].
  apply within_bind; [apply _|apply within_ignore; [apply _|apply quiet_trace, quiet_SaveRuntimeHandoffEvent]|].
  intros _. apply quiet_trace, quiet_SaveRecoveryEvent.
Qed.
End Traced.

(** ** The deadline reaper *)

Lemma hoare_reap_rows ids db0 db aborted :
  hoare (db_is db0) (reap_rows ids db aborted)
    (λ p w, db_is db0 w ∧ (p.2 = false → aborted = false ∧ p.1 = db)).
Proof.
  revert db aborted. induction ids as [|id ids IH]; intros db aborted; cbn [reap_rows].
  { apply hoare_ret_db. intros w Hw. by split. }
  eapply (hoare_bind_db _ _ _ (λ r db', db' = db0 ∧ is_ok r = false)).
  { eapply hoare_conseq; [apply hoare_tx_exec|done|]. intros r w [Hw Hq]. split; [done|].
    destruct r as [[a db']|e]; [|done]. specialize (Hq a db' eq_refl). by destruct aborted. }
  intros [x|e] db' [-> Hr]; [done|]. eapply hoare_conseq; [apply IH|done|].
  intros p w [Hw Hp]. split; [done|]. intros Hf. by destruct (Hp Hf).
Qed.

Lemma still_reapExpiredDeadlines : within still reapExpiredDeadlines.
Proof.
  apply still_store. intros db. eapply (hoare_bind_db _ _ _ (λ r db', db' = db ∧ ∀ x, r = Ok x → x = db)); [apply hoare_tx_begin|].
  intros [db0|e] db' [-> Hdb]; [|by apply hoare_ret_db]. rewrite (Hdb _ eq_refl). clear Hdb.
  eapply (hoare_bind_db _ _ _ (λ _ db', db' = db)); [apply hoare_time_now|]. intros now db' ->.
  eapply (hoare_bind_db _ _ _ (λ r db', db' = db ∧
    ∀ a db1, r = Ok (a, db1) → select_expired now db = (Ok a, db1))); [apply hoare_tx_exec|].
  intros [[ids db1]|e] db' [-> Hq]; [|by apply hoare_ret_db].
  specialize (Hq _ _ eq_refl). injection Hq as _ <-.
  eapply (hoare_bind_db _ _ _ (λ p db', db' = db ∧ (p.2 = false → false = false ∧ p.1 = db)));
    [apply hoare_reap_rows|]. intros [db2 aborted] db' [-> Hp].
  destruct aborted; [by apply hoare_ret_db|]. destruct (Hp eq_refl) as [_ Heq]. cbn in Heq. rewrite Heq.
  eapply hoare_bind_db; [apply hoare_tx_commit|]. intros r db' Ho. apply hoare_ret_db.
  intros w Hw. unfold db_is. rewrite Hw. by inversion Ho.
Qed.

End Handlers.
