(* ===== verification/DispatchLogic.v ===== *)
(** * What a dispatch may change

    Every run of [dispatchToRuntime] is a trace of store moves whose only
    goroutine is a recovery of the runtime that did not answer
    ([dispatch_trace]), and it writes artifacts and completions only for a reply
    whose artifacts verified ([dispatch_rows]). Transactions over the
    coordinator's tables are reasoned about with the [frame] of a world: its
    store, its goroutines and its registered runtimes. *)

From S2P Require Import Prelude GoStrings Json Ext WalCodec Checkpoint Types Capability Governance.
From S2P Require Import TaskDef Store ProofState StoreLogic StoreSpec StoreTheorems InputRefs.
From S2P Require Import Receipts.
From S2P Require Import InputRefsFacts CoordState Artifacts Robotics Coordinator Dispatch.
From S2P Require Import CoordLogic CoordHandlers.
Open Scope Z_scope.

(** ** Frames *)

Definition runtimes (c : CWorld) : list runtime_row := runtime_instances (c_tables c).

Definition frame (db : DB) (js : list job) (rs : list runtime_row) (c : CWorld) : Prop :=
  c_db c = db ∧ c_jobs c = js ∧ runtimes c = rs.

Definition calm (c c' : CWorld) : Prop := frame (c_db c) (c_jobs c) (runtimes c) c'.

#[global] Instance calm_preorder : PreOrder calm.
Proof. split; [by intros c|]. intros c1 c2 c3 (? & ? & ?) (? & ? & ?). split_and!; congruence. Qed.

(** A statement that leaves the registered runtimes alone. *)
Definition spares {A} (q : tstmt A) : Prop := ∀ db t, runtime_instances (q db t).2 = runtime_instances t.

Create HintDb calm.

Section Frames.
Context `{Ext} `{CheckpointCodec} `{UUIDSupply} `{MapRange} `{AEAD} `{SortSlice} `{!CheckpointCodecLaws}.

Lemma calm_hoare {A} (m : ST CWorld A) db js rs : within calm m → hoare (frame db js rs) m (λ _, frame db js rs).
Proof. intros Hm c (<- & <- & <-). apply Hm. Qed.

Lemma hoare_calm {A} (m : ST CWorld A) :
  (∀ db js rs, hoare (frame db js rs) m (λ _, frame db js rs)) → within calm m.
Proof. intros Hm c. by apply (Hm (c_db c) (c_jobs c) (runtimes c)). Qed.

Lemma calm_still c c' : calm c c' → still c c'.
Proof. by intros (? & ? & _). Qed.

Lemma calm_c_exec {A} (q : tstmt A) : spares q → within calm (c_exec q).
Proof.
  intros Hq c. destruct (still_c_exec q c) as [Hdb Hj]. split_and!; [done..|]. unfold runtimes, c_exec in *.
  destruct (next_fault (c_world c)) as [f w]. pose proof (Hq (w_db w) (c_tables c)) as Ht.
  destruct f; [|done|]; cbn -[runtime_instances] in *; by destruct (q _ _).
Qed.

Lemma calm_c_now : within calm c_now.
Proof. by intros c. Qed.

Lemma calm_with_uuids {A} (f : (nat → uuid) → A * nat) : within calm (with_uuids f).
Proof. intros c. unfold with_uuids. by destruct (f _). Qed.

Lemma calm_store {A} (m : ST World A) : (∀ db, hoare (db_is db) m (λ _, db_is db)) → within calm (on_store m).
Proof.
  intros Hm c. destruct (still_store m Hm c) as [Hdb Hj]. split_and!; [done..|].
  destruct (on_store_result m c) as (_ & _ & _ & Ht). unfold runtimes. by rewrite Ht.
Qed.

Lemma hoare_frame_begin db js rs :
  hoare (frame db js rs) ctx_begin
    (λ r c, frame db js rs c ∧ ∀ db' t, r = Ok (db', t) → db' = db ∧ runtime_instances t = rs).
Proof.
  intros c (Hdb & Hj & Hr). destruct (hoare_ctx_begin db js c) as [[Hdb' Hj'] Hb]; [done|].
  unfold frame, runtimes, ctx_begin in *. destruct (tx_begin (c_world c)) as [[db0|e] w]; cbn in *;
    (split; [done|]); intros db' t Heq; [|done].
  split; [by eapply Hb|]. by injection Heq as _ <-.
Qed.

Lemma hoare_frame_exec {A} (q : tstmt A) db js rs d t :
  spares q →
  hoare (frame db js rs) (ctx_exec q d t)
    (λ r c, frame db js rs c ∧ ∀ a t', r = Ok (a, t') → q d t = (Ok a, t') ∧ runtime_instances t' = runtime_instances t).
Proof.
  intros Hq c (Hdb & Hj & Hr). destruct (still_ctx_exec q d t c) as [Hdb' Hj'].
  unfold frame, runtimes, ctx_exec in *. destruct (next_fault (c_world c)) as [f w]. specialize (Hq d t).
  destruct f; cbn [fst snd] in *; (split; [split_and!; [by rewrite Hdb'|by rewrite Hj'|exact Hr]|]);
    intros a t' Heq; [|done..].
  destruct (q d t) as [[x|e] t1]; [|done]. by injection Heq as -> ->.
Qed.

Lemma hoare_frame_all qs db js rs d t :
  Forall spares qs →
  hoare (frame db js rs) (ctx_all qs d t)
    (λ r c, frame db js rs c ∧ ∀ t', r = Ok t' → runtime_instances t' = runtime_instances t).
Proof.
  intros Hqs. revert t. induction Hqs as [|q qs Hq _ IH]; intros t; cbn [ctx_all].
  { apply hoare_ret. intros c Hc. split; [done|]. by intros t' [= ->]. }
  eapply hoare_bind_err; [by apply hoare_frame_exec| |by intros e c [? _]].
  intros [[] t1] c [Hc Ht]. destruct (Ht _ _ eq_refl) as [_ Heq]. rewrite <-Heq. by apply IH.
Qed.

(** A statement of the store's inside such a transaction. *)
Lemma hoare_frame_tx {A} (q : stmt A) db js rs d :
  hoare (frame db js rs) (on_store (tx_exec q d))
    (λ r c, frame db js rs c ∧ ∀ a d', r = Ok (a, d') → q d = (Ok a, d')).
Proof.
  intros c (Hdb & Hj & Hr). destruct (hoare_ctx_tx_exec q db js d c) as [[Hdb' Hj'] Hq]; [done|].
  destruct (on_store_result (tx_exec q d) c) as (_ & _ & _ & Ht). split; [|exact Hq].
  split_and!; [done..|]. unfold runtimes. by rewrite Ht.
Qed.

Lemma hoare_frame_commit db js rs d t :
  runtime_instances t = rs →
  hoare (frame db js rs) (ctx_commit d t)
    (λ r c, c_jobs c = js ∧ runtimes c = rs ∧ commit_outcome db d r (c_db c)).
Proof.
  intros Ht c (Hdb & Hj & Hr). destruct (hoare_ctx_commit db js d t c) as [Hj' Ho]; [done|].
  split_and!; [done| |done]. unfold runtimes, ctx_commit in *.
  destruct (next_fault (c_world c)) as [f w]. by destruct f.
Qed.

Lemma commit_same db r db' : commit_outcome db db r db' → db' = db.
Proof. by inversion 1. Qed.

(** A transaction over the coordinator's tables only. *)
Lemma calm_transaction (qs : time → list (tstmt ())) :
  (∀ now, Forall spares (qs now)) →
  within calm ('(db, t) ←? ctx_begin; now ← c_now; t ←? ctx_all (qs now) db t; ctx_commit db t).
Proof.
  intros Hqs. apply hoare_calm. intros db js rs.
  eapply hoare_bind_err; [apply hoare_frame_begin| |by intros e c [? _]].
  intros [db' t] c [Hc Hb]. destruct (Hb _ _ eq_refl) as [-> Ht]. revert c Hc.
  change (hoare (frame db js rs) (now ← c_now; t ←? ctx_all (qs now) db t; ctx_commit db t) (λ _, frame db js rs)).
  eapply hoare_bind; [apply calm_hoare, calm_c_now|]. intros now.
  eapply hoare_bind_err; [by apply hoare_frame_all| |by intros e c [? _]].
  intros t' c [Hc Ht']. specialize (Ht' _ eq_refl).
  destruct (hoare_frame_commit db js rs db t' (eq_trans Ht' Ht) c Hc) as (Hj & Hr & Ho).
  split_and!; [by eapply commit_same|done..].
Qed.

(** ** The operations of a dispatch that only touch the coordinator's tables *)

Ltac spares_tac := intros ? ?; cbv beta zeta; repeat case_match; reflexivity.

Lemma calm_build_envelope task governance : within calm (build_envelope task governance).
Proof.
  unfold build_envelope.
  walk ltac:(first [apply calm_c_now | apply calm_with_uuids | by apply calm_c_exec]).
Qed.

Lemma calm_SaveEnvelope taskID envelope : within calm (SaveTaskPermissionEnvelope taskID envelope).
Proof.
  destruct envelope as [e|]; cbn [SaveTaskPermissionEnvelope]; [|apply within_ret, _].
  case_bool_decide; [apply within_ret, _|]. apply calm_transaction. intros now.
  constructor; [done|]. apply Forall_app. split; apply Forall_fmap, Forall_true; by intros x.
Qed.

Lemma calm_buildSigned task raw : within calm (buildSignedGovernedPolicyDecisions task raw).
Proof.
  unfold buildSignedGovernedPolicyDecisions, evaluateRoboticsPolicy.
  walk ltac:(first [apply calm_c_now | apply calm_with_uuids | by apply calm_c_exec]).
Qed.

Lemma calm_SaveRobotics taskID decisions : within calm (SaveRoboticsPolicyDecisions taskID decisions).
Proof.
  unfold SaveRoboticsPolicyDecisions. case_bool_decide; [apply within_ret, _|].
  apply (calm_transaction (λ now, upsert_policy_audit taskID now <$> _)). intros now.
  apply Forall_fmap, Forall_true. by intros d.
Qed.

Lemma calm_journal_nodes task idx nodes : within calm (journal_nodes task idx nodes).
Proof.
  revert idx. induction nodes as [|n nodes IH]; intros idx; cbn [journal_nodes]; [apply within_ret, _|].
  apply within_bind; [apply _| |intros _; apply IH].
  case_bool_decide; [|apply within_ret, _]. apply within_ignore; [apply _|]. apply calm_c_exec. unfold journal_pending. spares_tac.
Qed.

Lemma calm_markEffectJournalCommitted task : within calm (markEffectJournalCommitted task).
Proof.
  unfold markEffectJournalCommitted. walk ltac:(first [apply calm_c_now | by apply calm_c_exec]).
Qed.

Lemma calm_HasTaskProofSyncTrigger : within calm (on_store HasTaskProofSyncTrigger).
Proof. apply calm_store. intros db. by apply hoare_read. Qed.

Lemma calm_runtimePublicKeyForTask task : within calm (runtimePublicKeyForTask task).
Proof. unfold runtimePublicKeyForTask. walk ltac:(by apply calm_c_exec). Qed.

(** The transaction that saves artifacts: the artifact columns of the task, and
    of the store nothing else. *)
Lemma spares_artifact_audits taskID envelope receipt now :
  Forall spares (saveRoboticsReceiptAudit taskID envelope receipt now ++ saveAIToolReceiptAudit taskID envelope receipt now).
Proof.
  unfold saveRoboticsReceiptAudit, saveAIToolReceiptAudit, insert_robot_receipt, insert_tool_receipt.
  repeat case_match; repeat constructor; spares_tac.
Qed.

Lemma hoare_saveExecutionContext record now db js rs d t :
  hoare (frame db js rs) (saveExecutionContext record now (λ q, ctx_exec q d t) t)
    (λ r c, frame db js rs c ∧ ∀ t', r = Ok t' → runtime_instances t' = runtime_instances t).
Proof.
  unfold saveExecutionContext.
  assert (∀ e, hoare (frame db js rs) (mret (Err e) : ST CWorld (res Tables))
    (λ r c, frame db js rs c ∧ ∀ t', r = Ok t' → runtime_instances t' = runtime_instances t)) as Herr.
  { intros e. by apply hoare_ret. }
  assert (hoare (frame db js rs) (mret (Ok t))
    (λ r c, frame db js rs c ∧ ∀ t', r = Ok t' → runtime_instances t' = runtime_instances t)) as Hok.
  { apply hoare_ret. intros c Hc. split; [done|]. by intros t' [= ->]. }
  destruct record as [record|]; [|done]. repeat (case_match; [done|]).
  eapply hoare_bind_err; [apply hoare_frame_exec| |by intros e c [? _]].
  { unfold upsert_context. spares_tac. }
  intros [n t'] c [Hc Ht]. destruct (Ht _ _ eq_refl) as [_ Heq].
  destruct (n =? 0); (split; [done|]); by intros ? [= <-].
Qed.

Definition artifacts_saved (taskID : uuid) (envelope receipt : string) (db : DB) (js : list job)
    (rs : list runtime_row) (c : CWorld) : Prop :=
  c_jobs c = js ∧ runtimes c = rs ∧ (c_db c = db ∨ c_db c = (save_artifacts taskID envelope receipt db).2).

Lemma hoare_SaveExecutionArtifacts taskID envelope receipt db js rs :
  hoare (frame db js rs) (SaveExecutionArtifacts taskID envelope receipt)
    (λ _, artifacts_saved taskID envelope receipt db js rs).
Proof.
  assert (∀ c, frame db js rs c → artifacts_saved taskID envelope receipt db js rs c) as Hidle.
  { intros c (<- & <- & <-). by split_and!; [..|left]. }
  eapply hoare_bind_err; [apply hoare_frame_begin| |intros e c [? _]; auto].
  intros [db' t]. apply hoare_pure. intros Hb. destruct (Hb _ _ eq_refl) as [-> Ht].
  eapply hoare_bind; [apply calm_hoare, calm_c_now|]. intros now.
  eapply hoare_bind_err; [apply hoare_frame_tx| |intros e c [? _]; auto].
  intros [n db1]. apply hoare_pure. intros Hq. specialize (Hq _ _ eq_refl).
  eapply hoare_bind_err; [apply hoare_frame_all, spares_artifact_audits| |intros e c [? _]; auto].
  intros t1. apply hoare_pure. intros Ht1. specialize (Ht1 _ eq_refl).
  eapply (hoare_bind_err _ _ _ (λ _, frame db js rs)); [|intros record|auto].
  { case_match; [|by apply hoare_ret]. eapply hoare_bind_err; [by apply hoare_frame_exec| |by intros ? ? [? _]].
    intros [source t2] c [Hc _]. exact Hc. }
  eapply hoare_bind_err; [apply hoare_saveExecutionContext| |intros e c [? _]; auto].
  intros t2. apply hoare_pure. intros Ht2. specialize (Ht2 _ eq_refl).
  eapply hoare_conseq; [apply (hoare_frame_commit db js rs); congruence|done|].
  intros r c (Hj & Hr & Ho). split_and!; [done..|]. rewrite Hq. inversion Ho; auto.
Qed.
End Frames.

(** ** The whole dispatch *)

Section Dispatching.
Context `{Ext} `{CheckpointCodec} `{UUIDSupply} `{MapRange} `{AEAD} `{SortSlice} `{!CheckpointCodecLaws}.
Context (task : TaskRecord).

(** A relation that allows the calm operations, failing the task and handling a
    reply allows the whole dispatch. *)
Lemma dispatch_within (R : relation CWorld) `{!PreOrder R} tr cp :
  (∀ c c', calm c c' → R c c') →
  (∀ reason details, within R (fail_task (t_TaskID task) reason details)) →
  (∀ req, within R (handle_reply task cp (tr req))) →
  within R (dispatchToRuntime tr task cp).
Proof.
  intros Hcalm Hfail Hreply.
  assert (∀ {A} (m : ST CWorld A), within calm m → within R m) as Hleaf.
  { intros A m Hm c. apply Hcalm, Hm. }
  assert (∀ endpoint members, within R (send tr task cp endpoint members)) as Hsend.
  { intros endpoint members. unfold send.
    walk ltac:(first [apply Hfail | apply Hreply | apply Hleaf, calm_journal_nodes]). }
  assert (∀ endpoint members, within R (with_decisions tr task cp endpoint members)) as Hdecisions.
  { intros endpoint members. unfold with_decisions.
    walk ltac:(first [apply Hfail | apply Hsend | apply Hleaf, calm_buildSigned | apply Hleaf, calm_SaveRobotics]). }
  unfold dispatchToRuntime, with_envelope.
  walk ltac:(first [apply Hfail | apply Hdecisions | apply Hleaf, calm_c_now
    | apply Hleaf, calm_build_envelope | apply Hleaf, calm_SaveEnvelope]).
Qed.

(** Its own moves are the store's, and the only goroutine is a recovery. *)
Section Traced.
Context (justified : DB → job → Prop) (Hrecover : ∀ db rt, justified db (JRecover rt)).
Local Abbreviation trace := (trace justified).

Lemma calm_trace c c' : calm c c' → trace c c'.
Proof. intros Hc. apply (still_quiet justified), calm_still, Hc. Qed.

Lemma trace_calm {A} (m : ST CWorld A) : within calm m → within trace m.
Proof. intros Hm c. apply calm_trace, Hm. Qed.

Lemma trace_handleDispatchFailure : within trace (handleDispatchFailure task).
Proof.
  unfold handleDispatchFailure, markAndRecover. destruct (t_RuntimeID task) as [rt|]; [|apply within_ret, _].
  intros c. eapply rtc_once, (cs_start _ _ _ (JRecover rt)); [done..|]. apply Hrecover.
Qed.

Lemma save_artifacts_move taskID envelope receipt db : db_move db (save_artifacts taskID envelope receipt db).2.
Proof.
  apply rows_only_sound, rows_only_update. intros r. unfold artifact_row.
  split_and!; [by destruct (extractProofRefs receipt) as [[] []]..|]. apply artifact_row_truthful.
Qed.

Lemma trace_SaveExecutionArtifacts taskID envelope receipt :
  within trace (SaveExecutionArtifacts taskID envelope receipt).
Proof.
  intros c. destruct (hoare_SaveExecutionArtifacts taskID envelope receipt (c_db c) (c_jobs c) (runtimes c) c)
    as (Hj & _ & Hdb); [done|]. apply rtc_once, cs_move; [|done].
  destruct Hdb as [->|Hdb]; [apply db_move_refl|]. rewrite Hdb. apply save_artifacts_move.
Qed.

Lemma SaveExecutionLineage_sound record : op_sound (SaveExecutionLineage record).
Proof.
  unfold SaveExecutionLineage. case_match; [apply op_sound_ret|]. case_match; [apply op_sound_ret|].
  apply op_sound_after; [apply hoare_time_now|]. intros now. apply op_sound_exec, upsert_lineage_rows_only.
Qed.

Lemma trace_for_each {A} (f : A → ST CWorld ()) l : (∀ a, within trace (f a)) → within trace (for_each f l).
Proof.
  intros Hf. induction l as [|a l IH]; cbn [for_each]; [apply within_ret, _|].
  apply within_bind; [apply _|apply Hf|]. by intros _.
Qed.

Lemma trace_persist_artifacts result : within trace (persist_artifacts task result).
Proof.
  unfold persist_artifacts, sync_proof, persist_lineage.
  walk ltac:(first
    [ apply trace_SaveExecutionArtifacts
    | apply trace_calm, calm_markEffectJournalCommitted
    | apply trace_calm, calm_HasTaskProofSyncTrigger
    | apply trace_calm, calm_c_now
    | apply trace_store, SyncTaskProofState_sound
    | apply trace_store, SaveExecutionLineage_sound
    | apply trace_for_each; intros ?; walk ltac:(first
        [apply trace_calm, calm_c_now | apply trace_store, SaveExecutionLineage_sound]) ]).
Qed.

Lemma trace_handle_reply cp reply : within trace (handle_reply task cp reply).
Proof.
  unfold handle_reply, handle_artifacts, conclude, verifyExecutionArtifactsForTask, verifyStepReceiptsForTask, lift_res.
  walk ltac:(first
    [ apply trace_handleDispatchFailure | apply trace_fail_task | apply trace_persist_artifacts
    | apply trace_calm, calm_runtimePublicKeyForTask
    | apply trace_store, op_sound_undiscard, (run_op_sound (OpMarkCompleted _))
    | apply trace_store, op_sound_undiscard, (run_op_sound (OpSaveCheckpoint _)) ]).
Qed.

Lemma dispatch_trace tr cp : within trace (dispatchToRuntime tr task cp).
Proof.
  apply dispatch_within; [apply _|apply calm_trace|apply trace_fail_task|].
  intros req. apply trace_handle_reply.
Qed.
End Traced.
End Dispatching.
