(* ===== verification/DispatchFacts.v ===== *)
(** * Theorems on dispatching

    The deadline budget and the idempotency key of a dispatch, and what a
    runtime's reply can do to the task records: artifacts are stored and the
    task is completed only on a reply whose artifacts verified under the key
    registered for the task's runtime. *)

From S2P Require Import Prelude GoStrings Json Float64 Ext WalCodec Checkpoint Types Capability.
From S2P Require Import Governance.
From S2P Require Import TaskDef Store ProofState StoreLogic StoreSpec StoreTheorems InputRefs.
From S2P Require Import Receipts.
From S2P Require Import InputRefsFacts CoordState Artifacts Robotics Coordinator Dispatch.
From S2P Require Import CoordLogic CoordHandlers.
From S2P Require Import DispatchLogic.
Open Scope Z_scope.

(** ** The deadline budget *)

(** The budget sent to the runtime: none without a deadline, none when a
    resumed task's deadline has passed, and otherwise a positive number of
    milliseconds that fits 64 bits, never more than the time that is left unless
    that is below the one-millisecond minimum. *)
Theorem deadline_budget_bounds deadline checkpoint now :
  match runtimeDeadlineBudgetMs deadline checkpoint now with
  | None => deadline = None ∨ ∃ d, deadline = Some d ∧ is_Some checkpoint ∧ d - now < Millisecond
  | Some ms => ∃ d, deadline = Some d ∧ 1 ≤ ms < 2 ^ 64 ∧
      (ms * Millisecond ≤ d - now ∨ ms = 1 ∧ checkpoint = None ∧ d - now < Millisecond)
  end.
Proof.
  unfold runtimeDeadlineBudgetMs, minRuntimeDeadlineBudgetMs, time_Sub, Millisecond.
  destruct deadline as [d|]; [|by left].
  set (x := Z.max _ _). assert (- 2 ^ 63 ≤ x ≤ 2 ^ 63 - 1 ∧ (x ≤ d - now ∨ d - now ≤ x ∧ x = - 2 ^ 63) ∧
    (d - now ≤ x ∨ 2 ^ 63 - 1 ≤ d - now ∧ x = 2 ^ 63 - 1)) as Hx by lia. clearbody x.
  pose proof (Z.quot_rem' x 1000000) as Hq. pose proof (Z.rem_bound_abs x 1000000 ltac:(lia)) as Hr.
  assert (0 ≤ x → 0 ≤ Z.rem x 1000000) as Hs by (intros; by apply Z.rem_nonneg).
  set (q := Z.quot x 1000000) in *. set (m := Z.rem x 1000000) in *. clearbody q m.
  case_bool_decide as Hc; cbn [andb].
  - destruct (Z.leb_spec q 0); [right; exists d; split_and!; [done..|lia]|].
    exists d. split; [done|]. destruct (Z.ltb_spec q 1); lia.
  - apply eq_None_not_Some in Hc as ->. exists d. split; [done|].
    destruct (Z.ltb_spec q 1); (split; [lia|]); [right|left; lia]. split_and!; [done..|lia].
Qed.

(** ** The idempotency key *)

Lemma digits_stop s : ∀ s' t t' n n' acc acc',
  digits_value acc s = Some n → digits_value acc' s' = Some n' →
  s +:+ String ":" t = s' +:+ String ":" t' → s = s' ∧ t = t'.
Proof.
  induction s as [|a s IH]; intros [|b s'] t t' n n' acc acc' Hs Hs' Heq; rewrite ?str_app_cons in Heq.
  - by injection Heq.
  - injection Heq as <- _. discriminate Hs'.
  - injection Heq as -> _. discriminate Hs.
  - injection Heq as -> Heq. cbn [digits_value] in Hs, Hs'. destruct (is_digit b); [|done].
    destruct (IH s' t t' _ _ _ _ Hs Hs' Heq) as [-> ->]. done.
Qed.

Lemma str_app_inj s t t' : s +:+ t = s +:+ t' → t = t'.
Proof. induction s as [|a s IH]; [done|]. rewrite !str_app_cons. intros [= ?]. by apply IH. Qed.

(** The idempotency keys of the dispatches of one task: the first dispatch
    keeps the task's own key, a resumed one never uses it, and two resumed ones
    share a key exactly when they resume from the same step with the same first
    sixteen bytes of the checkpoint digest. *)
Theorem dispatch_keys_distinct task cp cp' :
  in_uint32 (LastCommittedStep (cp_ResumeToken cp)) →
  in_uint32 (LastCommittedStep (cp_ResumeToken cp')) →
  runtimeDispatchIdempotencyKey task None = t_IdempotencyKey task ∧
  runtimeDispatchIdempotencyKey task (Some cp) ≠ t_IdempotencyKey task ∧
  (runtimeDispatchIdempotencyKey task (Some cp) = runtimeDispatchIdempotencyKey task (Some cp') ↔
   LastCommittedStep (cp_ResumeToken cp) = LastCommittedStep (cp_ResumeToken cp') ∧
   take_str 16 (TrimSpace (CheckpointDigest (cp_ResumeToken cp))) =
   take_str 16 (TrimSpace (CheckpointDigest (cp_ResumeToken cp')))).
Proof.
  unfold in_uint32. intros Hn Hn'. unfold runtimeDispatchIdempotencyKey. split; [done|]. split.
  - intros Heq. assert (∀ s t, s +:+ t = s → t = "") as Hnil.
    { intros s t. rewrite <-(str_app_nil_r s) at 2. apply str_app_inj. }
    by apply Hnil in Heq.
  - split; [|by intros [-> ->]]. intros Heq. do 2 apply str_app_inj in Heq.
    destruct (itoa_parts (LastCommittedStep (cp_ResumeToken cp)) ltac:(lia)) as (_ & _ & Hd).
    destruct (itoa_parts (LastCommittedStep (cp_ResumeToken cp')) ltac:(lia)) as (_ & _ & Hd').
    destruct (digits_stop _ _ _ _ _ _ _ _ Hd Hd' Heq) as [Hi Ht].
    split; [|exact Ht]. unfold itoa in Hi. by apply (inj pretty) in Hi.
Qed.

(** ** What a reply may change in the task records *)

(** Every row after was there before, related by [S]. *)
Definition rowwise (S : uuid → task_row → task_row → Prop) (db db' : DB) : Prop :=
  ∀ id r', task_records db' !! id = Some r' → ∃ r, task_records db !! id = Some r ∧ S id r r'.

Definition artifacts (r : task_row) := (r_execution_envelope r, r_execution_receipt r).

Definition no_completion (r r' : task_row) : Prop :=
  artifacts r' = artifacts r ∧ (r_status r' = TaskStatusCompleted → r_status r = TaskStatusCompleted).

Definition kept : relation DB := rowwise (λ _, no_completion).

Lemma rowwise_same (S : uuid → task_row → task_row → Prop) db db' :
  (∀ id r, S id r r) → task_records db' = task_records db → rowwise S db db'.
Proof. intros HS Ht id r. rewrite Ht. eauto. Qed.

Lemma rowwise_insert (S : uuid → task_row → task_row → Prop) id f db db' r :
  (∀ id r, S id r r) → S id r (f r) → task_records db !! id = Some r →
  task_records db' = <[id := f r]> (task_records db) → rowwise S db db'.
Proof.
  intros HS Hf Hr Ht i x. rewrite Ht, lookup_insert_Some. intros [[<- <-]|[_ Hx]]; eauto.
Qed.

Lemma rowwise_applied (S : uuid → task_row → task_row → Prop) id P f db db' :
  (∀ id r, S id r r) → (∀ r, S id r (f r)) → applied id P f db db' → rowwise S db db'.
Proof.
  intros HS Hf (r & Hr & _ & ->). apply (rowwise_insert S id f _ _ r); [done..|]. by rewrite tasks_update.
Qed.

Lemma rowwise_update (S : uuid → task_row → task_row → Prop) id P f db :
  (∀ id r, S id r r) → (∀ r, S id r (f r)) → rowwise S db (update_task id P f db).2.
Proof.
  intros HS Hf. destruct (update_task_spec id P f db) as [(r & Hr & HP & Hq)|[_ Hq]]; rewrite Hq.
  - apply (rowwise_applied S id P f); [done..|]. by exists r.
  - by apply rowwise_same.
Qed.

Lemma no_completion_refl (id : uuid) r : no_completion r r.
Proof. by split. Qed.
Hint Resolve no_completion_refl : core.

Section Kept.
Context `{Ext} `{CheckpointCodec} `{UUIDSupply} `{MapRange} `{AEAD} `{SortSlice} `{!CheckpointCodecLaws}.

Lemma kept_refl db : kept db db.
Proof. by apply rowwise_same. Qed.

Lemma kept_fail id reason dt P db db' : applied id P (fail_row reason dt) db db' → kept db db'.
Proof. by apply rowwise_applied. Qed.

Lemma kept_MarkFailed id reason details : relates kept (MarkFailedWithDetails id reason details).
Proof.
  intros db. eapply hoare_conseq; [apply hoare_MarkFailedWithDetails|done|].
  intros r w [[|db1 Ha|d db1 _ _ Ha] _]; [apply kept_refl|by eapply kept_fail|].
  intros i r' Hr'. rewrite (proj1 (insert_observation_tables id d db1)) in Hr'. exact (kept_fail _ _ _ _ _ _ Ha i r' Hr').
Qed.

Lemma kept_SaveCheckpoint cp : relates kept (SaveCheckpoint cp).
Proof.
  intros db. eapply hoare_conseq; [apply hoare_SaveCheckpoint|done|].
  intros r w [[-> _]|(c & _ & row & text & _ & _ & Hr & _ & _ & _ & ->)]; [apply kept_refl|].
  by apply (rowwise_insert _ (cp_TaskID c) (checkpoint_row text) _ _ row).
Qed.

Lemma kept_update_where P f db : (∀ r, no_completion r (f r)) → kept db (update_where P f db).2.
Proof.
  intros Hf id r'. unfold update_where. cbn [snd]. rewrite tasks_update, lookup_fmap.
  destruct (task_records db !! id) as [r|]; [|done]. intros [= <-]. exists r. split; [done|]. by destruct (P r).
Qed.

Lemma kept_upsert_lineage x now db : kept db (upsert_lineage x now db).2.
Proof.
  unfold upsert_lineage. destruct (_ || _); [apply kept_refl|]. cbv zeta.
  set (db1 := db {{ execution_lineage ::= _ }}). destruct (lineage_trigger db1); [|by apply rowwise_same].
  change (kept db1 (sync_from_lineage (resulting_lineage x db) now db1).2). unfold sync_from_lineage.
  repeat (case_match; try apply kept_refl). by apply kept_update_where.
Qed.

Lemma kept_SaveExecutionLineage record : relates kept (SaveExecutionLineage record).
Proof.
  unfold SaveExecutionLineage. repeat (case_match; [apply relates_ret, kept_refl|]).
  apply relates_after; [apply hoare_time_now|]. intros now. apply relates_exec; [apply kept_refl|].
  intros db. apply kept_upsert_lineage.
Qed.

Lemma kept_updateTaskProofState id proof : relates kept (updateTaskProofState id proof).
Proof.
  destruct proof as [p|]; cbn [updateTaskProofState]; [|apply relates_ret, kept_refl].
  apply relates_then, relates_exec; [apply kept_refl|]. intros db. by apply rowwise_update.
Qed.

Lemma kept_SyncTaskProofState id tenant : relates kept (SyncTaskProofState id tenant).
Proof.
  unfold SyncTaskProofState. apply relates_after; [intros db; by apply hoare_read|].
  intros [row|e]; [|apply relates_ret, kept_refl]. case_bool_decide; [apply relates_ret, kept_refl|].
  apply relates_after; [apply hoare_time_now|]. intros now.
  apply relates_after; [intros db; by apply hoare_read|].
  intros [x|e]; [|case_bool_decide; [|apply relates_ret, kept_refl]];
    apply relates_then, kept_updateTaskProofState.
Qed.
End Kept.

Section Replies.
Context `{Ext} `{CheckpointCodec} `{UUIDSupply} `{MapRange} `{AEAD} `{SortSlice} `{!CheckpointCodecLaws}.
Context (tr : transport) (task : TaskRecord).

(** The runtime answered a request with this result. *)
Definition answered (result : taskSubmitResult) : Prop :=
  ∃ req status body, tr req = Some (status, body) ∧ status < 400 ∧ decode_reply body = Some result.

(** The key registered for the task's runtime. *)
Definition registered (rs : list runtime_row) (key : string) : Prop :=
  ∃ rt ri, t_RuntimeID task = Some rt ∧ head (filter (λ x, ri_runtime_id x = rt) rs) = Some ri ∧
    ri_public_key_ed25519 ri = Some key ∧ TrimSpace key ≠ "".

(** The result's artifacts and step receipts verify under that key. *)
Definition verified (rs : list runtime_row) (result : taskSubmitResult) : Prop :=
  ∃ key, registered rs key ∧
    VerifyExecutionArtifactsRawWithPublicKey (su_ExecutionEnvelope result) (su_ExecutionReceipt result) key = Ok tt ∧
    verify_step_receipts key (su_StepReceipts result) = Ok tt.

Definition stored (rs : list runtime_row) (id : uuid) (column : task_row → option string)
    (artifact : taskSubmitResult → string) (r r' : task_row) : Prop :=
  column r' = column r ∨
  ∃ result, id = t_TaskID task ∧ answered result ∧ verified rs result ∧ artifact result ≠ "" ∧
    column r' = Some (jsonb_text (artifact result)).

Definition completed (rs : list runtime_row) (id : uuid) (r r' : task_row) : Prop :=
  r_status r' = TaskStatusCompleted → r_status r = TaskStatusCompleted ∨
  ∃ result, id = t_TaskID task ∧ answered result ∧ st_Name (su_Status result) = "completed" ∧
    (su_ExecutionEnvelope result = "" ∧ su_ExecutionReceipt result = "" ∨ verified rs result).

Definition change (rs : list runtime_row) (id : uuid) (r r' : task_row) : Prop :=
  stored rs id r_execution_envelope su_ExecutionEnvelope r r' ∧
  stored rs id r_execution_receipt su_ExecutionReceipt r r' ∧ completed rs id r r'.

Definition moves (c c' : CWorld) : Prop :=
  runtimes c' = runtimes c ∧ rowwise (change (runtimes c)) (c_db c) (c_db c').

Lemma stored_trans rs id column artifact r1 r2 r3 :
  stored rs id column artifact r1 r2 → stored rs id column artifact r2 r3 → stored rs id column artifact r1 r3.
Proof. intros [H12|?] [H23|?]; try (by right); [left; congruence|right]. rewrite H23. done. Qed.

Lemma no_completion_change rs id r r' : no_completion r r' → change rs id r r'.
Proof. intros [Ha Hc]. injection Ha as He Hr. split_and!; [by left..|]. by left; apply Hc. Qed.

Lemma change_refl rs id r : change rs id r r.
Proof. by apply no_completion_change. Qed.

Lemma change_trans rs id r1 r2 r3 : change rs id r1 r2 → change rs id r2 r3 → change rs id r1 r3.
Proof.
  intros (He & Hr & Hc) (He' & Hr' & Hc'). split_and!; [by eapply stored_trans..|].
  intros Hr3. destruct (Hc' Hr3) as [Hr2|?]; [by apply Hc|by right].
Qed.

#[local] Instance moves_preorder : PreOrder moves.
Proof.
  split.
  - intros c. split; [done|]. apply rowwise_same; [apply change_refl|done].
  - intros c1 c2 c3 [Hr12 H12] [Hr23 H23]. split; [congruence|]. rewrite Hr12 in H23.
    intros id r3 Hr3. destruct (H23 _ _ Hr3) as (r2 & Hr2 & Hc23). destruct (H12 _ _ Hr2) as (r1 & Hr1 & Hc12).
    exists r1. split; [done|]. by eapply change_trans.
Qed.

Lemma calm_moves c c' : calm c c' → moves c c'.
Proof. intros (Hdb & _ & Hr). split; [done|]. rewrite Hdb. apply rowwise_same; [apply change_refl|done]. Qed.

Lemma moves_calm {A} (m : ST CWorld A) : within calm m → within moves m.
Proof. intros Hm c. apply calm_moves, Hm. Qed.

Lemma moves_rows {A} (m : ST World A) (K : relation DB) rs c :
  relates K m → (∀ db db', K db db' → rowwise (change rs) db db') → runtimes c = rs → moves c (on_store m c).2.
Proof.
  intros Hm HK <-. destruct (on_store_result m c) as (_ & Hdb & _ & Ht). split; [unfold runtimes; by rewrite Ht|].
  rewrite Hdb. by apply HK, (Hm (c_db c)).
Qed.

Lemma moves_kept {A} (m : ST World A) : relates kept m → within moves (on_store m).
Proof.
  intros Hm c. apply (moves_rows m kept (runtimes c)); [done| |done]. intros db db' Hk id r' Hr'.
  destruct (Hk _ _ Hr') as (r & Hr & Hn). exists r. split; [done|]. by apply no_completion_change.
Qed.

Lemma moves_fail_task reason details : within moves (fail_task (t_TaskID task) reason details).
Proof. apply within_ignore; [apply _|]. apply moves_kept, kept_MarkFailed. Qed.

Lemma moves_handleDispatchFailure : within moves (handleDispatchFailure task).
Proof.
  unfold handleDispatchFailure, markAndRecover. destruct (t_RuntimeID task); [|apply within_ret, _].
  intros c. split; [done|]. apply rowwise_same; [apply change_refl|done].
Qed.

(** From a world on, with what the moves so far keep. *)
Definition since (c0 c : CWorld) : Prop := moves c0 c.

Lemma hoare_since {A} (m : ST CWorld A) c0 : within moves m → hoare (since c0) m (λ _, since c0).
Proof. intros Hm c Hc. unfold since. by etrans. Qed.

Lemma since_within {A} (m : ST CWorld A) : (∀ c0, hoare (since c0) m (λ _, since c0)) → within moves m.
Proof. intros Hm c. apply (Hm c c). unfold since. reflexivity. Qed.

Lemma public_key_registered c0 :
  hoare (since c0) (runtimePublicKeyForTask task)
    (λ r c, since c0 c ∧ ∀ key, r = Ok key → registered (runtimes c0) key).
Proof.
  intros c Hc. split; [apply hoare_since; [apply moves_calm, calm_runtimePublicKeyForTask|done]|].
  destruct Hc as [Hr _]. rewrite <-Hr. unfold runtimePublicKeyForTask.
  destruct (nonempty (TrimSpace (default "" (t_RuntimeID task)))) eqn:Hne; cbn [negb]; [|done].
  unfold mbind, ST_bind. intros key. set (q := λ (_ : DB) t, _). pose proof (c_exec_ok q c) as Hq.
  destruct (c_exec q c) as [[k|e] c1]; cbn [fst mret ST_ret] in *; [|by case_match].
  destruct (nonempty (TrimSpace k)) eqn:Hk; [|done]. intros [= ->].
  destruct (Hq _ eq_refl) as (db & Hh). unfold q in Hh. clear q Hq. cbn [fst] in Hh.
  destruct (t_RuntimeID task) as [rt|] eqn:Hrt; [|done]. cbn [default] in Hh.
  exists rt. destruct (head _) as [ri|] eqn:Hhead; [|done]. injection Hh as Hk'. exists ri.
  destruct (ri_public_key_ed25519 ri) as [k'|]; cbn in Hk'; subst; [|done].
  split_and!; [done..|]. intros Hz. by rewrite Hz in Hk.
Qed.

Lemma hoare_since_res {A} (r : res A) (φ : A → Prop) c0 :
  (∀ a, r = Ok a → φ a) →
  hoare (since c0) (lift_res r) (λ r c, since c0 c ∧ ∀ a, r = Ok a → φ a).
Proof. intros Hφ. by apply hoare_ret. Qed.

Lemma hoare_verifyArtifacts envelope receipt c0 :
  hoare (since c0) (verifyExecutionArtifactsForTask task envelope receipt)
    (λ r c, since c0 c ∧ ∀ u, r = Ok u → ∃ key, registered (runtimes c0) key ∧
      VerifyExecutionArtifactsRawWithPublicKey envelope receipt key = Ok tt).
Proof.
  eapply hoare_bind_err; [apply public_key_registered| |by intros e c [? _]].
  intros key. apply hoare_pure. intros Hk. apply hoare_since_res. intros [] Hv. eauto.
Qed.

Lemma hoare_verifySteps steps c0 :
  hoare (since c0) (verifyStepReceiptsForTask task steps)
    (λ r c, since c0 c ∧ ∀ u, r = Ok u → steps = [] ∨ ∃ key, registered (runtimes c0) key ∧
      verify_step_receipts key steps = Ok tt).
Proof.
  unfold verifyStepReceiptsForTask. case_bool_decide as Hl.
  { apply hoare_ret. intros c Hc. split; [done|]. left. by apply nil_length_inv. }
  eapply hoare_bind_err; [apply public_key_registered| |by intros e c [? _]].
  intros key. apply hoare_pure. intros Hk. apply hoare_since_res. intros [] Hv. eauto.
Qed.

Lemma registered_functional rs k k' : registered rs k → registered rs k' → k = k'.
Proof. intros (rt & ri & Hrt & Hri & Hk & _) (rt' & ri' & Hrt' & Hri' & Hk' & _). simplify_eq. congruence. Qed.

(** The artifact columns after the transaction. *)
Lemma stored_artifact_row rs result r :
  answered result → verified rs result →
  change rs (t_TaskID task) r (artifact_row (su_ExecutionEnvelope result) (su_ExecutionReceipt result) r).
Proof.
  intros Ha Hv. unfold artifact_row. destruct (extractProofRefs _) as [[e h] refs].
  assert (∀ s x, coalesce (jsonb_text <$> nullString s) x = x ∨
                 s ≠ "" ∧ coalesce (jsonb_text <$> nullString s) x = Some (jsonb_text s)) as Hc.
  { intros s x. unfold nullString, nullif_empty. destruct s; [by left|by right]. }
  split_and!.
  - destruct (Hc (su_ExecutionEnvelope result) (r_execution_envelope r)) as [Hx|[? Hx]]; [by left|right; by exists result].
  - destruct (Hc (su_ExecutionReceipt result) (r_execution_receipt r)) as [Hx|[? Hx]]; [by left|right; by exists result].
  - by left.
Qed.

Lemma moves_SaveExecutionArtifacts result c0 :
  answered result → verified (runtimes c0) result →
  hoare (since c0) (SaveExecutionArtifacts (t_TaskID task) (su_ExecutionEnvelope result) (su_ExecutionReceipt result))
    (λ _, since c0).
Proof.
  intros Ha Hv c Hc. unfold since. etrans; [exact Hc|]. destruct Hc as [Hr _]. rewrite <-Hr in Hv.
  destruct (hoare_SaveExecutionArtifacts (t_TaskID task) (su_ExecutionEnvelope result) (su_ExecutionReceipt result)
    (c_db c) (c_jobs c) (runtimes c) c) as (_ & Hr' & Hdb); [done|]. split; [done|].
  destruct Hdb as [->|Hdb]; [apply rowwise_same; [apply change_refl|done]|]. rewrite Hdb.
  apply rowwise_update; [apply change_refl|]. intros r. by apply stored_artifact_row.
Qed.

Lemma moves_for_each {A} (f : A → ST CWorld ()) l : (∀ a, within moves (f a)) → within moves (for_each f l).
Proof.
  intros Hf. induction l as [|a l IH]; cbn [for_each]; [apply within_ret, _|].
  apply within_bind; [apply _|apply Hf|]. by intros _.
Qed.

Lemma moves_persist_lineage status raw : within moves (persist_lineage task status raw).
Proof.
  unfold persist_lineage.
  walk ltac:(first [apply moves_calm, calm_c_now | apply moves_kept, kept_SaveExecutionLineage]).
Qed.

Lemma moves_sync_proof : within moves (sync_proof task).
Proof.
  unfold sync_proof.
  walk ltac:(first [apply moves_calm, calm_HasTaskProofSyncTrigger | apply moves_kept, kept_SyncTaskProofState]).
Qed.

Lemma moves_persist_artifacts result c0 :
  answered result → verified (runtimes c0) result →
  hoare (since c0) (persist_artifacts task result) (λ _, since c0).
Proof.
  intros Ha Hv. unfold persist_artifacts. eapply hoare_bind; [by apply moves_SaveExecutionArtifacts|].
  intros [u|e]; [|by apply hoare_ret]. apply hoare_since.
  walk ltac:(first [ apply moves_for_each; intros ?; apply moves_persist_lineage
    | apply moves_calm, calm_markEffectJournalCommitted | apply moves_sync_proof ]).
Qed.

Definition no_artifacts (result : taskSubmitResult) : Prop :=
  su_ExecutionEnvelope result = "" ∧ su_ExecutionReceipt result = "".

Lemma hoare_handle_artifacts result c0 :
  answered result →
  hoare (since c0) (handle_artifacts task result)
    (λ b c, since c0 c ∧ (b = true → no_artifacts result ∨ verified (runtimes c0) result)).
Proof.
  intros Ha. unfold handle_artifacts.
  assert (∀ reason details, hoare (since c0) (fail_task (t_TaskID task) reason details ;; mret false)
    (λ b c, since c0 c ∧ (b = true → no_artifacts result ∨ verified (runtimes c0) result))) as Hfail.
  { intros reason details. eapply hoare_bind; [apply hoare_since, moves_fail_task|]. intros []. by apply hoare_ret. }
  destruct (negb _ && negb _) eqn:Hnone.
  { apply hoare_ret. intros c Hc. split; [done|]. left. unfold no_artifacts.
    by destruct (su_ExecutionEnvelope result), (su_ExecutionReceipt result). }
  eapply hoare_bind; [apply hoare_verifyArtifacts|]. intros [[]|e]; [|intros c [Hc _]; by apply Hfail].
  apply hoare_pure. intros Hv1. destruct (Hv1 _ eq_refl) as (key & Hk & Hart).
  eapply hoare_bind; [apply hoare_verifySteps|]. intros [[]|e]; [|intros c [Hc _]; by apply Hfail].
  apply hoare_pure. intros Hv2. assert (verified (runtimes c0) result) as Hv.
  { exists key. split_and!; [done..|]. destruct (Hv2 _ eq_refl) as [->|(key' & Hk' & Hs)]; [done|].
    by rewrite (registered_functional _ _ _ Hk Hk'). }
  eapply hoare_bind; [by apply moves_persist_artifacts|]. intros []. apply hoare_ret. auto.
Qed.

Lemma hoare_conclude result c0 :
  answered result → no_artifacts result ∨ verified (runtimes c0) result →
  hoare (since c0) (conclude task result) (λ _, since c0).
Proof.
  intros Ha Hok. unfold conclude. case_bool_decide as Hname.
  - apply (hoare_bind _ _ _ (λ _, since c0)); [|intros r; by apply hoare_ret]. intros c Hc. unfold since. etrans; [exact Hc|].
    destruct Hc as [Hr _].
    apply (moves_rows _ (rowwise (change (runtimes c0))) (runtimes c0)); [|done..].
    apply relates_after; [apply hoare_time_now|]. intros now. apply relates_transition.
    { intros db. apply rowwise_same; [apply change_refl|done]. }
    intros db db'. apply rowwise_applied; [apply change_refl|]. intros r. split_and!; [by left..|].
    intros _. right. by exists result.
  - apply hoare_since. walk ltac:(apply moves_fail_task).
Qed.

Lemma moves_handle_reply cp req : within moves (handle_reply task cp (tr req)).
Proof.
  unfold handle_reply. destruct (tr req) as [[status body]|] eqn:Htr; [|apply moves_handleDispatchFailure].
  destruct (Z.leb_spec 500 status); [apply moves_handleDispatchFailure|].
  destruct (Z.leb_spec 400 status); [case_match; apply moves_fail_task|].
  destruct (decode_reply body) as [result|] eqn:Hd; [|apply within_ret, _].
  assert (answered result) as Ha by (by exists req, status, body).
  apply since_within. intros c0.
  eapply hoare_bind; [apply hoare_since|intros []].
  { case_match; [|apply within_ret, _]. apply within_ignore; [apply _|]. apply moves_kept, kept_SaveCheckpoint. }
  eapply hoare_bind; [by apply hoare_handle_artifacts|]. intros b. apply hoare_pure. intros Hok.
  destruct b; [|by apply hoare_ret]. by apply hoare_conclude; [|apply Hok].
Qed.

Lemma dispatch_rows cp c : rowwise (change (runtimes c)) (c_db c) (c_db (dispatchToRuntime tr task cp c).2).
Proof.
  apply (dispatch_within task moves tr cp); [apply calm_moves|intros; apply moves_fail_task|].
  intros req. apply moves_handle_reply.
Qed.

(** What the check of a receipt under a registered key amounts to. *)
Definition receipt_signed (raw key : string) : Prop :=
  ∃ pub receipt sig, decode_public_key key = Some pub ∧ unmarshal_object raw = Some receipt ∧
    record_signature "execution_receipt" receipt = Ok sig ∧
    ed25519_Verify pub (sha256 (canonicalReceiptBytes receipt)) sig = true ∧
    (string_field receipt "hash" = "" ∨ string_field receipt "hash" = ComputeCanonicalReceiptHash receipt).

Lemma decode_public_key_nonempty key : decode_public_key key ≠ Some "".
Proof.
  unfold decode_public_key. destruct (hex_decode key) as [d|]; [|done]. case_bool_decide as Hd; [|done].
  intros [= ->]. discriminate Hd.
Qed.

Lemma verified_receipt_signed envelope receipt key :
  receipt ≠ "" → TrimSpace key ≠ "" → VerifyExecutionArtifactsRawWithPublicKey envelope receipt key = Ok tt →
  receipt_signed receipt key.
Proof.
  intros Hr Hk. unfold VerifyExecutionArtifactsRawWithPublicKey.
  destruct key as [|a key]; [done|]. set (k := String a key) in *. change (nonempty k) with true. cbv iota.
  destruct (decode_public_key k) as [pub|] eqn:Hpub; [|done]. unfold client_VerifyExecutionArtifactsRaw.
  unfold mbind, res_bind. match goal with |- match ?m with Ok _ => _ | Err _ => _ end = _ → _ => destruct m as [u|e]; [|done] end.
  destruct (nonempty receipt) eqn:Hne; [|by destruct receipt].
  destruct (unmarshal_object receipt) as [rec|] eqn:Hu; [|done].
  destruct (verifyReceipt pub rec) as [v|e] eqn:Hv; [intros _|done]. unfold verifyReceipt in Hv.
  rewrite bool_decide_eq_false_2 in Hv by (intros ->; by apply (decode_public_key_nonempty k)).
  destruct (record_signature _ rec) as [sig|e] eqn:Hs; [|done]. exists pub, rec, sig.
  destruct (nonempty (string_field rec "hash") && _) eqn:Hh; [done|].
  destruct (ed25519_Verify _ _ _) eqn:Hver; [|done]. split_and!; [done..|].
  destruct (string_field rec "hash") as [|b h]; [by left|]. right. cbn [nonempty andb] in Hh.
  apply negb_false_iff, bool_decide_eq_true in Hh. exact Hh.
Qed.

(** C29: Whatever a runtime answers and whichever statements fail, a dispatch
    changes the stored artifacts only of its own task, to an envelope and a
    receipt of a successful answer that verify, with all step receipts, under
    the key registered for the task's runtime; and it completes only its own
    task, on an answer that says so and carries no artifacts or ones that
    verify. *)
Theorem dispatch_stores_verified cp c :
  rowwise (change (runtimes c)) (c_db c) (c_db (dispatchToRuntime tr task cp c).2).
Proof. apply dispatch_rows. Qed.

(** A receipt a dispatch stores was signed by the registered runtime: when
    the receipt column of a row differs after a dispatch, the row is the
    dispatched task's and the new receipt is a JSON object whose signature over
    the hash of its canonical form verifies under the key registered for the
    task's runtime, and whose own hash field, if any, is that hash. *)
Theorem stored_receipt_signed cp c id r r' :
  task_records (c_db c) !! id = Some r →
  task_records (c_db (dispatchToRuntime tr task cp c).2) !! id = Some r' →
  r_execution_receipt r' ≠ r_execution_receipt r →
  id = t_TaskID task ∧ ∃ raw key, r_execution_receipt r' = Some (jsonb_text raw) ∧
    registered (runtimes c) key ∧ receipt_signed raw key.
Proof.
  intros Hr Hr' Hne. destruct (dispatch_rows cp c id r' Hr') as (r0 & Hr0 & _ & Hs & _).
  assert (r0 = r) as -> by congruence. destruct Hs as [?|(result & -> & _ & (key & Hk & Hv & _) & Hnon & Hx)]; [done|].
  split; [done|]. exists (su_ExecutionReceipt result), key. split_and!; [done..|].
  destruct Hk as (_ & _ & _ & _ & _ & Htrim). by eapply verified_receipt_signed.
Qed.
End Replies.
