(* ===== verification/CallbackFacts.v ===== *)
(** * What runtime callbacks guarantee

    A callback changes a task only when its envelope is authentic: signed under
    the key registered for the task's runtime over this tenant, task, kind and
    body, fresh, and with a nonce never accepted before.  An accepted envelope
    is not accepted again, provided the cleanup keeps nonces for twice the
    freshness window. *)

From S2P Require Import Prelude GoStrings Json JsonFacts Ext WalCodec Checkpoint Types Capability.
From S2P Require Import Governance.
From S2P Require Import Store StoreLogic StoreSpec StoreTheorems InputRefs Receipts RuntimeClient.
From S2P Require Import CoordState.
From S2P Require Import Coordinator Callbacks CoordLogic CoordHandlers.
Open Scope Z_scope.

Section Facts.
Context `{Ext} `{CheckpointCodec} `{UUIDSupply} `{MapRange} `{AEAD} `{SortSlice} `{!CheckpointCodecLaws}.

Abbreviation nonces c := (runtime_callback_nonces (c_tables c)).
Abbreviation clock c := (w_now (c_world c)).

(** ** Statements *)

Lemma next_fault_now w : w_now (next_fault w).2 = w_now w.
Proof. unfold next_fault. by destruct (w_faults w). Qed.

Lemma c_now_run c : c_now c = (clock c, c).
Proof. by destruct c. Qed.

(** What a statement may leave: its result and tables, an error and the tables
    before, or an error and the tables after. *)
Lemma c_exec_cases {A} (q : tstmt A) c :
  let '(r, c') := c_exec q c in
  c_db c' = c_db c ∧ c_jobs c' = c_jobs c ∧ clock c' = clock c ∧
  (q (c_db c) (c_tables c) = (r, c_tables c') ∨
   r = Err sql_error ∧ (c_tables c' = c_tables c ∨ c_tables c' = (q (c_db c) (c_tables c)).2)).
Proof.
  unfold c_exec, c_db. pose proof (next_fault_db (c_world c)) as Hf. pose proof (next_fault_now (c_world c)) as Hn.
  destruct (next_fault (c_world c)) as [f w]. cbn in Hf, Hn. change (c_tables (c {{ c_world := w }})) with (c_tables c).
  rewrite Hf. destruct f.
  - destruct (q (w_db (c_world c)) (c_tables c)) as [r t]. split_and!; [done..|]. by left.
  - split_and!; [done..|]. right. by split; [|left].
  - destruct (q (w_db (c_world c)) (c_tables c)) as [r t]. split_and!; [done..|]. right. split; [done|]. by right.
Qed.

(** A statement that reads. *)
Lemma c_exec_reads {A} (f : DB → Tables → res A) c :
  let '(r, c') := c_exec (λ db t, (f db t, t)) c in
  c_db c' = c_db c ∧ c_jobs c' = c_jobs c ∧ clock c' = clock c ∧ c_tables c' = c_tables c ∧
  ∀ a, r = Ok a → f (c_db c) (c_tables c) = Ok a.
Proof.
  pose proof (c_exec_cases (λ db t, (f db t, t)) c) as Hc. destruct (c_exec _ c) as [r c'].
  destruct Hc as (Hdb & Hj & Hn & Hr). split_and!; [done..| |].
  - destruct Hr as [[= _ Ht]|[_ [Ht|Ht]]]; done.
  - intros a ->. destruct Hr as [[= Ha _]|[? _]]; done.
Qed.

(** ** Validation *)

(** The envelope of a request, its registered key and its signature. *)
Definition signed_by_runtime (e : runtimeCallbackEnvelope) (tenantID : string) (t : Tables) : Prop :=
  ∃ publicKeyHex keyBytes signature,
    select_callback_key tenantID (ce_RuntimeID e) t = Ok publicKeyHex ∧
    decode_public_key (TrimSpace publicKeyHex) = Some keyBytes ∧
    b64_decode false true (TrimSpace (ce_Signature e)) = Some signature ∧
    ed25519_Verify keyBytes (sha256 (canonicalRuntimeCallbackEnvelope e)) signature = true.

Definition seen (e : runtimeCallbackEnvelope) (l : list nonce_row) : bool :=
  existsb (same_nonce (ce_TenantID e) (ce_RuntimeID e) (ce_Nonce e)) l.

(** An envelope that a request may be accepted with. *)
Definition authentic (r : callback_request) (task : TaskRecord) (tenantID callbackType : string) (c : CWorld)
    (e : runtimeCallbackEnvelope) : Prop :=
  parseRuntimeCallbackEnvelope (TrimSpace (cr_envelope_header r)) = Some e ∧
  envelope_refusal e task tenantID callbackType (sha256Hex (cr_body r)) (clock c) = None ∧
  signed_by_runtime e tenantID (c_tables c) ∧ seen e (nonces c) = false.

Lemma verify_signed e publicKeyHex :
  verifyRuntimeCallbackSignature e publicKeyHex = None →
  ∃ keyBytes signature, decode_public_key (TrimSpace publicKeyHex) = Some keyBytes ∧
    b64_decode false true (TrimSpace (ce_Signature e)) = Some signature ∧
    ed25519_Verify keyBytes (sha256 (canonicalRuntimeCallbackEnvelope e)) signature = true.
Proof.
  unfold verifyRuntimeCallbackSignature. destruct (decode_public_key _) as [k|]; [|done].
  destruct (b64_decode _ _ _) as [s|]; [|done]. destruct (negb _); [done|]. case_bool_decide; [done|].
  destruct (ed25519_Verify _ _ _) eqn:Hv; [|done]. by exists k, s.
Qed.

(** The nonces afterwards: as before, or with the envelope's added. *)
Definition nonce_step (e : runtimeCallbackEnvelope) (c c' : CWorld) : Prop :=
  nonces c' = nonces c ∨
  seen e (nonces c) = false ∧ ∃ taskID, nonces c' = nonces c ++ [nonce_of e taskID (clock c)].

Lemma insert_nonce_spec row db t :
  let '(r, t') := insert_nonce row db t in
  (r = Ok 0 ∧ t' = t) ∨
  (r = Ok 1 ∧ existsb (same_nonce (nc_tenant_id row) (nc_runtime_id row) (nc_nonce row)) (runtime_callback_nonces t) = false ∧
   t' = t {{ runtime_callback_nonces ::= λ l, l ++ [row] }}).
Proof. unfold insert_nonce. destruct (existsb _ _) eqn:Hs; [by left|by right]. Qed.

Lemma reserve_spec e c :
  let '(n, c') := reserveRuntimeCallbackNonce e c in
  c_db c' = c_db c ∧ c_jobs c' = c_jobs c ∧ clock c' = clock c ∧ nonce_step e c c' ∧
  (n = None → seen e (nonces c) = false ∧ seen e (nonces c') = true ∧
     ∃ taskID, nonces c' = nonces c ++ [nonce_of e taskID (clock c)]).
Proof.
  unfold reserveRuntimeCallbackNonce. destruct (uuid_Parse (ce_TaskID e)) as [tid|].
  2:{ split_and!; try done. by left. }
  rewrite bind_run, c_now_run. cbn [fst snd]. rewrite bind_run.
  pose proof (c_exec_cases (insert_nonce (nonce_of e tid (clock c))) c) as Hc.
  destruct (c_exec _ c) as [r c']. destruct Hc as (Hdb & Hj & Hn & Hr). cbn [fst snd].
  pose proof (insert_nonce_spec (nonce_of e tid (clock c)) (c_db c) (c_tables c)) as Hi.
  destruct (insert_nonce _ _ _) as [r' t'] eqn:Hins.
  assert (c_tables c' = c_tables c ∨ c_tables c' = t') as Ht.
  { destruct Hr as [[= <- <-]|[_ [?|?]]]; [by right|by left|by right]. }
  assert (nonce_step e c c') as Hstep.
  { unfold nonce_step. destruct Ht as [->| ->]; [by left|]. destruct Hi as [[_ ->]|(_ & Hs & ->)]; [by left|]. right. split; [exact Hs|].
    by exists tid. }
  split_and!; [done..|].
  destruct Hr as [[= -> ->]|[-> _]]; [|done]. destruct Hi as [[-> _]|(-> & Hs & ->)]; [done|]. intros _.
  split; [exact Hs|]. split; [|by exists tid]. cbn. unfold seen. rewrite existsb_app. cbn.
  unfold same_nonce at 2. cbn. by rewrite !bool_decide_true, orb_true_r by done.
Qed.

(** What validating a callback does, under any faults. *)
Definition validated (r : callback_request) (task : TaskRecord) (tenantID callbackType : string) (c : CWorld)
    (v : runtimeCallbackValidation) (c' : CWorld) : Prop :=
  c_db c' = c_db c ∧ c_jobs c' = c_jobs c ∧ clock c' = clock c ∧
  (∃ l, nonces c' = nonces c ++ l) ∧
  (cv_reason v = "" →
   (cv_envelope v = None ∧ TrimSpace (cr_envelope_header r) = "" ∧ allowUnsignedRuntimeCallbacks = true) ∨
   ∃ e taskID, cv_envelope v = Some e ∧ authentic r task tenantID callbackType c e ∧
     nonces c' = nonces c ++ [nonce_of e taskID (clock c)]).

Lemma validated_refused r task tenantID callbackType c v c' :
  cv_reason v ≠ "" → c_db c' = c_db c → c_jobs c' = c_jobs c → clock c' = clock c → (∃ l, nonces c' = nonces c ++ l) →
  validated r task tenantID callbackType c v c'.
Proof. intros Hv Hdb Hj Hn Hl. by split_and!. Qed.

Lemma envelope_refusal_reason e task tenantID callbackType d now reason :
  envelope_refusal e task tenantID callbackType d now = Some reason → reason ≠ "".
Proof. unfold envelope_refusal, validateRuntimeCallbackTimestamp. repeat case_match; by intros [= <-]. Qed.

Lemma verify_reason e key reason : verifyRuntimeCallbackSignature e key = Some reason → reason ≠ "".
Proof. unfold verifyRuntimeCallbackSignature. repeat case_match; by intros [= <-]. Qed.

Lemma reserve_reason e c reason : (reserveRuntimeCallbackNonce e c).1 = Some reason → reason ≠ "".
Proof.
  unfold reserveRuntimeCallbackNonce. destruct (uuid_Parse _); [|by intros [= <-]].
  rewrite bind_run, bind_run. cbn. repeat case_match; by intros [= <-].
Qed.

Lemma public_key_spec tenantID runtimeID c :
  let '(k, c') := runtimeCallbackPublicKey tenantID runtimeID c in
  c_db c' = c_db c ∧ c_jobs c' = c_jobs c ∧ clock c' = clock c ∧ c_tables c' = c_tables c ∧
  ∀ publicKeyHex, k = Ok publicKeyHex → select_callback_key tenantID runtimeID (c_tables c) = Ok publicKeyHex.
Proof.
  unfold runtimeCallbackPublicKey, bind_err. rewrite bind_run.
  pose proof (c_exec_reads (λ _ t, select_callback_key tenantID runtimeID t) c) as Hc.
  destruct (c_exec _ c) as [k c']. destruct Hc as (? & ? & ? & ? & Hk). cbn [fst snd]. destruct k as [key|err].
  - split_and!; [done..|]. intros p. cbn. case_bool_decide; [done|]. intros [= <-]. by apply Hk.
  - by split_and!.
Qed.

Lemma validate_spec r task tenantID callbackType c :
  let '(v, c') := validateRuntimeCallback r task tenantID callbackType c in
  validated r task tenantID callbackType c v c'.
Proof.
  unfold validateRuntimeCallback. cbv zeta. case_bool_decide as Hraw.
  { cbn. destruct allowUnsignedRuntimeCallbacks eqn:Hu.
    - split_and!; try done; [exists []; by rewrite app_nil_r|]. intros _. by left.
    - apply validated_refused; try done. exists []. by rewrite app_nil_r. }
  destruct (parseRuntimeCallbackEnvelope _) as [e|] eqn:Hparse.
  2:{ apply validated_refused; try done. exists []. by rewrite app_nil_r. }
  rewrite bind_run, c_now_run. cbn [fst snd].
  destruct (envelope_refusal _ _ _ _ _ _) as [reason|] eqn:Hrefusal.
  { apply envelope_refusal_reason in Hrefusal. apply validated_refused; try done. exists []. by rewrite app_nil_r. }
  rewrite bind_run. pose proof (public_key_spec tenantID (ce_RuntimeID e) c) as Hk.
  destruct (runtimeCallbackPublicKey _ _ c) as [k c1]. destruct Hk as (Hdb1 & Hj1 & Hn1 & Ht1 & Hk). cbn [fst snd].
  assert (∃ l, nonces c1 = nonces c ++ l) as Hl1 by (exists []; by rewrite Ht1, app_nil_r).
  destruct k as [key|err]; [|by apply validated_refused].
  destruct (verifyRuntimeCallbackSignature e key) as [reason|] eqn:Hver.
  { apply verify_reason in Hver. by apply validated_refused. }
  rewrite bind_run. pose proof (reserve_spec e c1) as Hres. pose proof (reserve_reason e c1) as Hreason.
  destruct (reserveRuntimeCallbackNonce e c1) as [n c2]. cbn [fst snd] in *.
  destruct Hres as (Hdb2 & Hj2 & Hn2 & Hstep & Hok). rewrite Ht1, Hn1 in Hok.
  assert (∃ l, nonces c2 = nonces c ++ l) as Hl2.
  { rewrite <-Ht1. destruct Hstep as [->|(_ & tid & ->)]; [exists []; by rewrite app_nil_r|by eexists]. }
  destruct n as [reason|].
  { apply validated_refused; [by apply Hreason|congruence..|done]. }
  destruct (Hok eq_refl) as (Hseen & _ & tid & Hnew). split_and!; [congruence..|done|]. intros _. right. exists e, tid.
  split_and!; [done| |done]. split_and!; [done|done| |done]. exists key. apply verify_signed in Hver as (kb & sg & ? & ? & ?).
  exists kb, sg. split_and!; [by apply Hk|done..].
Qed.

(** ** The handlers *)

Definition handle_callback (k : callback_kind) : callback_request → ST CWorld reply :=
  match k with
  | CbCheckpoint => handleTaskCheckpoint
  | CbComplete => handleTaskComplete
  | CbFailed => handleTaskFailed
  end.

(** What an accepted envelope says about its request. *)
Definition bound_to (e : runtimeCallbackEnvelope) (r : callback_request) (task : TaskRecord) (k : callback_kind) (now : time)
    : Prop :=
  ce_TenantID e = cr_tenant r ∧ ce_TaskID e = uuid_String (t_TaskID task) ∧ ce_CallbackType e = kind_name k ∧
  ce_BodyDigest e = sha256_hex (cr_body r) ∧
  now - runtimeCallbackFreshness ≤ ce_TimestampUnixMs e * Millisecond ≤ now + runtimeCallbackFreshness ∧
  (∀ id, t_RuntimeID task = Some id → TrimSpace id ≠ "" → TrimSpace (ce_RuntimeID e) = TrimSpace id).

Lemma accepted_bound e r task k now :
  envelope_refusal e task (cr_tenant r) (kind_name k) (sha256Hex (cr_body r)) now = None → bound_to e r task k now.
Proof.
  unfold envelope_refusal. repeat (case_bool_decide; cbn [negb]; [|done]). repeat (case_bool_decide; [done|]).
  destruct (runtimeCallbackMatchesTask task [ce_RuntimeID e]) eqn:Hm; [|done]. cbn [negb].
  unfold validateRuntimeCallbackTimestamp. destruct (_ =? 0); [done|]. destruct (_ || _) eqn:Hts; [done|]. intros _.
  apply orb_false_iff in Hts as [Hlo%Z.ltb_ge Hhi%Z.ltb_ge]. split_and!; try done.
  intros id Hid Hne. unfold runtimeCallbackMatchesTask in Hm. rewrite Hid, bool_decide_false in Hm by done. cbn in Hm.
  rewrite andb_true_r, bool_decide_false in Hm by done. by apply bool_decide_eq_true in Hm.
Qed.

Lemma refusal_fresh e task tenantID callbackType d now :
  envelope_refusal e task tenantID callbackType d now = None →
  now - runtimeCallbackFreshness ≤ ce_TimestampUnixMs e * Millisecond ≤ now + runtimeCallbackFreshness.
Proof.
  unfold envelope_refusal, validateRuntimeCallbackTimestamp. repeat (case_match; [done|]). destruct (_ =? 0); [done|].
  destruct (_ || _) eqn:Hts; [done|]. intros _. apply orb_false_iff in Hts as [Hlo%Z.ltb_ge Hhi%Z.ltb_ge]. done.
Qed.

Lemma GetTask_run id tenant c :
  let '(t, c') := on_store (GetTask id tenant) c in
  c_db c' = c_db c ∧ c_jobs c' = c_jobs c ∧ c_tables c' = c_tables c ∧ clock c' = clock c ∧ task_of id tenant t (c_db c).
Proof.
  pose proof (hoare_GetTask id tenant (w_db (c_world c)) (c_world c) eq_refl) as [Hdb Ht].
  assert (w_now (GetTask id tenant (c_world c)).2 = clock c) as Hn.
  { unfold GetTask, bind_err. rewrite bind_run. unfold exec. rewrite !bind_run. pose proof (next_fault_now (c_world c)) as Hn.
    destruct (next_fault (c_world c)) as [f w]. cbn in Hn. by destruct f; repeat case_match. }
  unfold on_store. destruct (GetTask id tenant (c_world c)) as [t w]. by split_and!.
Qed.

Lemma persist_run tenantID taskID runtimeID callbackType reason d c :
  let c' := (persistRejectedRuntimeCallback tenantID taskID runtimeID callbackType reason d c).2 in
  c_db c' = c_db c ∧ c_jobs c' = c_jobs c ∧ nonces c' = nonces c.
Proof.
  unfold persistRejectedRuntimeCallback. destruct (_ || _); [done|]. unfold ignore. rewrite bind_run. cbn [fst snd].
  match goal with |- context [c_exec ?q c] => pose proof (c_exec_cases q c) as Hc; destruct (c_exec q c) as [r c'] end.
  destruct Hc as (? & ? & _ & Hr). cbn [mret ST_ret fst snd]. split_and!; [done..|]. destruct Hr as [[= _ <-]|[_ [->| ->]]]; done.
Qed.

Lemma rejection_run r task tenantID callbackType v c :
  let c' := (runtimeCallbackRejection r task tenantID callbackType v c).2 in
  c_db c' = c_db c ∧ c_jobs c' = c_jobs c ∧ nonces c' = nonces c.
Proof. unfold runtimeCallbackRejection. rewrite bind_run. apply persist_run. Qed.

Definition unaccepted (c c' : CWorld) : Prop :=
  c_db c' = c_db c ∧ c_jobs c' = c_jobs c ∧ ∃ l, nonces c' = nonces c ++ l.

Lemma unaccepted_trans c1 c2 c3 : unaccepted c1 c2 → unaccepted c2 c3 → unaccepted c1 c3.
Proof. intros (? & ? & l & Hl) (? & ? & l' & Hl'). split_and!; [congruence..|]. exists (l ++ l'). by rewrite Hl', Hl, app_assoc. Qed.

Lemma unaccepted_same c c' : c_db c' = c_db c → c_jobs c' = c_jobs c → nonces c' = nonces c → unaccepted c c'.
Proof. intros ? ? Hn. split_and!; [done..|]. exists []. by rewrite Hn, app_nil_r. Qed.

Lemma validated_unaccepted r task tenantID callbackType c v c' : validated r task tenantID callbackType c v c' → unaccepted c c'.
Proof. by intros (? & ? & _ & ? & _). Qed.

(** Either nothing happened to the tasks, or the callback was accepted for a
    task of the tenant whose status allows it. *)
Lemma with_accepted_cases k r acc c :
  let '(rep, c') := with_accepted k r acc c in
  unaccepted c c' ∨
  ∃ taskID row v c0 c1,
    uuid_Parse (cr_id r) = Some taskID ∧ task_records (c_db c) !! taskID = Some row ∧ r_tenant_id row = cr_tenant r ∧
    TaskAllowsRuntimeMutation (r_status row) = true ∧
    c_db c0 = c_db c ∧ c_jobs c0 = c_jobs c ∧ c_tables c0 = c_tables c ∧ clock c0 = clock c ∧
    validated r (row_task row) (cr_tenant r) (kind_name k) c0 v c1 ∧ cv_reason v = "" ∧
    acc taskID (row_task row) v c1 = (rep, c').
Proof.
  unfold with_accepted. destruct (uuid_Parse (cr_id r)) as [taskID|] eqn:Hid; [|left; by apply unaccepted_same].
  cbv zeta. case_bool_decide; [left; by apply unaccepted_same|]. rewrite bind_run.
  pose proof (GetTask_run taskID (cr_tenant r) c) as Hg. destruct (on_store _ c) as [t c0].
  destruct Hg as (Hdb0 & Hj0 & Ht0 & Hn0 & Htask). cbn [fst snd].
  assert (unaccepted c c0) as Hu0 by (apply unaccepted_same; congruence).
  destruct t as [task|e]; [|by left]. destruct (Htask task eq_refl) as (row & Hrow & Hten & ->).
  change (t_Status (row_task row)) with (r_status row).
  destruct (TaskAllowsRuntimeMutation (r_status row)) eqn:Hmut; cbn [negb].
  - rewrite bind_run. pose proof (validate_spec r (row_task row) (cr_tenant r) (kind_name k) c0) as Hv.
    destruct (validateRuntimeCallback _ _ _ _ c0) as [v c1]. cbn [fst snd].
    destruct (nonempty (cv_reason v)) eqn:Hne.
    + pose proof (rejection_run r (row_task row) (cr_tenant r) (kind_name k) v c1) as Hr. cbv zeta in Hr.
      destruct (runtimeCallbackRejection _ _ _ _ _ c1) as [rep c']. destruct Hr as (? & ? & ?). left.
      eapply unaccepted_trans; [exact Hu0|]. eapply unaccepted_trans; [by eapply validated_unaccepted|]. by apply unaccepted_same.
    + destruct (acc _ _ _ c1) as [rep c'] eqn:Hacc. right. exists taskID, row, v, c0, c1. split_and!; try done.
      unfold nonempty in Hne. apply negb_false_iff, bool_decide_eq_true in Hne. done.
  - rewrite bind_run. set (m := if nonempty _ then _ else _).
    assert (unaccepted c0 (m c0).2) as Hu1.
    { unfold m. destruct (nonempty _); [|by apply unaccepted_same].
      pose proof (validate_spec r (row_task row) (cr_tenant r) (kind_name k) c0) as Hv.
      destruct (validateRuntimeCallback _ _ _ _ c0) as [v c1]. by eapply validated_unaccepted. }
    rewrite bind_run. cbn [mret ST_ret].
    match goal with |- context [persistRejectedRuntimeCallback ?a ?b ?d ?e ?f ?g ?h] =>
      pose proof (persist_run a b d e f g h) as (? & ? & ?) end. left.
    eapply unaccepted_trans; [exact Hu0|]. eapply unaccepted_trans; [exact Hu1|]. by apply unaccepted_same.
Qed.

(** After acceptance the nonces stay as they are. *)
Definition same_nonces (c c' : CWorld) : Prop := nonces c' = nonces c.

#[local] Instance same_nonces_preorder : PreOrder same_nonces.
Proof. split; [done|]. intros c1 c2 c3 ? ?. unfold same_nonces in *. congruence. Qed.

Lemma same_nonces_store {A} (m : ST World A) : within same_nonces (on_store m).
Proof. intros c. unfold same_nonces. by destruct (on_store_result m c) as (_ & _ & _ & ->). Qed.

Lemma same_nonces_now : within same_nonces c_now.
Proof. intros c. by rewrite c_now_run. Qed.

Lemma same_nonces_rejection r task tenantID callbackType v :
  within same_nonces (runtimeCallbackRejection r task tenantID callbackType v).
Proof. intros c. by destruct (rejection_run r task tenantID callbackType v c) as (_ & _ & ?). Qed.

Ltac nonce_leaf := first [apply same_nonces_store | apply same_nonces_now | apply same_nonces_rejection].

(** What an accepted callback does. *)
Definition accepted_part (k : callback_kind) (r : callback_request)
    : uuid → TaskRecord → runtimeCallbackValidation → ST CWorld reply :=
  match k with
  | CbCheckpoint => checkpoint_accepted r
  | CbComplete => complete_accepted r
  | CbFailed => failed_accepted r
  end.

Lemma handle_callback_eq k r : handle_callback k r = with_accepted k r (accepted_part k r).
Proof. by destruct k. Qed.

Lemma same_nonces_accepted k r taskID task v : within same_nonces (accepted_part k r taskID task v).
Proof.
  destruct k; cbn [accepted_part]; unfold checkpoint_accepted, complete_accepted, failed_accepted, mutation_failed,
    taskTransitionRejectedPayload, HandleCheckpoint, HandleComplete, HandleFailedWithDetails,
    RecordRuntimeFailedRecoveryDecision, runtimeFailedRecoveryDecision, evaluate_policy, c_uuid; cbv zeta;
    walk ltac:(nonce_leaf).
Qed.

Lemma authentic_same r task tenantID callbackType c c' e :
  clock c' = clock c → c_tables c' = c_tables c →
  authentic r task tenantID callbackType c' e → authentic r task tenantID callbackType c e.
Proof. intros Hn Ht. unfold authentic. by rewrite Hn, Ht. Qed.

(** C25: runtime callbacks are authenticated.  Under any faults, a checkpoint,
    completion or failure callback leaves the store as it was unless the task
    belongs to the authenticated tenant, its status allows runtime mutation, and
    (unless unsigned callbacks were explicitly allowed and none was sent) the
    request carries an envelope for exactly this tenant, task, kind and body, of
    the task's runtime, within the freshness window, signed under the key
    registered for that runtime, with a nonce not accepted before; the nonce is
    then recorded. *)
Theorem callbacks_authenticated k r c :
  let '(rep, c') := handle_callback k r c in
  c_db c' = c_db c ∨
  ∃ taskID row, uuid_Parse (cr_id r) = Some taskID ∧ task_records (c_db c) !! taskID = Some row ∧
    r_tenant_id row = cr_tenant r ∧ TaskAllowsRuntimeMutation (r_status row) = true ∧
    (TrimSpace (cr_envelope_header r) = "" ∧ allowUnsignedRuntimeCallbacks = true ∨
     ∃ e, parseRuntimeCallbackEnvelope (TrimSpace (cr_envelope_header r)) = Some e ∧
       bound_to e r (row_task row) k (clock c) ∧ signed_by_runtime e (cr_tenant r) (c_tables c) ∧
       seen e (nonces c) = false ∧ seen e (nonces c') = true).
Proof.
  rewrite handle_callback_eq. pose proof (with_accepted_cases k r (accepted_part k r) c) as Hc.
  destruct (with_accepted k r _ c) as [rep c'].
  destruct Hc as [[? _]|(taskID & row & v & c0 & c1 & Hid & Hrow & Hten & Hmut & Hdb0 & _ & Ht0 & Hn0 & Hv & Hr & Hacc)]; [by left|].
  right. exists taskID, row. split_and!; try done. destruct Hv as (_ & _ & _ & _ & Hv).
  destruct (Hv Hr) as [(_ & ? & ?)|(e & tid & _ & Ha & Hnew)]; [by left|]. right. exists e.
  apply (authentic_same _ _ _ _ c) in Ha as (Hp & Href & Hsig & Hseen); [|done..].
  split_and!; [done|by apply accepted_bound|done|done|].
  pose proof (same_nonces_accepted k r taskID (row_task row) v c1) as Hs. rewrite Hacc in Hs. cbn [snd] in Hs.
  unfold same_nonces in Hs. rewrite Hs, Hnew. unfold seen. rewrite existsb_app. cbn. unfold same_nonce at 2. cbn.
  by rewrite !bool_decide_true, orb_true_r by done.
Qed.

(** ** Replay protection over time *)

Definition at_time (now : time) (faults : list fault) (c : CWorld) : CWorld :=
  c {{ c_world ::= λ w, w {{ w_faults := faults; w_now := now }} }}.

(** What may happen at a moment: a callback, a cleanup that keeps nonces for at
    least twice the freshness window (as the default does), or anything that is
    not concerned with nonces. *)
Inductive nonce_event (now : time) (c : CWorld) : CWorld → Prop :=
| ev_callback k r faults : nonce_event now c (handle_callback k r (at_time now faults c)).2
| ev_cleanup retention faults :
    (0 < retention → 2 * runtimeCallbackFreshness ≤ retention) →
    nonce_event now c (CleanupExpiredRuntimeCallbackNonces retention (at_time now faults c)).2
| ev_other c' : nonces c' = nonces c → nonce_event now c c'.

(** Events at times that never decrease. *)
Inductive nonce_history : time → CWorld → time → CWorld → Prop :=
| hist_nil t c : nonce_history t c t c
| hist_cons t c now c1 t' c' :
    t ≤ now → nonce_event now c c1 → nonce_history now c1 t' c' → nonce_history t c t' c'.

Lemma history_time t c t' c' : nonce_history t c t' c' → t ≤ t'.
Proof. induction 1; lia. Qed.

Lemma handle_keeps k r c x : x ∈ nonces c → x ∈ nonces (handle_callback k r c).2.
Proof.
  rewrite handle_callback_eq. pose proof (with_accepted_cases k r (accepted_part k r) c) as Hc.
  destruct (with_accepted k r _ c) as [rep c'].
  destruct Hc as [(_ & _ & l & Hl)|(taskID & row & v & c0 & c1 & _ & _ & _ & _ & _ & _ & Ht0 & _ & Hv & _ & Hacc)]; intros Hx; cbn [snd].
  - rewrite Hl. apply elem_of_app. by left.
  - pose proof (same_nonces_accepted k r taskID (row_task row) v c1) as Hs. rewrite Hacc in Hs. cbn [snd] in Hs.
    unfold same_nonces in Hs. destruct Hv as (_ & _ & _ & (l & Hl) & _). rewrite Hs, Hl, Ht0. apply elem_of_app. by left.
Qed.

Lemma cleanup_keeps retention c x :
  (0 < retention → 2 * runtimeCallbackFreshness ≤ retention) → clock c ≤ nc_accepted_at x + 2 * runtimeCallbackFreshness →
  x ∈ nonces c → x ∈ nonces (CleanupExpiredRuntimeCallbackNonces retention c).2.
Proof.
  intros Hret Hx Hin. unfold CleanupExpiredRuntimeCallbackNonces. cbv zeta. rewrite bind_run, c_now_run. cbn [fst snd].
  set (keep := if (if retention <=? 0 then _ else _) <? _ then _ else _).
  assert (2 * runtimeCallbackFreshness ≤ keep) as Hkeep.
  { unfold keep, runtimeCallbackNonceRetention, runtimeCallbackFreshness, Hour, Minute, Second, Millisecond in *.
    destruct (retention <=? 0) eqn:Hr; [done|]. apply Z.leb_gt in Hr. specialize (Hret Hr).
    destruct (Z.ltb_spec retention (5 * (60 * (1000 * 1000000)))); lia. }
  match goal with |- context [c_exec ?q c] => pose proof (c_exec_cases q c) as Hc; destruct (c_exec q c) as [r c'] end.
  destruct Hc as (_ & _ & _ & Hr). cbn [snd] in Hr |- *.
  assert (x ∈ filter (λ y, ¬ nc_accepted_at y < clock c - keep) (nonces c)) as Hf by (apply list_elem_of_filter; split; [lia|done]).
  destruct Hr as [[= _ Ht]|[_ [Ht|Ht]]]; [rewrite <-Ht|rewrite Ht..]; done.
Qed.

Lemma history_keeps t c t' c' x :
  nonce_history t c t' c' → t' ≤ nc_accepted_at x + 2 * runtimeCallbackFreshness → x ∈ nonces c → x ∈ nonces c'.
Proof.
  induction 1 as [|t c now c1 t' c' Ht Hev Hh IH]; intros Hx Hin; [done|]. apply IH; [done|].
  apply history_time in Hh. destruct Hev as [k r faults|retention faults Hret|c1 Hn].
  - by apply handle_keeps.
  - apply cleanup_keeps; [done| |done]. change (clock (at_time now faults c)) with now. lia.
  - by rewrite Hn.
Qed.


(** ** The handlers as traces of store moves *)

Section Traced.
Context (justified : DB → job → Prop).

Lemma still_trace {A} (m : ST CWorld A) : within still m → within (trace justified) m.
Proof. intros Hm. apply quiet_trace, within_still_quiet, Hm. Qed.

Lemma still_validate r task tenantID callbackType : within still (validateRuntimeCallback r task tenantID callbackType).
Proof.
  intros c. pose proof (validate_spec r task tenantID callbackType c) as Hv.
  destruct (validateRuntimeCallback _ _ _ _ c) as [v c']. by destruct Hv as (? & ? & _).
Qed.

Lemma still_persist tenantID taskID runtimeID callbackType reason d :
  within still (persistRejectedRuntimeCallback tenantID taskID runtimeID callbackType reason d).
Proof. intros c. by destruct (persist_run tenantID taskID runtimeID callbackType reason d c) as (? & ? & _). Qed.

Lemma still_rejection r task tenantID callbackType v : within still (runtimeCallbackRejection r task tenantID callbackType v).
Proof. intros c. by destruct (rejection_run r task tenantID callbackType v c) as (? & ? & _). Qed.

Ltac callback_leaf :=
  first
    [ apply still_trace; first [apply still_GetTask | apply still_validate | apply still_persist | apply still_rejection
                               | apply still_c_now | apply still_c_exec]
    | apply RecordRuntimeFailed_trace
    | apply trace_store, op_sound_undiscard; first
        [ eapply (run_op_sound (OpSaveCheckpoint _)) | eapply (run_op_sound (OpMarkCompleted _))
        | eapply (run_op_sound (OpMarkFailed _ _ _)) | eapply (run_op_sound (OpMarkCanceled _)) ] ].

Lemma with_accepted_trace k r acc :
  (∀ taskID task v, within (trace justified) (acc taskID task v)) → within (trace justified) (with_accepted k r acc).
Proof. intros Hacc. unfold with_accepted. cbv zeta. walk ltac:(first [apply Hacc | callback_leaf]). Qed.

Lemma mutation_failed_trace e taskID tenantID error : within (trace justified) (mutation_failed e taskID tenantID error).
Proof. unfold mutation_failed, taskTransitionRejectedPayload. walk ltac:(callback_leaf). Qed.

Lemma callback_trace k r : within (trace justified) (handle_callback k r).
Proof.
  rewrite handle_callback_eq. apply with_accepted_trace. intros taskID task v. destruct k; cbn [accepted_part].
  - unfold checkpoint_accepted, HandleCheckpoint. cbv zeta. walk ltac:(first [apply mutation_failed_trace | callback_leaf]).
  - unfold complete_accepted, HandleComplete. walk ltac:(first [apply mutation_failed_trace | callback_leaf]).
  - unfold failed_accepted, HandleFailedWithDetails. cbv zeta. walk ltac:(first [apply mutation_failed_trace | callback_leaf]).
Qed.

Lemma cancel_trace cancel idParam tenantID : within (trace justified) (handleTaskCancel cancel idParam tenantID).
Proof.
  unfold handleTaskCancel, HandleCancel. case_bool_decide; [apply within_ret, _|].
  destruct (uuid_Parse idParam) as [taskID|]; [|apply within_ret, _].
  apply within_bind; [apply _|apply still_trace, still_GetTask|]. intros [task|e]; [|apply within_ret, _].
  destruct (negb _); [apply within_ret, _|]. apply within_bind; [apply _| |].
  { apply trace_store, op_sound_undiscard, (run_op_sound (OpMarkCanceled _)). }
  intros [[]|e]; [|apply mutation_failed_trace].
  match goal with |- within _ (let '(_, _) := ?p in _) => destruct p as [attempted signaled] end.
  apply within_bind; [apply _|apply still_trace, still_GetTask|]. intros u. apply within_ret, _.
Qed.

Lemma cleanup_trace retention : within (trace justified) (CleanupExpiredRuntimeCallbackNonces retention).
Proof. unfold CleanupExpiredRuntimeCallbackNonces. cbv zeta. walk ltac:(callback_leaf). Qed.
End Traced.
End Facts.
