(* ===== verification/SubmissionFacts.v ===== *)
(** * What the public forms compile to

    The texts the forms are compiled to are read back member by member, so that
    the validator of the coordinator accepts what the forms produce: the two ends
    of a submission agree. *)

From S2P Require Import Prelude GoStrings Json JsonFacts JsonRoundTrip GoTime Float64 Ext WalCodec.
From S2P Require Import Checkpoint Types.
From S2P Require Import Capability Governance TaskDef Store InputRefs InputRefsFacts CoordState.
From S2P Require Import Coordinator Submission.
Open Scope Z_scope.

(** ** Fields *)

Lemma concat_nonempty (l : list string) s : s ∈ l → s ≠ "" → concat_strings l ≠ "".
Proof.
  induction l as [|x l IH]; [set_solver|]. intros [->|Hs]%elem_of_cons Hne; cbn [concat_strings foldr].
  - by destruct x.
  - destruct x; [by apply IH|done].
Qed.

Lemma sanitize_nonempty s : s ≠ "" → sanitize_utf8 s ≠ "".
Proof.
  intros Hs. destruct s as [|a s]; [done|]. destruct (runes_head a s) as (p & rest & Hrest & Hp & Hr).
  assert (runes (String a s) = p :: runes rest) as Hruns by (rewrite Hrest; apply (Hr rest ""); by rewrite str_app_nil_r).
  unfold sanitize_utf8. rewrite Hruns. apply (concat_nonempty _ (encode_rune p.1)); [apply list_elem_of_here|].
  unfold encode_rune. by repeat case_match.
Qed.

Lemma unmarshal_str s old : unmarshal dec_string (str_text s) old = (sanitize_utf8 s, true).
Proof. unfold unmarshal. by rewrite (json_parse_prints 0 _ _ (prints_str 0 s)). Qed.

Lemma pretty_go_length (n : nat) (x : N) s : (x < 10 ^ N.of_nat n)%N → (slen (pretty_N_go x s) ≤ n + slen s)%nat.
Proof.
  revert x s. induction n as [|n IH]; intros x s Hx.
  - assert (x = 0%N) as -> by (cbn in Hx; lia). by rewrite pretty_N_go_0.
  - destruct (decide (x = 0%N)) as [->|Hz]; [rewrite pretty_N_go_0; lia|]. rewrite pretty_N_go_step by lia.
    rewrite Nat2N.inj_succ, N.pow_succ_r' in Hx. etrans; [apply IH; apply N.Div0.div_lt_upper_bound; lia|]. unfold slen. cbn. lia.
Qed.

Lemma num_text_literal z : is_number_literal (num_text z) = true.
Proof.
  unfold is_number_literal. pose proof (parse_number_num z "" eq_refl) as Hp. rewrite str_app_nil_r in Hp. by rewrite Hp.
Qed.

Lemma unmarshal_num z old : unmarshal dec_number (num_text z) old = (num_text z, true).
Proof. unfold unmarshal. by rewrite (json_parse_prints 0 _ _ (prints_num 0 z)). Qed.

Lemma slen_drop_zeros s : (slen (drop_zeros s) ≤ slen s)%nat.
Proof.
  induction s as [|a s IH]; [done|]. destruct (decide (a = "0"%char)) as [->|Hne].
  - cbn [drop_zeros]. unfold slen in *. cbn. lia.
  - assert (drop_zeros (String a s) = String a s) as ->; [|done]. by destruct a as [[] [] [] [] [] [] [] []].
Qed.

Lemma num_fits z : 0 ≤ z < 10 ^ 300 → float64_fits (num_text z) = true.
Proof.
  intros Hz. destruct (itoa_parts z) as (Hp & _ & _); [lia|]. unfold float64_fits, num_text. rewrite Hp. rewrite str_app_nil_r.
  change (Z.of_nat (slen "")) with 0. rewrite Z.sub_0_r, Z.add_0_r. destruct (_ =? 0); [done|].
  assert (slen (itoa z) ≤ 301)%nat as Hlen.
  { rewrite itoa_N by lia. unfold pretty, pretty_N. case_decide; [unfold slen; cbn; lia|].
    etrans; [apply (pretty_go_length 300)|unfold slen; cbn; lia].
    change (10 ^ N.of_nat 300)%N with (Z.to_N (10 ^ 300)). apply Z2N.inj_lt; lia. }
  pose proof (slen_drop_zeros (itoa z)). by rewrite (proj2 (Z.leb_le _ _)) by lia.
Qed.

Lemma num_ok z : 0 ≤ z < 10 ^ 300 → number_Float64_ok (num_text z) = true.
Proof. intros Hz. unfold number_Float64_ok. by rewrite num_text_literal, num_fits. Qed.

(** The members of a map under construction: keys that need no repair, values
    that are read. *)
Definition member_ok (d : Z) (k s : string) : Prop := sanitize_utf8 k = k ∧ readable d s.
Definition members_ok (d : Z) (m : members) : Prop := map_Forall (member_ok d) m.

Lemma members_empty d : members_ok d ∅.
Proof. apply map_Forall_empty. Qed.

Lemma members_insert d k s m : sanitize_utf8 k = k → readable d s → members_ok d m → members_ok d (<[k := s]> m).
Proof. intros Hk Hs Hm. by apply map_Forall_insert_2. Qed.

Lemma members_single d k s : sanitize_utf8 k = k → readable d s → members_ok d {[k := s]}.
Proof. intros Hk Hs. by apply map_Forall_singleton. Qed.

Lemma members_insert_some d k o m : sanitize_utf8 k = k → (∀ s, o = Some s → readable d s) → members_ok d m →
  members_ok d (insert_some k o m).
Proof. intros Hk Ho Hm. destruct o as [s|]; [|done]. by apply members_insert; [|apply Ho|]. Qed.

Lemma members_weaken d d' m : d ≤ d' → members_ok d m → members_ok d' m.
Proof. intros Hd Hm k s Hs. destruct (Hm k s Hs) as [Hk Hr]. split; [done|]. by eapply readable_weaken. Qed.

Lemma members_if d (b : bool) m m' : members_ok d m → members_ok d m' → members_ok d (if b then m else m').
Proof. by destruct b. Qed.

Lemma members_readable_map d m : 0 ≤ d → members_ok d m → readable (d + 1) (map_text m).
Proof. intros Hd Hm. apply readable_map; [done|]. intros k s Hs. by apply (Hm k s). Qed.

Lemma members_rawmap d m : 0 ≤ d < max_depth → members_ok d m → unmarshal_rawmap (map_text m) = Some (Some m).
Proof. apply rawmap_reads. Qed.

Lemma readable_str d s : readable d (str_text s).
Proof. eexists. apply prints_str. Qed.
Lemma readable_num d z : readable d (num_text z).
Proof. eexists. apply prints_num. Qed.
Lemma readable_bool d b : readable d (bool_text b).
Proof. eexists. apply prints_bool. Qed.
Lemma readable_true d : readable d "true".
Proof. apply (readable_bool d true). Qed.
Lemma readable_null d : readable d "null".
Proof. eexists. apply prints_null. Qed.
Lemma readable_literal d l : is_number_literal l = true → readable d l.
Proof. intros Hl. eexists. by apply prints_literal. Qed.

Create HintDb readable.
#[local] Hint Resolve readable_str readable_num readable_bool readable_true readable_null readable_literal : readable.

(** Every member of a map built by insertions. *)
Ltac members := repeat first
  [ apply members_insert; [reflexivity| |]
  | apply members_single; [reflexivity|]
  | apply members_insert_some; [reflexivity| |]
  | apply members_empty
  | apply members_if ]; try (by auto with readable);
  try (intros ?s [= <-]; by auto with readable).

Lemma readable_opt {A} d (f : A → string) (o : option A) s : (∀ a, o = Some a → readable d (f a)) → f <$> o = Some s → readable d s.
Proof. intros Hf Hs. destruct o as [a|]; [|done]. injection Hs as <-. by apply Hf. Qed.

(** ** Decoded values are printed as JSON *)

Section Facts.
Context `{Ext}.

(** Numbers that [json.Marshal] prints as number literals. *)
Fixpoint any_printable (v : jv) : bool :=
  match v with
  | JNum l => is_number_literal (json_float l)
  | JArr l => forallb (λ n, any_printable n.2) l
  | JObj l => forallb (λ kv, any_printable kv.2.2) l
  | _ => true
  end.

Fixpoint any_depth (v : jv) : Z :=
  match v with
  | JArr l => 1 + foldr Z.max 0 (List.map (λ n, any_depth n.2) l)
  | JObj l => 1 + foldr Z.max 0 (List.map (λ kv, any_depth kv.2.2) l)
  | _ => 0
  end.

Lemma foldr_max {A} (f : A → Z) (l : list A) d : foldr Z.max 0 (List.map f l) ≤ d → 0 ≤ d ∧ ∀ x, x ∈ l → f x ≤ d.
Proof.
  induction l as [|x l IH]; cbn; intros Hd; [split; [done|set_solver]|]. destruct IH as [? Hl]; [lia|]. split; [lia|].
  intros y [->|Hy]%elem_of_cons; [lia|by apply Hl].
Qed.

Lemma foldl_values (l : list (string * string)) (m0 : gmap string string) P :
  map_Forall (λ _ s, P s) m0 → Forall (λ kv, P kv.2) l →
  map_Forall (λ _ s, P s) (foldl (λ m kv, <[kv.1 := kv.2]> m) m0 l).
Proof.
  revert m0. induction l as [|kv l IH]; intros m0 Hm Hl; [done|]. apply Forall_cons in Hl as [Hkv Hl].
  apply IH; [|done]. by apply map_Forall_insert_2.
Qed.

Lemma any_readable v d : any_printable v = true → any_depth v ≤ d → readable d (any_text v).
Proof.
  revert d. induction v as [|b|l|s|l IH|l IH] using jv_induction; intros d Hp Hd; cbn [any_text]; try (by auto with readable).
  - cbn [any_depth any_printable] in *. destruct (foldr_max (λ n : jnode, any_depth n.2) l (d - 1)) as [H0 Hl]; [lia|].
    replace d with (d - 1 + 1) by lia. destruct (readable_arr (d - 1) (List.map (λ n : jnode, any_text n.2) l)) as (vs & _ & Hv);
      [lia| |by eexists]. apply Forall_fmap, Forall_forall. intros n Hn.
    rewrite forallb_forall in Hp. eapply Forall_forall in IH; [|exact Hn]. apply IH.
    + by apply Hp, list_elem_of_In.
    + by apply Hl.
  - cbn [any_depth any_printable] in *.
    destruct (foldr_max (λ kv : string * jnode, any_depth kv.2.2) l (d - 1)) as [H0 Hl]; [lia|].
    replace d with (d - 1 + 1) by lia. apply readable_map; [lia|]. apply foldl_values; [apply map_Forall_empty|].
    apply Forall_fmap, Forall_forall. intros kv Hkv. rewrite forallb_forall in Hp.
    eapply Forall_forall in IH; [|exact Hkv]. apply IH.
    + by apply Hp, list_elem_of_In.
    + by apply Hl.
Qed.

(** The nesting a form's own values may have: what is put around them stays
    within the decoder's limit. *)
Definition value_depth : Z := 9000.

Definition value_ok (v : option jv) : bool :=
  match v with Some v => any_printable v && (any_depth v <=? value_depth) | None => true end.

Lemma value_readable v : value_ok v = true → readable value_depth (opt_any_text v).
Proof.
  destruct v as [v|]; cbn [value_ok opt_any_text]; [|auto with readable]. intros [Hp Hd%Z.leb_le]%andb_true_iff. by apply any_readable.
Qed.

Definition values_ok (m : option (gmap string (option jv))) : bool :=
  forallb (λ kv, value_ok kv.2) (map_to_list (default ∅ m)).

Lemma values_readable m : values_ok m = true → map_Forall (λ _ s, readable value_depth s) (opt_any_text <$> default ∅ m).
Proof.
  intros Hm k s Hs. rewrite lookup_fmap in Hs. destruct (default ∅ m !! k) as [v|] eqn:Hv; [|done]. injection Hs as <-.
  apply value_readable. unfold values_ok in Hm. rewrite forallb_forall in Hm. apply (Hm (k, v)).
  by apply list_elem_of_In, elem_of_map_to_list.
Qed.

(** ** What the builders build *)

Definition float32_ok (o : option f64) : bool :=
  match o with Some x => is_number_literal (json_float32 x) | None => true end.

Definition approval_ok (a : option publicApproval) : bool :=
  match a with Some config => float32_ok (pa_Confidence config) && values_ok (pa_Context config) | None => true end.

Lemma float32_readable d o s : float32_ok o = true → json_float32 <$> o = Some s → readable d s.
Proof. intros Ho Hs. destruct o as [x|]; [|done]. injection Hs as <-. by apply readable_literal. Qed.

Lemma num_option_readable d (o : option Z) s : num_text <$> o = Some s → readable d s.
Proof. intros Hs. destruct o; [|done]. injection Hs as <-. auto with readable. Qed.

(** Maps with keys of any kind around a map of values. *)
Lemma readable_insert (d : Z) k s (m : members) : readable d s → map_Forall (λ _ s, readable d s) m →
  map_Forall (λ _ s, readable d s) (<[k := s]> m).
Proof. intros. by apply map_Forall_insert_2. Qed.

Lemma readable_cond (P : members → Prop) (b : bool) m m' : P m → P m' → P (if b then m else m').
Proof. by destruct b. Qed.

Lemma approval_members a taskName action idx m : approval_ok a = true → buildTaskApproval a taskName action idx = Some m →
  members_ok (value_depth + 1) m.
Proof.
  unfold buildTaskApproval. destruct a as [config|]; [|done]. cbn [mbind option_bind approval_ok].
  intros [Hc Hv]%andb_true_iff [= <-]. apply members_insert; [reflexivity|auto with readable|].
  assert (members_ok (value_depth + 1) (insert_some "confidence" (json_float32 <$> pa_Confidence config)
    {["required" := bool_text (pa_Required config)]})) as Hbase.
  { members. intros s. by apply float32_readable. }
  destruct (pa_Context config) as [ctx|]; [|done]. destruct (size ctx =? 0)%nat; [done|].
  apply members_insert; [reflexivity| |done]. apply readable_map; [done|].
  pose proof (values_readable _ Hv) as Hctx. cbn [default] in Hctx.
  repeat first [apply (readable_cond (map_Forall (λ _ s, readable value_depth s)))|apply readable_insert; [by auto with readable|]|exact Hctx].
Qed.

Lemma memory_members d mem m : buildAgentMemory mem = Some m → members_ok d m.
Proof.
  unfold buildAgentMemory. destruct mem as [mem|]; [|done]. cbn [mbind option_bind]. destruct (size _ =? 0)%nat; [done|]. intros [= <-].
  members; intros s; apply num_option_readable.
Qed.

Definition agent_step_printable (step : publicAgentStep) : bool := float32_ok (st_Temperature step) && approval_ok (st_Approval step).

Lemma options_members taskName action idx step m : agent_step_printable step = true → members_ok (value_depth + 2) m →
  members_ok (value_depth + 2) (agent_options taskName action idx step m).
Proof.
  intros [Ht Ha]%andb_true_iff Hm. unfold agent_options. members; try exact Hm; intros s;
    first [apply num_option_readable|by apply float32_readable|apply readable_opt; intros a Hb;
      apply (members_readable_map (value_depth + 1)); [done|]; first [by eapply approval_members|by eapply memory_members]].
Qed.

Lemma messages_prints messages : ∃ vs, prints 2 (buildAgentMessages messages) (JArr (zip (message_text <$> messages) vs)) ∧
  length vs = length messages.
Proof.
  unfold buildAgentMessages. destruct (readable_arr 1 (message_text <$> messages)) as (vs & Hvs & Hp); [done| |].
  - apply Forall_fmap, Forall_forall. intros msg _. unfold message_text. apply (members_readable_map 0); [done|]. members.
  - exists vs. split; [exact Hp|]. apply Forall2_length in Hvs. by rewrite length_fmap in Hvs.
Qed.

Lemma readable_messages d messages : 2 ≤ d → readable d (buildAgentMessages messages).
Proof. intros Hd. destruct (messages_prints messages) as (vs & Hp & _). eexists. by eapply prints_weaken. Qed.

Lemma step_members idx taskName step : agent_step_printable step = true →
  members_ok (value_depth + 2) (buildAgentStepDefinition idx taskName step).
Proof. intros Hs. apply options_members; [done|]. members. by apply readable_messages. Qed.

Lemma reason_members idx taskName step : agent_step_printable step = true →
  members_ok (value_depth + 2) (buildAgentReasonNode idx taskName step).
Proof.
  intros Hs. unfold buildAgentReasonNode. apply members_insert; [reflexivity|auto with readable|]. apply options_members; [done|].
  members. by apply readable_messages.
Qed.

(** ** What the validator looks for *)

Lemma insert_some_ne k j o (m : members) : j ≠ k → insert_some k o m !! j = m !! j.
Proof. intros Hne. destruct o; [|done]. cbn. by rewrite lookup_insert_ne. Qed.

Lemma insert_if_ne (b : bool) k j v (m : members) : j ≠ k → (if b then <[k := v]> m else m) !! j = m !! j.
Proof. intros Hne. destruct b; [|done]. by rewrite lookup_insert_ne. Qed.

Definition option_names : list string := ["max_tokens"; "temperature"; "mode"; "memory"; "approval"].

Lemma options_lookup taskName action idx step m k : k ∉ option_names → agent_options taskName action idx step m !! k = m !! k.
Proof.
  intros Hk. unfold option_names in Hk. rewrite !not_elem_of_cons in Hk. destruct Hk as (? & ? & ? & ? & ? & _).
  unfold agent_options. by rewrite insert_some_ne, insert_some_ne, insert_if_ne, insert_some_ne, insert_some_ne.
Qed.

Lemma text_field (m : members) k s : m !! k = Some (str_text s) → s ≠ "" → has_text (Some m) k.
Proof.
  intros Hk Hs. exists (sanitize_utf8 s). split; [|by apply sanitize_nonempty]. exists (str_text s). split; [done|apply unmarshal_str].
Qed.

Lemma string_field (m : members) k s : m !! k = Some (str_text s) → decodes (Some m) dec_string "" k (sanitize_utf8 s).
Proof. intros Hk. exists (str_text s). split; [done|apply unmarshal_str]. Qed.

Lemma number_field (m : members) k z : m !! k = Some (num_text z) → 0 ≤ z < 10 ^ 300 → has_number (Some m) k.
Proof. intros Hk Hz. exists (num_text z). split; [|by apply num_ok]. exists (num_text z). split; [done|apply unmarshal_num]. Qed.

Lemma literal_field (m : members) k l : m !! k = Some l → number_Float64_ok l = true → has_number (Some m) k.
Proof.
  intros Hk Hl. pose proof Hl as [Hlit _]%andb_true_iff. exists l. split; [|done]. exists l. split; [done|].
  unfold unmarshal. by rewrite (json_parse_prints 0 _ _ (prints_literal 0 l Hlit)).
Qed.

Lemma array_decodes d l vs : 0 ≤ d < max_depth → Forall2 (prints d) l vs →
  unmarshal (dec_list "" dec_raw) (arr_text l) [] = (l, true).
Proof.
  intros Hd Hl. unfold unmarshal. rewrite (json_parse_prints (d + 1) _ (JArr (zip l vs))); [|apply prints_arr; [lia|done]|lia].
  unfold dec_list. cbn [snd]. apply Forall2_length in Hl. rewrite <-list_fmap_compose. f_equal.
  - revert vs Hl. induction l as [|x l IH]; intros [|v vs] Hl; [done..|]. cbn. f_equal. apply IH. cbn in Hl. lia.
  - apply forallb_forall. intros p Hp%list_elem_of_In. by apply list_elem_of_fmap in Hp as (x & -> & _).
Qed.

Lemma messages_field (m : members) messages : m !! "messages" = Some (buildAgentMessages messages) → has_array (Some m) "messages".
Proof.
  intros Hm. exists (message_text <$> messages). exists (buildAgentMessages messages). split; [done|].
  destruct (readable_arr 1 (message_text <$> messages)) as (vs & Hvs & _); [done| |].
  - apply Forall_fmap, Forall_forall. intros msg _. unfold message_text. apply (members_readable_map 0); [done|]. members.
  - by eapply (array_decodes 1).
Qed.

(** An array of objects. *)
Lemma elements_field (m : members) k d (l : list members) P : 0 ≤ d < max_depth - 1 → m !! k = Some (arr_text (map_text <$> l)) → l ≠ [] →
  Forall (members_ok d) l → Forall (λ x, P (Some x)) l → elements_ok (Some m) k P.
Proof.
  intros Hd Hk Hne Hl HP. exists (map_text <$> l). split_and!.
  - exists (arr_text (map_text <$> l)). split; [done|].
    destruct (readable_arr (d + 1) (map_text <$> l)) as (vs & Hvs & _); [lia| |eapply (array_decodes (d + 1)); [lia|done]].
    apply Forall_fmap. eapply Forall_impl; [exact Hl|]. intros x Hx. apply members_readable_map; [lia|done].
  - by destruct l.
  - apply Forall_fmap, Forall_forall. intros x Hx. exists (Some x). rewrite Forall_forall in Hl, HP.
    split; [apply (members_rawmap d); [lia|by apply Hl]|by apply HP].
Qed.

(** A checkpoint interval: absent, or a positive [uint32]. *)
Lemma unmarshal_uint z : 0 ≤ z ≤ uint32_max → unmarshal (dec_uint 64) (num_text z) 0 = (z, true).
Proof.
  intros Hz. unfold unmarshal. rewrite (json_parse_prints 0 _ _ (prints_num 0 z)) by done. unfold dec_uint. cbn [snd].
  unfold num_text. rewrite itoa_N by lia. unfold uint32_max in *. rewrite parse_uint_pretty by lia. by rewrite Z2N.id by lia.
Qed.

Definition uint32_ok (o : option Z) : bool :=
  match o with Some z => (0 <=? z) && (z <=? uint32_max) | None => true end.

Lemma checkpoint_field (m : members) o : uint32_ok o = true → m !! "checkpoint_after_steps" = num_text <$> o →
  positive_uint32 (Some m) "checkpoint_after_steps" ↔ o ≠ Some 0.
Proof.
  intros Ho Hm. unfold positive_uint32, absent_or. change (raw_get (Some m) ?k) with (m !! k). rewrite Hm.
  destruct o as [z|]; cbn [fmap option_fmap option_map uint32_ok] in *; [|split; [done|by left]].
  apply andb_true_iff in Ho as [H0%Z.leb_le H1%Z.leb_le]. split.
  - intros [?|(z' & (raw & Hraw & Hu) & Hz')]; [done|]. change (raw_get (Some m) ?k) with (m !! k) in Hraw. rewrite Hm in Hraw.
    injection Hraw as <-. rewrite unmarshal_uint in Hu by done. injection Hu as <-. intros [= ->]. lia.
  - intros Hne. right. exists z. split; [|split; [assert (z ≠ 0) by congruence; lia|done]]. exists (num_text z). split; [exact Hm|].
    by apply unmarshal_uint.
Qed.

(** ** Nodes and steps *)

Lemma app_nonempty_r s t : t ≠ "" → s +:+ t ≠ "".
Proof. by destruct s. Qed.

Lemma slot_nonempty a domain idx nodeID : defaultGraphWriteSlot (String a domain) idx nodeID ≠ "".
Proof. unfold defaultGraphWriteSlot. by destruct (nonempty _). Qed.

(** The fields every node has. *)
Lemma node_fields (m : members) nodeID a domain idx kind :
  m !! "node_id" = Some (str_text nodeID) → nodeID ≠ "" → m !! "write_slot" = Some (str_text (defaultGraphWriteSlot (String a domain) idx nodeID)) →
  m !! "read_slots" = None → m !! "effect_class" = None → m !! "kind" = Some (str_text kind) → sanitize_utf8 kind = kind →
  (kind = "reason" ∧ has_text (Some m) "model" ∧ has_array (Some m) "messages" ∨ kind = "robotics" ∧ robotics_ok (Some m) ∨
   kind = "tool" ∧ has_text (Some m) "tool_name") → node_ok (Some m).
Proof.
  intros Hid Hne Hslot Hread Heff Hkind Hsan Hcase. split_and!; [by eapply text_field| |by left|].
  - split; [right|by left]. eapply text_field; [done|apply slot_nonempty].
  - exists kind. split; [|naive_solver]. pose proof (string_field m "kind" kind Hkind) as Hk. by rewrite Hsan in Hk.
Qed.

Lemma node_name_nonempty taskName fallback idx : node_name taskName fallback idx ≠ "".
Proof. apply app_nonempty_r. done. Qed.

Lemma reason_ok idx taskName step : st_Model step ≠ "" → node_ok (Some (buildAgentReasonNode idx taskName step)).
Proof.
  intros Hm. unfold buildAgentReasonNode.
  assert (∀ k, k ≠ "checkpoint_key" → k ∉ option_names → ∀ m, <["checkpoint_key" := str_text (checkpoint_name taskName "reason" idx)]>
    (agent_options taskName "reason" idx step m) !! k = m !! k) as Hl.
  { intros k H1 H2 m. rewrite lookup_insert_ne by done. by apply options_lookup. }
  eapply (node_fields _ (node_name taskName "reason" idx) "r"%char "eason" idx "reason");
    [rewrite Hl by (done || by apply (bool_decide_unpack _)); by simplify_map_eq|apply node_name_nonempty
    |rewrite Hl by (done || by apply (bool_decide_unpack _)); by simplify_map_eq..|done|].
  left. split_and!; [done| |].
  - eapply text_field; [|exact Hm]. rewrite Hl by (done || by apply (bool_decide_unpack _)). by simplify_map_eq.
  - eapply messages_field. rewrite Hl by (done || by apply (bool_decide_unpack _)). by simplify_map_eq.
Qed.

Lemma agent_step_fields idx taskName step : st_Model step ≠ "" → 0 ≤ idx < 10 ^ 300 →
  agent_step_ok (Some (buildAgentStepDefinition idx taskName step)).
Proof.
  intros Hm Hi. unfold buildAgentStepDefinition. split_and!.
  - eapply number_field; [|exact Hi]. rewrite options_lookup by (by apply (bool_decide_unpack _)). by simplify_map_eq.
  - eapply text_field; [|exact Hm]. rewrite options_lookup by (by apply (bool_decide_unpack _)). by simplify_map_eq.
  - eapply messages_field. rewrite options_lookup by (by apply (bool_decide_unpack _)). by simplify_map_eq.
Qed.

(** ** Missions *)

Definition robotics_names : list string := ["action"; "goal"; "prompt"; "linear_x"; "angular_z"].

Lemma robotics_same (m m' : members) : (∀ k, k ∈ robotics_names → m' !! k = m !! k) → robotics_ok (Some m) → robotics_ok (Some m').
Proof.
  intros Hk. unfold robotics_ok, has_text, has_number, decodes, raw_get. cbn [mbind option_bind].
  by rewrite !Hk by (by apply (bool_decide_unpack _)).
Qed.

Definition waypoint_ok (w : publicMissionGoal) : bool :=
  number_Float64_ok (json_float (mg_X w)) && number_Float64_ok (json_float (mg_Y w)) &&
  is_number_literal (json_float (mg_Z w)) && is_number_literal (json_float (mg_OrientationW w)).

Definition velocity_ok (v : option publicVelocityStep) : bool :=
  match v with
  | Some v => number_Float64_ok (json_float (vs_LinearX v)) && number_Float64_ok (json_float (vs_AngularZ v))
  | None => true
  end.

Definition mission_printable (mission : publicRoboticsMission) : bool :=
  approval_ok (rm_Approval mission) && forallb waypoint_ok (rm_Waypoints mission) && velocity_ok (rm_PublishVelocity mission) &&
  (Z.of_nat (length (mission_actions mission)) <? 10 ^ 300).

Lemma number_literal l : number_Float64_ok l = true → is_number_literal l = true.
Proof. unfold number_Float64_ok. by intros [? _]%andb_true_iff. Qed.

Lemma goal_fields w : waypoint_ok w = true → ∃ goal, goal_text w = map_text goal ∧ members_ok 0 goal ∧
  has_number (Some goal) "x" ∧ has_number (Some goal) "y".
Proof.
  unfold waypoint_ok. rewrite !andb_true_iff. intros [[[Hx Hy] Hz] Hw]. unfold goal_text. eexists. split; [reflexivity|].
  pose proof (number_literal _ Hx). pose proof (number_literal _ Hy). split_and!; [members| |].
  - eapply literal_field; [|exact Hx]. repeat (first [rewrite insert_if_ne by done|destruct (float_zero _)]); by simplify_map_eq.
  - eapply literal_field; [|exact Hy]. repeat (first [rewrite insert_if_ne by done|destruct (float_zero _)]); by simplify_map_eq.
Qed.

(** An action of a mission, wherever it is put. *)
Definition action_good (m : members) : Prop :=
  members_ok (value_depth + 2) m ∧ robotics_ok (Some m) ∧ m !! "read_slots" = None ∧ m !! "effect_class" = None.

Lemma mission_action_good mission action idx m : approval_ok (rm_Approval mission) = true → members_ok (value_depth + 2) m →
  m !! "read_slots" = None → m !! "effect_class" = None → robotics_ok (Some (<["action" := str_text action]> m)) →
  action_good (mission_action mission action idx m).
Proof.
  intros Ha Hm Hr He Hok. unfold mission_action. split_and!.
  - members. intros s. apply readable_opt. intros a Hb. apply (members_readable_map (value_depth + 1)); [done|].
    by eapply approval_members.
  - eapply robotics_same; [|exact Hok]. intros k Hk. apply insert_some_ne. intros ->.
    by apply (bool_decide_unpack (¬ ("approval" ∈ robotics_names))) in Hk.
  - rewrite insert_some_ne, lookup_insert_ne by done. done.
  - rewrite insert_some_ne, lookup_insert_ne by done. done.
Qed.

Lemma mission_actions_good mission : mission_printable mission = true → Forall action_good (mission_actions mission).
Proof.
  unfold mission_printable. rewrite !andb_true_iff. intros [[[Ha Hw] Hv] _]. unfold mission_actions. rewrite !Forall_app.
  split_and!.
  - apply Forall_forall. intros m (i & w & -> & Hi)%elem_of_lookup_imap. apply list_elem_of_lookup_2 in Hi.
    rewrite forallb_forall in Hw. destruct (goal_fields w) as (goal & Hg & Hgm & Hx & Hy); [by apply Hw, list_elem_of_In|].
    assert (readable (value_depth + 2) (goal_text w)) as Hread.
    { rewrite Hg. eapply readable_weaken; [|by apply (members_readable_map 0)]. done. }
    apply mission_action_good; [done| |rewrite insert_some_ne by done; by simplify_map_eq..|].
    + members. intros s. apply num_option_readable.
    + exists "navigate_to_pose". split; [eapply (string_field _ "action" "navigate_to_pose"); by simplify_map_eq|]. left. split; [done|].
      exists (goal_text w), (Some goal). split_and!; [|rewrite Hg; by apply (members_rawmap 0)|done..].
      change (raw_get (Some ?m) ?k) with (m !! k). rewrite lookup_insert_ne, insert_some_ne by done. by simplify_map_eq.
  - destruct (nonempty (rm_Prompt mission)) eqn:Hp; [|constructor]. constructor; [|constructor].
    apply mission_action_good; [done|members|by simplify_map_eq..|]. exists "publish_prompt".
    split; [eapply (string_field _ "action" "publish_prompt"); by simplify_map_eq|]. right. left. split; [done|].
    eapply text_field; [by simplify_map_eq|]. intros He. by rewrite He in Hp.
  - destruct (rm_PublishVelocity mission) as [v|]; [|constructor]. apply andb_true_iff in Hv as [Hx Hz].
    pose proof (number_literal _ Hx). pose proof (number_literal _ Hz). constructor; [|constructor].
    apply mission_action_good; [done|members|by simplify_map_eq..|]. exists "publish_velocity".
    split; [eapply (string_field _ "action" "publish_velocity"); by simplify_map_eq|]. right. right. left.
    split_and!; [done|eapply literal_field; [|exact Hx]; by simplify_map_eq|eapply literal_field; [|exact Hz]; by simplify_map_eq].
  - destruct (rm_EmitZeroVelocityOnFinish mission); [|constructor]. constructor; [|constructor].
    apply mission_action_good; [done|apply members_empty|by simplify_map_eq..|]. exists "publish_zero_velocity".
    split; [eapply (string_field _ "action" "publish_zero_velocity"); by simplify_map_eq|]. do 3 right. by apply (bool_decide_unpack _).
Qed.

(** Indices of a mission's actions. *)
Lemma mission_index mission i m : mission_printable mission = true → mission_actions mission !! i = Some m → 0 ≤ Z.of_nat i < 10 ^ 300.
Proof.
  unfold mission_printable. rewrite !andb_true_iff. intros [_ Hl%Z.ltb_lt] Hi%lookup_lt_Some. lia.
Qed.

Lemma robotics_step_good i m : action_good m → 0 ≤ Z.of_nat i + 1 < 10 ^ 300 →
  members_ok (value_depth + 2) (robotics_step i m) ∧ has_number (Some (robotics_step i m)) "step_index" ∧
  robotics_ok (Some (robotics_step i m)).
Proof.
  intros (Hm & Hok & _ & _) Hi. unfold robotics_step. split_and!; [members| |].
  - eapply number_field; [|exact Hi]. by simplify_map_eq.
  - eapply robotics_same; [|exact Hok]. intros k Hk. apply lookup_insert_ne. intros <-.
    by apply (bool_decide_unpack (¬ ("step_index" ∈ robotics_names))) in Hk.
Qed.

Lemma robotics_node_good mission i m : action_good m →
  members_ok (value_depth + 2) (robotics_node mission i m) ∧ node_ok (Some (robotics_node mission i m)).
Proof.
  intros (Hm & Hok & Hr & He). unfold robotics_node. cbv zeta. split; [members|].
  eapply (node_fields _ (node_name (rm_Name mission) "robotics" (Z.of_nat i)) "r"%char "obotics" (Z.of_nat i) "robotics");
    [by simplify_map_eq|apply node_name_nonempty|by simplify_map_eq..|done|].
  right. left. split; [done|]. eapply robotics_same; [|exact Hok]. intros k Hk.
  assert (∀ j, j ∉ robotics_names → j ≠ k) as Hj by (intros j Hj ->; done).
  rewrite !lookup_insert_ne by (apply Hj; by apply (bool_decide_unpack _)). done.
Qed.

(** ** Action tasks *)

Definition action_step_printable (step : publicActionStep) : bool := values_ok (as_Record step).

Lemma action_tool_good idx action step tool args : action_step_printable step = true → action_tool idx action step = Ok (tool, args) →
  members_ok (value_depth + 1) args ∧ tool ≠ "" ∧ sanitize_utf8 tool = tool.
Proof.
  intros Hs. unfold action_tool. case_bool_decide; [|case_bool_decide; [|case_bool_decide; [|done]]]; (case_bool_decide; [done|]);
    intros [= <- <-]; (split_and!; [|done..]).
  - members.
  - members. apply (readable_map value_depth); [done|]. intros k s Hk. rewrite lookup_fmap in Hk.
    destruct (default ∅ (as_Headers step) !! k); [|done]. injection Hk as <-. auto with readable.
  - members. apply (readable_map value_depth); [done|]. by apply values_readable.
Qed.

Lemma action_node_good name idx step node : action_step_printable step = true → action_node name idx step = Ok node →
  members_ok (value_depth + 2) node ∧ node_ok (Some node).
Proof.
  intros Hs. unfold action_node. case_bool_decide as Hne; [done|]. set (action := ToLower (TrimSpace (as_Action step))) in *.
  destruct (action_tool idx action step) as [[tool args]|e] eqn:Ht; [|done]. cbn. intros [= <-].
  destruct (action_tool_good _ _ _ _ _ Hs Ht) as (Hargs & Htool & _).
  assert (readable (value_depth + 2) (map_text args)) as Hr by (by apply (members_readable_map (value_depth + 1))).
  split; [members|].
  eapply (node_fields _ (action +:+ "-" +:+ itoa (Z.of_nat idx)) "a"%char "ction" (Z.of_nat idx) "tool");
    [by simplify_map_eq|by apply app_nonempty_r|by simplify_map_eq..|done|].
  right. right. split; [done|]. eapply text_field; [|exact Htool]. by simplify_map_eq.
Qed.

Lemma action_nodes_good name idx steps nodes : forallb action_step_printable steps = true → action_nodes name idx steps = Ok nodes →
  length nodes = length steps ∧ Forall (λ m, members_ok (value_depth + 2) m ∧ node_ok (Some m)) nodes.
Proof.
  revert idx nodes. induction steps as [|step steps IH]; intros idx nodes; cbn [action_nodes forallb]; [intros _ [= <-]; done|].
  intros [Hs Hl]%andb_true_iff. destruct (action_node name idx step) as [node|] eqn:Hn; [|done]. cbn.
  destruct (action_nodes name (S idx) steps) as [rest|] eqn:Hr; [|done]. intros [= <-].
  destruct (IH _ _ Hl Hr) as [Hlen Hrest]. split; [cbn; by rewrite Hlen|]. constructor; [by eapply action_node_good|done].
Qed.

(** ** Definitions *)

(** The text is the object [m] and the validator accepts it exactly when [Q]. *)
Definition compiled (ty d : string) (Q : Prop) : Prop :=
  ∃ m : members, d = map_text m ∧ members_ok (value_depth + 5) m ∧ (validateTaskDefinition ty (Some m) = Ok tt ↔ Q).

Lemma graph_compiled name nodes cp : nodes ≠ [] → uint32_ok cp = true →
  Forall (λ m, members_ok (value_depth + 2) m ∧ node_ok (Some m)) nodes →
  compiled "execution_graph" (buildExecutionGraphDefinition name nodes cp) (cp ≠ Some 0).
Proof.
  intros Hne Hcp Hnodes. unfold buildExecutionGraphDefinition.
  set (graph := if nonempty name then <["graph_id" := str_text name]> {["nodes" := arr_text (map_text <$> nodes)]}
                else {["nodes" := arr_text (map_text <$> nodes)]}).
  assert (graph !! "nodes" = Some (arr_text (map_text <$> nodes))) as Hlookup.
  { unfold graph. rewrite insert_if_ne by done. by simplify_map_eq. }
  assert (Forall (members_ok (value_depth + 2)) nodes) as Hok by (eapply Forall_impl; [exact Hnodes|]; by intros m [? _]).
  assert (members_ok (value_depth + 4) graph) as Hgraph.
  { unfold graph. assert (readable (value_depth + 4) (arr_text (map_text <$> nodes))) as Harr; [|members].
    destruct (readable_arr (value_depth + 3) (map_text <$> nodes)) as (vs & _ & Hv); [done| |by eexists].
    apply Forall_fmap. eapply Forall_impl; [exact Hok|]. intros m Hm. by apply (members_readable_map (value_depth + 2)). }
  eexists. split; [reflexivity|]. split.
  - members; [intros s; apply num_option_readable|]. by apply (members_readable_map (value_depth + 4)).
  - rewrite validate_ok. set (m := insert_some _ _ _).
    assert (m !! "checkpoint_after_steps" = num_text <$> cp) as Hm1.
    { unfold m. destruct cp; cbn; by simplify_map_eq. }
    assert (m !! "graph" = Some (map_text graph)) as Hm2 by (unfold m; rewrite insert_some_ne by done; by simplify_map_eq).
    assert (m !! "continue_after_checkpoint" = None) as Hm3 by (unfold m; rewrite insert_some_ne by done; by simplify_map_eq).
    rewrite <-(checkpoint_field m cp Hcp Hm1). unfold well_formed. split.
    + intros [[? _]|[[? _]|[[? _]|[[? _]|(_ & Hp & _)]]]]; done.
    + intros Hp. do 4 right. split_and!; [done|done|by left|]. exists (map_text graph), (Some graph). split_and!; [done| |].
      * by apply (members_rawmap (value_depth + 4)).
      * apply (elements_field _ _ (value_depth + 2) nodes); [done|done|done|done|]. eapply Forall_impl; [exact Hnodes|]. by intros x [_ ?].
Qed.
End Facts.
