(* ===== verification/SubmissionTheorems.v ===== *)
(** * The forms of a submission agree with the coordinator

    What each public form is compiled to, and that the coordinator accepts it
    exactly when it has a type and no empty checkpoint interval. *)

From S2P Require Import Prelude GoStrings Json JsonFacts JsonRoundTrip GoTime Float64 Ext WalCodec.
From S2P Require Import Checkpoint Types.
From S2P Require Import Capability Governance TaskDef Store InputRefs InputRefsFacts CoordState.
From S2P Require Import Coordinator Submission.
From S2P Require Import SubmissionFacts.
Open Scope Z_scope.

Section Theorems.
Context `{Ext}.

(** ** The texts are accepted by the encoder *)

Lemma readable_raw d s : readable d s → d ≤ max_depth → is_ok (marshal_raw s) = true.
Proof.
  intros [v Hv] Hd. unfold marshal_raw, json_valid. rewrite (json_parse_prints d s v Hv Hd). by case_bool_decide.
Qed.

Lemma marshal_members d m : d ≤ max_depth → members_ok d m → is_Some (marshal_rawmap m).
Proof.
  intros Hd Hm. unfold marshal_rawmap. assert (forallb (λ kv, is_ok (marshal_raw kv.2)) (map_to_list m) = true) as ->; [|by eexists].
  apply forallb_forall. intros [k s] Hk%list_elem_of_In%elem_of_map_to_list. destruct (Hm k s Hk) as [_ Hs].
  by apply (readable_raw d).
Qed.

Lemma compiled_iff ty d Q Q' : compiled ty d Q → (Q ↔ Q') → compiled ty d Q'.
Proof. intros (m & Hd & Hm & HQ) Hq. exists m. by rewrite HQ. Qed.

(** The coordinator's normalization of a compiled text. *)
Lemma compiled_accepted ty d Q : compiled ty d Q → (∃ n, normalizePublicTaskDefinition ty d = Some (Ok n)) ↔ Q.
Proof.
  intros (m & -> & Hm & HQ). rewrite <-HQ. unfold normalizePublicTaskDefinition.
  rewrite (members_rawmap (value_depth + 5)) by done. destruct (validateTaskDefinition ty (Some m)) as [[]|e].
  - cbn [mbind option_bind]. destruct (marshal_members (value_depth + 5) (<["type" := str_text ty]> m)) as [n ->]; [done| |].
    + apply members_insert; [done|apply readable_str|done].
    + split; [done|]. intros _. by exists n.
  - split; [by intros (n & Hn)|done].
Qed.

(** ** Agent tasks *)

Definition agent_printable (task : publicAgentTask) : bool :=
  forallb agent_step_printable (ag_Steps task) && agent_step_printable (task_as_step task) &&
  uint32_ok (ag_CheckpointAfterSteps task) && (Z.of_nat (length (ag_Steps task)) <? 10 ^ 300 - 1).

Lemma messages_required model messages : requirePublicAgentMessages model messages = Ok tt → model ≠ "".
Proof. unfold requirePublicAgentMessages. by case_bool_decide. Qed.

(** Steps that pass the check, built by a builder that is right on them. *)
Definition builder_ok (build : Z → publicAgentStep → members) (P : members → Prop) : Prop :=
  ∀ i step, agent_step_printable step = true → st_Model step ≠ "" → 0 ≤ i < 10 ^ 300 → P (build i step).

Lemma build_steps_good build P first steps idx out : builder_ok build P → forallb agent_step_printable steps = true →
  0 ≤ first → first + Z.of_nat idx + Z.of_nat (length steps) ≤ 10 ^ 300 →
  build_steps build idx first steps = Ok out → length out = length steps ∧ Forall P out.
Proof.
  intros HP. revert idx out. induction steps as [|step steps IH]; intros idx out; cbn [build_steps forallb length].
  { intros _ _ _ [= <-]. done. }
  intros [Hs Hl]%andb_true_iff Hf Hb. destruct (requirePublicAgentMessages _ _) as [[]|] eqn:Hm; [|done].
  destruct (build_steps build (S idx) first steps) as [rest|] eqn:Hr; [|done]. intros [= <-].
  destruct (IH (S idx) rest Hl Hf) as [Hlen Hrest]; [lia|done|]. split; [cbn; by rewrite Hlen|]. constructor; [|done].
  apply HP; [done|by eapply messages_required|lia].
Qed.

Lemma agent_steps_good build P first task out : builder_ok build P → agent_printable task = true → 0 ≤ first ≤ 1 →
  agent_steps build first task = Ok out → out ≠ [] ∧ Forall P out.
Proof.
  unfold agent_printable. rewrite !andb_true_iff. intros HP [[[Hs Ht] _] Hl%Z.ltb_lt] Hf. unfold agent_steps.
  destruct (ag_Steps task) as [|step steps] eqn:Hsteps.
  - destruct (requirePublicAgentMessages _ _) as [[]|] eqn:Hm; [|done]. cbn. intros [= <-]. split; [done|].
    constructor; [|done]. apply HP; [done|by eapply messages_required|lia].
  - intros Hb. destruct (build_steps_good build P first (step :: steps) 0 out) as [Hlen Hout]; [done..|lia|lia|done|].
    split; [|done]. by destruct out.
Qed.

Lemma builder_reason taskName : builder_ok (λ i step, buildAgentReasonNode i taskName step)
  (λ m, members_ok (value_depth + 2) m ∧ node_ok (Some m)).
Proof. intros i step Hs Hm _. split; [by apply reason_members|by apply reason_ok]. Qed.

Lemma builder_step taskName : builder_ok (λ i step, buildAgentStepDefinition i taskName step)
  (λ m, members_ok (value_depth + 2) m ∧ agent_step_ok (Some m)).
Proof. intros i step Hs Hm Hi. split; [by apply step_members|by apply agent_step_fields]. Qed.

(** An array of compiled elements under a key. *)
Lemma elements_readable (P : rawmap → Prop) (l : list members) :
  Forall (λ m, members_ok (value_depth + 2) m ∧ P (Some m)) l → readable (value_depth + 4) (arr_text (map_text <$> l)).
Proof.
  intros Hl. destruct (readable_arr (value_depth + 3) (map_text <$> l)) as (vs & _ & Hv); [done| |by eexists].
  apply Forall_fmap. eapply Forall_impl; [exact Hl|]. intros m [Hm _]. by apply (members_readable_map (value_depth + 2)).
Qed.

Lemma compiled_elements (m : members) k P (l : list members) : m !! k = Some (arr_text (map_text <$> l)) → l ≠ [] →
  Forall (λ m, members_ok (value_depth + 2) m ∧ P (Some m)) l → elements_ok (Some m) k P.
Proof.
  intros Hk Hne Hl. apply (elements_field _ _ (value_depth + 2) l); [done|done|done|..];
    (eapply Forall_impl; [exact Hl|]; by intros x [? ?]).
Qed.

Lemma workflow_compiled task steps : steps ≠ [] → uint32_ok (ag_CheckpointAfterSteps task) = true →
  Forall (λ m, members_ok (value_depth + 2) m ∧ agent_step_ok (Some m)) steps →
  compiled "agent_workflow" (map_text (insert_some "checkpoint_after_steps" (num_text <$> ag_CheckpointAfterSteps task)
    {["steps" := arr_text (map_text <$> steps)]})) (ag_CheckpointAfterSteps task ≠ Some 0).
Proof.
  intros Hne Hcp Hsteps. eexists. split; [reflexivity|]. split.
  - apply (members_weaken (value_depth + 4)); [done|]. members; [intros s; apply num_option_readable|]. by eapply elements_readable.
  - rewrite validate_ok. set (m := insert_some _ _ _).
    assert (m !! "checkpoint_after_steps" = num_text <$> ag_CheckpointAfterSteps task) as Hm1.
    { unfold m. destruct (ag_CheckpointAfterSteps task); cbn; by simplify_map_eq. }
    assert (m !! "steps" = Some (arr_text (map_text <$> steps))) as Hm2 by (unfold m; rewrite insert_some_ne by done; by simplify_map_eq).
    rewrite <-(checkpoint_field m _ Hcp Hm1). unfold well_formed. split.
    + intros [[? _]|[(_ & Hp & _)|[[? _]|[[? _]|[? _]]]]]; done.
    + intros Hp. right. left. split_and!; [done|done|]. by eapply compiled_elements.
Qed.

Lemma readable_option {A} d (f : A → string) (o : option A) : (∀ a, o = Some a → readable d (f a)) →
  readable d (match o with Some a => f a | None => "null" end).
Proof. intros Ho. destruct o as [a|]; [by apply Ho|apply readable_null]. Qed.

Lemma inference_compiled task : agent_step_printable (task_as_step task) = true → ag_Model task ≠ "" →
  compiled "single_inference" (map_text (<["model" := str_text (ag_Model task)]> (<["messages" := buildAgentMessages (ag_Messages task)]>
    (<["max_tokens" := optionalUint32 (ag_MaxTokens task)]> (<["temperature" := optionalFloat32 (ag_Temperature task)]>
    (<["mode" := optionalString (ag_Mode task)]> (<["memory" := opt_map_text (buildAgentMemory (ag_Memory task))]>
    {["approval" := opt_map_text (buildTaskApproval (ag_Approval task) (ag_Name task) "single_inference" 0)]}))))))) True.
Proof.
  intros [Ht Ha]%andb_true_iff Hm. cbn [st_Temperature st_Approval task_as_step] in *. eexists. split; [reflexivity|]. split.
  - apply (members_weaken (value_depth + 2)); [done|].
    repeat first [apply members_insert; [reflexivity| |]|apply members_empty].
    + apply readable_str.
    + by apply readable_messages.
    + apply readable_option. intros a _. apply readable_num.
    + apply (readable_option _ json_float32). intros a Heq. rewrite Heq in Ht. by apply readable_literal.
    + unfold optionalString. destruct (nonempty _); [apply readable_str|apply readable_null].
    + apply readable_option. intros a Heq. apply (members_readable_map (value_depth + 1)); [done|]. by eapply memory_members.
    + apply readable_option. intros a Heq. apply (members_readable_map (value_depth + 1)); [done|]. by eapply approval_members.
  - rewrite validate_ok. split; [done|]. intros _. left. split_and!; [done| | |by left].
    + eapply text_field; [by simplify_map_eq|exact Hm].
    + eapply messages_field. by simplify_map_eq.
Qed.

(** When the coordinator takes what an agent task compiles to. *)
Definition agent_accepted (taskType : string) (task : publicAgentTask) : Prop :=
  taskType = "agent_workflow" → ag_CheckpointAfterSteps task ≠ Some 0.

Lemma agent_compiled taskType task d : agent_printable task = true → buildAgentTaskDefinition taskType task = Ok d →
  compiled taskType d (agent_accepted taskType task).
Proof.
  intros Hp. pose proof Hp as Hp'. unfold agent_printable in Hp'. rewrite !andb_true_iff in Hp'. destruct Hp' as [[[_ Ht] Hcp] _].
  unfold buildAgentTaskDefinition, agent_accepted. case_bool_decide as H1; [|case_bool_decide as H2; [|case_bool_decide as H3; [|done]]].
  - subst. unfold buildAgentExecutionGraphDefinition. destruct (agent_steps _ 0 task) as [nodes|] eqn:Hn; [|done]. intros [= <-].
    destruct (agent_steps_good _ _ 0 _ _ (builder_reason _) Hp ltac:(lia) Hn) as [Hne Hnodes].
    by eapply compiled_iff; [apply (graph_compiled (ag_Name task) nodes None Hne eq_refl Hnodes)|].
  - subst. destruct (0 <? _)%nat; [done|]. destruct (requirePublicAgentMessages _ _) as [[]|] eqn:Hm; [|done]. cbn. intros [= <-].
    by eapply compiled_iff; [apply (inference_compiled task Ht (messages_required _ _ Hm))|].
  - subst. unfold buildAgentWorkflowSteps. destruct (agent_steps _ 1 task) as [steps|] eqn:Hn; [|done]. cbn. intros [= <-].
    destruct (agent_steps_good _ _ 1 _ _ (builder_step _) Hp ltac:(lia) Hn) as [Hne Hsteps].
    eapply compiled_iff; [apply (workflow_compiled task steps Hne Hcp Hsteps)|]. split; [by intros ? _|by intros Hi; apply Hi].
Qed.

(** ** Missions and actions *)

Lemma Forall_imap {A B} (P : B → Prop) (f : nat → A → B) l : (∀ i x, l !! i = Some x → P (f i x)) → Forall P (imap f l).
Proof. intros Hl. apply Forall_forall. intros y (i & x & -> & Hi)%elem_of_lookup_imap. by apply Hl. Qed.

Lemma mission_compiled mission taskType d : mission_printable mission = true →
  Z.of_nat (length (mission_actions mission)) < 10 ^ 300 - 1 →
  buildRoboticsMissionTaskDefinition mission taskType = Ok d →
  compiled (if nonempty taskType then taskType else "robotics_workflow") d True.
Proof.
  intros Hp Hlen. pose proof (mission_actions_good mission Hp) as Hacts. rewrite Forall_lookup in Hacts.
  unfold buildRoboticsMissionTaskDefinition. set (target := if nonempty taskType then _ else _).
  destruct (negb _ && negb _) eqn:Hty; [done|]. apply andb_false_iff in Hty. rewrite !negb_false_iff, !bool_decide_eq_true in Hty.
  case_bool_decide as Hg.
  - unfold buildRoboticsExecutionGraphDefinition. case_bool_decide as Hl; [done|]. intros [= <-]. rewrite Hg.
    eapply compiled_iff; [apply (graph_compiled (rm_Name mission) (imap (robotics_node mission) (mission_actions mission)) None)|done];
      [by intros Hn; rewrite Hn in Hl|done|].
    apply Forall_imap. intros i x Hi. by apply robotics_node_good, (Hacts i).
  - destruct Hty as [Hty|Hty]; [|done]. rewrite Hty. case_bool_decide as Hl; [done|]. intros [= <-].
    assert (Forall (λ m, members_ok (value_depth + 2) m ∧ (λ s, has_number s "step_index" ∧ robotics_ok s) (Some m))
      (imap robotics_step (mission_actions mission))) as Hsteps.
    { apply Forall_imap. intros i x Hi. apply robotics_step_good; [by apply (Hacts i)|]. apply lookup_lt_Some in Hi. lia. }
    eexists. split; [reflexivity|]. split.
    + apply (members_weaken (value_depth + 4)); [done|]. apply members_single; [done|]. by eapply elements_readable.
    + rewrite validate_ok. split; [done|]. intros _. do 2 right. left. split; [done|].
      eapply compiled_elements; [by simplify_map_eq|by intros Hn; rewrite Hn in Hl|exact Hsteps].
Qed.

Definition action_printable (task : publicActionTask) : bool :=
  forallb action_step_printable (act_Steps task) && uint32_ok (act_CheckpointAfterSteps task).

Lemma action_compiled task d : action_printable task = true → buildActionWorkflowDefinition task = Ok d →
  compiled "execution_graph" d (act_CheckpointAfterSteps task ≠ Some 0).
Proof.
  intros [Hs Hcp]%andb_true_iff. unfold buildActionWorkflowDefinition. case_bool_decide as Hl; [done|].
  destruct (action_nodes _ 0 _) as [nodes|] eqn:Hn; [|done]. cbn. intros [= <-].
  destruct (action_nodes_good _ _ _ _ Hs Hn) as [Hlen Hnodes]. apply graph_compiled; [|done..]. by intros ->.
Qed.

(** ** Requests *)

(** The numbers of a form print as JSON numbers in the range of a float64, and
    its own values are not nested beyond what the decoder takes. *)
Definition form_printable (raw : publicTaskSubmitRequest) : bool :=
  match sub_AgentTask raw, sub_RoboticsMission raw, sub_ActionTask raw with
  | Some task, _, _ => agent_printable task
  | None, Some mission, _ => mission_printable mission && (Z.of_nat (length (mission_actions mission)) <? 10 ^ 300 - 1)
  | None, None, Some task => action_printable task
  | None, None, None => false
  end.

(** The checkpoint interval that ends up in the definition. *)
Definition form_interval (raw : publicTaskSubmitRequest) : option Z :=
  match sub_AgentTask raw, sub_RoboticsMission raw, sub_ActionTask raw with
  | Some task, _, _ => if bool_decide (sub_TaskType raw = "agent_workflow") then ag_CheckpointAfterSteps task else None
  | None, None, Some task => act_CheckpointAfterSteps task
  | _, _, _ => None
  end.

Lemma form_compiled raw d ty : sub_TaskDefinition raw = "" → form_printable raw = true → compile_form raw = Ok (d, ty) →
  ty ≠ "" → compiled ty d (form_interval raw ≠ Some 0).
Proof.
  intros Hd. unfold compile_form, form_printable, form_interval. rewrite Hd. cbn [nonempty].
  change (nonempty "") with false. cbv iota.
  destruct (sub_AgentTask raw) as [task|]; [|destruct (sub_RoboticsMission raw) as [mission|]; [|destruct (sub_ActionTask raw) as [task|]; [|done]]].
  - intros Hp. destruct (buildAgentTaskDefinition _ task) as [d'|] eqn:Hb; [|done]. intros [= <- <-] _.
    eapply compiled_iff; [by apply agent_compiled|]. unfold agent_accepted. case_bool_decide as Ht; [|by split; [|intros _ ?]].
    split; [by intros Hi; apply Hi|by intros ? _].
  - intros [Hp Hl%Z.ltb_lt]%andb_true_iff. destruct (buildRoboticsMissionTaskDefinition mission _) as [d'|] eqn:Hb; [|done]. intros [= <- <-] Hne.
    pose proof (mission_compiled _ _ _ Hp Hl Hb) as Hc. assert (nonempty (sub_TaskType raw) = true) as Ht by (by destruct (sub_TaskType raw)).
    rewrite Ht in Hc. by eapply compiled_iff.
  - intros Hp. destruct (_ && _); [done|]. destruct (buildActionWorkflowDefinition task) as [d'|] eqn:Hb; [|done]. intros [= <- <-] _.
    by apply action_compiled.
Qed.

Lemma normalize_unknown d n : normalizePublicTaskDefinition "" d ≠ Some (Ok n).
Proof.
  unfold normalizePublicTaskDefinition. destruct (unmarshal_rawmap d) as [m|]; [|done].
  destruct (validateTaskDefinition "" m) as [[]|] eqn:Hv; [|done]. apply validate_ok in Hv. by destruct Hv as [[? _]|[[? _]|[[? _]|[[? _]|[? _]]]]].
Qed.

End Theorems.

(** ** Concrete forms *)

Module SubmissionExample.
#[local] Existing Instance demo_ext.

(** The request a body decodes to. *)
Definition request (body : string) : publicTaskSubmitRequest :=
  (unmarshal (dec_struct publicTaskSubmitRequest_fields) body publicTaskSubmitRequest_zero).1.

Definition waypoint : string := obj_text [("x", "1.5"); ("y", "-2"); ("frame_id", str_text "map")].
Definition approval : string := obj_text [("required", "true"); ("confidence", "0.25"); ("context", obj_text [("zone", arr_text ["1"; "null"])])].
Definition mission : string :=
  obj_text [("name", str_text "patrol"); ("waypoints", arr_text [waypoint; waypoint]); ("prompt", str_text "report");
    ("publish_velocity", obj_text [("linear_x", "0"); ("angular_z", "0.5")]); ("emit_zero_velocity_on_finish", "true");
    ("approval", approval)].
Definition mission_body (taskType : string) : string := obj_text [("task_type", str_text taskType); ("robotics_mission", mission)].

Definition message : string := obj_text [("role", str_text "user"); ("content", str_text "hello")].
Definition agent (interval : string) : string :=
  obj_text [("name", str_text "a"); ("model", str_text "m"); ("messages", arr_text [message]); ("temperature", "0.5");
    ("checkpoint_after_steps", interval); ("memory", obj_text [("store_key", str_text "k")])].
Definition agent_body (taskType interval : string) : string := obj_text [("task_type", str_text taskType); ("agent_task", agent interval)].

Definition outcome (body : string) : option bool :=
  match compile_form (request body) with
  | Ok (d, ty) => is_ok <$> normalizePublicTaskDefinition ty d
  | Err _ => None
  end.

(** A mission with a type is accepted; without one it compiles all the same, as
    a workflow, under the empty type the coordinator refuses. *)
Example missions :
  (outcome (mission_body "robotics_workflow"), outcome (mission_body "execution_graph"), outcome (mission_body "")) =
  (Some true, Some true, Some false).
Proof. vm_compute. reflexivity. Qed.

(** An empty interval is compiled and refused as a workflow; as a graph it is
    dropped. *)
Example intervals :
  (outcome (agent_body "agent_workflow" "4"), outcome (agent_body "agent_workflow" "0"), outcome (agent_body "execution_graph" "0"),
   outcome (agent_body "single_inference" "0")) = (Some true, Some false, Some true, Some true).
Proof. vm_compute. reflexivity. Qed.

Definition compiled_mission : string := match compile_form (request (mission_body "robotics_workflow")) with Ok (d, _) => d | Err _ => "" end.

End SubmissionExample.
