(* ===== verification/ProposalFacts.v ===== *)
(** * What policy proposals guarantee

    Every operation of the store, under any faults, commits at most one step of
    the review workflow, together with the events that record it: an approved
    proposal keeps its content, and the audit trail replays to the status. *)

From S2P Require Import Prelude GoStrings Json JsonFacts JsonRoundTrip Ext WalCodec Checkpoint.
From S2P Require Import Types Capability Governance.
From S2P Require Import Store StoreLogic StoreSpec StoreTheorems InputRefs Receipts CoordState.
From S2P Require Import Artifacts Coordinator PolicyProposals CoordLogic ArtifactFacts.
From S2P Require Import CallbackFacts.
Open Scope Z_scope.

(** ** Criteria are read back as they were written *)

Definition map_criteria (f : string → string) (m : MatchCriteria) : MatchCriteria :=
  mkCriteria (f (mc_Range m)) (f (mc_MatchActionName m)) (f (mc_MatchActionPrefix m)) (f (mc_MatchAgentID m))
    (f (mc_MatchAgentType m)) (f (mc_MatchResultStatus m)) (mc_RequireProofMissing m) (mc_RequireRecoveryOccurred m)
    (mc_RequireEvalFailed m).

Lemma map_criteria_idem m : map_criteria sanitize_utf8 (map_criteria sanitize_utf8 m) = map_criteria sanitize_utf8 m.
Proof.
  unfold map_criteria. cbn [mc_Range mc_MatchActionName mc_MatchActionPrefix mc_MatchAgentID mc_MatchAgentType
    mc_MatchResultStatus mc_RequireProofMissing mc_RequireRecoveryOccurred mc_RequireEvalFailed]. by rewrite !sanitize_idem.
Qed.

Definition criteria_names : list string := (MatchCriteria_fields).*1.

(** The members [json.Marshal] prints, as they are read. *)
Definition str_member (k v : string) : list (string * jnode) :=
  if bool_decide (v = "") then [] else [(k, (str_text v, JStr (sanitize_utf8 v)))].
Definition true_member (k : string) (b : bool) : list (string * jnode) :=
  if b then [(k, (bool_text true, JBool true))] else [].

Definition criteria_members (m : MatchCriteria) : list (string * jnode) :=
  [("range", (str_text (mc_Range m), JStr (sanitize_utf8 (mc_Range m))))]
  ++ str_member "match_action_name" (mc_MatchActionName m) ++ str_member "match_action_prefix" (mc_MatchActionPrefix m)
  ++ str_member "match_agent_id" (mc_MatchAgentID m) ++ str_member "match_agent_type" (mc_MatchAgentType m)
  ++ str_member "match_result_status" (mc_MatchResultStatus m)
  ++ true_member "require_proof_missing" (mc_RequireProofMissing m)
  ++ true_member "require_recovery_occurred" (mc_RequireRecoveryOccurred m)
  ++ true_member "require_eval_failed" (mc_RequireEvalFailed m).

Lemma omit_empty_reads k v : sanitize_utf8 k = k → Forall2 (member_reads 0) (omit_empty k v) (str_member k v).
Proof.
  intros Hk. unfold omit_empty, str_member. destruct v as [|a v]; [constructor|]. rewrite bool_decide_false by done.
  constructor; [|constructor]. split_and!; [exact (eq_sym Hk)|done|]. apply prints_str.
Qed.

Lemma omit_false_reads k b : sanitize_utf8 k = k → Forall2 (member_reads 0) (omit_false k b) (true_member k b).
Proof.
  intros Hk. destruct b; [|constructor]. constructor; [|constructor]. split_and!; [exact (eq_sym Hk)|done|]. apply (prints_bool 0 true).
Qed.

Lemma criteria_reads m : json_parse (MatchCriteria_text m) = Some (MatchCriteria_text m, JObj (criteria_members m)).
Proof.
  apply (json_parse_prints 1); [|done]. apply (prints_obj 0); [done|]. unfold criteria_members.
  repeat apply Forall2_app; try (apply omit_empty_reads; done); try (apply omit_false_reads; done).
  constructor; [|constructor]. split_and!; [done..|]. apply prints_str.
Qed.

(** One member decoded into the criteria. *)
Definition criteria_step (acc : MatchCriteria * bool) (kv : string * jv) : MatchCriteria * bool :=
  match find_field MatchCriteria_fields kv.1 with
  | Some d => let '(m, ok) := d ("", kv.2) acc.1 in (m, acc.2 && ok)
  | None => acc
  end.

(** Only the values of the members matter. *)
Lemma dec_criteria raw l old :
  dec_struct MatchCriteria_fields (raw, JObj l) old = foldl criteria_step (old, true) (member_values l).
Proof.
  unfold dec_struct. cbn [snd]. generalize (old, true). induction l as [|[k [s v]] l IH]; intros acc; [done|].
  cbn [foldl member_values fmap list_fmap fst snd]. rewrite IH. clear IH. f_equal. unfold criteria_step. cbn [fst snd].
  assert (∀ d, find_field MatchCriteria_fields k = Some d → ∀ x, d (s, v) x = d ("", v) x) as Hd; [|case_match; [by rewrite Hd|done]].
  intros d Hf. assert (d ∈ (MatchCriteria_fields).*2) as Hin.
  { unfold find_field in Hf. repeat case_match; simplify_eq; match goal with E : list_find _ _ = Some _ |- _ =>
      apply list_find_Some in E as (E & _); apply list_elem_of_lookup_2 in E end; apply list_elem_of_fmap; eauto. }
  clear Hf. cbn [MatchCriteria_fields fmap list_fmap snd] in Hin. rewrite !elem_of_cons, elem_of_nil in Hin.
  repeat (destruct Hin as [->|Hin]; [done|]). done.
Qed.

Definition string_names : list string :=
  ["range"; "match_action_name"; "match_action_prefix"; "match_agent_id"; "match_agent_type"; "match_result_status"].
Definition bool_names : list string := ["require_proof_missing"; "require_recovery_occurred"; "require_eval_failed"].

(** A member of a known name and its type. *)
Definition well_typed (kv : string * jv) : Prop :=
  match kv.2 with JStr _ => kv.1 ∈ string_names | JBool _ => kv.1 ∈ bool_names | _ => False end.

Definition str_at (g : gmap string jv) (k old : string) : string :=
  match g !! k with Some (JStr s) => s | _ => old end.
Definition bool_at (g : gmap string jv) (k : string) (old : bool) : bool :=
  match g !! k with Some (JBool b) => b | _ => old end.

(** The criteria that a set of members describes. *)
Definition criteria_at (g : gmap string jv) (m : MatchCriteria) : MatchCriteria :=
  mkCriteria (str_at g "range" (mc_Range m)) (str_at g "match_action_name" (mc_MatchActionName m))
    (str_at g "match_action_prefix" (mc_MatchActionPrefix m)) (str_at g "match_agent_id" (mc_MatchAgentID m))
    (str_at g "match_agent_type" (mc_MatchAgentType m)) (str_at g "match_result_status" (mc_MatchResultStatus m))
    (bool_at g "require_proof_missing" (mc_RequireProofMissing m))
    (bool_at g "require_recovery_occurred" (mc_RequireRecoveryOccurred m))
    (bool_at g "require_eval_failed" (mc_RequireEvalFailed m)).

Lemma criteria_step_at k v g m : g !! k = None → well_typed (k, v) →
  ∃ m', criteria_step (m, true) (k, v) = (m', true) ∧ criteria_at g m' = criteria_at (<[k := v]> g) m.
Proof.
  intros Hg Hw. unfold well_typed in Hw. cbn [fst snd] in Hw.
  assert (∀ j, j ≠ k → <[k := v]> g !! j = g !! j) as Hne by (intros; by apply lookup_insert_ne).
  pose proof (lookup_insert_eq g k v) as Heq.
  destruct v as [|b| |s| |]; try done; unfold string_names, bool_names in Hw; rewrite !elem_of_cons, elem_of_nil in Hw;
    unfold criteria_at, str_at, bool_at;
    repeat (destruct Hw as [->|Hw]; [eexists; split; [reflexivity|]; cbn; rewrite Heq, ?Hg, !Hne by done; reflexivity|]); done.
Qed.

Lemma foldl_criteria l m : NoDup l.*1 → Forall well_typed l →
  foldl criteria_step (m, true) l = (criteria_at (list_to_map l) m, true).
Proof.
  revert m. induction l as [|[k v] l IH]; intros m Hnd Hw; [by destruct m|].
  apply NoDup_cons in Hnd as [Hk Hnd]. apply Forall_cons in Hw as [Hw Hl]. cbn [foldl list_to_map].
  destruct (criteria_step_at k v (list_to_map l) m) as (m' & -> & Hm); [by apply not_elem_of_list_to_map_1|done|].
  rewrite IH by done. by rewrite Hm.
Qed.

(** The members of printed criteria, in their order. *)
Lemma step_str k v x set rest : (∀ s, criteria_step (x, true) (k, JStr s) = (set s x, true)) → set "" x = x →
  foldl criteria_step (x, true) (member_values (str_member k v) ++ rest) = foldl criteria_step (set (sanitize_utf8 v) x, true) rest.
Proof.
  intros Hs Hx. unfold str_member. case_bool_decide as Hv.
  { subst v. change (sanitize_utf8 "") with "". by rewrite Hx. }
  cbn [member_values fmap list_fmap app foldl fst snd]. by rewrite Hs.
Qed.

Lemma step_true k b x set rest : criteria_step (x, true) (k, JBool true) = (set true x, true) → set false x = x →
  foldl criteria_step (x, true) (member_values (true_member k b) ++ rest) = foldl criteria_step (set b x, true) rest.
Proof. intros Hs Hx. destruct b; [|by rewrite Hx]. cbn [member_values true_member fmap list_fmap app foldl fst snd]. by rewrite Hs. Qed.

Lemma foldl_printed m : foldl criteria_step (MatchCriteria_zero, true) (member_values (criteria_members m)) =
  (map_criteria sanitize_utf8 m, true).
Proof.
  destruct m as [a b c d e f g h i]. rewrite <-(app_nil_r (member_values _)).
  unfold criteria_members, member_values. rewrite !fmap_app, <-!app_assoc. fold member_values.
  cbn [fmap list_fmap app foldl fst snd mc_Range mc_MatchActionName mc_MatchActionPrefix mc_MatchAgentID mc_MatchAgentType
    mc_MatchResultStatus mc_RequireProofMissing mc_RequireRecoveryOccurred mc_RequireEvalFailed].
  change (criteria_step (MatchCriteria_zero, true) ("range", JStr ?r)) with (mkCriteria r "" "" "" "" "" false false false, true).
  rewrite (step_str _ b _ (λ s m, m {{ mc_MatchActionName := s }})),
    (step_str _ c _ (λ s m, m {{ mc_MatchActionPrefix := s }})),
    (step_str _ d _ (λ s m, m {{ mc_MatchAgentID := s }})),
    (step_str _ e _ (λ s m, m {{ mc_MatchAgentType := s }})),
    (step_str _ f _ (λ s m, m {{ mc_MatchResultStatus := s }})),
    (step_true _ g _ (λ s m, m {{ mc_RequireProofMissing := s }})),
    (step_true _ h _ (λ s m, m {{ mc_RequireRecoveryOccurred := s }})),
    (step_true _ i _ (λ s m, m {{ mc_RequireEvalFailed := s }})); reflexivity.
Qed.

Lemma criteria_members_ok m :
  NoDup (criteria_members m).*1 ∧ Forall (λ kn, plain_value kn.2.2 = true) (criteria_members m) ∧
  Forall well_typed (member_values (criteria_members m)).
Proof.
  assert (∀ k v, (str_member k v).*1 `sublist_of` [k]) as Hs by (intros; unfold str_member; case_bool_decide; repeat constructor).
  assert (∀ k b, (true_member k b).*1 `sublist_of` [k]) as Ht by (intros ? []; repeat constructor).
  assert (∀ k v, k ∈ string_names → Forall well_typed (member_values (str_member k v))) as Hsw.
  { intros k v Hk. unfold str_member. case_bool_decide; [constructor|]. constructor; [exact Hk|constructor]. }
  assert (∀ k b, k ∈ bool_names → Forall well_typed (member_values (true_member k b))) as Htw.
  { intros k [] Hk; [|constructor]. constructor; [exact Hk|constructor]. }
  assert (∀ l, Forall well_typed (member_values l) → Forall (λ kn : string * jnode, plain_value kn.2.2 = true) l) as Hp.
  { intros l Hl. unfold member_values in Hl. rewrite Forall_fmap in Hl. eapply Forall_impl; [exact Hl|]. intros [k [s []]] Hw; done. }
  assert (Forall well_typed (member_values (criteria_members m))) as Hw; [|split_and!; [|by apply Hp|done]].
  - unfold criteria_members, member_values. rewrite !fmap_app, !Forall_app. fold member_values.
    split; [|split_and!; first [apply Hsw|apply Htw]; by apply (bool_decide_unpack _)].
    repeat constructor.
  - apply (sublist_NoDup _ criteria_names); [by apply (bool_decide_unpack _)|]. unfold criteria_members. rewrite !fmap_app.
    change criteria_names with (["range"] ++ ["match_action_name"] ++ ["match_action_prefix"] ++ ["match_agent_id"] ++
      ["match_agent_type"] ++ ["match_result_status"] ++ ["require_proof_missing"] ++ ["require_recovery_occurred"] ++
      ["require_eval_failed"]). by repeat apply sublist_app.
Qed.

Section Facts.
Context `{Ext} `{CheckpointCodec} `{UUIDSupply} `{MapRange} `{AEAD} `{SortSlice} `{!CheckpointCodecLaws}.

(** What a row's criteria decode to. *)
Definition decode_criteria (s : string) : MatchCriteria * bool :=
  if bool_decide (s = "") then (MatchCriteria_zero, true)
  else unmarshal (dec_struct MatchCriteria_fields) s MatchCriteria_zero.

(** Criteria written to a JSONB column are read back, up to invalid UTF-8. *)
Lemma stored_criteria `{!JsonbLaws} m :
  decode_criteria (jsonb_text (MatchCriteria_text m)) = (map_criteria sanitize_utf8 m, true).
Proof.
  destruct (criteria_members_ok m) as (Hnd & Hp & Hw).
  destruct (jsonb_members _ _ _ (criteria_reads m) Hnd Hp) as (raw & l & Hl & Hperm).
  assert (jsonb_text (MatchCriteria_text m) ≠ "") as Hne by (intros He; by rewrite He in Hl).
  unfold decode_criteria, unmarshal. rewrite bool_decide_false, Hl by done. rewrite dec_criteria.
  assert (∀ l' : list (string * jnode), (member_values l').*1 = l'.*1) as Hkeys.
  { intros l'. unfold member_values. rewrite <-list_fmap_compose. by apply list_fmap_ext. }
  rewrite <-Hkeys in Hnd. assert (NoDup (member_values l).*1) as Hnd' by (by rewrite Hperm).
  rewrite foldl_criteria by (done || by rewrite Hperm). rewrite <-foldl_printed, foldl_criteria by done.
  do 2 f_equal. by apply list_to_map_proper.
Qed.

(** ** The review workflow *)

Definition criteria_of (x : proposal_row) : MatchCriteria := (decode_criteria (pr_match_criteria_json x)).1.

Definition identity (x : proposal_row) : uuid * string * string * time :=
  (pr_proposal_id x, pr_tenant_id x, pr_created_by x, pr_created_at x).

(** What a reviewer reads. *)
Definition content (x : proposal_row) : (uuid * string * string * time) * (string * string * string * MatchCriteria) :=
  (identity x, (pr_name x, pr_description x, pr_policy_mode x, criteria_of x)).

Definition simulated (x : proposal_row) : Prop := ∃ s, pr_latest_simulation_json x = Some s ∧ is_json_object s = true.

(** Before approval a proposal is a draft or ready for review. *)
Definition under_review (s : string) : Prop := s = StatusDraft ∨ s = StatusReviewReady.

Definition status_event (x y : proposal_row) : list (string * string) :=
  if bool_decide (pr_status y = pr_status x) then []
  else [("status_changed", if bool_decide (pr_status y = StatusDraft) then "Moved back to draft" else "Marked ready for review")].

(** A step of a proposal that is not archived, and the events that record it. *)
Inductive change (x y : proposal_row) : list (string * string) → Prop :=
| ch_edit :
    pr_status x = StatusDraft → under_review (pr_status y) → identity y = identity x →
    pr_latest_simulation_json y = pr_latest_simulation_json x → pr_archived_at y = None →
    change x y (("updated", "Proposal details updated") :: status_event x y)
| ch_status :
    pr_status y = pr_status x ∨ under_review (pr_status x) ∧ under_review (pr_status y) → content y = content x →
    pr_latest_simulation_json y = pr_latest_simulation_json x → pr_archived_at y = None →
    change x y (status_event x y)
| ch_simulate summary :
    pr_status y = pr_status x → content y = content x → simulated y → pr_archived_at y = None →
    change x y [("simulated", summary)]
| ch_approve :
    pr_status x = StatusReviewReady → simulated x → pr_status y = StatusApproved → content y = content x →
    pr_latest_simulation_json y = pr_latest_simulation_json x → pr_archived_at y = None →
    change x y [("approved", "Proposal approved for promotion")]
| ch_archive :
    pr_status y = StatusArchived → is_Some (pr_archived_at y) → content y = content x →
    pr_latest_simulation_json y = pr_latest_simulation_json x →
    change x y [("archived", "Proposal archived")].

Definition event_of (tenantID : string) (id : uuid) (now : time) (k : string * string) : proposal_event_row :=
  mkProposalEvent tenantID id k.1 k.2 now.

Abbreviation proposals := (list proposal_row * list proposal_event_row)%type.

(** A step of the workflow for one tenant. *)
Inductive review (tenantID : string) : proposals → proposals → Prop :=
| rv_create rows evs x now :
    pr_proposal_id x ∉ pr_proposal_id <$> rows → pr_tenant_id x = tenantID → pr_status x = StatusDraft →
    pr_latest_simulation_json x = None → pr_archived_at x = None →
    review tenantID (rows, evs)
      (rows ++ [x], evs ++ [event_of tenantID (pr_proposal_id x) now ("created", "Draft proposal created")])
| rv_change before x after evs y ks now :
    pr_tenant_id x = tenantID → pr_archived_at x = None → change x y ks →
    review tenantID (before ++ x :: after, evs)
      (before ++ y :: after, evs ++ (event_of tenantID (pr_proposal_id x) now <$> ks)).

(** ** The state the store keeps *)

Definition proposals_of (t : Tables) : proposals := (policy_proposals t, policy_proposal_events t).

(** A row's criteria are text the store wrote, and an approved row was simulated. *)
Record row_ok (x : proposal_row) : Prop := {
  ro_criteria : ∃ m, pr_match_criteria_json x = jsonb_text (MatchCriteria_text m);
  ro_simulation : pr_status x = StatusApproved → simulated x;
}.

Record proposals_ok (p : proposals) : Prop := {
  po_ids : NoDup (pr_proposal_id <$> p.1);
  po_rows : Forall row_ok p.1;
}.

Context `{!JsonbLaws}.

Lemma row_criteria x : row_ok x →
  decode_criteria (pr_match_criteria_json x) = (criteria_of x, true) ∧ map_criteria sanitize_utf8 (criteria_of x) = criteria_of x.
Proof.
  intros [[m Hm] _]. unfold criteria_of. rewrite Hm, stored_criteria. split; [done|]. apply map_criteria_idem.
Qed.

Lemma scan_row x p : row_ok x → scanProposal (Ok x) = Ok p →
  pp_ProposalID p = pr_proposal_id x ∧ pp_TenantID p = pr_tenant_id x ∧ pp_Name p = pr_name x ∧
  pp_Description p = pr_description x ∧ pp_Status p = pr_status x ∧ pp_PolicyMode p = pr_policy_mode x ∧
  pp_MatchCriteria p = criteria_of x ∧ (pp_LatestSimulation p ≠ "" → is_Some (pr_latest_simulation_json x)).
Proof.
  intros Hx. destruct (row_criteria x Hx) as [Hc _]. unfold decode_criteria in Hc. unfold scanProposal. rewrite Hc.
  cbn [negb]. intros [= <-]. cbn. split_and!; try done. by destruct (pr_latest_simulation_json x).
Qed.

(** An update of the row with an id. *)
Lemma update_one (P : proposal_row → bool) f rows x i :
  NoDup (pr_proposal_id <$> rows) → (∀ y, P y = true → pr_proposal_id y = i) →
  head (filter (λ y, P y = true) rows) = Some x →
  P x = true ∧ ∃ before after, rows = before ++ x :: after ∧
    List.map (λ y, if P y then f y else y) rows = before ++ f x :: after.
Proof.
  intros Hnd HP. induction rows as [|z rows IH]; [done|]. rewrite filter_cons. apply NoDup_cons in Hnd as [Hz Hnd].
  destruct (decide (P z = true)) as [Hp|Hp].
  - intros [= <-]. split; [done|]. exists [], rows. split; [done|]. cbn. rewrite Hp. f_equal.
    rewrite <-(map_id rows) at 2. apply map_ext_in. intros y Hy. destruct (P y) eqn:HPy; [|done].
    destruct Hz. apply list_elem_of_fmap. exists y. split; [|by apply list_elem_of_In]. by rewrite (HP z Hp), (HP y HPy).
  - intros Hh. destruct (IH Hnd Hh) as (Hx & before & after & -> & Hm). split; [done|]. exists (z :: before), after.
    split; [done|]. cbn. rewrite Hm. by destruct (P z).
Qed.

(** ** Each operation is at most one step *)

(** The tables are as they were, or one step of the workflow further. *)
Definition reviewed (tenantID : string) (t t' : Tables) : Prop :=
  proposals_of t' = proposals_of t ∨
  review tenantID (proposals_of t) (proposals_of t') ∧ Forall row_ok (policy_proposals t').

Lemma reviewed_idle tenantID db t c : holds db t c → reviewed tenantID t (c_tables c).
Proof. intros [_ ->]. by left. Qed.

Lemma hoare_commit_reviewed {A} tenantID db t t1 (m : ST CWorld (res A)) :
  (∀ c, (m c).2 = c) → reviewed tenantID t t1 →
  hoare (holds db t) (ctx_commit db t1 ;;? m) (λ _ c, reviewed tenantID t (c_tables c)).
Proof.
  intros Hm Ht1 c [_ Ht]. unfold bind_err. rewrite bind_run. pose proof (ctx_commit_tables db t1 c) as Hc. cbv zeta in Hc.
  destruct (ctx_commit db t1 c) as [r c']. cbn [fst snd] in *.
  assert (reviewed tenantID t (c_tables c')) as Hr by (destruct Hc as [->| ->]; [done|rewrite Ht; by left]).
  destruct r as [[]|e]; [|done]. by rewrite Hm.
Qed.

Lemma hoare_tx_proposal q db t t1 :
  hoare (holds db t) (tx_proposal q db t1)
    (λ r c, holds db t c ∧ ∀ p t2, r = Ok (p, t2) → ∃ x, q db t1 = (Ok x, t2) ∧ scanProposal (Ok x) = Ok p).
Proof.
  unfold tx_proposal. eapply hoare_bind; [apply hoare_holds_exec|]. intros r. apply hoare_ret. intros c [Hc Hq]. split; [done|].
  intros p t2. destruct r as [[x t3]|e].
  - destruct (scanProposal (Ok x)) as [p'|] eqn:Hs; [|done]. intros [= <- <-]. exists x. split; [by apply Hq|done].
  - unfold scanProposal. by destruct (errors_is e ErrNoRows).
Qed.

Lemma hoare_proposal_Get tenantID id db t :
  hoare (holds db t) (proposal_Get tenantID id)
    (λ r c, holds db t c ∧ ∀ p, r = Ok p → ∃ i x, uuid_Parse (TrimSpace id) = Some i ∧
       head (filter (λ y, active_proposal tenantID i y = true) (policy_proposals t)) = Some x ∧ scanProposal (Ok x) = Ok p).
Proof.
  unfold proposal_Get. destruct (uuid_Parse _) as [i|]; [|by apply hoare_ret]. intros c [Hdb Ht]. rewrite bind_run.
  pose proof (c_exec_reads (λ _ t, match head (filter (λ x, active_proposal tenantID i x = true) (policy_proposals t)) with
                        | Some x => Ok x | None => Err ErrNoRows end) c) as Hc.
  destruct (c_exec _ c) as [r c']. destruct Hc as (Hdb' & _ & _ & Ht' & Hr). cbn [fst snd mret ST_ret].
  split; [by split; congruence|]. intros p Hp. exists i. destruct r as [x|e].
  - exists x. rewrite Ht in Hr. specialize (Hr x eq_refl). destruct (head _) as [y|]; [|done]. injection Hr as ->. done.
  - cbn [scanProposal] in Hp. by destruct (errors_is e ErrNoRows).
Qed.

Lemma head_in {A} (l : list A) x : head l = Some x → x ∈ l.
Proof. destruct l; [done|]. intros [= ->]. apply list_elem_of_here. Qed.

Lemma active_spec tenantID i x : active_proposal tenantID i x = true ↔
  pr_tenant_id x = tenantID ∧ pr_proposal_id x = i ∧ pr_archived_at x = None.
Proof. unfold active_proposal. rewrite !andb_true_iff, !bool_decide_eq_true. tauto. Qed.

Lemma row_unique rows x y : NoDup (pr_proposal_id <$> rows) → x ∈ rows → y ∈ rows → pr_proposal_id y = pr_proposal_id x → y = x.
Proof.
  intros Hnd [i Hi]%list_elem_of_lookup [j Hj]%list_elem_of_lookup Hid.
  assert (i = j) as ->; [|congruence]. eapply (NoDup_lookup _ _ _ (pr_proposal_id x) Hnd); rewrite list_lookup_fmap; [by rewrite Hi|].
  rewrite Hj. cbn. by rewrite Hid.
Qed.

(** A committed row update is a step, when the change is one. *)
Lemma update_reviewed (P : proposal_row → bool) f tenantID i db t x t2 ks now :
  proposals_ok (proposals_of t) → (∀ y, P y = true → active_proposal tenantID i y = true) →
  update_proposal P f db t = (Ok x, t2) →
  (∀ y, y ∈ policy_proposals t → P y = true → proposal_admissible (f y) = true → x = f y →
     row_ok y → row_ok (f y) ∧ change y (f y) ks) →
  ∀ t3, policy_proposals t3 = policy_proposals t2 →
    policy_proposal_events t3 = policy_proposal_events t ++ (event_of tenantID i now <$> ks) → reviewed tenantID t t3.
Proof.
  intros [Hnd Hok] HP. unfold update_proposal. destruct (head _) as [y|] eqn:Hh; [|done].
  destruct (proposal_admissible (f y)) eqn:Ha; [|done]. intros [= <- <-] Hch t3 Hrows Hevs. right.
  assert (y ∈ policy_proposals t) as Hy by (apply head_in in Hh; by apply list_elem_of_filter in Hh as [_ ?]).
  destruct (update_one P f (policy_proposals t) y i Hnd) as (HPy & before & after & Hb & Hm); [|done|].
  { intros z Hz%HP%active_spec. tauto. }
  assert (row_ok y) as Hry by (eapply Forall_forall in Hok; [exact Hok|done]).
  destruct (Hch y Hy HPy Ha eq_refl Hry) as [Hrow Hc]. apply HP, active_spec in HPy as (Hten & <- & Harch).
  assert (policy_proposals t3 = before ++ f y :: after) as Hr3 by (by rewrite Hrows, <-Hm). unfold proposals_of in *. cbn [fst] in Hok. rewrite Hr3, Hevs. rewrite Hb in Hok |- *. split.
  - by apply rv_change.
  - rewrite Forall_app, Forall_cons in *. tauto.
Qed.

(** A transaction of the store: what it does with the tables it began with and
    the time. *)
Lemma hoare_transaction {A} tenantID db t (m : time → DB → Tables → ST CWorld (res A)) :
  (∀ now, hoare (holds db t) (m now db t) (λ _ c, reviewed tenantID t (c_tables c))) →
  hoare (holds db t) ('(d, t1) ←? ctx_begin; now ← c_now; m now d t1) (λ _ c, reviewed tenantID t (c_tables c)).
Proof.
  intros Hm. eapply hoare_bind_err; [apply hoare_holds_begin| |by intros e c [? _]; eapply reviewed_idle].
  intros [d t1]. apply hoare_pure. intros Hp. injection (Hp _ eq_refl) as -> ->.
  eapply hoare_bind; [apply hoare_holds_now|]. exact Hm.
Qed.

(** The last event of a transaction, and its commit. *)
Lemma hoare_event_commit {A} tenantID i now k db t t1 (m : ST CWorld (res A)) :
  (∀ c, (m c).2 = c) →
  (∀ t2, policy_proposals t2 = policy_proposals t1 →
     policy_proposal_events t2 = policy_proposal_events t1 ++ [event_of tenantID i now k] → reviewed tenantID t t2) →
  hoare (holds db t) ('(_, t2) ←? ctx_exec (insertEvent tenantID i k.1 k.2 now) db t1; ctx_commit db t2 ;;? m)
    (λ _ c, reviewed tenantID t (c_tables c)).
Proof.
  intros Hm Hr. eapply hoare_bind_err; [apply hoare_holds_exec| |by intros e c [? _]; eapply reviewed_idle].
  intros [[] t2]. apply hoare_pure. intros Hq. injection (Hq _ _ eq_refl) as <-. apply hoare_commit_reviewed; [done|]. by apply Hr.
Qed.

Lemma Create_reviewed tenantID createdBy input db t : proposals_ok (proposals_of t) →
  hoare (holds db t) (proposal_Create tenantID createdBy input) (λ _ c, reviewed tenantID t (c_tables c)).
Proof.
  intros [Hnd Hok]. unfold proposal_Create. destruct (ValidateCreateInput input) as [n|e]; [|by apply hoare_ret; intros; eapply reviewed_idle].
  eapply hoare_bind_err; [apply hoare_holds_begin| |by intros e c [? _]; eapply reviewed_idle].
  intros [d t1]. apply hoare_pure. intros Hp. injection (Hp _ eq_refl) as -> ->.
  eapply (hoare_bind _ _ _ (λ _, holds db t)); [intros c [? ?]; by split|]. intros id.
  eapply hoare_bind; [apply hoare_holds_now|]. intros now.
  eapply hoare_bind_err; [apply hoare_tx_proposal| |by intros e c [? _]; eapply reviewed_idle].
  intros [p t1]. apply hoare_pure. intros Hq. destruct (Hq _ _ eq_refl) as (x & Hins & Hscan). clear Hq.
  unfold insert_proposal in Hins. destruct (_ || _) eqn:Hfresh; [done|]. injection Hins as Hx Ht1.
  apply orb_false_iff in Hfresh as [Hfresh _]. rewrite Hx in Hfresh.
  assert (row_ok x) as Hrow by (subst x; split; [by eexists|done]).
  destruct (scan_row x p Hrow Hscan) as (-> & _).
  apply (hoare_event_commit tenantID _ now ("created", "Draft proposal created")); [done|]. intros t2 Hr He. right.
  unfold proposals_of. rewrite Hr, He, <-Ht1. cbn. split; [|by apply Forall_app_2; [|constructor]; [done|subst x|constructor]].
  rewrite Hx. apply rv_create; try (by subst x). intros Hin. apply list_elem_of_fmap in Hin as (y & Hid & Hy).
  eapply not_true_iff_false; [exact Hfresh|]. apply existsb_exists. exists y. split; [by apply list_elem_of_In|].
  by apply bool_decide_eq_true.
Qed.

Lemma content_same x y :
  identity y = identity x → pr_name y = pr_name x → pr_description y = pr_description x → pr_policy_mode y = pr_policy_mode x →
  criteria_of y = criteria_of x → content y = content x.
Proof. unfold content. by intros -> -> -> -> ->. Qed.

(** An update that keeps the content, with its one event. *)
Lemma update_event_commit {A} (P : proposal_row → bool) f tenantID i k now db t (m : Proposal → ST CWorld (res A))
    (g : goerror → goerror) :
  proposals_ok (proposals_of t) → (∀ p c, (m p c).2 = c) →
  (∀ y, P y = true → active_proposal tenantID i y = true) →
  (∀ y, pr_proposal_id (f y) = pr_proposal_id y) →
  (∀ y, y ∈ policy_proposals t → P y = true → proposal_admissible (f y) = true → row_ok y →
     row_ok (f y) ∧ change y (f y) [k]) →
  hoare (holds db t) (r ← tx_proposal (update_proposal P f) db t;
      match r with
      | Err e => mret (Err (g e))
      | Ok (p, t1) => '(_, t2) ←? ctx_exec (insertEvent tenantID (pp_ProposalID p) k.1 k.2 now) db t1; ctx_commit db t2 ;;? m p
      end)
    (λ _ c, reviewed tenantID t (c_tables c)).
Proof.
  intros Hok Hm HP Hid Hf. eapply hoare_bind; [apply hoare_tx_proposal|].
  intros [[p t1]|e]; [|by apply hoare_ret; intros c [? _]; eapply reviewed_idle]. apply hoare_pure. intros Hq. destruct (Hq _ _ eq_refl) as (x & Hup & Hscan). clear Hq.
  assert (pp_ProposalID p = i ∧ policy_proposal_events t1 = policy_proposal_events t) as [-> Hev].
  { pose proof Hup as Hup'. unfold update_proposal in Hup'. destruct (head _) as [y|] eqn:Hh; [|done].
    destruct (proposal_admissible (f y)) eqn:Ha; [|done]. injection Hup' as <- <-. split; [|done].
    apply head_in, list_elem_of_filter in Hh as [HPy Hy]. destruct Hok as [_ Hrows].
    assert (row_ok y) as Hry by (eapply Forall_forall in Hrows; [exact Hrows|done]).
    destruct (Hf y Hy HPy Ha Hry) as [Hrow _]. destruct (scan_row (f y) p Hrow Hscan) as (-> & _). rewrite Hid.
    apply HP, active_spec in HPy. tauto. }
  apply hoare_event_commit; [done|]. intros t2 Hr He. apply (update_reviewed P f _ i db t x t1 [k] now Hok HP Hup); [|done|by rewrite He, Hev].
  intros y Hy HPy Ha _ Hry. by apply Hf.
Qed.

Lemma admissible_simulation x s : proposal_admissible x = true → pr_latest_simulation_json x = Some s → is_json_object s = true.
Proof. unfold proposal_admissible. rewrite !andb_true_iff. intros [_ Hs] Hl. by rewrite Hl in Hs. Qed.

Lemma SaveSimulation_reviewed tenantID id summaryJSON affected total db t : proposals_ok (proposals_of t) →
  hoare (holds db t) (proposal_SaveSimulation tenantID id summaryJSON affected total) (λ _ c, reviewed tenantID t (c_tables c)).
Proof.
  intros Hok. unfold proposal_SaveSimulation.
  destruct (uuid_Parse _) as [i|]; [|by apply hoare_ret; intros; eapply reviewed_idle].
  apply hoare_transaction. intros now.
  eapply (update_event_commit _ _ tenantID i ("simulated", _) now _ _ _ (λ e, e)); [done|done|done|done|]. intros y Hy HPy Ha Hry.
  assert (simulated (y {{ pr_latest_simulation_json := Some (jsonb_text summaryJSON); pr_updated_at := now }})) as Hs.
  { eexists. split; [done|]. by eapply admissible_simulation. }
  split; [split; [apply Hry|done]|]. apply active_spec in HPy as (_ & _ & Harch). by apply ch_simulate.
Qed.

Lemma Approve_reviewed tenantID id db t : proposals_ok (proposals_of t) →
  hoare (holds db t) (proposal_Approve tenantID id) (λ _ c, reviewed tenantID t (c_tables c)).
Proof.
  intros Hok. unfold proposal_Approve.
  eapply hoare_bind_err; [apply hoare_proposal_Get| |by intros e c [? _]; eapply reviewed_idle].
  intros cur. apply hoare_pure. intros Hg. destruct (Hg _ eq_refl) as (i & x & _ & Hh & Hscan). clear Hg.
  apply head_in, list_elem_of_filter in Hh as [Hact Hx]. pose proof Hok as [_ Hrows].
  assert (row_ok x) as Hrx by (eapply Forall_forall in Hrows; [exact Hrows|done]).
  destruct (scan_row x cur Hrx Hscan) as (Hid & _ & _ & _ & _ & _ & _ & Hsim).
  case_bool_decide; cbn [negb]; [|by apply hoare_ret; intros; eapply reviewed_idle].
  case_bool_decide as Hne; [by apply hoare_ret; intros; eapply reviewed_idle|]. specialize (Hsim Hne) as [s Hs].
  apply hoare_transaction. intros now.
  apply (update_event_commit (λ y, active_proposal tenantID (pp_ProposalID cur) y && bool_decide (pr_status y = StatusReviewReady))
    (λ y, y {{ pr_status := StatusApproved; pr_updated_at := now }}) tenantID (pp_ProposalID cur)
    ("approved", "Proposal approved for promotion") now db t (λ p, mret (Ok p))
    (λ e, if errors_is e ErrNoRows then ErrInvalidTransition else e)); [done|done|by intros y [? _]%andb_true_iff|done|].
  intros y Hy [Hay Hst]%andb_true_iff Ha Hry. apply active_spec in Hay as (_ & Hidy & Harch).
  assert (y = x) as -> by (eapply row_unique; [apply Hok|done|done|congruence]). apply bool_decide_eq_true in Hst.
  assert (simulated x) as Hsx by (exists s; split; [done|]; by eapply (admissible_simulation _ s) in Ha).
  split; [split; [apply Hry|done]|]. by apply ch_approve.
Qed.

Lemma Archive_reviewed tenantID id db t : proposals_ok (proposals_of t) →
  hoare (holds db t) (proposal_Archive tenantID id) (λ _ c, reviewed tenantID t (c_tables c)).
Proof.
  intros [Hnd Hrows]. unfold proposal_Archive.
  destruct (uuid_Parse _) as [i|]; [|by apply hoare_ret; intros; eapply reviewed_idle].
  apply hoare_transaction. intros now. eapply hoare_bind_err; [apply hoare_holds_exec| |by intros e c [? _]; eapply reviewed_idle].
  intros [n t1]. apply hoare_pure. intros Hq. injection (Hq _ _ eq_refl) as Hn Ht1. clear Hq.
  destruct (n =? 0) eqn:Hz; [by apply hoare_ret; intros; eapply reviewed_idle|].
  eapply hoare_bind_err; [apply hoare_holds_exec| |by intros e c [? _]; eapply reviewed_idle].
  intros [[] t2]. apply hoare_pure. intros Hq. injection (Hq _ _ eq_refl) as Ht2. clear Hq.
  intros c [_ Ht]. destruct (ctx_commit_tables db t2 c) as [->| ->]; [|rewrite Ht; by left]. right.
  destruct (head (filter (λ x, active_proposal tenantID i x = true) (policy_proposals t))) as [x|] eqn:Hh.
  2:{ destruct (filter _ _); [|done]. cbn in Hn. subst n. done. }
  set (f := λ x, x {{ pr_archived_at := Some now; pr_status := StatusArchived; pr_updated_at := now }}).
  destruct (update_one (active_proposal tenantID i) f (policy_proposals t) x i Hnd) as (Hx & before & after & Hb & Hm); [|done|].
  { intros y Hy%active_spec. tauto. }
  apply active_spec in Hx as (Hten & <- & Harch). unfold proposals_of in *.
  assert (policy_proposals t2 = before ++ f x :: after) as -> by (rewrite <-Ht2, <-Ht1; exact Hm).
  assert (policy_proposal_events t2 = policy_proposal_events t ++
            (event_of tenantID (pr_proposal_id x) now <$> [("archived", "Proposal archived")])) as -> by (by rewrite <-Ht2, <-Ht1).
  cbn [fst] in Hrows. rewrite Hb in Hrows |- *. rewrite Forall_app, Forall_cons in *. destruct Hrows as (? & Hrx & ?). split.
  - apply rv_change; [done..|]. by apply ch_archive.
  - split_and!; [done| |done]. split; [apply Hrx|done].
Qed.

Lemma hoare_maybe_event tenantID i now ty txt (b : bool) db t t1 :
  hoare (holds db t) (if b then ctx_exec (insertEvent tenantID i ty txt now) db t1 else mret (Ok (tt, t1)))
    (λ r c, holds db t c ∧ ∀ a t2, r = Ok (a, t2) → policy_proposals t2 = policy_proposals t1 ∧
       policy_proposal_events t2 = policy_proposal_events t1 ++ (event_of tenantID i now <$> if b then [(ty, txt)] else [])).
Proof.
  destruct b.
  - eapply hoare_conseq; [apply hoare_holds_exec|done|]. intros r c [Hc Hq]. split; [done|]. intros a t2 Hr.
    by injection (Hq _ _ Hr) as _ <-.
  - apply hoare_ret. intros c Hc. split; [done|]. intros a t2 [= <- <-]. by rewrite app_nil_r.
Qed.

Definition update_events (u : UpdateInput) (statusChanged : bool) (next : string) : list (string * string) :=
  (if hasContentEdit u then [("updated", "Proposal details updated")] else []) ++
  (if statusChanged then [("status_changed", if bool_decide (next = StatusDraft) then "Moved back to draft"
                                             else "Marked ready for review")] else []).

Lemma toggle_under_review a b : a ≠ b → canToggleReadiness a b = true → under_review a ∧ under_review b.
Proof.
  unfold canToggleReadiness, under_review. intros Hne.
  destruct (_ && _) eqn:E1; [apply andb_true_iff in E1 as [?%bool_decide_eq_true ?%bool_decide_eq_true]; auto|].
  destruct (bool_decide (a = StatusReviewReady) && _) eqn:E2;
    [apply andb_true_iff in E2 as [?%bool_decide_eq_true ?%bool_decide_eq_true]; auto|]. by intros ?%bool_decide_eq_true.
Qed.

Lemma no_content_edit u : hasContentEdit u = false →
  ui_Name u = None ∧ ui_Description u = None ∧ ui_PolicyMode u = None ∧ ui_MatchCriteria u = None.
Proof.
  unfold hasContentEdit. rewrite !orb_false_iff, !bool_decide_eq_false, <-!eq_None_not_Some. tauto.
Qed.

(** What the plan of an update writes is a step of the workflow. *)
Lemma update_plan_change x cur u next statusChanged now :
  row_ok x → scanProposal (Ok x) = Ok cur → pr_archived_at x = None → update_plan cur u = Ok (next, statusChanged) →
  pp_ProposalID next = pr_proposal_id x ∧ row_ok (written next now x) ∧
  change x (written next now x) (update_events u statusChanged (pp_Status next)).
Proof.
  intros Hrx Hscan Harch. destruct (scan_row x cur Hrx Hscan) as (Hid & _ & Hn & Hd & Hst & Hmode & Hc & _).
  destruct (row_criteria x Hrx) as [_ Hvalid]. unfold update_plan. destruct (_ && _) eqn:Hedit; [done|].
  set (status := default (pp_Status cur) (ui_Status u)). destruct (negb (bool_decide (status = pp_Status cur)) && _) eqn:Htog; [done|].
  intros [= <- <-]. cbn [pp_ProposalID pp_Status]. split; [done|].
  set (y := written _ _ _). assert (pr_status y = status) as Hy by done.
  assert (status = pr_status x ∨ status ≠ pr_status x ∧ under_review (pr_status x) ∧ under_review status) as Hcases.
  { destruct (decide (status = pr_status x)) as [?|Hne]; [by left|right]. split; [done|]. rewrite Hst, bool_decide_false in Htog by done.
    cbn [negb andb] in Htog. apply negb_false_iff in Htog. apply toggle_under_review; [|done]. congruence. }
  assert (status_event x y = if negb (bool_decide (status = pp_Status cur)) then
            [("status_changed", if bool_decide (status = StatusDraft) then "Moved back to draft" else "Marked ready for review")]
          else []) as Hev.
  { unfold status_event. rewrite Hy, Hst. by destruct (bool_decide (status = pr_status x)). }
  split.
  - split; [by eexists|]. rewrite Hy. intros Ha. destruct Hcases as [Hs|(_ & _ & [?|?])]; [|by rewrite Ha in *..].
    apply (ro_simulation _ Hrx). congruence.
  - unfold update_events. rewrite <-Hev. destruct (hasContentEdit u) eqn:He; cbn [app].
    + cbn [andb] in Hedit. apply negb_false_iff, bool_decide_eq_true in Hedit. rewrite Hst in Hedit. apply ch_edit; try done.
      rewrite Hy. destruct Hcases as [->|(_ & _ & ?)]; [by left|done].
    + apply no_content_edit in He as (Hu1 & Hu2 & Hu3 & Hu4). apply ch_status; try done.
      { rewrite Hy. destruct Hcases as [?|(_ & ? & ?)]; [by left|by right]. }
      apply content_same; [done|..].
      * change (default (pp_Name cur) (ui_Name u) = pr_name x). by rewrite Hu1.
      * change (default (pp_Description cur) (ui_Description u) = pr_description x). by rewrite Hu2.
      * change (default (pp_PolicyMode cur) (ui_PolicyMode u) = pr_policy_mode x). by rewrite Hu3.
      * unfold criteria_of at 1. change (pr_match_criteria_json y)
          with (jsonb_text (MatchCriteria_text (default (pp_MatchCriteria cur) (ui_MatchCriteria u)))).
        rewrite stored_criteria, Hu4. cbn [default fst]. by rewrite Hc, Hvalid.
Qed.

Lemma update_write_reviewed tenantID u next statusChanged x db t :
  proposals_ok (proposals_of t) → x ∈ policy_proposals t → active_proposal tenantID (pr_proposal_id x) x = true →
  pp_ProposalID next = pr_proposal_id x →
  (∀ now, row_ok (written next now x) ∧ change x (written next now x) (update_events u statusChanged (pp_Status next))) →
  hoare (holds db t) (update_write tenantID u next statusChanged) (λ _ c, reviewed tenantID t (c_tables c)).
Proof.
  intros Hok Hx Hact Hid Hch. unfold update_write. apply hoare_transaction. intros now. destruct (Hch now) as [Hrow Hc]. rewrite Hid.
  eapply hoare_bind_err; [apply hoare_tx_proposal| |by intros e c [? _]; eapply reviewed_idle].
  intros [p t1]. apply hoare_pure. intros Hq. destruct (Hq _ _ eq_refl) as (y & Hup & Hscan). clear Hq.
  assert (y = written next now x ∧ policy_proposal_events t1 = policy_proposal_events t) as [-> Hev].
  { pose proof Hup as Hup'. unfold update_proposal in Hup'. destruct (head _) as [z|] eqn:Hh; [|done].
    destruct (proposal_admissible _); [|done]. injection Hup' as <- <-. split; [|done]. f_equal.
    apply head_in, list_elem_of_filter in Hh as [Hz%active_spec Hz']. eapply row_unique; [apply Hok|done|done|tauto]. }
  destruct (scan_row _ p Hrow Hscan) as (-> & _ & _ & _ & -> & _).
  change (pr_proposal_id (written next now x)) with (pr_proposal_id x). change (pr_status (written next now x)) with (pp_Status next).
  eapply hoare_bind_err; [apply hoare_maybe_event| |by intros e c [? _]; eapply reviewed_idle].
  intros [[] t2]. apply hoare_pure. intros Hq. destruct (Hq _ _ eq_refl) as [Hr2 He2]. clear Hq.
  eapply hoare_bind_err; [apply hoare_maybe_event| |by intros e c [? _]; eapply reviewed_idle].
  intros [[] t3]. apply hoare_pure. intros Hq. destruct (Hq _ _ eq_refl) as [Hr3 He3]. clear Hq.
  apply hoare_commit_reviewed; [done|].
  apply (update_reviewed _ _ _ _ _ _ _ _ (update_events u statusChanged (pp_Status next)) now Hok (λ _ Hy, Hy) Hup); [|congruence|].
  - intros z Hz Hz'%active_spec _ _ _. assert (z = x) as -> by (eapply row_unique; [apply Hok|done|done|tauto]). done.
  - rewrite He3, He2, Hev, <-app_assoc. f_equal. unfold update_events. by rewrite fmap_app.
Qed.

Lemma Update_reviewed tenantID id input db t : proposals_ok (proposals_of t) →
  hoare (holds db t) (proposal_Update tenantID id input) (λ _ c, reviewed tenantID t (c_tables c)).
Proof.
  intros Hok. unfold proposal_Update. destruct (ValidateUpdateInput input) as [u|e]; [|by apply hoare_ret; intros; eapply reviewed_idle].
  eapply hoare_bind_err; [apply hoare_proposal_Get| |by intros e c [? _]; eapply reviewed_idle].
  intros cur. apply hoare_pure. intros Hg. destruct (Hg _ eq_refl) as (i & x & _ & Hh & Hscan). clear Hg.
  apply head_in, list_elem_of_filter in Hh as [Hact Hx]. pose proof Hok as [_ Hrows].
  assert (row_ok x) as Hrx by (eapply Forall_forall in Hrows; [exact Hrows|done]).
  pose proof Hact as (_ & <- & Harch)%active_spec.
  destruct (update_plan cur u) as [[next sc]|e] eqn:Hplan; [|by apply hoare_ret; intros; eapply reviewed_idle].
  pose proof (λ now, update_plan_change x cur u next sc now Hrx Hscan Harch Hplan) as Hch.
  eapply update_write_reviewed; [done|done|done| |]; [by destruct (Hch 0)|]. intros now. by destruct (Hch now) as (_ & ? & ?).
Qed.

(** ** The operations together *)

Inductive proposal_op :=
| PList
| PGet (id : string)
| PCreate (createdBy : string) (input : CreateInput)
| PUpdate (id : string) (input : UpdateInput)
| PSimulate (id summaryJSON : string) (affected total : Z)
| PApprove (id : string)
| PArchive (id : string)
| PListEvents (id : string) (limit : Z).

Definition run_proposal (tenantID : string) (o : proposal_op) : ST CWorld () :=
  match o with
  | PList => ignore (proposal_List tenantID)
  | PGet id => ignore (proposal_Get tenantID id)
  | PCreate createdBy input => ignore (proposal_Create tenantID createdBy input)
  | PUpdate id input => ignore (proposal_Update tenantID id input)
  | PSimulate id summaryJSON affected total => ignore (proposal_SaveSimulation tenantID id summaryJSON affected total)
  | PApprove id => ignore (proposal_Approve tenantID id)
  | PArchive id => ignore (proposal_Archive tenantID id)
  | PListEvents id limit => ignore (proposal_ListEvents tenantID id limit)
  end.

Lemma hoare_ignore {A} P (m : ST CWorld (res A)) (Q : CWorld → Prop) : hoare P m (λ _, Q) → hoare P (ignore m) (λ _, Q).
Proof. intros Hm. eapply hoare_bind; [exact Hm|]. intros r. by apply hoare_ret. Qed.

Lemma hoare_reads {A} tenantID (f : DB → Tables → res A) db t :
  hoare (holds db t) (c_exec (λ db t, (f db t, t))) (λ _ c, reviewed tenantID t (c_tables c)).
Proof.
  intros c [_ Ht]. pose proof (c_exec_reads f c) as Hc. destruct (c_exec _ c) as [r c']. destruct Hc as (_ & _ & _ & Ht' & _).
  left. cbn [snd]. by rewrite Ht', Ht.
Qed.

Lemma run_reviewed tenantID o db t : proposals_ok (proposals_of t) →
  hoare (holds db t) (run_proposal tenantID o) (λ _ c, reviewed tenantID t (c_tables c)).
Proof.
  intros Hok. destruct o; cbn [run_proposal]; apply hoare_ignore.
  - unfold proposal_List. eapply (hoare_bind_err _ _ _ (λ _ c, reviewed tenantID t (c_tables c))); [apply hoare_reads| |done].
    intros rows. by apply hoare_ret.
  - eapply hoare_conseq; [apply hoare_proposal_Get|done|]. intros r c [? _]. by eapply reviewed_idle.
  - by apply Create_reviewed.
  - by apply Update_reviewed.
  - by apply SaveSimulation_reviewed.
  - by apply Approve_reviewed.
  - by apply Archive_reviewed.
  - unfold proposal_ListEvents. destruct (uuid_Parse _); [apply hoare_reads|by apply hoare_ret; intros; eapply reviewed_idle].
Qed.

Lemma change_identity x y ks : change x y ks → identity y = identity x.
Proof. intros [? ? Hi|? Hc|? ? Hc|? ? ? Hc|? ? Hc]; [done|..]; exact (f_equal fst Hc). Qed.

Lemma review_ids tenantID p p' : review tenantID p p' → NoDup (pr_proposal_id <$> p.1) → NoDup (pr_proposal_id <$> p'.1).
Proof.
  intros [rows evs x now Hx _ _ _ _|before x after evs y ks now _ _ Hc]; cbn [fst]; rewrite !fmap_app.
  - intros Hnd. apply NoDup_app. split_and!; [done| |apply NoDup_singleton]. cbn. set_solver.
  - apply change_identity in Hc. injection Hc as Hid _ _ _. cbn [fmap list_fmap]. by rewrite Hid.
Qed.

Lemma filter_none {A} (P : A → Prop) `{!∀ x, Decision (P x)} l : (∀ x, P x → x ∈ l → False) → filter P l = [].
Proof.
  induction l as [|x l IH]; [done|]. intros Hl. rewrite filter_cons, decide_False by (intros Hx; eapply Hl; [done|apply list_elem_of_here]).
  apply IH. intros y Hy Hin. eapply Hl; [done|by apply list_elem_of_further].
Qed.

(** The rows and events of one tenant. *)
Definition of_tenant (tenantID : string) (p : proposals) : proposals :=
  (filter (λ x, pr_tenant_id x = tenantID) p.1, filter (λ e, pv_tenant_id e = tenantID) p.2).

Lemma review_others tenantID p p' other : review tenantID p p' → other ≠ tenantID → of_tenant other p' = of_tenant other p.
Proof.
  intros [rows evs x now _ Hten _ _ _|before x after evs y ks now Hten _ Hc] Hne; unfold of_tenant; cbn [fst snd]; rewrite !filter_app.
  - rewrite (filter_none _ [x]) by (intros z Hz ->%list_elem_of_singleton; congruence).
    rewrite (filter_none _ [event_of _ _ _ _]) by (intros z Hz ->%list_elem_of_singleton; cbn in Hz; congruence). by rewrite !app_nil_r.
  - apply change_identity in Hc. injection Hc as _ Hy _ _. rewrite !filter_cons, !decide_False by congruence.
    rewrite (filter_none _ (_ <$> _)); [by rewrite app_nil_r|].
    intros z Hz (k & -> & _)%list_elem_of_fmap. cbn in Hz. congruence.
Qed.

Lemma run_steps tenantID o c : proposals_ok (proposals_of (c_tables c)) →
  let p := proposals_of (c_tables c) in
  let p' := proposals_of (c_tables (run_proposal tenantID o c).2) in
  proposals_ok p' ∧ (p' = p ∨ review tenantID p p').
Proof.
  intros Hok. cbv zeta. destruct (run_reviewed tenantID o (c_db c) (c_tables c) Hok c) as [Hr|[Hr Hrows]]; [done|..].
  - rewrite Hr. by split; [|left].
  - split; [|by right]. split; [|done]. eapply review_ids; [exact Hr|apply Hok].
Qed.


(** ** Over any history *)

(** Operations of any tenants, at any times and with any faults. *)
Definition run_history (h : list (string * proposal_op * time * list fault)) (c : CWorld) : CWorld :=
  foldl (λ c '(tenantID, o, now, faults), (run_proposal tenantID o (at_time now faults c)).2) c h.

(** What every step keeps, every history keeps. *)
Lemma proposals_keep (I : proposals → Prop) h c :
  (∀ tenantID p p', proposals_ok p → review tenantID p p' → I p → I p') →
  proposals_ok (proposals_of (c_tables c)) → I (proposals_of (c_tables c)) →
  proposals_ok (proposals_of (c_tables (run_history h c))) ∧ I (proposals_of (c_tables (run_history h c))).
Proof.
  intros HI. revert c. induction h as [|[[[tenantID o] now] faults] h IH]; intros c Hok Hc; [done|].
  cbn [run_history foldl]. change (foldl _ ?x h) with (run_history h x).
  destruct (run_steps tenantID o (at_time now faults c) Hok) as [Hok' Hstep]. apply IH; [done|].
  destruct Hstep as [->|Hstep]; [done|]. eapply HI; [exact Hok|exact Hstep|exact Hc].
Qed.

(** Approved with this content: from then on it is that or archived. *)
Definition frozen (x : proposal_row) (p : proposals) : Prop :=
  ∃ y, y ∈ p.1 ∧ content y = content x ∧ simulated y ∧ (pr_status y = StatusApproved ∨ pr_status y = StatusArchived).

Lemma simulated_same x y : pr_latest_simulation_json y = pr_latest_simulation_json x → simulated x → simulated y.
Proof. unfold simulated. by intros ->. Qed.

(** A step of an approved or archived row. *)
Lemma change_approved y z ks : change y z ks → pr_status y = StatusApproved ∨ pr_status y = StatusArchived → simulated y →
  content z = content y ∧ simulated z ∧ (pr_status z = StatusApproved ∨ pr_status z = StatusArchived).
Proof.
  intros Hc Hy Hs. destruct Hc as [Hd|Hst ? Hl|? Hst|Hr|].
  - exfalso. rewrite Hd in Hy. by destruct Hy.
  - split_and!; [done|by eapply simulated_same|]. destruct Hst as [->|[[Hu|Hu] _]]; [done|rewrite Hu in Hy; by destruct Hy..].
  - rewrite Hst. by split_and!.
  - exfalso. rewrite Hr in Hy. by destruct Hy.
  - split_and!; [done|by eapply simulated_same|by right].
Qed.

Lemma review_frozen x tenantID p p' : review tenantID p p' → frozen x p → frozen x p'.
Proof.
  intros [rows evs z now _ _ _ _ _|before z after evs z' ks now _ _ Hc] (y & Hy & Hcont & Hs & Hst); cbn [fst] in *.
  - exists y. split_and!; [set_solver|done..].
  - apply elem_of_app in Hy as [Hy|[->|Hy]%elem_of_cons].
    + exists y. split_and!; [set_solver|done..].
    + destruct (change_approved _ _ _ Hc Hst Hs) as (Hc' & Hs' & Hst'). exists z'. split_and!; [set_solver|congruence|done..].
    + exists y. split_and!; [set_solver|done..].
Qed.

Lemma review_archived x tenantID p p' : is_Some (pr_archived_at x) → review tenantID p p' → x ∈ p.1 → x ∈ p'.1.
Proof.
  intros [a Ha] [rows evs z now _ _ _ _ _|before z after evs z' ks now _ Hz _] Hx; cbn [fst] in *; [set_solver|].
  apply elem_of_app in Hx as [Hx|[->|Hx]%elem_of_cons]; [set_solver|congruence|set_solver].
Qed.

(** Approval freezes a proposal.  Whatever operations follow, of whatever
    tenants and with whatever faults, an approved proposal keeps its name,
    description, mode, decoded criteria, owner and creation, has a saved
    simulation, and is approved or archived; an archived proposal is never
    written again. *)
Theorem approved_proposals_frozen h c x :
  proposals_ok (proposals_of (c_tables c)) → x ∈ policy_proposals (c_tables c) →
  (pr_status x = StatusApproved → frozen x (proposals_of (c_tables (run_history h c)))) ∧
  (is_Some (pr_archived_at x) → x ∈ policy_proposals (c_tables (run_history h c))).
Proof.
  intros Hok Hx. split.
  - intros Hst. apply (proposals_keep (frozen x)); [by intros; eapply review_frozen|done|].
    exists x. split_and!; [done|done| |by left]. destruct Hok as [_ Hrows].
    eapply Forall_forall in Hrows; [|exact Hx]. by apply ro_simulation.
  - intros Ha. by apply (proposals_keep (λ p, x ∈ p.1)); [by intros; eapply review_archived|..].
Qed.

(** ** The audit trail *)

(** The status after an event. *)
Definition replay_event (status : string) (k : string * string) : string :=
  if bool_decide (k.1 = "created") then StatusDraft
  else if bool_decide (k.1 = "approved") then StatusApproved
  else if bool_decide (k.1 = "archived") then StatusArchived
  else if bool_decide (k.1 = "status_changed") then
    if bool_decide (k.2 = "Moved back to draft") then StatusDraft else StatusReviewReady
  else status.

Definition events_of (id : uuid) (evs : list proposal_event_row) : list (string * string) :=
  (λ e, (pv_event_type e, pv_safe_summary e)) <$> filter (λ e, pv_proposal_id e = id) evs.

(** The events of every proposal replay to its status. *)
Definition trail_ok (p : proposals) : Prop :=
  (∀ x, x ∈ p.1 → foldl replay_event "" (events_of (pr_proposal_id x) p.2) = pr_status x) ∧
  (∀ e, e ∈ p.2 → pv_proposal_id e ∈ pr_proposal_id <$> p.1).

Lemma change_replays x y ks : change x y ks → foldl replay_event (pr_status x) ks = pr_status y.
Proof.
  assert (pr_status y = pr_status x ∨ under_review (pr_status y) → foldl replay_event (pr_status x) (status_event x y) = pr_status y) as Hse.
  { unfold status_event. intros Hu. case_bool_decide as Heq; [done|]. destruct Hu as [?|[->| ->]]; done. }
  destruct 1 as [? Hu|Hst|? Hst| |]; cbn [foldl].
  - exact (Hse (or_intror Hu)).
  - apply Hse. destruct Hst as [?|[_ ?]]; [by left|by right].
  - done.
  - done.
  - done.
Qed.

Lemma events_of_app id evs evs' : events_of id (evs ++ evs') = events_of id evs ++ events_of id evs'.
Proof. unfold events_of. by rewrite filter_app, fmap_app. Qed.

Lemma events_of_new tenantID id now ks : events_of id (event_of tenantID id now <$> ks) = ks.
Proof.
  unfold events_of. induction ks as [|[a b] ks IH]; [done|]. cbn [fmap list_fmap]. rewrite filter_cons, decide_True by done.
  cbn [fmap list_fmap]. by rewrite IH.
Qed.

Lemma events_of_other tenantID id id' now ks : id' ≠ id → events_of id (event_of tenantID id' now <$> ks) = [].
Proof.
  intros Hne. unfold events_of. rewrite filter_none; [done|]. intros e He (k & -> & _)%list_elem_of_fmap. cbn in He. congruence.
Qed.

Lemma events_of_absent id p : trail_ok p → id ∉ pr_proposal_id <$> p.1 → events_of id p.2 = [].
Proof. intros [_ He] Hid. unfold events_of. rewrite filter_none; [done|]. intros e <- Hin. by apply Hid, He. Qed.

Lemma review_trail tenantID p p' : proposals_ok p → review tenantID p p' → trail_ok p → trail_ok p'.
Proof.
  intros [Hnd _] Hstep Ht. pose proof Ht as [Hr He].
  destruct Hstep as [rows evs x now Hx _ Hst _ _|before x after evs y ks now _ _ Hc]; cbn [fst snd] in *.
  - split; cbn [fst snd].
    + intros z Hz. change [event_of tenantID (pr_proposal_id x) now ?k] with (event_of tenantID (pr_proposal_id x) now <$> [k]).
      rewrite events_of_app. apply elem_of_app in Hz as [Hz| ->%list_elem_of_singleton].
      * rewrite events_of_other, app_nil_r by (intros Heq; apply Hx, list_elem_of_fmap; eauto). by apply Hr.
      * rewrite events_of_new. change evs with (rows, evs).2. rewrite (events_of_absent _ (rows, evs)) by done. by rewrite Hst.
    + intros e. rewrite fmap_app, !elem_of_app. intros [Hin| ->%list_elem_of_singleton]; [left; by apply He|right]. apply list_elem_of_here.
  - pose proof (change_identity _ _ _ Hc) as Hid. injection Hid as Hid _ _ _.
    assert (∀ z, z ∈ before ++ after → pr_proposal_id z ≠ pr_proposal_id x) as Hne.
    { rewrite fmap_app in Hnd. cbn [fmap list_fmap] in Hnd. apply NoDup_app in Hnd as (_ & Hb & [Ha _]%NoDup_cons).
      intros z Hz Heq. apply elem_of_app in Hz as [Hz|Hz].
      - apply (Hb (pr_proposal_id z)); [apply list_elem_of_fmap; by exists z|]. rewrite Heq. apply list_elem_of_here.
      - apply Ha. apply list_elem_of_fmap. by exists z. }
    split; cbn [fst snd].
    + intros z Hz. rewrite events_of_app. assert (z = y ∨ z ∈ before ++ after) as [->|Hz'] by set_solver.
      * rewrite Hid, events_of_new, foldl_app, Hr by set_solver. by apply change_replays.
      * rewrite events_of_other, app_nil_r by (intros Heq; by eapply Hne). apply Hr. set_solver.
    + intros e. rewrite elem_of_app. rewrite fmap_app. cbn [fmap list_fmap]. rewrite Hid.
      intros [Hin|(k & -> & _)%list_elem_of_fmap]; [apply He in Hin; by rewrite fmap_app in Hin|].
      apply elem_of_app. right. apply list_elem_of_here.
Qed.

End Facts.
