(* ===== verification/CoordOps.v ===== *)
(** * All handlers of the coordinator

    The operations of the coordinator as one type, [coord_op], and the lemma that
    running any of them from an intact store is a trace, [run_coord_runs]. *)

From S2P Require Import Prelude GoStrings Json Ext WalCodec Checkpoint Types Capability Governance.
From S2P Require Import TaskDef Store ProofState StoreLogic StoreSpec StoreTheorems InputRefs.
From S2P Require Import InputRefsFacts CoordState Artifacts Robotics Coordinator Dispatch.
From S2P Require Import CoordLogic CoordHandlers.
From S2P Require Import DispatchLogic.
From S2P Require Import Callbacks CallbackFacts Submission.
Open Scope Z_scope.

Section Ops.
Context `{Ext} `{CheckpointCodec} `{UUIDSupply} `{MapRange} `{AEAD} `{SortSlice} `{!CheckpointCodecLaws}.
Context (execCfg : ExecutionConfig).

(** ** All handlers *)

Inductive coord_op : Type :=
| CoSubmit (req : TaskSubmitRequest)
| CoSubmitForm (body tenantID : string)
| CoSubmitDemo (req : TaskSubmitRequest) (reason : string)
| CoApprove (id : uuid) (tenantID approvedBy : string)
| CoReject (id : uuid) (tenantID rejectedBy reason : string)
| CoCheckpoint (cp : option CheckpointPayload)
| CoComplete (id : uuid)
| CoFailed (id : uuid) (reason : string)
| CoFailedWithDetails (id : uuid) (reason : string) (details : option TaskFailureDetails)
| CoCancel (id : uuid)
| CoRuntimeFailed (task : TaskRecord) (runtimeID : string)
| CoRecoverRuntime (runtimeID : string)
| CoRecoverFailedRuntimes
| CoDispatchFailure (task : TaskRecord)
| CoDequeue (tenantID : string)
| CoJournalPending (task : TaskRecord)
| CoJournalCommitted (task : TaskRecord)
| CoReapDeadlines
| CoReapInputRefs
| CoDispatch (tr : transport) (task : TaskRecord) (checkpoint : option CheckpointPayload)
| CoRevokeCredential (tenantID referenceID : string)
| CoRevokeInputRef (tenantID : string) (taskID refID : uuid) (purpose reason : string)
| CoCallback (k : callback_kind) (r : callback_request)
| CoCancelTask (cancel : string → uuid → string → res bool) (idParam tenantID : string)
| CoCleanupNonces (retention : Z).

Definition void {A} (m : ST CWorld A) : ST CWorld () := m ≫= λ _, mret tt.

Definition run_coord (op : coord_op) : ST CWorld () :=
  match op with
  | CoSubmit req => void (Submit execCfg req)
  | CoSubmitForm body tenant => void (handleTaskSubmit execCfg body tenant)
  | CoSubmitDemo req reason => void (SubmitDemoSimulatedFailure req reason)
  | CoApprove id tenant by_ => void (ApproveTask execCfg id tenant by_)
  | CoReject id tenant by_ reason => void (RejectTask id tenant by_ reason)
  | CoCheckpoint cp => void (HandleCheckpoint cp)
  | CoComplete id => void (HandleComplete id)
  | CoFailed id reason => void (HandleFailed id reason)
  | CoFailedWithDetails id reason details => void (HandleFailedWithDetails id reason details)
  | CoCancel id => void (HandleCancel id)
  | CoRuntimeFailed task rt => void (RecordRuntimeFailedRecoveryDecision task rt)
  | CoRecoverRuntime rt => recoverRuntime execCfg rt
  | CoRecoverFailedRuntimes => recoverFailedRuntimes execCfg
  | CoDispatchFailure task => handleDispatchFailure task
  | CoDequeue tenant => void (dequeueDispatchQueue tenant)
  | CoJournalPending task => writeEffectJournalPending task
  | CoJournalCommitted task => markEffectJournalCommitted task
  | CoReapDeadlines => reapExpiredDeadlines
  | CoReapInputRefs => reapExpiredInputRefs
  | CoDispatch tr task cp => dispatchToRuntime tr task cp
  | CoRevokeCredential tenant ref => void (RevokeAICredentialReference tenant ref)
  | CoRevokeInputRef tenant id ref purpose reason => void (RevokeExecutionInputRef tenant id ref purpose reason)
  | CoCallback k r => void (handle_callback k r)
  | CoCancelTask cancel idParam tenant => void (handleTaskCancel cancel idParam tenant)
  | CoCleanupNonces retention => void (CleanupExpiredRuntimeCallbackNonces retention)
  end.

Lemma runs_void {A} justified P (m : ST CWorld A) :
  runs justified P m (λ _ _, True) → runs justified P (void m) (λ _ _, True).
Proof. intros Hm. eapply runs_bind; [exact Hm|]. intros a. apply runs_done. Qed.

(** Whatever starts a recovery is backed, so recoveries are backed runs. *)
Lemma trace_mono (J J' : DB → job → Prop) c c' :
  (∀ db j, J db j → J' db j) → trace J c c' → trace J' c c'.
Proof.
  intros HJ. induction 1 as [c|c1 c2 c3 Hs _ IH]; [apply rtc_refl|]. eapply rtc_l; [|exact IH].
  destruct Hs as [Hm Hj|j Hdb Hj Hb]; [by apply cs_move|]. by eapply cs_start, HJ.
Qed.

Lemma recovered_backed db j : recovered db j → backed db j.
Proof. destruct j; [by intros [? _]|done]. Qed.

Lemma runs_recovered {A} P (m : ST CWorld A) Q : runs recovered P m Q → runs backed P m Q.
Proof.
  intros Hm c Hc. destruct (Hm c Hc) as [Ht HQ]. split; [|done]. eapply trace_mono; [|exact Ht].
  apply recovered_backed.
Qed.

Lemma trace_void_store justified {A} (m : ST World (res A)) P :
  op_sound (discard m) → runs justified P (void (on_store m)) (λ _ _, True).
Proof. intros Hm. apply runs_void, runs_any, trace_store, op_sound_undiscard, Hm. Qed.

Lemma still_runs {A} justified P (m : ST CWorld A) : within still m → runs justified P m (λ _ _, True).
Proof. intros Hm. apply runs_any, quiet_trace, within_still_quiet, Hm. Qed.

Lemma still_journal_nodes task idx nodes : within still (journal_nodes task idx nodes).
Proof.
  revert idx. induction nodes as [|n nodes IH]; intros idx; cbn [journal_nodes]; [apply within_ret, _|].
  apply within_bind; [apply _| |intros _; apply IH].
  case_bool_decide; [apply within_ignore; [apply _|apply still_c_exec]|apply within_ret, _].
Qed.

(** A submitted form is refused, or the submission of what it compiles to. *)
Lemma submit_form_runs body tenantID : runs backed (λ _, True) (handleTaskSubmit execCfg body tenantID) (λ _ _, True).
Proof.
  unfold handleTaskSubmit. case_bool_decide; [apply runs_done|]. destruct (buildTaskSubmitRequest body tenantID) as [req|e]; [|apply runs_done].
  case_bool_decide; [apply runs_done|]. case_bool_decide; [apply runs_done|].
  eapply runs_bind; [apply Submit_runs|]. intros r. apply runs_done.
Qed.

Lemma run_coord_runs op : runs backed (λ c, db_ok (c_db c)) (run_coord op) (λ _ _, True).
Proof.
  destruct op; cbn [run_coord].
  - eapply runs_conseq; [apply runs_void, Submit_runs|done..].
  - eapply runs_conseq; [apply runs_void, submit_form_runs|done..].
  - eapply runs_conseq; [apply runs_void, Demo_runs|done..].
  - apply runs_void, ApproveTask_runs.
  - apply runs_void, runs_any, RejectTask_trace.
  - apply trace_void_store, (run_op_sound (OpSaveCheckpoint cp)).
  - apply trace_void_store, (run_op_sound (OpMarkCompleted id)).
  - apply trace_void_store, (run_op_sound (OpMarkFailed id reason None)).
  - apply trace_void_store, (run_op_sound (OpMarkFailed id reason details)).
  - apply trace_void_store, (run_op_sound (OpMarkCanceled id)).
  - apply runs_void, runs_any, RecordRuntimeFailed_trace.
  - apply runs_recovered, recoverRuntime_runs.
  - apply runs_recovered, recoverFailedRuntimes_runs.
  - unfold handleDispatchFailure, markAndRecover. destruct (t_RuntimeID task); [|apply runs_done].
    by apply runs_spawn.
  - apply runs_void, still_runs. unfold dequeueDispatchQueue.
    walk ltac:(first [apply still_c_exec | apply still_c_now]).
  - apply still_runs, still_journal_nodes.
  - apply still_runs. unfold markEffectJournalCommitted. walk ltac:(first [apply still_c_exec | apply still_c_now]).
  - apply still_runs, still_reapExpiredDeadlines.
  - apply still_runs. unfold reapExpiredInputRefs. walk ltac:(first [apply still_c_exec | apply still_c_now]).
  - by apply runs_any, dispatch_trace.
  - apply runs_void, still_runs. unfold RevokeAICredentialReference.
    walk ltac:(first [apply still_c_exec | apply still_c_now]).
  - apply runs_void, still_runs. unfold RevokeExecutionInputRef, SaveExecutionInputRefAudit.
    walk ltac:(first [apply still_c_exec | apply still_c_now]).
  - apply runs_void, runs_any, callback_trace.
  - apply runs_void, runs_any, cancel_trace.
  - apply runs_void, runs_any, cleanup_trace.
Qed.
End Ops.
