(* ===== verification/CoordTheorems.v ===== *)
(** * Theorems about the coordinator

    Any sequence of handlers, store operations and changes by other services to
    the coordinator's tables, under any faults: the database stays inside the
    store's contract, a dispatch starts only for a task recorded as dispatched to
    that runtime, recovery never resumes past an irreversible step, runtime
    selection, approval, redispatch bounds, and the paths that do not work. *)

From S2P Require Import Prelude GoStrings Json Ext WalCodec Checkpoint Types Capability Governance.
From S2P Require Import TaskDef Store ProofState StoreLogic StoreSpec StoreTheorems InputRefs.
From S2P Require Import InputRefsFacts CoordState Coordinator CoordLogic CoordHandlers.
From S2P Require Import Artifacts Robotics Dispatch CoordOps.
Open Scope Z_scope.

Section Claims.
Context `{Ext} `{CheckpointCodec} `{UUIDSupply} `{MapRange} `{AEAD} `{SortSlice} `{!CheckpointCodecLaws}.
Context (execCfg : ExecutionConfig).

(** A handler started at any time with any faults, a store operation issued
    directly by a service, or a change of the coordinator's tables (runtimes
    register, send heartbeats and leave). *)
Inductive coord_step (c : CWorld) : CWorld → Prop :=
| coord_step_op op faults now :
    coord_step c (run_coord execCfg op (c {{ c_world ::= λ w, w {{ w_faults := faults; w_now := now }} }})).2
| coord_step_store w : store_step (c_world c) w → coord_step c (c {{ c_world := w }})
| coord_step_tables t : coord_step c (c {{ c_tables := t }}).

Inductive coord_reachable (bs : list binding_row) : CWorld → Prop :=
| coord_start w t : w_db w = empty_db bs → coord_reachable bs (mkCWorld w t [])
| coord_next c c' : coord_reachable bs c → coord_step c c' → coord_reachable bs c'.

Lemma coord_step_trace c c' : db_ok (c_db c) → coord_step c c' → trace backed c c'.
Proof.
  intros Hok [op faults now|w Hs|t].
  - set (c0 := c {{ c_world ::= _ }}).
    destruct (run_coord_runs execCfg op c0) as [Ht _]; [exact Hok|].
    eapply rtc_l; [|exact Ht]. apply cs_move; [apply db_move_refl|done].
  - apply rtc_once, cs_move; [|done]. by apply store_step_sound.
  - apply rtc_once, cs_move; [apply db_move_refl|done].
Qed.

Lemma coord_reachable_ok bs c : coord_reachable bs c → db_ok (c_db c).
Proof.
  induction 1 as [w t Hw|c c' _ IH Hs].
  - unfold c_db. cbn. rewrite Hw. apply empty_db_ok.
  - eapply trace_ok; [by eapply coord_step_trace|done].
Qed.

Lemma trace_db justified c c' : trace justified c c' → rtc db_step (c_db c) (c_db c').
Proof.
  induction 1 as [c|c1 c2 c3 Hs _ IH]; [done|]. destruct Hs as [[Hm _] _|j Hdb _ _]; [by eapply rtc_l|].
  by rewrite <-Hdb.
Qed.

(** The goroutines of a trace, each with the tables it started from. *)
Lemma trace_jobs justified c c' :
  trace justified c c' →
  ∃ started, c_jobs c' = c_jobs c ++ started ∧
    ∀ j, j ∈ started → ∃ db, rtc db_step (c_db c) db ∧ rtc db_step db (c_db c') ∧ justified db j.
Proof.
  induction 1 as [c|c1 c2 c3 Hs Ht (started & Hjobs & Hall)].
  { exists []. split; [by rewrite app_nil_r|set_solver]. }
  apply trace_db in Ht. destruct Hs as [[Hm _] Hj|j Hdb Hj Hb].
  - exists started. split; [congruence|]. intros j (db & Hto & Hfrom & HJ)%Hall.
    exists db. split_and!; [by eapply rtc_l|done..].
  - exists (j :: started). rewrite Hjobs, Hj, <-app_assoc. split; [done|].
    rewrite Hdb in *. intros j' [->|Hin]%elem_of_cons; [by exists (c_db c1)|]. by apply Hall.
Qed.




(** ** Runtime selection *)

Lemma first_routable_Some rows rt :
  first_routable rows = Some rt →
  ∃ i ri, rows !! i = Some ri ∧ ri_runtime_id ri = rt_RuntimeID rt ∧
    NormalizeHTTPRuntimeEndpoint (default "" (ri_endpoint ri)) = Ok (rt_Endpoint rt) ∧
    ∀ j ri', rows !! j = Some ri' → (j < i)%nat →
      is_ok (NormalizeHTTPRuntimeEndpoint (default "" (ri_endpoint ri'))) = false.
Proof.
  induction rows as [|ri rows IH]; cbn [first_routable]; [done|].
  destruct (NormalizeHTTPRuntimeEndpoint _) as [ep|e] eqn:Hn.
  - intros [= <-]. exists 0%nat, ri. split_and!; [done..|]. lia.
  - intros (i & ri1 & Hi & Hid & Hep & Hbefore)%IH. exists (S i), ri1. split_and!; [done..|].
    intros [|j] ri' Hj Hlt; cbn in Hj; [by simplify_eq; rewrite Hn|]. apply (Hbefore j); [done|lia].
Qed.

Lemma first_routable_None rows ri :
  first_routable rows = None → ri ∈ rows →
  is_ok (NormalizeHTTPRuntimeEndpoint (default "" (ri_endpoint ri))) = false.
Proof.
  induction rows as [|x rows IH]; cbn [first_routable]; [set_solver|].
  destruct (NormalizeHTTPRuntimeEndpoint (default "" (ri_endpoint x))) as [ep|e] eqn:Hn; [done|].
  intros Hf [->|Hin]%elem_of_cons; [by rewrite Hn|by apply IH].
Qed.

(** In a sorted list, an element with a smaller key stands before. *)
Lemma sorted_before {A} (key : A → Z) l i x j y :
  StronglySorted Z.le (key <$> l) → l !! i = Some x → l !! j = Some y → key y < key x → (j < i)%nat.
Proof.
  revert i j. induction l as [|z l IH]; intros i j Hs Hi Hj Hlt; [done|].
  cbn in Hs. inversion Hs as [|? ? Hl HF]; subst. rewrite Forall_fmap, Forall_forall in HF.
  destruct i as [|i]; cbn in Hi.
  - injection Hi as ->. destruct j as [|j]; cbn in Hj; [simplify_eq; lia|].
    apply list_elem_of_lookup_2 in Hj. specialize (HF _ Hj). cbn in HF. lia.
  - destruct j as [|j]; [lia|]. cbn in Hj. assert (j < i)%nat by (by eapply IH). lia.
Qed.

(** A statement on the coordinator's tables either fails or returns what it computes. *)
Lemma c_exec_read {A} (q : tstmt A) c :
  (c_exec q c).1 = Err sql_error ∨ (c_exec q c).1 = (q (c_db c) (c_tables c)).1.
Proof.
  destruct c as [w0 t js]. unfold c_exec, c_db. cbn. pose proof (next_fault_db w0) as Hf.
  destruct (next_fault w0) as [f w]. cbn in Hf. rewrite <-Hf.
  destruct f; [right|by left|left]; cbn; by destruct (q (w_db w) t).
Qed.

Lemma c_exec_no_faults {A} (q : tstmt A) c :
  w_faults (c_world c) = [] → (c_exec q c).1 = (q (c_db c) (c_tables c)).1.
Proof.
  destruct c as [w t js]. cbn. intros Hf. unfold c_exec, next_fault, c_db. cbn. rewrite Hf. cbn.
  by destruct (q (w_db w) t).
Qed.

Definition routable (ri : runtime_row) : bool :=
  is_ok (NormalizeHTTPRuntimeEndpoint (default "" (ri_endpoint ri))).

Definition eligible_now (tenantID preferred : string) (c : CWorld) (ri : runtime_row) : Prop :=
  ri ∈ runtime_instances (c_tables c) ∧
  runtime_eligible tenantID (TrimSpace preferred) (w_now (c_world c)) (heartbeat_seconds execCfg) ri = true.

Definition busy (c : CWorld) (ri : runtime_row) : Z := active_count (ri_runtime_id ri) (c_db c).

Definition candidates (tenantID preferred : string) (c : CWorld) : list runtime_row :=
  sort_slice (busy c) (filter (λ ri, runtime_eligible tenantID (TrimSpace preferred) (w_now (c_world c))
    (heartbeat_seconds execCfg) ri = true) (runtime_instances (c_tables c))).

Lemma selectRuntime_eq tenantID preferred c r :
  (selectRuntime execCfg tenantID preferred c).1 = r →
  r = Err sql_error ∨
  match first_routable (take 10 (candidates tenantID preferred c)) with
  | Some rt => r = Ok rt
  | None => is_ok r = false
  end.
Proof.
  intros <-. unfold selectRuntime. rewrite bind_run. unfold bind_err. rewrite bind_run.
  set (q := candidate_runtimes _ _ _ _). set (c1 := (c_now c).2).
  destruct (c_exec_read q c1) as [-> | ->]; [by left|right]. unfold q, candidate_runtimes. cbn.
  change (first_routable (take 10 (sort_slice _ _))) with (first_routable (take 10 (candidates tenantID preferred c))).
  by destruct (first_routable _).
Qed.

Lemma selectRuntime_no_faults tenantID preferred c :
  w_faults (c_world c) = [] →
  is_ok (selectRuntime execCfg tenantID preferred c).1 =
  match first_routable (take 10 (candidates tenantID preferred c)) with Some _ => true | None => false end.
Proof.
  intros Hf. unfold selectRuntime. rewrite bind_run. unfold bind_err. rewrite bind_run.
  rewrite c_exec_no_faults by exact Hf. unfold candidate_runtimes. cbn.
  change (first_routable (take 10 (sort_slice _ _))) with (first_routable (take 10 (candidates tenantID preferred c))).
  by destruct (first_routable _).
Qed.

Lemma elem_of_candidates `{!SortSliceLaws} tenantID preferred c ri :
  ri ∈ candidates tenantID preferred c ↔ eligible_now tenantID preferred c ri.
Proof.
  unfold candidates, eligible_now. rewrite sort_slice_perm, list_elem_of_filter. tauto.
Qed.

(** The eligibility test, spelled out. *)
Lemma runtime_eligible_spec tenantID preferred now hbSec ri :
  runtime_eligible tenantID preferred now hbSec ri = true →
  ri_tenant_id ri = tenantID ∧ ri_is_healthy ri = true ∧ ri_status ri = "active" ∧
  (preferred ≠ "" → ri_runtime_id ri = preferred) ∧
  ∃ hb, ri_last_heartbeat ri = Some hb ∧ now - hbSec * Second < hb.
Proof.
  unfold runtime_eligible. rewrite !andb_true_iff, orb_true_iff, !bool_decide_eq_true.
  intros (((((Hten & Hh) & Hs) & _) & Hhb) & Hpref). split_and!; try done.
  - intros Hne. destruct Hpref as [Hn|Hid]; [|done].
    unfold nonempty in Hn. by rewrite bool_decide_false in Hn.
  - destruct (ri_last_heartbeat ri) as [hb|]; [|done]. exists hb. split; [done|]. by apply Z.ltb_lt.
Qed.

Lemma select_runtime_choice `{!SortSliceLaws} tenantID preferred c rt :
  first_routable (take 10 (candidates tenantID preferred c)) = Some rt →
  ∃ ri, eligible_now tenantID preferred c ri ∧ ri_runtime_id ri = rt_RuntimeID rt ∧
    NormalizeHTTPRuntimeEndpoint (default "" (ri_endpoint ri)) = Ok (rt_Endpoint rt) ∧
    ∀ ri', eligible_now tenantID preferred c ri' → routable ri' = true → busy c ri ≤ busy c ri'.
Proof.
  intros (i & ri & Hi & Hid & Hep & Hbefore)%first_routable_Some.
  rewrite lookup_take_Some in Hi. destruct Hi as [Hi Hlt]. exists ri. split_and!; [|done..|].
  { apply elem_of_candidates. by eapply list_elem_of_lookup_2. }
  intros ri' Hel Hrt. destruct (decide (busy c ri ≤ busy c ri')) as [|Hgt]; [done|].
  apply elem_of_candidates, list_elem_of_lookup_1 in Hel as [j Hj].
  assert (j < i)%nat as Hji.
  { eapply (sorted_before (busy c) (candidates tenantID preferred c)); [|done..|lia]. apply sort_slice_sorted. }
  unfold routable in Hrt. rewrite (Hbefore j ri') in Hrt; [done| |done].
  rewrite lookup_take_Some. split; [done|lia].
Qed.

(** Runtime selection.  A selected runtime belongs to the tenant, is
    healthy and active, has sent a heartbeat within the timeout, is the
    preferred one when one was asked for, and has an endpoint that normalizes
    to the returned one; no other eligible runtime with a routable endpoint has
    fewer tasks in flight, although only ten rows are read. Without faults, if
    there are at most ten eligible runtimes and one is routable, one is
    selected. *)
Theorem select_runtime_least_busy `{!SortSliceLaws} tenantID preferred c :
  (∀ rt, (selectRuntime execCfg tenantID preferred c).1 = Ok rt →
     ∃ ri, eligible_now tenantID preferred c ri ∧
       ri_tenant_id ri = tenantID ∧ ri_is_healthy ri = true ∧ ri_status ri = "active" ∧
       (TrimSpace preferred ≠ "" → ri_runtime_id ri = TrimSpace preferred) ∧
       (∃ hb, ri_last_heartbeat ri = Some hb ∧ w_now (c_world c) - heartbeat_seconds execCfg * Second < hb) ∧
       ri_runtime_id ri = rt_RuntimeID rt ∧
       NormalizeHTTPRuntimeEndpoint (default "" (ri_endpoint ri)) = Ok (rt_Endpoint rt) ∧
       ∀ ri', eligible_now tenantID preferred c ri' → routable ri' = true → busy c ri ≤ busy c ri') ∧
  (∀ ri, w_faults (c_world c) = [] → (length (candidates tenantID preferred c) ≤ 10)%nat →
     eligible_now tenantID preferred c ri → routable ri = true →
     is_ok (selectRuntime execCfg tenantID preferred c).1 = true).
Proof.
  split.
  - intros rt Hrt. pose proof (selectRuntime_eq _ _ _ _ Hrt) as [?|Hsel]; [done|].
    destruct (first_routable _) as [rt'|] eqn:Hf; [|done]. injection Hsel as <-.
    destruct (select_runtime_choice _ _ _ _ Hf) as (ri & Hel & Hid & Hep & Hbest).
    exists ri. pose proof Hel as [_ Hb]. apply runtime_eligible_spec in Hb as (? & ? & ? & ? & ?).
    split_and!; done.
  - intros ri Hfaults Hlen Hel Hrt. pose proof (selectRuntime_no_faults tenantID preferred c Hfaults) as ->.
    rewrite take_ge by done. destruct (first_routable _) as [rt|] eqn:Hf; [done|].
    apply elem_of_candidates in Hel. unfold routable in Hrt.
    by rewrite (first_routable_None _ _ Hf Hel) in Hrt.
Qed.

(** ** Approval *)

(** A task that does not await approval is refused, by both handlers. *)
Definition not_awaiting (id : uuid) (db : DB) : Prop :=
  ∀ r, task_records db !! id = Some r → r_status r ≠ TaskStatusApprovalRequired.

Lemma GetTask_not_awaiting id tenant c t :
  not_awaiting id (c_db c) → (on_store (GetTask id tenant) c).1 = Ok t → TaskAwaitingApproval (t_Status t) = false.
Proof.
  intros Hno Hok. destruct (on_store_result (GetTask id tenant) c) as (Hr & _). rewrite Hr in Hok.
  destruct (hoare_GetTask id tenant (c_db c) (c_world c) eq_refl) as [_ Ht].
  destruct (Ht t Hok) as (row & Hrow & _ & ->). specialize (Hno _ Hrow). cbn. by destruct (r_status row).
Qed.

Lemma approval_refused id tenant by_ c :
  not_awaiting id (c_db c) →
  still c (ApproveTask execCfg id tenant by_ c).2 ∧ is_ok (ApproveTask execCfg id tenant by_ c).1 = false.
Proof.
  intros Hno. unfold ApproveTask, bind_err. rewrite bind_run.
  pose proof (still_GetTask id tenant c) as Hst.
  destruct (on_store (GetTask id tenant) c).1 as [t|e] eqn:Hg; [|done].
  by rewrite (GetTask_not_awaiting _ _ _ _ Hno Hg).
Qed.

Lemma rejection_refused id tenant by_ reason c :
  not_awaiting id (c_db c) →
  still c (RejectTask id tenant by_ reason c).2 ∧ is_ok (RejectTask id tenant by_ reason c).1 = false.
Proof.
  intros Hno. unfold RejectTask, bind_err. rewrite bind_run.
  pose proof (still_GetTask id tenant c) as Hst.
  destruct (on_store (GetTask id tenant) c).1 as [t|e] eqn:Hg; [|done].
  by rewrite (GetTask_not_awaiting _ _ _ _ Hno Hg).
Qed.

(** Dispatched, and no goroutine started beyond [js]. *)
Definition claimed (id : uuid) (rt ep : string) (js : list job) (c : CWorld) : Prop :=
  c_jobs c = js ∧ dispatched_to id rt ep (c_db c).

Lemma hoare_claimed {A} (m : ST CWorld A) id rt ep js :
  within (quiet backed) m → hoare (claimed id rt ep js) m (λ _, claimed id rt ep js).
Proof.
  intros Hm c [Hj Hd]. destruct (Hm c) as (_ & Hj' & Hk). split; [congruence|].
  by eapply quiet_stable_dispatched.
Qed.

Lemma jobs_on_store {A} (m : ST World A) js : hoare (λ c, c_jobs c = js) (on_store m) (λ _ c, c_jobs c = js).
Proof. intros c Hc. by destruct (on_store_result m c) as (_ & _ & -> & _). Qed.

Definition approved (id : uuid) (tenant : string) (db : DB) (js : list job) (r : res TaskRecord) (c : CWorld) : Prop :=
  match r with
  | Err _ => c_jobs c = js
  | Ok t =>
    (∃ row, task_records db !! id = Some row ∧ r_tenant_id row = tenant ∧
            r_status row = TaskStatusApprovalRequired) ∧
    ∃ definition rt ep, c_jobs c = js ++ [JDispatch (t {{ t_TaskDefinition := definition }}) None] ∧
      t_RuntimeID t = Some rt ∧ t_RuntimeEndpoint t = Some ep ∧ dispatched_to id rt ep (c_db c)
  end.

Lemma hoare_ApproveTask id tenant by_ db js :
  hoare (at_ db js) (ApproveTask execCfg id tenant by_) (approved id tenant db js).
Proof.
  unfold ApproveTask.
  eapply (hoare_bind_err _ _ _ (λ r c, at_ db js c ∧ task_of id tenant r db));
    [| |by intros e c [[_ ?] _]].
  { intros c [Hdb Hj]. destruct (on_store_result (GetTask id tenant) c) as (Hr & Hd & Hjobs & _).
    destruct (hoare_GetTask id tenant db (c_world c) Hdb) as [Hdb' Ht].
    unfold at_. by rewrite Hr, Hd, Hjobs. }
  intros task. apply hoare_pure. intros Hrow. destruct (Hrow _ eq_refl) as (row & Hr & Hten & Htask).
  destruct (TaskAwaitingApproval (t_Status task)) eqn:Haw; cbn [negb]; [|by apply hoare_ret; intros c [_ ?]].
  assert (r_status row = TaskStatusApprovalRequired) as Hst.
  { rewrite Htask in Haw. cbn in Haw. by destruct (r_status row). }
  eapply hoare_bind; [apply still_hoare, still_selectRuntime|].
  intros [runtime|e]; [|by apply hoare_ret; intros c [_ ?]]. cbv beta iota.
  eapply (hoare_bind _ _ _ (λ r c, c_jobs c = js ∧
    (r = Ok tt → dispatched_to id (rt_RuntimeID runtime) (rt_Endpoint runtime) (c_db c)))).
  { intros c [_ Hj]. destruct (on_store_result (MarkApprovedDispatched id tenant (rt_RuntimeID runtime)
      (rt_Endpoint runtime) by_) c) as (_ & _ & Hjobs & _). split; [congruence|].
    by apply (runs_MarkApprovedDispatched backed (λ _, True)). }
  intros [[]|e]; [|by apply hoare_ret; intros c [? _]]. cbv beta iota.
  eapply (hoare_conseq _ (claimed id (rt_RuntimeID runtime) (rt_Endpoint runtime) js) _ _
    (approved id tenant db js)); [|by intros c [? Hd]; split; [|apply Hd]|done].
  eapply hoare_bind; [apply hoare_claimed, within_ignore; [apply _|apply quiet_ResolveApprovalRequest]|].
  intros []. cbv zeta.
  eapply hoare_bind; [apply hoare_claimed, within_still_quiet, still_rehydrate_for|].
  intros [rehydrated|e]; cbv beta iota.
  - eapply (hoare_bind _ _ _ (λ _, approved id tenant db js (Ok _))); [|intros []; by apply hoare_ret].
    intros c [Hj Hd]. split; [by exists row|].
    exists rehydrated, (rt_RuntimeID runtime), (rt_Endpoint runtime). split_and!; [by rewrite <-Hj|done..].
  - eapply (hoare_bind _ _ _ (λ _ c, c_jobs c = js)); [|intros []; by apply hoare_ret].
    eapply hoare_bind; [eapply hoare_conseq; [apply jobs_on_store|by intros c [? _]|done]|].
    intros r. by apply hoare_ret.
Qed.


(** ** Bounded redispatch *)

(** A fault-free run that leaves the task table and the goroutines alone. *)
Definition wreads (w w' : World) : Prop :=
  w_faults w = [] → w_faults w' = [] ∧ task_records (w_db w') = task_records (w_db w).
Definition reads (c c' : CWorld) : Prop :=
  w_faults (c_world c) = [] →
  w_faults (c_world c') = [] ∧ task_records (c_db c') = task_records (c_db c) ∧ c_jobs c' = c_jobs c.

#[local] Instance wreads_preorder : PreOrder wreads.
Proof.
  split; [done|]. intros w1 w2 w3 H12 H23 Hf. destruct (H12 Hf) as [Hf2 Ht].
  destruct (H23 Hf2). split; congruence.
Qed.
#[local] Instance reads_preorder : PreOrder reads.
Proof.
  split; [done|]. intros c1 c2 c3 H12 H23 Hf. destruct (H12 Hf) as (Hf2 & Ht & Hj).
  destruct (H23 Hf2) as (? & ? & ?). split_and!; congruence.
Qed.

Lemma reads_store {A} (m : ST World A) : within wreads m → within reads (on_store m).
Proof.
  intros Hm c Hf. destruct (Hm (c_world c) Hf) as [Hf' Ht].
  unfold on_store, c_db. by destruct (m (c_world c)).
Qed.

Lemma wreads_exec {A} (q : stmt A) :
  (∀ db, task_records (q db).2 = task_records db) → within wreads (exec q).
Proof. intros Hq w Hf. rewrite exec_no_faults by done. split; [done|]. apply Hq. Qed.

Lemma reads_c_exec {A} (q : tstmt A) : within reads (c_exec q).
Proof.
  intros [w t js] Hf. cbn in Hf. unfold c_exec, next_fault. cbn. rewrite Hf. cbn. by destruct (q (w_db w) t).
Qed.

Lemma reads_recovery_event task taskID ev src tgt cp allowed reason :
  within reads (recovery_event task taskID ev src tgt cp allowed reason).
Proof.
  apply within_ignore; [apply _|]. apply reads_store. unfold SaveRecoveryEvent.
  case_bool_decide; [apply within_ret, _|]. apply within_bind; [apply _|by case_bool_decide|].
  intros id. by apply wreads_exec.
Qed.

Lemma reads_Hydrate task : within reads (HydrateTaskPermissionEnvelope task).
Proof.
  unfold HydrateTaskPermissionEnvelope, LoadLatestTaskPermissionEnvelope. walk ltac:(apply reads_c_exec).
Qed.

(** The run so far: no faults ahead, the row as it was, nothing started. *)
Definition quietly (id : uuid) (r : task_row) (js : list job) (c : CWorld) : Prop :=
  w_faults (c_world c) = [] ∧ task_records (c_db c) !! id = Some r ∧ c_jobs c = js.

Lemma hoare_quietly {A} (m : ST CWorld A) id r js :
  within reads m → hoare (quietly id r js) m (λ _, quietly id r js).
Proof.
  intros Hm c (Hf & Hr & Hj). destruct (Hm c Hf) as (? & Ht & ?). split_and!; [done|by rewrite Ht|congruence].
Qed.

Lemma hoare_shouldEnqueueDLQ task r js :
  default 0 (r_attempt_count r) < int32_max →
  hoare (quietly (t_TaskID task) r js) (shouldEnqueueDLQ execCfg task)
    (λ p c, c_jobs c = js ∧ p.1 = (maxRecoveryAttemptsOrDefault execCfg <? default 0 (r_attempt_count r) + 1)).
Proof.
  intros Hlt c (Hf & Hr & Hj). unfold shouldEnqueueDLQ. rewrite bind_run.
  destruct (on_store_result (exec (bump_attempts (t_TaskID task))) c) as (Hres & _ & Hjobs & _).
  split; [exact (eq_trans Hjobs Hj)|]. rewrite Hres, exec_no_faults by done. unfold bump_attempts. unfold c_db in Hr. rewrite Hr.
  destruct (Z.ltb_spec int32_max (default 0 (r_attempt_count r) + 1)); [lia|done].
Qed.

Lemma jobs_fail_task id reason details js :
  hoare (λ c, c_jobs c = js) (fail_task id reason details) (λ _ c, c_jobs c = js).
Proof. eapply hoare_bind; [apply jobs_on_store|]. intros a. by apply hoare_ret. Qed.

Lemma hoare_quietly_GetTask id tenant r js :
  r_task_id r = id →
  hoare (quietly id r js) (on_store (GetTask id tenant))
    (λ g c, quietly id r js c ∧ ∀ t, g = Ok t → t_TaskID t = id).
Proof.
  intros Hid c Hc. split.
  - revert c Hc. apply hoare_quietly, reads_store. unfold GetTask.
    apply within_bind_err; [apply _|by apply wreads_exec|]. intros row. apply within_ret, _.
  - destruct Hc as (_ & Hr & _). destruct (on_store_result (GetTask id tenant) c) as (-> & _).
    destruct (hoare_GetTask id tenant (c_db c) (c_world c) eq_refl) as [_ Ht].
    intros t (row & Hrow & _ & ->)%Ht. cbn. congruence.
Qed.

Lemma reads_GetCumulative id : within reads (on_store (GetCumulativeRecoveryCheckpoint id)).
Proof.
  apply reads_store. unfold GetCumulativeRecoveryCheckpoint, GetAllCheckpoints.
  walk ltac:(by apply wreads_exec).
Qed.

(** Past the maximum, the recovery of a task only records its failure. *)
Lemma recover_task_exhausted runtimeID id r js :
  r_task_id r = id → default 0 (r_attempt_count r) < int32_max →
  maxRecoveryAttemptsOrDefault execCfg ≤ default 0 (r_attempt_count r) →
  hoare (quietly id r js) (recover_task execCfg runtimeID id) (λ _ c, c_jobs c = js).
Proof.
  intros Hid Hlt Hmax. unfold recover_task.
  assert (∀ c, quietly id r js c → c_jobs c = js) as Hq by (by intros c (_ & _ & ?)).
  eapply hoare_bind; [apply hoare_quietly, reads_GetCumulative|]. intros stored.
  eapply hoare_bind; [apply hoare_quietly, reads_store; by apply wreads_exec|]. intros q. cbv zeta.
  eapply hoare_bind; [by apply hoare_quietly_GetTask|].
  intros [task|e]; [|apply hoare_ret; intros c [? _]; by apply Hq]. apply hoare_pure.
  intros Htid. specialize (Htid _ eq_refl).
  eapply hoare_bind; [apply hoare_quietly, reads_recovery_event|]. intros [].
  eapply (hoare_bind _ _ _ (λ h c, quietly id r js c ∧ ∀ t, h = Ok t → t_TaskID t = id)).
  { intros c Hc. split; [by apply (hoare_quietly _ _ _ _ (reads_Hydrate task))|].
    intros t [Ht _]%Hydrate_same. congruence. }
  intros [task'|e]; [|apply hoare_ret; intros c [? _]; by apply Hq]. apply hoare_pure.
  intros Htid'. specialize (Htid' _ eq_refl). cbv beta iota zeta. case_match.
  { unfold handleRecoverySkip. case_match; [|by apply hoare_ret].
    eapply hoare_conseq; [apply jobs_fail_task|exact Hq|done]. }
  eapply hoare_bind; [rewrite <-Htid'; by apply hoare_shouldEnqueueDLQ|].
  intros [exceeded task2]. cbn [fst]. apply hoare_pure. intros ->.
  destruct (Z.ltb_spec (maxRecoveryAttemptsOrDefault execCfg) (default 0 (r_attempt_count r) + 1)); [|lia].
  eapply (hoare_bind _ _ _ (λ _ c, c_jobs c = js)); [|intros []; apply jobs_fail_task].
  intros c Hc. destruct (within_ignore still (enqueueDLQ task2 "max_recovery_attempts_exceeded")
    (still_enqueueDLQ _ _) c) as [_ ->]. done.
Qed.


(** ** Paths that do not work *)

(** The deadline reaper never expires anything.  Whatever tasks are past
    their deadline and whatever faults occur, a pass of the reaper leaves the
    store's tables as they are and starts nothing: its statement assigns a
    column the table does not have, which aborts the transaction. *)
Theorem deadline_reaper_inert c :
  c_db (reapExpiredDeadlines c).2 = c_db c ∧ c_jobs (reapExpiredDeadlines c).2 = c_jobs c.
Proof. apply still_reapExpiredDeadlines. Qed.

(** Failing a task that was never dispatched does nothing. *)
Lemma fail_pending id reason details w r :
  task_records (w_db w) !! id = Some r → r_status r = TaskStatusPending →
  is_ok (MarkFailedWithDetails id reason details w).1 = false ∧
  w_db (MarkFailedWithDetails id reason details w).2 = w_db w.
Proof.
  intros Hr Hs. assert (fail_guard r = false) as Hg by (rewrite guard_mutation, Hs; done).
  pose proof (hoare_MarkFailedWithDetails id reason details (w_db w) w eq_refl) as [Hft Hok].
  assert (w_db (MarkFailedWithDetails id reason details w).2 = w_db w) as Hdb.
  { destruct Hft as [|db1 (r' & Hr' & Hg' & _)|d db1 _ _ (r' & Hr' & Hg' & _)]; [done|congruence..]. }
  split; [|done]. destruct (MarkFailedWithDetails id reason details w).1 as [[]|e]; [|done].
  destruct (Hok eq_refl) as (r' & Hr' & Hs'). rewrite Hdb in Hr'. congruence.
Qed.

Lemma fail_task_pending id reason details c r :
  task_records (c_db c) !! id = Some r → r_status r = TaskStatusPending →
  still c (fail_task id reason details c).2.
Proof.
  intros Hr Hs. unfold fail_task, ignore. rewrite bind_run.
  destruct (on_store_result (MarkFailedWithDetails id reason details) c) as (_ & Hdb & Hj & _).
  destruct (fail_pending id reason details (c_world c) r Hr Hs) as [_ Heq]. split; [|done].
  cbn. by rewrite Hdb, Heq.
Qed.

(** A submission that finds no runtime leaves its task pending.  Whatever
    faults occur, the error is reported and the attempt to fail the task is
    refused, so the task's row, with its idempotency key, is left as it was
    created and nothing will pick it up. *)
Theorem no_runtime_leaves_pending req p c r e :
  task_records (c_db c) !! t_TaskID (p_task p) = Some r → r_status r = TaskStatusPending →
  (selectRuntime execCfg (sr_TenantID req) (sr_PreferredRuntimeID req) c).1 = Err e →
  (submit_inserted execCfg req p c).1 = Err (Wrapf "no healthy runtime: " e "") ∧
  c_db (submit_inserted execCfg req p c).2 = c_db c ∧
  c_jobs (submit_inserted execCfg req p c).2 = c_jobs c.
Proof.
  intros Hr Hs Hsel. unfold submit_inserted. cbv zeta. rewrite bind_run, Hsel. cbv beta iota.
  rewrite bind_run. split; [done|].
  pose proof (still_selectRuntime execCfg (sr_TenantID req) (sr_PreferredRuntimeID req) c) as Hst.
  set (c1 := (selectRuntime execCfg (sr_TenantID req) (sr_PreferredRuntimeID req) c).2) in *.
  assert (still c1 (fail_task (t_TaskID (p_task p)) "no healthy runtime available"
    (overtureTaskFailureDetails "submit" "no_runtime_available" "no healthy runtime available") c1).2) as Hf.
  { apply (fail_task_pending _ _ _ _ r); [|done]. by destruct Hst as [-> _]. }
  destruct Hst, Hf. split; cbn; congruence.
Qed.

(** A simulated demo failure never succeeds for a new task.  Under any
    faults, success is reported only for a request that repeats the
    idempotency key of a task that existed before. *)
Theorem demo_failure_never_recorded req reason p c t :
  (demo_prepared req reason p c).1 = Ok t →
  is_Some (find_by_key (t_TenantID (p_task p)) (t_IdempotencyKey (p_task p)) (c_db c)).
Proof.
  unfold demo_prepared. rewrite bind_run.
  destruct (hoare_CreateTaskWithExecutionInputRefs (p_task p) (p_refs p) (c_db c) (c_jobs c) c)
    as (_ & _ & Hres); [done|].
  set (c1 := (CreateTaskWithExecutionInputRefs (p_task p) (p_refs p) c).2) in *.
  destruct (CreateTaskWithExecutionInputRefs (p_task p) (p_refs p) c).1 as [[]|e]; [|by destruct Hres|done].
  destruct Hres as (definition & now & Hc%created_row). cbv zeta. rewrite bind_run.
  set (m := MarkFailedWithDetails _ _ _). destruct (on_store_result m c1) as (-> & _).
  destruct (fail_pending (t_TaskID (p_task p)) (if nonempty (TrimSpace reason) then TrimSpace reason
    else "demo simulated failure") (overtureTaskFailureDetails "submit" "demo_simulated_failure"
    (if nonempty (TrimSpace reason) then TrimSpace reason else "demo simulated failure")) (c_world c1) _ Hc)
    as [Hno _]; [done|]. fold m in Hno. by destruct (m (c_world c1)).1.
Qed.
End Claims.
