(* ===== verification/CoordExamples.v ===== *)
(** * Concrete runs of the coordinator

    A tenant with two runtimes: a submission dispatches its task, the runtime
    checkpoints it and falls silent, and recovery redispatches the task to the
    other runtime.  The theorems of CoordTheorems.v are applied to these runs. *)

From S2P Require Import Prelude GoStrings Json Ext WalCodec Checkpoint Types Capability Governance.
From S2P Require Import TaskDef Store ProofState StoreLogic StoreSpec StoreTheorems StoreExamples.
From S2P Require Import InputRefs InputRefsFacts CoordState Coordinator CoordLogic CoordHandlers.
From S2P Require Import Artifacts Robotics Dispatch CoordOps.
From S2P Require Import CoordTheorems.
Open Scope Z_scope.

Module CoordExample.
#[local] Existing Instance CapabilityExample.ext.
#[local] Existing Instance stable_sort.
#[local] Existing Instance stable_sort_laws.
#[local] Existing Instance StoreExample.supply.
#[local] Existing Instance StoreExample.codec.
#[local] Existing Instance StoreExample.codec_laws.
#[local] Existing Instance InputRefsExample.range_as_listed.
#[local] Existing Instance InputRefsExample.toy_aead.

Definition cfg : ExecutionConfig := defaultExecutionConfig.

Definition runtime (id : string) (hb : time) : runtime_row :=
  mkRuntime id "acme" (Some ("http://" +:+ id)) true "active" (Some hb) None.

Definition tables (rts : list runtime_row) : Tables := mkTables rts [] [] ∅ ∅ [] [] [] []
  {[ "acme" := obj_text [("allowed_capabilities", arr_text [str_text "tools.http"])] ]} [] [] [] [] [] [] [] [] [].

(** A step that only reads, then an irreversible one. *)
Definition node (id effect : string) : string :=
  obj_text [("node_id", str_text id); ("kind", str_text "tool"); ("tool_name", str_text "http");
            ("effect_class", str_text effect)].
Definition definition_text : string :=
  obj_text [("graph", obj_text [("nodes", arr_text [node "n0" "idempotent"; node "n1" "irreversible"])])].

Definition request : TaskSubmitRequest :=
  mkSubmitRequest 7%N "acme" "execution_graph" definition_text None [] [] "key-1" None "" None "" None.

Definition at_time (now : time) (c : CWorld) : CWorld :=
  c {{ c_world ::= λ w, w {{ w_faults := []; w_now := now }} }}.
Definition handle (op : coord_op) (now : time) (c : CWorld) : CWorld := (run_coord cfg op (at_time now c)).2.

Definition both_alive : Tables := tables [runtime "rt-1" (1000 * Second); runtime "rt-2" (1000 * Second)].
Definition one_silent : Tables := tables [runtime "rt-1" (1000 * Second); runtime "rt-2" (2000 * Second)].

Definition c0 : CWorld := mkCWorld (mkWorld (empty_db []) [] 0 0) both_alive [].
(** The task is dispatched to rt-1, which checkpoints its first step. *)
Definition c1 : CWorld := handle (CoSubmit request) (1000 * Second) c0.
Definition c2 : CWorld := handle (CoCheckpoint (Some (CheckpointExample.delta [0] 0))) (1001 * Second) c1.
(** rt-1 falls silent. *)
Definition c3 : CWorld := at_time (2000 * Second) (c2 {{ c_tables := one_silent }}).
Abbreviation c4 := ((recoverFailedRuntimes cfg c3).2).

Lemma step_at_time op now c : coord_step cfg c (handle op now c).
Proof. apply coord_step_op. Qed.

Lemma coord_reach0 : coord_reachable cfg [] c0.
Proof. by apply coord_start. Qed.
Lemma coord_reach1 : coord_reachable cfg [] c1.
Proof. eapply coord_next; [apply coord_reach0|apply step_at_time]. Qed.
Lemma coord_reach2 : coord_reachable cfg [] c2.
Proof. eapply coord_next; [apply coord_reach1|apply step_at_time]. Qed.
Lemma at_time_ok now t c : db_ok (c_db c) → db_ok (c_db (at_time now (c {{ c_tables := t }}))).
Proof. intros Hok. exact Hok. Qed.
Lemma c3_ok : db_ok (c_db c3).
Proof. exact (at_time_ok _ _ c2 (coord_reachable_ok cfg [] c2 coord_reach2)). Qed.

(** What is left to look at: the dispatches started, by runtime and checkpoint. *)
Definition dispatches (c : CWorld) : list (option string * option Z) :=
  (λ j, match j with
        | JDispatch t cp => (t_RuntimeID t, LastStep <$> cp)
        | JRecover rt => (Some rt, None)
        end) <$> c_jobs c.


Definition jobs1 : list job := Eval vm_compute in c_jobs c1.
Definition jobs4 : list job := Eval vm_compute in c_jobs c4.
Lemma jobs1_eq : c_jobs c1 = jobs1.
Proof. vm_compute. reflexivity. Qed.
Lemma jobs3_eq : c_jobs c3 = jobs1.
Proof. vm_compute. reflexivity. Qed.
Lemma jobs4_eq : c_jobs c4 = jobs4.
Proof. vm_compute. reflexivity. Qed.



Lemma select_runtime_least_busy_witness :
  ∃ rt ri, (selectRuntime cfg "acme" "" c1).1 = Ok rt ∧ rt_RuntimeID rt = "rt-2" ∧
    eligible_now cfg "acme" "" c1 ri ∧
    ∀ ri', eligible_now cfg "acme" "" c1 ri' → routable ri' = true → busy c1 ri ≤ busy c1 ri'.
Proof.
  destruct (selectRuntime cfg "acme" "" c1).1 as [rt|e] eqn:Hs; [|vm_compute in Hs; discriminate Hs].
  destruct (proj1 (select_runtime_least_busy cfg "acme" "" c1) rt Hs)
    as (ri & Hel & _ & _ & _ & _ & _ & _ & _ & Hbest).
  exists rt, ri. split_and!; [reflexivity| |exact Hel|exact Hbest].
  vm_compute in Hs. injection Hs as <-. reflexivity.
Defined.

(** A task whose node is marked by the actions gateway. *)
Definition gated_text : string :=
  obj_text [("graph", obj_text [("nodes", arr_text
    [obj_text [("node_id", str_text "n0"); ("kind", str_text "tool"); ("tool_name", str_text "http");
               ("metadata", obj_text [("approval_required", "true")])]])])].
Definition gated_request : TaskSubmitRequest :=
  mkSubmitRequest 8%N "acme" "execution_graph" gated_text None [] [] "key-2" None "" None "" None.
Definition gated : CWorld := handle (CoSubmit gated_request) (1000 * Second) c0.


(** rt-1 has been marked failed and its task is recovering. *)
Definition recovering : CWorld := (on_store (MarkRecovering "rt-1") c3).2.


Lemma deadline_reaper_inert_witness :
  c_db (reapExpiredDeadlines recovering).2 = c_db recovering.
Proof. exact (proj1 (deadline_reaper_inert recovering)). Defined.

(** A tenant without runtimes. *)
Definition alone : CWorld := mkCWorld (mkWorld (empty_db []) [] 0 0) (tables []) [].
Definition prepared_of (req : TaskSubmitRequest) (c : CWorld) : prepared :=
  match (prepare req c).1 with
  | Some (Ok p) => p
  | _ => mkPrepared "" (mkGovernance AgentIdentity_zero [] []) TaskRecord_zero []
  end.
Definition p7 : prepared := prepared_of request alone.
Definition created7 : CWorld := (CreateTaskWithExecutionInputRefs (p_task p7) (p_refs p7) alone).2.

Lemma no_runtime_leaves_pending_witness :
  ∃ r, task_records (c_db created7) !! t_TaskID (p_task p7) = Some r ∧ r_status r = TaskStatusPending ∧
    c_db (submit_inserted cfg request p7 created7).2 = c_db created7.
Proof.
  destruct (task_records (c_db created7) !! t_TaskID (p_task p7)) as [r|] eqn:Hr;
    [|vm_compute in Hr; discriminate Hr].
  assert (Hs : r_status r = TaskStatusPending) by (vm_compute in Hr; injection Hr as <-; reflexivity).
  exists r. split_and!; [reflexivity|exact Hs|].
  destruct (selectRuntime cfg (sr_TenantID request) (sr_PreferredRuntimeID request) created7).1 as [rt|e] eqn:He;
    [vm_compute in He; discriminate He|].
  exact (proj1 (proj2 (no_runtime_leaves_pending cfg request p7 created7 r e Hr Hs He))).
Defined.

Lemma demo_failure_never_recorded_witness :
  is_Some (find_by_key "acme" "key-1" (c_db created7)).
Proof.
  destruct (demo_prepared request "demo" p7 created7).1 as [t|e] eqn:Hd; [|vm_compute in Hd; discriminate Hd].
  exact (demo_failure_never_recorded request "demo" p7 created7 t Hd).
Defined.
End CoordExample.
