(* ===== verification/DispatchExamples.v ===== *)
(** * A dispatch answered by its runtime

    The task the coordinator example dispatched, sent to a runtime that answers
    "completed" with a signed receipt; the theorems of DispatchFacts.v applied
    to the run. *)

From S2P Require Import Prelude GoStrings Json Float64 Ext WalCodec Checkpoint Types Capability.
From S2P Require Import Governance.
From S2P Require Import TaskDef Store ProofState StoreLogic StoreSpec StoreTheorems StoreExamples.
From S2P Require Import InputRefs InputRefsFacts Receipts ReceiptFacts CoordState Artifacts.
From S2P Require Import Robotics Coordinator.
From S2P Require Import Dispatch CoordLogic CoordHandlers RoboticsFacts ArtifactFacts DispatchLogic.
From S2P Require Import DispatchFacts CoordOps CoordTheorems CoordExamples.
Open Scope Z_scope.

Module DispatchExample.
#[local] Existing Instance CapabilityExample.ext.
#[local] Existing Instance CapabilityExample.ext_laws.
#[local] Existing Instance stable_sort.
#[local] Existing Instance StoreExample.supply.
#[local] Existing Instance StoreExample.codec.
#[local] Existing Instance StoreExample.codec_laws.
#[local] Existing Instance InputRefsExample.range_as_listed.
#[local] Existing Instance InputRefsExample.toy_aead.

(** rt-1 registered its public key. *)
Definition registered_runtime : runtime_row :=
  mkRuntime "rt-1" "acme" (Some "http://rt-1") true "active" (Some (1000 * Second))
    (Some (hex_encode (ed25519_Public ReceiptExample.key))).
Definition start : CWorld :=
  CoordExample.at_time (1001 * Second)
    (CoordExample.c1 {{ c_tables := CoordExample.tables [registered_runtime] }}).

Definition sent_task : TaskRecord :=
  match CoordExample.jobs1 with JDispatch t _ :: _ => t | _ => TaskRecord_zero end.

Definition receipt_text : string :=
  Eval vm_compute in any_text (JObj (sealed ReceiptExample.key (ReceiptExample.step "e-1" ""))).
Definition reply_text : string :=
  obj_text [("status", str_text "completed"); ("execution_receipt", receipt_text)].
Definition answering : transport := λ _, Some (200, reply_text).

Definition final : CWorld := (dispatchToRuntime answering sent_task None start).2.

Definition seen (c : CWorld) : option (TaskRecordStatus * option string) :=
  (λ r, (r_status r, r_execution_receipt r)) <$> (task_records (c_db c) !! 7%N).
Example answered_dispatch :
  seen start = Some (TaskStatusDispatched, None) ∧ seen final = Some (TaskStatusCompleted, Some (jsonb_text receipt_text)).
Proof. split; vm_compute; reflexivity. Qed.

Lemma stored_receipt_signed_witness :
  ∃ r', task_records (c_db final) !! 7%N = Some r' ∧ is_Some (r_execution_receipt r') ∧
    ∃ raw key, r_execution_receipt r' = Some (jsonb_text raw) ∧ registered sent_task (runtimes start) key ∧
      receipt_signed raw key.
Proof.
  destruct (task_records (c_db start) !! 7%N) as [r|] eqn:Hr; [|vm_compute in Hr; discriminate Hr].
  destruct (task_records (c_db final) !! 7%N) as [r'|] eqn:Hr'; [|vm_compute in Hr'; discriminate Hr'].
  assert (Hold : r_execution_receipt r = None) by (vm_compute in Hr; injection Hr as <-; reflexivity).
  assert (Hnew : is_Some (r_execution_receipt r')) by (vm_compute in Hr'; injection Hr' as <-; eexists; reflexivity).
  exists r'. split_and!; [reflexivity|exact Hnew|].
  apply (stored_receipt_signed answering sent_task None start 7%N r r' Hr Hr').
  rewrite Hold. intros Hnone. rewrite Hnone in Hnew. destruct Hnew as [? [=]].
Defined.

Lemma dispatch_stores_verified_witness :
  ∃ r r', task_records (c_db start) !! 7%N = Some r ∧ task_records (c_db final) !! 7%N = Some r' ∧
    r_status r = TaskStatusDispatched ∧ r_status r' = TaskStatusCompleted ∧
    change answering sent_task (runtimes start) 7%N r r'.
Proof.
  destruct (task_records (c_db final) !! 7%N) as [r'|] eqn:Hr'; [|vm_compute in Hr'; discriminate Hr'].
  destruct (dispatch_stores_verified answering sent_task None start 7%N r' Hr') as (r & Hr & Hchange).
  exists r, r'. split_and!; [exact Hr|reflexivity| | |exact Hchange].
  - vm_compute in Hr. injection Hr as <-. reflexivity.
  - vm_compute in Hr'. injection Hr' as <-. reflexivity.
Defined.

(** Resuming from the first and from the second step. *)
Definition resume_from (step : Z) : CheckpointPayload := CheckpointExample.delta [step] step.
Lemma dispatch_keys_distinct_witness :
  runtimeDispatchIdempotencyKey sent_task (Some (resume_from 0)) ≠
  runtimeDispatchIdempotencyKey sent_task (Some (resume_from 1)).
Proof.
  intros Heq.
  destruct (dispatch_keys_distinct sent_task (resume_from 0) (resume_from 1)) as (_ & _ & Hkeys);
    [vm_compute; split; discriminate..|].
  apply Hkeys in Heq as [Hstep _]. discriminate Hstep.
Defined.

(** A robot whose tenant has a supervised policy for its runtime. *)
Definition robot_definition : string :=
  obj_text [("type", str_text "robotics_workflow");
            ("steps", arr_text [obj_text [("action", str_text "publish_prompt"); ("prompt", str_text "stop")]])].
Definition robot_policy : robotics_policy_row :=
  mkRoboticsPolicy "acme" "v1" "active" true true "Supervised" (arr_text [str_text "rt-1"]) true None 0.
Definition robot_world : CWorld :=
  start {{ c_tables ::= λ t, t {{ robotics_policy_settings := [robot_policy] }} }}.


(** A reference granted under envelope "env-1", and artifacts of its use. *)
Definition granted : credential_row :=
  mkCredentialRow "env-1" 7%N "acme" (mkCredentialReference "ref-1" "acme" "7" "http" "tools.http" "" 0 true) None 0.
Definition granting : CWorld := start {{ c_tables ::= λ t, t {{ ai_credential_ref_audit := [granted] }} }}.
Definition used_envelope : string := ArtifactExample.envelope_text "".
Definition used_receipt : string := ArtifactExample.receipt_text.

Lemma revoked_credential_blocks_witness :
  is_ok (SaveExecutionArtifacts 7%N used_envelope used_receipt granting).1 = true ∧
  ∃ x c1, RevokeAICredentialReference "acme" "ref-1" granting = (Ok x, c1) ∧
    is_ok (SaveExecutionArtifacts 7%N used_envelope used_receipt (c1 {{ c_world := c_world granting }})).1 = false.
Proof.
  split; [vm_compute; reflexivity|].
  destruct (RevokeAICredentialReference "acme" "ref-1" granting) as [[x|e] c1] eqn:Hrev;
    [|apply (f_equal (is_ok ∘ fst)) in Hrev; vm_compute in Hrev; discriminate Hrev].
  assert (Hx : x = revoke_credential (1001 * Second) granted).
  { apply (f_equal fst) in Hrev. vm_compute in Hrev. injection Hrev as <-. vm_compute. reflexivity. }
  exists x, c1. split; [reflexivity|].
  destruct (aiToolAuditRefs used_envelope used_receipt) as [refs|] eqn:Hrefs; [|vm_compute in Hrefs; discriminate Hrefs].
  pose proof (revoked_credential_blocks "acme" "ref-1" granting x c1 7%N used_envelope used_receipt refs
    (c_world granting) Hrev Hrefs) as Hb. subst x.
  assert (Hid : ta_EnvelopeID refs = "env-1" ∧ ta_Capability refs = "tools.http")
    by (vm_compute in Hrefs; injection Hrefs as <-; split; reflexivity).
  destruct Hid as [Hid Hcap]. rewrite Hid, Hcap in Hb.
  specialize (Hb eq_refl ltac:(discriminate) (or_introl eq_refl)).
  destruct (SaveExecutionArtifacts _ _ _ _). exact (proj1 Hb).
Defined.

(** An execution another tenant has recorded. *)
Definition context_of (tenantID : string) : ExecutionContextRecord :=
  mkContextRecord "e-9" tenantID None "" "" "" "" "" false "" "" "" "" "" "" "" "".
Definition recorded : CWorld := (SaveExecutionContext (Some (context_of "umbrella")) start).2.

Lemma context_tenant_isolated_witness :
  xc_tenant_id <$> contexts recorded = ["umbrella"] ∧
  is_ok (SaveExecutionContext (Some (context_of "acme")) recorded).1 = false ∧
  contexts (SaveExecutionContext (Some (context_of "acme")) recorded).2 = contexts recorded.
Proof.
  split; [vm_compute; reflexivity|].
  pose proof (context_tenant_isolated (context_of "acme") recorded) as Hiso.
  destruct (SaveExecutionContext (Some (context_of "acme")) recorded) as [r c']. cbn [fst snd].
  destruct (head (filter (λ x, xc_execution_id x = "e-9") (contexts recorded))) as [x|] eqn:Hx;
    [|vm_compute in Hx; discriminate Hx].
  destruct (proj2 (proj2 Hiso) x Hx) as [Hsame Hrefused].
  - vm_compute in Hx. injection Hx as <-. discriminate.
  - split; [apply Hrefused; discriminate|exact Hsame].
Defined.

(** The same reference granted again after its revocation. *)
Definition revoked : CWorld := (RevokeAICredentialReference "acme" "ref-1" granting).2.
Definition again : TaskPermissionEnvelope :=
  mkPermissionEnvelope "" "env-2" "acme" "7" None AgentIdentity_zero [] [] [ca_ref granted] 0 0 None "".
Definition regranted : CWorld := (SaveTaskPermissionEnvelope 7%N (Some again) revoked).2.

Lemma revocation_permanent_witness :
  ca_envelope_id <$> credentials regranted = ["env-2"] ∧
  ∃ y, y ∈ credentials regranted ∧ ref_ReferenceID (ca_ref y) = "ref-1" ∧ ca_revoked_at y = Some (1001 * Second).
Proof.
  split; [vm_compute; reflexivity|].
  destruct (revocation_permanent 7%N (Some again) revoked (revoke_credential (1001 * Second) granted)) as (y & Hy & Hid & _ & Hat).
  - apply list_elem_of_fmap. exists granted. split; [reflexivity|apply list_elem_of_here].
  - by eexists.
  - exists y. split_and!; [exact Hy|exact Hid|exact Hat].
Defined.
End DispatchExample.
