(* ===== verification/CallbackExamples.v ===== *)
(** * Concrete callbacks

    A runtime completes its task with a signed callback; the same request again
    is refused; with a retention of one freshness window it is accepted twice. *)

From S2P Require Import Prelude GoStrings Json Ext WalCodec Checkpoint Types Capability Governance.
From S2P Require Import Store StoreLogic StoreSpec StoreTheorems StoreExamples InputRefs.
From S2P Require Import InputRefsFacts.
From S2P Require Import Receipts ReceiptFacts CoordState Coordinator Callbacks CoordLogic.
From S2P Require Import CallbackFacts.
Open Scope Z_scope.

Module CallbackExample.
#[local] Existing Instance demo_ext.
#[local] Existing Instance stable_sort.
#[local] Existing Instance StoreExample.supply.
#[local] Existing Instance StoreExample.codec.
#[local] Existing Instance StoreExample.codec_laws.
#[local] Existing Instance InputRefsExample.range_as_listed.
#[local] Existing Instance InputRefsExample.toy_aead.

Definition start : time := 1000 * Second.

Definition registered : Tables := mkTables
  [mkRuntime "rt-1" "acme" (Some "http://rt-1") true "active" None (Some (hex_encode ReceiptExample.key))]
  [] [] ∅ ∅ [] [] [] [] ∅ [] [] [] [] [] [] [] [] [].

(** The task of [StoreExample], dispatched to rt-1. *)
Definition running : CWorld := at_time start [] (mkCWorld StoreExample.w2 registered []).

(** The envelope of a completion with an empty body, dated [ms]. *)
Definition unsigned (ms : Z) : runtimeCallbackEnvelope :=
  mkCallbackEnvelope runtimeCallbackVersion "acme" (uuid_String 7%N) "rt-1" "complete" (sha256_hex "") ms "n-1"
    runtimeCallbackAlgorithm "".
Definition signature (ms : Z) : string :=
  b64_encode (ed25519_Sign ReceiptExample.key (sha256 (canonicalRuntimeCallbackEnvelope (unsigned ms)))).
Definition header (ms : Z) : string :=
  obj_text [("version", str_text runtimeCallbackVersion); ("tenant_id", str_text "acme");
    ("task_id", str_text (uuid_String 7%N)); ("runtime_id", str_text "rt-1"); ("callback_type", str_text "complete");
    ("body_digest", str_text (sha256_hex "")); ("timestamp_unix_ms", num_text ms); ("nonce", str_text "n-1");
    ("algorithm", str_text runtimeCallbackAlgorithm); ("signature", str_text (signature ms))].
Definition completion (ms : Z) : callback_request := mkCallback (uuid_String 7%N) "acme" (header ms) "rt-1" "".

Definition task : TaskRecord := row_task (StoreExample.row_of StoreExample.w2).
Abbreviation validate ms := (validateRuntimeCallback (completion ms) task "acme" "complete").

(** The callback is accepted and completes the task. *)
Lemma completed :
  match (handle_callback CbComplete (completion 1000000) running).1 with
  | RTask t None => t_Status t = TaskStatusCompleted
  | _ => False
  end.
Proof. vm_compute. reflexivity. Qed.

Definition accepted : CWorld := (validate 1000000 running).2.
Definition cleaned : CWorld := (CleanupExpiredRuntimeCallbackNonces 0 (at_time (start + Minute) [] accepted)).2.


(** The comment on the cleanup says a retention of one freshness window never
    removes protection too early.  An envelope dated at the end of the window is
    accepted, its nonce removed after five minutes, and the envelope accepted
    again. *)
Lemma early_cleanup_replays :
  let ms := 1000000 + 300000 in
  let later := start + runtimeCallbackFreshness + Second in
  let c1 := (validate ms running).2 in
  let c2 := (CleanupExpiredRuntimeCallbackNonces runtimeCallbackFreshness (at_time later [] c1)).2 in
  cv_reason (validate ms running).1 = "" ∧ cv_reason (validate ms c2).1 = "".
Proof. vm_compute. split; reflexivity. Qed.
End CallbackExample.
