(* ===== verification/ProposalExamples.v ===== *)
(** * Concrete proposals

    A proposal from draft to approval, and two ways around the review: an update
    that read the draft before its approval overwrites it afterwards, and a
    simulation of older criteria lets newer ones be approved. *)

From S2P Require Import Prelude GoStrings Json Ext WalCodec Checkpoint Types Capability Governance.
From S2P Require Import Store StoreExamples InputRefs InputRefsFacts CoordState Artifacts.
From S2P Require Import Coordinator.
From S2P Require Import PolicyProposals CallbackFacts ProposalFacts.
Open Scope Z_scope.

Module ProposalExample.
#[local] Existing Instance demo_ext.
#[local] Existing Instance stable_sort.
#[local] Existing Instance StoreExample.supply.
#[local] Existing Instance StoreExample.codec.
#[local] Existing Instance StoreExample.codec_laws.
#[local] Existing Instance InputRefsExample.range_as_listed.
#[local] Existing Instance InputRefsExample.toy_aead.
#[local] Instance jsonb_laws : JsonbLaws := demo_jsonb_laws (λ _, "").

Definition no_tables : Tables := mkTables [] [] [] ∅ ∅ [] [] [] [] ∅ [] [] [] [] [] [] [] [] [].
Definition empty : CWorld := mkCWorld StoreExample.w2 no_tables [].

Definition refunds : MatchCriteria := mkCriteria "7d" "refund" "" "" "" "" true false false.
Definition everything : MatchCriteria := mkCriteria "30d" "" "" "" "" "" false false false.
Definition input : CreateInput := mkCreateInput "Hold refunds" "Refunds without proof" PolicyModeRequireApproval refunds.
Definition to_status (s : string) : UpdateInput := mkUpdateInput None None None None (Some s).
Definition to_criteria (m : MatchCriteria) : UpdateInput := mkUpdateInput None None None (Some m) None.

Definition creation : string * proposal_op * time * list fault := ("acme", PCreate "ann" input, 4, []).
Definition created : CWorld := run_history [creation] empty.
Definition id : string :=
  match policy_proposals (c_tables created) with x :: _ => uuid_String (pr_proposal_id x) | [] => "" end.
Definition summary : string := obj_text [("affected_runs", num_text 3)].

(** Simulated, ready for review and approved, with a failing commit between. *)
Definition steps : list (string * proposal_op * time * list fault) :=
  [("acme", PSimulate id summary 3 10, 5, []); ("acme", PApprove id, 6, []);
   ("acme", PUpdate id (to_status StatusReviewReady), 7, [FOk; FOk; FOk; FOk; FErr]);
   ("acme", PUpdate id (to_status StatusReviewReady), 8, []); ("acme", PApprove id, 9, [])].
Definition approved : CWorld := run_history (creation :: steps) empty.
Abbreviation rows c := (policy_proposals (c_tables c)).
Definition statuses (c : CWorld) : list string := pr_status <$> rows c.

Lemma lifecycle : statuses created = [StatusDraft] ∧ statuses (run_history (take 3 steps) created) = [StatusDraft] ∧
  statuses approved = [StatusApproved] ∧
  pv_event_type <$> policy_proposal_events (c_tables approved) = ["created"; "simulated"; "status_changed"; "approved"].
Proof. vm_compute. done. Qed.

Lemma ok_empty : proposals_ok (proposals_of (c_tables empty)).
Proof. split; constructor. Qed.

Lemma ok_approved : proposals_ok (proposals_of (c_tables approved)).
Proof.
  apply (proposals_keep (λ _, True)); [done|apply ok_empty|done].
Qed.


(** Edited by another tenant, edited and archived by its own. *)
Definition attempts : list (string * proposal_op * time * list fault) :=
  [("evil", PUpdate id (to_criteria everything), 10, []); ("acme", PUpdate id (to_criteria everything), 11, []);
   ("acme", PArchive id, 12, []); ("acme", PUpdate id (to_criteria everything), 13, [])].

Lemma approved_proposals_frozen_witness :
  Forall (λ x, frozen x (proposals_of (c_tables (run_history attempts approved)))) (rows approved) ∧ rows approved ≠ [].
Proof.
  split; [|vm_compute; discriminate]. apply Forall_forall. intros x Hx.
  destruct (approved_proposals_frozen attempts approved x ok_approved Hx) as [Hf _]. apply Hf.
  assert (pr_status x ∈ statuses approved) as Hst by (apply list_elem_of_fmap; by exists x).
  assert (Hs : statuses approved = [StatusApproved]) by (vm_compute; reflexivity). rewrite Hs in Hst.
  by apply list_elem_of_singleton in Hst.
Defined.


(** ** Around the review *)

(** [Update] reads the proposal and writes what it read in a transaction whose
    condition does not look at the status.  Read as a draft, the edit lands after
    the approval: an approved proposal is a draft again, with other criteria. *)
Definition planned : res (Proposal * bool) :=
  cur ← (proposal_Get "acme" id created).1; update_plan cur (to_criteria everything).

Lemma late_update_reopens_approval :
  match planned with
  | Ok (next, changed) =>
    let c' := (update_write "acme" (to_criteria everything) next changed approved).2 in
    statuses approved = [StatusApproved] ∧ statuses c' = [StatusDraft] ∧ criteria_of <$> rows c' = [everything]
  | Err _ => False
  end.
Proof. vm_compute. done. Qed.

(** A saved simulation survives an edit of the criteria it simulated: approval
    only asks that there is one. *)
Lemma stale_simulation_approved :
  let h := [("acme", PSimulate id summary 3 10, 5, []); ("acme", PUpdate id (to_criteria everything), 6, []);
            ("acme", PUpdate id (to_status StatusReviewReady), 7, []); ("acme", PApprove id, 8, [])] in
  statuses (run_history h created) = [StatusApproved] ∧ criteria_of <$> rows (run_history h created) = [everything] ∧
  pr_latest_simulation_json <$> rows (run_history h created) = [Some summary].
Proof. vm_compute. done. Qed.
End ProposalExample.
